(* ===== verification/_CoqProject ===== *)
-Q . S2P
Prelude.v
Program.v
Concurrent.v
Text.v
Framing.v
Base64.v
Json.v
Cbor.v
CodecModel.v
Gate.v
ResponseSequence.v
NativePayload.v
TcpServer.v
TcpClient.v
TcpSession.v
Lifecycle.v
LifecycleStore.v
LifecycleSqlite.v
LifecyclePolicies.v
DispatchAdmission.v
DispatchTicket.v
TrustStore.v
RelayWire.v
RelaySession.v
RelayWorker.v
RelayBind.v
RelayExec.v
HttpResource.v
Chars.v
ClientTypes.v
IpAddr.v
ClientEffects.v
Confidential.v
Endpoint.v
HttpClient.v
IntentPolicy.v
RoutingPolicy.v
Selection.v
ConsumerToken.v
Directory.v
Client.v
SubmitSafety.v
SubmitFailover.v
ClientWitness.v
Proxy.v
ProxySafety.v
Signing.v
Membership.v
PeerManager.v
PeerSafety.v
PeerWitness.v
McpPolicy.v
McpGateway.v
McpGatewaySafety.v
Capability.v
PolicyEval.v
Recovery.v
Provider.v
NodeTask.v
NodeTaskSlots.v
NodeTaskReplay.v
NodeTaskGates.v
NodeTaskMetrics.v
NodeTaskWitness.v
NodeRuntime.v
NodeHeartbeat.v
NodeRecovery.v
NodeCounters.v
NodeRegistration.v
NodeRuntimeWitness.v
RuntimeConfig.v
Secrets.v
SecretMigration.v
ServeOptions.v
Reachability.v
Serve.v
LocalDirectory.v
InstanceLock.v
