(* ===== verification/Prelude.v ===== *)
(** * Verification library for the IICP Rust client

    The repository is the Rust SDK of IICP, a protocol by which consumers send
    inference tasks to provider nodes, directly or through relays.  This
    library models the parts of [src/src/] that carry the protocol's own logic
    and proves what makes them correct.  This file is the root: it documents the
    development and holds what all files share (automation, results, machine
    integers, bytes).  [Text.v] adds Rust's string operations.

    ** The program and the files that model it

    - _Native transport_ ([iicp_tcp.rs]).  Frames: [Framing.v].  Payloads: JSON
      values with serde_json's number kinds ([Json.v]), CBOR values, the
      conversion between the two ([Cbor.v]), base64 ([Base64.v]) and the
      payloads of each message ([NativePayload.v]).  Server: [TcpServer.v],
      [handle_connection] as a function of the chunks the socket delivers, with
      [dispatch] and the handlers [on_init], [on_ping], [on_discover], [on_call]
      and [on_stream_call].  Client: [TcpClient.v], every operation of
      [IicpTcpClient] in a small state-and-error monad over an abstract
      [Transport].  [TcpSession.v] makes the server an instance of that
      interface, proves the operations end to end and applies the theorems to a
      concrete server.
    - _Response streams_ ([native_response_sequence.rs],
      [native_call_identity.rs]): [ResponseSequence.v].
    - _Concurrency limits_ ([concurrency.rs], [cip_policy.rs]): [Gate.v].  The
      compare-and-swap loops are step relations over all interleavings of their
      atomic instructions; the sequential reading of the same operations is what
      the server uses.
    - _Task lifecycle_ ([service_lifecycle*.rs]): [Lifecycle.v] (states, the
      cancellation registry, the observer buffer), [LifecycleStore.v] (the class
      [LifecyclePersistence], the in-memory store, and the routes against the
      class), [LifecycleSqlite.v] (the durable store as operations on its two
      tables), [LifecyclePolicies.v] (accounting, distributed
      profile, identity).
    - _Dispatch_ ([dispatch_admission*.rs], [dispatch_ticket*.rs]):
      [DispatchAdmission.v], [DispatchTicket.v], [TrustStore.v].
    - _Relay_ ([relay_session.rs], [relay_ticket.rs], [relay_worker_client.rs],
      the relay endpoints of [node.rs]): [RelayWire.v] (frames and integer-key
      maps), [RelaySession.v] (calls and streams of one bound worker, shared by
      its handles), [RelayWorker.v] (the relay's read loop and the worker's
      loop), [RelayBind.v] (bind tickets, the registry with its rate limit, the
      accept handler, HTTP bind and unbind), [RelayExec.v] (all interleavings of
      those handlers).

    - _Programs and interleavings_: [Program.v] (effectful code as trees of
      actions with typed answers, [prog], its runs and step bounds),
      [Concurrent.v] (many programs over one shared world, the relation [exec]
      over all interleavings, [tally] for counting).  Client, node, peer, proxy
      and gateway code is written as such programs.
    - _Client_ ([client.rs], [http.rs], [http_resource.rs], [types.rs],
      [endpoint_security.rs], [policy.rs], [routing_policy.rs], [selection.rs],
      [consumer_token.rs], [restricted_directory.rs], [confidentiality.rs]):
      [HttpResource.v] (bounded header and body rules), [ClientTypes.v],
      [IpAddr.v] and [Endpoint.v] (address guard), [ClientEffects.v] (the actions
      of the client and the classes [UrlOps] and [SerdeOps]), [Confidential.v]
      (sealing and opening), [HttpClient.v] (transmission with redirects and
      retries), [IntentPolicy.v], [RoutingPolicy.v], [Selection.v],
      [ConsumerToken.v], [Directory.v] (discovery and ticketed routes),
      [Client.v] (the submit path), [SubmitSafety.v] (whom it reaches and with
      what), [SubmitFailover.v] (how its posts and result follow the answers),
      [ClientWitness.v] (concrete runs).
    - _Proxy_ ([proxy/*.rs]): [Proxy.v], [ProxySafety.v].
    - _Profiles and policies_ ([effective_capability.rs],
      [profile_compatibility.rs], [operator_profile.rs]): [Capability.v];
      ([policy_data_handling.rs], [policy_operational_evidence.rs],
      [policy_detail_disclosure.rs]): [PolicyEval.v].
    - _Signatures_ ([pricing.rs], [jcs.rs], [delegation.rs],
      [token_validator.rs], [policy_manifest.rs]): [Signing.v];
      [restricted_membership.rs]: [Membership.v].
    - _Peers_ ([peer_manager.rs], the peer and relay endpoints of [node.rs]):
      [PeerManager.v], [PeerSafety.v], [PeerWitness.v].
    - _MCP gateway_ ([mcp_policy.rs], [mcp_negotiation.rs], [run_mcp_gateway] of
      [bin/iicp_node.rs]): [McpPolicy.v], [McpGateway.v], [McpGatewaySafety.v];
      [Chars.v] holds character-level string operations.
    - _Node_ ([node.rs], [availability.rs], [backend_stability.rs],
      [idempotency.rs]): [Provider.v] (windows, stability observations,
      duplicate guard), [NodeTask.v] (the task endpoint as the program each
      request runs, and the counters of the heartbeat loop), with its theorems in
      [NodeTaskSlots.v], [NodeTaskReplay.v], [NodeTaskGates.v],
      [NodeTaskMetrics.v] and [NodeTaskWitness.v].
    - _Node runtime_ ([node.rs], [recovery.rs], [runtime_health.rs]):
      [Recovery.v] (the recovery rules and the health record), [NodeRuntime.v]
      (registration, credentials, the heartbeat loop of [serve], the relay and
      native handlers) with its theorems in [NodeHeartbeat.v] (what a heartbeat
      carries and changes), [NodeRecovery.v] (when the process restarts),
      [NodeCounters.v] (refinement to the counter loop of [NodeTask.v]),
      [NodeRegistration.v] (registration and saved credentials), and
      [NodeRuntimeWitness.v].
    - _Configuration and secrets_ ([runtime_config.rs], [config_wizard.rs]):
      [RuntimeConfig.v]; ([secret_store.rs]): [Secrets.v]; ([config
      migrate-node-secrets] of [bin/iicp_node.rs]): [SecretMigration.v].
    - _Serving_ ([bin/iicp_node.rs]): [ServeOptions.v] ([parse_args] and
      [apply_saved_node]), [Reachability.v] (the decisions between address
      detection, tunnel and relay), [Serve.v] ([run_serve]);
      ([local_directory_discovery.rs]): [LocalDirectory.v];
      ([instance_lock.rs]): [InstanceLock.v].  [Serve.v] asks for the effects
      that the other files model: the options come from [ServeOptions.v], the
      configuration it hands over is the [NodeConfig] of [NodeRuntime.v], and the
      lock and the local directory are single actions of it.

    Definitions keep the names of the source; a definition that models a part of
    a function is named after what the part does.  Results of Rust's [Result]
    are [result] below, [let?] is the [?] operator.  Integers are [Z] with the
    wrap-around or saturation of the source written out; bytes are
    [Byte.byte]; maps are [gmap], except JSON objects, which are key-sorted
    association lists as serde_json keeps them.  The clock, random identifiers
    and what arrives from outside are arguments.

    ** What the theorems show

    Transport: framing and payloads are inverse to their readers, and the value
    conversion loses exactly the integers above [i64::MAX]; the connection
    handler serves exactly the frames of its byte stream however the bytes are
    chunked, answers nothing before a valid INIT and leaks no concurrency slot;
    the client's calls and streams return what the provider's callbacks say, and
    a stream that ends without an error was complete whatever the peer sent.

    Limits: under every interleaving the gate's counter is the number of its
    holders and within its limit.

    Lifecycle: every record keeps a bounded consecutive log of legal
    transitions; terminal records are final; submission is idempotent; resuming
    an observation is exact; the durable store simulates the in-memory one;
    nothing but content-free details becomes durable; unauthorised requests
    never touch the store.

    Dispatch: no ticket is admitted or accepted twice; v2 tickets are accepted
    exactly when admissible; trust bundles never roll back.

    Relay: relayed streams are valid and complete or end with an error, relayed
    calls reach their own caller, calls answered out of order all return; under
    every interleaving of handlers a bind is backed by a ticket of its own
    (where tickets are required), the registry holds no session of a finished
    handler, and bind attempts are rate-limited; when bind sections do not
    overlap the registry is capped and open sessions are not displaced.

    Client: over a whole submission every request that the client makes is one of
    the configured directory's routes or goes to a checked, pinned provider
    address (redirects that the HTTP library follows for an unrestricted directory
    are its own); tasks are posted only to
    nodes that the directory returned and every filter let through, sealed for
    nodes with a key, at most nine times; a busy node is asked again and the next
    candidate follows one that cannot be had, until an answer settles the
    submission; routing and intent policies are equivalent to their declarative readings;
    ticketed candidates stand in verified answers; consumer tokens are bound to
    caller, provider and intent; what one side seals the other opens.

    Proxy: planning is exact, the gateway submits at most one task per request
    and only to the workers the gates let through, and each chat surface answers
    as the failure table says.

    Node: the active-jobs counter is the number of slot holders under every
    interleaving; a handler runs at most once per request behind every gate;
    nonces and task identifiers are accepted once per 300 seconds; waiting for a
    slot ends; every counted task is in exactly one heartbeat batch or still in
    the counters.

    Node runtime: heartbeats carry the token and availability of the moment;
    credentials, models and endpoint change only to what an accepted registration
    said; the loop loses no counted task; a supervised node restarts only, and always,
    when its route is gone for the grace number of checks; a failed registration changes
    nothing; saved credentials are written last and only where they belong.

    Configuration and serving: validation accepts exactly the well-formed
    configurations; settings follow the documented precedence except where command
    line and environment both name a mode; the wizard's command line reproduces
    its report; a secret file is replaced at once or not at all, and a migration
    of credentials loses none under the conditions its theorem names; serving
    locks, probes, registers and listens as the node and the address of its
    options, and local-only mode keeps it off the network; two processes never
    both take, unforced, a lock that started free; a local directory is taken only from a host that
    served a descriptor signed for the trusted directory.

    Peers and gateway: every peer in the table is admissible at every moment, revoked generations leave the peer table for good, gossip
    is authenticated and not replayed, election is deterministic; MCP tools are
    called only behind the risk policy and by their own name, with one holder of the shared session at
    a time, who releases it after finitely many steps whatever the server does.

    ** Fuel and bounds

    [TcpServer.session_loop], [RelayWorker.relay_loop] and
    [RelayWorker.worker_loop] take the input's length as fuel; each frame
    consumes at least its twelve header bytes, and the refinement theorems are
    proved for that fuel without a hypothesis that it suffices.  Waiting for a
    slot ([NodeTask.admit_wait]) has one round more than the forty that the
    timeout allows, and its theorem shows that the fuel is not reached when
    sleeping takes the time asked for; the heartbeat loop takes the number of
    its rounds; [InstanceLock.acquire] makes the two attempts of the source, and
    [InstanceLock.words] has the length of the text and one more.  A run of
    [Serve.run_serve] performs at most 49 effects, a task request at most 226.
    Every other program is structural.  Codec
    nesting limits are those of the libraries (256 for ciborium, 127 below the
    root for serde_json).

    ** What is taken as given

    Code outside the repository is a parameter: the byte codecs of ciborium and
    serde_json ([CborCodec], [JsonCodec] with their round-trip laws, which
    [CodecModel.v] shows can hold), Ed25519, SHA-256, hexadecimal and base64
    decoders, derived JSON parsers, and the provider's callbacks; URL parsing
    ([UrlOps]), X25519 and the AEAD ([CxCrypto]), relay tickets' signatures
    ([RelayCrypto]), [SigningLib] and [SignedDomain] for the other signatures,
    and [str::to_lowercase] beyond ASCII.  The witness files instantiate each of
    them.  A secret store may fail, hide a secret that it holds or save late
    ([SecretMigration.migration_move] allows each).  The SQLite engine is its tables' contents after each statement or
    transaction.

    ** What is not modelled

    Opening sockets, timers (an expired timer is an argument of the waiting
    operation), tracing, and the code that is input and output: the HTTP
    adapters of the backends ([backends/]), the tunnel process ([tunnel.rs]) and
    address probing ([nat_detection.rs]), which are actions with any answer where
    they are used; key files and their encryption ([identity.rs],
    [operator_crypto.rs]); operator tooling ([updater.rs], [node_log.rs],
    [conformance.rs], [qualify.rs], [trust_auditor.rs]) and the interactive commands
    of [bin/iicp_node.rs].  A handler that is dropped because its connection closes
    midway is modelled for the task endpoint only through the panicked request;
    in the MCP gateway, where waiting for the session lock is one failing
    attempt, not at all. *)

From stdpp Require Export base gmap strings list pretty.
From Stdlib Require Export Strings.Byte Ascii.
From Stdlib Require Export ZArith Lia.

Global Open Scope Z_scope.

(** ** Automation

    [iicp] collects the lemmas that close the routine side goals (ranges of
    machine integers, membership in literal lists); [iicp_rw] the rewriting
    rules of the string and list helpers below. *)

Create HintDb iicp discriminated.
Create HintDb iicp_rw.

(** ** Results

    Rust's [Result<T, E>].  [let? x := e in k] is the [?] operator, [let! x :=
    e in k] is [?] on an [Option]. *)

Inductive result (A E : Type) : Type :=
| Ok (a : A)
| Err (e : E).
Arguments Ok {A E} a.
Arguments Err {A E} e.

Declare Scope iicp_scope.
Delimit Scope iicp_scope with iicp.
Global Open Scope iicp_scope.

Definition rbind {A B E} (r : result A E) (k : A -> result B E) : result B E :=
  match r with Ok a => k a | Err e => Err e end.

Notation "'let?' x := e 'in' k" := (rbind e (fun x => k))
  (at level 200, x pattern, e at level 200, k at level 200,
   format "'[v' 'let?'  x  :=  e  'in' '/' k ']'") : iicp_scope.

Notation "'let!' x := e 'in' k" := (mbind (fun x => k) e)
  (at level 200, x pattern, e at level 200, k at level 200,
   format "'[v' 'let!'  x  :=  e  'in' '/' k ']'") : iicp_scope.

Definition ok_or {A E} (o : option A) (e : E) : result A E :=
  match o with Some a => Ok a | None => Err e end.

Definition map_err {A E F} (f : E -> F) (r : result A E) : result A F :=
  match r with Ok a => Ok a | Err e => Err (f e) end.

Definition result_ok {A E} (r : result A E) : option A :=
  match r with Ok a => Some a | Err _ => None end.

Definition is_ok {A E} (r : result A E) : bool :=
  match r with Ok _ => true | Err _ => false end.

Global Instance result_eq_dec {A E} `{EqDecision A, EqDecision E} :
  EqDecision (result A E).
Proof. solve_decision. Defined.

Lemma rbind_Ok {A B E} (r : result A E) (k : A -> result B E) b :
  rbind r k = Ok b <-> exists a, r = Ok a /\ k a = Ok b.
Proof. destruct r; simpl; naive_solver. Qed.

(** [Option::or] *)
Definition option_or {A} (a b : option A) : option A :=
  match a with Some x => Some x | None => b end.

Definition is_some {A} (o : option A) : bool :=
  match o with Some _ => true | None => false end.
Definition is_none {A} (o : option A) : bool := negb (is_some o).

(** [Option::is_some_and] and [Option::is_none_or] *)
Definition is_some_and {A} (o : option A) (p : A -> bool) : bool :=
  match o with Some a => p a | None => false end.
Definition is_none_or {A} (o : option A) (p : A -> bool) : bool :=
  match o with Some a => p a | None => true end.

Lemma is_some_and_true {A} (o : option A) p :
  is_some_and o p = true <-> exists a, o = Some a /\ p a = true.
Proof. destruct o; simpl; naive_solver. Qed.

(** ** Machine integers

    A w-bit integer is a [Z]; the wrap-around and the saturation of the source
    are written out at the places that use them. *)

Definition u8_max : Z := 2 ^ 8 - 1.
Definition u16_max : Z := 2 ^ 16 - 1.
Definition u32_max : Z := 2 ^ 32 - 1.
Definition u64_max : Z := 2 ^ 64 - 1.
Definition i64_max : Z := 2 ^ 63 - 1.
Definition i64_min : Z := - 2 ^ 63.

Definition in_u64 (z : Z) : Prop := 0 <= z <= u64_max.

(** [+] on [u64] in a release build wraps. *)
Definition u64_add (a b : Z) : Z := (a + b) mod 2 ^ 64.
(** [saturating_add] and [saturating_sub] on [u64] *)
Definition u64_sat_add (a b : Z) : Z := Z.min (a + b) u64_max.
Definition u64_sat_sub (a b : Z) : Z := Z.max (a - b) 0.
(** [as i64] applied to a [u64] reinterprets the bits. *)
Definition u64_as_i64 (a : Z) : Z :=
  if a mod 2 ^ 64 <? 2 ^ 63 then a mod 2 ^ 64 else a mod 2 ^ 64 - 2 ^ 64.

Lemma u64_add_small a b : 0 <= a + b <= u64_max -> u64_add a b = a + b.
Proof. unfold u64_add, u64_max. intros. apply Z.mod_small. lia. Qed.

Lemma u64_as_i64_small a : 0 <= a <= i64_max -> u64_as_i64 a = a.
Proof.
  unfold u64_as_i64, i64_max. intros.
  rewrite Z.mod_small by lia. destruct (Z.ltb_spec a (2 ^ 63)); lia.
Qed.

(** Bitwise or of a shifted value and one that fits below it is a sum. *)
Lemma lor_shifted x y n : 0 <= n -> 0 <= y < 2 ^ n -> Z.lor (x * 2 ^ n) y = x * 2 ^ n + y.
Proof.
  intros Hn Hy.
  assert (Z.land (x * 2 ^ n) y = 0) as Hl.
  { apply Z.bits_inj'. intros k Hk. rewrite Z.land_spec, Z.bits_0.
    destruct (Z.ltb_spec k n); [by rewrite Z.mul_pow2_bits_low by lia|].
    rewrite andb_false_iff. right. destruct (Z.eq_dec y 0) as [->|]; [apply Z.bits_0|].
    apply Z.bits_above_log2; [lia|]. apply Z.log2_lt_pow2; [lia|].
    pose proof (Z.pow_le_mono_r 2 n k). lia. }
  rewrite Z.add_nocarry_lxor by done. by rewrite Z.lxor_lor.
Qed.

(** ** Bytes *)

Definition u8_to_Z (b : byte) : Z := Z.of_N (Byte.to_N b).
(** [as u8] *)
Definition u8_of_Z (z : Z) : byte :=
  default x00 (Byte.of_N (Z.to_N (z mod 256))).

Lemma u8_to_Z_range b : 0 <= u8_to_Z b < 256.
Proof. unfold u8_to_Z. pose proof (Byte.to_N_bounded b). lia. Qed.

Lemma u8_of_to_Z b : u8_of_Z (u8_to_Z b) = b.
Proof.
  unfold u8_of_Z. pose proof (u8_to_Z_range b) as H.
  rewrite Z.mod_small by lia. unfold u8_to_Z. rewrite N2Z.id.
  by rewrite Byte.of_to_N.
Qed.

Lemma u8_to_of_Z z : u8_to_Z (u8_of_Z z) = z mod 256.
Proof.
  pose proof (Z.mod_pos_bound z 256 ltac:(lia)) as H.
  unfold u8_of_Z, u8_to_Z.
  pose proof (Byte.to_of_N_option_map (Z.to_N (z mod 256))) as E.
  destruct (N.leb_spec (Z.to_N (z mod 256)) 255); [|lia].
  destruct (Byte.of_N _); simpl in *; simplify_eq. lia.
Qed.

Global Instance u8_to_Z_inj : Inj (=) (=) u8_to_Z.
Proof. intros a b E. by rewrite <- (u8_of_to_Z a), <- (u8_of_to_Z b), E. Qed.

Global Instance byte_eq_dec : EqDecision byte := Byte.byte_eq_dec.

#[export] Hint Resolve u8_to_Z_range : iicp.
#[export] Hint Rewrite u8_of_to_Z u8_to_of_Z : iicp_rw.

(** Length of a slice or [Vec], a [usize]. *)
Definition zlen {A} (l : list A) : Z := Z.of_nat (length l).

Lemma zlen_nonneg {A} (l : list A) : 0 <= zlen l.
Proof. unfold zlen. lia. Qed.
Lemma zlen_app {A} (l k : list A) : zlen (l ++ k) = zlen l + zlen k.
Proof. unfold zlen. rewrite length_app. lia. Qed.
Lemma zlen_cons {A} (x : A) l : zlen (x :: l) = zlen l + 1.
Proof. unfold zlen. simpl. lia. Qed.

#[export] Hint Resolve zlen_nonneg : iicp.
#[export] Hint Rewrite @zlen_app @zlen_cons : iicp_rw.
