(* ===== verification/Program.v ===== *)
(** * Effectful handlers as trees of actions

    Code that talks to shared state or to the network is a [prog]: it returns,
    or performs an action and continues with the answer.  [along] is reasoning
    about all paths of a program with a ghost state; [run] executes a program
    against an oracle and records what it did. *)

From S2P Require Import Prelude.

Section programs.
Context {A : Type} (resp : A -> Type).

Inductive prog (R : Type) :=
| Ret (r : R)
| Act (a : A) (k : resp a -> prog R).

(** One performed action with its answer. *)
Inductive step := Did (a : A) (r : resp a).
End programs.
Arguments Ret {A resp R} r.
Arguments Act {A resp R} a k.
Arguments Did {A resp} a r.

Fixpoint prog_bind {A} {resp : A -> Type} {R R'} (p : prog resp R) (f : R -> prog resp R') : prog resp R' :=
  match p with
  | Ret r => f r
  | Act a k => Act a (fun r => prog_bind (k r) f)
  end.
Notation "'run!' x := p 'in' k" := (prog_bind p (fun x => k))
  (at level 200, x pattern, p at level 100, k at level 200) : iicp_scope.

(** ** All paths

    [along upd ok fin s p]: on every path of [p], with a ghost state that starts
    as [s] and that [upd] moves at each answered action, every action satisfies
    [ok] and the end [fin]. *)
Section along.
Context {A : Type} {resp : A -> Type} {R S : Type}.
Context (upd : S -> forall a, resp a -> S) (ok : S -> A -> Prop) (fin : S -> R -> Prop).

Fixpoint along (s : S) (p : prog resp R) : Prop :=
  match p with
  | Ret r => fin s r
  | Act a k => ok s a /\ forall r, along (upd s a r) (k r)
  end.

(** ** One path

    The oracle answers the [n]-th action; the trace is in order. *)
Fixpoint run (answer : nat -> forall a, resp a) (n : nat) (p : prog resp R) : list (step resp) * R :=
  match p with
  | Ret r => ([], r)
  | Act a k =>
      let r := answer n a in
      let '(tr, res) := run answer (n + 1)%nat (k r) in
      (Did a r :: tr, res)
  end.

Definition upd_step (s : S) (x : step resp) : S := match x with Did a r => upd s a r end.

Lemma run_along answer n p s tr r :
  along s p -> run answer n p = (tr, r) ->
  fin (foldl upd_step s tr) r /\
  forall tr1 a x tr2, tr = tr1 ++ Did a x :: tr2 -> ok (foldl upd_step s tr1) a.
Proof.
  revert n s tr r. induction p as [r0|a k IH]; intros n s tr r Ha E; simpl in *.
  - injection E as <- <-. split; [done|]. intros [|? ?]; done.
  - destruct (run answer (n + 1) (k (answer n a))) as [tr' r'] eqn:E'. injection E as <- <-.
    destruct Ha as [Hok Hk]. destruct (IH _ _ _ _ _ (Hk (answer n a)) E') as [Hf Hs]. split; [done|].
    intros [|x0 tr1] b x tr2 Heq; simpl in Heq; [by injection Heq as <- _|].
    injection Heq as <- Heq. by apply (Hs tr1 b x tr2).
Qed.
End along.

Lemma along_bind {A} {resp : A -> Type} {R R' S} (upd : S -> forall a, resp a -> S) (ok : S -> A -> Prop)
    (mid : S -> R -> Prop) (fin : S -> R' -> Prop) s (p : prog resp R) f :
  along upd ok mid s p -> (forall s r, mid s r -> along upd ok fin s (f r)) ->
  along upd ok fin s (prog_bind p f).
Proof.
  intros Hp Hf. revert s Hp. induction p as [r|a k IH]; intros s Hp; simpl in *; [by apply Hf|].
  destruct Hp as [Hok Hk]. split; [done|]. intros r. by apply IH.
Qed.

Lemma along_mono {A} {resp : A -> Type} {R S} (upd : S -> forall a, resp a -> S) (ok : S -> A -> Prop)
    (fin fin' : S -> R -> Prop) s (p : prog resp R) :
  (forall s r, fin s r -> fin' s r) -> along upd ok fin s p -> along upd ok fin' s p.
Proof.
  intros H. revert s. induction p as [r|a k IH]; intros s; simpl; [apply H|]. intros [? Hk]. split; [done|]. auto.
Qed.

(** The trace itself as ghost state. *)
Definition log {A} {resp : A -> Type} (s : list (step resp)) (a : A) (r : resp a) : list (step resp) := s ++ [Did a r].

Lemma foldl_log {A} {resp : A -> Type} (s tr : list (step resp)) : foldl (upd_step log) s tr = s ++ tr.
Proof.
  revert s. induction tr as [|[a r] tr IH]; intros s; simpl; [by rewrite app_nil_r|].
  rewrite IH. unfold log. by rewrite <- app_assoc.
Qed.

Lemma run_logged {A} {resp : A -> Type} {R} (ok : list (step resp) -> A -> Prop) (fin : list (step resp) -> R -> Prop)
    answer n p tr r :
  along log ok fin [] p -> run answer n p = (tr, r) ->
  fin tr r /\ forall tr1 a x tr2, tr = tr1 ++ Did a x :: tr2 -> ok tr1 a.
Proof.
  intros Ha Hr. destruct (run_along log ok fin answer n p [] tr r Ha Hr) as [Hf Hs]. rewrite foldl_log in Hf.
  split; [done|]. intros tr1 a x tr2 E. specialize (Hs _ _ _ _ E). by rewrite foldl_log in Hs.
Qed.

(** Logged programs only extend the trace. *)
Lemma along_prefix {A} {resp : A -> Type} {R} (ok : list (step resp) -> A -> Prop) (fin : list (step resp) -> R -> Prop) s p :
  along log ok fin s p -> along log ok (fun s' r => fin s' r /\ s `prefix_of` s') s p.
Proof.
  enough (forall s0, s0 `prefix_of` s -> along log ok fin s p ->
    along log ok (fun s' r => fin s' r /\ s0 `prefix_of` s') s p) as H by by apply H.
  intros s0. revert s. induction p as [r|a k IH]; intros s Hs; simpl; [done|]. intros [Hok Hk].
  split; [done|]. intros r. apply IH; [|done]. by apply prefix_app_r.
Qed.

Lemma along_any {A} {resp : A -> Type} {R S} (upd : S -> forall a, resp a -> S) s (p : prog resp R) :
  along upd (fun _ _ => True) (fun _ _ => True) s p.
Proof. revert s. induction p; simpl; auto. Qed.

Lemma prefix_elem {A} (x : A) l k : l `prefix_of` k -> x ∈ l -> x ∈ k.
Proof. intros [t ->] H. apply elem_of_app. by left. Qed.

Lemma elem_last {A} (l : list A) x : x ∈ l ++ [x].
Proof. apply elem_of_app. right. by apply list_elem_of_singleton. Qed.
#[export] Hint Resolve elem_last : iicp.

(** Properties of single actions, without a ghost state. *)
Definition acts {A} {resp : A -> Type} {R} (ok : A -> Prop) (p : prog resp R) : Prop :=
  along (fun (_ : unit) a (_ : resp a) => tt) (fun _ => ok) (fun _ _ => True) tt p.

Lemma along_acts {A} {resp : A -> Type} {R S} (upd : S -> forall a, resp a -> S) ok fin (ok' : A -> Prop) s (p : prog resp R) :
  along upd ok fin s p -> (forall s a, ok s a -> ok' a) -> acts ok' p.
Proof.
  intros Hp Hok. unfold acts. revert s Hp. induction p as [r|a k IH]; intros s; simpl; [done|].
  intros [Ha Hk]. split; [by eapply Hok|]. intros r. by eapply IH.
Qed.

Lemma acts_bind {A} {resp : A -> Type} {R R'} (ok : A -> Prop) (p : prog resp R) (f : R -> prog resp R') :
  acts ok p -> (forall r, acts ok (f r)) -> acts ok (prog_bind p f).
Proof. intros Hp Hf. eapply along_bind; [exact Hp|]. intros [] r _. apply Hf. Qed.

Lemma acts_act {A} {resp : A -> Type} {R} (ok : A -> Prop) a (k : resp a -> prog resp R) :
  ok a -> (forall r, acts ok (k r)) -> acts ok (Act a k).
Proof. intros Ha Hk. split; [done|]. exact Hk. Qed.

Lemma acts_ret {A} {resp : A -> Type} {R} (ok : A -> Prop) (r : R) : acts (resp:=resp) ok (Ret r).
Proof. done. Qed.

Lemma run_acts {A} {resp : A -> Type} {R} (ok : A -> Prop) answer n (p : prog resp R) tr r :
  acts ok p -> run answer n p = (tr, r) -> Forall (fun x => match x with Did a _ => ok a end) tr.
Proof.
  intros Hp Hr. destruct (run_along _ _ _ _ _ _ _ _ _ Hp Hr) as [_ Hs]. apply Forall_forall. intros [a x] Hin.
  apply list_elem_of_split in Hin as (tr1 & tr2 & E). by eapply Hs.
Qed.

(** Interpreting the actions of one layer by programs of the layer below. *)
Fixpoint interp {A B} {respA : A -> Type} {respB : B -> Type} {R} (h : forall a, prog respB (respA a))
    (p : prog respA R) : prog respB R :=
  match p with
  | Ret r => Ret r
  | Act a k => prog_bind (h a) (fun r => interp h (k r))
  end.

Lemma acts_interp {A B} {respA : A -> Type} {respB : B -> Type} {R} (okA : A -> Prop) (okB : B -> Prop)
    (h : forall a, prog respB (respA a)) (p : prog respA R) :
  (forall a, okA a -> acts okB (h a)) -> acts okA p -> acts okB (interp h p).
Proof.
  intros Hh. induction p as [r|a k IH]; intros Hp; [apply acts_ret|]. destruct Hp as [Ha Hk].
  apply acts_bind; [by apply Hh|]. intros r. apply IH, Hk.
Qed.

(** ** The number of actions *)

Fixpoint within {A} {resp : A -> Type} (n : nat) {R} (p : prog resp R) {struct p} : Prop :=
  match p with
  | Ret _ => True
  | Act a k => match n with O => False | S n => forall r, within n (k r) end
  end.

Section within.
Context {A : Type} {resp : A -> Type}.

Lemma within_mono {R} n m (p : prog resp R) : within n p -> (n <= m)%nat -> within m p.
Proof.
  revert n m. induction p as [r|a k IH]; intros n m H Hnm; [done|]. destruct n, m; simpl in *; try done; try lia.
  intros r. eapply IH; [apply H|lia].
Qed.

Lemma within_bind {R R'} n m (p : prog resp R) (f : R -> prog resp R') :
  within n p -> (forall r, within m (f r)) -> within (n + m) (prog_bind p f).
Proof.
  intros Hp Hf. revert n Hp. induction p as [r|a k IH]; intros n Hp; cbn [prog_bind].
  - eapply within_mono; [apply Hf|lia].
  - destruct n; simpl in *; [done|]. intros r. by apply IH.
Qed.

Lemma within_run {R} n (p : prog resp R) ans m : within n p -> (length (run ans m p).1 <= n)%nat.
Proof.
  revert n m. induction p as [r|a k IH]; intros n m H; cbn [run]; [simpl; lia|]. destruct n; simpl in H; [done|].
  specialize (IH (ans m a) n (m + 1)%nat (H _)). destruct (run _ _ _) as [tr res]. simpl in *. lia.
Qed.
End within.

(** ** Moves of a world

    [always during fin s p]: where each action moves the world as [move] allows,
    on every path of [p] from [s] each world in between satisfies [during] and
    the end [fin]. *)
Section always.
Context {A : Type} {resp : A -> Type} {S : Type} (move : S -> forall a, resp a -> S -> Prop).

Fixpoint always {R} (during : S -> Prop) (fin : S -> R -> Prop) (s : S) (p : prog resp R) : Prop :=
  match p with
  | Ret r => fin s r
  | Act a k => forall r s', move s a r s' -> during s' /\ always during fin s' (k r)
  end.

Lemma always_bind {R R'} during (mid : S -> R -> Prop) (fin : S -> R' -> Prop) s (p : prog resp R) f :
  always during mid s p -> (forall s r, mid s r -> always during fin s (f r)) -> always during fin s (prog_bind p f).
Proof.
  intros Hp Hf. revert s Hp. induction p as [r|a k IH]; intros s Hp; simpl in *; [by apply Hf|].
  intros r s' Hs. destruct (Hp r s' Hs) as [? Hk]. split; [done|]. by apply IH.
Qed.
Lemma always_mono {R} (during during' : S -> Prop) (fin fin' : S -> R -> Prop) s (p : prog resp R) :
  (forall s, during s -> during' s) -> (forall s r, fin s r -> fin' s r) -> always during fin s p -> always during' fin' s p.
Proof.
  intros Hd Hf. revert s. induction p as [r|a k IH]; intros s Hp; simpl in *; [by apply Hf|].
  intros r s' Hs. destruct (Hp r s' Hs). auto.
Qed.
End always.
