(* ===== verification/Concurrent.v ===== *)
(** * Interleaved programs

    Handlers that share a world: each is a [prog], an execution spawns handlers
    and interleaves their actions at non-decreasing times, and the surroundings
    may change the world in between.  Facts proved along the paths of single
    handlers hold in every execution. *)

From S2P Require Import Prelude Program.

(** One performed action: handler, time, action and its answer. *)
Inductive event {A : Type} (resp : A -> Type) := Ev (i : nat) (t : Z) (a : A) (r : resp a).
Arguments Ev {A resp} i t a r.

Section executions.
Context {A : Type} {resp : A -> Type} {R W E : Type}.
(** [perform] is the meaning of an action in a world, [now] the time of an
    environment, [env] what the surroundings may do. *)
Context (perform : W -> E -> forall a, resp a * W) (now : E -> Z).
Context (handler : prog resp R -> Prop) (env : W -> Z -> W -> Prop) (w0 : W).

(** The newest event is the head. *)
Inductive exec : list (event resp) -> Z -> W -> list (prog resp R) -> Prop :=
| exec_start : exec [] 0 w0 []
| exec_spawn tr t w ts p : exec tr t w ts -> handler p -> exec tr t w (ts ++ [p])
| exec_env tr t w w' ts : exec tr t w ts -> env w t w' -> exec tr t w' ts
| exec_act tr t w ts i a k e r w' :
    exec tr t w ts -> ts !! i = Some (Act a k) -> t <= now e -> perform w e a = (r, w') ->
    exec (Ev i (now e) a r :: tr) (now e) w' (<[i := k r]> ts).

Lemma exec_threads tr t w ts i t' a r :
  exec tr t w ts -> Ev i t' a r ∈ tr -> (i < length ts)%nat.
Proof.
  induction 1 as [|tr t w ts p Hx IH Hh|tr t w w' ts Hx IH He|tr t w ts j b k e q w' Hx IH Hp Ht Hw];
    intros Hin; try by auto.
  - by apply elem_of_nil in Hin.
  - rewrite length_app. simpl. specialize (IH Hin). lia.
  - rewrite length_insert. apply elem_of_cons in Hin as [Hin|Hin]; [|by apply IH].
    assert (i = j) as -> by congruence. by apply lookup_lt_Some in Hp.
Qed.

Lemma exec_time_nonneg tr t w ts : exec tr t w ts -> 0 <= t.
Proof. induction 1; lia. Qed.

(** What happened before is an execution too. *)
Lemma exec_before tr2 tr1 t w ts : exec (tr2 ++ tr1) t w ts -> exists t' w' ts', exec tr1 t' w' ts'.
Proof.
  intros Hx. remember (tr2 ++ tr1) as tr eqn:Etr. revert tr2 Etr.
  induction Hx as [|tr t w ts p Hx IH Hh|tr t w w' ts Hx IH He|tr t w ts j b k e q w' Hx IH Hp Ht Hw];
    intros tr2 Etr; try by eauto.
  - destruct tr2; [|done]. simpl in Etr. subst. exists 0, w0, []. constructor.
  - destruct tr2 as [|ev tr2]; simpl in Etr; [subst; eexists _, _, _; by eapply exec_act|]. simplify_eq. by eapply IH.
Qed.

(** A fact about each event and what came before it. *)
Lemma exec_each (Q : event resp -> list (event resp) -> Prop) tr2 ev tr1 t w ts :
  (forall tr t w ts i a k e r w', exec tr t w ts -> ts !! i = Some (Act a k) -> t <= now e -> perform w e a = (r, w') ->
     Q (Ev i (now e) a r) tr) ->
  exec (tr2 ++ ev :: tr1) t w ts -> Q ev tr1.
Proof.
  intros Hq Hx. remember (tr2 ++ ev :: tr1) as tr eqn:Etr. revert tr2 Etr.
  induction Hx as [|tr t w ts p Hx IH Hh|tr t w w' ts Hx IH He|tr t w ts j b k e q w' Hx IH Hp Ht Hw];
    intros tr2 Etr; try by eauto.
  - by destruct tr2.
  - destruct tr2 as [|ev' tr2]; simpl in Etr; simplify_eq; [by eapply Hq|by eapply IH].
Qed.

(** ** Reasoning along a handler's path *)
Section ghosts.
Context {S : Type} (upd : S -> forall a, resp a -> S) (ok : S -> A -> Prop) (fin : S -> R -> Prop).

(** The ghost state of handler [i] after the events of [tr]. *)
Fixpoint ghost (s0 : S) (i : nat) (tr : list (event resp)) : S :=
  match tr with
  | [] => s0
  | Ev j _ a r :: tr => if bool_decide (j = i) then upd (ghost s0 i tr) a r else ghost s0 i tr
  end.

Lemma ghost_unused s0 i tr : (forall t a r, Ev i t a r ∉ tr) -> ghost s0 i tr = s0.
Proof.
  induction tr as [|[j t a r] tr IH]; intros Hn; [done|]. simpl. case_bool_decide as Eq.
  - subst j. exfalso. apply (Hn t a r). by left.
  - apply IH. intros t' a' r' Hin. apply (Hn t' a' r'). by right.
Qed.

Lemma ghost_fresh s0 i tr t w ts : exec tr t w ts -> (length ts <= i)%nat -> ghost s0 i tr = s0.
Proof.
  intros Hx Hi. apply ghost_unused. intros t' a r Hin. pose proof (exec_threads _ _ _ _ _ _ _ _ Hx Hin). lia.
Qed.

(** If all handlers satisfy [along] from [s0], then at every moment every
    handler satisfies it from its ghost state. *)
Lemma exec_along s0 tr t w ts i p :
  (forall q, handler q -> along upd ok fin s0 q) -> exec tr t w ts -> ts !! i = Some p ->
  along upd ok fin (ghost s0 i tr) p.
Proof.
  intros Hall Hx. revert i p.
  induction Hx as [|tr t w ts q Hx IH Hh|tr t w w' ts Hx IH He|tr t w ts j b k e q w' Hx IH Hp Ht Hw];
    intros i p Hi; try by auto.
  - apply lookup_snoc_Some in Hi as [[_ Hi]|[-> ->]]; [by apply IH|].
    rewrite (ghost_fresh _ _ _ _ _ _ Hx) by lia. by apply Hall.
  - simpl. case_bool_decide as Eq.
    + subst j. rewrite list_lookup_insert_eq in Hi by (by eapply lookup_lt_Some). simplify_eq.
      destruct (IH i _ Hp) as [_ H]. apply H.
    + rewrite list_lookup_insert_ne in Hi by done. by apply IH.
Qed.

(** ... and every action was performed in a ghost state that allows it. *)
Lemma exec_allowed s0 tr2 tr1 t w ts i t' a r :
  (forall q, handler q -> along upd ok fin s0 q) -> exec (tr2 ++ Ev i t' a r :: tr1) t w ts -> ok (ghost s0 i tr1) a.
Proof.
  intros Hall Hx. remember (tr2 ++ Ev i t' a r :: tr1) as tr eqn:Etr. revert tr2 Etr.
  induction Hx as [|tr t w ts q Hx IH Hh|tr t w w' ts Hx IH He|tr t w ts j b k e q w' Hx IH Hp Ht Hw];
    intros tr2 Etr; try by eauto.
  - by destruct tr2.
  - destruct tr2 as [|ev tr2]; simpl in Etr; [|simplify_eq; by eapply IH].
    injection Etr as -> _ Ha _ ->. subst b.
    pose proof (exec_along s0 _ _ _ _ _ _ Hall Hx Hp) as [H _]. done.
Qed.
End ghosts.

(** ** Running a schedule *)

(** A new handler, or one step of a handler. *)
Definition sched : Type := prog resp R + nat * E.
Definition sys : Type := list (event resp) * Z * W * list (prog resp R).

Definition sched_step (st : sys) (x : sched) : sys :=
  let '(tr, t, w, ts) := st in
  match x with
  | inl p => (tr, t, w, ts ++ [p])
  | inr (i, e) =>
      match ts !! i with
      | Some (Act a k) =>
          if t <=? now e then
            let '(r, w') := perform w e a in (Ev i (now e) a r :: tr, now e, w', <[i := k r]> ts)
          else st
      | _ => st
      end
  end.
Definition run_sched (l : list sched) : sys := foldl sched_step ([], 0, w0, []) l.

Lemma run_sched_exec l :
  Forall (fun x => match x with inl p => handler p | inr _ => True end) l ->
  let '(tr, t, w, ts) := run_sched l in exec tr t w ts.
Proof.
  unfold run_sched. pose proof exec_start as H0. revert H0.
  generalize (@nil (event resp)), 0, w0, (@nil (prog resp R)). intros tr t w ts Hx Hl. revert tr t w ts Hx.
  induction Hl as [|x l Hh Hl IH]; intros tr t w ts Hx; [done|].
  cbn [foldl]. destruct x as [p|[i e]].
  - apply IH. by apply exec_spawn.
  - unfold sched_step. destruct (ts !! i) as [[o|a k]|] eqn:Ei; try by apply IH.
    destruct (Z.leb_spec t (now e)); [|by apply IH].
    destruct (perform w e a) as [r w'] eqn:Ep. apply IH. by eapply exec_act.
Qed.
End executions.
Arguments exec_along {A resp R W E perform now handler env w0 S} upd ok fin.
Arguments exec_allowed {A resp R W E perform now handler env w0 S} upd ok fin.
Arguments exec_before {A resp R W E perform now handler env w0}.
Arguments exec_each {A resp R W E perform now handler env w0}.
Arguments exec_threads {A resp R W E perform now handler env w0}.
Arguments exec_time_nonneg {A resp R W E perform now handler env w0}.
Arguments ghost_fresh {A resp R W E perform now handler env w0 S}.
Arguments run_sched_exec {A resp R W E perform now handler} env {w0}.
Arguments sched {A} resp R E.
Arguments sys {A} resp R W.

(** ** Sums over the threads *)

Fixpoint total (f : nat -> Z) (n : nat) : Z :=
  match n with O => 0 | S n => total f n + f n end.

Lemma total_ext f g n : (forall i, (i < n)%nat -> f i = g i) -> total f n = total g n.
Proof. induction n as [|n IH]; cbn [total]; intros H; [done|]. rewrite (H n), IH by auto with lia. done. Qed.

Lemma total_update f g i n :
  (i < n)%nat -> (forall j, j <> i -> g j = f j) -> total g n = total f n - f i + g i.
Proof.
  intros Hi Hne. induction n as [|n IH]; [lia|]. cbn [total]. destruct (decide (i = n)) as [->|Hin].
  - rewrite (total_ext g f n) by (intros j Hj; apply Hne; lia). lia.
  - rewrite (Hne n), IH by lia. lia.
Qed.

Lemma total_le f g n : (forall i, (i < n)%nat -> f i <= g i) -> total f n <= total g n.
Proof.
  induction n as [|n IH]; cbn [total]; intros H; [lia|]. specialize (IH ltac:(auto with lia)). pose proof (H n ltac:(lia)). lia.
Qed.

(** The number of threads with a property. *)
Definition tally (f : nat -> bool) (n : nat) : Z := total (fun i => Z.b2z (f i)) n.

Lemma tally_S f n : tally f (S n) = tally f n + Z.b2z (f n).
Proof. done. Qed.

Lemma tally_range f n : 0 <= tally f n <= Z.of_nat n.
Proof. unfold tally. induction n as [|n IH]; cbn [total]; [lia|]. destruct (f n); simpl; lia. Qed.

Lemma tally_ext f g n : (forall i, (i < n)%nat -> f i = g i) -> tally f n = tally g n.
Proof. intros H. apply total_ext. intros i Hi. by rewrite H. Qed.

Lemma tally_update f g i n :
  (i < n)%nat -> (forall j, j <> i -> g j = f j) -> tally g n = tally f n - Z.b2z (f i) + Z.b2z (g i).
Proof. intros Hi Hne. apply (total_update (fun i => Z.b2z (f i))); [done|]. intros j Hj. by rewrite Hne. Qed.

Lemma tally_le f g n : (forall i, (i < n)%nat -> f i = true -> g i = true) -> tally f n <= tally g n.
Proof.
  intros H. apply total_le. intros i Hi. specialize (H i Hi). destruct (f i), (g i); simpl; try lia; by specialize (H eq_refl).
Qed.

Lemma tally_pos f n i : (i < n)%nat -> f i = true -> 1 <= tally f n.
Proof.
  intros Hi Hf. rewrite (tally_update (fun j => negb (bool_decide (j = i)) && f j) f i n) by
    (done || intros j Hj; by rewrite bool_decide_false).
  rewrite bool_decide_true, Hf by done. pose proof (tally_range (fun j => negb (bool_decide (j = i)) && f j) n). simpl. lia.
Qed.

Lemma tally_two f n i j : (i < n)%nat -> (j < n)%nat -> i <> j -> f i = true -> f j = true -> 2 <= tally f n.
Proof.
  intros Hi Hj Hne Hfi Hfj. rewrite (tally_update (fun k => negb (bool_decide (k = i)) && f k) f i n) by
    (done || intros k Hk; by rewrite bool_decide_false).
  rewrite bool_decide_true, Hfi by done.
  enough (1 <= tally (fun k => negb (bool_decide (k = i)) && f k) n) by (simpl; lia).
  apply (tally_pos _ _ j); [done|]. by rewrite bool_decide_false, Hfj.
Qed.

Lemma tally_some f n : 1 <= tally f n -> exists i, (i < n)%nat /\ f i = true.
Proof.
  induction n as [|n IH]; [done|]. rewrite tally_S. destruct (f n) eqn:E; [intros _; exists n; split; [lia|done]|].
  simpl. intros H. destruct IH as (i & Hi & Hf); [lia|]. exists i. split; [lia|done].
Qed.
