(* ===== verification/Text.v ===== *)
(** * Rust [str] operations

    A [String] or [&str] is the sequence of its UTF-8 bytes, a [string] of
    [ascii].  The operations of the standard library the sources use are
    written out on bytes: they agree with Rust on every valid UTF-8 string. *)

From S2P Require Import Prelude.

(** The empty string literal. *)
Notation "'empty_str'" := EmptyString : iicp_scope.

(** [a == b] on strings *)
Notation "a ==? b" := (String.eqb a b) (at level 70, no associativity) : iicp_scope.
Notation "a <>? b" := (negb (String.eqb a b)) (at level 70, no associativity) : iicp_scope.

(** [matches!(s, "a" | "b" | ..)] *)
Definition str_in (s : string) (l : list string) : bool := existsb (String.eqb s) l.

Lemma str_in_elem s l : str_in s l = true <-> s ∈ l.
Proof.
  unfold str_in. rewrite existsb_exists. split.
  - intros (x & Hin & ->%String.eqb_eq). by apply list_elem_of_In.
  - intros H. exists s. rewrite String.eqb_refl. split; [|done]. by apply list_elem_of_In.
Qed.

Lemma str_in_nelem s l : str_in s l = false <-> s ∉ l.
Proof. rewrite <- not_true_iff_false, str_in_elem. done. Qed.

(** [s.len()], in bytes *)
Definition str_len (s : string) : Z := Z.of_nat (String.length s).
Definition str_is_empty (s : string) : bool := s ==? empty_str.

Lemma str_len_nonneg s : 0 <= str_len s.
Proof. unfold str_len. lia. Qed.
Lemma str_len_app s t : str_len (s +:+ t) = str_len s + str_len t.
Proof.
  unfold str_len. enough (String.length (s +:+ t) = String.length s + String.length t)%nat by lia.
  induction s as [|c s IH]; [done|].
  change (String c s +:+ t) with (String c (s +:+ t)). simpl. by rewrite IH.
Qed.
Lemma str_len_empty s : str_len s = 0 <-> s = empty_str.
Proof. unfold str_len. destruct s; simpl; split; try done; lia. Qed.

#[export] Hint Resolve str_len_nonneg : iicp.

(** ** Characters *)

Definition code (c : Ascii.ascii) : Z := Z.of_N (Ascii.N_of_ascii c).
Definition chr (z : Z) : Ascii.ascii := Ascii.ascii_of_N (Z.to_N z).
(** A string given by its bytes. *)
Definition str_of_codes (l : list Z) : string := String.string_of_list_ascii (chr <$> l).

Definition is_ascii_digit (c : Ascii.ascii) : bool := (48 <=? code c) && (code c <=? 57).
Definition is_ascii_uppercase (c : Ascii.ascii) : bool := (65 <=? code c) && (code c <=? 90).
Definition is_ascii_lowercase (c : Ascii.ascii) : bool := (97 <=? code c) && (code c <=? 122).
Definition is_ascii_alphanumeric (c : Ascii.ascii) : bool :=
  is_ascii_digit c || is_ascii_uppercase c || is_ascii_lowercase c.
Definition is_ascii_hexdigit (c : Ascii.ascii) : bool :=
  is_ascii_digit c || ((65 <=? code c) && (code c <=? 70))
    || ((97 <=? code c) && (code c <=? 102)).

(** [s.bytes().all(p)] *)
Definition str_all (p : Ascii.ascii -> bool) (s : string) : bool :=
  forallb p (String.list_ascii_of_string s).

(** [b"..".contains(&c)] *)
Definition char_in (c : Ascii.ascii) (s : string) : bool :=
  existsb (Ascii.eqb c) (String.list_ascii_of_string s).

Fixpoint str_map (f : Ascii.ascii -> Ascii.ascii) (s : string) : string :=
  match s with
  | EmptyString => EmptyString
  | String c s => String (f c) (str_map f s)
  end.

Definition ascii_lower (c : Ascii.ascii) : Ascii.ascii :=
  if is_ascii_uppercase c then chr (code c + 32) else c.
Definition to_ascii_lowercase : string -> string := str_map ascii_lower.

(** ** Prefixes, suffixes and substrings *)

Fixpoint strip_prefix (p s : string) : option string :=
  match p, s with
  | EmptyString, _ => Some s
  | String a p, String b s => if Ascii.eqb a b then strip_prefix p s else None
  | String _ _, EmptyString => None
  end.
Definition starts_with (s p : string) : bool := is_some (strip_prefix p s).
Definition ends_with (s p : string) : bool := starts_with (String.rev s) (String.rev p).
(** [s.contains(p)] *)
Fixpoint str_contains (s p : string) : bool :=
  starts_with s p ||
  match s with EmptyString => false | String _ s' => str_contains s' p end.

Lemma strip_prefix_spec p s r : strip_prefix p s = Some r <-> s = p +:+ r.
Proof.
  revert s; induction p as [|a p IH]; intros s; simpl.
  - change (EmptyString +:+ r) with r. naive_solver.
  - change (String a p +:+ r) with (String a (p +:+ r)).
    destruct s as [|b s]; [naive_solver|].
    destruct (Ascii.eqb_spec a b) as [->|]; [|naive_solver].
    rewrite IH. naive_solver.
Qed.

Lemma starts_with_spec s p : starts_with s p = true <-> exists r, s = p +:+ r.
Proof.
  unfold starts_with. destruct (strip_prefix p s) as [r|] eqn:E; simpl.
  - apply strip_prefix_spec in E. naive_solver.
  - split; [done|]. intros [r Hr%strip_prefix_spec]. congruence.
Qed.

Lemma str_contains_spec s p :
  str_contains s p = true <-> exists l r, s = l +:+ p +:+ r.
Proof.
  induction s as [|c s IH]; simpl; rewrite orb_true_iff, starts_with_spec.
  - split.
    + intros [[r Hr]|]; [|done]. exists EmptyString, r. exact Hr.
    + intros (l & r & E). left. destruct l; [by exists r|done].
  - rewrite IH. split.
    + intros [[r Hr]|(l & r & ->)]; [by exists EmptyString, r|by exists (String c l), r].
    + intros (l & r & E). destruct l as [|c' l]; [left; by exists r|].
      right. exists l, r. by inversion E.
Qed.

(** ** [trim]: the encodings of the Unicode [White_Space] characters *)

Definition ws_encodings : list string :=
  str_of_codes <$>
    ([[9]; [10]; [11]; [12]; [13]; [32]; [194; 133]; [194; 160]; [225; 154; 128];
      [226; 128; 168]; [226; 128; 169]; [226; 128; 175]; [226; 129; 159]; [227; 128; 128]]
     ++ ((fun k : nat => [226; 128; 128 + Z.of_nat k]) <$> seq 0 11)).

Fixpoint first_strip (ps : list string) (s : string) : option string :=
  match ps with
  | [] => None
  | p :: ps => match strip_prefix p s with Some r => Some r | None => first_strip ps s end
  end.

Fixpoint strip_while (fuel : nat) (ps : list string) (s : string) : string :=
  match fuel with
  | O => s
  | S n => match first_strip ps s with Some r => strip_while n ps r | None => s end
  end.

Definition trim_start (s : string) : string := strip_while (String.length s) ws_encodings s.
Definition trim_end (s : string) : string :=
  String.rev (strip_while (String.length s) (String.rev <$> ws_encodings) (String.rev s)).
Definition trim (s : string) : string := trim_end (trim_start s).
(** [trim_end_matches(c)] *)
Definition trim_end_char (c : Ascii.ascii) (s : string) : string :=
  String.rev (strip_while (String.length s) [String c EmptyString] (String.rev s)).

Lemma str_rev_app_app s t u : String.rev_app (s +:+ t) u = String.rev_app t (String.rev_app s u).
Proof. revert u. induction s as [|c s IH]; intros u; [done|]. apply (IH (String c u)). Qed.
Lemma str_rev_app_rev s t u : String.rev_app (String.rev_app s t) u = String.rev_app t (s +:+ u).
Proof. revert t u. induction s as [|c s IH]; intros t u; [done|]. apply (IH (String c t)). Qed.
Lemma str_app_nil s : s +:+ EmptyString = s.
Proof. induction s as [|c s IH]; [done|]. change (String c (s +:+ EmptyString) = String c s). by rewrite IH. Qed.
Lemma str_rev_rev s : String.rev (String.rev s) = s.
Proof. unfold String.rev. rewrite str_rev_app_rev. apply str_app_nil. Qed.

Lemma str_all_cons p c s : str_all p (String c s) = p c && str_all p s.
Proof. done. Qed.
Lemma str_all_app p s t : str_all p (s +:+ t) = str_all p s && str_all p t.
Proof.
  induction s as [|c s IH]; [done|]. change (String c s +:+ t) with (String c (s +:+ t)).
  by rewrite !str_all_cons, IH, andb_assoc.
Qed.
Lemma str_all_rev p s : str_all p (String.rev s) = str_all p s.
Proof.
  unfold String.rev. enough (forall t, str_all p (String.rev_app s t) = str_all p s && str_all p t) as H.
  { rewrite H. apply andb_true_r. }
  induction s as [|c s IH]; intros t; [done|]. change (str_all p (String.rev_app s (String c t)) = p c && str_all p s && str_all p t).
  rewrite IH, str_all_cons. by destruct (p c), (str_all p s), (str_all p t).
Qed.

(** Stripping leaves a string alone whose characters start none of the patterns. *)
Lemma first_strip_none (P : Ascii.ascii -> bool) ps s :
  forallb (fun p => match p with String a _ => negb (P a) | EmptyString => false end) ps = true ->
  str_all P s = true -> first_strip ps s = None.
Proof.
  intros Hps Hs. induction ps as [|p ps IH]; [done|]. simpl in Hps. apply andb_true_iff in Hps as [Hp Hps].
  simpl. rewrite (IH Hps). destruct p as [|a p]; [done|]. destruct s as [|c s]; [done|]. simpl.
  destruct (Ascii.eqb_spec a c) as [->|]; [|done]. rewrite str_all_cons in Hs. by destruct (P c).
Qed.
Lemma strip_while_none fuel ps s : first_strip ps s = None -> strip_while fuel ps s = s.
Proof. intros H. destruct fuel; simpl; [done|]. by rewrite H. Qed.

Definition no_ws_byte (c : Ascii.ascii) : bool := (33 <=? code c) && (code c <=? 127).

Lemma trim_id s : str_all no_ws_byte s = true -> trim s = s.
Proof.
  intros H. unfold trim, trim_end, trim_start.
  rewrite (strip_while_none _ ws_encodings) by (by apply (first_strip_none no_ws_byte)).
  rewrite strip_while_none; [apply str_rev_rev|].
  apply (first_strip_none no_ws_byte); [by vm_compute|]. by rewrite str_all_rev.
Qed.

Lemma to_ascii_lowercase_id s : str_all (fun c => negb (is_ascii_uppercase c)) s = true -> to_ascii_lowercase s = s.
Proof.
  induction s as [|c s IH]; [done|]. rewrite str_all_cons. intros [Hc Hs]%andb_true_iff.
  unfold to_ascii_lowercase. simpl. unfold ascii_lower at 1. rewrite negb_true_iff in Hc. rewrite Hc.
  f_equal. by apply IH.
Qed.

Lemma str_all_mono (p q : Ascii.ascii -> bool) s :
  (forall c, p c = true -> q c = true) -> str_all p s = true -> str_all q s = true.
Proof.
  intros H. induction s as [|c s IH]; [done|]. rewrite !str_all_cons, !andb_true_iff. naive_solver.
Qed.

(** [trim_end_matches(p)] for a string pattern *)
Definition trim_end_str (p s : string) : string :=
  String.rev (strip_while (String.length s) [String.rev p] (String.rev s)).
(** [strip_suffix] *)
Definition strip_suffix (p s : string) : option string := String.rev <$> strip_prefix (String.rev p) (String.rev s).

(** ** [split(c)], [split_once], [join] *)

Fixpoint str_split (c : Ascii.ascii) (s : string) : list string :=
  match s with
  | EmptyString => [EmptyString]
  | String a s =>
      if Ascii.eqb a c then EmptyString :: str_split c s
      else match str_split c s with
           | [] => [String a EmptyString]
           | w :: ws => String a w :: ws
           end
  end.

Fixpoint str_join (sep : string) (l : list string) : string :=
  match l with
  | [] => EmptyString
  | [s] => s
  | s :: l => s +:+ sep +:+ str_join sep l
  end.

(** [replace(a, b)] on characters *)
Definition str_replace_char (a b : Ascii.ascii) : string -> string :=
  str_map (fun c => if Ascii.eqb c a then b else c).
(** JSON text written with single quotes. *)
Definition quoted (s : string) : string := str_replace_char "'" "034" s.

(** ** Order: Rust compares strings bytewise. *)

Definition str_leb (s t : string) : bool := String.leb s t.
Definition str_ltb (s t : string) : bool := String.ltb s t.

Lemma str_compare_refl s : String.compare s s = Eq.
Proof.
  induction s as [|c s IH]; simpl; [done|].
  unfold Ascii.compare. by rewrite N.compare_refl.
Qed.

Lemma str_compare_antisym s t : String.compare t s = CompOpp (String.compare s t).
Proof.
  revert t; induction s as [|a s IH]; intros [|b t]; simpl; try done.
  unfold Ascii.compare. rewrite (N.compare_antisym (N_of_ascii a)).
  destruct (N.compare (N_of_ascii a) (N_of_ascii b)); simpl; auto.
Qed.

Lemma str_compare_trans s t u :
  String.compare s t = Lt -> String.compare t u = Lt -> String.compare s u = Lt.
Proof.
  revert t u; induction s as [|a s IH]; intros [|b t] [|c u]; simpl; try done.
  unfold Ascii.compare.
  destruct (N.compare_spec (N_of_ascii a) (N_of_ascii b)) as [E1|E1|E1]; try done;
    destruct (N.compare_spec (N_of_ascii b) (N_of_ascii c)) as [E2|E2|E2]; try done; intros H1 H2.
  - rewrite E1, E2, N.compare_refl. eauto.
  - by rewrite E1, (proj2 (N.compare_lt_iff _ _) E2).
  - by rewrite <- E2, (proj2 (N.compare_lt_iff _ _) E1).
  - by rewrite (proj2 (N.compare_lt_iff _ _) (N.lt_trans _ _ _ E1 E2)).
Qed.

Lemma str_ltb_compare s t : String.ltb s t = true <-> String.compare s t = Lt.
Proof. unfold String.ltb. by destruct (String.compare s t). Qed.

(** [.take(n)] of the bytes of a string *)
Fixpoint str_take (n : nat) (s : string) : string :=
  match n, s with
  | S n, String c s => String c (str_take n s)
  | _, _ => EmptyString
  end.

(** ** UTF-8 bytes *)

Definition str_bytes : string -> list byte := String.list_byte_of_string.
Definition bytes_str : list byte -> string := String.string_of_list_byte.

Lemma bytes_str_bytes s : bytes_str (str_bytes s) = s.
Proof. apply String.string_of_list_byte_of_string. Qed.
Lemma str_bytes_str l : str_bytes (bytes_str l) = l.
Proof. apply String.list_byte_of_string_of_list_byte. Qed.

#[export] Hint Rewrite bytes_str_bytes str_bytes_str : iicp_rw.

(** [std::str::from_utf8] accepts exactly these byte sequences. *)
Definition utf8_cont (b : Z) : bool := (128 <=? b) && (b <=? 191).
Definition z_between (lo hi b : Z) : bool := (lo <=? b) && (b <=? hi).

Fixpoint utf8_ok (l : list Z) : bool :=
  match l with
  | [] => true
  | b :: l1 =>
      if b <=? 127 then utf8_ok l1 else
      match l1 with
      | [] => false
      | c :: l2 =>
          if z_between 194 223 b then utf8_cont c && utf8_ok l2 else
          match l2 with
          | [] => false
          | d :: l3 =>
              if b =? 224 then z_between 160 191 c && utf8_cont d && utf8_ok l3
              else if b =? 237 then z_between 128 159 c && utf8_cont d && utf8_ok l3
              else if z_between 225 239 b then utf8_cont c && utf8_cont d && utf8_ok l3
              else
              match l3 with
              | [] => false
              | e :: l4 =>
                  if b =? 240 then z_between 144 191 c && utf8_cont d && utf8_cont e && utf8_ok l4
                  else if b =? 244 then
                    z_between 128 143 c && utf8_cont d && utf8_cont e && utf8_ok l4
                  else if z_between 241 243 b then
                    utf8_cont c && utf8_cont d && utf8_cont e && utf8_ok l4
                  else false
              end
          end
      end
  end.

Definition utf8_bytes (l : list byte) : bool := utf8_ok (u8_to_Z <$> l).
Definition utf8 (s : string) : bool := utf8_bytes (str_bytes s).

(** ** Case analysis on string tests *)

Ltac case_str :=
  match goal with
  | |- context [String.eqb ?a ?b] => destruct (String.eqb_spec a b)
  | H : context [String.eqb ?a ?b] |- _ => destruct (String.eqb_spec a b)
  end.
(** Split every [if] of the goal, turning string tests into equalities. *)
Ltac split_ifs :=
  repeat first
    [ progress simplify_eq/=
    | match goal with
      | |- context [if String.eqb ?a ?b then _ else _] => destruct (String.eqb_spec a b)
      | |- context [if ?b then _ else _] => destruct b eqn:?
      | H : context [if String.eqb ?a ?b then _ else _] |- _ => destruct (String.eqb_spec a b)
      | H : context [if ?b then _ else _] |- _ => destruct b eqn:?
      end ].
(** Turn boolean hypotheses into propositions. *)
Ltac bprop :=
  repeat match goal with
  | H : _ && _ = true |- _ => apply andb_true_iff in H as [? ?]
  | H : _ || _ = false |- _ => apply orb_false_iff in H as [? ?]
  | H : negb _ = true |- _ => apply negb_true_iff in H
  | H : negb _ = false |- _ => apply negb_false_iff in H
  | H : String.eqb _ _ = true |- _ => apply String.eqb_eq in H
  | H : String.eqb _ _ = false |- _ => apply String.eqb_neq in H
  | H : (_ <=? _) = true |- _ => apply Z.leb_le in H
  | H : (_ <=? _) = false |- _ => apply Z.leb_gt in H
  | H : (_ <? _) = true |- _ => apply Z.ltb_lt in H
  | H : (_ <? _) = false |- _ => apply Z.ltb_ge in H
  | H : (_ =? _) = true |- _ => apply Z.eqb_eq in H
  | H : (_ =? _) = false |- _ => apply Z.eqb_neq in H
  end.

(** ** A [BTreeSet] of strings, as the list it iterates *)

From stdpp Require Import sorting.

Definition str_le (s t : string) : Prop := str_leb s t = true.
Global Instance str_le_dec s t : Decision (str_le s t).
Proof. unfold str_le. apply _. Defined.
Definition sorted_set (l : list string) : list string := merge_sort str_le (remove_dups l).

Lemma elem_of_sorted_set s l : s ∈ sorted_set l <-> s ∈ l.
Proof. unfold sorted_set. by rewrite merge_sort_Permutation, elem_of_remove_dups. Qed.
Lemma NoDup_sorted_set l : NoDup (sorted_set l).
Proof. unfold sorted_set. rewrite merge_sort_Permutation. apply NoDup_remove_dups. Qed.
