(* ===== verification/Framing.v ===== *)
(** * Native IICP frames ([src/iicp_tcp.rs], framing part)

    The 12-byte header (magic, version, type, flags, reserved, big-endian
    length) followed by the payload: encoder, decoder, the message-type table
    and the type-byte disposition of the bounded task profile. *)

From S2P Require Import Prelude Text.

Definition IICP_MAGIC : list byte := [x49; x49; x43; x50].
Definition FRAMING_VERSION : byte := x01.
Definition FRAME_HEADER_LEN : Z := 12.
Definition MAX_FRAME_PAYLOAD : Z := 16 * 1024 * 1024.

(** ** Big-endian [u32] *)

Definition u32_to_be_bytes (n : Z) : list byte :=
  [u8_of_Z (Z.shiftr n 24); u8_of_Z (Z.shiftr n 16); u8_of_Z (Z.shiftr n 8); u8_of_Z n].

Definition u32_from_be_bytes (l : list byte) : Z :=
  foldl (fun acc b => Z.lor (Z.shiftl acc 8) (u8_to_Z b)) 0 l.

(** ** Message types *)

Inductive MsgType :=
| Init | Ack | Discover | SubProtocol | Call | Response | Close | Feedback
| Ping | Pong | RelayBind | RelayAck.

Global Instance MsgType_eq_dec : EqDecision MsgType.
Proof. solve_decision. Defined.

(** [msg_type as u8] *)
Definition msg_code (m : MsgType) : byte :=
  match m with
  | Init => x01 | Ack => x02 | Discover => x03 | SubProtocol => x04
  | Call => x05 | Response => x06 | Close => x07 | Feedback => x08
  | Ping => x09 | Pong => x0a | RelayBind => x0b | RelayAck => x0c
  end.

Definition from_u8 (b : byte) : option MsgType :=
  match b with
  | x01 => Some Init | x02 => Some Ack | x03 => Some Discover
  | x04 => Some SubProtocol | x05 => Some Call | x06 => Some Response
  | x07 => Some Close | x08 => Some Feedback | x09 => Some Ping
  | x0a => Some Pong | x0b => Some RelayBind | x0c => Some RelayAck
  | _ => None
  end.

Definition stable_task_message_type_error (msg_type : byte) : option string :=
  let t := u8_to_Z msg_type in
  if ((1 <=? t) && (t <=? 10)) || (t =? 13) || (t =? 14) then None
  else if (t =? 0) || (t =? 255) then Some "invalid_type"
  else if (t =? 11) || (t =? 12) then Some "conflicted_type"
  else if (240 <=? t) && (t <=? 254) then Some "unsupported_extension"
  else Some "unknown_type".

(** ** Frames *)

Record IicpFrame := mkFrame {
  version : byte;
  msg_type : byte;
  flags : byte;
  payload : list byte
}.

Definition too_large (n : Z) : string :=
  "IICP frame payload too large: " +:+ pretty n +:+ " > " +:+ pretty MAX_FRAME_PAYLOAD.

Definition try_encode_frame (msg_type : byte) (payload : list byte) (flags : byte)
    : result (list byte) string :=
  if MAX_FRAME_PAYLOAD <? zlen payload then Err (too_large (zlen payload))
  else Ok (IICP_MAGIC ++ [FRAMING_VERSION; msg_type; flags; x00]
             ++ u32_to_be_bytes (zlen payload) ++ payload).

(** [encode_frame] panics ([None]) where [try_encode_frame] fails. *)
Definition encode_frame (msg_type : byte) (payload : list byte) (flags : byte)
    : option (list byte) :=
  result_ok (try_encode_frame msg_type payload flags).

(** [{:?}] of a byte slice *)
Definition debug_bytes (l : list byte) : string :=
  "[" +:+ str_join ", " (pretty <$> (u8_to_Z <$> l)) +:+ "]".

(** [data[i]], in range after the length check *)
Definition byte_at (data : list byte) (i : nat) : byte := default x00 (data !! i).
Definition bytes_eqb (a b : list byte) : bool := bool_decide (a = b).
(** [data[8..12]] read as the payload length *)
Definition header_payload_len (data : list byte) : Z :=
  u32_from_be_bytes (take 4 (drop 8 data)).

Definition decode_frame (data : list byte) : result (IicpFrame * Z) string :=
  if zlen data <? FRAME_HEADER_LEN then
    Err ("IICP frame too short: " +:+ pretty (zlen data) +:+ " < " +:+ pretty FRAME_HEADER_LEN)
  else if negb (bytes_eqb (take 4 data) IICP_MAGIC) then
    Err ("Invalid IICP magic: " +:+ debug_bytes (take 4 data))
  else if negb (bool_decide (byte_at data 4 = FRAMING_VERSION)) then
    Err ("Unsupported IICP framing version: " +:+ pretty (u8_to_Z (byte_at data 4))
           +:+ "; expected " +:+ pretty (u8_to_Z FRAMING_VERSION))
  else
    let payload_len := header_payload_len data in
    if MAX_FRAME_PAYLOAD <? payload_len then Err (too_large payload_len)
    else
      let total := FRAME_HEADER_LEN + payload_len in
      if zlen data <? total then
        Err ("IICP payload truncated: need " +:+ pretty total +:+ ", have " +:+ pretty (zlen data))
      else
        Ok (mkFrame (byte_at data 4) (byte_at data 5) (byte_at data 6)
              (take (Z.to_nat payload_len) (drop (Z.to_nat FRAME_HEADER_LEN) data)),
            total).

(** ** Lemmas *)

Lemma from_u8_msg_code m : from_u8 (msg_code m) = Some m.
Proof. by destruct m. Qed.

Lemma msg_code_from_u8 b m : from_u8 b = Some m -> msg_code m = b.
Proof. destruct b; simpl; intros; simplify_eq; done. Qed.

Lemma u32_to_be_bytes_length n : length (u32_to_be_bytes n) = 4%nat.
Proof. done. Qed.

Lemma byte_shift_or a b : 0 <= b < 256 -> Z.lor (Z.shiftl a 8) b = a * 256 + b.
Proof. intros. rewrite Z.shiftl_mul_pow2, lor_shifted by lia. lia. Qed.

Lemma u32_from_be_bytes_4 a b c d :
  u32_from_be_bytes [a; b; c; d] =
  ((u8_to_Z a * 256 + u8_to_Z b) * 256 + u8_to_Z c) * 256 + u8_to_Z d.
Proof.
  pose proof (u8_to_Z_range a). pose proof (u8_to_Z_range b).
  pose proof (u8_to_Z_range c). pose proof (u8_to_Z_range d).
  unfold u32_from_be_bytes. cbn [foldl].
  rewrite !byte_shift_or by lia. lia.
Qed.

Lemma u32_be_roundtrip n : 0 <= n <= u32_max -> u32_from_be_bytes (u32_to_be_bytes n) = n.
Proof.
  unfold u32_max. intros Hn. unfold u32_to_be_bytes.
  rewrite u32_from_be_bytes_4, !u8_to_of_Z, !Z.shiftr_div_pow2 by lia.
  change (2 ^ 24) with (256 * (256 * 256)). change (2 ^ 16) with (256 * 256).
  change (2 ^ 8) with 256.
  rewrite <- !Z.div_div by lia.
  pose proof (Z.div_mod n 256). pose proof (Z.div_mod (n / 256) 256).
  pose proof (Z.div_mod (n / 256 / 256) 256).
  assert (n / 256 / 256 / 256 < 256) by (apply Z.div_lt_upper_bound; [lia|];
    apply Z.div_lt_upper_bound; [lia|]; apply Z.div_lt_upper_bound; lia).
  assert (0 <= n / 256 / 256 / 256) by (repeat apply Z.div_pos; lia).
  rewrite (Z.mod_small (n / 256 / 256 / 256)) by lia. lia.
Qed.

Lemma u32_be_unique l : length l = 4%nat -> u32_to_be_bytes (u32_from_be_bytes l) = l.
Proof.
  intros Hl. destruct l as [|a [|b [|c [|d []]]]]; simplify_eq/=.
  rewrite u32_from_be_bytes_4. unfold u32_to_be_bytes.
  pose proof (u8_to_Z_range a). pose proof (u8_to_Z_range b).
  pose proof (u8_to_Z_range c). pose proof (u8_to_Z_range d).
  rewrite !Z.shiftr_div_pow2 by lia.
  change (2 ^ 24) with (256 * (256 * 256)). change (2 ^ 16) with (256 * 256).
  change (2 ^ 8) with 256. rewrite <- !Z.div_div by lia.
  assert (forall x y, 0 <= y < 256 -> (x * 256 + y) / 256 = x) as Hd by
    (intros; rewrite Z.div_add_l by lia; rewrite Z.div_small by lia; lia).
  rewrite !Hd by lia.
  assert (forall x y, 0 <= y < 256 -> u8_of_Z (x * 256 + y) = u8_of_Z y) as Hm by
    (intros; unfold u8_of_Z; rewrite Z.add_comm, Z_mod_plus_full; done).
  rewrite !Hm by lia. by rewrite !u8_of_to_Z.
Qed.

Lemma u32_from_be_range l : length l = 4%nat -> 0 <= u32_from_be_bytes l <= u32_max.
Proof.
  intros Hl. destruct l as [|a [|b [|c [|d []]]]]; simplify_eq/=.
  rewrite u32_from_be_bytes_4. unfold u32_max.
  pose proof (u8_to_Z_range a). pose proof (u8_to_Z_range b).
  pose proof (u8_to_Z_range c). pose proof (u8_to_Z_range d). lia.
Qed.

(** A frame's wire image when its payload fits. *)
Definition frame_image (msg_type : byte) (payload : list byte) (flags : byte) : list byte :=
  IICP_MAGIC ++ [FRAMING_VERSION; msg_type; flags; x00]
    ++ u32_to_be_bytes (zlen payload) ++ payload.

Lemma try_encode_frame_spec mt p fl r :
  try_encode_frame mt p fl = r <->
  (zlen p <= MAX_FRAME_PAYLOAD /\ r = Ok (frame_image mt p fl)) \/
  (MAX_FRAME_PAYLOAD < zlen p /\ r = Err (too_large (zlen p))).
Proof.
  unfold try_encode_frame. destruct (Z.ltb_spec MAX_FRAME_PAYLOAD (zlen p));
    split; intros; naive_solver lia.
Qed.

Lemma try_encode_frame_ok mt p fl bytes :
  try_encode_frame mt p fl = Ok bytes <->
  zlen p <= MAX_FRAME_PAYLOAD /\ bytes = frame_image mt p fl.
Proof. rewrite try_encode_frame_spec. naive_solver. Qed.

Lemma frame_image_length mt p fl : zlen (frame_image mt p fl) = FRAME_HEADER_LEN + zlen p.
Proof. unfold frame_image, zlen, FRAME_HEADER_LEN. rewrite !length_app. simpl. lia. Qed.

Lemma frame_image_header mt p fl rest :
  header_payload_len (frame_image mt p fl ++ rest) = u32_from_be_bytes (u32_to_be_bytes (zlen p)).
Proof. done. Qed.

(** What the decoder returns, as one equivalence: the branch structure of
    [decode_frame] on success. *)
Lemma decode_frame_ok data f n :
  decode_frame data = Ok (f, n) <->
  FRAME_HEADER_LEN <= zlen data /\ take 4 data = IICP_MAGIC /\
  byte_at data 4 = FRAMING_VERSION /\ header_payload_len data <= MAX_FRAME_PAYLOAD /\
  n = FRAME_HEADER_LEN + header_payload_len data /\ n <= zlen data /\
  f = mkFrame FRAMING_VERSION (byte_at data 5) (byte_at data 6)
        (take (Z.to_nat (header_payload_len data)) (drop (Z.to_nat FRAME_HEADER_LEN) data)).
Proof.
  unfold decode_frame, bytes_eqb.
  destruct (Z.ltb_spec (zlen data) FRAME_HEADER_LEN); [naive_solver lia|].
  case_bool_decide; simpl; [|naive_solver].
  case_bool_decide as Hv; simpl; [|naive_solver].
  destruct (Z.ltb_spec MAX_FRAME_PAYLOAD (header_payload_len data)); [naive_solver lia|].
  destruct (Z.ltb_spec (zlen data) (FRAME_HEADER_LEN + header_payload_len data)).
  - split; [done|]. intros (?&?&?&?&?&?&?). lia.
  - rewrite Hv. split; [intros; simplify_eq; naive_solver|]. by intros (?&?&?&?&->&?&->).
Qed.

Lemma header_len_range data : FRAME_HEADER_LEN <= zlen data -> 0 <= header_payload_len data.
Proof.
  intros H. apply u32_from_be_range. rewrite length_take, length_drop.
  unfold zlen, FRAME_HEADER_LEN in H. lia.
Qed.

(** The first twelve bytes of a long enough input. *)
Lemma split_header (data : list byte) :
  FRAME_HEADER_LEN <= zlen data ->
  exists a b c d e g h i j k l m rest,
    data = [a; b; c; d; e; g; h; i; j; k; l; m] ++ rest.
Proof.
  unfold zlen, FRAME_HEADER_LEN. intros H.
  do 12 (destruct data as [|? data]; [simpl in H; lia|]).
  by repeat eexists.
Qed.

Lemma decode_frame_prefix data rest f n :
  decode_frame data = Ok (f, n) -> decode_frame (data ++ rest) = Ok (f, n).
Proof.
  rewrite !decode_frame_ok. intros (Hlen & Hm & Hv & Hmax & Hn & Hle & ->).
  pose proof (header_len_range data Hlen) as Hr.
  destruct (split_header data Hlen) as (a&b&c&d&e&g&h&i&j&k&l&m&tl&->).
  change (header_payload_len (([a; b; c; d; e; g; h; i; j; k; l; m] ++ tl) ++ rest))
    with (header_payload_len ([a; b; c; d; e; g; h; i; j; k; l; m] ++ tl)).
  remember (header_payload_len _) as pl.
  repeat split; try done.
  - rewrite zlen_app. pose proof (zlen_nonneg rest). lia.
  - rewrite zlen_app. pose proof (zlen_nonneg rest). lia.
  - f_equal. change (Z.to_nat FRAME_HEADER_LEN) with 12%nat. simpl.
    rewrite !drop_0, take_app_le; [done|].
    unfold zlen, FRAME_HEADER_LEN in *. rewrite length_app in *. simpl in *. lia.
Qed.

Lemma decode_frame_image mt p fl rest :
  zlen p <= MAX_FRAME_PAYLOAD ->
  decode_frame (frame_image mt p fl ++ rest) =
    Ok (mkFrame FRAMING_VERSION mt fl p, FRAME_HEADER_LEN + zlen p).
Proof.
  intros Hp.
  assert (header_payload_len (frame_image mt p fl) = zlen p) as Hl.
  { unfold header_payload_len. simpl. apply u32_be_roundtrip.
    pose proof (zlen_nonneg p). unfold MAX_FRAME_PAYLOAD, u32_max in *. lia. }
  apply decode_frame_prefix, decode_frame_ok.
  rewrite Hl, frame_image_length. pose proof (zlen_nonneg p).
  repeat split; try done; try lia.
  f_equal. unfold frame_image, zlen. rewrite Nat2Z.id. simpl. by rewrite firstn_all.
Qed.

(** Decoding what the encoder produced, followed by anything, returns the
    frame that was encoded and the length of its image. *)
Theorem frame_roundtrip mt p fl bytes rest :
  try_encode_frame mt p fl = Ok bytes ->
  decode_frame (bytes ++ rest) = Ok (mkFrame FRAMING_VERSION mt fl p, zlen bytes).
Proof.
  rewrite try_encode_frame_ok. intros [Hp ->].
  by rewrite decode_frame_image, frame_image_length.
Qed.

Lemma frame_roundtrip_witness :
  try_encode_frame (msg_code Ping) [x41; x42] x00 = Ok (frame_image (msg_code Ping) [x41; x42] x00) /\
  decode_frame (frame_image (msg_code Ping) [x41; x42] x00 ++ [xff]) =
    Ok (mkFrame FRAMING_VERSION (msg_code Ping) x00 [x41; x42], 14).
Proof.
  split; [reflexivity|].
  exact (frame_roundtrip (msg_code Ping) [x41; x42] x00
           (frame_image (msg_code Ping) [x41; x42] x00) [xff] eq_refl).
Defined.

(** Every accepted input is the encoder's image of the returned frame, up
    to the reserved byte, which the decoder ignores and the encoder zeroes. *)
Theorem frame_decode_canonical data f n :
  decode_frame data = Ok (f, n) ->
  FRAME_HEADER_LEN <= n <= zlen data /\
  try_encode_frame (msg_type f) (payload f) (flags f) =
    Ok (<[7%nat := x00]> (take (Z.to_nat n) data)).
Proof.
  rewrite decode_frame_ok. intros (Hlen & Hm & Hv & Hmax & -> & Hle & ->). simpl.
  pose proof (header_len_range data Hlen) as Hr.
  split; [lia|]. rewrite try_encode_frame_ok.
  destruct (split_header data Hlen) as (a&b&c&d&e&g&h&i&j&k&l&m&tl&->).
  remember (header_payload_len _) as pl eqn:Hpl.
  assert (pl <= zlen tl) as Htl.
  { unfold zlen, FRAME_HEADER_LEN in *. rewrite length_app in Hle. simpl in Hle. lia. }
  change (Z.to_nat FRAME_HEADER_LEN) with 12%nat.
  assert (zlen (take (Z.to_nat pl) tl) = pl) as Hzl.
  { unfold zlen in *. rewrite length_take. lia. }
  simpl drop. rewrite drop_0. split; [lia|].
  replace (Z.to_nat (FRAME_HEADER_LEN + pl)) with (12 + Z.to_nat pl)%nat
    by (unfold FRAME_HEADER_LEN; lia).
  unfold frame_image. rewrite Hzl, Hpl. unfold header_payload_len. simpl drop. simpl take.
  rewrite u32_be_unique by done.
  change (take 4 _) with [a; b; c; d] in Hm.
  unfold byte_at in Hv. simpl in Hv.
  unfold IICP_MAGIC in Hm. injection Hm as -> -> -> ->. by rewrite Hv.
Qed.

Lemma frame_decode_canonical_witness :
  let data := IICP_MAGIC ++ [FRAMING_VERSION; msg_code Ping; x00; x07; x00; x00; x00; x01; x41; x42] in
  try_encode_frame (msg_code Ping) [x41] x00 = Ok (<[7%nat := x00]> (take 13 data)).
Proof.
  exact (proj2 (frame_decode_canonical
    (IICP_MAGIC ++ [FRAMING_VERSION; msg_code Ping; x00; x07; x00; x00; x00; x01; x41; x42])
    (mkFrame FRAMING_VERSION (msg_code Ping) x00 [x41]) 13 eq_refl)).
Defined.
