(* ===== verification/Base64.v ===== *)
(** * Base64 of byte values in JSON output ([src/iicp_tcp.rs], [base64_encode])

    The client's hand-written encoder and an RFC 4648 reference decoder. *)

From S2P Require Import Prelude Text.

Definition ALPHA : string :=
  "ABCDEFGHIJKLMNOPQRSTUVWXYZabcdefghijklmnopqrstuvwxyz0123456789+/".

(** [ALPHA[i] as char] *)
Definition alpha (i : Z) : Ascii.ascii := default "A"%char (String.get (Z.to_nat i) ALPHA).

(** [v >> s & 0x3f] *)
Definition sextet (v s : Z) : Z := Z.land (Z.shiftr v s) 63.

(** [(b as u32) << s] of the three bytes of a chunk *)
Definition chunk_value (a b c : Z) : Z :=
  Z.lor (Z.lor (Z.shiftl a 16) (Z.shiftl b 8)) c.

Fixpoint base64_encode (bytes : list byte) : string :=
  match bytes with
  | a :: b :: c :: rest =>
      let v := chunk_value (u8_to_Z a) (u8_to_Z b) (u8_to_Z c) in
      String (alpha (sextet v 18)) (String (alpha (sextet v 12))
        (String (alpha (sextet v 6)) (String (alpha (sextet v 0)) (base64_encode rest))))
  | [a; b] =>
      let v := chunk_value (u8_to_Z a) (u8_to_Z b) 0 in
      String (alpha (sextet v 18)) (String (alpha (sextet v 12))
        (String (alpha (sextet v 6)) "="))
  | [a] =>
      let v := chunk_value (u8_to_Z a) 0 0 in
      String (alpha (sextet v 18)) (String (alpha (sextet v 12)) "==")
  | [] => EmptyString
  end.

(** ** Reference decoder (RFC 4648 section 4) *)

Definition alpha_index (c : Ascii.ascii) : option Z :=
  let z := code c in
  if is_ascii_uppercase c then Some (z - 65)
  else if is_ascii_lowercase c then Some (z - 71)
  else if is_ascii_digit c then Some (z + 4)
  else if z =? 43 then Some 62
  else if z =? 47 then Some 63
  else None.

Fixpoint base64_decode (s : string) : option (list byte) :=
  match s with
  | EmptyString => Some []
  | String p (String q (String r (String t rest))) =>
      let! a := alpha_index p in
      let! b := alpha_index q in
      if Ascii.eqb t "=" then
        if Ascii.eqb r "=" then
          match rest with
          | EmptyString => Some [u8_of_Z (Z.shiftr (a * 64 + b) 4)]
          | _ => None
          end
        else
          match rest with
          | EmptyString =>
              let! c := alpha_index r in
              let v := (a * 64 + b) * 64 + c in
              Some [u8_of_Z (Z.shiftr v 10); u8_of_Z (Z.shiftr v 2)]
          | _ => None
          end
      else
        let! c := alpha_index r in
        let! d := alpha_index t in
        let! l := base64_decode rest in
        let v := ((a * 64 + b) * 64 + c) * 64 + d in
        Some (u8_of_Z (Z.shiftr v 16) :: u8_of_Z (Z.shiftr v 8) :: u8_of_Z v :: l)
  | _ => None
  end.

Lemma sextet_range v s : 0 <= sextet v s < 64.
Proof.
  unfold sextet. change 63 with (Z.ones 6). rewrite Z.land_ones by lia.
  apply Z.mod_pos_bound. lia.
Qed.

Lemma sextet_div v s : 0 <= s -> sextet v s = v / 2 ^ s mod 64.
Proof.
  intros. unfold sextet. change 63 with (Z.ones 6).
  by rewrite Z.land_ones, Z.shiftr_div_pow2 by lia.
Qed.

Lemma alpha_index_alpha i : 0 <= i < 64 -> alpha_index (alpha i) = Some i.
Proof.
  intros Hi. replace i with (Z.of_nat (Z.to_nat i)) by lia.
  assert (Z.to_nat i < 64)%nat as Hn by lia. revert Hn.
  generalize (Z.to_nat i). intros n Hn.
  do 64 (destruct n as [|n]; [reflexivity|]). lia.
Qed.

Lemma alpha_not_pad i : 0 <= i < 64 -> Ascii.eqb (alpha i) "=" = false.
Proof.
  intros Hi. destruct (Ascii.eqb_spec (alpha i) "=") as [E|]; [|done].
  pose proof (alpha_index_alpha i Hi) as H. rewrite E in H. discriminate.
Qed.

Lemma chunk_value_sum a b c :
  0 <= a < 256 -> 0 <= b < 256 -> 0 <= c < 256 ->
  chunk_value a b c = (a * 256 + b) * 256 + c.
Proof.
  intros. unfold chunk_value.
  rewrite !Z.shiftl_mul_pow2 by lia.
  rewrite (lor_shifted a (b * 2 ^ 8) 16) by lia.
  replace (a * 2 ^ 16 + b * 2 ^ 8) with ((a * 256 + b) * 2 ^ 8) by lia.
  rewrite lor_shifted by lia. lia.
Qed.

Ltac divmod_facts v :=
  pose proof (Z.div_mod v 64 ltac:(lia)); pose proof (Z.mod_pos_bound v 64 ltac:(lia)).

(** The four sextets of a 24-bit value reassemble it. *)
Lemma sextets_reassemble v :
  0 <= v < 2 ^ 24 ->
  ((sextet v 18 * 64 + sextet v 12) * 64 + sextet v 6) * 64 + sextet v 0 = v.
Proof.
  intros Hv. rewrite !sextet_div by lia.
  change (2 ^ 18) with (64 * (64 * 64)). change (2 ^ 12) with (64 * 64).
  change (2 ^ 6) with 64. change (2 ^ 0) with 1.
  rewrite <- !Z.div_div by lia. rewrite Z.div_1_r.
  divmod_facts v. divmod_facts (v / 64). divmod_facts (v / 64 / 64).
  divmod_facts (v / 64 / 64 / 64).
  assert (v / 64 / 64 / 64 < 64) by (repeat (apply Z.div_lt_upper_bound; [lia|]); lia).
  assert (0 <= v / 64 / 64 / 64) by (repeat apply Z.div_pos; lia).
  rewrite (Z.mod_small (v / 64 / 64 / 64)) by lia. lia.
Qed.

(** Twelve high bits of a value whose low bits are zero: the padded chunks. *)
Lemma sextets_high v :
  0 <= v < 2 ^ 24 ->
  sextet v 18 * 64 + sextet v 12 = v / 4096 /\
  (sextet v 18 * 64 + sextet v 12) * 64 + sextet v 6 = v / 64.
Proof.
  intros Hv. pose proof (sextets_reassemble v Hv) as E.
  pose proof (sextet_range v 0). pose proof (sextet_range v 6).
  split; [apply (Z.div_unique _ _ _ (sextet v 6 * 64 + sextet v 0))
         |apply (Z.div_unique _ _ _ (sextet v 0))]; lia.
Qed.

Lemma byte_of_shift a b c s :
  0 <= b -> 0 <= c < 2 ^ s -> 0 <= s -> 0 <= a < 256 ->
  u8_of_Z (Z.shiftr ((b * 256 + a) * 2 ^ s + c) s) = u8_of_Z a.
Proof.
  intros. rewrite Z.shiftr_div_pow2 by lia.
  rewrite Z.div_add_l by (pose proof (Z.pow_pos_nonneg 2 s); lia).
  rewrite (Z.div_small c) by lia. rewrite Z.add_0_r.
  unfold u8_of_Z. by rewrite Z.add_comm, Z_mod_plus_full.
Qed.

(** The text the transport makes of a byte string is its standard base64
    encoding: the reference decoder returns exactly those bytes, for every
    length (padding included). *)
Theorem base64_decode_encode bytes : base64_decode (base64_encode bytes) = Some bytes.
Proof.
  induction bytes as [bytes IH] using (induction_ltof1 _ (@length byte)); unfold ltof in IH.
  destruct bytes as [|a [|b [|c rest]]]; [done| | |].
  - pose proof (u8_to_Z_range a) as Ha.
    cbn [base64_encode base64_decode]. rewrite chunk_value_sum by lia.
    set (v := (u8_to_Z a * 256 + 0) * 256 + 0).
    rewrite !alpha_index_alpha by apply sextet_range. simpl.
    assert (0 <= v < 2 ^ 24) as Hv by lia.
    destruct (sextets_high v Hv) as [-> _].
    replace (v / 4096) with ((0 * 256 + u8_to_Z a) * 2 ^ 4 + 0)
      by (apply Z.div_unique with 0; lia).
    rewrite byte_of_shift by lia. by rewrite u8_of_to_Z.
  - pose proof (u8_to_Z_range a) as Ha. pose proof (u8_to_Z_range b) as Hb.
    cbn [base64_encode base64_decode]. rewrite chunk_value_sum by lia.
    set (v := (u8_to_Z a * 256 + u8_to_Z b) * 256 + 0).
    rewrite !alpha_index_alpha by apply sextet_range. simpl.
    rewrite alpha_not_pad by apply sextet_range. simpl.
    assert (0 <= v < 2 ^ 24) as Hv by lia.
    destruct (sextets_high v Hv) as [_ ->].
    replace (v / 64) with ((u8_to_Z a * 256 + u8_to_Z b) * 2 ^ 2 + 0) at 2
      by (apply Z.div_unique with 0; lia).
    replace (v / 64) with ((0 * 256 + u8_to_Z a) * 2 ^ 10 + u8_to_Z b * 4)
      by (apply Z.div_unique with 0; lia).
    rewrite !byte_of_shift by lia. by rewrite !u8_of_to_Z.
  - pose proof (u8_to_Z_range a) as Ha. pose proof (u8_to_Z_range b) as Hb.
    pose proof (u8_to_Z_range c) as Hc.
    cbn [base64_encode base64_decode]. rewrite chunk_value_sum by lia.
    set (v := (u8_to_Z a * 256 + u8_to_Z b) * 256 + u8_to_Z c).
    rewrite !alpha_index_alpha by apply sextet_range. cbn [mbind option_bind].
    rewrite alpha_not_pad by apply sextet_range.
    rewrite IH by (simpl; lia). cbn [mbind option_bind].
    rewrite sextets_reassemble by (unfold v; lia).
    replace v with ((0 * 256 + u8_to_Z a) * 2 ^ 16 + (u8_to_Z b * 256 + u8_to_Z c)) at 1
      by (unfold v; lia).
    replace v with ((u8_to_Z a * 256 + u8_to_Z b) * 2 ^ 8 + u8_to_Z c) at 1 by (unfold v; lia).
    replace v with ((u8_to_Z a * 256 + u8_to_Z b) * 256 + u8_to_Z c) at 1 by (unfold v; lia).
    rewrite !byte_of_shift by lia.
    rewrite <- (Z.shiftr_0_r ((u8_to_Z a * 256 + u8_to_Z b) * 256 + u8_to_Z c)).
    replace ((u8_to_Z a * 256 + u8_to_Z b) * 256 + u8_to_Z c)
      with (((u8_to_Z a * 256 + u8_to_Z b) * 256 + u8_to_Z c) * 2 ^ 0 + 0) by lia.
    rewrite byte_of_shift by lia. by rewrite !u8_of_to_Z.
Qed.

Lemma base64_encode_length bytes :
  str_len (base64_encode bytes) = (zlen bytes + 2) / 3 * 4.
Proof.
  induction bytes as [bytes IH] using (induction_ltof1 _ (@length byte)); unfold ltof in IH.
  destruct bytes as [|a [|b [|c rest]]]; [done|done|done|].
  unfold str_len in *. cbn [base64_encode String.length].
  rewrite !Nat2Z.inj_succ, IH by (simpl; lia). unfold zlen. simpl length.
  replace (Z.of_nat (S (S (S (length rest)))) + 2) with (Z.of_nat (length rest) + 2 + 1 * 3) by lia.
  rewrite Z.div_add by lia. lia.
Qed.
