(* ===== verification/Json.v ===== *)
(** * JSON values: the data of [serde_json::Value]

    The sources take and build [serde_json::Value]s everywhere.  A [Number] is
    a [u64], a negative [i64] or an [f64]; an object is a [BTreeMap], hence an
    association list sorted by key.  Accessors and indexing are the crate's. *)

From S2P Require Import Prelude Text.
From Corelib Require Export SpecFloat.

(** ** [f64]: IEEE binary64, executable and without axioms *)

Definition f64 : Type := spec_float.
Definition f64_add : f64 -> f64 -> f64 := SFadd 53 1024.
Definition f64_sub : f64 -> f64 -> f64 := SFsub 53 1024.
Definition f64_mul : f64 -> f64 -> f64 := SFmul 53 1024.
Definition f64_div : f64 -> f64 -> f64 := SFdiv 53 1024.
Definition f64_of_Z (z : Z) : f64 := binary_normalize 53 1024 z 0 false.
(** A decimal literal [m / 10^k], rounded once. *)
Definition f64_lit (m : Z) (k : Z) : f64 := f64_div (f64_of_Z m) (f64_of_Z (10 ^ k)).
Definition f64_eqb : f64 -> f64 -> bool := SFeqb.
Definition f64_ltb : f64 -> f64 -> bool := SFltb.
Definition f64_leb : f64 -> f64 -> bool := SFleb.
Definition f64_is_finite (f : f64) : bool :=
  match f with S754_infinity _ | S754_nan => false | _ => true end.
Definition f64_is_nan (f : f64) : bool := match f with S754_nan => true | _ => false end.
(** [f as u64]: truncation, saturating, NaN to 0 *)
Definition f64_as_u64 (f : f64) : Z :=
  match f with
  | S754_zero _ | S754_nan => 0
  | S754_infinity s => if s then 0 else u64_max
  | S754_finite true _ _ => 0
  | S754_finite false m e => Z.min u64_max (Z.shiftl (Zpos m) e)
  end.

Global Instance f64_eq_dec : EqDecision f64.
Proof. unfold f64. solve_decision. Defined.

(** ** Values *)

Inductive number :=
| PosInt (n : Z)
| NegInt (n : Z)
| Float (f : f64).

Global Instance number_eq_dec : EqDecision number.
Proof. solve_decision. Defined.

Inductive json :=
| JNull
| JBool (b : bool)
| JNumber (n : number)
| JString (s : string)
| JArray (l : list json)
| JObject (m : list (string * json)).

Section json_induction.
  Context (P : json -> Prop).
  Context (Hnull : P JNull) (Hbool : forall b, P (JBool b))
    (Hnum : forall n, P (JNumber n)) (Hstr : forall s, P (JString s))
    (Harr : forall l, Forall P l -> P (JArray l))
    (Hobj : forall m, Forall (fun kv => P kv.2) m -> P (JObject m)).

Fixpoint json_induction (v : json) : P v :=
  match v with
  | JNull => Hnull
  | JBool b => Hbool b
  | JNumber n => Hnum n
  | JString s => Hstr s
  | JArray l => Harr l
      ((fix go l : Forall P l :=
          match l with
          | [] => List.Forall_nil _
          | x :: l => List.Forall_cons _ x l (json_induction x) (go l)
          end) l)
  | JObject m => Hobj m
      ((fix go m : Forall (fun kv => P kv.2) m :=
          match m with
          | [] => List.Forall_nil _
          | x :: m => List.Forall_cons _ x m (json_induction x.2) (go m)
          end) m)
  end.
End json_induction.

Global Instance json_eq_dec : EqDecision json.
Proof.
  unfold EqDecision, Decision. fix IH 1.
  intros [|b|n|s|l|m] [|b'|n'|s'|l'|m']; try (right; discriminate).
  - by left.
  - destruct (decide (b = b')); [left|right]; congruence.
  - destruct (decide (n = n')); [left|right]; congruence.
  - destruct (decide (s = s')); [left|right]; congruence.
  - destruct (List.list_eq_dec IH l l'); [left|right]; congruence.
  - assert (forall p q : string * json, {p = q} + {p <> q}) as Hp.
    { intros [k v] [k' v']. destruct (decide (k = k')); [|right; congruence].
      destruct (IH v v'); [left|right]; congruence. }
    destruct (List.list_eq_dec Hp m m'); [left|right]; congruence.
Defined.

Definition i64_json (z : Z) : json := JNumber (if z <? 0 then NegInt z else PosInt z).
Definition u64_json (z : Z) : json := JNumber (PosInt z).
(** [json!(f)]: a float that is not finite becomes null. *)
Definition f64_json (f : f64) : json := if f64_is_finite f then JNumber (Float f) else JNull.
Definition opt_json {A} (f : A -> json) (o : option A) : json :=
  match o with Some a => f a | None => JNull end.

(** ** Accessors *)

Definition as_str (v : json) : option string := match v with JString s => Some s | _ => None end.
Definition as_bool (v : json) : option bool := match v with JBool b => Some b | _ => None end.
Definition as_array (v : json) : option (list json) :=
  match v with JArray l => Some l | _ => None end.
Definition as_object (v : json) : option (list (string * json)) :=
  match v with JObject m => Some m | _ => None end.
Definition num_as_i64 (n : number) : option Z :=
  match n with
  | PosInt z => if z <=? i64_max then Some z else None
  | NegInt z => Some z
  | Float _ => None
  end.
Definition num_as_u64 (n : number) : option Z := match n with PosInt z => Some z | _ => None end.
Definition num_as_f64 (n : number) : option f64 :=
  match n with PosInt z | NegInt z => Some (f64_of_Z z) | Float f => Some f end.
Definition as_i64 (v : json) : option Z := match v with JNumber n => num_as_i64 n | _ => None end.
Definition as_u64 (v : json) : option Z := match v with JNumber n => num_as_u64 n | _ => None end.
Definition as_f64 (v : json) : option f64 := match v with JNumber n => num_as_f64 n | _ => None end.
Definition is_null (v : json) : bool := match v with JNull => true | _ => false end.

(** [map.get(k)] *)
Fixpoint obj_get (m : list (string * json)) (k : string) : option json :=
  match m with
  | [] => None
  | (k', v) :: m => if k' ==? k then Some v else obj_get m k
  end.
(** [map.insert(k, v)]: replaces, or inserts in key order *)
Fixpoint obj_insert (k : string) (v : json) (m : list (string * json)) : list (string * json) :=
  match m with
  | [] => [(k, v)]
  | (k', v') :: m' =>
      match String.compare k k' with
      | Lt => (k, v) :: m
      | Eq => (k, v) :: m'
      | Gt => (k', v') :: obj_insert k v m'
      end
  end.
Definition obj_remove (k : string) (m : list (string * json)) : list (string * json) :=
  List.filter (fun kv => kv.1 <>? k) m.
Definition obj_of_list (l : list (string * json)) : list (string * json) :=
  foldl (fun m kv => obj_insert kv.1 kv.2 m) [] l.
(** [json!({ .. })] *)
Definition mk_obj (l : list (string * json)) : json := JObject (obj_of_list l).

(** [value.get(k)] *)
Definition jget (v : json) (k : string) : option json := as_object v ≫= fun m => obj_get m k.
(** [value[k]]: [Null] when absent *)
Definition jidx (v : json) (k : string) : json := default JNull (jget v k).

Definition get_str (v : json) (k : string) : option string := jget v k ≫= as_str.
Definition get_bool (v : json) (k : string) : option bool := jget v k ≫= as_bool.
Definition get_i64 (v : json) (k : string) : option Z := jget v k ≫= as_i64.
Definition get_u64 (v : json) (k : string) : option Z := jget v k ≫= as_u64.

(** [opt == Some("..")] and [opt == Some(true)] *)
Definition opt_str_is (o : option string) (s : string) : bool := is_some_and o (String.eqb s).
Definition opt_bool_is (o : option bool) (b : bool) : bool := is_some_and o (Bool.eqb b).
(** [value == "..."], [value == true]: comparison of a [Value] with a literal *)
Definition jis_str (v : json) (s : string) : bool := opt_str_is (as_str v) s.
Definition jis_bool (v : json) (b : bool) : bool := opt_bool_is (as_bool v) b.

(** [Value]'s [==]: numbers of different kinds differ, floats by IEEE equality *)
Definition num_eqb (a b : number) : bool :=
  match a, b with
  | PosInt x, PosInt y | NegInt x, NegInt y => x =? y
  | Float f, Float g => f64_eqb f g
  | _, _ => false
  end.
Fixpoint json_eqb (a b : json) : bool :=
  match a, b with
  | JNull, JNull => true
  | JBool x, JBool y => Bool.eqb x y
  | JNumber x, JNumber y => num_eqb x y
  | JString x, JString y => x ==? y
  | JArray l, JArray k =>
      (fix go l k := match l, k with
        | [], [] => true
        | x :: l, y :: k => json_eqb x y && go l k
        | _, _ => false
        end) l k
  | JObject l, JObject k =>
      (fix go l k := match l, k with
        | [], [] => true
        | (n, x) :: l, (m, y) :: k => (n ==? m) && json_eqb x y && go l k
        | _, _ => false
        end) l k
  | _, _ => false
  end.

(** ** Lemmas *)

Lemma opt_str_is_true o s : opt_str_is o s = true <-> o = Some s.
Proof.
  unfold opt_str_is. destruct o as [t|]; simpl; [|done].
  rewrite String.eqb_eq. split; congruence.
Qed.

Lemma opt_bool_is_true o b : opt_bool_is o b = true <-> o = Some b.
Proof. destruct o as [[]|], b; simpl; split; congruence. Qed.

Lemma jis_str_true v s : jis_str v s = true <-> v = JString s.
Proof. unfold jis_str. rewrite opt_str_is_true. destruct v; simpl; split; congruence. Qed.

Lemma jis_bool_true v b : jis_bool v b = true <-> v = JBool b.
Proof. unfold jis_bool. rewrite opt_bool_is_true. destruct v; simpl; split; congruence. Qed.

Lemma obj_get_insert k v m k' :
  obj_get (obj_insert k v m) k' = if k ==? k' then Some v else obj_get m k'.
Proof.
  induction m as [|[n w] m IH]; simpl; [done|].
  destruct (String.compare k n) eqn:E; simpl.
  - apply String.compare_eq_iff in E as ->. by destruct (n ==? k').
  - done.
  - destruct (String.eqb_spec n k') as [->|]; [|done].
    destruct (String.eqb_spec k k') as [->|]; [|done].
    by rewrite str_compare_refl in E.
Qed.

Lemma obj_get_remove k m : obj_get (obj_remove k m) k = None.
Proof.
  induction m as [|[n w] m IH]; simpl; [done|]. destruct (String.eqb_spec n k) as [->|]; simpl; [done|].
  by destruct (String.eqb_spec n k).
Qed.

Lemma jget_mk_obj_insert k v m k' :
  jget (JObject (obj_insert k v m)) k' = if k ==? k' then Some v else jget (JObject m) k'.
Proof. apply obj_get_insert. Qed.
