(* ===== verification/Cbor.v ===== *)
(** * CBOR values and their conversion to and from JSON ([src/iicp_tcp.rs])

    [CborValue] is [ciborium::value::Value].  The codec itself is the
    [ciborium] crate: a parameter of the model ([CborCodec]), of which the code
    relies on one documented law, that a serialized value reads back.  The
    conversions [json_to_cbor] and [cbor_to_json], the map accessors and the
    JSON text codec parameter ([JsonCodec], the [serde_json] crate) are here. *)

From S2P Require Import Prelude Text Json Base64.

Inductive CborValue :=
| CInteger (n : Z)
| CBytes (b : list byte)
| CFloat (f : f64)
| CText (s : string)
| CBool (b : bool)
| CNull
| CTag (t : Z) (v : CborValue)
| CArray (l : list CborValue)
| CMap (m : list (CborValue * CborValue)).

Section cbor_induction.
  Context (P : CborValue -> Prop).
  Context (Hint : forall n, P (CInteger n)) (Hbytes : forall b, P (CBytes b))
    (Hfloat : forall f, P (CFloat f)) (Htext : forall s, P (CText s))
    (Hbool : forall b, P (CBool b)) (Hnull : P CNull)
    (Htag : forall t v, P v -> P (CTag t v))
    (Harr : forall l, Forall P l -> P (CArray l))
    (Hmap : forall m, Forall (fun kv => P kv.1 /\ P kv.2) m -> P (CMap m)).

Fixpoint cbor_induction (v : CborValue) : P v :=
  match v with
  | CInteger n => Hint n
  | CBytes b => Hbytes b
  | CFloat f => Hfloat f
  | CText s => Htext s
  | CBool b => Hbool b
  | CNull => Hnull
  | CTag t v => Htag t v (cbor_induction v)
  | CArray l => Harr l
      ((fix go l : Forall P l :=
          match l with
          | [] => List.Forall_nil _
          | x :: l => List.Forall_cons _ x l (cbor_induction x) (go l)
          end) l)
  | CMap m => Hmap m
      ((fix go m : Forall (fun kv => P kv.1 /\ P kv.2) m :=
          match m with
          | [] => List.Forall_nil _
          | x :: m => List.Forall_cons _ x m
                        (conj (cbor_induction x.1) (cbor_induction x.2)) (go m)
          end) m)
  end.
End cbor_induction.

(** ** The codec interface

    [cbor_plain d v]: what [ciborium] reads back from its own output: integers
    of its range, valid UTF-8 text, no tags, and nesting below the reader's
    recursion limit. *)

Definition CBOR_RECURSION_LIMIT : nat := 256.

Fixpoint cbor_plain (d : nat) (v : CborValue) : bool :=
  match v with
  | CInteger n => (- 2 ^ 64 <=? n) && (n <? 2 ^ 64)
  | CText s => utf8 s
  | CBytes _ | CFloat _ | CBool _ | CNull => true
  | CTag _ _ => false
  | CArray l => match d with O => false | S d => forallb (cbor_plain d) l end
  | CMap m => match d with
              | O => false
              | S d => forallb (fun kv => cbor_plain d kv.1 && cbor_plain d kv.2) m
              end
  end.

Class CborCodec := {
  cbor_ser : CborValue -> list byte;
  cbor_de : list byte -> result CborValue string;
  cbor_de_ser : forall v, cbor_plain CBOR_RECURSION_LIMIT v = true -> cbor_de (cbor_ser v) = Ok v;
  (** an encoded item has at least its initial byte *)
  cbor_ser_nonempty : forall v, cbor_ser v <> [];
  (** [ciborium::de::from_reader::<serde_json::Value, _>] *)
  cbor_de_json : list byte -> result json string
}.

(** [json_plain d v]: what [serde_json] reads back from its own output. *)
Definition JSON_RECURSION_LIMIT : nat := 127.

Fixpoint keys_sorted (ks : list string) : bool :=
  match ks with
  | k :: ((k' :: _) as rest) => String.ltb k k' && keys_sorted rest
  | _ => true
  end.

Fixpoint json_plain (d : nat) (v : json) : bool :=
  match v with
  | JNull | JBool _ => true
  | JNumber (PosInt n) => (0 <=? n) && (n <=? u64_max)
  | JNumber (NegInt n) => (i64_min <=? n) && (n <? 0)
  | JNumber (Float _) => false
  | JString s => utf8 s
  | JArray l => match d with O => false | S d => forallb (json_plain d) l end
  | JObject m => match d with
                 | O => false
                 | S d => keys_sorted m.*1 && forallb (fun kv => utf8 kv.1 && json_plain d kv.2) m
                 end
  end.

Class JsonCodec := {
  json_to_vec : json -> list byte;
  json_from_slice : list byte -> result json string;
  json_from_to : forall v, json_plain JSON_RECURSION_LIMIT v = true ->
    json_from_slice (json_to_vec v) = Ok v;
  (** the text is valid UTF-8 *)
  json_to_vec_utf8 : forall v, json_plain JSON_RECURSION_LIMIT v = true ->
    utf8_bytes (json_to_vec v) = true;
  (** the text [{}] is the empty object *)
  json_from_braces : json_from_slice [x7b; x7d] = Ok (JObject [])
}.

(** ** [encode_cbor], [decode_cbor] *)

Definition encode_cbor `{CborCodec} (value : CborValue) : list byte := cbor_ser value.
Definition decode_cbor `{CborCodec} (data : list byte) : result CborValue string :=
  map_err (fun e => "cbor decode: " +:+ e) (cbor_de data).

Lemma decode_encode_cbor `{CborCodec} v :
  cbor_plain CBOR_RECURSION_LIMIT v = true -> decode_cbor (encode_cbor v) = Ok v.
Proof. intros Hv. unfold decode_cbor, encode_cbor. by rewrite cbor_de_ser. Qed.

(** ** Map accessors *)

Fixpoint entries_get (m : list (CborValue * CborValue)) (key : Z) : option CborValue :=
  match m with
  | [] => None
  | (k, v) :: m =>
      match k with
      | CInteger n => if n =? key then Some v else entries_get m key
      | _ => entries_get m key
      end
  end.
Definition cbor_map_get (map : CborValue) (key : Z) : option CborValue :=
  match map with CMap entries => entries_get entries key | _ => None end.

Definition cbor_to_str (v : CborValue) : option string :=
  match v with CText s => Some s | _ => None end.
Definition cbor_to_bytes (v : CborValue) : option (list byte) :=
  match v with CBytes b => Some b | _ => None end.
Definition cbor_to_bool (v : CborValue) : option bool :=
  match v with CBool b => Some b | _ => None end.
Definition cbor_to_u64 (v : CborValue) : option Z :=
  match v with
  | CInteger n => if (0 <=? n) && (n <=? u64_max) then Some n else None
  | _ => None
  end.

(** ** JSON to CBOR and back *)

Fixpoint json_to_cbor (v : json) : CborValue :=
  match v with
  | JNull => CNull
  | JBool b => CBool b
  | JNumber n =>
      match num_as_i64 n with
      | Some i => CInteger i
      | None =>
          match num_as_u64 n with
          | Some u => CInteger u
          | None => match num_as_f64 n with Some f => CFloat f | None => CNull end
          end
      end
  | JString s => CText s
  | JArray items => CArray (json_to_cbor <$> items)
  | JObject m =>
      (* the source re-sorts the entries; a [serde_json::Map] already is sorted *)
      CMap ((fun kv => (CText kv.1, json_to_cbor kv.2)) <$> m)
  end.

Definition cbor_int_to_json (n : Z) : json :=
  if (i64_min <=? n) && (n <=? i64_max) then i64_json n else JString (pretty n).

Definition cbor_float_to_json (f : f64) : json :=
  if f64_is_finite f then JNumber (Float f) else JNull.

Definition cbor_key (k : CborValue) : option string :=
  match k with CText s => Some s | CInteger i => Some (pretty i) | _ => None end.

Fixpoint cbor_to_json (v : CborValue) : json :=
  match v with
  | CNull => JNull
  | CBool b => JBool b
  | CInteger n => cbor_int_to_json n
  | CFloat f => cbor_float_to_json f
  | CText s => JString s
  | CBytes b => JString (base64_encode b)
  | CArray items => JArray (cbor_to_json <$> items)
  | CMap entries =>
      JObject ((fix go (m : list (string * json)) (entries : list (CborValue * CborValue)) :=
                  match entries with
                  | [] => m
                  | (k, v) :: entries =>
                      match cbor_key k with
                      | Some key => go (obj_insert key (cbor_to_json v) m) entries
                      | None => go m entries
                      end
                  end) [] entries)
  | CTag _ _ => JNull
  end.

(** ** Lemmas *)

(** The loop of [cbor_to_json] over map entries. *)
Definition obj_step (m : list (string * json)) (kv : CborValue * CborValue) : list (string * json) :=
  match cbor_key kv.1 with
  | Some key => obj_insert key (cbor_to_json kv.2) m
  | None => m
  end.

Lemma cbor_to_json_map entries : cbor_to_json (CMap entries) = JObject (foldl obj_step [] entries).
Proof.
  simpl. f_equal. generalize (@nil (string * json)).
  induction entries as [|[k v] entries IH]; intros m; simpl; [done|].
  unfold obj_step at 2. simpl. destruct (cbor_key k); apply IH.
Qed.

Lemma keys_sorted_inv k ks :
  keys_sorted (k :: ks) = true ->
  Forall (fun k' => String.compare k k' = Lt) ks /\ keys_sorted ks = true.
Proof.
  revert k. induction ks as [|k' ks IH]; intros k; [done|].
  change (keys_sorted (k :: k' :: ks)) with (String.ltb k k' && keys_sorted (k' :: ks)).
  intros [Hlt%str_ltb_compare Hs]%andb_true_iff. split; [|done].
  destruct (IH _ Hs) as [Hall _]. constructor; [done|].
  eapply Forall_impl; [exact Hall|]. intros x Hx. by eapply str_compare_trans.
Qed.

(** Inserting a key above all others appends it. *)
Lemma obj_insert_last k v m :
  Forall (fun k' => String.compare k' k = Lt) m.*1 -> obj_insert k v m = m ++ [(k, v)].
Proof.
  induction m as [|[n w] m IH]; simpl; [done|].
  intros [Hn Hm]%Forall_cons_1. rewrite str_compare_antisym, Hn. simpl. by rewrite IH.
Qed.

Lemma foldl_obj_step_sorted (f : json -> CborValue) m acc :
  keys_sorted m.*1 = true ->
  Forall (fun k => Forall (fun k' => String.compare k' k = Lt) acc.*1) m.*1 ->
  foldl obj_step acc ((fun kv => (CText kv.1, f kv.2)) <$> m) =
    acc ++ ((fun kv => (kv.1, cbor_to_json (f kv.2))) <$> m).
Proof.
  revert acc. induction m as [|[k v] m IH]; intros acc Hs Hacc; simpl; [by rewrite app_nil_r|].
  apply Forall_cons_1 in Hacc as [Hk Hacc].
  simpl in *. destruct (keys_sorted_inv _ _ Hs) as [Hlt Hs'].
  unfold obj_step at 2. simpl. rewrite obj_insert_last by done.
  rewrite IH, <- app_assoc; try done.
  apply Forall_forall. intros x Hx. rewrite Forall_forall in Hacc, Hlt.
  rewrite fmap_app. apply Forall_app. split; [by apply Hacc|].
  constructor; [by apply Hlt|done].
Qed.

(** The object that comes back from an object with sorted keys. *)
Lemma json_cbor_object m :
  keys_sorted m.*1 = true ->
  cbor_to_json (json_to_cbor (JObject m)) =
    JObject ((fun kv => (kv.1, cbor_to_json (json_to_cbor kv.2))) <$> m).
Proof.
  intros Hs. cbn [json_to_cbor]. rewrite cbor_to_json_map. f_equal.
  apply (foldl_obj_step_sorted json_to_cbor m []); [done|]. apply Forall_forall. done.
Qed.

(** What survives the native transport unchanged: integers of the [i64] range,
    finite floats, key-sorted objects. *)
Fixpoint json_native (v : json) : bool :=
  match v with
  | JNull | JBool _ | JString _ => true
  | JNumber (PosInt n) => (0 <=? n) && (n <=? i64_max)
  | JNumber (NegInt n) => (i64_min <=? n) && (n <? 0)
  | JNumber (Float f) => f64_is_finite f
  | JArray l => forallb json_native l
  | JObject m => keys_sorted m.*1 && forallb (fun kv => json_native kv.2) m
  end.

Lemma num_roundtrip n : json_native (JNumber n) = true -> cbor_to_json (json_to_cbor (JNumber n)) = JNumber n.
Proof.
  destruct n as [z|z|f]; simpl; intros H; bprop.
  - rewrite (proj2 (Z.leb_le _ _)) by done. simpl. unfold cbor_int_to_json, i64_json, i64_min, i64_max in *.
    destruct (Z.leb_spec (- 2 ^ 63) z), (Z.leb_spec z (2 ^ 63 - 1)), (Z.ltb_spec z 0); simpl; done || lia.
  - unfold cbor_int_to_json, i64_json, i64_min, i64_max in *.
    destruct (Z.leb_spec (- 2 ^ 63) z), (Z.leb_spec z (2 ^ 63 - 1)), (Z.ltb_spec z 0); simpl; done || lia.
  - unfold cbor_float_to_json. by rewrite H.
Qed.

Lemma fmap_fixed {A} (f : A -> A) l : f <$> l = l <-> Forall (fun x => f x = x) l.
Proof.
  induction l as [|x l IH]; [done|]. rewrite Forall_cons, fmap_cons, <- IH.
  split; [by intros [= -> ->]|by intros [-> ->]].
Qed.

Lemma fmap_snd_fixed {K A} (f : A -> A) (l : list (K * A)) :
  (fun kv => (kv.1, f kv.2)) <$> l = l <-> Forall (fun kv => f kv.2 = kv.2) l.
Proof.
  rewrite fmap_fixed. apply Forall_iff. intros [k v]. simpl. split; [by intros [=]|by intros ->].
Qed.

Lemma json_cbor_json v : json_native v = true -> cbor_to_json (json_to_cbor v) = v.
Proof.
  induction v as [|b|n|s|l IH|m IH] using json_induction; try done.
  - apply num_roundtrip.
  - intros H. cbn in *. f_equal. rewrite <- list_fmap_compose. apply fmap_fixed.
    rewrite forallb_forall in H. rewrite Forall_forall in IH |- *.
    intros x Hx. apply IH; [done|]. apply H. by apply list_elem_of_In.
  - intros [Hs H]%andb_true_iff. rewrite json_cbor_object by done. f_equal.
    apply (fmap_snd_fixed (fun v => cbor_to_json (json_to_cbor v))).
    rewrite forallb_forall in H. rewrite Forall_forall in IH |- *.
    intros kv Hkv. apply IH; [done|]. apply H. by apply list_elem_of_In.
Qed.

(** The values a [serde_json::Value] can hold: [u64] and negative [i64]
    integers, finite floats, objects sorted by key. *)
Fixpoint json_wf (v : json) : bool :=
  match v with
  | JNull | JBool _ | JString _ => true
  | JNumber (PosInt n) => (0 <=? n) && (n <=? u64_max)
  | JNumber (NegInt n) => (i64_min <=? n) && (n <? 0)
  | JNumber (Float f) => f64_is_finite f
  | JArray l => forallb json_wf l
  | JObject m => keys_sorted m.*1 && forallb (fun kv => json_wf kv.2) m
  end.

Lemma native_of_roundtrip v :
  json_wf v = true -> cbor_to_json (json_to_cbor v) = v -> json_native v = true.
Proof.
  induction v as [|b|n|s|l IH|m IH] using json_induction; try done.
  - destruct n as [z|z|f]; cbn [json_wf json_native]; intros Hw Hr; [|done..].
    destruct (z <=? i64_max) eqn:Hz; [by apply andb_true_iff in Hw as [-> _]|]. exfalso. revert Hr.
    cbn [json_to_cbor num_as_i64 num_as_u64]. rewrite Hz.
    cbn [cbor_to_json]. unfold cbor_int_to_json. rewrite Hz, andb_false_r. done.
  - cbn [json_wf json_native json_to_cbor cbor_to_json].
    intros Hw [= Hr]. rewrite <- list_fmap_compose in Hr.
    apply fmap_fixed in Hr. rewrite forallb_forall in Hw |- *. rewrite Forall_forall in IH, Hr.
    intros x Hx. pose proof Hx as Hx'%list_elem_of_In. apply IH; [done|by apply Hw|by apply Hr].
  - cbn [json_wf json_native]. intros [Hs Hw]%andb_true_iff. rewrite json_cbor_object by done.
    intros [= Hr]. rewrite Hs. simpl. apply (fmap_snd_fixed (fun v => cbor_to_json (json_to_cbor v))) in Hr.
    rewrite forallb_forall in Hw |- *. rewrite Forall_forall in IH, Hr.
    intros x Hx. pose proof Hx as Hx'%list_elem_of_In. apply IH; [done|by apply Hw|by apply Hr].
Qed.

(** The JSON values that come back unchanged from the conversion to CBOR
    and back are, among those [serde_json] can hold, exactly the ones without
    an integer above [i64::MAX] (such an integer comes back as a string). *)
Theorem json_transport_roundtrip v :
  json_wf v = true ->
  (cbor_to_json (json_to_cbor v) = v <-> json_native v = true).
Proof. intros Hw. split; [by apply native_of_roundtrip|apply json_cbor_json]. Qed.

Definition wide_json : json :=
  JObject [("a", JNumber (PosInt i64_max)); ("b", JArray [JNumber (PosInt u64_max)])].

Lemma json_transport_roundtrip_witness :
  cbor_to_json (json_to_cbor wide_json) <> wide_json /\
  cbor_to_json (json_to_cbor (JArray [JNumber (NegInt (-1)); JNull])) = JArray [JNumber (NegInt (-1)); JNull].
Proof.
  split.
  - intros H%(json_transport_roundtrip wide_json eq_refl). discriminate H.
  - by apply json_transport_roundtrip.
Defined.
