(* ===== verification/CodecModel.v ===== *)
(** * A concrete codec

    An instance of the codec interfaces of [Cbor.v], used only to evaluate the
    components on concrete inputs: it shows the interfaces' laws can hold
    together.  Values become trees, trees become a number, and a number is
    written one bit per byte. *)

From S2P Require Import Prelude Text Json Base64 Cbor.

(** ** Numbers as bytes *)

Fixpoint pos_bytes (p : positive) : list byte :=
  match p with
  | xH => [x02]
  | xO p => x00 :: pos_bytes p
  | xI p => x01 :: pos_bytes p
  end.
Fixpoint bytes_pos (l : list byte) : positive :=
  match l with
  | x00 :: l => xO (bytes_pos l)
  | x01 :: l => xI (bytes_pos l)
  | _ => xH
  end.
Lemma bytes_pos_bytes p : bytes_pos (pos_bytes p) = p.
Proof. induction p; simpl; congruence. Qed.

Lemma pos_bytes_nonempty p : pos_bytes p <> [].
Proof. by destruct p. Qed.
Lemma pos_bytes_utf8 p : utf8_bytes (pos_bytes p) = true.
Proof. unfold utf8_bytes. by induction p. Qed.

Definition ser_of {A} `{Countable A} (a : A) : list byte := pos_bytes (encode a).
Definition de_of {A} `{Countable A} (l : list byte) : result A string :=
  ok_or (decode (bytes_pos l)) "malformed".
Lemma de_ser_of {A} `{Countable A} (a : A) : de_of (ser_of a) = Ok a.
Proof. unfold de_of, ser_of. by rewrite bytes_pos_bytes, decode_encode. Qed.

(** ** Countability of the value types *)

Global Instance byte_countable : Countable byte := inj_countable Byte.to_N Byte.of_N Byte.of_to_N.

Definition f64_code (f : f64) : bool * (bool + (bool + (unit + bool * positive * Z))) :=
  match f with
  | S754_zero s => (false, inl s)
  | S754_infinity s => (false, inr (inl s))
  | S754_nan => (false, inr (inr (inl tt)))
  | S754_finite s m e => (false, inr (inr (inr (s, m, e))))
  end.
Definition f64_decode (c : bool * (bool + (bool + (unit + bool * positive * Z)))) : f64 :=
  match c.2 with
  | inl s => S754_zero s
  | inr (inl s) => S754_infinity s
  | inr (inr (inl _)) => S754_nan
  | inr (inr (inr (s, m, e))) => S754_finite s m e
  end.
Global Instance f64_countable : Countable f64.
Proof. apply (inj_countable' f64_code f64_decode). by intros []. Defined.

Definition leaf : Type := (Z + list byte) + (f64 + string) + (bool + unit).

Fixpoint cbor_tree (v : CborValue) : gen_tree leaf :=
  match v with
  | CInteger n => GenLeaf (inl (inl (inl n)))
  | CBytes b => GenLeaf (inl (inl (inr b)))
  | CFloat f => GenLeaf (inl (inr (inl f)))
  | CText s => GenLeaf (inl (inr (inr s)))
  | CBool b => GenLeaf (inr (inl b))
  | CNull => GenLeaf (inr (inr tt))
  | CTag t v => GenNode 0 [GenLeaf (inl (inl (inl t))); cbor_tree v]
  | CArray l => GenNode 1 (cbor_tree <$> l)
  | CMap m => GenNode 2 ((fun kv => GenNode 3 [cbor_tree kv.1; cbor_tree kv.2]) <$> m)
  end.
Fixpoint tree_cbor (t : gen_tree leaf) : CborValue :=
  match t with
  | GenLeaf (inl (inl (inl n))) => CInteger n
  | GenLeaf (inl (inl (inr b))) => CBytes b
  | GenLeaf (inl (inr (inl f))) => CFloat f
  | GenLeaf (inl (inr (inr s))) => CText s
  | GenLeaf (inr (inl b)) => CBool b
  | GenLeaf (inr (inr _)) => CNull
  | GenNode 0 [GenLeaf (inl (inl (inl t))); v] => CTag t (tree_cbor v)
  | GenNode 1 l => CArray (tree_cbor <$> l)
  | GenNode 2 l =>
      CMap ((fun t => match t with
                      | GenNode 3 [k; v] => (tree_cbor k, tree_cbor v)
                      | _ => (CNull, CNull)
                      end) <$> l)
  | _ => CNull
  end.

Lemma fmap_id_on {A} (f : A -> A) l : Forall (fun x => f x = x) l -> f <$> l = l.
Proof. induction 1; csimpl; congruence. Qed.

Lemma tree_cbor_tree v : tree_cbor (cbor_tree v) = v.
Proof.
  induction v as [| | | | | |t v IH|l IH|m IH] using cbor_induction; simpl; try done.
  - by rewrite IH.
  - f_equal. rewrite <- list_fmap_compose. by apply fmap_id_on.
  - f_equal. rewrite <- list_fmap_compose. apply fmap_id_on.
    eapply Forall_impl; [exact IH|]. intros [k v] [Hk Hv]. simpl in *. by rewrite Hk, Hv.
Qed.

Global Instance cbor_eq_dec : EqDecision CborValue.
Proof.
  intros v w. destruct (decide (cbor_tree v = cbor_tree w)) as [E|E].
  - left. by rewrite <- (tree_cbor_tree v), E, tree_cbor_tree.
  - right. by intros ->.
Defined.
Global Instance cbor_countable : Countable CborValue := inj_countable' cbor_tree tree_cbor tree_cbor_tree.

Fixpoint json_tree (v : json) : gen_tree leaf :=
  match v with
  | JNull => GenLeaf (inr (inr tt))
  | JBool b => GenLeaf (inr (inl b))
  | JNumber (PosInt n) => GenNode 0 [GenLeaf (inl (inl (inl n)))]
  | JNumber (NegInt n) => GenLeaf (inl (inl (inl n)))
  | JNumber (Float f) => GenLeaf (inl (inr (inl f)))
  | JString s => GenLeaf (inl (inr (inr s)))
  | JArray l => GenNode 1 (json_tree <$> l)
  | JObject m => GenNode 2 ((fun kv => GenNode 3 [GenLeaf (inl (inr (inr kv.1))); json_tree kv.2]) <$> m)
  end.
Fixpoint tree_json (t : gen_tree leaf) : json :=
  match t with
  | GenLeaf (inl (inl (inl n))) => JNumber (NegInt n)
  | GenLeaf (inl (inr (inl f))) => JNumber (Float f)
  | GenLeaf (inl (inr (inr s))) => JString s
  | GenLeaf (inr (inl b)) => JBool b
  | GenNode 0 [GenLeaf (inl (inl (inl n)))] => JNumber (PosInt n)
  | GenNode 1 l => JArray (tree_json <$> l)
  | GenNode 2 l =>
      JObject ((fun t => match t with
                         | GenNode 3 [GenLeaf (inl (inr (inr k))); v] => (k, tree_json v)
                         | _ => (EmptyString, JNull)
                         end) <$> l)
  | _ => JNull
  end.

Lemma tree_json_tree v : tree_json (json_tree v) = v.
Proof.
  induction v as [| |[]| |l IH|m IH] using json_induction; simpl; try done.
  - f_equal. rewrite <- list_fmap_compose. by apply fmap_id_on.
  - f_equal. rewrite <- list_fmap_compose. apply fmap_id_on.
    eapply Forall_impl; [exact IH|]. intros [k v] Hv. simpl in *. by rewrite Hv.
Qed.
Global Instance json_countable : Countable json := inj_countable' json_tree tree_json tree_json_tree.

(** ** The instances *)

(** The text [{}] is the empty object, as in the real format. *)
Definition model_json_from_slice (l : list byte) : result json string :=
  match l with
  | [x7b; x7d] => Ok (JObject [])
  | _ => de_of l
  end.
Lemma model_json_from_to (v : json) : model_json_from_slice (ser_of v) = Ok v.
Proof.
  pose proof (de_ser_of v) as E. unfold ser_of in *.
  destruct (encode v) as [p|p|]; simpl in *; exact E.
Qed.

#[export] Instance model_cbor_codec : CborCodec := {|
  cbor_ser := ser_of;
  cbor_de := de_of;
  cbor_de_ser := fun v _ => de_ser_of v;
  cbor_ser_nonempty := fun v => pos_bytes_nonempty (encode v);
  cbor_de_json := fun l => let? v := de_of l in Ok (cbor_to_json v)
|}.

#[export] Instance model_json_codec : JsonCodec := {|
  json_to_vec := ser_of;
  json_from_slice := model_json_from_slice;
  json_from_to := fun v _ => model_json_from_to v;
  json_from_braces := eq_refl;
  json_to_vec_utf8 := fun v _ => pos_bytes_utf8 (encode v)
|}.
