(* ===== verification/Gate.v ===== *)
(** * Capacity gates ([src/concurrency.rs], [src/cip_policy.rs])

    Both gates bound a counter with the same compare-exchange loop.  The loop
    is modelled one atomic instruction at a time: a thread is a program
    counter, a schedule is the list of thread numbers that execute next, and
    the bound is proved for every schedule.  The sequential functions used by
    the servers are the uninterrupted executions of the same instructions. *)

From S2P Require Import Prelude Text Json.

(** ** The compare-exchange loop *)

(** Where a caller is: outside, in the loop with the value [cur] it last read,
    holding a slot, or refused. *)
Inductive gate_pc :=
| Outside
| Trying (cur : Z)
| Holding
| Refused.

(** One atomic instruction.  [Outside] performs the initial load; [Trying cur]
    tests the bound and, below it, the compare-exchange, which on failure
    returns the actual value; [Holding] performs the release's [fetch_sub],
    which wraps; [Refused] returns to its caller. *)
Definition cas_instr (limit counter : Z) (pc : gate_pc) : Z * gate_pc :=
  match pc with
  | Outside => (counter, Trying counter)
  | Trying cur =>
      if limit <=? cur then (counter, Refused)
      else if counter =? cur then (cur + 1, Holding)
      else (counter, Trying counter)
  | Holding => ((counter - 1) mod 2 ^ 64, Outside)
  | Refused => (counter, Outside)
  end.

(** The loop run without interference. *)
Fixpoint cas_run (fuel : nat) (limit counter : Z) (pc : gate_pc) : Z * gate_pc :=
  match pc, fuel with
  | Holding, _ | Refused, _ | _, O => (counter, pc)
  | _, S n => let '(c, pc') := cas_instr limit counter pc in cas_run n limit c pc'
  end.

(** Threads sharing one counter. *)
Definition cas_step (limit : Z) (σ : Z * list gate_pc) (i : nat) : Z * list gate_pc :=
  match σ.2 !! i with
  | Some pc => let '(c, pc') := cas_instr limit σ.1 pc in (c, <[i := pc']> σ.2)
  | None => σ
  end.
Definition cas_sched (limit : Z) : Z * list gate_pc -> list nat -> Z * list gate_pc :=
  foldl (cas_step limit).

Definition pc_weight (pc : gate_pc) : Z := match pc with Holding => 1 | _ => 0 end.
(** Number of threads that hold a slot. *)
Fixpoint held (ts : list gate_pc) : Z :=
  match ts with [] => 0 | pc :: ts => pc_weight pc + held ts end.

(** ** [ConcurrencyGate] *)

Record ConcurrencyGate := mkGate { max_concurrent : Z; active : Z }.

(** [new] panics ([None]) below one slot. *)
Definition gate_new (max_concurrent : Z) : option ConcurrencyGate :=
  if 1 <=? max_concurrent then Some (mkGate max_concurrent 0) else None.

Record CapacityExceededError := mkCapacityExceeded { exceeded_max : Z }.

Definition acquire (g : ConcurrencyGate) : result ConcurrencyGate CapacityExceededError :=
  match cas_run 3 (max_concurrent g) (active g) Outside with
  | (c, Holding) => Ok (mkGate (max_concurrent g) c)
  | _ => Err (mkCapacityExceeded (max_concurrent g))
  end.

Definition release (g : ConcurrencyGate) : ConcurrencyGate :=
  mkGate (max_concurrent g) ((active g - 1) mod 2 ^ 64).

(** [run]: the drop guard releases when the future has produced its value. *)
Definition gate_run {T} (g : ConcurrencyGate) (fut : ConcurrencyGate -> T * ConcurrencyGate)
    : result (T * ConcurrencyGate) CapacityExceededError :=
  let? g' := acquire g in
  let '(t, g'') := fut g' in
  Ok (t, release g'').

Definition active_jobs (g : ConcurrencyGate) : Z := active g.
Definition gate_max (g : ConcurrencyGate) : Z := max_concurrent g.
Definition gate_load (g : ConcurrencyGate) : f64 :=
  if max_concurrent g =? 0 then f64_of_Z 1
  else f64_div (f64_of_Z (active g)) (f64_of_Z (max_concurrent g)).

(** ** [CooperativeInferencePolicy] *)

Record CooperativeInferencePolicyOptions := mkCipOptions {
  opt_enabled : bool;
  opt_allow_coordinator : bool;
  opt_allow_worker : bool;
  opt_max_replicas : Z;
  opt_max_worker_timeout_ms : Z;
  opt_max_concurrent_remote : Z;
  opt_allow_tool_execution : bool
}.

Definition cip_options_default : CooperativeInferencePolicyOptions :=
  mkCipOptions false false false 3 30000 2 false.

Record CooperativeInferencePolicy := mkCipPolicy {
  enabled : bool;
  allow_coordinator : bool;
  allow_worker : bool;
  max_replicas : Z;
  max_worker_timeout_ms : Z;
  max_concurrent_remote : Z;
  allow_tool_execution : bool;
  in_flight : Z
}.

Definition cip_new (o : CooperativeInferencePolicyOptions) : CooperativeInferencePolicy :=
  mkCipPolicy (opt_enabled o) (opt_allow_coordinator o) (opt_allow_worker o)
    (Z.max (opt_max_replicas o) 1)
    (Z.min (Z.max (opt_max_worker_timeout_ms o) 1) 60000)
    (Z.max (opt_max_concurrent_remote o) 1)
    (opt_allow_tool_execution o) 0.

Definition permits_intent (p : CooperativeInferencePolicy) (intent : string) : bool :=
  let domain := default EmptyString (str_split ":" intent !! 3%nat) in
  allow_tool_execution p || (domain <>? "tool").
Definition check_coordinator (p : CooperativeInferencePolicy) : bool :=
  enabled p && allow_coordinator p.
Definition check_worker (p : CooperativeInferencePolicy) : bool := enabled p && allow_worker p.

Definition set_in_flight (p : CooperativeInferencePolicy) (n : Z) : CooperativeInferencePolicy :=
  mkCipPolicy (enabled p) (allow_coordinator p) (allow_worker p) (max_replicas p)
    (max_worker_timeout_ms p) (max_concurrent_remote p) (allow_tool_execution p) n.

Definition try_acquire_cip_slot (p : CooperativeInferencePolicy) : bool * CooperativeInferencePolicy :=
  match cas_run 3 (max_concurrent_remote p) (in_flight p) Outside with
  | (c, Holding) => (true, set_in_flight p c)
  | _ => (false, p)
  end.
Definition release_cip_slot (p : CooperativeInferencePolicy) : CooperativeInferencePolicy :=
  set_in_flight p ((in_flight p - 1) mod 2 ^ 64).

Definition as_register_policy_block (p : CooperativeInferencePolicy) : option json :=
  if negb (enabled p) then None
  else Some (mk_obj [("allow_remote_inference", JBool (allow_worker p));
                     ("allow_tool_execution", JBool (allow_tool_execution p))]).

(** ** The invariant of the loop *)

Definition cas_inv (limit : Z) (σ : Z * list gate_pc) : Prop :=
  0 <= σ.1 <= limit /\ σ.1 = held σ.2.

Lemma held_nonneg ts : 0 <= held ts.
Proof. induction ts as [|[] ts IH]; simpl; lia. Qed.

Lemma held_insert ts i pc pc' :
  ts !! i = Some pc -> held (<[i := pc']> ts) = held ts - pc_weight pc + pc_weight pc'.
Proof.
  revert i. induction ts as [|p ts IH]; intros [|i] H; simplify_eq/=; [lia|].
  rewrite (IH i H). lia.
Qed.

Lemma held_lookup ts i : ts !! i = Some Holding -> 1 <= held ts.
Proof.
  revert i. induction ts as [|p ts IH]; intros [|i] H; simplify_eq/=.
  - pose proof (held_nonneg ts). lia.
  - specialize (IH i H). destruct p; simpl; lia.
Qed.

Lemma cas_step_inv limit σ i :
  limit <= u64_max -> cas_inv limit σ -> cas_inv limit (cas_step limit σ i).
Proof.
  unfold cas_inv, cas_step, u64_max. intros Hl [Hb Hh]. destruct σ as [c ts]; simpl in *.
  destruct (ts !! i) as [pc|] eqn:E; [|done].
  destruct pc as [|cur| |]; simpl; try (rewrite (held_insert _ _ _ _ E); simpl; lia).
  - destruct (Z.leb_spec limit cur); simpl; [rewrite (held_insert _ _ _ _ E); simpl; lia|].
    destruct (Z.eqb_spec c cur); simpl; rewrite (held_insert _ _ _ _ E); simpl; lia.
  - pose proof (held_lookup _ _ E). rewrite (held_insert _ _ _ _ E), Z.mod_small by lia.
    simpl. lia.
Qed.

Lemma cas_sched_inv limit sched σ :
  limit <= u64_max -> cas_inv limit σ -> cas_inv limit (cas_sched limit σ sched).
Proof.
  intros Hl. revert σ. induction sched as [|i sched IH]; intros σ H; simpl; [done|].
  by apply IH, cas_step_inv.
Qed.

Lemma cas_inv_init limit n : 0 <= limit -> cas_inv limit (0, replicate n Outside).
Proof.
  intros. unfold cas_inv. simpl. split; [lia|]. induction n; simpl; lia.
Qed.

(** The uninterrupted loop decides on the value it read. *)
Lemma cas_run_alone limit c :
  cas_run 3 limit c Outside = if limit <=? c then (c, Refused) else (c + 1, Holding).
Proof.
  simpl. destruct (limit <=? c); [done|]. by rewrite Z.eqb_refl.
Qed.

Lemma acquire_spec g :
  acquire g = if max_concurrent g <=? active g then Err (mkCapacityExceeded (max_concurrent g))
              else Ok (mkGate (max_concurrent g) (active g + 1)).
Proof. unfold acquire. rewrite cas_run_alone. by destruct (_ <=? _). Qed.

Definition gate_ok (g : ConcurrencyGate) : Prop :=
  1 <= max_concurrent g <= u64_max /\ 0 <= active g <= max_concurrent g.

Lemma release_acquire g g' : gate_ok g -> acquire g = Ok g' -> release g' = g.
Proof.
  unfold gate_ok, u64_max. rewrite acquire_spec. intros H.
  destruct (Z.leb_spec (max_concurrent g) (active g)); intros E; simplify_eq.
  unfold release; simpl. rewrite Z.mod_small by lia. destruct g; simpl. f_equal. lia.
Qed.

Lemma acquire_ok g g' : gate_ok g -> acquire g = Ok g' -> gate_ok g'.
Proof.
  unfold gate_ok. rewrite acquire_spec. intros H.
  destruct (Z.leb_spec (max_concurrent g) (active g)); intros E; simplify_eq; simpl. lia.
Qed.

(** For every number of callers and every interleaving of their atomic
    instructions, the gate's counter is exactly the number of callers that
    hold a slot, and never exceeds [max_concurrent]. *)
Theorem gate_bounded max_concurrent g callers sched :
  gate_new max_concurrent = Some g -> max_concurrent <= u64_max ->
  let σ := cas_sched (gate_max g) (active_jobs g, replicate callers Outside) sched in
  σ.1 = held σ.2 /\ 0 <= σ.1 <= max_concurrent.
Proof.
  unfold gate_new. destruct (Z.leb_spec 1 max_concurrent); intros E Hl; simplify_eq; simpl.
  destruct (cas_sched_inv max_concurrent sched (0, replicate callers Outside) Hl) as [Hb Hh];
    [apply cas_inv_init; lia|]. done.
Qed.

Lemma gate_bounded_witness :
  let σ := cas_sched 2 (0, replicate 3 Outside) [0; 1; 2; 0; 1; 2; 2; 2]%nat in
  σ.1 = held σ.2 /\ 0 <= σ.1 <= 2.
Proof. exact (gate_bounded 2 (mkGate 2 0) 3 [0; 1; 2; 0; 1; 2; 2; 2]%nat eq_refl ltac:(discriminate)). Defined.

(** A caller that runs without interference for two more instructions
    leaves the loop, holding a slot or refused; it is refused only on a value
    at or above the limit. *)
Theorem gate_obstruction_free limit σ i pc :
  σ.2 !! i = Some pc -> pc <> Holding -> pc <> Refused ->
  exists k, (k <= 2)%nat /\
    (cas_sched limit σ (replicate k i)).2 !! i =
      Some (if limit <=? match pc with Trying cur => if limit <=? cur then cur else σ.1 | _ => σ.1 end
            then Refused else Holding).
Proof.
  destruct σ as [c ts]; simpl. intros Hi Hh Hr.
  assert (i < length ts)%nat as Hlt by (by eapply lookup_lt_Some).
  destruct pc as [|cur| |]; try done.
  - exists 2%nat. split; [lia|]. simpl. unfold cas_step. simpl. rewrite Hi. simpl.
    rewrite list_lookup_insert_eq by done. simpl.
    destruct (limit <=? c); simpl; [|rewrite Z.eqb_refl; simpl];
      by rewrite list_lookup_insert_eq by (by rewrite length_insert).
  - destruct (Z.leb_spec limit cur) as [Hle|Hgt].
    + exists 1%nat. split; [lia|]. simpl. unfold cas_step. simpl. rewrite Hi. simpl.
      rewrite (proj2 (Z.leb_le _ _) Hle). simpl. by rewrite list_lookup_insert_eq.
    + destruct (Z.eqb_spec c cur) as [->|Hne].
      * exists 1%nat. split; [lia|]. simpl. unfold cas_step. simpl. rewrite Hi. simpl.
        rewrite (proj2 (Z.leb_gt _ _) Hgt), Z.eqb_refl. simpl. by rewrite list_lookup_insert_eq.
      * exists 2%nat. split; [lia|]. simpl. unfold cas_step. simpl. rewrite Hi. simpl.
        rewrite (proj2 (Z.leb_gt _ _) Hgt), (proj2 (Z.eqb_neq _ _) Hne). simpl.
        rewrite list_lookup_insert_eq by done. simpl.
        destruct (limit <=? c); simpl; [|rewrite Z.eqb_refl; simpl];
          by rewrite list_lookup_insert_eq by (by rewrite length_insert).
Qed.

Lemma gate_obstruction_free_witness :
  exists k, (k <= 2)%nat /\ (cas_sched 1 (0, [Outside]) (replicate k 0%nat)).2 !! 0%nat = Some Holding.
Proof. exact (gate_obstruction_free 1 (0, [Outside]) 0 Outside eq_refl ltac:(discriminate) ltac:(discriminate)). Defined.

(** Whatever the operator's options, a policy admits at least one and at
    most [max_concurrent_remote] CIP tasks at a time under every interleaving,
    and its worker timeout is within 1 ms and 60 s. *)
Theorem cip_slots_bounded o callers sched :
  opt_max_concurrent_remote o <= u64_max ->
  let p := cip_new o in
  let σ := cas_sched (max_concurrent_remote p) (in_flight p, replicate callers Outside) sched in
  1 <= max_concurrent_remote p /\ σ.1 = held σ.2 /\ 0 <= σ.1 <= max_concurrent_remote p /\
  1 <= max_worker_timeout_ms p <= 60000.
Proof.
  simpl. intros Hl.
  destruct (cas_sched_inv (Z.max (opt_max_concurrent_remote o) 1) sched (0, replicate callers Outside))
    as [Hb Hh]; [unfold u64_max in *; lia|apply cas_inv_init; lia|].
  repeat split; try done; lia.
Qed.

Lemma cip_slots_bounded_witness :
  1 <= max_concurrent_remote (cip_new cip_options_default) <= 2.
Proof.
  destruct (cip_slots_bounded cip_options_default 4 [0; 1; 2; 3]%nat ltac:(discriminate))
    as (H1 & _). split; [exact H1|discriminate].
Defined.
