(* ===== verification/ResponseSequence.v ===== *)
(** * Native response sequences and call identities
      ([src/native_response_sequence.rs], [src/native_call_identity.rs])

    The consumer's validator of a stream of lifecycle RESPONSE frames, and the
    fail-closed registry of call and task identifiers. *)

From S2P Require Import Prelude Text Json.

(** ** Response frames *)

Record NativeLifecycleEnvelope := mkEnvelope {
  env_task_id : string;
  sequence : Z;
  event : string;
  env_is_final : bool
}.

Record NativeResponseFrame := mkResponse {
  rf_session_id : string;
  rf_call_id : string;
  status : string;
  is_final : bool;
  lifecycle : NativeLifecycleEnvelope;
  rf_result : json;
  rf_error : json;
  tokens_used : option Z
}.

Record NativeResponseSequence := mkSequence {
  sq_session_id : string;
  sq_call_id : string;
  sq_task_id : string;
  next_sequence : Z;
  terminal_seen : bool
}.

Definition sequence_new (session_id call_id task_id : string) : NativeResponseSequence :=
  mkSequence session_id call_id task_id 0 false.

(** The [match] on the status of [accept]. *)
Definition status_matches (status event : string) : bool :=
  if status ==? "partial" then event ==? "partial"
  else if status ==? "success" then event ==? "completed"
  else if status ==? "error" then str_in event ["failed"; "cancelled"]
  else if status ==? "timeout" then str_in event ["timed_out"; "expired"]
  else false.

Definition accept (s : NativeResponseSequence) (f : NativeResponseFrame)
    : result NativeResponseSequence string :=
  if terminal_seen s then Err "response_after_terminal"
  else if rf_session_id f <>? sq_session_id s then Err "session_id_drift"
  else if rf_call_id f <>? sq_call_id s then Err "call_id_drift"
  else if env_task_id (lifecycle f) <>? sq_task_id s then Err "task_id_drift"
  else if negb (sequence (lifecycle f) =? next_sequence s) then Err "sequence_drift"
  else if negb (Bool.eqb (is_final f) (env_is_final (lifecycle f))) then Err "finality_disagreement"
  else if negb (status_matches (status f) (event (lifecycle f))) then Err "status_event_disagreement"
  else if ((status f ==? "partial") && is_final f) || ((status f <>? "partial") && negb (is_final f))
  then Err "terminal_flag_mismatch"
  else Ok (mkSequence (sq_session_id s) (sq_call_id s) (sq_task_id s)
             (u64_add (next_sequence s) 1) (is_final f)).

Definition finish (s : NativeResponseSequence) : result unit string :=
  if terminal_seen s then Ok tt else Err "missing_terminal_response".

(** A whole stream of frames, up to the first refusal. *)
Fixpoint accept_all (s : NativeResponseSequence) (fs : list NativeResponseFrame)
    : result NativeResponseSequence string :=
  match fs with
  | [] => Ok s
  | f :: fs => let? s := accept s f in accept_all s fs
  end.

(** ** What an accepted frame is *)

Record frame_follows (s : NativeResponseSequence) (f : NativeResponseFrame) : Prop := {
  ff_session : rf_session_id f = sq_session_id s;
  ff_call : rf_call_id f = sq_call_id s;
  ff_task : env_task_id (lifecycle f) = sq_task_id s;
  ff_sequence : sequence (lifecycle f) = next_sequence s;
  ff_final : is_final f = env_is_final (lifecycle f);
  ff_status : status_matches (status f) (event (lifecycle f)) = true;
  ff_flag : is_final f = true <-> status f <> "partial"
}.

Lemma accept_ok s f s' :
  accept s f = Ok s' <->
  terminal_seen s = false /\ frame_follows s f /\
  s' = mkSequence (sq_session_id s) (sq_call_id s) (sq_task_id s)
         (u64_add (next_sequence s) 1) (is_final f).
Proof.
  unfold accept. split.
  - intros H. split_ifs; bprop. split; [done|]. split; [|done].
    match goal with H : Bool.eqb _ _ = true |- _ => apply Bool.eqb_prop in H end.
    split; try done. destruct (String.eqb_spec (status f) "partial"), (is_final f); simplify_eq/=; done.
  - intros (-> & [-> -> -> -> -> Hs Hf] & ->).
    rewrite !String.eqb_refl, Z.eqb_refl, Bool.eqb_reflx, Hs. simpl.
    destruct (String.eqb_spec (status f) "partial") as [E|E], (env_is_final (lifecycle f)) eqn:Ef; simpl.
    all: try done.
    + exfalso. destruct Hf as [Hf _]. by apply Hf.
    + exfalso. destruct Hf as [_ Hf]. specialize (Hf E). congruence.
Qed.

(** A complete response stream: numbered from [n] without gaps, bound to one
    session, call and task, with exactly its last frame final. *)
Record complete_stream (session_id call_id task_id : string) (n : Z)
    (fs : list NativeResponseFrame) : Prop := {
  cs_nonempty : fs <> [];
  cs_frames : forall (i : nat) f, fs !! i = Some f ->
    frame_follows (mkSequence session_id call_id task_id (n + Z.of_nat i) false) f;
  cs_final : forall (i : nat) f, fs !! i = Some f -> (is_final f = true <-> S i = length fs)
}.

Lemma accept_all_terminal s fs s' :
  terminal_seen s = true -> accept_all s fs = Ok s' -> fs = [] /\ s' = s.
Proof. destruct fs as [|f fs]; simpl; [naive_solver|]. unfold accept. intros ->. done. Qed.

Lemma complete_stream_cons sid cid tid n f fs :
  complete_stream sid cid tid n (f :: fs) <->
  frame_follows (mkSequence sid cid tid n false) f /\
  (if is_final f then fs = [] else complete_stream sid cid tid (n + 1) fs).
Proof.
  split.
  - intros [_ Hf Hl]. pose proof (Hf 0%nat f eq_refl) as H0. rewrite Z.add_0_r in H0.
    split; [done|]. pose proof (Hl 0%nat f eq_refl) as Hl0. simpl in Hl0.
    destruct (is_final f) eqn:E.
    + destruct fs; [done|]. simpl in Hl0. destruct Hl0 as [Hl0 _]. by specialize (Hl0 eq_refl).
    + split.
      * intros ->. simpl in Hl0. destruct Hl0 as [_ Hl0]. by specialize (Hl0 eq_refl).
      * intros i g Hi. specialize (Hf (S i) g Hi).
        by replace (n + 1 + Z.of_nat i) with (n + Z.of_nat (S i)) by lia.
      * intros i g Hi. rewrite (Hl (S i) g Hi). simpl. lia.
  - intros [Hf H]. destruct (is_final f) eqn:E.
    + subst fs. split; [done| |]; intros [|i] g Hi; simplify_eq/=; [by rewrite Z.add_0_r|].
      by rewrite E.
    + destruct H as [Hne Hfs Hl]. split; [done| |]; intros [|i] g Hi; simplify_eq/=.
      * by rewrite Z.add_0_r.
      * replace (n + Z.of_nat (S i)) with (n + 1 + Z.of_nat i) by lia. by apply Hfs.
      * destruct fs; [done|]. simpl. split; [congruence|lia].
      * rewrite (Hl i g Hi). lia.
Qed.

Lemma accept_all_complete sid cid tid n fs :
  0 <= n -> n + zlen fs <= u64_max ->
  (exists s', accept_all (mkSequence sid cid tid n false) fs = Ok s' /\ finish s' = Ok tt) <->
  complete_stream sid cid tid n fs.
Proof.
  revert n. induction fs as [|f fs IH]; intros n Hn Hu.
  - split; [intros (s' & E & H); simplify_eq/=; by unfold finish in H|by intros []].
  - rewrite complete_stream_cons. rewrite zlen_cons in Hu.
    pose proof (zlen_nonneg fs) as Hz. simpl accept_all. split.
    + intros (s' & (s1 & (_ & Hff & ->)%accept_ok & Hall)%rbind_Ok & Hfin).
      split; [done|]. simpl in Hall. rewrite u64_add_small in Hall by lia.
      destruct (is_final f) eqn:E.
      * by apply accept_all_terminal in Hall as [-> _].
      * apply IH; [lia|lia|]. eauto.
    + intros [Hff H].
      assert (accept (mkSequence sid cid tid n false) f =
              Ok (mkSequence sid cid tid (n + 1) (is_final f))) as ->.
      { apply accept_ok. simpl. by rewrite u64_add_small by lia. }
      simpl. destruct (is_final f) eqn:E.
      * subst fs. simpl. eauto.
      * by apply IH; [lia|lia|].
Qed.

(** The validator accepts a stream of frames and its end exactly when the
    stream is complete: frames numbered 0, 1, 2, .. without gap or repetition,
    all bound to the session, call and task, status, event and finality in
    agreement, and exactly the last frame final. *)
Theorem response_sequence_exact session_id call_id task_id fs :
  zlen fs <= u64_max ->
  (exists s', accept_all (sequence_new session_id call_id task_id) fs = Ok s' /\ finish s' = Ok tt) <->
  complete_stream session_id call_id task_id 0 fs.
Proof. intros H. apply accept_all_complete; lia. Qed.

Definition demo_frame (n : Z) (st ev : string) (fin : bool) : NativeResponseFrame :=
  mkResponse "s" "c" st fin (mkEnvelope "t" n ev fin) JNull JNull None.

Lemma response_sequence_exact_witness :
  complete_stream "s" "c" "t" 0
    [demo_frame 0 "partial" "partial" false; demo_frame 1 "success" "completed" true].
Proof.
  apply (response_sequence_exact "s" "c" "t"
    [demo_frame 0 "partial" "partial" false; demo_frame 1 "success" "completed" true]).
  - vm_compute. discriminate.
  - eexists. split; reflexivity.
Defined.

(** ** Call identities *)

Definition LIFECYCLE_PROFILE : string := "urn:iicp:profile:service-lifecycle:v1".

Inductive NativeCallIdentityError :=
| MissingTaskId | MissingCallId | MissingIdempotencyKey | CallIdReuse | TaskIdentityConflict.

Record NativeCallIdentityRegistry := mkRegistry {
  tasks : gmap string string;
  calls : gset string
}.
Definition registry_default : NativeCallIdentityRegistry := mkRegistry ∅ ∅.

Definition required (call : json) (key : string) (error : NativeCallIdentityError)
    : result string NativeCallIdentityError :=
  match get_str call key with
  | Some v => if str_is_empty v then Err error else Ok v
  | None => Err error
  end.

Definition registry_accept (r : NativeCallIdentityRegistry) (call : json)
    : result NativeCallIdentityRegistry NativeCallIdentityError :=
  if negb (opt_str_is (get_str call "profile") LIFECYCLE_PROFILE) then Ok r
  else
    let? task_id := required call "task_id" MissingTaskId in
    let? call_id := required call "call_id" MissingCallId in
    let? idempotency_key := required call "idempotency_key" MissingIdempotencyKey in
    if bool_decide (call_id ∈ calls r) then Err CallIdReuse
    else if is_some_and (tasks r !! task_id) (fun known => known <>? idempotency_key)
    then Err TaskIdentityConflict
    else Ok (mkRegistry (<[task_id := idempotency_key]> (tasks r)) ({[call_id]} ∪ calls r)).

(** A refused call leaves the registry as it was. *)
Definition registry_step (r : NativeCallIdentityRegistry) (call : json) : NativeCallIdentityRegistry :=
  match registry_accept r call with Ok r' => r' | Err _ => r end.

Definition lifecycle_call (call : json) : bool :=
  opt_str_is (get_str call "profile") LIFECYCLE_PROFILE.

Lemma registry_accept_lifecycle r call r' :
  lifecycle_call call = true -> registry_accept r call = Ok r' ->
  exists task call_id key,
    get_str call "task_id" = Some task /\ get_str call "call_id" = Some call_id /\
    get_str call "idempotency_key" = Some key /\
    call_id ∉ calls r /\ (tasks r !! task = None \/ tasks r !! task = Some key) /\
    r' = mkRegistry (<[task := key]> (tasks r)) ({[call_id]} ∪ calls r).
Proof.
  unfold lifecycle_call, registry_accept, required. intros -> H. simpl in H.
  repeat (apply rbind_Ok in H as (? & Hx & H); repeat case_match; simplify_eq).
  destruct (tasks r !! _) as [known|] eqn:E; simplify_eq/=; bprop; simplify_eq;
    repeat eexists; eauto;
    match goal with H : bool_decide _ = false |- _ => by apply bool_decide_eq_false in H end.
Qed.

Lemma registry_step_mono r call :
  calls r ⊆ calls (registry_step r call) /\
  forall t k, tasks r !! t = Some k -> tasks (registry_step r call) !! t = Some k.
Proof.
  unfold registry_step. destruct (registry_accept r call) as [r'|] eqn:E; [|done].
  destruct (lifecycle_call call) eqn:Hl.
  - destruct (registry_accept_lifecycle _ _ _ Hl E) as (t & c & k & _ & _ & _ & _ & Ht & ->).
    simpl. split; [set_solver|]. intros t' k' H.
    destruct (decide (t = t')) as [->|]; [|by rewrite lookup_insert_ne].
    rewrite lookup_insert_eq. destruct Ht; congruence.
  - unfold registry_accept in E. unfold lifecycle_call in Hl. rewrite Hl in E. simpl in E.
    by simplify_eq.
Qed.

Lemma registry_run_mono r hist :
  calls r ⊆ calls (foldl registry_step r hist) /\
  forall t k, tasks r !! t = Some k -> tasks (foldl registry_step r hist) !! t = Some k.
Proof.
  revert r. induction hist as [|c hist IH]; intros r; simpl; [done|].
  destruct (registry_step_mono r c) as [Hc Ht]. destruct (IH (registry_step r c)) as [Hc' Ht'].
  split; [set_solver|eauto].
Qed.

(** After a lifecycle call has been accepted, no later lifecycle call is
    accepted with the same call id, nor with the same task under another
    idempotency key, whatever other calls came between. *)
Theorem call_identity_bound r first hist later r1 r2 :
  lifecycle_call first = true -> lifecycle_call later = true ->
  registry_accept r first = Ok r1 ->
  registry_accept (foldl registry_step r1 hist) later = Ok r2 ->
  get_str later "call_id" <> get_str first "call_id" /\
  (get_str later "task_id" = get_str first "task_id" ->
   get_str later "idempotency_key" = get_str first "idempotency_key").
Proof.
  intros Hf Hl E1 E2.
  destruct (registry_accept_lifecycle _ _ _ Hf E1) as (t & c & k & -> & -> & -> & _ & _ & ->).
  destruct (registry_accept_lifecycle _ _ _ Hl E2) as (t' & c' & k' & -> & -> & -> & Hc & Ht & _).
  destruct (registry_run_mono (mkRegistry (<[t := k]> (tasks r)) ({[c]} ∪ calls r)) hist) as [Hcm Htm].
  simpl in *. split.
  - intros E. simplify_eq. apply Hc, Hcm. set_solver.
  - intros E. simplify_eq. specialize (Htm t k (lookup_insert_eq _ _ _)). destruct Ht; congruence.
Qed.

Definition demo_call (task call_id key : string) : json :=
  mk_obj [("profile", JString LIFECYCLE_PROFILE); ("task_id", JString task);
          ("call_id", JString call_id); ("idempotency_key", JString key)].

Lemma call_identity_bound_witness :
  get_str (demo_call "t" "c2" "k") "call_id" <> get_str (demo_call "t" "c1" "k") "call_id".
Proof.
  exact (proj1 (call_identity_bound registry_default (demo_call "t" "c1" "k")
    [demo_call "t" "c1" "other"] (demo_call "t" "c2" "k") _ _
    eq_refl eq_refl eq_refl eq_refl)).
Defined.
