(* ===== verification/NativePayload.v ===== *)
(** * CBOR payloads of native messages ([src/iicp_tcp.rs])

    The bodies of ACK, PONG, RESPONSE, DISCOVER and lifecycle RESPONSE
    messages: the maps the provider builds and what the consumer reads out of
    them. *)

From S2P Require Import Prelude Text Framing Json Cbor ResponseSequence.

Section payloads.
Context `{!CborCodec}.

Definition encode_ack (framing_version : byte) (node_id : option string) : list byte :=
  encode_cbor (CMap ((CInteger 1, CInteger (u8_to_Z framing_version)) ::
    match node_id with Some id => [(CInteger 2, CText id)] | None => [] end)).

Definition encode_pong (echo : option (list byte)) : list byte :=
  encode_cbor (CMap match echo with Some b => [(CInteger 1, CBytes b)] | None => [] end).

Definition response_entries (session_id : string) (call_id : option string)
    (result : option (list byte)) (error_code : option Z) (error_message : option string)
    : list (CborValue * CborValue) :=
  [(CInteger 2, CText session_id)]
  ++ match call_id with Some cid => [(CInteger 15, CText cid)] | None => [] end
  ++ match result with Some r => [(CInteger 5, CBytes r)] | None => [] end
  ++ match error_code with Some ec => [(CInteger 100, CInteger ec)] | None => [] end
  ++ match error_message with Some em => [(CInteger 101, CText em)] | None => [] end.

Definition encode_response (session_id : string) (call_id : option string)
    (result : option (list byte)) (error_code : option Z) (error_message : option string)
    : list byte :=
  encode_cbor (CMap (response_entries session_id call_id result error_code error_message)).

(** [TcpStreamEvent] *)
Record TcpStreamEvent := mkEvent {
  ev_status : string;
  ev_result : option json;
  ev_error_code : option string;
  ev_error_message : option string;
  ev_tokens_used : option Z;
  ev_event : option string
}.

Definition default_event_name (status : string) : string :=
  if status ==? "partial" then "partial"
  else if status ==? "success" then "completed"
  else if status ==? "timeout" then "timed_out"
  else "failed".

Definition lifecycle_entries (session_id call_id task_id : string) (sequence : Z)
    (ev : TcpStreamEvent) : list (CborValue * CborValue) :=
  let is_final := ev_status ev <>? "partial" in
  let event_name := default (default_event_name (ev_status ev)) (ev_event ev) in
  [(CInteger 1, CInteger (u8_to_Z FRAMING_VERSION));
   (CInteger 2, CText session_id);
   (CInteger 3, CText call_id);
   (CInteger 4, CText (ev_status ev));
   (CInteger 12, CBool is_final);
   (CInteger 13, CMap [(CInteger 1, CText task_id);
                       (CInteger 2, CInteger sequence);
                       (CInteger 3, CText event_name);
                       (CInteger 4, CBool is_final)])]
  ++ match ev_result ev with Some r => [(CInteger 5, json_to_cbor r)] | None => [] end
  ++ (if is_some (ev_error_code ev) || is_some (ev_error_message ev) then
        [(CInteger 6,
          CMap [(CInteger 1, CText (default "stream_error" (ev_error_code ev)));
                (CInteger 2, CText (default "stream failed" (ev_error_message ev)))])]
      else [])
  ++ match ev_tokens_used ev with Some t => [(CInteger 7, CInteger t)] | None => [] end.

Definition encode_lifecycle_response (session_id call_id task_id : string) (sequence : Z)
    (ev : TcpStreamEvent) : list byte :=
  encode_cbor (CMap (lifecycle_entries session_id call_id task_id sequence ev)).

Definition encode_discover_response (session_id intent : string) (nodes : list CborValue)
    : list byte :=
  encode_cbor (CMap [(CInteger 2, CText session_id); (CInteger 3, CText intent);
                     (CInteger 20, CArray nodes)]).

(** Field readers shared by the decoders. *)
Definition field_str (body : CborValue) (key : Z) : option string := cbor_map_get body key ≫= cbor_to_str.
Definition field_bool (body : CborValue) (key : Z) : option bool := cbor_map_get body key ≫= cbor_to_bool.
Definition field_u64 (body : CborValue) (key : Z) : option Z := cbor_map_get body key ≫= cbor_to_u64.

Inductive IicpTcpClientError :=
| EIo (message : string)
| EProtocol (message : string)
| EServer (code : Z) (message : string)
| ETimeout (ms : Z).

Definition decode_lifecycle_response (body : CborValue)
    : result NativeResponseFrame IicpTcpClientError :=
  let? lifecycle := ok_or (cbor_map_get body 13) (EProtocol "missing_lifecycle") in
  Ok (mkResponse
        (default EmptyString (field_str body 2))
        (default EmptyString (field_str body 3))
        (default EmptyString (field_str body 4))
        (default false (field_bool body 12))
        (mkEnvelope (default EmptyString (field_str lifecycle 1))
                    (default u64_max (field_u64 lifecycle 2))
                    (default EmptyString (field_str lifecycle 3))
                    (default false (field_bool lifecycle 4)))
        (default JNull (cbor_to_json <$> cbor_map_get body 5))
        (default JNull ((fun error => mk_obj
             [("code", opt_json JString (field_str error 1));
              ("message", opt_json JString (field_str error 2))]) <$> cbor_map_get body 6))
        (field_u64 body 7)).

(** ** What the consumer reads out of a lifecycle RESPONSE *)

(** The frame the provider means by an event. *)
Definition event_frame (session_id call_id task_id : string) (sequence : Z)
    (ev : TcpStreamEvent) : NativeResponseFrame :=
  let is_final := ev_status ev <>? "partial" in
  mkResponse session_id call_id (ev_status ev) is_final
    (mkEnvelope task_id sequence (default (default_event_name (ev_status ev)) (ev_event ev)) is_final)
    (default JNull (ev_result ev))
    (if is_some (ev_error_code ev) || is_some (ev_error_message ev) then
       mk_obj [("code", JString (default "stream_error" (ev_error_code ev)));
               ("message", JString (default "stream failed" (ev_error_message ev)))]
     else JNull)
    (ev_tokens_used ev).

(** Events whose content the transport can carry. *)
Definition event_carried (ev : TcpStreamEvent) : Prop :=
  (forall r, ev_result ev = Some r -> json_native r = true) /\
  (forall t, ev_tokens_used ev = Some t -> in_u64 t).

Lemma cbor_to_u64_int z : in_u64 z -> cbor_to_u64 (CInteger z) = Some z.
Proof.
  unfold in_u64. intros [H1 H2]. simpl.
  by rewrite (proj2 (Z.leb_le _ _) H1), (proj2 (Z.leb_le _ _) H2).
Qed.

Lemma decode_lifecycle_entries sid cid tid n ev :
  in_u64 n -> event_carried ev ->
  decode_lifecycle_response (CMap (lifecycle_entries sid cid tid n ev)) =
    Ok (event_frame sid cid tid n ev).
Proof.
  intros Hn [Hr Ht]. destruct ev as [st r ec em tk ev]; simpl in *.
  unfold decode_lifecycle_response, lifecycle_entries, event_frame, field_str, field_bool, field_u64.
  cbn [cbor_map_get ev_status ev_result ev_error_code ev_error_message ev_tokens_used ev_event].
  assert (cbor_to_u64 (CInteger n) = Some n) as Hn' by (by apply cbor_to_u64_int).
  destruct r as [r|]; [specialize (Hr r eq_refl); apply json_cbor_json in Hr|];
    destruct tk as [tk|]; try (specialize (Ht tk eq_refl); apply cbor_to_u64_int in Ht);
    destruct ec, em; cbn -[cbor_to_u64]; rewrite ?Hn', ?Ht, ?Hr; done.
Qed.
End payloads.
