(* ===== verification/TcpServer.v ===== *)
(** * The native TCP provider ([src/iicp_tcp.rs], [IicpTcpServer])

    One accepted connection is a function of the chunks its socket delivers
    (an empty chunk or the end of the list is end of file) to the frames
    written back, the state of the shared concurrency gate and the result of
    the session.  User callbacks are the handler, the streaming handler (its
    finite stream of items) and the discovery lookup.  Writes succeed. *)

From S2P Require Import Prelude Text Framing Json Cbor Gate ResponseSequence NativePayload.

(** [TcpTask] *)
Record TcpTask := mkTask { task_id : string; intent : string; task_payload : json }.

Record IicpTcpServer := mkServer {
  host : string;
  port : Z;
  node_id : option string;
  handler : option (TcpTask -> json);
  streaming_handler : option (TcpTask -> list (result TcpStreamEvent string));
  discover_lookup : option (string -> list CborValue)
}.

(** [new] and the builder methods; the gate itself is shared state, passed
    explicitly to the operations ([None] when no gate is configured). *)
Definition server_new (host : string) (port : Z) : IicpTcpServer :=
  mkServer host port None None None None.
Definition with_node_id (s : IicpTcpServer) (id : string) : IicpTcpServer :=
  mkServer (host s) (port s) (Some id) (handler s) (streaming_handler s) (discover_lookup s).
Definition with_handler (s : IicpTcpServer) (h : TcpTask -> json) : IicpTcpServer :=
  mkServer (host s) (port s) (node_id s) (Some h) (streaming_handler s) (discover_lookup s).
Definition with_streaming_handler (s : IicpTcpServer)
    (h : TcpTask -> list (result TcpStreamEvent string)) : IicpTcpServer :=
  mkServer (host s) (port s) (node_id s) (handler s) (Some h) (discover_lookup s).
Definition with_discover_lookup (s : IicpTcpServer) (d : string -> list CborValue) : IicpTcpServer :=
  mkServer (host s) (port s) (node_id s) (handler s) (streaming_handler s) (Some d).

(** What an operation on the socket did: the frames written, in order, the
    gate, and the [io::Result]. *)
Record io_out (A : Type) := mkOut {
  written : list (list byte);
  gate_after : option ConcurrencyGate;
  outcome : result A string
}.
Arguments mkOut {A} _ _ _.
Arguments written {A} _.
Arguments gate_after {A} _.
Arguments outcome {A} _.

Section server.
Context {cbor_codec : CborCodec} {json_codec : JsonCodec}.

(** [try_encode_frame(..).map_err(invalid_frame)?; socket.write_all(..); Ok(keep)] *)
Definition send (mt : MsgType) (payload : list byte) (g : option ConcurrencyGate) (keep : bool)
    : io_out bool :=
  match try_encode_frame (msg_code mt) payload x00 with
  | Ok f => mkOut [f] g (Ok keep)
  | Err e => mkOut [] g (Err e)
  end.

(** [cbor_map_get(&body, 1)] read as a framing version *)
Definition framing_version_of (body : CborValue) : option byte :=
  match cbor_map_get body 1 with
  | Some (CInteger v) => if (0 <=? v) && (v <=? u8_max) then Some (u8_of_Z v) else None
  | _ => None
  end.

Definition on_init (s : IicpTcpServer) (f : IicpFrame) (g : option ConcurrencyGate) : io_out bool :=
  let version := result_ok (decode_cbor (payload f)) ≫= framing_version_of in
  if negb (bool_decide (version = Some FRAMING_VERSION)) then mkOut [] g (Ok false)
  else send Ack (encode_ack FRAMING_VERSION (node_id s)) g true.

Definition on_ping (f : IicpFrame) (g : option ConcurrencyGate) : io_out bool :=
  let echo :=
    match payload f with
    | [] => None
    | _ => match decode_cbor (payload f) with
           | Ok body => cbor_map_get body 1 ≫= cbor_to_bytes
           | Err _ => None
           end
    end in
  send Pong (encode_pong echo) g true.

(** [if let Some(v) = cbor_map_get(..) { if let Some(s) = cbor_to_str(v) { x = s } }] *)
Definition field_or (body : option CborValue) (key : Z) (dflt : string) : string :=
  default dflt (body ≫= fun b => field_str b key).

Definition on_discover (s : IicpTcpServer) (f : IicpFrame) (g : option ConcurrencyGate) : io_out bool :=
  let body := result_ok (decode_cbor (payload f)) in
  let session_id := field_or body 2 "unknown" in
  let intent := field_or body 3 EmptyString in
  let nodes :=
    match discover_lookup s with
    | Some lookup => if str_is_empty intent then [] else lookup intent
    | None => []
    end in
  send Response (encode_discover_response session_id intent nodes) g true.

(** The task body under key 5. *)
Definition call_payload (body : CborValue) : json :=
  match cbor_map_get body 5 with
  | Some (CBytes bytes) =>
      if utf8_bytes bytes then default (JObject []) (result_ok (json_from_slice bytes)) else JObject []
  | Some (CMap entries) =>
      JObject (foldl (fun obj kv =>
        match kv.1 with
        | CText key =>
            match cbor_de_json (encode_cbor kv.2) with
            | Ok jv => obj_insert key jv obj
            | Err _ => obj
            end
        | _ => obj
        end) [] entries)
  | _ => JObject []
  end.

(** [run_handler]: the user handler's answer as result bytes or error. *)
Definition run_handler (h : TcpTask -> json) (task : TcpTask) : result (list byte) (Z * string) :=
  let user_result := h task in
  match user_result with
  | JObject m =>
      match obj_get m "error_code" ≫= as_i64 with
      | Some ec => Err (ec, default "handler error" (obj_get m "error_message" ≫= as_str))
      | None => Ok (encode_cbor (json_to_cbor (default user_result (obj_get m "result"))))
      end
  | _ => Ok (encode_cbor (json_to_cbor user_result))
  end.

Definition capacity_message (e : CapacityExceededError) : string :=
  "IICP-E021: max_concurrent=" +:+ pretty (exceeded_max e) +:+ " reached".

(** The buffered path of [on_call]: result bytes or error, and the gate. *)
Definition call_outcome (s : IicpTcpServer) (task : TcpTask) (g : option ConcurrencyGate)
    : result (list byte) (Z * string) * option ConcurrencyGate :=
  match handler s with
  | Some h =>
      match g with
      | Some gate =>
          match acquire gate with
          | Ok held => (run_handler h task, Some (release held))
          | Err e => (Err (429, capacity_message e), Some gate)
          end
      | None => (run_handler h task, None)
      end
  | None => (Err (503, "no handler configured"), g)
  end.

Definition error_event (code message : string) : TcpStreamEvent :=
  mkEvent "error" None (Some code) (Some message) None None.

(** One item of the handler's stream as the event to send. *)
Definition stream_event (item : result TcpStreamEvent string) : TcpStreamEvent :=
  match item with
  | Ok ev => if str_in (ev_status ev) ["partial"; "success"; "error"; "timeout"] then ev
             else error_event "invalid_stream_status" "streaming handler emitted an invalid status"
  | Err _ => error_event "backend_error" "streaming handler raised exception"
  end.

Definition lifecycle_frame (session_id call_id task_id : string) (sequence : Z) (ev : TcpStreamEvent)
    : result (list byte) string :=
  try_encode_frame (msg_code Response)
    (encode_lifecycle_response session_id call_id task_id sequence ev) x00.

(** The [while let] loop of [on_stream_call] and the trailing
    [stream_incomplete] event: frames written and the result. *)
Fixpoint stream_loop (session_id call_id task_id : string) (sequence : Z)
    (items : list (result TcpStreamEvent string)) : list (list byte) * result bool string :=
  match items with
  | [] =>
      match lifecycle_frame session_id call_id task_id sequence
              (error_event "stream_incomplete" "stream ended without a terminal response") with
      | Ok f => ([f], Ok true)
      | Err e => ([], Err e)
      end
  | item :: items =>
      let ev := stream_event item in
      match lifecycle_frame session_id call_id task_id sequence ev with
      | Err e => ([], Err e)
      | Ok f =>
          if ev_status ev <>? "partial" then ([f], Ok true)
          else
            let '(fs, r) := stream_loop session_id call_id task_id (u64_add sequence 1) items in
            (f :: fs, r)
      end
  end.

Definition on_stream_call (h : TcpTask -> list (result TcpStreamEvent string))
    (session_id call_id : string) (task : TcpTask) (g : option ConcurrencyGate) : io_out bool :=
  let events := h task in
  let run (g' : option ConcurrencyGate) :=
    let '(fs, r) := stream_loop session_id call_id (task_id task) 0 events in
    mkOut fs g' r in
  match g with
  | None => run None
  | Some gate =>
      match acquire gate with
      | Ok held => run (Some (release held))
      | Err _ =>
          match lifecycle_frame session_id call_id (task_id task) 0
                  (error_event "capacity_exceeded" "node concurrency capacity reached") with
          | Ok f => mkOut [f] g (Ok true)
          | Err e => mkOut [] g (Err e)
          end
      end
  end.

Definition on_call (s : IicpTcpServer) (f : IicpFrame) (g : option ConcurrencyGate) : io_out bool :=
  let body := result_ok (decode_cbor (payload f)) in
  let session_id := field_or body 2 "unknown" in
  let intent := field_or body 3 EmptyString in
  let call_id := body ≫= fun b => field_str b 15 in
  let task_id := body ≫= fun b => field_str b 24 in
  let payload_json := match body with Some b => call_payload b | None => JObject [] end in
  match task_id, streaming_handler s with
  | Some task_id, Some h =>
      on_stream_call h session_id (default EmptyString call_id) (mkTask task_id intent payload_json) g
  | _, _ =>
      let task := mkTask (default session_id call_id) intent payload_json in
      let '(r, g') := call_outcome s task g in
      let resp :=
        match r with
        | Ok bytes => encode_response session_id call_id (Some bytes) None None
        | Err (code, msg) => encode_response session_id call_id None (Some code) (Some msg)
        end in
      send Response resp g' true
  end.

Definition dispatch (s : IicpTcpServer) (f : IicpFrame) (g : option ConcurrencyGate) : io_out bool :=
  match from_u8 (msg_type f) with
  | Some Init => on_init s f g
  | Some Ping => on_ping f g
  | Some Discover => on_discover s f g
  | Some Call => on_call s f g
  | Some Close => mkOut [] g (Ok false)
  | Some Feedback => mkOut [] g (Ok true)
  | _ => mkOut [] g (Ok true)
  end.

(** ** The session loop *)

(** [while buf.len() < n { read }]; [None] at end of file. *)
Fixpoint fill (n : Z) (buf : list byte) (chunks : list (list byte)) {struct chunks}
    : option (list byte * list (list byte)) :=
  if n <=? zlen buf then Some (buf, chunks)
  else match chunks with
       | [] | [] :: _ => None
       | c :: cs => fill n (buf ++ c) cs
       end.

(** Reads the next frame out of the buffer; [None] closes the connection. *)
Definition next_frame (buf : list byte) (chunks : list (list byte))
    : option (IicpFrame * list byte * list (list byte)) :=
  let! (buf, chunks) := fill FRAME_HEADER_LEN buf chunks in
  if negb (bytes_eqb (take 4 buf) IICP_MAGIC) then None
  else if is_some (stable_task_message_type_error (byte_at buf 5)) then None
  else
    let payload_len := header_payload_len buf in
    if MAX_FRAME_PAYLOAD <? payload_len then None
    else
      let! (buf, chunks) := fill (FRAME_HEADER_LEN + payload_len) buf chunks in
      match decode_frame buf with
      | Ok (frame, consumed) => Some (frame, drop (Z.to_nat consumed) buf, chunks)
      | Err _ => None
      end.

(** The handshake-state check: the first frame, and only it, is INIT. *)
Definition bad_handshake (initialized : bool) (f : IicpFrame) : bool :=
  (negb initialized && negb (bool_decide (msg_type f = msg_code Init)))
  || (initialized && bool_decide (msg_type f = msg_code Init)).

Definition out_then {A} (fs : list (list byte)) (o : io_out A) : io_out A :=
  mkOut (fs ++ written o) (gate_after o) (outcome o).

Fixpoint session_loop (fuel : nat) (s : IicpTcpServer) (g : option ConcurrencyGate)
    (initialized : bool) (buf : list byte) (chunks : list (list byte)) : io_out unit :=
  match fuel with
  | O => mkOut [] g (Ok tt)
  | S fuel =>
      match next_frame buf chunks with
      | None => mkOut [] g (Ok tt)
      | Some (frame, buf, chunks) =>
          if bad_handshake initialized frame then mkOut [] g (Ok tt)
          else
            let o := dispatch s frame g in
            match outcome o with
            | Err e => mkOut (written o) (gate_after o) (Err e)
            | Ok keep_open =>
                if keep_open
                then out_then (written o) (session_loop fuel s (gate_after o) true buf chunks)
                else mkOut (written o) (gate_after o) (Ok tt)
            end
      end
  end.

(** Every frame consumes at least its header, so the number of bytes the
    socket delivers bounds the number of iterations. *)
Definition session_fuel (chunks : list (list byte)) : nat := S (length (concat chunks)).

Definition handle_connection (s : IicpTcpServer) (g : option ConcurrencyGate)
    (chunks : list (list byte)) : io_out unit :=
  match fill 4 [] chunks with
  | None => mkOut [] g (Ok tt)
  | Some (buf, chunks') =>
      if negb (bytes_eqb (take 4 buf) IICP_MAGIC) then mkOut [] g (Ok tt)
      else match fill FRAME_HEADER_LEN buf chunks' with
           | None => mkOut [] g (Ok tt)
           | Some (buf, chunks') => session_loop (session_fuel chunks) s g false buf chunks'
           end
  end.

(** ** The session as a function of the byte stream *)

(** The bytes the socket delivers before end of file. *)
Fixpoint delivered (chunks : list (list byte)) : list byte :=
  match chunks with
  | [] | [] :: _ => []
  | c :: cs => c ++ delivered cs
  end.

(** The first frame of a byte stream and what follows it. *)
Definition stream_frame (bs : list byte) : option (IicpFrame * list byte) :=
  match decode_frame bs with
  | Ok (f, n) =>
      if is_some (stable_task_message_type_error (msg_type f)) then None
      else Some (f, drop (Z.to_nat n) bs)
  | Err _ => None
  end.

Fixpoint parse_frames (fuel : nat) (bs : list byte) : list IicpFrame :=
  match fuel, stream_frame bs with
  | S fuel, Some (f, rest) => f :: parse_frames fuel rest
  | _, _ => []
  end.

(** The frames of a byte stream, up to the first one that is malformed, of an
    unassigned type or incomplete. *)
Definition frames_of (bs : list byte) : list IicpFrame := parse_frames (length bs) bs.

(** The abstract session: the frames in order, the first and only the first
    of them INIT, until one of them closes the session. *)
Fixpoint serve_frames (s : IicpTcpServer) (g : option ConcurrencyGate) (initialized : bool)
    (fs : list IicpFrame) : io_out unit :=
  match fs with
  | [] => mkOut [] g (Ok tt)
  | f :: fs =>
      if bad_handshake initialized f then mkOut [] g (Ok tt)
      else
        let o := dispatch s f g in
        match outcome o with
        | Ok true => out_then (written o) (serve_frames s (gate_after o) true fs)
        | Ok false => mkOut (written o) (gate_after o) (Ok tt)
        | Err e => mkOut (written o) (gate_after o) (Err e)
        end
  end.

Lemma fill_delivered n buf chunks :
  if n <=? zlen (buf ++ delivered chunks)
  then exists buf' cs', fill n buf chunks = Some (buf', cs') /\ n <= zlen buf' /\
         buf' ++ delivered cs' = buf ++ delivered chunks
  else fill n buf chunks = None.
Proof.
  revert buf. induction chunks as [|c cs IH]; intros buf.
  - simpl. rewrite app_nil_r. destruct (Z.leb_spec n (zlen buf)); [|done].
    exists buf, []. simpl. by rewrite app_nil_r.
  - cbn [fill]. destruct (Z.leb_spec n (zlen buf)) as [Hle|Hgt].
    + rewrite (proj2 (Z.leb_le _ _)); [by exists buf, (c :: cs)|].
      rewrite zlen_app. pose proof (zlen_nonneg (delivered (c :: cs))). lia.
    + destruct c as [|b c].
      * simpl. rewrite app_nil_r. by rewrite (proj2 (Z.leb_gt _ _)).
      * specialize (IH (buf ++ (b :: c))). cbn [delivered]. by rewrite app_assoc.
Qed.

(** The header of a buffer does not depend on what follows it. *)
Lemma header_app data rest :
  FRAME_HEADER_LEN <= zlen data ->
  take 4 (data ++ rest) = take 4 data /\ byte_at (data ++ rest) 4 = byte_at data 4 /\
  byte_at (data ++ rest) 5 = byte_at data 5 /\
  header_payload_len (data ++ rest) = header_payload_len data.
Proof. intros H. by destruct (split_header data H) as (a&b&c&d&e&g&h&i&j&k&l&m&tl&->). Qed.

Lemma decode_frame_app data rest f n :
  FRAME_HEADER_LEN <= zlen data -> FRAME_HEADER_LEN + header_payload_len data <= zlen data ->
  decode_frame (data ++ rest) = Ok (f, n) <-> decode_frame data = Ok (f, n).
Proof.
  intros H H'. split; [|apply decode_frame_prefix]. intros E.
  destruct (decode_frame data) as [[f' n']|e] eqn:E'.
  - by rewrite (decode_frame_prefix _ rest _ _ E') in E.
  - exfalso. apply decode_frame_ok in E. destruct (header_app data rest H) as (Ht & H4 & H5 & Hl).
    rewrite Ht, H4, H5, Hl in E. destruct E as (_ & Hm & Hv & Hmax & -> & _).
    enough (exists f, decode_frame data = Ok (f, FRAME_HEADER_LEN + header_payload_len data))
      as [? ?] by congruence.
    eexists. apply decode_frame_ok. naive_solver.
Qed.

Lemma next_frame_stream buf chunks :
  match stream_frame (buf ++ delivered chunks) with
  | None => next_frame buf chunks = None
  | Some (f, rest) =>
      exists buf' cs', next_frame buf chunks = Some (f, buf', cs') /\ buf' ++ delivered cs' = rest
  end.
Proof.
  unfold next_frame. pose proof (fill_delivered FRAME_HEADER_LEN buf chunks) as H1.
  remember (buf ++ delivered chunks) as bs eqn:Hbs.
  destruct (Z.leb_spec FRAME_HEADER_LEN (zlen bs)) as [Hl|Hl].
  2: { rewrite H1. unfold stream_frame. destruct (decode_frame bs) as [[f n]|] eqn:E; [|done].
       apply decode_frame_ok in E. lia. }
  destruct H1 as (b1 & c1 & -> & Hb1 & E1). simpl.
  destruct (header_app b1 (delivered c1) Hb1) as (Ht & H4 & H5 & Hpl).
  rewrite E1 in Ht, H4, H5, Hpl. rewrite <- Ht, <- H5, <- Hpl.
  unfold stream_frame. destruct (decode_frame bs) as [[f n]|e] eqn:E.
  - pose proof E as (_ & Hm & _ & Hmax & -> & Hn & Hf)%decode_frame_ok.
    replace (msg_type f) with (byte_at bs 5) by (by subst f).
    unfold bytes_eqb. rewrite bool_decide_true by done. simpl.
    destruct (is_some _); [done|]. rewrite (proj2 (Z.ltb_ge _ _)) by done.
    pose proof (fill_delivered (FRAME_HEADER_LEN + header_payload_len bs) b1 c1) as H2.
    rewrite E1, (proj2 (Z.leb_le _ _) Hn) in H2. destruct H2 as (b2 & c2 & -> & Hb2 & E2). simpl.
    pose proof (header_len_range bs Hl) as Hnn.
    assert (FRAME_HEADER_LEN <= zlen b2) as Hb2' by lia.
    destruct (header_app b2 (delivered c2) Hb2') as (_ & _ & _ & Hpl2). rewrite E2 in Hpl2.
    rewrite <- E2, decode_frame_app in E by lia. rewrite E.
    eexists _, _. split; [done|]. rewrite <- drop_app_le, E2; [done|].
    rewrite E2. unfold zlen in *. lia.
  - destruct (negb _); [done|]. destruct (is_some _); [done|]. destruct (_ <? _); [done|].
    pose proof (fill_delivered (FRAME_HEADER_LEN + header_payload_len bs) b1 c1) as H2.
    rewrite E1 in H2. destruct (Z.leb_spec (FRAME_HEADER_LEN + header_payload_len bs) (zlen bs));
      [|by rewrite H2].
    destruct H2 as (b2 & c2 & -> & Hb2 & E2). simpl.
    destruct (decode_frame b2) as [[f n]|] eqn:E3; [|done].
    apply (decode_frame_prefix _ (delivered c2)) in E3. rewrite E2 in E3. congruence.
Qed.

Lemma stream_frame_shorter bs f rest :
  stream_frame bs = Some (f, rest) -> (length rest < length bs)%nat.
Proof.
  unfold stream_frame. destruct (decode_frame bs) as [[f' n]|] eqn:E; [|done].
  destruct (is_some _); intros; simplify_eq.
  apply decode_frame_ok in E as (Hl & _ & _ & _ & -> & Hn & _).
  pose proof (header_len_range bs Hl). rewrite length_drop. unfold zlen, FRAME_HEADER_LEN in *. lia.
Qed.

(** Fuel beyond the number of bytes does not change the frames. *)
Lemma parse_frames_fuel n m bs :
  (length bs <= n)%nat -> (length bs <= m)%nat -> parse_frames n bs = parse_frames m bs.
Proof.
  revert m bs. induction n as [|n IH]; intros m bs Hn Hm.
  - destruct bs; [|simpl in Hn; lia]. by destruct m.
  - destruct m as [|m]; [destruct bs; [done|simpl in Hm; lia]|].
    simpl. destruct (stream_frame bs) as [[f rest]|] eqn:E; [|done].
    apply stream_frame_shorter in E. f_equal. apply IH; lia.
Qed.

Lemma session_loop_frames fuel s g init buf chunks :
  (length (buf ++ delivered chunks) < fuel)%nat ->
  session_loop fuel s g init buf chunks =
  serve_frames s g init (frames_of (buf ++ delivered chunks)).
Proof.
  revert g init buf chunks. induction fuel as [|fuel IH]; intros g init buf chunks Hf; [lia|].
  unfold frames_of. cbn [session_loop].
  pose proof (next_frame_stream buf chunks) as H.
  destruct (stream_frame (buf ++ delivered chunks)) as [[f rest]|] eqn:E.
  - destruct H as (b & c & -> & <-). pose proof (stream_frame_shorter _ _ _ E) as Hs.
    rewrite (parse_frames_fuel _ (S (length (buf ++ delivered chunks)))) by lia.
    cbn [parse_frames]. rewrite E. cbn [serve_frames].
    destruct (bad_handshake init f); [done|]. destruct (outcome (dispatch s f g)) as [[]|]; try done.
    rewrite IH by lia. unfold frames_of.
    by rewrite (parse_frames_fuel (length (b ++ delivered c)) (length (buf ++ delivered chunks))) by lia.
  - rewrite H. destruct (length (buf ++ delivered chunks)); simpl; [done|]. by rewrite E.
Qed.

(** A stream that does not start with the magic has no frames. *)
Lemma frames_of_bad bs :
  (zlen bs < FRAME_HEADER_LEN \/ take 4 bs <> IICP_MAGIC) -> frames_of bs = [].
Proof.
  intros H. unfold frames_of. destruct (length bs); simpl; [done|].
  unfold stream_frame. destruct (decode_frame bs) as [[f' n']|] eqn:E; [|done].
  apply decode_frame_ok in E as (Hl & Ht & _). destruct H; [lia|done].
Qed.

Lemma delivered_length chunks : (length (delivered chunks) <= length (concat chunks))%nat.
Proof.
  induction chunks as [|[|b c] cs IH]; simpl; [lia|lia|].
  rewrite !length_app. lia.
Qed.

(** The connection is the abstract session over the frames of its stream. *)
Lemma handle_connection_frames s g chunks :
  handle_connection s g chunks = serve_frames s g false (frames_of (delivered chunks)).
Proof.
  unfold handle_connection. pose proof (fill_delivered 4 [] chunks) as H. cbn [app] in H.
  destruct (Z.leb_spec 4 (zlen (delivered chunks))) as [H4|H4].
  2: { rewrite H, frames_of_bad; [done|]. unfold FRAME_HEADER_LEN. lia. }
  destruct H as (b & c & -> & Hb & E).
  assert (take 4 b = take 4 (delivered chunks)) as Hm.
  { rewrite <- E, take_app_le; [done|]. unfold zlen in Hb. lia. }
  unfold bytes_eqb. destruct (bool_decide_reflect (take 4 b = IICP_MAGIC)) as [Hmm|Hmm]; cbn [negb].
  2: { rewrite frames_of_bad; [done|]. right. by rewrite <- Hm. }
  pose proof (fill_delivered FRAME_HEADER_LEN b c) as H2. rewrite E in H2.
  destruct (Z.leb_spec FRAME_HEADER_LEN (zlen (delivered chunks))) as [H12|H12].
  - destruct H2 as (b' & c' & -> & _ & E').
    cbv beta iota. rewrite session_loop_frames, E'; [done|]. rewrite E'. unfold session_fuel.
    pose proof (delivered_length chunks). lia.
  - rewrite H2, frames_of_bad; [done|]. lia.
Qed.

(** C1: a connection is served as the sequence of frames of its byte stream,
    by the abstract session: however the bytes are split into reads the same
    frames are written and the same result returned, and the loop always comes
    to an end. *)
Theorem connection_refines_frames s g chunks chunks' :
  delivered chunks = delivered chunks' ->
  handle_connection s g chunks = serve_frames s g false (frames_of (delivered chunks)) /\
  handle_connection s g chunks = handle_connection s g chunks'.
Proof. intros E. by rewrite !handle_connection_frames, E. Qed.

(** ** The gate and the handshake *)

Definition opt_gate_ok (g : option ConcurrencyGate) : Prop :=
  match g with Some gate => gate_ok gate | None => True end.

Lemma send_gate mt p g keep : gate_after (send mt p g keep) = g.
Proof. unfold send. by destruct (try_encode_frame _ _ _). Qed.

Lemma call_outcome_gate s task g : opt_gate_ok g -> (call_outcome s task g).2 = g.
Proof.
  unfold call_outcome. destruct (handler s); [|done]. destruct g as [gate|]; [|done].
  simpl. intros Hg. destruct (acquire gate) as [held|] eqn:E; simpl; [|done].
  by rewrite (release_acquire gate held).
Qed.

Lemma dispatch_gate s f g : opt_gate_ok g -> gate_after (dispatch s f g) = g.
Proof.
  intros Hg. unfold dispatch. destruct (from_u8 (msg_type f)) as [[]|]; try done.
  - unfold on_init. destruct (negb _); [done|apply send_gate].
  - apply send_gate.
  - unfold on_call.
    set (task_id := result_ok _ ≫= fun b => field_str b 24).
    assert (forall task, gate_after (let '(r, g') := call_outcome s task g in
      send Response match r with
        | Ok bytes => encode_response (field_or (result_ok (decode_cbor (payload f))) 2 "unknown")
            (result_ok (decode_cbor (payload f)) ≫= fun b => field_str b 15) (Some bytes) None None
        | Err (code, msg) => encode_response (field_or (result_ok (decode_cbor (payload f))) 2 "unknown")
            (result_ok (decode_cbor (payload f)) ≫= fun b => field_str b 15) None (Some code) (Some msg)
        end g' true) = g) as Hbuf.
    { intros task. pose proof (call_outcome_gate s task g Hg) as E.
      destruct (call_outcome s task g) as [r g']; simpl in E; subst g'. apply send_gate. }
    destruct task_id as [tid|]; [|apply Hbuf]. destruct (streaming_handler s) as [h|]; [|apply Hbuf].
    unfold on_stream_call. destruct g as [gate|]; [|by destruct (stream_loop _ _ _ _ _)].
    destruct (acquire gate) as [held|] eqn:E; [|by destruct (lifecycle_frame _ _ _ _ _)].
    destruct (stream_loop _ _ _ _ _). simpl. by rewrite (release_acquire gate held).
  - apply send_gate.
Qed.

Lemma serve_frames_gate s g init fs : opt_gate_ok g -> gate_after (serve_frames s g init fs) = g.
Proof.
  intros Hg. revert init. induction fs as [|f fs IH]; intros init; simpl; [done|].
  destruct (bad_handshake init f); [done|].
  destruct (outcome (dispatch s f g)) as [[]|]; simpl; rewrite ?dispatch_gate by done; auto.
Qed.

(** No connection leaks a concurrency slot: whatever bytes a peer sends,
    and whether calls succeed, fail, stream or the connection is cut, the gate
    is back in the state it had when the session started. *)
Theorem connection_restores_gate s gate chunks :
  gate_ok gate -> gate_after (handle_connection s (Some gate) chunks) = Some gate.
Proof.
  intros Hg. rewrite handle_connection_frames. by apply serve_frames_gate.
Qed.

(** A provider writes nothing before a valid INIT: if a connection gets any
    bytes back, the first frame of its stream is an INIT for framing version 1
    and the first frame written is the ACK with the provider's node id. *)
Theorem connection_handshake_first s g chunks w ws :
  written (handle_connection s g chunks) = w :: ws ->
  exists f fs body, frames_of (delivered chunks) = f :: fs /\ msg_type f = msg_code Init /\
    decode_cbor (payload f) = Ok body /\ framing_version_of body = Some FRAMING_VERSION /\
    w = frame_image (msg_code Ack) (encode_ack FRAMING_VERSION (node_id s)) x00.
Proof.
  rewrite handle_connection_frames.
  destruct (frames_of (delivered chunks)) as [|f fs]; [done|]. cbn [serve_frames].
  unfold bad_handshake. simpl. rewrite orb_false_r.
  case_bool_decide as E; simpl; [|done].
  unfold dispatch. rewrite E. simpl. unfold on_init.
  destruct (decode_cbor (payload f)) as [body|] eqn:Ed; simpl; [|done].
  case_bool_decide as Ev; simpl; [|done].
  unfold send. destruct (try_encode_frame _ _ _) as [w'|] eqn:Ew; simpl; [|done].
  intros Hw. simplify_eq/=.
  apply try_encode_frame_ok in Ew as [_ ->]. eauto 10.
Qed.
End server.
