(* ===== verification/TcpClient.v ===== *)
(** * The native TCP consumer ([src/iicp_tcp.rs], [IicpTcpClient])

    The client is a state machine over a socket.  The socket and the peer at
    its other end are a [Transport]: what a write makes arrive, and the error
    of a read that gets fewer bytes than it waits for (end of file or the
    client's timeout). *)

From S2P Require Import Prelude Text Framing Json Cbor ResponseSequence NativePayload.

Class Transport (P : Type) := {
  (** [socket.write_all] under the timeout: the peer afterwards and the bytes
      it sends back *)
  peer_write : P -> list byte -> result (P * list byte) IicpTcpClientError;
  (** the error of [read_exact] under the timeout when too little arrives *)
  peer_short : P -> IicpTcpClientError
}.

Record IicpTcpClient (P : Type) := mkClient {
  sock : P;
  inbox : list byte;
  peer_node_id : option string;
  framing_version : option byte
}.
Arguments mkClient {P} _ _ _ _.
Arguments sock {P} _.
Arguments inbox {P} _.
Arguments peer_node_id {P} _.
Arguments framing_version {P} _.

(** [{:02x}] *)
Definition hex_digit (n : Z) : string :=
  default EmptyString (["0"; "1"; "2"; "3"; "4"; "5"; "6"; "7"; "8"; "9"; "a"; "b"; "c"; "d"; "e"; "f"]
    !! Z.to_nat n).
Definition hex2 (b : byte) : string :=
  hex_digit (u8_to_Z b / 16) +:+ hex_digit (u8_to_Z b mod 16).
(** [{:?}] of an [Option<u8>] *)
Definition debug_opt_u8 (o : option byte) : string :=
  match o with Some b => "Some(" +:+ pretty (u8_to_Z b) +:+ ")" | None => "None" end.

Section client.
Context {cbor_codec : CborCodec} {json_codec : JsonCodec} {P : Type} {transport : Transport P}.

(** Methods on [&mut self] that may fail. *)
Definition op (A : Type) : Type := IicpTcpClient P -> result A IicpTcpClientError * IicpTcpClient P.
Definition op_ret {A} (a : A) : op A := fun c => (Ok a, c).
Definition op_fail {A} (e : IicpTcpClientError) : op A := fun c => (Err e, c).
Definition op_lift {A} (r : result A IicpTcpClientError) : op A := fun c => (r, c).
Definition op_bind {A B} (m : op A) (k : A -> op B) : op B := fun c =>
  match m c with (Ok a, c') => k a c' | (Err e, c') => (Err e, c') end.

Local Notation "'do' x <- m ; k" := (op_bind m (fun x => k))
  (at level 200, x pattern, m at level 100, k at level 200).

Definition client_frame (mt : MsgType) (payload : list byte) (flags : byte)
    : result (list byte) IicpTcpClientError :=
  map_err EProtocol (try_encode_frame (msg_code mt) payload flags).

Definition require_handshake (c : IicpTcpClient P) : result unit IicpTcpClientError :=
  if bool_decide (framing_version c = Some FRAMING_VERSION) then Ok tt
  else Err (EProtocol "native session handshake is not complete").

(** [connect]: a connected socket, no handshake yet *)
Definition client_connect (p : P) : IicpTcpClient P := mkClient p [] None None.

Definition write_all (data : list byte) : op unit := fun c =>
  match peer_write (sock c) data with
  | Ok (p, arrived) => (Ok tt, mkClient p (inbox c ++ arrived) (peer_node_id c) (framing_version c))
  | Err e => (Err e, c)
  end.

(** [read_exact]: a short read loses what it has read. *)
Definition read_exact (n : Z) : op (list byte) := fun c =>
  if n <=? zlen (inbox c)
  then (Ok (take (Z.to_nat n) (inbox c)),
        mkClient (sock c) (drop (Z.to_nat n) (inbox c)) (peer_node_id c) (framing_version c))
  else (Err (peer_short (sock c)), mkClient (sock c) [] (peer_node_id c) (framing_version c)).

Definition read_frame : op (byte * list byte) :=
  do head <- read_exact FRAME_HEADER_LEN;
  if negb (bytes_eqb (take 4 head) IICP_MAGIC)
  then op_fail (EProtocol ("bad magic in response: " +:+ debug_bytes (take 4 head)))
  else if negb (bool_decide (byte_at head 4 = FRAMING_VERSION))
  then op_fail (EProtocol ("unsupported framing version " +:+ pretty (u8_to_Z (byte_at head 4)) +:+ " in response"))
  else
    let mt := byte_at head 5 in
    match stable_task_message_type_error mt with
    | Some reason => op_fail (EProtocol ("rejected native task frame type 0x" +:+ hex2 mt +:+ ": " +:+ reason))
    | None =>
        let payload_len := header_payload_len head in
        if MAX_FRAME_PAYLOAD <? payload_len
        then op_fail (EProtocol ("response frame payload too large: " +:+ pretty payload_len
                                   +:+ " > " +:+ pretty MAX_FRAME_PAYLOAD))
        else
          do payload <- (if 0 <? payload_len then read_exact payload_len else op_ret []);
          op_ret (mt, payload)
    end.

Definition expected (what : string) (mt : byte) : IicpTcpClientError :=
  EProtocol ("expected " +:+ what +:+ ", got 0x" +:+ hex2 mt).

(** [u8::try_from(value).ok()] of the integer under key 1 *)
Definition negotiated_version (body : CborValue) : option byte :=
  match cbor_map_get body 1 with
  | Some (CInteger v) => if (0 <=? v) && (v <=? u8_max) then Some (u8_of_Z v) else None
  | _ => None
  end.

Definition set_negotiated (negotiated : option byte) (body : CborValue) : op unit := fun c =>
  (Ok tt, mkClient (sock c) (inbox c)
            (match cbor_map_get body 2 with Some v => cbor_to_str v | None => peer_node_id c end)
            negotiated).

Definition init_payload : list byte :=
  encode_cbor (CMap [(CInteger 1, CInteger (u8_to_Z FRAMING_VERSION))]).

Definition handshake : op unit :=
  do frame <- op_lift (client_frame Init init_payload x00);
  do _ <- write_all frame;
  do (mt, payload) <- read_frame;
  if negb (bool_decide (mt = msg_code Ack)) then op_fail (expected "ACK (0x02)" mt)
  else
    do body <- op_lift (map_err EProtocol (decode_cbor payload));
    let negotiated := negotiated_version body in
    if negb (bool_decide (negotiated = Some FRAMING_VERSION))
    then op_fail (EProtocol ("ACK negotiated unsupported framing version " +:+ debug_opt_u8 negotiated))
    else set_negotiated negotiated body.

Definition guard_handshake : op unit := fun c => (require_handshake c, c).

Definition ping_payload (echo : option (list byte)) : list byte :=
  encode_cbor (CMap match echo with Some b => [(CInteger 1, CBytes b)] | None => [] end).

Definition ping (echo : option (list byte)) : op (option (list byte)) :=
  do _ <- guard_handshake;
  do frame <- op_lift (client_frame Ping (ping_payload echo) x00);
  do _ <- write_all frame;
  do (mt, payload) <- read_frame;
  if negb (bool_decide (mt = msg_code Pong)) then op_fail (expected "PONG (0x0a)" mt)
  else match payload with
       | [] => op_ret None
       | _ => match decode_cbor payload with
              | Ok body => op_ret (cbor_map_get body 1 ≫= cbor_to_bytes)
              | Err _ => op_ret None
              end
       end.

Definition discover_entries (session_id intent : string) : list (CborValue * CborValue) :=
  [(CInteger 2, CText session_id); (CInteger 3, CText intent)].

Definition discover_with_session (intent session_id : string) : op (list CborValue) :=
  do _ <- guard_handshake;
  do frame <- op_lift (client_frame Discover (encode_cbor (CMap (discover_entries session_id intent))) x00);
  do _ <- write_all frame;
  do (mt, body_bytes) <- read_frame;
  if negb (bool_decide (mt = msg_code Response)) then op_fail (expected "RESPONSE (0x06)" mt)
  else
    do body <- op_lift (map_err EProtocol (decode_cbor body_bytes));
    op_ret (match cbor_map_get body 20 with Some (CArray items) => items | _ => [] end).

Definition discover (intent : string) : op (list CborValue) :=
  discover_with_session intent "discover-1".

Definition call_entries (session_id intent : string) (payload : json) (call_id : option string)
    : list (CborValue * CborValue) :=
  [(CInteger 2, CText session_id); (CInteger 3, CText intent);
   (CInteger 5, CBytes (json_to_vec payload))]
  ++ match call_id with Some cid => [(CInteger 15, CText cid)] | None => [] end.

(** What the body of a RESPONSE means to the caller; [code as i64] truncates. *)
Definition call_result (body : CborValue) : result json IicpTcpClientError :=
  match cbor_map_get body 100 with
  | Some (CInteger code) =>
      Err (EServer (u64_as_i64 code) (default EmptyString (field_str body 101)))
  | _ =>
      match cbor_map_get body 5 with
      | Some (CBytes bytes) =>
          let? inner := map_err EProtocol (decode_cbor bytes) in Ok (cbor_to_json inner)
      | Some other => Ok (cbor_to_json other)
      | None => Ok (JObject [])
      end
  end.

Definition call_with_session (intent : string) (payload : json) (call_id : option string)
    (session_id : string) : op json :=
  do _ <- guard_handshake;
  do frame <- op_lift (client_frame Call
                (encode_cbor (CMap (call_entries session_id intent payload call_id))) x00);
  do _ <- write_all frame;
  do (mt, body_bytes) <- read_frame;
  if negb (bool_decide (mt = msg_code Response)) then op_fail (expected "RESPONSE (0x06)" mt)
  else
    do body <- op_lift (map_err EProtocol (decode_cbor body_bytes));
    op_lift (call_result body).

Definition call (intent : string) (payload : json) (call_id : option string) : op json :=
  do _ <- guard_handshake;
  call_with_session intent payload call_id "call-1".

Definition close : op unit :=
  do _ <- guard_handshake;
  do frame <- op_lift (client_frame Close [] x00);
  write_all frame.

(** ** Streaming calls *)

(** [State] of [call_stream] *)
Record stream_state := mkStream {
  st_client : IicpTcpClient P;
  st_request : option (result (list byte) IicpTcpClientError);
  st_sequence : NativeResponseSequence;
  started : bool;
  finished : bool
}.

Definition stream_entries (session_id intent : string) (payload : json) (call_id task_id : string)
    (idempotency_key : option string) : list (CborValue * CborValue) :=
  [(CInteger 2, CText session_id); (CInteger 3, CText intent);
   (CInteger 5, CBytes (json_to_vec payload)); (CInteger 15, CText call_id);
   (CInteger 24, CText task_id)]
  ++ match idempotency_key with Some key => [(CInteger 16, CText key)] | None => [] end.

(** [uuid] is the identifier [Uuid::new_v4] would give. *)
Definition call_stream (uuid : string) (c : IicpTcpClient P) (intent : string) (payload : json)
    (task_id session_id : string) (call_id idempotency_key : option string) : stream_state :=
  let call_id := default uuid call_id in
  let entries := stream_entries session_id intent payload call_id task_id idempotency_key in
  let request := let? _ := require_handshake c in client_frame Call (encode_cbor (CMap entries)) x00 in
  mkStream c (Some request) (sequence_new session_id call_id task_id) false false.

Definition stop_with (c : IicpTcpClient P) (s : stream_state) (e : IicpTcpClientError)
    : option (result NativeResponseFrame IicpTcpClientError * stream_state) :=
  Some (Err e, mkStream c (st_request s) (st_sequence s) (started s) true).

(** The part of a step after the request has been sent. *)
Definition stream_receive (s : stream_state)
    : option (result NativeResponseFrame IicpTcpClientError * stream_state) :=
  match read_frame (st_client s) with
  | (Err _, c) => stop_with c s (EProtocol "missing_terminal_response")
  | (Ok (mt, payload), c) =>
      if negb (bool_decide (mt = msg_code Response)) then stop_with c s (expected "RESPONSE (0x06)" mt)
      else match map_err EProtocol (decode_cbor payload) with
           | Err e => stop_with c s e
           | Ok body =>
               match decode_lifecycle_response body with
               | Err e => stop_with c s e
               | Ok frame =>
                   match accept (st_sequence s) frame with
                   | Err code => stop_with c s (EProtocol code)
                   | Ok sq => Some (Ok frame, mkStream c (st_request s) sq (started s) (is_final frame))
                   end
               end
           end
  end.

(** One poll of the unfolded stream; [None] ends it. *)
Definition stream_next (s : stream_state)
    : option (result NativeResponseFrame IicpTcpClientError * stream_state) :=
  if finished s then None
  else if started s then stream_receive s
  else match st_request s with
       | None => None
       | Some (Err e) => Some (Err e, mkStream (st_client s) None (st_sequence s) false true)
       | Some (Ok request) =>
           match write_all request (st_client s) with
           | (Err e, c) => Some (Err e, mkStream c None (st_sequence s) false true)
           | (Ok _, c) => stream_receive (mkStream c None (st_sequence s) true false)
           end
       end.

(** The items of the stream, for a consumer that polls at most [fuel] times. *)
Fixpoint stream_collect (fuel : nat) (s : stream_state)
    : list (result NativeResponseFrame IicpTcpClientError) :=
  match fuel with
  | O => []
  | S fuel =>
      match stream_next s with
      | None => []
      | Some (item, s') => item :: stream_collect fuel s'
      end
  end.

(** ** Lemmas *)

Definition with_inbox (c : IicpTcpClient P) (l : list byte) : IicpTcpClient P :=
  mkClient (sock c) l (peer_node_id c) (framing_version c).

Lemma read_exact_app c l rest :
  inbox c = l ++ rest -> read_exact (zlen l) c = (Ok l, with_inbox c rest).
Proof.
  intros E. unfold read_exact. rewrite E, zlen_app. pose proof (zlen_nonneg rest).
  rewrite (proj2 (Z.leb_le _ _)) by lia. unfold zlen. rewrite Nat2Z.id.
  by rewrite take_app_length, drop_app_length.
Qed.

(** A whole frame at the head of the inbox is read and nothing more. *)
Lemma read_frame_image c mt p fl rest :
  zlen p <= MAX_FRAME_PAYLOAD -> stable_task_message_type_error mt = None ->
  inbox c = frame_image mt p fl ++ rest ->
  read_frame c = (Ok (mt, p), with_inbox c rest).
Proof.
  intros Hp Hs E. unfold read_frame, op_bind.
  set (head := IICP_MAGIC ++ [FRAMING_VERSION; mt; fl; x00] ++ u32_to_be_bytes (zlen p)).
  assert (inbox c = head ++ (p ++ rest)) as E'.
  { rewrite E. unfold head, frame_image. by rewrite <- !app_assoc. }
  change FRAME_HEADER_LEN with (zlen head). rewrite (read_exact_app c head (p ++ rest)) by done.
  change (take 4 head) with IICP_MAGIC. unfold bytes_eqb. rewrite bool_decide_true by done.
  change (byte_at head 4) with FRAMING_VERSION. rewrite bool_decide_true by done.
  change (byte_at head 5) with mt. rewrite Hs.
  assert (header_payload_len head = zlen p) as ->.
  { unfold header_payload_len. simpl. apply u32_be_roundtrip.
    pose proof (zlen_nonneg p). unfold MAX_FRAME_PAYLOAD, u32_max in *. lia. }
  cbn [negb]. rewrite (proj2 (Z.ltb_ge _ _)) by done. destruct (Z.ltb_spec 0 (zlen p)) as [Hz|Hz].
  - by rewrite (read_exact_app _ p rest).
  - destruct p as [|b p]; [done|]. rewrite zlen_cons in Hz. pose proof (zlen_nonneg p). lia.
Qed.

Lemma write_all_ok data c p arrived :
  peer_write (sock c) data = Ok (p, arrived) ->
  write_all data c = (Ok tt, mkClient p (inbox c ++ arrived) (peer_node_id c) (framing_version c)).
Proof. unfold write_all. by intros ->. Qed.

(** What one poll of a started stream yields. *)
Lemma stream_receive_cases s item s' :
  stream_receive s = Some (item, s') ->
  (exists f sq, item = Ok f /\ accept (st_sequence s) f = Ok sq /\ st_sequence s' = sq /\
     started s' = started s /\ finished s' = is_final f) \/
  (exists e, item = Err e /\ finished s' = true).
Proof.
  unfold stream_receive, stop_with. destruct (read_frame (st_client s)) as [[[mt p]|e] c].
  - destruct (negb _); [naive_solver|]. destruct (map_err _ _) as [body|]; [|naive_solver].
    destruct (decode_lifecycle_response body) as [f|]; [|naive_solver].
    destruct (accept (st_sequence s) f) as [sq|] eqn:E; [|naive_solver].
    intros; simplify_eq; simpl. left. eauto 10.
  - naive_solver.
Qed.

Lemma stream_collect_finished fuel s : finished s = true -> stream_collect fuel s = [].
Proof. intros E. destruct fuel; simpl; [done|]. unfold stream_next. by rewrite E. Qed.

(** What a consumer has seen: accepted frames, then at most one error; and
    when the stream has ended without error, the final frame was seen. *)
Definition stream_seen (fuel : nat) (sq : NativeResponseSequence)
    (items : list (result NativeResponseFrame IicpTcpClientError)) : Prop :=
  exists fs tail sq', items = (Ok <$> fs) ++ tail /\ accept_all sq fs = Ok sq' /\
    ((tail = [] /\ (length items < fuel)%nat /\ finish sq' = Ok tt) \/
     (tail = [] /\ length items = fuel) \/ (exists e, tail = [Err e])).

Lemma stream_collect_started fuel s :
  started s = true -> finished s = terminal_seen (st_sequence s) ->
  stream_seen fuel (st_sequence s) (stream_collect fuel s).
Proof.
  revert s. induction fuel as [|fuel IH]; intros s Hs Hf.
  - exists [], [], (st_sequence s). naive_solver.
  - destruct (finished s) eqn:Efin.
    + rewrite stream_collect_finished by done. exists [], [], (st_sequence s).
      repeat split; try done. left. simpl. unfold finish. rewrite <- Hf. naive_solver lia.
    + simpl. unfold stream_next. rewrite Efin, Hs.
      destruct (stream_receive s) as [[item s']|] eqn:E.
      2: { exfalso. revert E. unfold stream_receive, stop_with. by repeat case_match. }
      destruct (stream_receive_cases _ _ _ E) as [(f & sq & -> & Ha & Hsq & Hst & Hfin)|(e & -> & Hfin)].
      * destruct (IH s') as (fs & tail & sq' & -> & Hall & Ht).
        { by rewrite Hst. }
        { rewrite Hfin, Hsq. apply accept_ok in Ha as (_ & _ & ->). done. }
        exists (f :: fs), tail, sq'. split; [done|]. split; [simpl; rewrite Ha; simpl; by rewrite <- Hsq|].
        simpl. naive_solver lia.
      * rewrite stream_collect_finished by done. exists [], [Err e], (st_sequence s). naive_solver.
Qed.

Lemma stream_collect_call_stream fuel uuid c intent payload task_id session_id call_id key :
  stream_seen fuel (sequence_new session_id (default uuid call_id) task_id)
    (stream_collect fuel (call_stream uuid c intent payload task_id session_id call_id key)).
Proof.
  set (st := call_stream _ _ _ _ _ _ _ _). destruct fuel as [|fuel].
  { eexists [], [], _. naive_solver. }
  assert (forall e c', stream_next st = Some (Err e, mkStream c' None (st_sequence st) false true) ->
    stream_seen (S fuel) (st_sequence st) (stream_collect (S fuel) st)) as Herr.
  { intros e c' E. cbn [stream_collect]. rewrite E, stream_collect_finished by done.
    exists [], [Err e], (st_sequence st). naive_solver. }
  change (sequence_new _ _ _) with (st_sequence st).
  destruct (st_request st) as [[request|e]|] eqn:Er; [| |done].
  - destruct (write_all request (st_client st)) as [[[]|e] c'] eqn:Ew.
    + assert (stream_collect (S fuel) st =
        stream_collect (S fuel) (mkStream c' None (st_sequence st) true false)) as ->.
      { cbn [stream_collect]. unfold stream_next at 1. change (finished st) with false.
        change (started st) with false. cbv iota. rewrite Er. cbv iota. by rewrite Ew. }
      by apply (stream_collect_started (S fuel) (mkStream c' None (st_sequence st) true false)).
    + apply (Herr e c'). unfold stream_next. change (finished st) with false.
      change (started st) with false. cbv iota. rewrite Er. cbv iota. by rewrite Ew.
  - apply (Herr e (st_client st)). unfold stream_next. change (finished st) with false.
    change (started st) with false. cbv iota. by rewrite Er.
Qed.

(** Whatever the peer sends, a streaming call that ends without an error
    item has delivered a complete response stream: the frames of this session,
    call and task, numbered 0, 1, 2, .., with exactly the last one final. *)
Theorem client_stream_complete fuel uuid c intent payload task_id session_id call_id key :
  let items := stream_collect fuel
                 (call_stream uuid c intent payload task_id session_id call_id key) in
  (length items < fuel)%nat -> zlen items <= u64_max ->
  (forall e, Err e ∉ items) ->
  exists fs, items = Ok <$> fs /\
    complete_stream session_id (default uuid call_id) task_id 0 fs.
Proof.
  intros items Hlen Hu Hne.
  destruct (stream_collect_call_stream fuel uuid c intent payload task_id session_id call_id key)
    as (fs & tail & sq' & Ei & Ha & Ht). fold items in Ei, Ht.
  destruct Ht as [(-> & _ & Hfin)|[(-> & ?)|(e & ->)]]; [|lia|].
  - rewrite app_nil_r in Ei. exists fs. split; [done|]. apply accept_all_complete; [lia| |eauto].
    rewrite Ei in Hu. unfold zlen in *. rewrite length_fmap in Hu. lia.
  - exfalso. apply (Hne e). rewrite Ei, elem_of_app. right. by apply list_elem_of_singleton.
Qed.

(** Without a completed handshake every operation is refused before
    anything is written: the client and its socket are unchanged. *)
Theorem client_requires_handshake c echo intent payload call_id session_id :
  framing_version c <> Some FRAMING_VERSION ->
  let refused {A} : result A _ * _ := (Err (EProtocol "native session handshake is not complete"), c) in
  ping echo c = refused /\ discover intent c = refused /\
  discover_with_session intent session_id c = refused /\
  call intent payload call_id c = refused /\
  call_with_session intent payload call_id session_id c = refused /\ close c = refused.
Proof.
  intros Hv. assert (guard_handshake c =
    (Err (EProtocol "native session handshake is not complete"), c)) as Hg.
  { unfold guard_handshake, require_handshake. by rewrite bool_decide_false. }
  unfold ping, discover, discover_with_session, call, call_with_session, close, op_bind.
  by rewrite !Hg.
Qed.
End client.
