(* ===== verification/TcpSession.v ===== *)
(** * Native sessions end to end ([src/iicp_tcp.rs])

    The consumer of [TcpClient.v] connected to the provider of [TcpServer.v].
    The provider is a [Transport]: a write makes arrive the frames the
    connection handler writes for the bytes received so far, beyond those it
    had written before.  Once the handshake is done ([client_ready]) every
    operation of the client is shown to return what the provider's callbacks
    say, and to leave the session ready for the next one. *)

From S2P Require Import Prelude Text Framing Json Cbor CodecModel Gate ResponseSequence NativePayload TcpServer TcpClient.

Record server_peer := mkPeer {
  sp_server : IicpTcpServer;
  sp_gate : option ConcurrencyGate;
  sp_timeout_ms : Z;
  sp_received : list (list byte)
}.

Section session.
Context {cbor_codec : CborCodec} {json_codec : JsonCodec}.

Definition sp_written (p : server_peer) : list (list byte) :=
  written (handle_connection (sp_server p) (sp_gate p) (sp_received p)).

#[export] Instance server_transport : Transport server_peer := {|
  peer_write p data :=
    let p' := mkPeer (sp_server p) (sp_gate p) (sp_timeout_ms p) (sp_received p ++ [data]) in
    Ok (p', concat (drop (length (sp_written p)) (sp_written p')));
  peer_short p := ETimeout (sp_timeout_ms p)
|}.

(** ** The provider's side of an open session *)

(** [fs] are served without closing the session; the result is the handshake
    flag afterwards. *)
Fixpoint open_after (s : IicpTcpServer) (g : option ConcurrencyGate) (initialized : bool)
    (fs : list IicpFrame) : option bool :=
  match fs with
  | [] => Some initialized
  | f :: fs =>
      if bad_handshake initialized f then None
      else match outcome (dispatch s f g) with
           | Ok true => open_after s (gate_after (dispatch s f g)) true fs
           | _ => None
           end
  end.

Lemma serve_frames_app s g init fs fs' init' :
  opt_gate_ok g -> open_after s g init fs = Some init' ->
  written (serve_frames s g init (fs ++ fs')) =
    written (serve_frames s g init fs) ++ written (serve_frames s g init' fs').
Proof.
  intros Hg. revert init. induction fs as [|f fs IH]; intros init; simpl; [naive_solver|].
  destruct (bad_handshake init f); [done|].
  destruct (outcome (dispatch s f g)) as [[]|]; try done.
  rewrite dispatch_gate by done. intros Ho. simpl. by rewrite IH, app_assoc.
Qed.

Lemma open_after_app s g init fs fs' :
  opt_gate_ok g ->
  open_after s g init (fs ++ fs') = open_after s g init fs ≫= fun i => open_after s g i fs'.
Proof.
  intros Hg. revert init. induction fs as [|f fs IH]; intros init; simpl; [done|].
  destruct (bad_handshake init f); [done|].
  destruct (outcome (dispatch s f g)) as [[]|]; try done.
  rewrite dispatch_gate by done. apply IH.
Qed.

Lemma frames_of_image mt p fl rest :
  zlen p <= MAX_FRAME_PAYLOAD -> stable_task_message_type_error mt = None ->
  frames_of (frame_image mt p fl ++ rest) = mkFrame FRAMING_VERSION mt fl p :: frames_of rest.
Proof.
  intros Hp Hs. unfold frames_of.
  assert (stream_frame (frame_image mt p fl ++ rest) = Some (mkFrame FRAMING_VERSION mt fl p, rest)) as E.
  { unfold stream_frame. rewrite decode_frame_image by done. cbn [msg_type]. rewrite Hs. cbn [is_some].
    pose proof (frame_image_length mt p fl) as Hi. unfold zlen at 1 in Hi.
    by rewrite <- Hi, Nat2Z.id, drop_app_length. }
  pose proof (stream_frame_shorter _ _ _ E) as Hl.
  rewrite (parse_frames_fuel _ (S (length (frame_image mt p fl ++ rest)))) by lia.
  cbn [parse_frames]. rewrite E. f_equal. apply parse_frames_fuel; lia.
Qed.

Lemma delivered_snoc chunks d :
  Forall (fun c => c <> []) chunks -> delivered (chunks ++ [d]) = delivered chunks ++ d.
Proof.
  induction 1 as [|c cs Hc _ IH]; simpl; [by destruct d; simpl; rewrite ?app_nil_r|].
  destruct c; [done|]. simpl in *. by rewrite IH, app_assoc.
Qed.

(** The bytes received are whole frames, and the session is open in state
    [initialized]. *)
Definition peer_open (p : server_peer) (initialized : bool) : Prop :=
  opt_gate_ok (sp_gate p) /\ Forall (fun c => c <> []) (sp_received p) /\
  exists fs, (forall bs, frames_of (delivered (sp_received p) ++ bs) = fs ++ frames_of bs) /\
    open_after (sp_server p) (sp_gate p) false fs = Some initialized.

(** A whole frame written to an open session: what arrives is what the
    dispatched handler wrote. *)
Lemma peer_write_frame p init mt pl fl o :
  peer_open p init -> zlen pl <= MAX_FRAME_PAYLOAD -> stable_task_message_type_error mt = None ->
  bad_handshake init (mkFrame FRAMING_VERSION mt fl pl) = false ->
  dispatch (sp_server p) (mkFrame FRAMING_VERSION mt fl pl) (sp_gate p) = o ->
  let p' := mkPeer (sp_server p) (sp_gate p) (sp_timeout_ms p)
                   (sp_received p ++ [frame_image mt pl fl]) in
  peer_write p (frame_image mt pl fl) = Ok (p', concat (written o)) /\
  (outcome o = Ok true -> peer_open p' true).
Proof.
  intros (Hg & Hne & fs & Hfs & Ho) Hpl Hs Hb Hd p'.
  assert (forall bs, frames_of (delivered (sp_received p') ++ bs) =
    (fs ++ [mkFrame FRAMING_VERSION mt fl pl]) ++ frames_of bs) as Hfs'.
  { intros bs. simpl. rewrite delivered_snoc, <- app_assoc, Hfs, frames_of_image by done.
    by rewrite <- app_assoc. }
  split.
  - simpl. do 2 f_equal. fold p'. f_equal. unfold sp_written. rewrite !handle_connection_frames.
    pose proof (Hfs []) as H0. pose proof (Hfs' []) as H1. rewrite !app_nil_r in H0, H1.
    rewrite H0, H1. simpl sp_server. simpl sp_gate.
    rewrite (serve_frames_app _ _ _ _ _ init), drop_app_length by done.
    cbn [serve_frames]. rewrite Hb, Hd. destruct (outcome o) as [[]|]; simpl; by rewrite ?app_nil_r.
  - intros Hout. split; [done|]. split.
    + simpl. apply Forall_app. by repeat constructor.
    + exists (fs ++ [mkFrame FRAMING_VERSION mt fl pl]). split; [done|].
      simpl. rewrite open_after_app, Ho by done. simpl. by rewrite Hb, Hd, Hout.
Qed.

(** ** The client's side *)

Record client_ready (s : IicpTcpServer) (g : option ConcurrencyGate)
    (c : IicpTcpClient server_peer) : Prop := {
  cr_server : sp_server (sock c) = s;
  cr_gate : sp_gate (sock c) = g;
  cr_open : peer_open (sock c) true;
  cr_inbox : inbox c = [];
  cr_version : framing_version c = Some FRAMING_VERSION;
  cr_peer : peer_node_id c = node_id s
}.

Definition fits (payload : list byte) : Prop := zlen payload <= MAX_FRAME_PAYLOAD.

Lemma client_frame_fits mt pl fl :
  fits pl -> client_frame mt pl fl = Ok (frame_image (msg_code mt) pl fl).
Proof. intros H. unfold client_frame. by rewrite (proj2 (try_encode_frame_ok _ _ _ _) (conj H eq_refl)). Qed.

Lemma send_fits mt pl g keep : fits pl -> send mt pl g keep = mkOut [frame_image (msg_code mt) pl x00] g (Ok keep).
Proof. intros H. unfold send. by rewrite (proj2 (try_encode_frame_ok _ _ _ _) (conj H eq_refl)). Qed.

Lemma guard_ready s g c : client_ready s g c -> guard_handshake c = (Ok tt, c).
Proof.
  intros H. unfold guard_handshake, require_handshake. by rewrite bool_decide_true by apply H.
Qed.

(** One request answered by one frame. *)
Lemma request_reply s g c mt pl mt' pl' :
  client_ready s g c -> fits pl -> fits pl' ->
  stable_task_message_type_error (msg_code mt) = None -> mt <> Init ->
  stable_task_message_type_error (msg_code mt') = None ->
  dispatch s (mkFrame FRAMING_VERSION (msg_code mt) x00 pl) g =
    mkOut [frame_image (msg_code mt') pl' x00] g (Ok true) ->
  exists c1 c2, write_all (frame_image (msg_code mt) pl x00) c = (Ok tt, c1) /\
    read_frame c1 = (Ok (msg_code mt', pl'), c2) /\ client_ready s g c2.
Proof.
  intros [<- <- Ho Hi Hv Hp] Hf Hf' Hs Hne Hs' Hd.
  assert (bad_handshake true (mkFrame FRAMING_VERSION (msg_code mt) x00 pl) = false) as Hb by (by destruct mt).
  destruct (peer_write_frame (sock c) true _ pl x00 _ Ho Hf Hs Hb Hd) as [Hw Hopen].
  simpl written in Hw. simpl in Hopen. cbn [concat] in Hw. rewrite app_nil_r in Hw.
  pose proof (write_all_ok _ c _ _ Hw) as E1. rewrite Hi in E1. eexists _, _. split; [exact E1|].
  split; [apply (read_frame_image _ (msg_code mt') pl' x00 []); [done|done|]|].
  { simpl. by rewrite app_nil_r. }
  constructor; simpl; auto.
Qed.

(** The common prefix of the client's operations. *)
Lemma rpc s g c mt pl mt' pl' :
  client_ready s g c -> fits pl -> fits pl' ->
  stable_task_message_type_error (msg_code mt) = None -> mt <> Init ->
  stable_task_message_type_error (msg_code mt') = None ->
  dispatch s (mkFrame FRAMING_VERSION (msg_code mt) x00 pl) g =
    mkOut [frame_image (msg_code mt') pl' x00] g (Ok true) ->
  exists c', client_ready s g c' /\
    forall B (k : byte * list byte -> op B),
      op_bind guard_handshake (fun _ => op_bind (op_lift (client_frame mt pl x00)) (fun frame =>
        op_bind (write_all frame) (fun _ => op_bind read_frame k))) c = k (msg_code mt', pl') c'.
Proof.
  intros Hr Hf Hf' Hs Hne Hs' Hd.
  destruct (request_reply s g c mt pl mt' pl' Hr Hf Hf' Hs Hne Hs' Hd) as (c1 & c2 & E1 & E2 & Hr').
  exists c2. split; [done|]. intros B k. unfold op_bind at 1. rewrite (guard_ready s g c Hr).
  unfold op_bind at 1, op_lift. rewrite client_frame_fits by done.
  unfold op_bind. by rewrite E1, E2.
Qed.

Lemma handshake_ready s g timeout_ms :
  opt_gate_ok g -> fits init_payload -> fits (encode_ack FRAMING_VERSION (node_id s)) ->
  is_none_or (node_id s) utf8 = true ->
  exists c, handshake (client_connect (mkPeer s g timeout_ms [])) = (Ok tt, c) /\ client_ready s g c.
Proof.
  intros Hg Hi Ha Hu. set (p := mkPeer s g timeout_ms []).
  assert (peer_open p false) as Hp by (split; [done|]; split; [constructor|by exists []]).
  assert (decode_cbor init_payload = Ok (CMap [(CInteger 1, CInteger (u8_to_Z FRAMING_VERSION))])) as Hdi
    by (by apply decode_encode_cbor).
  assert (dispatch s (mkFrame FRAMING_VERSION (msg_code Init) x00 init_payload) g =
    mkOut [frame_image (msg_code Ack) (encode_ack FRAMING_VERSION (node_id s)) x00] g (Ok true)) as Hd.
  { unfold dispatch. simpl. unfold on_init. cbn [payload]. rewrite Hdi. by apply send_fits. }
  destruct (peer_write_frame p false (msg_code Init) init_payload x00 _ Hp Hi eq_refl eq_refl Hd) as [Hw Ho].
  cbn [written concat] in Hw. rewrite app_nil_r in Hw.
  unfold handshake, op_bind, op_lift. rewrite client_frame_fits by done.
  rewrite (write_all_ok _ (client_connect p) _ _ Hw). cbn [inbox client_connect app].
  erewrite (read_frame_image _ (msg_code Ack) _ x00 []);
    [|done|done|cbn [inbox]; by rewrite app_nil_r].
  rewrite bool_decide_true by done. cbn [negb].
  assert (decode_cbor (encode_ack FRAMING_VERSION (node_id s)) =
    Ok (CMap ((CInteger 1, CInteger (u8_to_Z FRAMING_VERSION)) ::
      match node_id s with Some id => [(CInteger 2, CText id)] | None => [] end))) as ->.
  { apply decode_encode_cbor. destruct (node_id s); [|done]. simpl in *. by rewrite Hu. }
  cbn [map_err]. unfold negotiated_version. cbn [cbor_map_get entries_get]. rewrite Z.eqb_refl.
  rewrite bool_decide_true by done. cbn [negb]. unfold set_negotiated.
  eexists. split; [done|]. constructor; try done; simpl.
  - by apply Ho.
  - by destruct (node_id s).
Qed.

(** The handshake of a fresh connection succeeds, and leaves both sides
    ready with the provider's node id known to the consumer. *)
Theorem session_handshake s g timeout_ms :
  opt_gate_ok g -> fits init_payload -> fits (encode_ack FRAMING_VERSION (node_id s)) ->
  is_none_or (node_id s) utf8 = true ->
  exists c, handshake (client_connect (mkPeer s g timeout_ms [])) = (Ok tt, c) /\ client_ready s g c.
Proof. apply handshake_ready. Qed.

(** PING returns the echoed bytes. *)
Theorem session_ping s g c echo :
  client_ready s g c -> fits (ping_payload echo) ->
  exists c', ping echo c = (Ok echo, c') /\ client_ready s g c'.
Proof.
  intros Hr Hf.
  assert (decode_cbor (ping_payload echo) =
    Ok (CMap match echo with Some b => [(CInteger 1, CBytes b)] | None => [] end)) as Hdec
    by (by apply decode_encode_cbor; destruct echo).
  assert (encode_pong echo = ping_payload echo) as Ep by done.
  destruct (rpc s g c Ping (ping_payload echo) Pong (encode_pong echo)) as (c' & Hr' & E); try done.
  { unfold dispatch. simpl. unfold on_ping. cbn [payload].
    pose proof (cbor_ser_nonempty (CMap match echo with Some b => [(CInteger 1, CBytes b)] | None => [] end)) as Hne.
    fold encode_cbor in Hne. change (cbor_ser _) with (ping_payload echo) in Hne.
    destruct (ping_payload echo) as [|b l] eqn:El; [done|]. rewrite Hdec.
    replace (cbor_map_get _ 1 ≫= cbor_to_bytes) with echo by (by destruct echo).
    apply send_fits. by rewrite Ep. }
  exists c'. split; [|done]. unfold ping. rewrite E. rewrite bool_decide_true by done. cbn [negb].
  rewrite Ep, Hdec. destruct (ping_payload echo) eqn:El; [|by destruct echo].
  by destruct (cbor_ser_nonempty (CMap match echo with Some b => [(CInteger 1, CBytes b)] | None => [] end)).
Qed.

(** ** Buffered calls *)

(** What a handler's answer means to the caller. *)
Definition handler_reply (v : json) : result json IicpTcpClientError :=
  match v with
  | JObject m =>
      match obj_get m "error_code" ≫= as_i64 with
      | Some code => Err (EServer code (default "handler error" (obj_get m "error_message" ≫= as_str)))
      | None => Ok (default v (obj_get m "result"))
      end
  | _ => Ok v
  end.

Definition at_capacity (g : option ConcurrencyGate) : bool :=
  match g with Some gate => max_concurrent gate <=? active gate | None => false end.

(** What the provider's configuration promises a caller. *)
Definition promised_reply (s : IicpTcpServer) (g : option ConcurrencyGate) (task : TcpTask)
    : result json IicpTcpClientError :=
  match handler s, g with
  | None, _ => Err (EServer 503 "no handler configured")
  | Some h, Some gate =>
      if at_capacity g
      then Err (EServer 429 (capacity_message (mkCapacityExceeded (max_concurrent gate))))
      else handler_reply (h task)
  | Some h, None => handler_reply (h task)
  end.

(** Replies the wire can carry. *)
Definition reply_carried (r : result json IicpTcpClientError) : Prop :=
  match r with
  | Ok v => json_native v = true /\ cbor_plain CBOR_RECURSION_LIMIT (json_to_cbor v) = true
  | Err (EServer code m) => i64_min <= code <= i64_max /\ utf8 m = true
  | Err _ => False
  end.

(** The payload of the RESPONSE that carries a reply. *)
Definition reply_payload (session_id : string) (call_id : option string)
    (r : result json IicpTcpClientError) : list byte :=
  match r with
  | Ok v => encode_response session_id call_id (Some (encode_cbor (json_to_cbor v))) None None
  | Err (EServer code m) => encode_response session_id call_id None (Some code) (Some m)
  | Err _ => []
  end.

Lemma u64_as_i64_id z : i64_min <= z <= i64_max -> u64_as_i64 z = z.
Proof.
  unfold i64_min, i64_max, u64_as_i64. intros H. destruct (Z.ltb_spec z 0).
  - replace (z mod 2 ^ 64) with (z + 2 ^ 64).
    + destruct (Z.ltb_spec (z + 2 ^ 64) (2 ^ 63)); lia.
    + rewrite <- (Z_mod_plus_full z 1), Z.mod_small; lia.
  - rewrite Z.mod_small by lia. destruct (Z.ltb_spec z (2 ^ 63)); lia.
Qed.

(** A map of plain leaves is plain. *)
Definition leaf_plain (v : CborValue) : bool := cbor_plain 0 v.

Lemma plain_leaf d v : leaf_plain v = true -> cbor_plain d v = true.
Proof. destruct d, v; done. Qed.

Lemma plain_flat_map_S d m :
  forallb (fun kv => leaf_plain kv.1 && leaf_plain kv.2) m = true -> cbor_plain (S d) (CMap m) = true.
Proof.
  intros H. cbn [cbor_plain]. rewrite forallb_forall in *. intros x Hx. specialize (H x Hx).
  apply andb_true_iff in H as [H1 H2]. by rewrite !plain_leaf.
Qed.

Lemma plain_flat_map m :
  forallb (fun kv => leaf_plain kv.1 && leaf_plain kv.2) m = true ->
  cbor_plain CBOR_RECURSION_LIMIT (CMap m) = true.
Proof. exact (plain_flat_map_S 255 m). Qed.

Lemma leaf_plain_int n : i64_min <= n <= i64_max -> leaf_plain (CInteger n) = true.
Proof. unfold i64_min, i64_max. intros. simpl. apply andb_true_iff. lia. Qed.

(** The client recovers a carried reply from its RESPONSE. *)
Lemma call_result_reply sid cid r :
  utf8 sid = true -> is_none_or cid utf8 = true -> reply_carried r ->
  exists body, decode_cbor (reply_payload sid cid r) = Ok body /\ call_result body = r.
Proof.
  intros Hs Hc Hr. destruct r as [v|[| |code m|]]; try done; destruct Hr as [H1 H2];
    eexists; (split; [apply decode_encode_cbor|]).
  - apply plain_flat_map. destruct cid; cbn [is_none_or response_entries call_entries app forallb fst snd leaf_plain cbor_plain] in Hc |- *; by rewrite Hs, ?Hc.
  - unfold call_result, field_str. destruct cid; cbn -[decode_cbor encode_cbor json_to_cbor];
      rewrite decode_encode_cbor by done; simpl; by rewrite json_cbor_json.
  - pose proof (leaf_plain_int code H1) as Hp. apply plain_flat_map.
    destruct cid; cbn [is_none_or response_entries call_entries app forallb fst snd leaf_plain cbor_plain] in Hc, Hp |- *; by rewrite Hs, ?Hc, Hp, H2.
  - unfold call_result, field_str. destruct cid; cbn -[u64_as_i64]; by rewrite u64_as_i64_id.
Qed.

Lemma run_handler_reply h task :
  run_handler h task =
  match handler_reply (h task) with
  | Ok v => Ok (encode_cbor (json_to_cbor v))
  | Err (EServer code m) => Err (code, m)
  | Err _ => Err (0, EmptyString)
  end.
Proof.
  unfold run_handler, handler_reply. destruct (h task); try done.
  by destruct (obj_get m "error_code" ≫= as_i64).
Qed.

Lemma handler_reply_server v e : handler_reply v = Err e -> exists c m, e = EServer c m.
Proof. unfold handler_reply. repeat case_match; naive_solver. Qed.

Definition outcome_payload (sid : string) (cid : option string) (r : result (list byte) (Z * string))
    : list byte :=
  match r with
  | Ok bytes => encode_response sid cid (Some bytes) None None
  | Err (code, m) => encode_response sid cid None (Some code) (Some m)
  end.

Lemma call_outcome_promised s task g sid cid :
  outcome_payload sid cid (call_outcome s task g).1 = reply_payload sid cid (promised_reply s g task).
Proof.
  unfold call_outcome, promised_reply, at_capacity.
  destruct (handler s) as [h|]; [|done].
  assert (outcome_payload sid cid (run_handler h task) = reply_payload sid cid (handler_reply (h task))) as Hrun.
  { rewrite run_handler_reply. destruct (handler_reply (h task)) as [v|e] eqn:E; [done|].
    by destruct (handler_reply_server _ _ E) as (c & m & ->). }
  destruct g as [gate|]; [|done]. rewrite acquire_spec. by destruct (_ <=? _).
Qed.

Lemma dispatch_call s g sid intent payload cid :
  opt_gate_ok g -> utf8 sid = true -> utf8 intent = true -> is_none_or cid utf8 = true ->
  json_plain JSON_RECURSION_LIMIT payload = true ->
  dispatch s (mkFrame FRAMING_VERSION (msg_code Call) x00
                (encode_cbor (CMap (call_entries sid intent payload cid)))) g =
  send Response (reply_payload sid cid (promised_reply s g (mkTask (default sid cid) intent payload))) g true.
Proof.
  intros Hg Hs Hi Hc Hp. unfold dispatch. simpl. unfold on_call. cbn [Framing.payload].
  rewrite decode_encode_cbor.
  2: { apply plain_flat_map. destruct cid; cbn [is_none_or response_entries call_entries app forallb fst snd leaf_plain cbor_plain] in Hc |- *; by rewrite Hs, Hi, ?Hc. }
  assert (call_payload (CMap (call_entries sid intent payload cid)) = payload) as Hpay.
  { unfold call_payload. cbn -[json_to_vec utf8_bytes].
    by rewrite json_to_vec_utf8, json_from_to by done. }
  assert (field_str (CMap (call_entries sid intent payload cid)) 24 = None) as H24 by (by destruct cid).
  assert (field_str (CMap (call_entries sid intent payload cid)) 15 = cid) as H15 by (by destruct cid).
  cbn [result_ok mbind option_bind]. rewrite H24, H15, Hpay.
  change (field_or _ 2 "unknown") with sid. change (field_or _ 3 EmptyString) with intent.
  pose proof (call_outcome_gate s (mkTask (default sid cid) intent payload) g Hg) as Eg.
  pose proof (call_outcome_promised s (mkTask (default sid cid) intent payload) g sid cid) as Er.
  destruct (call_outcome s _ g) as [r g']; simpl in Eg, Er; subst g'.
  unfold outcome_payload in Er. by rewrite Er.
Qed.

(** A buffered call over an open session returns to the caller exactly
    what the provider promises: the handler's result, the error it reports,
    429 at capacity or 503 without a handler; and the session stays open. *)
Theorem session_call s g c intent payload call_id session_id :
  let task := mkTask (default session_id call_id) intent payload in
  let reply := promised_reply s g task in
  client_ready s g c -> json_plain JSON_RECURSION_LIMIT payload = true ->
  utf8 session_id = true -> utf8 intent = true -> is_none_or call_id utf8 = true ->
  fits (encode_cbor (CMap (call_entries session_id intent payload call_id))) ->
  reply_carried reply -> fits (reply_payload session_id call_id reply) ->
  exists c', call_with_session intent payload call_id session_id c = (reply, c') /\
    client_ready s g c'.
Proof.
  intros task reply Hr Hp Hs Hi Hc Hf Hrc Hf'.
  assert (opt_gate_ok g) as Hg by (destruct Hr as [_ <- [Hg _] _ _ _]; done).
  destruct (rpc s g c Call (encode_cbor (CMap (call_entries session_id intent payload call_id)))
    Response (reply_payload session_id call_id reply)) as (c' & Hr' & E);
    try done; [by rewrite dispatch_call, send_fits|].
  exists c'. split; [|done]. unfold call_with_session. rewrite E, bool_decide_true by done. cbn [negb].
  destruct (call_result_reply session_id call_id reply Hs Hc Hrc) as (body & Hb & Hres).
  unfold op_bind, op_lift. rewrite Hb. simpl. by rewrite Hres.
Qed.

(** ** Streaming calls *)

(** The events a consumer is meant to see of a handler's stream: up to the
    first terminal one, or with an error event when there is none. *)
Fixpoint stream_events (items : list (result TcpStreamEvent string)) : list TcpStreamEvent :=
  match items with
  | [] => [error_event "stream_incomplete" "stream ended without a terminal response"]
  | item :: items =>
      let ev := stream_event item in
      if ev_status ev <>? "partial" then [ev] else ev :: stream_events items
  end.

(** The events of a streaming call, the refusal at capacity included. *)
Definition promised_events (g : option ConcurrencyGate) (items : list (result TcpStreamEvent string))
    : list TcpStreamEvent :=
  if at_capacity g then [error_event "capacity_exceeded" "node concurrency capacity reached"]
  else stream_events items.

Fixpoint numbered {A} (n : Z) (l : list A) : list (Z * A) :=
  match l with [] => [] | a :: l => (n, a) :: numbered (n + 1) l end.

Definition event_image (sid cid tid : string) (x : Z * TcpStreamEvent) : list byte :=
  frame_image (msg_code Response) (encode_lifecycle_response sid cid tid x.1 x.2) x00.

(** An event that the wire can carry and whose name agrees with its status. *)
Record event_ok (sid cid tid : string) (x : Z * TcpStreamEvent) : Prop := {
  eo_fits : fits (encode_lifecycle_response sid cid tid x.1 x.2);
  eo_plain : cbor_plain CBOR_RECURSION_LIMIT (CMap (lifecycle_entries sid cid tid x.1 x.2)) = true;
  eo_carried : event_carried x.2;
  eo_name : status_matches (ev_status x.2)
              (default (default_event_name (ev_status x.2)) (ev_event x.2)) = true
}.

Lemma lifecycle_frame_fits sid cid tid n ev :
  fits (encode_lifecycle_response sid cid tid n ev) ->
  lifecycle_frame sid cid tid n ev = Ok (event_image sid cid tid (n, ev)).
Proof. intros H. unfold lifecycle_frame. by apply try_encode_frame_ok. Qed.

Lemma stream_loop_images sid cid tid n items :
  0 <= n -> n + zlen items <= u64_max ->
  Forall (event_ok sid cid tid) (numbered n (stream_events items)) ->
  stream_loop sid cid tid n items =
    (event_image sid cid tid <$> numbered n (stream_events items), Ok true).
Proof.
  revert n. induction items as [|item items IH]; intros n Hn Hu Hok.
  - cbn [stream_events numbered] in *. apply Forall_cons in Hok as [H _].
    cbn [stream_loop]. by rewrite lifecycle_frame_fits by apply H.
  - cbn [stream_loop stream_events] in *. rewrite zlen_cons in Hu. pose proof (zlen_nonneg items).
    destruct (ev_status (stream_event item) <>? "partial") eqn:E;
      cbn [numbered] in *; apply Forall_cons in Hok as [H1 H2];
      rewrite lifecycle_frame_fits by apply H1; [done|].
    rewrite u64_add_small by lia. by rewrite IH by (done || lia).
Qed.

(** Partial events, then one terminal event. *)
Fixpoint events_wf (evs : list TcpStreamEvent) : bool :=
  match evs with
  | [] => false
  | [ev] => ev_status ev <>? "partial"
  | ev :: evs => (ev_status ev ==? "partial") && events_wf evs
  end.

Lemma events_wf_cons ev evs :
  events_wf (ev :: evs) = true <->
  if ev_status ev <>? "partial" then evs = [] else events_wf evs = true.
Proof.
  destruct evs as [|ev' evs]; simpl; destruct (ev_status ev ==? "partial"); simpl; naive_solver.
Qed.

Lemma stream_events_wf items : events_wf (stream_events items) = true.
Proof.
  induction items as [|item items IH]; cbn [stream_events]; [done|].
  destruct (ev_status (stream_event item) <>? "partial") eqn:E; apply events_wf_cons; by rewrite E.
Qed.

Lemma promised_events_wf g items : events_wf (promised_events g items) = true.
Proof. unfold promised_events. destruct (at_capacity g); [done|apply stream_events_wf]. Qed.

(** The frame of a sound event is accepted at its number. *)
Lemma accept_event sid cid tid n ev :
  0 <= n < u64_max -> event_ok sid cid tid (n, ev) ->
  accept (mkSequence sid cid tid n false) (event_frame sid cid tid n ev) =
    Ok (mkSequence sid cid tid (n + 1) (ev_status ev <>? "partial")).
Proof.
  intros Hn Hok. apply accept_ok. split; [done|]. split.
  - constructor; try done; [apply Hok|]. simpl.
    destruct (String.eqb_spec (ev_status ev) "partial"); simpl; naive_solver.
  - simpl. by rewrite u64_add_small by (unfold u64_max in *; lia).
Qed.

Lemma stream_receive_event c rq sid cid tid n ev rest :
  0 <= n < u64_max -> event_ok sid cid tid (n, ev) ->
  inbox c = event_image sid cid tid (n, ev) ++ rest ->
  stream_receive (mkStream c rq (mkSequence sid cid tid n false) true false) =
  Some (Ok (event_frame sid cid tid n ev),
        mkStream (with_inbox c rest) rq
          (mkSequence sid cid tid (n + 1) (ev_status ev <>? "partial")) true
          (ev_status ev <>? "partial")).
Proof.
  intros Hn Hok Hi. unfold stream_receive. cbn [st_client].
  rewrite (read_frame_image _ (msg_code Response) _ x00 rest (eo_fits _ _ _ _ Hok) eq_refl Hi).
  rewrite bool_decide_true by done. cbn [negb fst snd].
  unfold encode_lifecycle_response. rewrite decode_encode_cbor by apply Hok. cbn [map_err].
  rewrite decode_lifecycle_entries; [|unfold in_u64; lia|apply Hok].
  cbn [st_sequence]. by rewrite accept_event.
Qed.

Lemma stream_collect_events evs fuel c rq sid cid tid n :
  0 <= n -> n + zlen evs <= u64_max -> events_wf evs = true -> (length evs <= fuel)%nat ->
  Forall (event_ok sid cid tid) (numbered n evs) ->
  inbox c = concat (event_image sid cid tid <$> numbered n evs) ->
  stream_collect fuel (mkStream c rq (mkSequence sid cid tid n false) true false) =
  (fun x => Ok (event_frame sid cid tid x.1 x.2)) <$> numbered n evs.
Proof.
  revert fuel c n. induction evs as [|ev evs IH]; intros fuel c n Hn Hu Hwf Hfuel Hok Hi; [done|].
  destruct fuel as [|fuel]; [simpl in Hfuel; lia|].
  rewrite zlen_cons in Hu. pose proof (zlen_nonneg evs).
  cbn [numbered] in *. rewrite fmap_cons in Hi. cbn [concat] in Hi. rewrite fmap_cons.
  apply Forall_cons in Hok as [H1 H2]. cbn [stream_collect].
  unfold stream_next. cbn [finished started].
  assert (0 <= n < u64_max) as Hn' by lia.
  rewrite (stream_receive_event _ _ _ _ _ _ _ _ Hn' H1 Hi). f_equal.
  apply events_wf_cons in Hwf. destruct (ev_status ev <>? "partial") eqn:E.
  - subst evs. by rewrite stream_collect_finished.
  - apply IH; try done; try lia. simpl in Hfuel. lia.
Qed.

Lemma dispatch_stream s g h sid intent payload cid tid key :
  streaming_handler s = Some h -> utf8 sid = true -> utf8 intent = true -> utf8 cid = true ->
  utf8 tid = true -> is_none_or key utf8 = true ->
  json_plain JSON_RECURSION_LIMIT payload = true ->
  dispatch s (mkFrame FRAMING_VERSION (msg_code Call) x00
                (encode_cbor (CMap (stream_entries sid intent payload cid tid key)))) g =
  on_stream_call h sid cid (mkTask tid intent payload) g.
Proof.
  intros Hh Hs Hi Hc Ht Hk Hp. unfold dispatch. simpl. unfold on_call. cbn [Framing.payload].
  rewrite decode_encode_cbor.
  2: { apply plain_flat_map.
       destruct key; cbn [is_none_or stream_entries app forallb fst snd leaf_plain cbor_plain] in Hk |- *;
         by rewrite Hs, Hi, Hc, Ht, ?Hk. }
  assert (call_payload (CMap (stream_entries sid intent payload cid tid key)) = payload) as Hpay.
  { unfold call_payload. cbn -[json_to_vec utf8_bytes].
    by rewrite json_to_vec_utf8, json_from_to by done. }
  cbn [result_ok mbind option_bind]. rewrite Hpay, Hh. done.
Qed.

Lemma on_stream_call_images h sid cid task g :
  opt_gate_ok g -> zlen (h task) <= u64_max ->
  Forall (event_ok sid cid (task_id task)) (numbered 0 (promised_events g (h task))) ->
  on_stream_call h sid cid task g =
  mkOut (event_image sid cid (task_id task) <$> numbered 0 (promised_events g (h task))) g (Ok true).
Proof.
  intros Hg Hu Hok. unfold on_stream_call, promised_events, at_capacity in *.
  destruct g as [gate|].
  - destruct (acquire gate) as [held|e] eqn:E; pose proof E as E'; rewrite acquire_spec in E';
      destruct (max_concurrent gate <=? active gate); simplify_eq.
    + rewrite stream_loop_images by (done || lia). by rewrite (release_acquire gate _ Hg E).
    + cbn [numbered] in *. apply Forall_cons in Hok as [H1 _].
      by rewrite lifecycle_frame_fits by apply H1.
  - by rewrite stream_loop_images by (done || lia).
Qed.

(** C2: a consumer that polls a streaming call to its end receives exactly the
    events of the provider's handler up to its first terminal one, in order
    and numbered from 0: an error event stands for a stream without terminal
    event, and a single one for a refusal at capacity. *)
Theorem session_stream s g c h uuid intent payload task_id session_id call_id key fuel :
  let cid := default uuid call_id in
  let events := promised_events g (h (mkTask task_id intent payload)) in
  client_ready s g c -> streaming_handler s = Some h ->
  json_plain JSON_RECURSION_LIMIT payload = true ->
  utf8 session_id = true -> utf8 intent = true -> utf8 cid = true -> utf8 task_id = true ->
  is_none_or key utf8 = true ->
  fits (encode_cbor (CMap (stream_entries session_id intent payload cid task_id key))) ->
  zlen (h (mkTask task_id intent payload)) < u64_max ->
  Forall (event_ok session_id cid task_id) (numbered 0 events) ->
  (length events <= fuel)%nat ->
  stream_collect fuel (call_stream uuid c intent payload task_id session_id call_id key) =
  (fun x => Ok (event_frame session_id cid task_id x.1 x.2)) <$> numbered 0 events.
Proof.
  intros cid events [<- <- Ho Hi Hv Hp] Hh Hpl Hs Hin Hc Ht Hk Hf Hu Hok Hfuel.
  pose proof (promised_events_wf (sp_gate (sock c)) (h (mkTask task_id intent payload))) as Hwf.
  fold events in Hwf.
  assert (zlen events <= u64_max) as Hlen.
  { unfold events, promised_events. destruct (at_capacity _); [done|].
    clear -Hu. revert Hu. generalize (h (mkTask task_id intent payload)). intros items.
    enough (zlen (stream_events items) <= zlen items + 1) by lia.
    induction items as [|it items IH]; cbn [stream_events]; [done|]. rewrite zlen_cons.
    destruct (_ <>? _); [unfold zlen; simpl; lia|]. rewrite zlen_cons. lia. }
  pose proof Ho as (Hg & _).
  pose proof (dispatch_stream (sp_server (sock c)) (sp_gate (sock c)) h session_id intent payload cid
    task_id key Hh Hs Hin Hc Ht Hk Hpl) as Hd.
  rewrite on_stream_call_images in Hd by (done || lia).
  set (pl := encode_cbor _) in Hf, Hd.
  destruct (peer_write_frame (sock c) true (msg_code Call) pl x00 _ Ho Hf eq_refl eq_refl Hd) as [Hw _].
  destruct fuel as [|fuel].
  { exfalso. clearbody events. clear -Hwf Hfuel. destruct events; [done|simpl in Hfuel; lia]. }
  transitivity (stream_collect (S fuel) (mkStream
    (mkClient (mkPeer (sp_server (sock c)) (sp_gate (sock c)) (sp_timeout_ms (sock c))
                 (sp_received (sock c) ++ [frame_image (msg_code Call) pl x00]))
       (inbox c ++ concat (event_image session_id cid task_id <$> numbered 0 events))
       (peer_node_id c) (framing_version c)) None (sequence_new session_id cid task_id) true false)).
  - cbn [stream_collect]. unfold stream_next at 1, call_stream.
    cbn [finished started st_request st_client st_sequence].
    unfold require_handshake. rewrite bool_decide_true by done. cbn [rbind].
    rewrite client_frame_fits by done. fold cid. fold pl. by rewrite (write_all_ok _ c _ _ Hw).
  - apply stream_collect_events; try done. simpl. by rewrite Hi.
Qed.
End session.

(** ** Concrete native sessions

    A provider with an echoing handler, a streaming handler with two events and
    one slot, and the concrete codec of [CodecModel.v]. *)

Definition demo_stream (_ : TcpTask) : list (result TcpStreamEvent string) :=
  [Ok (mkEvent "partial" (Some (JString "a")) None None None None);
   Ok (mkEvent "success" (Some (JString "b")) None None (Some 2) None);
   Err "never sent"].

Definition demo_server : IicpTcpServer :=
  with_streaming_handler
    (with_handler (with_node_id (server_new "127.0.0.1" 9484) "n") (fun t => task_payload t)) demo_stream.
Definition demo_gate : option ConcurrencyGate := Some (mkGate 1 0).
Definition demo_client : IicpTcpClient server_peer :=
  client_connect (mkPeer demo_server demo_gate 10000 []).
Definition demo_init : list byte := frame_image (msg_code Init) init_payload x00.

Ltac small := unfold fits; vm_compute; discriminate.

Lemma demo_gate_ok : gate_ok (mkGate 1 0).
Proof. repeat split; vm_compute; discriminate. Defined.

Lemma connection_refines_frames_witness :
  handle_connection demo_server demo_gate [demo_init] =
  handle_connection demo_server demo_gate [take 3 demo_init; drop 3 demo_init].
Proof.
  apply (connection_refines_frames demo_server demo_gate [demo_init]
           [take 3 demo_init; drop 3 demo_init]).
  vm_compute. reflexivity.
Defined.

Lemma connection_restores_gate_witness :
  gate_after (handle_connection demo_server (Some (mkGate 1 0)) [demo_init; demo_init]) = Some (mkGate 1 0).
Proof.
  exact (connection_restores_gate demo_server (mkGate 1 0) [demo_init; demo_init] demo_gate_ok).
Defined.

Lemma connection_handshake_first_witness :
  exists f fs body, frames_of (delivered [demo_init]) = f :: fs /\ msg_type f = msg_code Init /\
    decode_cbor (payload f) = Ok body /\ framing_version_of body = Some FRAMING_VERSION /\
    frame_image (msg_code Ack) (encode_ack FRAMING_VERSION (Some "n")) x00 =
    frame_image (msg_code Ack) (encode_ack FRAMING_VERSION (Some "n")) x00.
Proof.
  apply (connection_handshake_first demo_server demo_gate [demo_init]
    (frame_image (msg_code Ack) (encode_ack FRAMING_VERSION (Some "n")) x00) []).
  vm_compute. reflexivity.
Defined.

Lemma client_requires_handshake_witness :
  ping None demo_client = (Err (EProtocol "native session handshake is not complete"), demo_client).
Proof.
  apply (client_requires_handshake demo_client None "i" JNull None "s").
  discriminate.
Defined.

Lemma session_handshake_witness :
  exists c, handshake demo_client = (Ok tt, c) /\ client_ready demo_server demo_gate c.
Proof.
  apply (session_handshake demo_server demo_gate 10000).
  - exact demo_gate_ok.
  - small.
  - small.
  - vm_compute. reflexivity.
Defined.

(** The session after the handshake. *)
Definition demo_ready : IicpTcpClient server_peer := (handshake demo_client).2.
Lemma demo_ready_ok : client_ready demo_server demo_gate demo_ready.
Proof.
  destruct (handshake_ready demo_server demo_gate 10000) as (c & E & Hc);
    [exact demo_gate_ok|small|small|vm_compute; reflexivity|].
  unfold demo_ready, demo_client. by rewrite E.
Qed.

Lemma session_ping_witness :
  exists c', ping (Some [x41]) demo_ready = (Ok (Some [x41]), c') /\ client_ready demo_server demo_gate c'.
Proof. apply (session_ping demo_server demo_gate demo_ready (Some [x41]) demo_ready_ok). small. Defined.

Lemma session_call_witness :
  exists c', call_with_session "i" (JString "x") (Some "c") "s" demo_ready = (Ok (JString "x"), c') /\
    client_ready demo_server demo_gate c'.
Proof.
  apply (session_call demo_server demo_gate demo_ready "i" (JString "x") (Some "c") "s" demo_ready_ok);
    try (vm_compute; reflexivity); try small.
  split; vm_compute; reflexivity.
Defined.

Lemma demo_event_ok sid cid tid n ev :
  zlen (encode_lifecycle_response sid cid tid n ev) <=? MAX_FRAME_PAYLOAD = true ->
  cbor_plain CBOR_RECURSION_LIMIT (CMap (lifecycle_entries sid cid tid n ev)) = true ->
  is_none_or (ev_result ev) json_native = true ->
  is_none_or (ev_tokens_used ev) (fun t => (0 <=? t) && (t <=? u64_max)) = true ->
  status_matches (ev_status ev) (default (default_event_name (ev_status ev)) (ev_event ev)) = true ->
  event_ok sid cid tid (n, ev).
Proof.
  intros Hf Hp Hr Ht Hn. constructor; try done.
  - by apply Z.leb_le.
  - split.
    + intros r E. simpl in E. rewrite E in Hr. done.
    + intros t E. simpl in E. rewrite E in Ht. simpl in Ht. apply andb_true_iff in Ht. unfold in_u64. lia.
Qed.

Lemma session_stream_witness :
  stream_collect 5 (call_stream "u" demo_ready "i" JNull "t" "s" (Some "c") None) =
  [Ok (event_frame "s" "c" "t" 0 (mkEvent "partial" (Some (JString "a")) None None None None));
   Ok (event_frame "s" "c" "t" 1 (mkEvent "success" (Some (JString "b")) None None (Some 2) None))].
Proof.
  eapply eq_trans; [eapply (session_stream demo_server demo_gate demo_ready demo_stream "u" "i" JNull "t" "s"
                              (Some "c") None 5 demo_ready_ok)|].
  1-7: vm_compute; reflexivity.
  - small.
  - vm_compute. reflexivity.
  - apply Forall_cons; split; [apply demo_event_ok; vm_compute; reflexivity|].
    apply Forall_cons; split; [apply demo_event_ok; vm_compute; reflexivity|]. constructor.
  - vm_compute. lia.
  - vm_compute. reflexivity.
Defined.

Lemma client_stream_complete_witness :
  exists fs, stream_collect 5 (call_stream "u" demo_ready "i" JNull "t" "s" (Some "c") None) = Ok <$> fs /\
    complete_stream "s" "c" "t" 0 fs.
Proof.
  apply (client_stream_complete 5 "u" demo_ready "i" JNull "t" "s" (Some "c") None).
  - vm_compute. lia.
  - vm_compute. discriminate.
  - intros e H. vm_compute in H. repeat (apply elem_of_cons in H as [H|H]; [discriminate H|]).
    by apply elem_of_nil in H.
Defined.
