(* ===== verification/Lifecycle.v ===== *)
(** * The service-lifecycle profile ([src/service_lifecycle.rs])

    The backend cancellation registry, the bounded observer buffer and the
    in-memory lifecycle store.  The clock [now_ms] is an argument of the
    operations that read it.  Each store operation holds the store's lock for
    its whole body, so an operation is one step of the state; [cancel] and
    [events_after] are the compositions the code makes of them. *)

From S2P Require Import Prelude Text Json.

Definition PROFILE : string := "urn:iicp:profile:service-lifecycle:v1".

Record LifecycleEvent := mkLEvent {
  le_task_id : string;
  le_sequence : Z;
  le_state : string;
  le_is_final : bool;
  observed_at_ms : Z;
  detail : json
}.

Record LifecycleRecord := mkLRecord {
  lr_task_id : string;
  idempotency_key : string;
  request_digest : string;
  lr_state : string;
  events : list LifecycleEvent;
  updated_at_ms : Z
}.

Record LifecycleSnapshot := mkSnapshot { snap_profile : string; snap_records : list LifecycleRecord }.

Definition latest_sequence (r : LifecycleRecord) : Z :=
  match last (events r) with Some e => le_sequence e | None => 0 end.

Inductive LifecycleError :=
| Conflict (message : string)
| UnknownTask
| ResumeUnavailable (state : string) (latest_sequence : Z)
| Storage (message : string).

Definition terminal (state : string) : bool :=
  str_in state ["rejected"; "completed"; "failed"; "cancelled"; "expired"].

Definition legal_transition (from to : string) : bool :=
  if from ==? "submitted" then str_in to ["accepted"; "rejected"; "expired"]
  else if from ==? "accepted" then
    str_in to ["queued"; "running"; "completed"; "cancelled"; "failed"; "expired"]
  else if from ==? "queued" then str_in to ["running"; "waiting"; "cancelled"; "failed"; "expired"]
  else if from ==? "running" then
    str_in to ["waiting"; "streaming"; "completed"; "cancelled"; "failed"; "expired"]
  else if from ==? "waiting" then str_in to ["queued"; "running"; "cancelled"; "failed"; "expired"]
  else if from ==? "streaming" then
    str_in to ["streaming"; "waiting"; "completed"; "cancelled"; "failed"; "expired"]
  else false.

(** ** Backend cancellation *)

Module Cancellation.

Record BackendCancellationEvidence := mkEvidence {
  ev_task_id : string;
  ev_outcome : string;
  cleanup_complete : bool
}.

(** A handler is what calling it answers; [signalled] and [evidence] as in
    the code, [evidence_order] oldest first. *)
Record registry := mkCancelRegistry {
  handlers : gmap string bool;
  signalled : gset string;
  evidence : gmap string BackendCancellationEvidence;
  evidence_order : list string
}.
Definition registry_new : registry := mkCancelRegistry ∅ ∅ ∅ [].

Definition register (r : registry) (task_id : string) (handler : bool) : registry :=
  mkCancelRegistry (<[task_id := handler]> (handlers r)) (signalled r ∖ {[task_id]})
    (evidence r) (evidence_order r).

Definition EVIDENCE_LIMIT : nat := 256.

Definition remember (r : registry) (e : BackendCancellationEvidence) : registry :=
  let '(values, order) :=
    if bool_decide (is_Some (evidence r !! ev_task_id e)) then (evidence r, evidence_order r)
    else
      let '(values, order) :=
        if bool_decide (EVIDENCE_LIMIT <= length (evidence_order r))%nat then
          match evidence_order r with
          | oldest :: order => (delete oldest (evidence r), order)
          | [] => (evidence r, [])
          end
        else (evidence r, evidence_order r) in
      (values, order ++ [ev_task_id e]) in
  mkCancelRegistry (handlers r) (signalled r) (<[ev_task_id e := e]> values) order.

Definition KNOWN_OUTCOMES : list string :=
  ["cancel_requested"; "transport_aborted"; "backend_acknowledged"; "execution_stopped";
   "cancel_unsupported"; "already_terminal"].

Definition report (r : registry) (task_id outcome : string)
    : result BackendCancellationEvidence string * registry :=
  if negb (str_in outcome KNOWN_OUTCOMES) then (Err ("unsupported cancellation evidence: " +:+ outcome), r)
  else
    let cleanup := is_some_and (evidence r !! task_id) cleanup_complete in
    let e := mkEvidence task_id outcome cleanup in
    (Ok e, remember r e).

Definition complete_with_outcome (r : registry) (task_id : string) (outcome : option string)
    : BackendCancellationEvidence * registry :=
  let r := mkCancelRegistry (delete task_id (handlers r)) (signalled r ∖ {[task_id]})
             (evidence r) (evidence_order r) in
  let current := evidence r !! task_id in
  let e := mkEvidence task_id
             (default "cancel_unsupported" (option_or outcome (ev_outcome <$> current))) true in
  if negb (is_some current) && negb (is_some outcome) then (e, r)
  else (e, remember r e).

Definition complete (r : registry) (task_id : string) : registry :=
  (complete_with_outcome r task_id None).2.

(** The answer, whether a handler was called, and the registry. *)
Definition request (r : registry) (task_id state : string) : string * bool * registry :=
  if terminal state
  then ("already_terminal", false, (complete_with_outcome r task_id (Some "already_terminal")).2)
  else if bool_decide (task_id ∈ signalled r) then ("cancel_signalled", false, r)
  else match handlers r !! task_id with
       | None => ("cancel_unsupported", false,
                  (complete_with_outcome r task_id (Some "cancel_unsupported")).2)
       | Some false => ("cancel_unsupported", true,
                  (complete_with_outcome r task_id (Some "cancel_unsupported")).2)
       | Some true =>
           let r := mkCancelRegistry (handlers r) ({[task_id]} ∪ signalled r) (evidence r) (evidence_order r) in
           ("cancel_signalled", true, (report r task_id "cancel_requested").2)
       end.

(** The registry's own consistency: at most 256 pieces of evidence, each in
    the eviction queue once, and only registered tasks are signalled. *)
Record registry_ok (r : registry) : Prop := {
  ro_bound : (length (evidence_order r) <= EVIDENCE_LIMIT)%nat;
  ro_nodup : NoDup (evidence_order r);
  ro_dom : forall t, t ∈ evidence_order r <-> is_Some (evidence r !! t);
  ro_task : forall t e, evidence r !! t = Some e -> ev_task_id e = t;
  ro_signalled : forall t, t ∈ signalled r -> is_Some (handlers r !! t)
}.

Inductive registry_op :=
| Register (task_id : string) (handler : bool)
| Complete (task_id : string)
| CompleteWith (task_id outcome : string)
| Report (task_id outcome : string)
| Request (task_id state : string).

Definition run_op (r : registry) (o : registry_op) : registry :=
  match o with
  | Register t h => register r t h
  | Complete t => complete r t
  | CompleteWith t out => (complete_with_outcome r t (Some out)).2
  | Report t out => (report r t out).2
  | Request t s => (request r t s).2
  end.

Lemma remember_ok r e : registry_ok r -> registry_ok (remember r e).
Proof.
  intros [Hb Hn Hd Ht Hs]. unfold remember.
  destruct (bool_decide_reflect (is_Some (evidence r !! ev_task_id e))) as [Hin|Hout].
  - constructor; simpl; try done.
    + intros t. rewrite Hd. destruct (decide (t = ev_task_id e)) as [->|].
      * rewrite lookup_insert_eq. naive_solver.
      * by rewrite lookup_insert_ne.
    + intros t e' H. apply lookup_insert_Some in H as [[]|[]]; naive_solver.
  - assert (ev_task_id e ∉ evidence_order r) as Hnin by (by rewrite Hd).
    destruct (bool_decide_reflect (EVIDENCE_LIMIT <= length (evidence_order r))%nat) as [Hfull|Hroom].
    + destruct (evidence_order r) as [|oldest order] eqn:Eo; [unfold EVIDENCE_LIMIT in Hfull; simpl in Hfull; lia|].
      apply NoDup_cons in Hn as [Hno Hn]. constructor; simpl; try done.
      * rewrite length_app. simpl in *. lia.
      * apply NoDup_app. split; [done|]. split; [|apply NoDup_singleton].
        intros x Hx ->%list_elem_of_singleton. set_solver.
      * intros t. rewrite elem_of_app, list_elem_of_singleton.
        destruct (decide (t = ev_task_id e)) as [->|Hne].
        -- rewrite lookup_insert_eq. naive_solver.
        -- rewrite lookup_insert_ne by done. destruct (decide (t = oldest)) as [->|].
           ++ rewrite lookup_delete_eq. split; [naive_solver|]. by intros [? [=]].
           ++ rewrite lookup_delete_ne, <- Hd by done. set_solver.
      * intros t e' [[<- <-]|[_ H%lookup_delete_Some]]%lookup_insert_Some; naive_solver.
    + constructor; simpl; try done.
      * rewrite length_app. simpl. lia.
      * apply NoDup_app. split; [done|]. split; [|apply NoDup_singleton].
        intros x Hx ->%list_elem_of_singleton. done.
      * intros t. rewrite elem_of_app, list_elem_of_singleton, Hd.
        destruct (decide (t = ev_task_id e)) as [->|Hne].
        -- rewrite lookup_insert_eq. naive_solver.
        -- rewrite lookup_insert_ne by done. naive_solver.
      * intros t e' [[<- <-]|[_ H]]%lookup_insert_Some; naive_solver.
Qed.

Lemma report_ok r t out : registry_ok r -> registry_ok (report r t out).2.
Proof. intros H. unfold report. destruct (negb _); simpl; [done|by apply remember_ok]. Qed.

Lemma complete_ok r t out : registry_ok r -> registry_ok (complete_with_outcome r t out).2.
Proof.
  intros [Hb Hn Hd Ht Hs]. unfold complete_with_outcome. simpl.
  assert (registry_ok (mkCancelRegistry (delete t (handlers r)) (signalled r ∖ {[t]})
            (evidence r) (evidence_order r))) as Hr.
  { constructor; simpl; try done. intros t' [Hin Hne]%elem_of_difference.
    rewrite lookup_delete_ne by set_solver. by apply Hs. }
  destruct (_ && _); [done|by apply remember_ok].
Qed.

Lemma request_ok r t s : registry_ok r -> registry_ok (request r t s).2.
Proof.
  intros H. unfold request. destruct (terminal s); [by apply complete_ok|].
  case_bool_decide; [done|]. destruct (handlers r !! t) as [[]|] eqn:E; [|by apply complete_ok|by apply complete_ok].
  apply report_ok. destruct H as [Hb Hn Hd Ht Hs]. constructor; simpl; try done.
  intros t' [->%elem_of_singleton|Hin]%elem_of_union; [by rewrite E|by apply Hs].
Qed.

Lemma run_op_ok r o : registry_ok r -> registry_ok (run_op r o).
Proof.
  intros H. destruct o; simpl; auto using complete_ok, report_ok, request_ok.
  - destruct H as [Hb Hn Hd Ht Hs]. constructor; simpl; try done.
    intros t' [Hin Hne]%elem_of_difference. rewrite lookup_insert_ne by set_solver. by apply Hs.
  - by apply complete_ok.
Qed.

Lemma registry_new_ok : registry_ok registry_new.
Proof.
  split; simpl; [lia|constructor| | |set_solver].
  - intros t. rewrite lookup_empty. split; [by intros ?%elem_of_nil|by intros [? [=]]].
  - intros t e. by rewrite lookup_empty.
Qed.

Lemma run_ops_ok r ops : registry_ok r -> registry_ok (foldl run_op r ops).
Proof. revert r. induction ops; simpl; auto using run_op_ok. Qed.

(** Whatever operations a registry has seen, it holds evidence for at most
    256 tasks, its eviction queue lists exactly the tasks with evidence and
    each once, and a signalled task still has its handler registered. *)
Theorem cancellation_evidence_bounded ops :
  let r := foldl run_op registry_new ops in
  (size (evidence r) <= EVIDENCE_LIMIT)%nat /\ registry_ok r.
Proof.
  intros r. assert (registry_ok r) as H by apply run_ops_ok, registry_new_ok. split; [|done].
  destruct H as [Hb Hn Hd _ _].
  assert (dom (evidence r) = list_to_set (evidence_order r) :> gset string) as E.
  { apply set_eq. intros t. rewrite elem_of_dom, elem_of_list_to_set, Hd. done. }
  rewrite <- size_dom, E. by rewrite size_list_to_set.
Qed.

Lemma signalled_remember r e : signalled (remember r e) = signalled r.
Proof. unfold remember. by repeat (case_match; simpl). Qed.

Lemma signalled_complete r t t' out :
  t' <> t -> t ∈ signalled r -> t ∈ signalled (complete_with_outcome r t' out).2.
Proof.
  intros. unfold complete_with_outcome. destruct (_ && _); simpl; [|rewrite signalled_remember];
    simpl; set_solver.
Qed.

(** After a cancellation has been signalled, the backend's handler is not
    called again for that task, however often the cancellation is requested
    and whatever happens to other tasks, until the task is registered again or
    completed. *)
Theorem cancellation_signalled_once r t state ops state' :
  (request r t state).1 = ("cancel_signalled", true) ->
  Forall (fun o => match o with
                   | Register t' _ | Complete t' | CompleteWith t' _ => t' <> t
                   | Report _ _ => True
                   | Request t' s => t' = t -> terminal s = false
                   end) ops ->
  terminal state' = false ->
  (request (foldl run_op (request r t state).2 ops) t state').1 = ("cancel_signalled", false).
Proof.
  intros Hreq Hops Hs'.
  assert (t ∈ signalled (request r t state).2) as Hin.
  { revert Hreq. unfold request. destruct (terminal state); [done|].
    case_bool_decide; [done|]. destruct (handlers r !! t) as [[]|]; try done. intros _. simpl.
    rewrite signalled_remember. simpl. set_solver. }
  clear Hreq. revert Hin. generalize (request r t state).2. clear r.
  induction Hops as [|o ops Ho _ IH]; intros r Hin; simpl.
  - unfold request. rewrite Hs'. by rewrite bool_decide_true.
  - apply IH. clear IH.
    destruct o as [t' h|t'|t' out|t' out|t' s]; simpl in *; try (by apply signalled_complete).
    + set_solver.
    + unfold report. destruct (negb _); simpl; [done|]. by rewrite signalled_remember.
    + unfold request. destruct (terminal s) eqn:Es.
      * apply signalled_complete; [|done]. intros E. specialize (Ho E). congruence.
      * case_bool_decide as Hb; [done|]. assert (t' <> t) by (intros ->; done).
        destruct (handlers r !! t') as [[]|]; try (by apply signalled_complete).
        unfold report. simpl. rewrite signalled_remember. simpl. set_solver.
Qed.

Lemma cancellation_signalled_once_witness :
  (request (foldl run_op (request (register registry_new "t" true) "t" "running").2
     [Register "u" false; Request "t" "running"]) "t" "running").1 = ("cancel_signalled", false).
Proof.
  apply (cancellation_signalled_once (register registry_new "t" true) "t" "running"
           [Register "u" false; Request "t" "running"] "running").
  - vm_compute. reflexivity.
  - apply Forall_cons; split; [discriminate|]. apply Forall_cons; split; [reflexivity|]. by apply Forall_nil.
  - reflexivity.
Defined.
End Cancellation.

(** ** The bounded observer buffer *)

Module Observers.

Record ObserverLagged := mkLagged { earliest_available : Z; lag_latest_sequence : Z }.

Record buffer := mkBuffer {
  buffered : list LifecycleEvent;
  observers : gset string;
  closed : bool;
  capacity : Z;
  max_observers : Z
}.

Definition buffer_new (capacity max_observers : Z) : buffer :=
  mkBuffer [] ∅ false (Z.max capacity 1) (Z.max max_observers 1).

Definition observer_count (b : buffer) : Z := Z.of_nat (size (observers b)).
Definition is_closed (b : buffer) : bool := closed b.

Definition subscribe (b : buffer) (observer_id : string) : result buffer LifecycleError :=
  if negb (bool_decide (observer_id ∈ observers b)) && (max_observers b <=? observer_count b)
  then Err (Conflict "observer capacity exhausted")
  else Ok (mkBuffer (buffered b) ({[observer_id]} ∪ observers b) (closed b) (capacity b) (max_observers b)).

Definition disconnect (b : buffer) (observer_id : string) : buffer :=
  mkBuffer (buffered b) (observers b ∖ {[observer_id]}) (closed b) (capacity b) (max_observers b).

(** [while events.len() > capacity { events.pop_front() }] *)
Fixpoint pop_to (fuel : nat) (capacity : Z) (l : list LifecycleEvent) : list LifecycleEvent :=
  match fuel, l with
  | S fuel, _ :: l' => if capacity <? zlen l then pop_to fuel capacity l' else l
  | _, _ => l
  end.

Definition publish (b : buffer) (e : LifecycleEvent) : result buffer LifecycleError :=
  if is_some_and (last (buffered b)) (fun l => le_sequence e <=? le_sequence l)
  then Err (Conflict "observer sequence must increase")
  else
    let evs := buffered b ++ [e] in
    Ok (mkBuffer (pop_to (length evs) (capacity b) evs) (observers b) (le_is_final e)
          (capacity b) (max_observers b)).

Definition poll (b : buffer) (after_sequence : Z) : result (list LifecycleEvent) ObserverLagged :=
  match head (buffered b), last (buffered b) with
  | Some first, Some last =>
      if u64_sat_add after_sequence 1 <? le_sequence first
      then Err (mkLagged (le_sequence first) (le_sequence last))
      else Ok (List.filter (fun e => after_sequence <? le_sequence e) (buffered b))
  | _, _ => Ok (List.filter (fun e => after_sequence <? le_sequence e) (buffered b))
  end.

(** A run of publications and subscriptions; [published] collects the events
    that were accepted, in order. *)
Inductive observer_op :=
| Subscribe (observer_id : string)
| Disconnect (observer_id : string)
| Publish (e : LifecycleEvent).

Definition run_observer (s : buffer * list LifecycleEvent) (o : observer_op)
    : buffer * list LifecycleEvent :=
  match o with
  | Subscribe i => match subscribe s.1 i with Ok b => (b, s.2) | Err _ => s end
  | Disconnect i => (disconnect s.1 i, s.2)
  | Publish e => match publish s.1 e with Ok b => (b, s.2 ++ [e]) | Err _ => s end
  end.

Lemma pop_to_spec fuel cap l :
  1 <= cap -> (length l <= fuel)%nat ->
  exists dropped, l = dropped ++ pop_to fuel cap l /\ zlen (pop_to fuel cap l) <= cap /\
    (pop_to fuel cap l = [] -> l = []).
Proof.
  intros Hc. revert l. induction fuel as [|fuel IH]; intros l Hl.
  - destruct l; [|simpl in Hl; lia]. exists []. split; [done|]. split; [unfold zlen; simpl; lia|done].
  - destruct l as [|e l]; [exists []; split; [done|]; split; [unfold zlen; simpl; lia|done]|].
    cbn [pop_to]. destruct (Z.ltb_spec cap (zlen (e :: l))) as [Hlt|Hge].
    + destruct (IH l) as (d & E & Hz & Hn); [simpl in Hl; lia|].
      exists (e :: d). split; [simpl; congruence|]. split; [done|].
      intros En. specialize (Hn En). subst l. unfold zlen in Hlt. simpl in Hlt. lia.
    + exists []. done.
Qed.

(** The events kept are the newest of the events published, which are in
    increasing order. *)
Record buffer_ok (s : buffer * list LifecycleEvent) : Prop := {
  bo_capacity : 1 <= capacity s.1;
  bo_bound : zlen (buffered s.1) <= capacity s.1;
  bo_suffix : exists dropped, s.2 = dropped ++ buffered s.1 /\ (buffered s.1 = [] -> dropped = []);
  bo_sorted : forall i j ei ej, s.2 !! i = Some ei -> s.2 !! j = Some ej -> (i < j)%nat ->
    le_sequence ei < le_sequence ej;
  bo_max : 1 <= max_observers s.1;
  bo_observers : observer_count s.1 <= max_observers s.1
}.

Lemma last_app_r {A} (l k : list A) : k <> [] -> last (l ++ k) = last k.
Proof. intros H. destruct (exists_last H) as (k' & x & ->). by rewrite app_assoc, !last_snoc. Qed.

Lemma run_observer_ok s o : buffer_ok s -> buffer_ok (run_observer s o).
Proof.
  intros Hok. destruct o as [i|i|e]; simpl.
  - unfold subscribe. destruct (_ && _) eqn:E; [done|]. destruct Hok as [Hc Hb Hs Ho Hm Hn].
    constructor; simpl; try done. unfold observer_count in *. simpl.
    destruct (bool_decide_reflect (i ∈ observers s.1)) as [Hi|Hi].
    + replace ({[i]} ∪ observers s.1) with (observers s.1) by set_solver. done.
    + simpl in E. apply Z.leb_gt in E. rewrite size_union by set_solver.
      rewrite size_singleton. lia.
  - destruct Hok as [Hc Hb Hs Ho Hm Hn]. constructor; simpl; try done.
    unfold observer_count in *. simpl.
    assert (size (observers s.1 ∖ {[i]}) <= size (observers s.1))%nat by (apply subseteq_size; set_solver).
    lia.
  - unfold publish. destruct (is_some_and _ _) eqn:E; [done|].
    destruct Hok as [Hc Hb (d & Hd & Hdn) Ho Hm Hn].
    destruct (pop_to_spec (length (buffered s.1 ++ [e])) (capacity s.1) (buffered s.1 ++ [e]))
      as (d' & Hd' & Hz & Hne); [done|done|].
    constructor; cbn [fst snd buffered capacity observers max_observers]; try done.
    + exists (d ++ d'). rewrite Hd, <- !app_assoc. split; [by rewrite <- Hd'|].
      intros En. specialize (Hne En). destruct (buffered s.1); done.
    + intros i j ei ej Hi Hj Hij.
      assert (j <= length s.2)%nat as Hjl.
      { apply lookup_lt_Some in Hj. rewrite length_app in Hj. simpl in Hj. lia. }
      assert (s.2 !! i = Some ei) as Hi' by (rewrite lookup_app_l in Hi by lia; done).
      destruct (decide (j = length s.2)) as [->|].
      2: { rewrite lookup_app_l in Hj by lia. eauto. }
      rewrite list_lookup_middle in Hj by done. simplify_eq.
      destruct (last (buffered s.1)) as [l|] eqn:El.
      * simpl in E. apply Z.leb_gt in E.
        assert (last s.2 = Some l) as Hl.
        { rewrite Hd, last_app_r; [done|]. by intros En; rewrite En in El. }
        rewrite last_lookup in Hl. destruct (decide (i = pred (length s.2))) as [->|]; [congruence|].
        assert (le_sequence ei < le_sequence l) by (eapply Ho; [done|done|lia]). lia.
      * apply last_None in El. rewrite Hd, El, Hdn in Hi' by done. done.
Qed.

Lemma run_observers_ok s ops : buffer_ok s -> buffer_ok (foldl run_observer s ops).
Proof. revert s. induction ops; simpl; auto using run_observer_ok. Qed.

Lemma filter_none {A} (p : A -> bool) l : Forall (fun x => p x = false) l -> List.filter p l = [].
Proof. induction 1 as [|x l Hx _ IH]; simpl; [done|]. by rewrite Hx. Qed.

Lemma filter_app' {A} (p : A -> bool) l k : List.filter p (l ++ k) = List.filter p l ++ List.filter p k.
Proof. apply List.filter_app. Qed.

(** An observer never silently misses an event: a poll either returns
    exactly the published events after the given sequence number, in order, or
    reports that the observer has fallen behind; and the buffer and the set of
    observers stay within their bounds. *)
Theorem observer_poll_complete cap maxo ops after :
  let s := foldl run_observer (buffer_new cap maxo, []) ops in
  (poll s.1 after = Ok (List.filter (fun e => after <? le_sequence e) s.2) \/
   exists lag, poll s.1 after = Err lag) /\
  zlen (buffered s.1) <= capacity s.1 /\ observer_count s.1 <= max_observers s.1.
Proof.
  intros s. assert (buffer_ok s) as [Hc Hb (d & Hd & Hdn) Ho Hm Hn].
  { apply run_observers_ok. constructor; simpl; try lia; try done.
    - unfold zlen. simpl. lia.
    - by exists [].
    - unfold observer_count. cbn [observers buffer_new]. rewrite size_empty. lia. }
  split; [|done]. unfold poll.
  destruct (buffered s.1) as [|first rest] eqn:Eb.
  { left. rewrite Hd, Hdn by done. done. }
  cbn [head]. destruct (last (first :: rest)) as [l|] eqn:El; [|by apply last_None in El].
  destruct (Z.ltb_spec (u64_sat_add after 1) (le_sequence first)) as [Hlt|Hge]; [eauto|].
  left. rewrite Hd, filter_app', (filter_none _ d); [done|].
  apply Forall_forall. intros x Hx. apply Z.ltb_ge.
  apply list_elem_of_lookup in Hx as [i Hi].
  assert (le_sequence x < le_sequence first).
  { apply (Ho i (length d)).
    - rewrite Hd. by apply lookup_app_l_Some.
    - rewrite Hd. by rewrite list_lookup_middle.
    - by apply lookup_lt_Some in Hi. }
  unfold u64_sat_add in Hge. lia.
Qed.
End Observers.
