(* ===== verification/LifecycleStore.v ===== *)
(** * The in-memory lifecycle store ([src/service_lifecycle.rs])

    [LifecycleStore] and the storage port [LifecyclePersistence] it
    implements.  The records are a finite map; every reading of the clock is
    an argument, so [cancel], which reads it three times, takes three. *)

From S2P Require Import Prelude Text Json Lifecycle.

(** ** The storage port *)

(** [LifecyclePersistence]: the operations the HTTP binding is written
    against; an implementation passes its storage along. *)
Class LifecyclePersistence (S : Type) := {
  p_submit : S -> string -> string -> string -> Z -> result (LifecycleRecord * bool) LifecycleError * S;
  p_status : S -> string -> Z -> result LifecycleRecord LifecycleError * S;
  p_transition : S -> string -> string -> json -> Z -> result LifecycleEvent LifecycleError * S;
  p_cancel : S -> string -> Z * Z * Z -> result LifecycleRecord LifecycleError * S;
  p_events_after : S -> string -> Z -> Z -> result (list LifecycleEvent) LifecycleError * S
}.

(** ** The store *)

Record LifecycleStore := mkStore {
  records : gmap string LifecycleRecord;
  max_events : Z;
  terminal_status_ttl_ms : Z
}.

Definition store_new (max_events terminal_status_ttl_ms : Z) : LifecycleStore :=
  mkStore ∅ (Z.max max_events 2) terminal_status_ttl_ms.

Definition set_records (st : LifecycleStore) (m : gmap string LifecycleRecord) : LifecycleStore :=
  mkStore m (max_events st) (terminal_status_ttl_ms st).

Definition key_in_use (m : gmap string LifecycleRecord) (key : string) : bool :=
  existsb (fun kr => idempotency_key kr.2 ==? key) (map_to_list m).

Definition accepted_record (task_id key digest : string) (now : Z) : LifecycleRecord :=
  mkLRecord task_id key digest "accepted" [mkLEvent task_id 0 "accepted" false now JNull] now.

Definition submit (st : LifecycleStore) (task_id key digest : string) (now : Z)
    : result (LifecycleRecord * bool) LifecycleError * LifecycleStore :=
  match records st !! task_id with
  | Some existing =>
      if (idempotency_key existing <>? key) || (request_digest existing <>? digest)
      then (Err (Conflict "task or idempotency identifier reused for different content"), st)
      else (Ok (existing, false), st)
  | None =>
      if key_in_use (records st) key
      then (Err (Conflict "idempotency identifier reused with a different task identifier"), st)
      else
        let record := accepted_record task_id key digest now in
        (Ok (record, true), set_records st (<[task_id := record]> (records st)))
  end.

Definition expired (st : LifecycleStore) (r : LifecycleRecord) (now : Z) : bool :=
  terminal (lr_state r) && (terminal_status_ttl_ms st <? u64_sat_sub now (updated_at_ms r)).

Definition status (st : LifecycleStore) (task_id : string) (now : Z)
    : result LifecycleRecord LifecycleError * LifecycleStore :=
  let st := if is_some_and (records st !! task_id) (fun r => expired st r now)
            then set_records st (delete task_id (records st)) else st in
  (ok_or (records st !! task_id) UnknownTask, st).

Definition resolve_state (requested : string) : string :=
  if requested ==? "timed_out" then "expired" else requested.

(** [record.events.drain(0..excess)] *)
Definition keep_newest (max : Z) (l : list LifecycleEvent) : list LifecycleEvent :=
  if max <? zlen l then drop (Z.to_nat (zlen l - max)) l else l.

Definition transition (st : LifecycleStore) (task_id requested_state : string) (detail : json) (now : Z)
    : result LifecycleEvent LifecycleError * LifecycleStore :=
  match records st !! task_id with
  | None => (Err UnknownTask, st)
  | Some record =>
      let state := resolve_state requested_state in
      if negb (legal_transition (lr_state record) state)
      then (Err (Conflict ("illegal transition " +:+ lr_state record +:+ " -> " +:+ state)), st)
      else
        let event := mkLEvent task_id (u64_add (latest_sequence record) 1) state (terminal state) now detail in
        let record' :=
          mkLRecord (lr_task_id record) (idempotency_key record) (request_digest record) state
            (keep_newest (max_events st) (events record ++ [event])) now in
        (Ok event, set_records st (<[task_id := record']> (records st)))
  end.

Definition cancel_detail : json := mk_obj [("outcome", JString "cancelled")].

Definition cancel (st : LifecycleStore) (task_id : string) (clock : Z * Z * Z)
    : result LifecycleRecord LifecycleError * LifecycleStore :=
  let '(now1, now2, now3) := clock in
  match status st task_id now1 with
  | (Err e, st) => (Err e, st)
  | (Ok current, st) =>
      if terminal (lr_state current) then status st task_id now3
      else match transition st task_id "cancelled" cancel_detail now2 with
           | (Err e, st) => (Err e, st)
           | (Ok _, st) => status st task_id now3
           end
  end.

(** The part of [events_after] below the status lookup. *)
Definition events_of (record : LifecycleRecord) (after_sequence : Z)
    : result (list LifecycleEvent) LifecycleError :=
  let first := match head (events record) with Some e => le_sequence e | None => 0 end in
  if (0 <=? after_sequence) && (u64_sat_add after_sequence 1 <? first)
  then Err (ResumeUnavailable (lr_state record) (latest_sequence record))
  else Ok (List.filter (fun e => after_sequence <? u64_as_i64 (le_sequence e)) (events record)).

Definition events_after (st : LifecycleStore) (task_id : string) (after_sequence now : Z)
    : result (list LifecycleEvent) LifecycleError * LifecycleStore :=
  match status st task_id now with
  | (Err e, st) => (Err e, st)
  | (Ok record, st) => (events_of record after_sequence, st)
  end.

Definition events_after_bounded (st : LifecycleStore) (task_id : string) (after_sequence limit now : Z)
    : result (list LifecycleEvent) LifecycleError * LifecycleStore :=
  match events_after st task_id after_sequence now with
  | (Err e, st) => (Err e, st)
  | (Ok evs, st) => (Ok (take (Z.to_nat (Z.max limit 1)) evs), st)
  end.

Definition snapshot (st : LifecycleStore) : LifecycleSnapshot :=
  mkSnapshot PROFILE (snd <$> map_to_list (records st)).

Definition snapshot_record_valid (r : LifecycleRecord) : bool :=
  match events r with
  | [] => false
  | e0 :: _ =>
      forallb (fun ie => le_sequence ie.2 =? u64_add (le_sequence e0) (Z.of_nat ie.1))
        (imap pair (events r))
  end.

Fixpoint restore_records (rs : list LifecycleRecord) (m : gmap string LifecycleRecord)
    : result (gmap string LifecycleRecord) LifecycleError :=
  match rs with
  | [] => Ok m
  | r :: rs =>
      if negb (snapshot_record_valid r) then Err (Conflict "invalid lifecycle snapshot sequence")
      else restore_records rs (<[lr_task_id r := r]> m)
  end.

Definition restore (st : LifecycleStore) (snap : LifecycleSnapshot)
    : result unit LifecycleError * LifecycleStore :=
  if snap_profile snap <>? PROFILE
  then (Err (Conflict "unsupported lifecycle snapshot profile"), st)
  else match restore_records (snap_records snap) ∅ with
       | Err e => (Err e, st)
       | Ok m => (Ok tt, set_records st m)
       end.

#[export] Instance store_persistence : LifecyclePersistence LifecycleStore := {|
  p_submit := submit;
  p_status := status;
  p_transition := transition;
  p_cancel := cancel;
  p_events_after := events_after
|}.

(** ** Runs *)

Inductive lifecycle_op :=
| OSubmit (task_id key digest : string) (now : Z)
| OStatus (task_id : string) (now : Z)
| OTransition (task_id state : string) (detail : json) (now : Z)
| OCancel (task_id : string) (clock : Z * Z * Z)
| OEventsAfter (task_id : string) (after now : Z).

(** An operation through the port, its result forgotten. *)
Definition port_step {S} `{LifecyclePersistence S} (s : S) (o : lifecycle_op) : S :=
  match o with
  | OSubmit t k d now => (p_submit s t k d now).2
  | OStatus t now => (p_status s t now).2
  | OTransition t st d now => (p_transition s t st d now).2
  | OCancel t c => (p_cancel s t c).2
  | OEventsAfter t a now => (p_events_after s t a now).2
  end.
Definition port_run {S} `{LifecyclePersistence S} (s : S) (ops : list lifecycle_op) : S :=
  foldl port_step s ops.

(** ** The invariant *)

(** States a record of the store can be in. *)
Definition known_state (s : string) : bool :=
  str_in s ["accepted"; "queued"; "running"; "waiting"; "streaming";
            "completed"; "cancelled"; "failed"; "expired"].

(** The retained log of a task: consecutive sequence numbers up to [n], legal
    steps, the record's state that of the last event. *)
Record record_ok (max n : Z) (t : string) (r : LifecycleRecord) : Prop := {
  rok_task : lr_task_id r = t;
  rok_bound : zlen (events r) <= max;
  rok_events : exists first, 0 <= first /\ (forall (i : nat) e, events r !! i = Some e ->
    le_task_id e = t /\ le_sequence e = first + Z.of_nat i /\ le_is_final e = terminal (le_state e) /\
    (le_sequence e = 0 -> le_state e = "accepted"));
  rok_chain : forall i e e', events r !! i = Some e -> events r !! S i = Some e' ->
    legal_transition (le_state e) (le_state e') = true;
  rok_last : exists e, last (events r) = Some e /\ le_state e = lr_state r /\
    observed_at_ms e = updated_at_ms r /\ le_sequence e <= n;
  rok_state : known_state (lr_state r) = true
}.

Record store_ok (n : Z) (st : LifecycleStore) : Prop := {
  sok_max : 2 <= max_events st;
  sok_records : forall t r, records st !! t = Some r -> record_ok (max_events st) n t r;
  sok_keys : forall t t' r r', records st !! t = Some r -> records st !! t' = Some r' ->
    idempotency_key r = idempotency_key r' -> t = t'
}.

(** Case analysis on a string tested against literals. *)
Lemma legal_from_terminal s s' : terminal s = true -> legal_transition s s' = false.
Proof.
  intros H. apply str_in_elem in H.
  repeat (apply elem_of_cons in H as [->|H]; [done|]). by apply elem_of_nil in H.
Qed.

Lemma legal_known s s' : legal_transition s s' = true -> known_state s = true -> known_state s' = true.
Proof.
  intros Hl Hk. apply str_in_elem in Hk.
  repeat (apply elem_of_cons in Hk as [->|Hk];
    [cbn in Hl; try done;
     repeat (match type of Hl with context [String.eqb ?a ?b] => destruct (String.eqb_spec a b) end;
             simplify_eq/=; try done)|]).
  by apply elem_of_nil in Hk.
Qed.

Lemma legal_cancel s : known_state s = true -> terminal s = false -> legal_transition s "cancelled" = true.
Proof.
  intros Hk. apply str_in_elem in Hk.
  repeat (apply elem_of_cons in Hk as [->|Hk]; [done|]). by apply elem_of_nil in Hk.
Qed.

Lemma key_in_use_false m key :
  key_in_use m key = false -> forall t r, m !! t = Some r -> idempotency_key r <> key.
Proof.
  intros H t r Hr E. unfold key_in_use in H. apply not_true_iff_false in H. apply H.
  apply existsb_exists. exists (t, r). split; [|by apply String.eqb_eq].
  apply list_elem_of_In, elem_of_map_to_list. done.
Qed.

Lemma key_in_use_true m key :
  key_in_use m key = true <-> exists t r, m !! t = Some r /\ idempotency_key r = key.
Proof.
  unfold key_in_use. rewrite existsb_exists. split.
  - intros ([t r] & Hin & E). apply list_elem_of_In, elem_of_map_to_list in Hin.
    apply String.eqb_eq in E. eauto.
  - intros (t & r & Hr & E). exists (t, r). split; [|by apply String.eqb_eq].
    apply list_elem_of_In, elem_of_map_to_list. done.
Qed.

Lemma record_ok_mono max n n' t r : n <= n' -> record_ok max n t r -> record_ok max n' t r.
Proof.
  intros Hn [H1 H2 H3 H4 (e & H5 & H6 & H7 & H8) H9]. split; try done.
  exists e. repeat split; try done. lia.
Qed.

Lemma store_ok_mono n n' st : n <= n' -> store_ok n st -> store_ok n' st.
Proof. intros Hn [H1 H2 H3]. split; eauto using record_ok_mono. Qed.

Lemma record_latest max n t r :
  record_ok max n t r -> exists e, last (events r) = Some e /\ latest_sequence r = le_sequence e /\
    le_state e = lr_state r /\ 0 <= le_sequence e <= n.
Proof.
  intros [_ _ (f & Hf & He) _ (e & Hl & Hs & _ & Hn) _]. exists e. unfold latest_sequence.
  rewrite Hl. repeat split; try done. rewrite last_lookup in Hl. apply He in Hl. lia.
Qed.

Lemma submit_ok n st t k d now : 0 <= n -> store_ok n st -> store_ok n (submit st t k d now).2.
Proof.
  intros Hn Hok. unfold submit. destruct (records st !! t) as [r|] eqn:E; [by destruct (_ || _)|].
  destruct (key_in_use (records st) k) eqn:Ek; [done|]. pose proof (key_in_use_false _ _ Ek) as Hk.
  destruct Hok as [Hm Hr Hu]. split; simpl; [done| |].
  - intros t' r' [[<- <-]|[_ H]]%lookup_insert_Some; [|eauto].
    split; simpl; try done; [unfold zlen; simpl; lia| |].
    + exists 0. split; [lia|]. intros [|i] e H; simplify_eq/=. done.
    + eexists. repeat split; try done.
  - intros t1 t2 r1 r2 [[<- <-]|[_ H1]]%lookup_insert_Some [[<- <-]|[_ H2]]%lookup_insert_Some E';
      simpl in *; try done; [by destruct (Hk _ _ H2)|by destruct (Hk _ _ H1)|eauto].
Qed.

Lemma store_ok_delete n st t : store_ok n st -> store_ok n (set_records st (delete t (records st))).
Proof.
  intros [Hm Hr Hu]. split; simpl; [done| |].
  - intros t' r' H%lookup_delete_Some. naive_solver.
  - intros t1 t2 r1 r2 H1%lookup_delete_Some H2%lookup_delete_Some. naive_solver.
Qed.

Lemma status_ok n st t now : store_ok n st -> store_ok n (status st t now).2.
Proof.
  intros Hok. unfold status. destruct (is_some_and _ _); simpl; [by apply store_ok_delete|done].
Qed.

Lemma keep_newest_drop max l :
  exists k, keep_newest max l = drop k l /\ (0 <= max -> zlen (keep_newest max l) <= max) /\
    (1 <= max -> (k < length l)%nat \/ l = []).
Proof.
  unfold keep_newest. destruct (Z.ltb_spec max (zlen l)) as [H|H].
  - exists (Z.to_nat (zlen l - max)). unfold zlen in *. rewrite length_drop.
    split; [done|]. split; [lia|]. intros. left. lia.
  - exists 0%nat. rewrite drop_0. split; [done|]. split; [done|]. intros _.
    destruct l; [by right|left; simpl; lia].
Qed.

Lemma keep_newest_last max l e : 1 <= max -> last (keep_newest max (l ++ [e])) = Some e.
Proof.
  intros Hm. destruct (keep_newest_drop max (l ++ [e])) as (k & -> & _ & Hk).
  destruct (Hk Hm) as [Hk'|Hk']; [|by destruct l].
  rewrite length_app in Hk'. simpl in Hk'. by rewrite drop_app_le, last_snoc by lia.
Qed.

(** Appending the next event of a legal step, then forgetting the oldest. *)
Lemma record_ok_next max n t r s now d :
  2 <= max -> n < u64_max -> record_ok max n t r -> legal_transition (lr_state r) s = true ->
  record_ok max (n + 1) t
    (mkLRecord (lr_task_id r) (idempotency_key r) (request_digest r) s
       (keep_newest max (events r ++ [mkLEvent t (u64_add (latest_sequence r) 1) s (terminal s) now d])) now).
Proof.
  intros Hm Hn Hok Hl. destruct (record_latest _ _ _ _ Hok) as (e0 & El & Els & Est & Hr).
  destruct Hok as [H1 H2 (f & Hf & He) H4 _ H9].
  rewrite Els, u64_add_small by (unfold u64_max in *; lia).
  set (ev := mkLEvent _ _ _ _ _ _).
  assert (le_sequence e0 = f + zlen (events r) - 1) as Hlast.
  { rewrite last_lookup in El. pose proof El as Hlt%lookup_lt_Some. apply He in El as (_ & -> & _).
    unfold zlen. lia. }
  destruct (keep_newest_drop max (events r ++ [ev])) as (k & Ek & Hb & Hk). rewrite Ek in *.
  destruct (Hk ltac:(lia)) as [Hk'|Hk']; [|by destruct (events r)]. clear Hk.
  rewrite length_app in Hk'. simpl in Hk'.
  split; simpl; try done; [apply Hb; lia| | | |by eapply legal_known].
  - exists (f + Z.of_nat k). split; [lia|]. intros i e. rewrite lookup_drop.
    intros [H|[Hi H]]%lookup_app_Some.
    + apply He in H as (? & -> & ? & ?). repeat split; try done. lia.
    + destruct (k + i - length (events r))%nat as [|j] eqn:Ej; simplify_eq/=. unfold zlen in *.
      repeat split; [lia|]. lia.
  - intros i e e'. rewrite !lookup_drop, Nat.add_succ_r.
    intros [H|[Hi H]]%lookup_app_Some [H'|[Hi' H']]%lookup_app_Some.
    + eauto.
    + destruct (S (k + i) - length (events r))%nat as [|j] eqn:Ej; simplify_eq/=.
      assert (last (events r) = Some e) as Hle.
      { rewrite last_lookup. replace (pred (length (events r))) with (k + i)%nat by lia. done. }
      rewrite El in Hle. simplify_eq. by rewrite Est.
    + apply lookup_lt_Some in H'. lia.
    + destruct (S (k + i) - length (events r))%nat as [|j] eqn:Ej; simplify_eq/=. lia.
  - exists ev. repeat split; [|simpl; lia]. by rewrite drop_app_le, last_snoc by lia.
Qed.

Lemma transition_ok n st t s d now :
  n < u64_max -> store_ok n st -> store_ok (n + 1) (transition st t s d now).2.
Proof.
  intros Hn Hok. unfold transition.
  destruct (records st !! t) as [r|] eqn:E; [|eapply store_ok_mono; [|exact Hok]; lia].
  destruct (legal_transition (lr_state r) (resolve_state s)) eqn:El;
    [|eapply store_ok_mono; [|exact Hok]; lia].
  pose proof Hok as [Hm Hr Hu]. split; simpl; [done| |].
  - intros t' r' [[<- <-]|[_ H]]%lookup_insert_Some.
    + by apply record_ok_next; auto.
    + eapply record_ok_mono; [|by eapply Hr]. lia.
  - intros t1 t2 r1 r2 [[<- <-]|[_ H1]]%lookup_insert_Some [[<- <-]|[_ H2]]%lookup_insert_Some E';
      simpl in *; eauto.
Qed.

Lemma cancel_ok n st t c : n < u64_max -> store_ok n st -> store_ok (n + 1) (cancel st t c).2.
Proof.
  intros Hn Hok. unfold cancel. destruct c as [[now1 now2] now3].
  pose proof (status_ok n st t now1 Hok) as H1. destruct (status st t now1) as [[cur|e] st1]; simpl in *.
  2: { eapply store_ok_mono; [|exact H1]; lia. }
  destruct (terminal (lr_state cur)).
  { apply status_ok. eapply store_ok_mono; [|exact H1]; lia. }
  pose proof (transition_ok n st1 t "cancelled" cancel_detail now2 Hn H1) as H2.
  destruct (transition st1 t "cancelled" cancel_detail now2) as [[ev|e] st2]; simpl in *; [|done].
  by apply status_ok.
Qed.

Lemma events_after_ok n st t a now : store_ok n st -> store_ok n (events_after st t a now).2.
Proof.
  intros Hok. unfold events_after. pose proof (status_ok n st t now Hok) as H.
  by destruct (status st t now) as [[] ?].
Qed.

Lemma step_ok n st o : 0 <= n < u64_max -> store_ok n st -> store_ok (n + 1) (port_step st o).
Proof.
  intros [Hn Hu] Hok. pose proof (store_ok_mono n (n + 1) st ltac:(lia) Hok) as Hok'.
  destruct o; simpl.
  - apply submit_ok; [lia|done].
  - by apply status_ok.
  - by apply transition_ok.
  - by apply cancel_ok.
  - by apply events_after_ok.
Qed.

Lemma run_ok ops n st :
  0 <= n -> n + zlen ops <= u64_max -> store_ok n st -> store_ok (n + zlen ops) (port_run st ops).
Proof.
  revert n st. induction ops as [|o ops IH]; intros n st Hn Hu Hok; simpl.
  - unfold zlen. simpl. by rewrite Z.add_0_r.
  - rewrite zlen_cons in *. pose proof (zlen_nonneg ops).
    replace (n + (zlen ops + 1)) with ((n + 1) + zlen ops) by lia.
    apply IH; [lia|lia|]. apply step_ok; [lia|done].
Qed.

Lemma store_new_ok max ttl : store_ok 0 (store_new max ttl).
Proof. split; simpl; [lia| |]; intros ??; by rewrite lookup_empty. Qed.

(** ** Theorems *)

(** C25: whatever operations a store has served, every record keeps at least
    one and at most [max_events] events, numbered consecutively, each a legal
    transition from the one before, the record's state being that of its last
    event; only a last event can be final; and no two tasks share an
    idempotency key. *)
Theorem lifecycle_log_invariant max ttl ops :
  zlen ops <= u64_max ->
  let st := port_run (store_new max ttl) ops in
  store_ok (zlen ops) st /\
  forall t r i e, records st !! t = Some r -> events r !! i = Some e -> le_is_final e = true ->
    S i = length (events r).
Proof.
  intros Hu st. assert (store_ok (zlen ops) st) as Hok.
  { apply (run_ok ops 0); [lia|lia|apply store_new_ok]. }
  split; [done|]. intros t r i e Hr He Hf. destruct Hok as [_ Hrec _].
  destruct (Hrec t r Hr) as [_ _ (f & _ & Hev) Hch _ _].
  destruct (decide (S i = length (events r))) as [|Hne]; [done|]. exfalso.
  pose proof (lookup_lt_Some _ _ _ He) as Hlt.
  destruct (lookup_lt_is_Some_2 (events r) (S i)) as [e' He']; [lia|].
  pose proof (Hch i e e' He He') as Hl. apply Hev in He as (_ & _ & Hfin & _).
  rewrite legal_from_terminal in Hl by congruence. done.
Qed.

Lemma lifecycle_log_invariant_witness :
  store_ok 3 (port_run (store_new 2 1000)
    [OSubmit "t" "k" "d" 1; OTransition "t" "running" JNull 2; OCancel "t" (3, 3, 4)]).
Proof.
  apply (lifecycle_log_invariant 2 1000
    [OSubmit "t" "k" "d" 1; OTransition "t" "running" JNull 2; OCancel "t" (3, 3, 4)]).
  vm_compute. discriminate.
Defined.

(** Operations other than a submission of [t]. *)
Definition not_submit (t : string) (o : lifecycle_op) : Prop :=
  match o with OSubmit t' _ _ _ => t' <> t | _ => True end.

(** What one operation can do to a record: leave it, expire it, or append to
    it keeping its identity, and never past a terminal state. *)
Definition record_evolves (r : LifecycleRecord) (o : option LifecycleRecord) : Prop :=
  match o with
  | None => True
  | Some r' => idempotency_key r' = idempotency_key r /\ request_digest r' = request_digest r /\
      (terminal (lr_state r) = true -> r' = r)
  end.

Lemma record_evolves_refl r : record_evolves r (Some r).
Proof. done. Qed.

Lemma status_evolves st t t' now r :
  records st !! t = Some r ->
  records (status st t' now).2 !! t = Some r \/ records (status st t' now).2 !! t = None.
Proof.
  intros Hr. unfold status. destruct (is_some_and _ _); simpl; [|by left].
  destruct (decide (t = t')) as [->|]; [right; apply lookup_delete_eq|].
  left. by rewrite lookup_delete_ne.
Qed.

Lemma transition_evolves st t t' s d now r :
  records st !! t = Some r -> record_evolves r (records (transition st t' s d now).2 !! t).
Proof.
  intros Hr. unfold transition. destruct (records st !! t') as [r0|] eqn:E; simpl; [|by rewrite Hr].
  destruct (legal_transition (lr_state r0) (resolve_state s)) eqn:El; simpl; [|by rewrite Hr].
  destruct (decide (t' = t)) as [->|]; [|by rewrite lookup_insert_ne, Hr].
  rewrite lookup_insert_eq. rewrite Hr in E. simplify_eq. repeat split; try done.
  intros Ht. by rewrite legal_from_terminal in El.
Qed.

Lemma record_evolves_trans r st st' t :
  record_evolves r (records st !! t) ->
  (forall r', records st !! t = Some r' -> record_evolves r' (records st' !! t)) ->
  (records st !! t = None -> records st' !! t = None) ->
  record_evolves r (records st' !! t).
Proof.
  intros H1 H2 H3. destruct (records st !! t) as [r1|]; [|by rewrite H3].
  specialize (H2 r1 eq_refl). destruct (records st' !! t) as [r2|]; [|done]. simpl in *.
  destruct H1 as (E1 & E1' & Ht1), H2 as (E2 & E2' & Ht2). rewrite E2, E2', E1, E1'. repeat split; try done.
  intros Ht. rewrite Ht2; [auto|]. by rewrite (Ht1 Ht).
Qed.

(** No operation but a submission brings a task into being. *)
Lemma status_absent st t t' now : records st !! t = None -> records (status st t' now).2 !! t = None.
Proof.
  intros H. unfold status. destruct (is_some_and _ _); simpl; [|done].
  by apply lookup_delete_None; right.
Qed.
Lemma transition_absent st t t' s d now :
  records st !! t = None -> records (transition st t' s d now).2 !! t = None.
Proof.
  intros H. unfold transition. destruct (records st !! t') as [r0|] eqn:E; simpl; [|done].
  destruct (legal_transition _ _); simpl; [|done]. rewrite lookup_insert_ne; [done|congruence].
Qed.

Lemma status_evolves' st t t' now r :
  records st !! t = Some r -> record_evolves r (records (status st t' now).2 !! t).
Proof. intros Hr. by destruct (status_evolves st t t' now r Hr) as [-> | ->]. Qed.

Lemma cancel_evolves st t t' c :
  (forall r, records st !! t = Some r -> record_evolves r (records (cancel st t' c).2 !! t)) /\
  (records st !! t = None -> records (cancel st t' c).2 !! t = None).
Proof.
  destruct c as [[n1 n2] n3]. unfold cancel.
  pose proof (status_evolves' st t t' n1) as E1. pose proof (status_absent st t t' n1) as A1.
  destruct (status st t' n1) as [[cur|e] st1]; simpl in *; [|done].
  pose proof (status_evolves' st1 t t' n3) as E3. pose proof (status_absent st1 t t' n3) as A3.
  destruct (terminal (lr_state cur)).
  { split; [intros r Hr; by apply (record_evolves_trans r st1); auto|auto]. }
  pose proof (fun r => transition_evolves st1 t t' "cancelled" cancel_detail n2 r) as E2.
  pose proof (transition_absent st1 t t' "cancelled" cancel_detail n2) as A2.
  destruct (transition st1 t' "cancelled" cancel_detail n2) as [[ev|e] st2]; simpl in *.
  - pose proof (status_evolves' st2 t t' n3) as E4. pose proof (status_absent st2 t t' n3) as A4.
    split; [|auto]. intros r Hr. apply (record_evolves_trans r st2); auto.
    apply (record_evolves_trans r st1); auto.
  - split; [|auto]. intros r Hr. apply (record_evolves_trans r st1); auto.
Qed.

Lemma events_after_store st t a now : (events_after st t a now).2 = (status st t now).2.
Proof. unfold events_after. by destruct (status st t now) as [[] ?]. Qed.

Lemma step_evolves st t o :
  not_submit t o ->
  (forall r, records st !! t = Some r -> record_evolves r (records (port_step st o) !! t)) /\
  (records st !! t = None -> records (port_step st o) !! t = None).
Proof.
  intros Ho. destruct o as [t' k d now|t' now|t' s d now|t' c|t' a now]; simpl in *.
  - assert (records (submit st t' k d now).2 !! t = records st !! t) as ->.
    { unfold submit. destruct (records st !! t'); [by destruct (_ || _)|].
      destruct (key_in_use _ _); [done|]. simpl. by rewrite lookup_insert_ne. }
    split; [intros r -> ; apply record_evolves_refl|done].
  - split; [apply (status_evolves' st t t' now)|apply (status_absent st t t' now)].
  - split; [intros r; by apply transition_evolves|by apply transition_absent].
  - apply cancel_evolves.
  - rewrite events_after_store. split; [apply (status_evolves' st t t' now)|apply (status_absent st t t' now)].
Qed.

Lemma run_evolves ops st t :
  Forall (not_submit t) ops ->
  (forall r, records st !! t = Some r -> record_evolves r (records (port_run st ops) !! t)) /\
  (records st !! t = None -> records (port_run st ops) !! t = None).
Proof.
  intros H. revert st. induction H as [|o ops Ho _ IH]; intros st; simpl.
  - split; [intros r ->; apply record_evolves_refl|done].
  - destruct (step_evolves st t o Ho) as [E A]. destruct (IH (port_step st o)) as [E' A'].
    split; [|auto]. intros r Hr. apply (record_evolves_trans r (port_step st o)); auto.
Qed.

(** A terminal state is final: after a task has reached one, no sequence of
    operations changes its record, up to its removal when its retention has
    passed. *)
Theorem lifecycle_terminal_final st t r ops :
  records st !! t = Some r -> terminal (lr_state r) = true -> Forall (not_submit t) ops ->
  records (port_run st ops) !! t = Some r \/ records (port_run st ops) !! t = None.
Proof.
  intros Hr Ht Ho. destruct (run_evolves ops st t Ho) as [E _]. specialize (E r Hr).
  destruct (records (port_run st ops) !! t) as [r'|]; [|by right].
  destruct E as (_ & _ & E). left. f_equal. auto.
Qed.

Definition demo_cancelled : LifecycleStore :=
  port_run (store_new 4 1000) [OSubmit "t" "k" "d" 1; OCancel "t" (2, 2, 2)].

Lemma lifecycle_terminal_final_witness :
  let r := mkLRecord "t" "k" "d" "cancelled"
    [mkLEvent "t" 0 "accepted" false 1 JNull; mkLEvent "t" 1 "cancelled" true 2 cancel_detail] 2 in
  let st' := port_run demo_cancelled [OTransition "t" "running" JNull 3; OStatus "t" 3] in
  records st' !! "t" = Some r \/ records st' !! "t" = None.
Proof.
  apply (lifecycle_terminal_final demo_cancelled "t"
    (mkLRecord "t" "k" "d" "cancelled"
      [mkLEvent "t" 0 "accepted" false 1 JNull; mkLEvent "t" 1 "cancelled" true 2 cancel_detail] 2)
    [OTransition "t" "running" JNull 3; OStatus "t" 3]).
  - vm_compute. reflexivity.
  - reflexivity.
  - apply Forall_cons; split; [exact I|]. apply Forall_cons; split; [exact I|]. by apply Forall_nil.
Defined.

(** Submission is idempotent: as long as a submitted task is recorded, a
    repetition returns its current record and changes nothing, while the task
    with other content, or its idempotency key with another task, is refused
    as a conflict and changes nothing. *)
Theorem lifecycle_submit_idempotent st t k d now r created st1 ops r2 k' d' now' :
  submit st t k d now = (Ok (r, created), st1) ->
  Forall (not_submit t) ops ->
  let st2 := port_run st1 ops in
  records st2 !! t = Some r2 ->
  submit st2 t k d now' = (Ok (r2, false), st2) /\
  ((k', d') <> (k, d) -> exists m, submit st2 t k' d' now' = (Err (Conflict m), st2)) /\
  (forall t', records st2 !! t' = None ->
     exists m, submit st2 t' k d' now' = (Err (Conflict m), st2)).
Proof.
  intros Hs Ho st2 Hr2.
  assert (exists r1, records st1 !! t = Some r1 /\ idempotency_key r1 = k /\ request_digest r1 = d)
    as (r1 & Hr1 & <- & <-).
  { revert Hs. unfold submit. destruct (records st !! t) as [r0|] eqn:E.
    - destruct (_ || _) eqn:Eo; intros; simplify_eq. bprop. eauto.
    - destruct (key_in_use _ _); intros; simplify_eq. simpl. rewrite lookup_insert_eq. eauto. }
  destruct (run_evolves ops st1 t Ho) as [E _]. specialize (E r1 Hr1). fold st2 in E. rewrite Hr2 in E.
  destruct E as (Ek & Ed & _). split; [|split].
  - unfold submit. by rewrite Hr2, Ek, Ed, !String.eqb_refl.
  - intros Hne. unfold submit. rewrite Hr2, Ek, Ed.
    destruct (String.eqb_spec (idempotency_key r1) k') as [<-|]; simpl; [|eauto].
    destruct (String.eqb_spec (request_digest r1) d') as [<-|]; simpl; [done|eauto].
  - intros t' Hn. unfold submit. rewrite Hn.
    assert (key_in_use (records st2) (idempotency_key r1) = true) as ->
      by (apply key_in_use_true; eauto). eauto.
Qed.

Lemma lifecycle_submit_idempotent_witness :
  let st2 := port_run (submit (store_new 4 1000) "t" "k" "d" 1).2 [OTransition "t" "running" JNull 2] in
  (submit st2 "t" "k" "d" 3).2 = st2 /\ exists m, submit st2 "u" "k" "d" 3 = (Err (Conflict m), st2).
Proof.
  destruct (lifecycle_submit_idempotent (store_new 4 1000) "t" "k" "d" 1
    (accepted_record "t" "k" "d" 1) true (submit (store_new 4 1000) "t" "k" "d" 1).2
    [OTransition "t" "running" JNull 2]
    (mkLRecord "t" "k" "d" "running"
      [mkLEvent "t" 0 "accepted" false 1 JNull; mkLEvent "t" 1 "running" false 2 JNull] 2)
    "k" "d" 3) as (H1 & _ & H3).
  - vm_compute. reflexivity.
  - apply Forall_cons; split; [exact I|]. by apply Forall_nil.
  - vm_compute. reflexivity.
  - split; [by rewrite H1|]. apply (H3 "u"). vm_compute. reflexivity.
Defined.

(** ** Resuming an observation *)

Lemma filter_contiguous {A} (seq : A -> Z) a f (l : list A) :
  (forall i e, l !! i = Some e -> seq e = f + Z.of_nat i) ->
  List.filter (fun e => a <? seq e) l = drop (Z.to_nat (a + 1 - f)) l.
Proof.
  revert f. induction l as [|e l IH]; intros f Hl; [by rewrite drop_nil|].
  assert (seq e = f) as He by (rewrite (Hl 0%nat e eq_refl); simpl; lia).
  assert (forall i e', l !! i = Some e' -> seq e' = (f + 1) + Z.of_nat i) as Hl'.
  { intros i e' Hi. rewrite (Hl (S i) e' Hi). lia. }
  specialize (IH (f + 1) Hl'). cbn [List.filter]. rewrite He, IH. destruct (Z.ltb_spec a f).
  - rewrite !Z2Nat.nonpos by lia. done.
  - replace (Z.to_nat (a + 1 - f)) with (S (Z.to_nat (a + 1 - (f + 1)))) by lia. done.
Qed.

Lemma filter_ext_in' {A} (p q : A -> bool) l :
  (forall x, x ∈ l -> p x = q x) -> List.filter p l = List.filter q l.
Proof. intros H. apply List.filter_ext_in. intros x Hx. by apply H, list_elem_of_In. Qed.

(** Resuming an observation after sequence number [after] gives exactly
    the events [after + 1], [after + 2], .. up to the latest one, with no gap;
    or, when the next event has already been dropped, an error that carries
    the task's state and latest sequence number. *)
Theorem lifecycle_resume_exact n st t r after now :
  store_ok n st -> n <= i64_max -> 0 <= after < i64_max ->
  records st !! t = Some r -> expired st r now = false ->
  let out := (events_after st t after now).1 in
  (exists evs, out = Ok evs /\ zlen evs = Z.max 0 (latest_sequence r - after) /\
     forall i e, evs !! i = Some e -> le_sequence e = after + 1 + Z.of_nat i) \/
  (out = Err (ResumeUnavailable (lr_state r) (latest_sequence r)) /\
   forall e, e ∈ events r -> after + 1 < le_sequence e).
Proof.
  intros Hok Hn Ha Hr Hx out.
  pose proof (sok_records _ _ Hok t r Hr) as Hrec.
  destruct (record_latest _ _ _ _ Hrec) as (el & Hl & Els & _ & Hlr).
  destruct Hrec as [_ _ (f & Hf & Hev) _ _ _].
  assert (out = events_of r after) as ->.
  { unfold out, events_after, status. rewrite Hr. simpl. rewrite Hx. simpl. by rewrite Hr. }
  assert (forall i e, events r !! i = Some e -> le_sequence e = f + Z.of_nat i) as Hseq
    by (intros i e H; apply Hev in H as (_ & H & _); exact H).
  assert (le_sequence el = f + zlen (events r) - 1) as Hlast.
  { rewrite last_lookup in Hl. pose proof Hl as Hlt%lookup_lt_Some. rewrite (Hseq _ _ Hl).
    unfold zlen. lia. }
  unfold events_of. destruct (events r) as [|e0 rest] eqn:Ee; [done|]. cbn [head].
  pose proof (Hseq 0%nat e0 eq_refl) as H0. rewrite (proj2 (Z.leb_le 0 after)) by lia. cbn [andb].
  unfold u64_sat_add. unfold i64_max, u64_max in *. rewrite Z.min_l by lia.
  rewrite Els.
  destruct (Z.ltb_spec (after + 1) (le_sequence e0)) as [Hlt|Hge].
  - right. split; [done|]. intros e [i He]%list_elem_of_lookup. rewrite (Hseq _ _ He). lia.
  - left. exists (drop (Z.to_nat (after + 1 - f)) (e0 :: rest)). split; [|split].
    + f_equal. rewrite <- (filter_contiguous le_sequence) by done. apply filter_ext_in'.
      intros e [i He]%list_elem_of_lookup. rewrite u64_as_i64_small; [done|].
      pose proof (lookup_lt_Some _ _ _ He). rewrite (Hseq _ _ He). unfold i64_max, zlen in *. lia.
    + unfold zlen in *. rewrite length_drop. simpl in *. lia.
    + intros i e. rewrite lookup_drop. intros He. rewrite (Hseq _ _ He). simpl in *. lia.
Qed.

Definition demo_running : LifecycleStore :=
  port_run (store_new 2 1000)
    [OSubmit "t" "k" "d" 1; OTransition "t" "running" JNull 2; OTransition "t" "streaming" JNull 3].

Lemma demo_running_ok : store_ok 3 demo_running.
Proof.
  apply (run_ok [OSubmit "t" "k" "d" 1; OTransition "t" "running" JNull 2;
                 OTransition "t" "streaming" JNull 3] 0 (store_new 2 1000));
    [lia|vm_compute; discriminate|apply store_new_ok].
Qed.

Lemma lifecycle_resume_exact_witness :
  exists evs, (events_after demo_running "t" 1 4).1 = Ok evs /\ zlen evs = 1.
Proof.
  destruct (lifecycle_resume_exact 3 demo_running "t"
    (mkLRecord "t" "k" "d" "streaming"
      [mkLEvent "t" 1 "running" false 2 JNull; mkLEvent "t" 2 "streaming" false 3 JNull] 3) 1 4)
    as [(evs & H1 & H2 & _)|[H _]].
  - exact demo_running_ok.
  - vm_compute. discriminate.
  - split; [lia|vm_compute; reflexivity].
  - vm_compute. reflexivity.
  - vm_compute. reflexivity.
  - exists evs. split; [exact H1|exact H2].
  - vm_compute in H. discriminate H.
Defined.

(** Cancelling a recorded task leaves it in a terminal state: [cancelled]
    if it was not terminal, its own state otherwise. *)
Theorem lifecycle_cancel_terminal n st t r now1 now2 now3 :
  store_ok n st -> records st !! t = Some r ->
  expired st r now1 = false -> expired st r now3 = false ->
  now2 <= now3 -> now3 - now2 <= terminal_status_ttl_ms st ->
  exists r' st', cancel st t (now1, now2, now3) = (Ok r', st') /\ records st' !! t = Some r' /\
    terminal (lr_state r') = true /\
    (if terminal (lr_state r) then r' = r /\ st' = st else lr_state r' = "cancelled").
Proof.
  intros Hok Hr H1 H3 Hn23 Httl. unfold cancel, status at 1. rewrite Hr. simpl. rewrite H1. simpl.
  rewrite Hr. simpl. destruct (terminal (lr_state r)) eqn:Et.
  - exists r, st. unfold status. rewrite Hr. simpl. rewrite H3. simpl. by rewrite Hr.
  - unfold transition. rewrite Hr. cbn [resolve_state String.eqb Ascii.eqb Bool.eqb].
    change (resolve_state "cancelled") with "cancelled".
    rewrite legal_cancel by (done || by eapply sok_records). cbn [negb].
    set (r' := mkLRecord _ _ _ _ _ _).
    exists r', (set_records st (<[t := r']> (records st))).
    unfold status. cbn [records set_records]. rewrite lookup_insert_eq. cbn [is_some_and].
    assert (expired (set_records st (<[t := r']> (records st))) r' now3 = false) as ->.
    { unfold expired, u64_sat_sub. simpl. apply Z.ltb_ge. lia. }
    cbn [records set_records]. by rewrite lookup_insert_eq.
Qed.

Lemma lifecycle_cancel_terminal_witness :
  exists r' st', cancel demo_running "t" (4, 4, 5) = (Ok r', st') /\ lr_state r' = "cancelled".
Proof.
  destruct (lifecycle_cancel_terminal 3 demo_running "t"
    (mkLRecord "t" "k" "d" "streaming"
      [mkLEvent "t" 1 "running" false 2 JNull; mkLEvent "t" 2 "streaming" false 3 JNull] 3) 4 4 5)
    as (r' & st' & H1 & _ & _ & H4); [exact demo_running_ok| | | | | |];
    try (vm_compute; reflexivity); try (vm_compute; discriminate).
  exists r', st'. split; [exact H1|exact H4].
Defined.

(** ** Snapshots *)

Lemma snapshot_record_valid_ok max n t r :
  n < u64_max -> record_ok max n t r -> snapshot_record_valid r = true.
Proof.
  intros Hn Hok. destruct (record_latest _ _ _ _ Hok) as (el & Hl & _ & _ & Hlr).
  destruct Hok as [_ _ (f & Hf & Hev) _ _ _]. unfold snapshot_record_valid.
  destruct (events r) as [|e0 rest] eqn:E; [done|].
  apply forallb_forall. intros [i e] Hin%list_elem_of_In. rewrite elem_of_lookup_imap in Hin.
  destruct Hin as (j & e' & Heq & Hj). simplify_eq. apply Z.eqb_eq. simpl.
  pose proof (Hev 0%nat e0 eq_refl) as (_ & H0 & _). pose proof (Hev _ _ Hj) as (_ & -> & _).
  rewrite last_lookup in Hl. pose proof (lookup_lt_Some _ _ _ Hj).
  apply Hev in Hl as (_ & Hl & _). rewrite u64_add_small; [lia|].
  simpl in *. unfold u64_max in *. lia.
Qed.

Lemma restore_records_all rs m :
  Forall (fun r => snapshot_record_valid r = true) rs ->
  restore_records rs m = Ok (foldl (fun m r => <[lr_task_id r := r]> m) m rs).
Proof. intros H. revert m. induction H as [|r rs Hr _ IH]; intros m; simpl; [done|]. rewrite Hr. apply IH. Qed.

Lemma foldl_insert_records (l : list (string * LifecycleRecord)) (m : gmap string LifecycleRecord) :
  NoDup l.*1 -> Forall (fun kr => lr_task_id kr.2 = kr.1) l ->
  foldl (fun m r => <[lr_task_id r := r]> m) m l.*2 = list_to_map l ∪ m.
Proof.
  revert m. induction l as [|[k r] l IH]; intros m Hn Hf; csimpl in *; [by rewrite (left_id_L ∅ (∪))|].
  apply NoDup_cons in Hn as [Hk Hn]. apply Forall_cons in Hf as [Hr Hf]. simpl in *. subst k.
  rewrite IH by done. rewrite <- insert_union_l, insert_union_r; [done|].
  by apply not_elem_of_list_to_map_1.
Qed.

(** Restoring a snapshot of a store brings back exactly its records, in
    whatever store it is restored. *)
Theorem lifecycle_snapshot_roundtrip n st st' :
  store_ok n st -> n < u64_max ->
  restore st' (snapshot st) = (Ok tt, set_records st' (records st)).
Proof.
  intros [_ Hr _] Hn. unfold restore, snapshot. simpl snap_profile. rewrite String.eqb_refl. simpl.
  assert (forall k r, (k, r) ∈ map_to_list (records st) -> record_ok (max_events st) n k r) as Hm
    by (intros k r H%elem_of_map_to_list; auto).
  rewrite restore_records_all.
  - rewrite foldl_insert_records.
    + by rewrite list_to_map_to_list, (right_id_L ∅ (∪)).
    + apply NoDup_fst_map_to_list.
    + apply Forall_forall. intros [k r] H. by apply (rok_task _ _ _ _ (Hm k r H)).
  - apply Forall_fmap, Forall_forall. intros [k r] H. eapply snapshot_record_valid_ok; eauto.
Qed.

Lemma lifecycle_snapshot_roundtrip_witness :
  restore (store_new 5 5) (snapshot demo_running) = (Ok tt, set_records (store_new 5 5) (records demo_running)).
Proof.
  apply (lifecycle_snapshot_roundtrip 3 demo_running (store_new 5 5) demo_running_ok).
  vm_compute. reflexivity.
Defined.

(** ** The HTTP binding of the lifecycle profile

    The four handlers and their router, over any implementation of the storage
    port.  Header parsing and JSON extraction are axum's; the text serde gives
    an event is the parameter [event_text]. *)

Inductive LifecycleOperation := Submit | Status | Observe | Cancel.

Record LifecycleAuthorizationRequest := mkAuthRequest {
  credential : option string;
  operation : LifecycleOperation;
  ar_task_id : string
}.

Record LifecycleAuthorizationDecision := mkDecision {
  authenticated : bool;
  allowed : bool;
  conceal_task : bool
}.
Definition decision_allowed : LifecycleAuthorizationDecision := mkDecision true true false.

Definition LifecycleAuthorizer := LifecycleAuthorizationRequest -> LifecycleAuthorizationDecision.

Inductive body :=
| BEmpty
| BJson (v : json)
| BNdjson (text : string).

Record response := mkResponse { status_code : Z; response_body : body }.

Inductive http_request :=
| PostTask (task_id idempotency_key request_digest : string)
| GetTask (task_id : string)
| GetEvents (task_id : string) (after_sequence : option Z)
| PostCancel (task_id : string).

Definition authorize (authorizer : LifecycleAuthorizer) (credential : option string)
    (operation : LifecycleOperation) (task_id : string) : result unit Z :=
  let decision := authorizer (mkAuthRequest credential operation task_id) in
  if allowed decision && authenticated decision then Ok tt
  else if negb (authenticated decision) then Err 401
  else if conceal_task decision then Err 404
  else Err 403.

Definition record_json (r : LifecycleRecord) : json :=
  mk_obj [("profile", JString PROFILE); ("task_id", JString (lr_task_id r));
          ("state", JString (lr_state r)); ("latest_sequence", u64_json (latest_sequence r));
          ("is_final", JBool (terminal (lr_state r)))].

Definition lifecycle_error (e : LifecycleError) : response :=
  match e with
  | UnknownTask => mkResponse 404 (BJson (mk_obj [("code", JString "unknown_task")]))
  | Conflict message =>
      mkResponse 409 (BJson (mk_obj [("code", JString "conflict"); ("message", JString message)]))
  | ResumeUnavailable state latest =>
      mkResponse 409 (BJson (mk_obj [("code", JString "resume_unavailable"); ("state", JString state);
                                     ("latest_sequence", u64_json latest)]))
  | Storage message =>
      mkResponse 500 (BJson (mk_obj [("code", JString "lifecycle_storage_error");
                                     ("message", JString message)]))
  end.

Definition default_after : Z := -1.

(** The newline that separates and ends the lines of an observation. *)
Definition newline : string := String (chr 10) EmptyString.

Section http.
Context {S : Type} {persistence : LifecyclePersistence S} (event_text : LifecycleEvent -> string).

Definition guarded (authorizer : LifecycleAuthorizer) (cred : option string) (op : LifecycleOperation)
    (task_id : string) (s : S) (k : response * S) : response * S :=
  match authorize authorizer cred op task_id with
  | Err code => (mkResponse code BEmpty, s)
  | Ok _ => k
  end.

Definition submit_http (authorizer : LifecycleAuthorizer) (cred : option string)
    (task_id key digest : string) (now : Z) (s : S) : response * S :=
  guarded authorizer cred Submit task_id s
    (let '(r, s') := p_submit s task_id key digest now in
     (match r with
      | Ok (record, created) => mkResponse (if created : bool then 202 else 200) (BJson (record_json record))
      | Err e => lifecycle_error e
      end, s')).

Definition status_http (authorizer : LifecycleAuthorizer) (cred : option string) (task_id : string)
    (now : Z) (s : S) : response * S :=
  guarded authorizer cred Status task_id s
    (let '(r, s') := p_status s task_id now in
     (match r with Ok record => mkResponse 200 (BJson (record_json record)) | Err e => lifecycle_error e end, s')).

Definition observe_http (authorizer : LifecycleAuthorizer) (cred : option string) (task_id : string)
    (after_sequence : option Z) (now : Z) (s : S) : response * S :=
  guarded authorizer cred Observe task_id s
    (let '(r, s') := p_events_after s task_id (default default_after after_sequence) now in
     (match r with
      | Ok evs => mkResponse 200 (BNdjson (str_join newline (event_text <$> evs) +:+ newline))
      | Err e => lifecycle_error e
      end, s')).

Definition cancel_http (authorizer : LifecycleAuthorizer) (cred : option string) (task_id : string)
    (clock : Z * Z * Z) (s : S) : response * S :=
  guarded authorizer cred Cancel task_id s
    (let '(r, s') := p_cancel s task_id clock in
     (match r with Ok record => mkResponse 200 (BJson (record_json record)) | Err e => lifecycle_error e end, s')).

(** [lifecycle_router_with_authorizer]: the routes. *)
Definition lifecycle_router_with_authorizer (authorizer : LifecycleAuthorizer) (cred : option string)
    (req : http_request) (clock : Z * Z * Z) (s : S) : response * S :=
  let now := clock.1.1 in
  match req with
  | PostTask t k d => submit_http authorizer cred t k d now s
  | GetTask t => status_http authorizer cred t now s
  | GetEvents t a => observe_http authorizer cred t a now s
  | PostCancel t => cancel_http authorizer cred t clock s
  end.

(** The shared-token authorizer. *)
Definition bearer_authorizer (bearer_token : string) : LifecycleAuthorizer := fun request =>
  let valid := opt_str_is (credential request) ("Bearer " +:+ bearer_token) in
  mkDecision valid valid false.

Definition lifecycle_router_with_persistence (bearer_token : string) :=
  lifecycle_router_with_authorizer (bearer_authorizer bearer_token).

Definition req_operation (req : http_request) : LifecycleOperation :=
  match req with PostTask _ _ _ => Submit | GetTask _ => Status | GetEvents _ _ => Observe | PostCancel _ => Cancel end.
Definition req_task (req : http_request) : string :=
  match req with PostTask t _ _ | GetTask t | GetEvents t _ | PostCancel t => t end.

(** A request the authorizer does not both authenticate and allow never
    reaches the store, on any route and for any storage: the answer is 401,
    404 for a concealed task or 403, with an empty body; and no other request
    is answered with 401 or 403. *)
Theorem http_denied_untouched authorizer cred req clock (s : S) :
  let d := authorizer (mkAuthRequest cred (req_operation req) (req_task req)) in
  let out := lifecycle_router_with_authorizer authorizer cred req clock s in
  if allowed d && authenticated d
  then status_code out.1 <> 401 /\ status_code out.1 <> 403
  else out = (mkResponse (if negb (authenticated d) then 401 else if conceal_task d then 404 else 403) BEmpty, s).
Proof.
  intros d out. unfold d, out, lifecycle_router_with_authorizer, submit_http, status_http, observe_http,
    cancel_http, guarded, authorize.
  destruct req as [t k dg|t|t a|t]; cbn [req_operation req_task]; destruct (authorizer _) as [au al co]; simpl;
    destruct al, au, co; simpl; try done.
  all: repeat case_match; simplify_eq/=; try done;
    match goal with |- context [lifecycle_error ?e] => destruct e; done | _ => done end.
Qed.

(** Behind the shared token, only requests that present exactly that token
    as bearer credential reach the store. *)
Theorem http_bearer_required token cred req clock (s : S) :
  cred <> Some ("Bearer " +:+ token) ->
  lifecycle_router_with_persistence token cred req clock s = (mkResponse 401 BEmpty, s).
Proof.
  intros Hc. assert (opt_str_is cred ("Bearer " +:+ token) = false) as E.
  { apply not_true_iff_false. by rewrite opt_str_is_true. }
  unfold lifecycle_router_with_persistence, lifecycle_router_with_authorizer, submit_http, status_http,
    observe_http, cancel_http, guarded, authorize, bearer_authorizer. cbn [credential].
  rewrite E. by destruct req.
Qed.
End http.

Lemma http_bearer_required_witness :
  lifecycle_router_with_persistence (fun _ => EmptyString) "secret" (Some "Bearer other")
    (PostTask "t" "k" "d") (1, 1, 1) (store_new 4 1000) = (mkResponse 401 BEmpty, store_new 4 1000).
Proof.
  apply (http_bearer_required (fun _ => EmptyString) "secret" (Some "Bearer other")
           (PostTask "t" "k" "d") (1, 1, 1) (store_new 4 1000)).
  discriminate.
Defined.
