(* ===== verification/LifecycleSqlite.v ===== *)
(** * The SQLite lifecycle store ([src/service_lifecycle_sqlite.rs])

    The two tables are lists of rows; a statement is a function on them, a
    transaction commits or rolls back.  SQLite itself (the journal, locking
    between processes, failures of the file system) is outside: a failing
    statement rolls back and is a [Storage] error, and an immediate
    transaction is one step.  The store is shown to refine the in-memory one,
    up to the content of event details and the wording of conflicts. *)

From S2P Require Import Prelude Text Json Cbor CodecModel Lifecycle LifecycleStore.

(** ** Tables *)

(** [lifecycle_tasks] *)
Record task_row := mkTaskRow {
  tr_task_id : string;
  tr_key : string;
  tr_digest : string;
  tr_state : string;
  tr_latest : Z;
  tr_updated : Z
}.

(** [lifecycle_events] *)
Record event_row := mkEventRow {
  er_task_id : string;
  er_sequence : Z;
  er_state : string;
  er_is_final : Z;
  er_observed : Z;
  er_detail : list byte
}.

Record SqliteLifecyclePersistence := mkSqlite {
  task_table : list task_row;
  event_table : list event_row;
  sq_max_events : Z;
  sq_ttl_ms : Z
}.

Definition sqlite_open (max_events terminal_status_ttl_ms : Z) : SqliteLifecyclePersistence :=
  mkSqlite [] [] (Z.max max_events 2) terminal_status_ttl_ms.

Definition with_tables (db : SqliteLifecyclePersistence) (ts : list task_row) (es : list event_row)
    : SqliteLifecyclePersistence :=
  mkSqlite ts es (sq_max_events db) (sq_ttl_ms db).

(** ** Statements *)

Definition task_by_id (db : SqliteLifecyclePersistence) (t : string) : option task_row :=
  List.find (fun r => tr_task_id r ==? t) (task_table db).

(** [SELECT .. WHERE task_id=?1 OR idempotency_key=?2] *)
Definition task_by_id_or_key (db : SqliteLifecyclePersistence) (t k : string) : option task_row :=
  List.find (fun r => (tr_task_id r ==? t) || (tr_key r ==? k)) (task_table db).

(** [ORDER BY sequence] *)
Fixpoint insert_by_sequence (e : event_row) (l : list event_row) : list event_row :=
  match l with
  | [] => [e]
  | e' :: l' => if er_sequence e <=? er_sequence e' then e :: l else e' :: insert_by_sequence e l'
  end.
Definition order_by_sequence : list event_row -> list event_row := foldr insert_by_sequence [].

Definition events_of_task (db : SqliteLifecyclePersistence) (t : string) : list event_row :=
  List.filter (fun e => er_task_id e ==? t) (event_table db).

(** [ON DELETE CASCADE] removes the task's events with it. *)
Definition delete_task (db : SqliteLifecyclePersistence) (t : string) : SqliteLifecyclePersistence :=
  with_tables db (List.filter (fun r => negb (tr_task_id r ==? t)) (task_table db))
    (List.filter (fun e => negb (er_task_id e ==? t)) (event_table db)).

(** A [u64] parameter that SQLite cannot store fails the statement. *)
Definition sql_u64 (z : Z) : result Z LifecycleError :=
  if z <=? i64_max then Ok z else Err (Storage "out of range integral type conversion attempted").

(** Primary keys and [UNIQUE] refuse a duplicate. *)
Definition insert_task (db : SqliteLifecyclePersistence) (r : task_row)
    : result SqliteLifecyclePersistence LifecycleError :=
  if existsb (fun r' => (tr_task_id r' ==? tr_task_id r) || (tr_key r' ==? tr_key r)) (task_table db)
  then Err (Storage "UNIQUE constraint failed")
  else Ok (with_tables db (task_table db ++ [r]) (event_table db)).

Definition insert_event (db : SqliteLifecyclePersistence) (e : event_row)
    : result SqliteLifecyclePersistence LifecycleError :=
  if existsb (fun e' => (er_task_id e' ==? er_task_id e) && (er_sequence e' =? er_sequence e)) (event_table db)
  then Err (Storage "UNIQUE constraint failed")
  else Ok (with_tables db (task_table db) (event_table db ++ [e])).

Definition update_task (db : SqliteLifecyclePersistence) (t state : string) (sequence now : Z)
    : SqliteLifecyclePersistence :=
  with_tables db
    ((fun r => if tr_task_id r ==? t
               then mkTaskRow (tr_task_id r) (tr_key r) (tr_digest r) state sequence now else r)
       <$> task_table db)
    (event_table db).

Definition delete_events_below (db : SqliteLifecyclePersistence) (t : string) (cutoff : Z)
    : SqliteLifecyclePersistence :=
  with_tables db (task_table db)
    (List.filter (fun e => negb ((er_task_id e ==? t) && (er_sequence e <? cutoff))) (event_table db)).

(** ** Transactions *)

Inductive tx_end (A : Type) :=
| Commit (r : result A LifecycleError) (db : SqliteLifecyclePersistence)
| Rollback (e : LifecycleError).
Arguments Commit {A} r db.
Arguments Rollback {A} e.

Definition run_tx {A} (db : SqliteLifecyclePersistence) (t : tx_end A)
    : result A LifecycleError * SqliteLifecyclePersistence :=
  match t with Commit r db' => (r, db') | Rollback e => (Err e, db) end.

(** [?] inside a transaction: the error drops the transaction. *)
Definition tx_try {A B} (r : result A LifecycleError) (k : A -> tx_end B) : tx_end B :=
  match r with Ok a => k a | Err e => Rollback e end.
Local Notation "'try?' x := e 'in' k" := (tx_try e (fun x => k))
  (at level 200, x pattern, e at level 200, k at level 200).

(** ** Content-free details *)

Definition safe_token (value : string) : result unit LifecycleError :=
  if str_is_empty value || (256 <? str_len value)
     || negb (str_all (fun c => is_ascii_alphanumeric c || char_in c "._:-") value)
  then Err (Conflict "invalid durable lifecycle token")
  else Ok tt.

Definition detail_progress (value : json) : result json LifecycleError :=
  let? progress := ok_or (as_object value) (Conflict "invalid durable lifecycle progress") in
  if existsb (fun kv => negb (str_in kv.1 ["completed_units"; "total_units"; "unit"])) progress
  then Err (Conflict "invalid durable lifecycle progress")
  else
    let counts := Conflict "invalid durable lifecycle progress counts" in
    let? completed := ok_or (obj_get progress "completed_units" ≫= as_u64) counts in
    let? total := ok_or (obj_get progress "total_units" ≫= as_u64) counts in
    if total <? completed then Err counts
    else
      let? _ := match obj_get progress "unit" with
                | Some unit =>
                    let? s := ok_or (as_str unit) (Conflict "invalid progress unit") in safe_token s
                | None => Ok tt
                end in
      Ok value.

Definition detail_digest (key : string) (value : json) : result json LifecycleError :=
  let? digest := ok_or (as_str value) (Conflict ("invalid " +:+ key)) in
  let hex := default digest (strip_prefix "sha256:" digest) in
  if negb (str_len hex =? 64) || negb (str_all is_ascii_hexdigit hex)
  then Err (Conflict ("invalid " +:+ key))
  else Ok (JString (to_ascii_lowercase digest)).

Definition detail_token (key : string) (value : json) : result json LifecycleError :=
  let? s := ok_or (as_str value) (Conflict ("invalid durable lifecycle " +:+ key)) in
  let? _ := safe_token s in
  Ok value.

(** One arm of the [match] on the key. *)
Definition detail_field (key : string) (value : json) : result json LifecycleError :=
  if key ==? "progress" then detail_progress value
  else if str_in key ["receipt_digest"; "checkpoint_digest"] then detail_digest key value
  else if str_in key ["event_id"; "reason_code"; "outcome"] then detail_token key value
  else Err (Conflict ("durable lifecycle detail contains unsupported field: " +:+ key)).

Fixpoint detail_fields (object : list (string * json)) (acc : list (string * json))
    : result (list (string * json)) LifecycleError :=
  match object with
  | [] => Ok acc
  | (key, value) :: object =>
      let? v := detail_field key value in
      detail_fields object (obj_insert key v acc)
  end.

Definition content_free_detail (detail : json) : result json LifecycleError :=
  if is_null detail then Ok (JObject [])
  else
    let? object := ok_or (as_object detail) (Conflict "durable lifecycle detail must be an object") in
    let? m := detail_fields object [] in
    Ok (JObject m).

Section sqlite.
Context {json_codec : JsonCodec}.

Definition row_event (e : event_row) : result LifecycleEvent LifecycleError :=
  let? detail := map_err (fun m => Storage m) (json_from_slice (er_detail e)) in
  Ok (mkLEvent (er_task_id e) (er_sequence e) (er_state e) (negb (er_is_final e =? 0))
        (er_observed e) detail).

Fixpoint row_events (l : list event_row) : result (list LifecycleEvent) LifecycleError :=
  match l with
  | [] => Ok []
  | e :: l => let? ev := row_event e in let? evs := row_events l in Ok (ev :: evs)
  end.

Definition load_record (db : SqliteLifecyclePersistence) (task_id : string)
    : result LifecycleRecord LifecycleError :=
  let? task := ok_or (task_by_id db task_id) UnknownTask in
  let? evs := row_events (order_by_sequence (events_of_task db task_id)) in
  match evs with
  | [] => Err (Storage "task has no lifecycle events")
  | _ => Ok (mkLRecord (tr_task_id task) (tr_key task) (tr_digest task) (tr_state task) evs (tr_updated task))
  end.

Definition submit_sync (db : SqliteLifecyclePersistence) (task_id key digest : string) (now : Z)
    : result (LifecycleRecord * bool) LifecycleError * SqliteLifecyclePersistence :=
  run_tx db
    match task_by_id_or_key db task_id key with
    | Some existing =>
        if negb ((tr_task_id existing ==? task_id) && (tr_key existing ==? key)
                 && (tr_digest existing ==? digest))
        then Rollback (Conflict "task or idempotency identifier reused for different content")
        else try? record := load_record db task_id in Commit (Ok (record, false)) db
    | None =>
        try? now := sql_u64 now in
        try? db1 := insert_task db (mkTaskRow task_id key digest "accepted" 0 now) in
        try? db2 := insert_event db1 (mkEventRow task_id 0 "accepted" 0 now [x7b; x7d]) in
        try? record := load_record db2 task_id in
        Commit (Ok (record, true)) db2
    end.

Definition status_sync (db : SqliteLifecyclePersistence) (task_id : string) (now : Z)
    : result LifecycleRecord LifecycleError * SqliteLifecyclePersistence :=
  run_tx db
    match task_by_id db task_id with
    | None => Rollback UnknownTask
    | Some row =>
        if terminal (tr_state row) && (sq_ttl_ms db <? u64_sat_sub now (tr_updated row))
        then Commit (Err UnknownTask) (delete_task db task_id)
        else try? record := load_record db task_id in Commit (Ok record) db
    end.

Definition transition_sync (db : SqliteLifecyclePersistence) (task_id requested_state : string)
    (detail : json) (now : Z) : result LifecycleEvent LifecycleError * SqliteLifecyclePersistence :=
  let state := resolve_state requested_state in
  match content_free_detail detail with
  | Err e => (Err e, db)
  | Ok detail =>
      let detail_json := json_to_vec detail in
      run_tx db
        match task_by_id db task_id with
        | None => Rollback UnknownTask
        | Some current =>
            if negb (legal_transition (tr_state current) state)
            then Rollback (Conflict ("illegal transition " +:+ tr_state current +:+ " -> " +:+ state))
            else
              try? sequence := sql_u64 (u64_add (tr_latest current) 1) in
              try? now := sql_u64 now in
              let db1 := update_task db task_id state sequence now in
              try? db2 := insert_event db1
                (mkEventRow task_id sequence state (if terminal state then 1 else 0) now detail_json) in
              let cutoff := u64_sat_sub sequence (sq_max_events db - 1) in
              let db3 := delete_events_below db2 task_id cutoff in
              Commit (Ok (mkLEvent task_id sequence state (terminal state) now detail)) db3
        end
  end.

Definition cancel_sync (db : SqliteLifecyclePersistence) (task_id : string) (clock : Z * Z * Z)
    : result LifecycleRecord LifecycleError * SqliteLifecyclePersistence :=
  let '(now1, now2, now3) := clock in
  match status_sync db task_id now1 with
  | (Err e, db) => (Err e, db)
  | (Ok current, db) =>
      if terminal (lr_state current) then status_sync db task_id now3
      else match transition_sync db task_id "cancelled" cancel_detail now2 with
           | (Err e, db) => (Err e, db)
           | (Ok _, db) => status_sync db task_id now3
           end
  end.

Definition events_after_sync (db : SqliteLifecyclePersistence) (task_id : string) (after_sequence now : Z)
    : result (list LifecycleEvent) LifecycleError * SqliteLifecyclePersistence :=
  match status_sync db task_id now with
  | (Err e, db) => (Err e, db)
  | (Ok record, db) => (events_of record after_sequence, db)
  end.

#[export] Instance sqlite_persistence : LifecyclePersistence SqliteLifecyclePersistence := {|
  p_submit := submit_sync;
  p_status := status_sync;
  p_transition := transition_sync;
  p_cancel := cancel_sync;
  p_events_after := events_after_sync
|}.

(** ** The simulation *)

(** A row and the event it stores; its detail is readable. *)
Definition row_sim (row : event_row) (e : LifecycleEvent) : Prop :=
  er_task_id row = le_task_id e /\ er_sequence row = le_sequence e /\ er_state row = le_state e /\
  er_is_final row = (if le_is_final e then 1 else 0) /\ er_observed row = observed_at_ms e /\
  is_ok (json_from_slice (er_detail row)) = true.

Definition task_sim (row : task_row) (r : LifecycleRecord) : Prop :=
  tr_task_id row = lr_task_id r /\ tr_key row = idempotency_key r /\ tr_digest row = request_digest r /\
  tr_state row = lr_state r /\ tr_latest row = latest_sequence r /\ tr_updated row = updated_at_ms r.

Record sim (n : Z) (db : SqliteLifecyclePersistence) (st : LifecycleStore) : Prop := {
  sim_ok : store_ok n st;
  sim_max : sq_max_events db = max_events st;
  sim_ttl : sq_ttl_ms db = terminal_status_ttl_ms st;
  sim_rows : forall row, row ∈ task_table db ->
    exists r, records st !! tr_task_id row = Some r /\ task_sim row r;
  sim_tasks : forall t r, records st !! t = Some r -> exists row, row ∈ task_table db /\ tr_task_id row = t;
  sim_events : forall t, Forall2 row_sim (events_of_task db t)
    (match records st !! t with Some r => events r | None => [] end)
}.

(** What a caller sees, up to details and the wording of conflicts. *)
Definition erase_event (e : LifecycleEvent) : LifecycleEvent :=
  mkLEvent (le_task_id e) (le_sequence e) (le_state e) (le_is_final e) (observed_at_ms e) JNull.
Definition erase_record (r : LifecycleRecord) : LifecycleRecord :=
  mkLRecord (lr_task_id r) (idempotency_key r) (request_digest r) (lr_state r)
    (erase_event <$> events r) (updated_at_ms r).
Definition erase_result {A} (f : A -> A) (r : result A LifecycleError) : result A LifecycleError :=
  match r with
  | Ok a => Ok (f a)
  | Err (Conflict _) => Err (Conflict EmptyString)
  | Err e => Err e
  end.

Inductive observation :=
| SawSubmit (r : result (LifecycleRecord * bool) LifecycleError)
| SawRecord (r : result LifecycleRecord LifecycleError)
| SawEvent (r : result LifecycleEvent LifecycleError)
| SawEvents (r : result (list LifecycleEvent) LifecycleError).

Definition port_obs {S} `{LifecyclePersistence S} (s : S) (o : lifecycle_op) : observation :=
  match o with
  | OSubmit t k d now => SawSubmit (erase_result (prod_map erase_record id) (p_submit s t k d now).1)
  | OStatus t now => SawRecord (erase_result erase_record (p_status s t now).1)
  | OTransition t st d now => SawEvent (erase_result erase_event (p_transition s t st d now).1)
  | OCancel t c => SawRecord (erase_result erase_record (p_cancel s t c).1)
  | OEventsAfter t a now => SawEvents (erase_result (fmap erase_event) (p_events_after s t a now).1)
  end.

Fixpoint port_trace {S} `{LifecyclePersistence S} (s : S) (ops : list lifecycle_op) : list observation :=
  match ops with [] => [] | o :: ops => port_obs s o :: port_trace (port_step s o) ops end.

(** Operations within the range of SQLite's integers, with details the
    durable store admits. *)
Definition clock_ok (now : Z) : Prop := now <= i64_max.
Definition detail_ok (d : json) : Prop :=
  exists d', content_free_detail d = Ok d' /\ json_plain JSON_RECURSION_LIMIT d' = true.
Definition op_ok (o : lifecycle_op) : Prop :=
  match o with
  | OSubmit _ _ _ now => clock_ok now
  | OTransition _ _ d now => clock_ok now /\ detail_ok d
  | OCancel _ (_, now2, _) => clock_ok now2
  | _ => True
  end.

Lemma find_Some {A} (p : A -> bool) l x : List.find p l = Some x -> x ∈ l /\ p x = true.
Proof. intros H. apply List.find_some in H as [H1 H2]. by rewrite list_elem_of_In. Qed.

Lemma find_None {A} (p : A -> bool) l x : List.find p l = None -> x ∈ l -> p x = false.
Proof. intros H Hx. apply (List.find_none p l H). by apply list_elem_of_In. Qed.

Lemma task_by_id_sim n db st t :
  sim n db st ->
  match records st !! t with
  | Some r => exists row, task_by_id db t = Some row /\ task_sim row r /\ lr_task_id r = t
  | None => task_by_id db t = None
  end.
Proof.
  intros Hs. unfold task_by_id. destruct (records st !! t) as [r|] eqn:Hr.
  - pose proof (rok_task _ _ _ _ (sok_records _ _ (sim_ok _ _ _ Hs) t r Hr)) as Ht.
    destruct (List.find _ _) as [row|] eqn:E.
    + apply find_Some in E as [Hin Heq%String.eqb_eq].
      destruct (sim_rows _ _ _ Hs row Hin) as (r' & Hr' & Hsim). rewrite Heq, Hr in Hr'. simplify_eq. eauto.
    + destruct (sim_tasks _ _ _ Hs t r Hr) as (row & Hin & Heq).
      pose proof (find_None _ _ row E Hin) as E'. simpl in E'. by rewrite Heq, String.eqb_refl in E'.
  - destruct (List.find _ _) as [row|] eqn:E; [|done].
    apply find_Some in E as [Hin Heq%String.eqb_eq].
    destruct (sim_rows _ _ _ Hs row Hin) as (r' & Hr' & _). congruence.
Qed.

(** ** Reading *)

Lemma row_events_sim rows es :
  Forall2 row_sim rows es -> exists evs, row_events rows = Ok evs /\ erase_event <$> evs = erase_event <$> es.
Proof.
  induction 1 as [|row e rows es Hr _ IH]; [by exists []|].
  destruct IH as (evs & E & Eq). destruct Hr as (H1 & H2 & H3 & H4 & H5 & H6).
  cbn [row_events]. unfold row_event. destruct (json_from_slice (er_detail row)) as [d|]; [|done].
  simpl. rewrite E. simpl. eexists. split; [done|]. rewrite !fmap_cons, Eq. f_equal.
  unfold erase_event. simpl. rewrite H1, H2, H3, H4, H5. by destruct (le_is_final e).
Qed.

Lemma order_by_sequence_sorted f (l : list event_row) :
  (forall i e, l !! i = Some e -> er_sequence e = f + Z.of_nat i) -> order_by_sequence l = l.
Proof.
  revert f. induction l as [|e l IH]; intros f Hl; [done|]. cbn.
  assert (order_by_sequence l = l) as ->.
  { apply (IH (f + 1)). intros i e' Hi. rewrite (Hl (S i) e' Hi). lia. }
  destruct l as [|e' l]; [done|]. cbn [insert_by_sequence].
  pose proof (Hl 0%nat e eq_refl). pose proof (Hl 1%nat e' eq_refl).
  by rewrite (proj2 (Z.leb_le _ _)) by lia.
Qed.

(** The stored rows of a task carry its consecutive sequence numbers. *)
Lemma rows_contiguous n db st t r :
  sim n db st -> records st !! t = Some r ->
  Forall2 row_sim (events_of_task db t) (events r) /\
  exists f, 0 <= f /\ latest_sequence r = f + zlen (events r) - 1 /\ events r <> [] /\
    (forall i e, events r !! i = Some e -> le_sequence e = f + Z.of_nat i) /\
    (forall i row, events_of_task db t !! i = Some row -> er_sequence row = f + Z.of_nat i).
Proof.
  intros Hs Hr. pose proof (sim_events _ _ _ Hs t) as HF. rewrite Hr in HF. split; [done|].
  pose proof (sok_records _ _ (sim_ok _ _ _ Hs) t r Hr) as Hok.
  destruct (record_latest _ _ _ _ Hok) as (el & Hl & Els & _).
  destruct Hok as [_ _ (f & Hf & Hev) _ _ _]. exists f.
  assert (forall i e, events r !! i = Some e -> le_sequence e = f + Z.of_nat i) as Hseq
    by (intros i e H; apply Hev in H as (_ & H & _); exact H).
  split; [done|]. split; [|split; [by intros E; rewrite E in Hl|split; [done|]]].
  - rewrite Els, last_lookup in *. pose proof Hl as Hlt%lookup_lt_Some. rewrite (Hseq _ _ Hl).
    unfold zlen. lia.
  - intros i row Hi. destruct (Forall2_lookup_l _ _ _ _ _ HF Hi) as (e & He & Hrow).
    destruct Hrow as (_ & -> & _). eauto.
Qed.

Lemma load_record_sim n db st t r :
  sim n db st -> records st !! t = Some r ->
  exists r', load_record db t = Ok r' /\ erase_record r' = erase_record r.
Proof.
  intros Hs Hr. destruct (rows_contiguous _ _ _ _ _ Hs Hr) as (HF & f & Hf & _ & Hne & Hseq & Hrow).
  pose proof (task_by_id_sim _ _ _ t Hs) as Ht. rewrite Hr in Ht.
  destruct Ht as (row & Et & (H1 & H2 & H3 & H4 & H5 & H6) & _).
  destruct (row_events_sim _ _ HF) as (evs & Ee & Eq).
  unfold load_record. rewrite Et. simpl. rewrite (order_by_sequence_sorted f) by done. rewrite Ee. simpl.
  destruct evs as [|ev evs]; [by destruct (events r)|].
  eexists. split; [done|]. unfold erase_record. simpl.
  rewrite H1, H2, H3, H4, H6. f_equal. by rewrite <- Eq.
Qed.

(** ** Writing *)

Lemma filter_filter {A} (p q r : A -> bool) l :
  (forall x, p x && q x = r x) -> List.filter p (List.filter q l) = List.filter r l.
Proof.
  intros H. induction l as [|x l IH]; simpl; [done|]. rewrite <- (H x).
  destruct (q x); simpl; [destruct (p x); simpl; by rewrite IH|].
  by rewrite andb_false_r.
Qed.

Lemma filter_comm {A} (p q : A -> bool) l :
  List.filter p (List.filter q l) = List.filter q (List.filter p l).
Proof. rewrite !(filter_filter _ _ (fun x => p x && q x)); [done| |done]. intros x. apply andb_comm. Qed.

Lemma elem_of_filter' {A} (p : A -> bool) l x : x ∈ List.filter p l <-> x ∈ l /\ p x = true.
Proof. rewrite !list_elem_of_In. apply List.filter_In. Qed.

Lemma events_of_task_delete db t t' :
  events_of_task (delete_task db t) t' = if t' ==? t then [] else events_of_task db t'.
Proof.
  unfold events_of_task, delete_task. simpl. destruct (String.eqb_spec t' t) as [->|Hne].
  - rewrite (filter_filter _ _ (fun _ => false)); [|intros x; by destruct (_ ==? _)].
    induction (event_table db); done.
  - apply filter_filter. intros x. destruct (String.eqb_spec (er_task_id x) t') as [->|]; simpl; [|done].
    by destruct (String.eqb_spec t' t).
Qed.

Lemma delete_task_sim n db st t :
  sim n db st -> sim n (delete_task db t) (set_records st (delete t (records st))).
Proof.
  intros [H1 H2 H3 H4 H5 H6]. split; try done.
  - by apply store_ok_delete.
  - intros row. simpl. rewrite elem_of_filter'. intros [Hin Hne]. destruct (H4 row Hin) as (r & Hr & Hs).
    exists r. split; [|done]. apply lookup_delete_Some. split; [|done].
    apply negb_true_iff, String.eqb_neq in Hne. congruence.
  - intros t' r Hr. simpl in Hr. apply lookup_delete_Some in Hr as [Hne Hr]. destruct (H5 t' r Hr) as (row & Hin & Ht).
    exists row. split; [|done]. simpl. rewrite elem_of_filter'. split; [done|].
    rewrite Ht. by destruct (String.eqb_spec t' t); [congruence|].
  - intros t'. rewrite events_of_task_delete. simpl. destruct (String.eqb_spec t' t) as [->|Hne].
    + rewrite lookup_delete_eq. constructor.
    + rewrite lookup_delete_ne by done. apply H6.
Qed.

Lemma status_sim n db st t now :
  sim n db st ->
  erase_result erase_record (status_sync db t now).1 = erase_result erase_record (status st t now).1 /\
  sim n (status_sync db t now).2 (status st t now).2.
Proof.
  intros Hs. pose proof (task_by_id_sim _ _ _ t Hs) as Ht. unfold status_sync, status.
  destruct (records st !! t) as [r|] eqn:Hr.
  - destruct Ht as (row & -> & (_ & _ & _ & H4 & _ & H6) & _). rewrite H4, H6, (sim_ttl _ _ _ Hs).
    simpl. unfold expired. destruct (_ && _); simpl.
    + rewrite lookup_delete_eq. split; [done|by apply delete_task_sim].
    + destruct (load_record_sim _ _ _ _ _ Hs Hr) as (r' & -> & E). simpl. rewrite Hr. simpl. by rewrite E.
  - rewrite Ht. simpl. rewrite Hr. done.
Qed.

Lemma existsb_false {A} (p : A -> bool) l : (forall x, x ∈ l -> p x = false) -> existsb p l = false.
Proof.
  intros H. apply not_true_iff_false. intros (x & Hx & E)%existsb_exists.
  apply list_elem_of_In in Hx. by rewrite H in E.
Qed.

Lemma events_of_task_snoc db ts e t :
  events_of_task (with_tables db ts (event_table db ++ [e])) t =
  events_of_task db t ++ (if er_task_id e ==? t then [e] else []).
Proof. unfold events_of_task. simpl. rewrite List.filter_app. simpl. by destruct (_ ==? _). Qed.

(** The fresh rows of a submission. *)
Lemma submit_fresh_sim n db st t k d now :
  0 <= n -> sim n db st -> records st !! t = None -> key_in_use (records st) k = false ->
  let db2 := with_tables db (task_table db ++ [mkTaskRow t k d "accepted" 0 now])
               (event_table db ++ [mkEventRow t 0 "accepted" 0 now [x7b; x7d]]) in
  sim n db2 (set_records st (<[t := accepted_record t k d now]> (records st))).
Proof.
  intros Hn Hs Hr Hk db2. pose proof Hs as [H1 H2 H3 H4 H5 H6]. split; try done.
  - pose proof (submit_ok n st t k d now Hn H1) as H. unfold submit in H. by rewrite Hr, Hk in H.
  - intros row. simpl. rewrite elem_of_app, list_elem_of_singleton. intros [Hin| ->].
    + destruct (H4 row Hin) as (r & Hr' & Hsim). exists r. split; [|done].
      rewrite lookup_insert_ne; [done|congruence].
    + simpl. rewrite lookup_insert_eq. eexists. split; [done|]. done.
  - intros t' r Hr0. simpl in Hr0. apply lookup_insert_Some in Hr0 as [[<- <-]|[Hne Hr']]; simpl.
    + eexists. rewrite elem_of_app, list_elem_of_singleton. split; [by right|done].
    + destruct (H5 t' r Hr') as (row & Hin & Ht). exists row. rewrite elem_of_app. auto.
  - intros t'. unfold db2. rewrite events_of_task_snoc. simpl. specialize (H6 t').
    destruct (String.eqb_spec t t') as [<-|Hne].
    + rewrite lookup_insert_eq. rewrite Hr in H6. apply Forall2_nil_inv_r in H6. rewrite H6. simpl.
      constructor; [|constructor]. unfold row_sim. simpl. by rewrite json_from_braces.
    + rewrite lookup_insert_ne by done. by rewrite app_nil_r.
Qed.

Lemma submit_sim n db st t k d now :
  0 <= n -> sim n db st -> clock_ok now ->
  erase_result (prod_map erase_record id) (submit_sync db t k d now).1 =
  erase_result (prod_map erase_record id) (submit st t k d now).1 /\
  sim n (submit_sync db t k d now).2 (submit st t k d now).2.
Proof.
  intros Hn Hs Hc. unfold submit_sync, submit.
  assert (forall row, task_by_id_or_key db t k = Some row -> exists r,
    records st !! tr_task_id row = Some r /\ task_sim row r /\ (tr_task_id row = t \/ tr_key row = k)) as Hfound.
  { intros row [Hin E]%find_Some. destruct (sim_rows _ _ _ Hs row Hin) as (r & Hr & Hsim).
    exists r. repeat split; try done; try apply Hsim. apply orb_true_iff in E as [E|E];
      apply String.eqb_eq in E; auto. }
  destruct (records st !! t) as [r|] eqn:Hr.
  - destruct (sim_tasks _ _ _ Hs t r Hr) as (row0 & Hin0 & Ht0).
    destruct (task_by_id_or_key db t k) as [row|] eqn:Ef.
    2: { pose proof (find_None _ _ row0 Ef Hin0) as E. simpl in E. by rewrite Ht0, String.eqb_refl in E. }
    destruct (Hfound row eq_refl) as (r' & Hr' & (E1 & E2 & E3 & _) & Hor).
    destruct (String.eqb_spec (tr_task_id row) t) as [Et|Et]; simpl.
    + rewrite Et, Hr in Hr'. simplify_eq. rewrite E2, E3.
      destruct (idempotency_key r' ==? k), (request_digest r' ==? d); simpl; try done.
      destruct (load_record_sim _ _ _ _ _ Hs Hr) as (r2 & -> & E). simpl. unfold prod_map. simpl. by rewrite E.
    + destruct Hor as [|Hk]; [done|]. destruct (String.eqb_spec (idempotency_key r) k) as [Ek|]; simpl; [|done].
      exfalso. apply Et. apply (sok_keys _ _ (sim_ok _ _ _ Hs) _ _ r' r Hr' Hr). congruence.
  - destruct (key_in_use (records st) k) eqn:Ek.
    + apply key_in_use_true in Ek as (t' & r' & Hr' & Ekey).
      destruct (sim_tasks _ _ _ Hs t' r' Hr') as (row0 & Hin0 & Ht0).
      destruct (sim_rows _ _ _ Hs row0 Hin0) as (r0 & Hr0 & (_ & Ek0 & _)). rewrite Ht0, Hr' in Hr0. simplify_eq.
      destruct (task_by_id_or_key db t (idempotency_key r0)) as [row|] eqn:Ef.
      2: { pose proof (find_None _ _ row0 Ef Hin0) as E. simpl in E. by rewrite Ek0, String.eqb_refl, orb_true_r in E. }
      destruct (Hfound row eq_refl) as (r1 & Hr1 & _).
      destruct (String.eqb_spec (tr_task_id row) t) as [Et|Et]; [congruence|]. done.
    + pose proof (key_in_use_false _ _ Ek) as Hk.
      destruct (task_by_id_or_key db t k) as [row|] eqn:Ef.
      { exfalso. destruct (Hfound row eq_refl) as (r & Hr' & (_ & E2 & _) & [Ht|Hkey]); [congruence|].
        apply (Hk _ _ Hr'). congruence. }
      unfold sql_u64. rewrite (proj2 (Z.leb_le _ _) Hc). cbn [tx_try]. unfold insert_task.
      rewrite existsb_false.
      2: { intros row Hin. simpl. exact (find_None _ _ row Ef Hin). }
      cbn [tx_try]. unfold insert_event. cbn [event_table with_tables].
      rewrite existsb_false.
      2: { intros e Hin. simpl. destruct (String.eqb_spec (er_task_id e) t) as [Et|]; [|done]. exfalso.
           pose proof (sim_events _ _ _ Hs t) as HF. rewrite Hr in HF. apply Forall2_nil_inv_r in HF.
           assert (e ∈ events_of_task db t) as He.
           { apply elem_of_filter'. split; [done|]. by rewrite Et, String.eqb_refl. }
           rewrite HF in He. by apply elem_of_nil in He. }
      cbn [tx_try]. pose proof (submit_fresh_sim n db st t k d now Hn Hs Hr Ek) as Hs2. simpl in Hs2.
      change (with_tables (with_tables db ?ts ?es) ?ts' ?es') with (with_tables db ts' es').
      cbn [task_table with_tables].
      destruct (load_record_sim _ _ _ t (accepted_record t k d now) Hs2) as (r' & E & Er).
      { simpl. by rewrite lookup_insert_eq. }
      unfold with_tables in *. simpl in *. rewrite E. simpl. unfold prod_map. simpl. by rewrite Er.
Qed.

Lemma sim_mono n n' db st : n <= n' -> sim n db st -> sim n' db st.
Proof. intros Hn [H1 H2 H3 H4 H5 H6]. split; try done. by eapply store_ok_mono. Qed.

(** The events of a task after a transition's insert and delete. *)
Lemma events_of_task_next db ts t e cutoff t' :
  er_task_id e = t ->
  events_of_task (delete_events_below (with_tables db ts (event_table db ++ [e])) t cutoff) t' =
  if t' ==? t then List.filter (fun e => cutoff - 1 <? er_sequence e) (events_of_task db t ++ [e])
  else events_of_task db t'.
Proof.
  intros Ht. unfold delete_events_below, events_of_task at 1. cbn [event_table with_tables].
  destruct (String.eqb_spec t' t) as [->|Hne].
  - assert (events_of_task db t ++ [e] =
      List.filter (fun x => er_task_id x ==? t) (event_table db ++ [e])) as ->.
    { rewrite List.filter_app. simpl. by rewrite Ht, String.eqb_refl. }
    rewrite !(filter_filter _ _ (fun x => (er_task_id x ==? t) && (cutoff - 1 <? er_sequence x))).
    + done.
    + intros x. apply andb_comm.
    + intros x. destruct (er_task_id x ==? t); simpl; [|done].
      destruct (Z.ltb_spec (er_sequence x) cutoff), (Z.ltb_spec (cutoff - 1) (er_sequence x)); simpl; try done; lia.
  - rewrite (filter_filter _ _ (fun x => er_task_id x ==? t')).
    + rewrite List.filter_app. simpl. rewrite Ht.
      destruct (String.eqb_spec t t') as [|_]; [congruence|]. apply app_nil_r.
    + intros x. destruct (String.eqb_spec (er_task_id x) t') as [->|]; simpl; [|done].
      destruct (String.eqb_spec t' t); [done|]. done.
Qed.

(** Deleting below the cutoff keeps the rows the in-memory store keeps. *)
Lemma cutoff_keep_newest max f rows row (es : list LifecycleEvent) e :
  2 <= max -> 0 <= f -> Forall2 row_sim rows es -> row_sim row e ->
  (forall i r, rows !! i = Some r -> er_sequence r = f + Z.of_nat i) ->
  er_sequence row = f + zlen es ->
  Forall2 row_sim
    (List.filter (fun x => u64_sat_sub (f + zlen es) (max - 1) - 1 <? er_sequence x) (rows ++ [row]))
    (keep_newest max (es ++ [e])).
Proof.
  intros Hm Hf HF Hrow Hseq Hs. pose proof (Forall2_length _ _ _ HF) as Hlen.
  rewrite (filter_contiguous er_sequence _ f).
  2: { intros i r [Hi|[Hi Hr]]%lookup_app_Some; [eauto|].
       destruct (i - length rows)%nat as [|j] eqn:Ej; simplify_eq/=. rewrite Hs. unfold zlen. lia. }
  assert (Forall2 row_sim (rows ++ [row]) (es ++ [e])) as HF' by (apply Forall2_app; auto).
  unfold keep_newest. rewrite zlen_app. change (zlen [e]) with 1.
  unfold u64_sat_sub. destruct (Z.ltb_spec max (zlen es + 1)).
  - replace (Z.to_nat (Z.max (f + zlen es - (max - 1)) 0 - 1 + 1 - f)) with (Z.to_nat (zlen es + 1 - max)) by lia.
    by apply Forall2_drop.
  - replace (Z.to_nat (Z.max (f + zlen es - (max - 1)) 0 - 1 + 1 - f)) with 0%nat by lia.
    by rewrite drop_0.
Qed.

Lemma transition_sim n db st t s d now :
  0 <= n -> n + 1 <= i64_max -> sim n db st -> clock_ok now -> detail_ok d ->
  erase_result erase_event (transition_sync db t s d now).1 =
  erase_result erase_event (transition st t s d now).1 /\
  sim (n + 1) (transition_sync db t s d now).2 (transition st t s d now).2.
Proof.
  intros Hn Hn1 Hs Hc (d' & Hd & Hp). unfold transition_sync, transition. rewrite Hd.
  pose proof (task_by_id_sim _ _ _ t Hs) as Ht.
  assert (sim (n + 1) db st) as Hs1 by (by apply (sim_mono n); [lia|]).
  destruct (records st !! t) as [r|] eqn:Hr; [|by rewrite Ht].
  destruct Ht as (row & -> & (E1 & E2 & E3 & E4 & E5 & E6) & Etask). rewrite E4, E5.
  destruct (legal_transition (lr_state r) (resolve_state s)) eqn:El; simpl; [|done].
  destruct (rows_contiguous _ _ _ _ _ Hs Hr) as (HF & f & Hf & Hlat & Hne & Hseq & Hrow).
  pose proof (sok_records _ _ (sim_ok _ _ _ Hs) t r Hr) as Hok.
  destruct (record_latest _ _ _ _ Hok) as (el & _ & Els & _ & Hlr).
  unfold i64_max, u64_max in *.
  rewrite u64_add_small by (unfold u64_max; lia). unfold sql_u64.
  rewrite (proj2 (Z.leb_le (latest_sequence r + 1) _)) by (unfold i64_max; lia). cbn [tx_try].
  rewrite (proj2 (Z.leb_le now _) Hc). cbn [tx_try].
  unfold insert_event. cbn [event_table update_task with_tables].
  rewrite existsb_false.
  2: { intros e Hin. simpl. destruct (String.eqb_spec (er_task_id e) t) as [Et|]; [|done]. simpl.
       assert (e ∈ events_of_task db t) as He.
       { apply elem_of_filter'. split; [done|]. by rewrite Et, String.eqb_refl. }
       apply list_elem_of_lookup in He as [i Hi]. rewrite (Hrow _ _ Hi).
       apply lookup_lt_Some in Hi. rewrite (Forall2_length _ _ _ HF) in Hi. unfold zlen in *.
       apply Z.eqb_neq. lia. }
  cbn [tx_try run_tx fst snd]. split; [done|].
  set (ev := mkLEvent _ _ _ _ _ d). set (erow := mkEventRow _ _ _ _ _ _).
  change (with_tables (update_task db t (resolve_state s) (latest_sequence r + 1) now))
    with (with_tables db).
  split.
  - pose proof (transition_ok n st t s d now ltac:(unfold u64_max; lia) (sim_ok _ _ _ Hs)) as H.
    unfold transition in H. rewrite Hr, El in H. simpl in H.
    rewrite u64_add_small in H by (unfold u64_max; lia). exact H.
  - apply Hs.
  - apply Hs.
  - intros row'. simpl. intros (row0 & -> & Hin)%list_elem_of_fmap.
    destruct (sim_rows _ _ _ Hs row0 Hin) as (r0 & Hr0 & Hsim0).
    destruct (String.eqb_spec (tr_task_id row0) t) as [Et|Et]; simpl.
    + rewrite Et, lookup_insert_eq. eexists. split; [done|]. rewrite Et, Hr in Hr0. simplify_eq.
      destruct Hsim0 as (F1 & F2 & F3 & F4 & F5 & F6). unfold task_sim. simpl. repeat split; try done.
      unfold latest_sequence at 2. simpl.
      rewrite keep_newest_last; [done|]. pose proof (sok_max _ _ (sim_ok _ _ _ Hs)). lia.
    + rewrite lookup_insert_ne by done. eauto.
  - intros t' r' Hr'. simpl in Hr'. apply lookup_insert_Some in Hr' as [[<- <-]|[Hne' Hr']].
    + destruct (sim_tasks _ _ _ Hs t r Hr) as (row0 & Hin & Ht0).
      eexists. split; [simpl; apply list_elem_of_fmap; eexists; split; [reflexivity|exact Hin]|].
      by rewrite Ht0, String.eqb_refl.
    + destruct (sim_tasks _ _ _ Hs t' r' Hr') as (row0 & Hin & Ht0).
      eexists. split; [simpl; apply list_elem_of_fmap; eexists; split; [reflexivity|exact Hin]|].
      by destruct (tr_task_id row0 ==? t).
  - intros t'. rewrite events_of_task_next by done. simpl records.
    destruct (String.eqb_spec t' t) as [->|Hne'].
    + rewrite lookup_insert_eq. cbn [events].
      rewrite (sim_max _ _ _ Hs). replace (latest_sequence r + 1) with (f + zlen (events r)) by lia.
      apply cutoff_keep_newest; try done.
      * apply Hs.
      * unfold row_sim. simpl. rewrite json_from_to by done. by destruct (terminal _).
      * simpl. lia.
    + rewrite lookup_insert_ne by done. apply Hs.
Qed.

Lemma cancel_detail_ok : detail_ok cancel_detail.
Proof. exists cancel_detail. split; vm_compute; reflexivity. Qed.

(** Equal observations of fallible operations succeed or fail together. *)
Lemma erase_result_cases {A} (f : A -> A) (r r' : result A LifecycleError) :
  erase_result f r = erase_result f r' ->
  match r, r' with Ok a, Ok a' => f a = f a' | Err _, Err _ => True | _, _ => False end.
Proof. destruct r as [a|[]], r' as [a'|[]]; simpl; naive_solver. Qed.

Lemma cancel_sim n db st t now1 now2 now3 :
  0 <= n -> n + 1 <= i64_max -> sim n db st -> clock_ok now2 ->
  let c := (now1, now2, now3) in
  erase_result erase_record (cancel_sync db t c).1 = erase_result erase_record (cancel st t c).1 /\
  sim (n + 1) (cancel_sync db t c).2 (cancel st t c).2.
Proof.
  intros Hn Hn1 Hs Hc c. unfold cancel_sync, cancel, c.
  destruct (status_sim n db st t now1 Hs) as [E1 S1].
  destruct (status_sync db t now1) as [r1 db1], (status st t now1) as [r1' st1]; simpl in *.
  pose proof (erase_result_cases _ _ _ E1) as C1.
  destruct r1 as [cur|e], r1' as [cur'|e']; try done.
  2: { simpl. split; [done|]. by apply (sim_mono n); [lia|]. }
  assert (lr_state cur = lr_state cur') as -> by (by injection C1).
  assert (sim (n + 1) db1 st1) as S1' by (by apply (sim_mono n); [lia|]).
  destruct (terminal (lr_state cur')); [by apply status_sim|].
  destruct (transition_sim n db1 st1 t "cancelled" cancel_detail now2 Hn Hn1 S1 Hc cancel_detail_ok) as [E2 S2].
  destruct (transition_sync db1 t "cancelled" cancel_detail now2) as [r2 db2],
    (transition st1 t "cancelled" cancel_detail now2) as [r2' st2]; simpl in *.
  pose proof (erase_result_cases _ _ _ E2) as C2.
  destruct r2 as [ev|e], r2' as [ev'|e']; try done; [by apply status_sim|].
  simpl. split; [|done]. by destruct e, e'; simpl in *; simplify_eq.
Qed.

Lemma filter_fmap {A B} (f : A -> B) (p : B -> bool) (q : A -> bool) l :
  (forall x, p (f x) = q x) -> List.filter p (f <$> l) = f <$> List.filter q l.
Proof.
  intros H. induction l as [|x l IH]; [done|]. rewrite fmap_cons. cbn [List.filter].
  rewrite H, IH. by destruct (q x).
Qed.

Lemma events_of_erase r a :
  erase_result (fmap erase_event) (events_of r a) = events_of (erase_record r) a.
Proof.
  unfold events_of. simpl.
  assert (head (erase_event <$> events r) = erase_event <$> head (events r)) as -> by (by destruct (events r)).
  assert (latest_sequence (erase_record r) = latest_sequence r) as ->.
  { unfold latest_sequence. simpl. rewrite fmap_last. by destruct (last (events r)). }
  cbn [events erase_record lr_state].
  rewrite (filter_fmap erase_event _ (fun e => a <? u64_as_i64 (le_sequence e))) by done.
  by destruct (head (events r)) as [e|]; cbn [fmap option_fmap option_map]; destruct (_ && _).
Qed.

Lemma events_after_sim n db st t a now :
  sim n db st ->
  erase_result (fmap erase_event) (events_after_sync db t a now).1 =
  erase_result (fmap erase_event) (events_after st t a now).1 /\
  sim n (events_after_sync db t a now).2 (events_after st t a now).2.
Proof.
  intros Hs. unfold events_after_sync, events_after. destruct (status_sim n db st t now Hs) as [E S].
  destruct (status_sync db t now) as [r db'], (status st t now) as [r' st']; simpl in *.
  pose proof (erase_result_cases _ _ _ E) as C.
  destruct r as [r|e], r' as [r'|e']; try done; simpl.
  - split; [|done]. by rewrite !events_of_erase, C.
  - split; [|done]. by destruct e, e'; simpl in *; simplify_eq.
Qed.

Lemma step_sim n db st o :
  0 <= n -> n + 1 <= i64_max -> sim n db st -> op_ok o ->
  port_obs db o = port_obs st o /\ sim (n + 1) (port_step db o) (port_step st o).
Proof.
  intros Hn Hn1 Hs Ho.
  destruct o as [t k d now|t now|t s d now|t [[n1 n2] n3]|t a now]; cbn [port_obs port_step op_ok] in *.
  - destruct (submit_sim n db st t k d now Hn Hs Ho) as [E S].
    split; [exact (f_equal SawSubmit E)|]. by apply (sim_mono n); [lia|].
  - destruct (status_sim n db st t now Hs) as [E S].
    split; [exact (f_equal SawRecord E)|]. by apply (sim_mono n); [lia|].
  - destruct Ho as [Hc Hd]. destruct (transition_sim n db st t s d now Hn Hn1 Hs Hc Hd) as [E S].
    split; [exact (f_equal SawEvent E)|done].
  - destruct (cancel_sim n db st t n1 n2 n3 Hn Hn1 Hs Ho) as [E S].
    split; [exact (f_equal SawRecord E)|done].
  - destruct (events_after_sim n db st t a now Hs) as [E S].
    split; [exact (f_equal SawEvents E)|]. by apply (sim_mono n); [lia|].
Qed.

Lemma trace_sim ops n db st :
  0 <= n -> n + zlen ops <= i64_max -> sim n db st -> Forall op_ok ops ->
  port_trace db ops = port_trace st ops.
Proof.
  intros Hn Hu Hs Ho. revert n db st Hn Hu Hs. induction Ho as [|o ops Ho _ IH]; intros n db st Hn Hu Hs; [done|].
  rewrite zlen_cons in Hu. pose proof (zlen_nonneg ops). cbn [port_trace].
  destruct (step_sim n db st o Hn ltac:(lia) Hs Ho) as [-> S]. f_equal.
  apply (IH (n + 1)); [lia|lia|done].
Qed.

Lemma open_sim max ttl : sim 0 (sqlite_open max ttl) (store_new max ttl).
Proof.
  split; try done; [apply store_new_ok|by intros row ?%elem_of_nil].
Qed.

(** C3: the durable store refines the in-memory store: over every sequence of
    operations with admissible details and clock readings, both give the same
    observations (records, events, errors), up to the content of event details
    and the wording of conflicts. *)
Theorem sqlite_refines_memory max ttl ops :
  zlen ops <= i64_max -> Forall op_ok ops ->
  port_trace (sqlite_open max ttl) ops = port_trace (store_new max ttl) ops.
Proof. intros Hu Ho. apply (trace_sim ops 0); [lia|lia|apply open_sim|done]. Qed.
End sqlite.

Definition demo_ops : list lifecycle_op :=
  [OSubmit "t" "k" "d" 1; OSubmit "u" "k" "d" 1; OTransition "t" "running" JNull 2;
   OTransition "t" "streaming" (mk_obj [("event_id", JString "e1")]) 3; OEventsAfter "t" 0 3;
   OCancel "t" (4, 4, 5); OStatus "t" 5000].

Lemma sqlite_refines_memory_witness :
  port_trace (sqlite_open 2 1000) demo_ops = port_trace (store_new 2 1000) demo_ops.
Proof.
  apply (sqlite_refines_memory 2 1000 demo_ops).
  - vm_compute. discriminate.
  - apply Forall_cons; split; [vm_compute; discriminate|].
    apply Forall_cons; split; [vm_compute; discriminate|].
    apply Forall_cons; split; [split; [vm_compute; discriminate|]|].
    { exists (JObject []). split; vm_compute; reflexivity. }
    apply Forall_cons; split; [split; [vm_compute; discriminate|]|].
    { exists (mk_obj [("event_id", JString "e1")]). split; vm_compute; reflexivity. }
    apply Forall_cons; split; [exact I|].
    apply Forall_cons; split; [vm_compute; discriminate|].
    apply Forall_cons; split; [exact I|]. by apply Forall_nil.
Defined.

(** ** What a durable detail can contain *)

Definition token_text (s : string) : bool :=
  (str_len s <=? 256) && str_all (fun c => is_ascii_alphanumeric c || char_in c "._:-") s.

Definition is_lower_hex (c : Ascii.ascii) : bool :=
  is_ascii_digit c || ((97 <=? code c) && (code c <=? 102)).

(** 64 lower-case hexadecimal digits, with an optional [sha256:]. *)
Definition digest_text (s : string) : bool :=
  let hex := default s (strip_prefix "sha256:" s) in
  (str_len hex =? 64) && str_all is_lower_hex hex.

Definition progress_content (v : json) : bool :=
  match v with
  | JObject m =>
      forallb (fun kv => str_in kv.1 ["completed_units"; "total_units"; "unit"]) m
      && is_some (obj_get m "completed_units" ≫= as_u64) && is_some (obj_get m "total_units" ≫= as_u64)
      && is_none_or (obj_get m "unit") (fun u => is_some_and (as_str u) token_text)
  | _ => false
  end.

Definition field_content (key : string) (v : json) : bool :=
  if key ==? "progress" then progress_content v
  else if str_in key ["receipt_digest"; "checkpoint_digest"] then
    is_some_and (as_str v) digest_text
  else str_in key ["event_id"; "reason_code"; "outcome"] && is_some_and (as_str v) token_text.

Lemma safe_token_text s : safe_token s = Ok tt -> token_text s = true.
Proof.
  unfold safe_token, token_text. destruct (_ || _) eqn:E; [done|]. intros _.
  apply orb_false_iff in E as [[_ E1]%orb_false_iff E2]. apply negb_false_iff in E2.
  apply Z.ltb_ge in E1. rewrite E2, (proj2 (Z.leb_le _ _) E1). done.
Qed.

Lemma hexdigit_lower c : is_ascii_hexdigit c = true -> is_lower_hex (ascii_lower c) = true.
Proof. destruct c as [[] [] [] [] [] [] [] []]; vm_compute; done. Qed.

Lemma lowercase_hex s :
  str_all is_ascii_hexdigit s = true ->
  str_all is_lower_hex (to_ascii_lowercase s) = true /\ str_len (to_ascii_lowercase s) = str_len s.
Proof.
  unfold str_len. induction s as [|c s IH]; [done|]. unfold str_all in *. cbn. intros [Hc Hs]%andb_true_iff.
  destruct (IH Hs) as [H1 H2]. split; [|lia]. by rewrite hexdigit_lower.
Qed.

Lemma lowercase_app s t : to_ascii_lowercase (s +:+ t) = to_ascii_lowercase s +:+ to_ascii_lowercase t.
Proof.
  induction s as [|c s IH]; [done|]. change (String c s +:+ t) with (String c (s +:+ t)).
  unfold to_ascii_lowercase in *. cbn [str_map]. by rewrite IH.
Qed.

Lemma detail_digest_text key v v' :
  detail_digest key v = Ok v' -> is_some_and (as_str v') digest_text = true.
Proof.
  unfold detail_digest. intros (digest & _ & H)%rbind_Ok.
  destruct (strip_prefix "sha256:" digest) as [hex|] eqn:E; simpl in H;
    (destruct (_ || _) eqn:Eo; [done|]; simplify_eq; simpl;
     apply orb_false_iff in Eo as [Hl%negb_false_iff Hx%negb_false_iff];
     destruct (lowercase_hex _ Hx) as [H1 H2]; unfold digest_text).
  - apply strip_prefix_spec in E as ->. rewrite lowercase_app.
    change (to_ascii_lowercase "sha256:") with "sha256:".
    rewrite (proj2 (strip_prefix_spec "sha256:" _ (to_ascii_lowercase hex)) eq_refl). simpl.
    by rewrite H2, Hl, H1.
  - destruct (strip_prefix "sha256:" (to_ascii_lowercase digest)) as [r|] eqn:E'; simpl; [|by rewrite H2, Hl, H1].
    apply strip_prefix_spec in E'. rewrite E' in H1. discriminate H1.
Qed.

Lemma detail_progress_content v v' : detail_progress v = Ok v' -> progress_content v' = true.
Proof.
  unfold detail_progress. intros (m & Em & H)%rbind_Ok.
  destruct v as [| | | | |m0]; try done. simpl in Em. simplify_eq. simpl in H.
  destruct (existsb _ m) eqn:Ex; [done|].
  apply rbind_Ok in H as (c & Ec & H). apply rbind_Ok in H as (t & Et & H).
  destruct (t <? c); [done|]. apply rbind_Ok in H as ([] & Hu & H). simplify_eq. simpl.
  destruct (obj_get m "completed_units" ≫= as_u64); [|done].
  destruct (obj_get m "total_units" ≫= as_u64); [|done]. simpl. rewrite !andb_true_r.
  apply andb_true_iff. split.
  - apply forallb_forall. intros kv Hin. apply not_true_iff_false in Ex.
    match goal with |- ?b = true => destruct b eqn:Es end; [done|].
    exfalso. apply Ex, existsb_exists. exists kv. by rewrite Es.
  - destruct (obj_get m "unit") as [u|]; [|done]. simpl in *.
    apply rbind_Ok in Hu as (s & Es & Hs). destruct u; try done. simpl in *. simplify_eq.
    by apply safe_token_text.
Qed.

Lemma detail_field_content key v v' : detail_field key v = Ok v' -> field_content key v' = true.
Proof.
  unfold detail_field, field_content. destruct (key ==? "progress"); [apply detail_progress_content|].
  destruct (str_in key ["receipt_digest"; _]); [apply detail_digest_text|].
  destruct (str_in key _); [|done]. unfold detail_token. simpl.
  intros (s & Es & H)%rbind_Ok. apply rbind_Ok in H as ([] & Hs & H). simplify_eq.
  destruct v'; try done. simpl in *. simplify_eq. by apply safe_token_text.
Qed.

Lemma obj_insert_forall (P : string -> json -> bool) k v m :
  P k v = true -> forallb (fun kv => P kv.1 kv.2) m = true ->
  forallb (fun kv => P kv.1 kv.2) (obj_insert k v m) = true.
Proof.
  intros Hk. induction m as [|[k' v'] m IH]; simpl; [by rewrite Hk|].
  intros [H1 H2]%andb_true_iff. destruct (String.compare k k'); simpl; rewrite ?Hk, ?H1, ?H2; auto.
Qed.

Lemma detail_fields_content object acc m :
  forallb (fun kv => field_content kv.1 kv.2) acc = true ->
  detail_fields object acc = Ok m -> forallb (fun kv => field_content kv.1 kv.2) m = true.
Proof.
  revert acc. induction object as [|[key v] object IH]; intros acc Hacc; simpl; [congruence|].
  intros (v' & Hv & H)%rbind_Ok. eapply IH; [|exact H].
  apply obj_insert_forall; [|done]. by eapply detail_field_content.
Qed.

(** A detail that reaches the durable store is an object whose fields are
    only progress counts with a short unit, SHA-256 digests in lower case and
    short tokens: no free text, prompt or output can be stored. *)
Theorem durable_detail_content_free detail stored :
  content_free_detail detail = Ok stored ->
  exists m, stored = JObject m /\ forallb (fun kv => field_content kv.1 kv.2) m = true.
Proof.
  unfold content_free_detail. destruct (is_null detail); [intros; simplify_eq; by exists []|].
  intros (o & _ & H)%rbind_Ok. apply rbind_Ok in H as (m & Hm & H). simplify_eq.
  exists m. split; [done|]. by eapply (detail_fields_content o []).
Qed.

Lemma durable_detail_content_free_witness :
  exists m, mk_obj [("outcome", JString "cancelled")] = JObject m /\
    forallb (fun kv => field_content kv.1 kv.2) m = true.
Proof. apply (durable_detail_content_free cancel_detail). vm_compute. reflexivity. Defined.
