(* ===== verification/LifecyclePolicies.v ===== *)
(** * Lifecycle policy evaluators ([src/service_lifecycle_accounting.rs],
      [src/service_lifecycle_distributed.rs], [src/service_lifecycle_identity.rs])

    Three pure decision functions on JSON inputs: accounting of reservations
    and settlements, the distributed profile, and identity. *)

From S2P Require Import Prelude Text Json Lifecycle LifecycleStore LifecycleSqlite.

(** ** Accounting *)

Record LifecycleAccountingDecision := mkAccounting {
  decision : string;
  reservation_action : string;
  settlement_action : string;
  new_execution : bool
}.

Definition acc_result := mkAccounting.
Definition acc_simple (decision : string) : LifecycleAccountingDecision :=
  acc_result decision "none" "none" false.

Definition opt_str_in (o : option string) (l : list string) : bool := is_some_and o (fun s => str_in s l).

Definition decide_lifecycle_accounting (input : json) : LifecycleAccountingDecision :=
  let operation := get_str input "operation" in
  let binding := get_str input "binding" in
  let reservation_exists := opt_bool_is (get_bool input "reservation_exists") true in
  let settlement_exists := opt_bool_is (get_bool input "settlement_exists") true in
  let accepted := opt_bool_is (get_bool input "accepted") true in
  let delivery := get_str input "delivery" in
  if negb (opt_str_in operation ["submit"; "status"; "observe"; "resume"; "cancel"; "terminal"])
     || negb (opt_str_in binding ["same"; "conflict"; "fresh"])
     || negb (opt_str_in delivery ["none"; "partial"; "complete"])
  then acc_simple "reject_invalid_input"
  else if opt_str_in operation ["status"; "observe"; "cancel"; "terminal"]
          && negb (opt_str_is binding "same")
  then acc_simple "reject_conflict"
  else
    let op := default EmptyString operation in
    if op ==? "status" then acc_simple "return_status"
    else if op ==? "observe" then acc_simple "replay_events"
    else if op ==? "resume" then
      if opt_bool_is (get_bool input "resume_available") true then acc_simple "replay_events"
      else if negb (opt_bool_is (get_bool input "explicit_new_task") true)
      then acc_simple "explicit_new_task_required"
      else if negb (opt_str_is binding "fresh")
              || negb (opt_bool_is (get_bool input "fresh_task_id") true)
              || negb (opt_bool_is (get_bool input "fresh_idempotency_key") true)
      then acc_simple "reject_identifier_reuse"
      else acc_result "start_new_task" "create" "none" true
    else if op ==? "submit" then
      if opt_str_is binding "conflict" then acc_simple "reject_conflict"
      else if opt_str_is binding "same" && reservation_exists
      then acc_result "reuse_execution" "reuse" "none" false
      else if opt_str_is binding "same" then acc_simple "reject_missing_reservation"
      else if reservation_exists then acc_simple "reject_conflict"
      else acc_result "start_execution" "create" "none" true
    else if op ==? "cancel" then
      if settlement_exists then acc_result "return_existing_settlement" "reuse" "reuse" false
      else if negb reservation_exists then acc_simple "cancel_without_accounting"
      else if negb accepted then acc_result "cancel_before_acceptance" "release" "none" false
      else acc_result (if opt_str_is delivery "partial" then "cancel_after_partial_delivery"
                       else "cancel_after_acceptance") "reuse" "create" false
    else if op ==? "terminal" then
      if settlement_exists then acc_result "return_existing_settlement" "reuse" "reuse" false
      else if negb reservation_exists then acc_simple "reject_missing_reservation"
      else
        let terminal_state := get_str input "terminal_state" in
        if negb (opt_str_in terminal_state ["completed"; "failed"; "cancelled"; "expired"])
        then acc_simple "reject_invalid_input"
        else acc_result ("settle_" +:+ default EmptyString terminal_state
                           +:+ (if opt_str_is delivery "partial" then "_partial" else EmptyString))
               "reuse" "create" false
    else acc_simple "reject_invalid_input".

(** One task's accounts, as the decisions change them. *)
Record ledger := mkLedger { reserved : bool; settled : bool; settlements : Z; executions : Z }.
Definition ledger_new : ledger := mkLedger false false 0 0.

(** An operation sees the state of the ledger in its input. *)
Definition with_ledger (l : ledger) (input : json) : json :=
  match input with
  | JObject m => JObject (obj_insert "reservation_exists" (JBool (reserved l))
                           (obj_insert "settlement_exists" (JBool (settled l)) m))
  | _ => input
  end.

Definition ledger_apply (l : ledger) (d : LifecycleAccountingDecision) : ledger :=
  mkLedger
    (if reservation_action d ==? "create" then true
     else if reservation_action d ==? "release" then false else reserved l)
    (if settlement_action d ==? "create" then true else settled l)
    (if settlement_action d ==? "create" then settlements l + 1 else settlements l)
    (if new_execution d then executions l + 1 else executions l).

Definition ledger_step (l : ledger) (input : json) : ledger :=
  ledger_apply l (decide_lifecycle_accounting (with_ledger l input)).

(** The input concerns the task of the ledger: not a request to start another
    one. *)
Definition same_task (input : json) : Prop := get_str input "operation" <> Some "resume".

Lemma get_with_ledger l m :
  get_bool (with_ledger l (JObject m)) "reservation_exists" = Some (reserved l) /\
  get_bool (with_ledger l (JObject m)) "settlement_exists" = Some (settled l) /\
  get_str (with_ledger l (JObject m)) "operation" = get_str (JObject m) "operation".
Proof. unfold get_bool, get_str, with_ledger. by rewrite !jget_mk_obj_insert. Qed.

Definition is_create (s : string) : bool := s ==? "create".

(** When a decision creates a settlement or starts an execution. *)
Lemma accounting_cases input :
  let d := decide_lifecycle_accounting input in
  (settlement_action d = "create" ->
     opt_bool_is (get_bool input "reservation_exists") true = true /\
     opt_bool_is (get_bool input "settlement_exists") true = false /\ reservation_action d = "reuse") /\
  (new_execution d = true <-> reservation_action d = "create") /\
  (reservation_action d = "create" -> get_str input "operation" <> Some "resume" ->
     opt_bool_is (get_bool input "reservation_exists") true = false) /\
  (reservation_action d = "release" ->
     opt_bool_is (get_bool input "settlement_exists") true = false).
Proof.
  unfold decide_lifecycle_accounting.
  generalize (opt_bool_is (get_bool input "reservation_exists") true) as res.
  generalize (opt_bool_is (get_bool input "settlement_exists") true) as set.
  intros set res. repeat (match goal with
    | |- context [if ?b then _ else _] => destruct b eqn:?
    end); cbn [settlement_action reservation_action new_execution acc_simple acc_result];
    repeat split; try done; bprop; try done.
  intros _ Hne. exfalso. apply Hne. destruct (get_str input "operation"); simpl in *; congruence.
Qed.

Record ledger_ok (l : ledger) : Prop := {
  lo_settlements : settlements l = if settled l then 1 else 0;
  lo_reserved : settled l = true -> reserved l = true;
  lo_executions : 0 <= executions l /\ (reserved l = true -> 1 <= executions l)
}.

Lemma accounting_not_object input :
  as_object input = None -> decide_lifecycle_accounting input = acc_simple "reject_invalid_input".
Proof. intros H. unfold decide_lifecycle_accounting, get_str, get_bool, jget. by rewrite H. Qed.

Lemma ledger_step_ok l input : ledger_ok l -> same_task input -> ledger_ok (ledger_step l input).
Proof.
  intros [H1 H2 [H3 H4]] Hs. unfold ledger_step.
  destruct (as_object input) as [m|] eqn:Em.
  2: { assert (with_ledger l input = input) as -> by (by destruct input).
       rewrite accounting_not_object by done. by destruct l. }
  destruct input as [| | | | |m0]; try done. simpl in Em. simplify_eq.
  destruct (get_with_ledger l m) as (Er & Es & Eo).
  destruct (accounting_cases (with_ledger l (JObject m))) as (C1 & C2 & C3 & C4).
  rewrite Er, Es, Eo in *. set (d := decide_lifecycle_accounting _) in *.
  assert (forall b, opt_bool_is (Some b) true = b) as Hb by (by intros []). rewrite !Hb in *.
  unfold ledger_apply. constructor; simpl.
  - destruct (String.eqb_spec (settlement_action d) "create") as [E|]; [|done].
    destruct (C1 E) as (_ & Hf & _). rewrite Hf in H1. lia.
  - destruct (String.eqb_spec (settlement_action d) "create") as [E|].
    + destruct (C1 E) as (Hr & _ & Hre). rewrite Hre. done.
    + intros Hset. destruct (String.eqb_spec (reservation_action d) "create"); [done|].
      destruct (String.eqb_spec (reservation_action d) "release") as [E|]; [|auto].
      rewrite C4 in Hset by done. done.
  - destruct (String.eqb_spec (reservation_action d) "create") as [E|Hne].
    + rewrite (proj2 C2 E). lia.
    + assert (new_execution d = false) as -> by (apply not_true_iff_false; tauto).
      split; [done|]. destruct (_ ==? _); [done|auto].
Qed.

Lemma ledger_run_ok inputs l : ledger_ok l -> Forall same_task inputs -> ledger_ok (foldl ledger_step l inputs).
Proof.
  intros Hl Hs. revert l Hl. induction Hs as [|i inputs Hi _ IH]; intros l Hl; simpl; [done|].
  by apply IH, ledger_step_ok.
Qed.

(** Over any sequence of lifecycle operations on a task, at most one
    settlement is created, only for a reservation that exists, which is never
    released once settled; and a reservation exists only for an execution that
    was started. *)
Theorem accounting_settles_once inputs :
  Forall same_task inputs ->
  let l := foldl ledger_step ledger_new inputs in
  settlements l <= 1 /\ (settlements l = 1 -> reserved l = true) /\ (reserved l = true -> 1 <= executions l).
Proof.
  intros Hs l. assert (ledger_ok l) as [H1 H2 [_ H4]].
  { apply ledger_run_ok; [|done]. constructor; simpl; try done. }
  rewrite H1. split; [destruct (settled l); lia|]. split; [|done].
  destruct (settled l); [auto|lia].
Qed.

Definition demo_acc (op binding : string) : json :=
  mk_obj [("operation", JString op); ("binding", JString binding); ("delivery", JString "complete");
          ("accepted", JBool true); ("terminal_state", JString "completed")].

Lemma accounting_settles_once_witness :
  let l := foldl ledger_step ledger_new
    [demo_acc "submit" "fresh"; demo_acc "terminal" "same"; demo_acc "cancel" "same"; demo_acc "terminal" "same"] in
  settlements l = 1 /\ settlements l <= 1.
Proof.
  split; [vm_compute; reflexivity|].
  refine (proj1 (accounting_settles_once
    [demo_acc "submit" "fresh"; demo_acc "terminal" "same"; demo_acc "cancel" "same"; demo_acc "terminal" "same"] _)).
  do 4 (apply Forall_cons; split; [vm_compute; discriminate|]). by apply Forall_nil.
Defined.

(** ** The distributed profile *)

Definition ALLOWED : list string :=
  ["event_id"; "progress"; "reason_code"; "outcome"; "receipt_digest"; "checkpoint_digest"].

(** [+] on [i64] wraps. *)
Definition i64_add (a b : Z) : Z := u64_as_i64 (a + b).

Definition jis_true (v : json) : bool := jis_bool v true.
Definition opt_Z_eqb (a b : option Z) : bool := bool_decide (a = b).

Definition evaluate_distributed_lifecycle (vector : json) : string :=
  let kind := as_str (jidx vector "kind") in
  if opt_str_is kind "owner_write" then
    if json_eqb (jidx vector "writer_epoch") (jidx vector "current_epoch")
    then "write_accepted" else "stale_owner_rejected"
  else if opt_str_is kind "failover_submit" then
    if negb (jis_true (jidx vector "request_digest_matches"))
       || negb (jis_true (jidx vector "idempotency_key_matches"))
    then "conflict_no_new_execution"
    else if jis_true (jidx vector "execution_started") then "existing_execution_recovered"
    else "existing_record_recovered"
  else if opt_str_is kind "append_event" then
    if jis_true (jidx vector "event_id_seen") then "duplicate_event_ignored"
    else if opt_Z_eqb (as_i64 (jidx vector "sequence"))
              ((fun v => i64_add v 1) <$> as_i64 (jidx vector "latest_sequence"))
    then "event_appended" else "sequence_gap_rejected"
  else if opt_str_is kind "observe" then
    let gap := i64_add (default (-1) (as_i64 (jidx vector "after_sequence"))) 1
                 <? default 0 (as_i64 (jidx vector "first_retained_sequence")) in
    if gap && jis_true (jidx vector "terminal") then "terminal_snapshot_with_replay_gap"
    else if gap then "resume_unavailable"
    else "replay_available"
  else if opt_str_is kind "terminal_retention" then
    if default 0 (as_i64 (jidx vector "ttl_ms")) <? default 0 (as_i64 (jidx vector "age_ms"))
    then "unknown_task_after_expiry" else "terminal_snapshot_available"
  else if opt_str_is kind "mutation_admission" then
    if jis_true (jidx vector "quorum_available") then "mutation_allowed"
    else "temporarily_unavailable_no_write"
  else if opt_str_is kind "content_minimization" then
    if is_some_and (as_object (jidx vector "detail")) (fun m => forallb (fun kv => str_in kv.1 ALLOWED) m)
    then "accepted" else "reject_before_write"
  else "unsupported_vector".

Definition observe_vector (r : LifecycleRecord) (after : Z) : json :=
  mk_obj [("kind", JString "observe"); ("after_sequence", i64_json after);
          ("first_retained_sequence",
           i64_json (match head (events r) with Some e => le_sequence e | None => 0 end));
          ("terminal", JBool (terminal (lr_state r)))].
Definition minimization_vector (d : json) : json :=
  mk_obj [("kind", JString "content_minimization"); ("detail", d)].

Lemma i64_json_as z : i64_min <= z <= i64_max -> as_i64 (i64_json z) = Some z.
Proof.
  unfold i64_json, i64_max. intros H. destruct (Z.ltb_spec z 0); simpl; [done|].
  unfold i64_max. by rewrite (proj2 (Z.leb_le _ _)) by lia.
Qed.

Lemma detail_fields_allowed object acc m :
  detail_fields object acc = Ok m -> forallb (fun kv => str_in kv.1 ALLOWED) object = true.
Proof.
  revert acc. induction object as [|[key v] object IH]; intros acc; cbn [detail_fields forallb fst]; [done|].
  intros (v' & Hv & H)%rbind_Ok. rewrite (IH _ H), andb_true_r. unfold detail_field in Hv.
  destruct (String.eqb_spec key "progress") as [->|]; [done|].
  destruct (str_in key ["receipt_digest"; _]) eqn:E1.
  { apply str_in_elem in E1. apply str_in_elem. unfold ALLOWED. set_solver. }
  destruct (str_in key ["event_id"; "reason_code"; "outcome"]) eqn:E2; [|done]. apply str_in_elem in E2. apply str_in_elem. unfold ALLOWED. set_solver.
Qed.

(** The stores keep to the distributed profile: an observation is answered
    with events exactly when the profile says a replay is available, and a
    detail the durable store writes is one the profile accepts. *)
Theorem stores_keep_distributed_profile r after detail stored :
  0 <= after < i64_max ->
  (forall e, e ∈ events r -> 0 <= le_sequence e <= i64_max) ->
  (is_ok (events_of r after) = true <->
   evaluate_distributed_lifecycle (observe_vector r after) = "replay_available") /\
  (content_free_detail detail = Ok stored -> detail <> JNull ->
   evaluate_distributed_lifecycle (minimization_vector detail) = "accepted").
Proof.
  intros Ha He. split.
  - set (first := match head (events r) with Some e => le_sequence e | None => 0 end).
    assert (0 <= first <= i64_max) as Hf.
    { unfold first. destruct (events r) as [|e l]; simpl; [done|]. apply He. set_solver. }
    assert (evaluate_distributed_lifecycle (observe_vector r after) =
      let gap := after + 1 <? first in
      if gap && terminal (lr_state r) then "terminal_snapshot_with_replay_gap"
      else if gap then "resume_unavailable" else "replay_available") as ->.
    { unfold evaluate_distributed_lifecycle, observe_vector. fold first.
      generalize (terminal (lr_state r)) as tm. intros tm.
      unfold jidx, jget, mk_obj, obj_of_list. cbn [foldl fst snd as_object mbind option_bind].
      rewrite !obj_get_insert. cbn -[i64_json i64_add Z.ltb].
      rewrite !i64_json_as by (unfold i64_min, i64_max in *; lia). cbn -[i64_add Z.ltb].
      unfold i64_add. rewrite u64_as_i64_small by (unfold i64_max in *; lia).
      by destruct (_ <? _), tm. }
    unfold events_of. fold first. rewrite (proj2 (Z.leb_le 0 after)) by lia. cbn [andb].
    unfold u64_sat_add, u64_max, i64_max in *. rewrite Z.min_l by lia.
    destruct (after + 1 <? first), (terminal (lr_state r)); simpl; done.
  - unfold content_free_detail. intros Hc Hn. destruct detail as [| | | | |m]; try done.
    simpl in Hc. apply rbind_Ok in Hc as (m' & Hm & _).
    unfold evaluate_distributed_lifecycle, minimization_vector, jidx, jget, mk_obj, obj_of_list.
    cbn [foldl fst snd as_object mbind option_bind]. rewrite !obj_get_insert.
    cbn -[str_in forallb ALLOWED]. by rewrite (detail_fields_allowed _ _ _ Hm).
Qed.

Lemma stores_keep_distributed_profile_witness :
  evaluate_distributed_lifecycle (minimization_vector cancel_detail) = "accepted".
Proof.
  apply (stores_keep_distributed_profile (accepted_record "t" "k" "d" 1) 0 cancel_detail cancel_detail).
  - split; [discriminate|vm_compute; reflexivity].
  - intros e [->|H%elem_of_nil]%elem_of_cons; [|done]. split; vm_compute; discriminate.
  - vm_compute. reflexivity.
  - discriminate.
Defined.

(** ** Identity *)

Definition ALLOWED_AUDIT : list string :=
  ["event_id"; "task_ref"; "principal_ref_digest"; "credential_key_id"; "revocation_epoch";
   "operation"; "outcome"; "reason_code"; "occurred_at"].

Definition has_scope (scopes : list json) (scope : string) : bool :=
  existsb (fun item => jis_str item scope) scopes.

Definition evaluate_lifecycle_identity (input : json) (retention_seconds : Z) : string :=
  if jis_str (jidx input "kind") "audit_retention" then
    if retention_seconds <? default 0 (as_i64 (jidx input "age_seconds"))
    then "audit_record_pruned" else "audit_record_retained"
  else if jis_str (jidx input "kind") "audit_redaction" then
    if is_some_and (as_object (jidx input "audit")) (fun m => forallb (fun kv => str_in kv.1 ALLOWED_AUDIT) m)
    then "audit_record_allowed" else "reject_before_write"
  else if negb (jis_true (jidx input "profile_requested")) && jis_str (jidx input "surface") "ordinary_task"
  then "legacy_open_mesh_unchanged"
  else if negb (jis_str (jidx input "credential_status") "valid") then "unauthenticated"
  else if default 0 (as_i64 (jidx input "credential_revocation_epoch"))
            <? default 0 (as_i64 (jidx input "minimum_revocation_epoch"))
  then "unauthenticated"
  else
    let operation := default EmptyString (as_str (jidx input "operation")) in
    let scopes := default [] (as_array (jidx input "scope")) in
    if operation ==? "submit" then
      if has_scope scopes "submit" then "allowed_bind_owner" else "forbidden"
    else if negb (json_eqb (jidx input "principal_ref_digest") (jidx input "task_owner_ref_digest")) then
      if jis_true (jidx input "operator_override") && has_scope scopes ("operator:" +:+ operation)
      then "allowed_operator_override" else "concealed_task"
    else if has_scope scopes operation then "allowed"
    else "forbidden".

(** The credential is usable and not revoked. *)
Definition credential_current (input : json) : Prop :=
  jidx input "credential_status" = JString "valid" /\
  default 0 (as_i64 (jidx input "minimum_revocation_epoch")) <=
    default 0 (as_i64 (jidx input "credential_revocation_epoch")).

(** An operation is allowed only with a valid credential at or above the
    minimum revocation epoch, and then only with the scope of the operation
    for the task's own principal, or with the operator scope of the operation
    under an explicit override; a task of somebody else is otherwise
    concealed. *)
Theorem identity_allows_only_scoped input retention :
  let out := evaluate_lifecycle_identity input retention in
  let operation := default EmptyString (as_str (jidx input "operation")) in
  let scopes := default [] (as_array (jidx input "scope")) in
  let own := json_eqb (jidx input "principal_ref_digest") (jidx input "task_owner_ref_digest") in
  (out = "allowed_bind_owner" ->
     credential_current input /\ operation = "submit" /\ JString "submit" ∈ scopes) /\
  (out = "allowed" -> credential_current input /\ own = true /\ JString operation ∈ scopes) /\
  (out = "allowed_operator_override" ->
     credential_current input /\ own = false /\ jidx input "operator_override" = JBool true /\
     JString ("operator:" +:+ operation) ∈ scopes) /\
  (out = "concealed_task" -> credential_current input /\ own = false).
Proof.
  intros out operation scopes own.
  assert (forall s, has_scope scopes s = true -> JString s ∈ scopes) as Hsc.
  { intros s (v & Hin & Hv)%existsb_exists. apply jis_str_true in Hv as ->. by apply list_elem_of_In. }
  unfold out, evaluate_lifecycle_identity. fold operation scopes own. clearbody operation scopes own.
  destruct (jis_str (jidx input "kind") "audit_retention"); [by destruct (_ <? _)|].
  destruct (jis_str (jidx input "kind") "audit_redaction"); [by destruct (is_some_and _ _)|].
  destruct (_ && _); [done|].
  destruct (jis_str (jidx input "credential_status") "valid") eqn:Ev; [|done]. apply jis_str_true in Ev.
  cbn [negb]. destruct (Z.ltb_spec (default 0 (as_i64 (jidx input "credential_revocation_epoch")))
    (default 0 (as_i64 (jidx input "minimum_revocation_epoch")))) as [|Hep]; [done|].
  assert (credential_current input) as Hc by done.
  destruct (String.eqb_spec operation "submit") as [->|].
  { destruct (has_scope scopes "submit") eqn:E; [|done]. repeat split; try done. by apply Hsc. }
  destruct own; simpl.
  - destruct (has_scope scopes operation) eqn:E; [|done]. repeat split; try done. by apply Hsc.
  - destruct (jis_true (jidx input "operator_override")) eqn:Eo; [|done]. apply jis_bool_true in Eo.
    destruct (has_scope scopes ("operator:" +:+ operation)) eqn:E; [|done].
    repeat split; try done. by apply Hsc.
Qed.
