(* ===== verification/DispatchAdmission.v ===== *)
(** * Dispatch admission ([src/dispatch_admission.rs],
      [src/dispatch_admission_sqlite.rs])

    The provider-local store that admits a verified dispatch ticket once.  The
    table is a finite map keyed by its primary key; SHA-256 is the parameter
    [sha256_hex]; each operation is one immediate transaction. *)

From S2P Require Import Prelude Text.

Record DispatchAdmissionClaim := mkClaim {
  jti : string;
  provider_id : string;
  cl_intent : string;
  not_before : Z;
  expires_at : Z
}.

Record DispatchAdmissionDecision := mkAdmission {
  ad_code : string;
  accepted : bool;
  ad_state : option string
}.
Definition admission_reject (code : string) : DispatchAdmissionDecision := mkAdmission code false None.
Definition admission_accepted : DispatchAdmissionDecision := mkAdmission "accepted" true (Some "accepted").

Record DispatchAdmissionRecord := mkAdmissionRecord {
  rec_jti : string;
  provider_digest : string;
  intent_digest : string;
  rec_state : string;
  rec_expires_at : Z;
  consumed_at : Z;
  updated_at : Z
}.

Inductive DispatchAdmissionError :=
| AStorage (message : string)
| AUnknown
| ATransition (message : string).

Definition admission_terminal (state : string) : bool :=
  str_in state ["completed"; "failed"; "cancelled"; "expired"; "rejected"].

(** ** The SQLite store *)

Notation table := (gmap string DispatchAdmissionRecord).

(** A [u64] or [usize] parameter SQLite cannot store fails the statement. *)
Definition sql_param (z : Z) : result Z DispatchAdmissionError :=
  if z <=? i64_max then Ok z else Err (AStorage "out of range integral type conversion attempted").

Section store.
Context (sha256_hex : string -> string).

Definition jti_valid (jti : string) : bool :=
  negb ((str_len jti <? 16) || (256 <? str_len jti)
        || negb (str_all (fun c => is_ascii_alphanumeric c || char_in c "._:-") jti)).

Definition consume_sync (db : table) (claim : DispatchAdmissionClaim)
    (expected_provider_id expected_intent : string) (now clock_skew_s : Z)
    : result DispatchAdmissionDecision DispatchAdmissionError * table :=
  if negb (jti_valid (jti claim)) then (Ok (admission_reject "reject_invalid_jti"), db)
  else if provider_id claim <>? expected_provider_id
  then (Ok (admission_reject "reject_provider_binding"), db)
  else if cl_intent claim <>? expected_intent then (Ok (admission_reject "reject_intent_binding"), db)
  else if u64_sat_add now clock_skew_s <? not_before claim
  then (Ok (admission_reject "reject_not_yet_valid"), db)
  else if expires_at claim <=? u64_sat_sub now clock_skew_s
  then (Ok (admission_reject "reject_expired"), db)
  else match db !! jti claim with
       | Some record =>
           (Ok (mkAdmission (if admission_terminal (rec_state record) then "reject_terminal" else "reject_replay")
                  false (Some (rec_state record))), db)
       | None =>
           match (let? _ := sql_param (expires_at claim) in sql_param now) with
           | Err e => (Err e, db)
           | Ok _ =>
               let record := mkAdmissionRecord (jti claim) ("sha256:" +:+ sha256_hex (provider_id claim))
                 ("sha256:" +:+ sha256_hex (cl_intent claim)) "accepted" (expires_at claim) now now in
               (Ok admission_accepted, <[jti claim := record]> db)
           end
       end.

Definition transition_sync (db : table) (jti state : string) (now : Z)
    : result DispatchAdmissionRecord DispatchAdmissionError * table :=
  if negb (admission_terminal state) then (Err (ATransition state), db)
  else match db !! jti with
       | None => (Err AUnknown, db)
       | Some existing =>
           if admission_terminal (rec_state existing) && (rec_state existing <>? state)
           then (Err (ATransition ("already terminal as " +:+ rec_state existing)), db)
           else if rec_state existing <>? state then
             match sql_param now with
             | Err e => (Err e, db)
             | Ok now =>
                 let record := mkAdmissionRecord (rec_jti existing) (provider_digest existing)
                   (intent_digest existing) state (rec_expires_at existing) (consumed_at existing) now in
                 (Ok record, <[jti := record]> db)
             end
           else (Ok existing, db)
       end.

(** [ORDER BY expires_at] *)
Fixpoint insert_by_expiry (r : DispatchAdmissionRecord) (l : list DispatchAdmissionRecord)
    : list DispatchAdmissionRecord :=
  match l with
  | [] => [r]
  | r' :: l' => if rec_expires_at r <=? rec_expires_at r' then r :: l else r' :: insert_by_expiry r l'
  end.

(** The keys [SELECT jti .. WHERE expires_at < ?1 ORDER BY expires_at LIMIT ?2]
    gives; rows of equal expiry in the table's order. *)
Definition cleanup_victims (db : table) (cutoff limit : Z) : list string :=
  let old := List.filter (fun kr => rec_expires_at kr.2 <? cutoff) (map_to_list db) in
  take (Z.to_nat limit) (rec_jti <$> foldr insert_by_expiry [] (snd <$> old)).

Definition cleanup (db : table) (now retention_s limit : Z)
    : result Z DispatchAdmissionError * table :=
  let cutoff := u64_sat_sub now retention_s in
  match (let? c := sql_param cutoff in let? l := sql_param (Z.max limit 1) in Ok (c, l)) with
  | Err e => (Err e, db)
  | Ok (cutoff, limit) =>
      let victims := cleanup_victims db cutoff limit in
      (Ok (zlen victims), foldr delete db victims)
  end.

Definition lookup_admission (db : table) (jti : string) : option DispatchAdmissionRecord := db !! jti.

(** [evaluate_dispatch_admission] on this store *)
Definition evaluate_dispatch_admission (db : table) (claim : DispatchAdmissionClaim)
    (expected_provider_id expected_intent : string) (now : Z) (trust_verified : bool) (clock_skew_s : Z)
    : DispatchAdmissionDecision * table :=
  if negb trust_verified then (admission_reject "reject_issuer_key", db)
  else match consume_sync db claim expected_provider_id expected_intent now clock_skew_s with
       | (Ok d, db') => (d, db')
       | (Err _, db') => (admission_reject "reject_store_unavailable", db')
       end.

(** ** What is admitted *)

Lemma consume_accepted db claim p i now skew d db' :
  consume_sync db claim p i now skew = (Ok d, db') -> accepted d = true ->
  jti_valid (jti claim) = true /\ provider_id claim = p /\ cl_intent claim = i /\
  not_before claim <= u64_sat_add now skew /\ u64_sat_sub now skew < expires_at claim /\
  db !! jti claim = None /\ exists r, db' = <[jti claim := r]> db /\ rec_expires_at r = expires_at claim /\
    rec_jti r = jti claim.
Proof.
  unfold consume_sync. intros H Ha.
  destruct (jti_valid (jti claim)); [|by simplify_eq/=]. cbn [negb] in H.
  destruct (String.eqb_spec (provider_id claim) p) as [<-|]; [|by simplify_eq/=].
  destruct (String.eqb_spec (cl_intent claim) i) as [<-|]; [|by simplify_eq/=]. cbn [negb] in H.
  destruct (Z.ltb_spec (u64_sat_add now skew) (not_before claim)); [by simplify_eq/=|].
  destruct (Z.leb_spec (expires_at claim) (u64_sat_sub now skew)); [by simplify_eq/=|].
  destruct (db !! jti claim); [by simplify_eq/=|].
  destruct (rbind _ _); simplify_eq. repeat split; try done. eexists. split; [done|]. done.
Qed.

(** A store whose rows carry their key and a [u64] expiry. *)
Definition table_ok (db : table) : Prop :=
  forall j r, db !! j = Some r -> rec_jti r = j /\ 0 <= rec_expires_at r.

Lemma consume_table db claim p i now skew :
  table_ok db ->
  table_ok (consume_sync db claim p i now skew).2 /\
  ((consume_sync db claim p i now skew).2 = db \/
   exists d, (consume_sync db claim p i now skew).1 = Ok d /\ accepted d = true).
Proof.
  intros Hok. unfold consume_sync. repeat (case_match; simpl; try (by auto)).
  split; [|by eauto]. intros j r0 [[<- <-]|[_ Hj]]%lookup_insert_Some; [|eauto].
  simpl. split; [done|]. unfold u64_sat_sub in *.
  match goal with H : (expires_at _ <=? _) = false |- _ => apply Z.leb_gt in H; lia end.
Qed.

Lemma transition_table db j s now :
  table_ok db ->
  table_ok (transition_sync db j s now).2 /\
  forall k, rec_expires_at <$> (transition_sync db j s now).2 !! k = rec_expires_at <$> db !! k.
Proof.
  intros Hok. unfold transition_sync. destruct (admission_terminal s); simpl; [|done].
  destruct (db !! j) as [r|] eqn:E; [|done]. destruct (_ && _); [done|]. destruct (negb _); [|done].
  destruct (sql_param now); [|done]. simpl. split.
  - intros k r' [[<- <-]|[_ Hk]]%lookup_insert_Some; [exact (Hok _ _ E)|eauto].
  - intros k. destruct (decide (j = k)) as [<-|]; [by rewrite lookup_insert_eq, E|by rewrite lookup_insert_ne].
Qed.

Lemma elem_of_insert_by_expiry x r l : x ∈ insert_by_expiry r l <-> x = r \/ x ∈ l.
Proof.
  induction l as [|r' l IH]; simpl; [set_solver|]. destruct (_ <=? _); set_solver.
Qed.

Lemma elem_of_sorted_by_expiry x l : x ∈ foldr insert_by_expiry [] l <-> x ∈ l.
Proof. induction l as [|r l IH]; simpl; [done|]. rewrite elem_of_insert_by_expiry. set_solver. Qed.

Lemma cleanup_victims_old db cutoff limit j :
  table_ok db -> j ∈ cleanup_victims db cutoff limit ->
  exists r, db !! j = Some r /\ rec_expires_at r < cutoff.
Proof.
  intros Hok Hj. unfold cleanup_victims in Hj.
  apply elem_of_take in Hj as (i & Hi & _). apply list_elem_of_lookup_2 in Hi.
  apply list_elem_of_fmap in Hi as (r & -> & Hr). rewrite elem_of_sorted_by_expiry in Hr.
  apply list_elem_of_fmap in Hr as ([k r'] & -> & Hr). simpl in *.
  apply list_elem_of_In, List.filter_In in Hr as [Hin Hlt]. simpl in Hlt.
  apply list_elem_of_In, elem_of_map_to_list in Hin.
  exists r'. destruct (Hok _ _ Hin) as [-> _]. apply Z.ltb_lt in Hlt. done.
Qed.

Lemma foldr_delete_lookup (l : list string) (db : table) j :
  foldr delete db l !! j = if bool_decide (j ∈ l) then None else db !! j.
Proof.
  induction l as [|k l IH]; simpl; [done|].
  destruct (decide (k = j)) as [->|Hne].
  - rewrite lookup_delete_eq. by rewrite bool_decide_true by set_solver.
  - rewrite lookup_delete_ne, IH by done. case_bool_decide; case_bool_decide; set_solver.
Qed.

Lemma cleanup_table db now ret limit :
  table_ok db ->
  table_ok (cleanup db now ret limit).2 /\
  forall j, (cleanup db now ret limit).2 !! j = db !! j \/
    exists r, db !! j = Some r /\ rec_expires_at r < u64_sat_sub now ret.
Proof.
  intros Hok. unfold cleanup.
  destruct (rbind _ _) as [[c l]|] eqn:E; simpl; [|auto].
  apply rbind_Ok in E as (c' & Ec & E). apply rbind_Ok in E as (l' & El & E). simplify_eq.
  assert (c = u64_sat_sub now ret) as -> by (unfold sql_param in Ec; case_match; by simplify_eq).
  split.
  - intros j r. rewrite foldr_delete_lookup. case_bool_decide; [done|]. apply Hok.
  - intros j. rewrite foldr_delete_lookup. case_bool_decide as Hb; [right|by left].
    by eapply cleanup_victims_old.
Qed.

(** ** Runs *)

Inductive admission_op :=
| AEvaluate (claim : DispatchAdmissionClaim) (provider intent : string) (now : Z) (trusted : bool) (skew : Z)
| ATransit (jti state : string) (now : Z)
| ACleanup (now retention limit : Z).

Definition op_time (o : admission_op) : Z :=
  match o with AEvaluate _ _ _ now _ _ | ATransit _ _ now | ACleanup now _ _ => now end.

(** Skews are at most [bound], retentions at least [bound]. *)
Definition op_within (bound : Z) (o : admission_op) : Prop :=
  match o with
  | AEvaluate _ _ _ _ _ skew => skew <= bound
  | ACleanup _ ret _ => bound <= ret
  | ATransit _ _ _ => True
  end.

(** The store and the tickets admitted so far. *)
Definition admission_step (s : table * list (string * Z)) (o : admission_op) : table * list (string * Z) :=
  match o with
  | AEvaluate c p i now tr skew =>
      let '(d, db) := evaluate_dispatch_admission s.1 c p i now tr skew in
      (db, if accepted d then s.2 ++ [(jti c, expires_at c)] else s.2)
  | ATransit j st now => ((transition_sync s.1 j st now).2, s.2)
  | ACleanup now ret limit => ((cleanup s.1 now ret limit).2, s.2)
  end.

Record admission_inv (bound clock : Z) (s : table * list (string * Z)) : Prop := {
  ai_table : table_ok s.1;
  ai_nodup : NoDup s.2;
  ai_spent : forall j x, (j, x) ∈ s.2 ->
    (exists r, s.1 !! j = Some r /\ rec_expires_at r = x) \/ x + bound < clock
}.

Lemma admission_inv_clock bound c c' s : c <= c' -> admission_inv bound c s -> admission_inv bound c' s.
Proof.
  intros Hc [H1 H2 H3]. split; try done. intros j x Hj. destruct (H3 j x Hj); [by left|right; lia].
Qed.

Lemma admission_step_inv bound clock s o :
  0 <= bound -> clock <= op_time o -> op_within bound o -> admission_inv bound clock s ->
  admission_inv bound (op_time o) (admission_step s o).
Proof.
  intros Hb Hc Hw Hinv. apply (admission_inv_clock _ _ _ _ Hc) in Hinv. clear Hc.
  destruct s as [db tickets]. pose proof Hinv as [Hok Hn Hs]. simpl in *.
  destruct o as [c p i now tr skew|j st now|now ret limit]; simpl in *.
  - unfold evaluate_dispatch_admission. destruct tr; simpl; [|done].
    destruct (consume_table db c p i now skew Hok) as [Hok' Hdb].
    destruct (consume_sync db c p i now skew) as [[d|e] db'] eqn:E; simpl in *.
    + destruct (accepted d) eqn:Ea.
      2: { destruct Hdb as [->|(d' & Hd & Ha)]; [done|]. simplify_eq. congruence. }
      destruct (consume_accepted _ _ _ _ _ _ _ _ E Ea) as (_ & _ & _ & _ & Hlt & Hnone & r & -> & Hx & _).
      assert ((jti c, expires_at c) ∉ tickets) as Hnew.
      { intros Hin. destruct (Hs _ _ Hin) as [(r0 & Hr0 & _)|Hold]; [congruence|].
        unfold u64_sat_sub in Hlt. lia. }
      split; simpl; [done| |].
      * apply NoDup_app. split; [done|]. split; [|apply NoDup_singleton].
        intros x Hx' ->%list_elem_of_singleton. done.
      * intros j x [Hin|Hin%list_elem_of_singleton]%elem_of_app.
        -- destruct (Hs j x Hin) as [(r0 & Hr0 & Hx0)|]; [left|by right].
           exists r0. rewrite lookup_insert_ne; [done|congruence].
        -- simplify_eq. left. rewrite lookup_insert_eq. eauto.
    + destruct Hdb as [->|(d' & Hd & _)]; done.
  - destruct (transition_table db j st now Hok) as [Hok' Hx]. split; simpl; try done.
    intros k x Hin. destruct (Hs k x Hin) as [(r & Hr & Hrx)|]; [left|by right].
    specialize (Hx k). rewrite Hr in Hx.
    destruct ((transition_sync db j st now).2 !! k) as [r'|]; simplify_eq/=. eexists; split; [done|congruence].
  - destruct (cleanup_table db now ret limit Hok) as [Hok' Hx]. split; simpl; try done.
    intros k x Hin. destruct (Hs k x Hin) as [(r & Hr & Hrx)|]; [|by right].
    destruct (Hx k) as [->|(r' & Hr' & Hlt)]; [left; eauto|right].
    rewrite Hr in Hr'. simplify_eq. pose proof (Hok _ _ Hr). unfold u64_sat_sub in Hlt. lia.
Qed.

Fixpoint times_from (clock : Z) (ops : list admission_op) : Prop :=
  match ops with [] => True | o :: ops => clock <= op_time o /\ times_from (op_time o) ops end.

(** A dispatch ticket is admitted at most once: under a clock that does not
    run backwards, and with rows retained for at least the accepted clock
    skew, no sequence of admissions, state changes and cleanups admits the
    same ticket identifier and expiry twice. *)
Theorem dispatch_ticket_admitted_once bound clock ops :
  0 <= bound -> times_from clock ops -> Forall (op_within bound) ops ->
  NoDup (foldl admission_step (∅, []) ops).2.
Proof.
  intros Hb Ht Hw.
  assert (admission_inv bound clock (∅, [])) as Hinv.
  { split; simpl; [intros ??; by rewrite lookup_empty|constructor|]. by intros ?? ?%elem_of_nil. }
  revert Hinv Ht. generalize (∅ : table, @nil (string * Z)) as s. revert clock.
  induction Hw as [|o ops Ho _ IH]; intros clock s Hinv Ht; simpl; [apply Hinv|].
  destruct Ht as [H1 H2]. eapply IH; [|exact H2]. by eapply admission_step_inv.
Qed.

(** Admission fails closed: a ticket is admitted only if its trust was
    verified, its identifier is well formed, it is bound to this provider and
    intent, the time is within its validity up to the skew, and its identifier
    is not in the store, which then records it. *)
Theorem dispatch_admission_fails_closed db claim p i now trusted skew d db' :
  evaluate_dispatch_admission db claim p i now trusted skew = (d, db') -> accepted d = true ->
  trusted = true /\ jti_valid (jti claim) = true /\ provider_id claim = p /\ cl_intent claim = i /\
  not_before claim <= u64_sat_add now skew /\ u64_sat_sub now skew < expires_at claim /\
  db !! jti claim = None /\ is_Some (db' !! jti claim).
Proof.
  unfold evaluate_dispatch_admission. destruct trusted; simpl; [|intros; by simplify_eq/=].
  destruct (consume_sync db claim p i now skew) as [[d0|e] db0] eqn:E; intros; simplify_eq/=.
  destruct (consume_accepted _ _ _ _ _ _ _ _ E H0) as (?&?&?&?&?&?& r & -> & _).
  rewrite lookup_insert_eq. repeat split; done || eauto.
Qed.
End store.

Definition demo_claim : DispatchAdmissionClaim := mkClaim "ticket-0123456789" "p" "i" 0 100.

Lemma dispatch_ticket_admitted_once_witness :
  NoDup (foldl (admission_step (fun s => s)) (∅, [])
    [AEvaluate demo_claim "p" "i" 10 true 5; ATransit "ticket-0123456789" "completed" 20;
     ACleanup 200 60 10; AEvaluate demo_claim "p" "i" 210 true 5]).2.
Proof.
  apply (dispatch_ticket_admitted_once (fun s => s) 30 0
    [AEvaluate demo_claim "p" "i" 10 true 5; ATransit "ticket-0123456789" "completed" 20;
     ACleanup 200 60 10; AEvaluate demo_claim "p" "i" 210 true 5]).
  - lia.
  - simpl. lia.
  - apply Forall_cons; split; [simpl; lia|]. apply Forall_cons; split; [exact I|].
    apply Forall_cons; split; [simpl; lia|]. apply Forall_cons; split; [simpl; lia|]. by apply Forall_nil.
Defined.

Lemma dispatch_admission_fails_closed_witness :
  jti_valid (jti demo_claim) = true /\
  (evaluate_dispatch_admission (fun s => s) ∅ demo_claim "p" "i" 10 true 5).1 = admission_accepted.
Proof.
  split; [|vm_compute; reflexivity].
  apply (dispatch_admission_fails_closed (fun s => s) ∅ demo_claim "p" "i" 10 true 5 admission_accepted
    (evaluate_dispatch_admission (fun s => s) ∅ demo_claim "p" "i" 10 true 5).2); vm_compute; reflexivity.
Defined.
