(* ===== verification/DispatchTicket.v ===== *)
(** * Dispatch tickets ([src/dispatch_ticket.rs], [src/dispatch_ticket_trust.rs])

    Verification of v1 route tickets and of v2 tickets against a trust bundle,
    with the local replay cache.  Ed25519, hexadecimal and base64 decoding, the
    derived JSON parser of the claims and serde's text of a JSON leaf are
    parameters. *)

From S2P Require Import Prelude Text Json.

(** ** Route tickets, v1 *)

Record DispatchRouteTicketClaims := mkTicketClaims {
  tc_v : Z;
  tc_typ : string;
  tc_iss : string;
  tc_aud : string;
  tc_jti : string;
  tc_node_id : string;
  tc_intent : string;
  tc_iat : Z;
  tc_exp : Z;
  policy_manifest_sha256 : option string
}.

Definition ROUTE_DOMAIN : string := "iicp:dispatch-route-ticket:v1" +:+ String (chr 10) EmptyString.
Definition AUDIENCE : string := "iicp.directory.dispatch".

(** [s.split_once(c)] *)
Fixpoint split_once (c : Ascii.ascii) (s : string) : option (string * string) :=
  match s with
  | EmptyString => None
  | String a s =>
      if Ascii.eqb a c then Some (EmptyString, s)
      else let! (l, r) := split_once c s in Some (String a l, r)
  end.

Definition lower_hex_char (c : Ascii.ascii) : bool := is_ascii_hexdigit c && negb (is_ascii_uppercase c).

(** [try_into::<[u8; n]>] *)
Definition sized (n : Z) (l : list byte) : option (list byte) := if zlen l =? n then Some l else None.

Section verify.
Context (ed25519_verify : list byte -> list byte -> list byte -> bool)
        (hex_decode : string -> option (list byte))
        (b64url_decode : string -> option (list byte))
        (parse_claims : list byte -> option DispatchRouteTicketClaims)
        (leaf_text : json -> string).

Definition route_claims_ok (claims : DispatchRouteTicketClaims) (issuer node_id intent : string) (now_s : Z)
    : bool :=
  (tc_v claims =? 1) && (tc_typ claims ==? "dispatch-route-ticket") && (tc_iss claims ==? issuer)
  && (tc_aud claims ==? AUDIENCE) && (tc_node_id claims ==? node_id) && (tc_intent claims ==? intent)
  && (now_s <? tc_exp claims) && (str_len (tc_jti claims) =? 24)
  && is_none_or (policy_manifest_sha256 claims)
       (fun digest => (str_len digest =? 64) && str_all lower_hex_char digest)
  && str_all lower_hex_char (tc_jti claims).

Definition verify_dispatch_route_ticket (token public_key_hex issuer node_id intent : string) (now_s : Z)
    : option DispatchRouteTicketClaims :=
  let! (payload, sig_hex) := split_once "." token in
  if negb (str_len sig_hex =? 128) then None
  else
    let! key := hex_decode public_key_hex ≫= sized 32 in
    let! signature := hex_decode sig_hex ≫= sized 64 in
    if negb (ed25519_verify key (str_bytes (ROUTE_DOMAIN +:+ payload)) signature) then None
    else
      let! claims := b64url_decode payload ≫= parse_claims in
      if route_claims_ok claims issuer node_id intent now_s then Some claims else None.

(** [pointer("/node_policy_manifest/verification/canonical_sha256")] *)
Definition policy_manifest_binding_matches (claims : DispatchRouteTicketClaims) (route : json) : bool :=
  match policy_manifest_sha256 claims with
  | None => true
  | Some expected =>
      let actual :=
        let! manifest := jget route "node_policy_manifest" in
        let! verification := jget manifest "verification" in
        get_str verification "canonical_sha256" in
      opt_str_is actual expected
  end.

(** ** Trust bundles, v2 *)

Definition TRUST_PROFILE : string := "dispatch_ticket_v2".
Definition TICKET_DOMAIN : list byte := str_bytes "IICP-DISPATCH-TICKET-V2" ++ [x00].

Record DispatchTrustKey := mkTrustKey {
  key_id : string;
  public_key_b64url : string;
  key_state : string;
  key_valid_from : Z;
  key_valid_until : Z;
  allowed_profiles : list string;
  issuers : list string;
  audiences : list string
}.

Record DispatchTrustBundle := mkBundle {
  bundle_version : Z;
  keys : list DispatchTrustKey;
  bundle_issuer : option string;
  valid_from : option Z;
  valid_until : option Z
}.

Record DispatchTicketBindings := mkBindings {
  b_issuer : string;
  b_provider_id : string;
  b_intent : string;
  b_constraints_digest : string;
  b_audience : option string
}.

Record DispatchTrustDecision := mkTrustDecision {
  td_accepted : bool;
  td_code : string;
  anchored : bool;
  td_key_id : option string
}.
Definition trust_reject (code : string) (key_id : option string) : DispatchTrustDecision :=
  mkTrustDecision false code false key_id.

(** ** The replay cache *)

Definition cache := gmap string Z.
(** [seen.retain(|_, expiry| *expiry > now)] *)
Definition cache_retain (c : gmap string Z) (now : Z) : gmap string Z :=
  filter (fun kv => now < kv.2) c.
Definition cache_contains (c : gmap string Z) (jti : string) (now : Z) : bool * gmap string Z :=
  let c := cache_retain c now in (is_some (c !! jti), c).
Definition cache_remember (c : gmap string Z) (jti : string) (expires_at : Z) : gmap string Z :=
  <[jti := expires_at]> c.

(** ** Canonical claims *)

(** A map's keys are already in order; [sorted] repeats it. *)
Fixpoint canonical_ticket_claims (v : json) : string :=
  match v with
  | JObject m =>
      "{" +:+ str_join "," ((fun kv => leaf_text (JString kv.1) +:+ ":" +:+ canonical_ticket_claims kv.2) <$> m)
      +:+ "}"
  | JArray l => "[" +:+ str_join "," (canonical_ticket_claims <$> l) +:+ "]"
  | _ => leaf_text v
  end.

Definition signature_valid (key : DispatchTrustKey) (signature_b64url : string) (claims : json) : bool :=
  match b64url_decode (public_key_b64url key) ≫= sized 32, b64url_decode signature_b64url ≫= sized 64 with
  | Some public_bytes, Some signature_bytes =>
      ed25519_verify public_bytes (TICKET_DOMAIN ++ str_bytes (canonical_ticket_claims claims)) signature_bytes
  | _, _ => false
  end.

Definition claims_bound (claims : json) (bindings : DispatchTicketBindings) : bool :=
  jis_str (jidx claims "issuer") (b_issuer bindings)
  && jis_str (jidx claims "provider_id") (b_provider_id bindings)
  && jis_str (jidx claims "intent") (b_intent bindings)
  && jis_str (jidx claims "constraints_digest") (b_constraints_digest bindings)
  && is_none_or (b_audience bindings) (fun a => jis_str (jidx claims "audience") a).

Definition verify_dispatch_ticket_v2 (claims : json) (signature_b64url : string)
    (bundle : DispatchTrustBundle) (bindings : DispatchTicketBindings) (now minimum_bundle_version : Z)
    (replay_cache : option (gmap string Z)) : DispatchTrustDecision * option (gmap string Z) :=
  if bundle_version bundle <? minimum_bundle_version
  then (trust_reject "reject_bundle_rollback" None, replay_cache)
  else if is_some_and (valid_from bundle) (fun start => now <? start)
  then (trust_reject "reject_bundle_not_yet_valid" None, replay_cache)
  else if is_some_and (valid_until bundle) (fun until => until <? now)
  then (trust_reject "reject_bundle_expired" None, replay_cache)
  else if negb (jis_str (jidx claims "profile") TRUST_PROFILE)
  then (trust_reject "reject_required_profile_downgrade" None, replay_cache)
  else match as_str (jidx claims "key_id") with
  | None => (trust_reject "reject_unknown_key" None, replay_cache)
  | Some kid =>
  match List.find (fun k => key_id k ==? kid) (keys bundle) with
  | None => (trust_reject "reject_unknown_key" (Some kid), replay_cache)
  | Some key =>
      if key_state key ==? "revoked" then (trust_reject "reject_key_revoked" (Some kid), replay_cache)
      else if (now <? key_valid_from key) || (key_valid_until key <? now)
      then (trust_reject "reject_key_expired" (Some kid), replay_cache)
      else if negb (bool_decide (allowed_profiles key = [])) && negb (str_in TRUST_PROFILE (allowed_profiles key))
      then (trust_reject "reject_profile_not_allowed" (Some kid), replay_cache)
      else if negb (bool_decide (issuers key = []))
              && negb (existsb (fun i => jis_str (jidx claims "issuer") i) (issuers key))
      then (trust_reject "reject_issuer" (Some kid), replay_cache)
      else if negb (bool_decide (audiences key = []))
              && negb (existsb (fun a => jis_str (jidx claims "audience") a) (audiences key))
      then (trust_reject "reject_audience" (Some kid), replay_cache)
      else if negb (claims_bound claims bindings)
      then (trust_reject "reject_claim_mismatch" (Some kid), replay_cache)
      else match as_u64 (jidx claims "expires_at"), as_str (jidx claims "jti") with
      | Some expires_at, Some jti =>
          if (expires_at <=? now) || str_is_empty jti
          then (trust_reject "reject_claim_mismatch" (Some kid), replay_cache)
          else if negb (signature_valid key signature_b64url claims)
          then (trust_reject "reject_signature" (Some kid), replay_cache)
          else
            let accept := mkTrustDecision true "accept_anchored" true (Some kid) in
            match replay_cache with
            | None => (accept, None)
            | Some c =>
                let '(seen, c) := cache_contains c jti now in
                if seen then (trust_reject "reject_local_replay" (Some kid), Some c)
                else (accept, Some (cache_remember c jti expires_at))
            end
      | _, _ => (trust_reject "reject_claim_mismatch" (Some kid), replay_cache)
      end
  end
  end.

(** ** What an accepted ticket is *)

Record ticket_admissible (claims : json) (signature : string) (bundle : DispatchTrustBundle)
    (bindings : DispatchTicketBindings) (now minimum : Z) (key : DispatchTrustKey) (jti : string)
    (expires : Z) : Prop := {
  ta_version : minimum <= bundle_version bundle;
  ta_from : forall t, valid_from bundle = Some t -> t <= now;
  ta_until : forall t, valid_until bundle = Some t -> now <= t;
  ta_profile : jidx claims "profile" = JString "dispatch_ticket_v2";
  ta_key_id : jidx claims "key_id" = JString (key_id key);
  ta_key : exists before after, keys bundle = before ++ key :: after /\ Forall (fun k => key_id k <> key_id key) before;
  ta_state : key_state key <> "revoked";
  ta_window : key_valid_from key <= now <= key_valid_until key;
  ta_allowed : allowed_profiles key = [] \/ "dispatch_ticket_v2" ∈ allowed_profiles key;
  ta_issuers : issuers key = [] \/ exists i, i ∈ issuers key /\ jidx claims "issuer" = JString i;
  ta_audiences : audiences key = [] \/ exists a, a ∈ audiences key /\ jidx claims "audience" = JString a;
  ta_issuer : jidx claims "issuer" = JString (b_issuer bindings);
  ta_provider : jidx claims "provider_id" = JString (b_provider_id bindings);
  ta_intent : jidx claims "intent" = JString (b_intent bindings);
  ta_constraints : jidx claims "constraints_digest" = JString (b_constraints_digest bindings);
  ta_audience : forall a, b_audience bindings = Some a -> jidx claims "audience" = JString a;
  ta_expires : as_u64 (jidx claims "expires_at") = Some expires;
  ta_fresh : now < expires;
  ta_jti : jidx claims "jti" = JString jti;
  ta_jti_ne : jti <> EmptyString;
  ta_signature : exists public_bytes signature_bytes,
    b64url_decode (public_key_b64url key) = Some public_bytes /\ zlen public_bytes = 32 /\
    b64url_decode signature = Some signature_bytes /\ zlen signature_bytes = 64 /\
    ed25519_verify public_bytes
      ((str_bytes "IICP-DISPATCH-TICKET-V2" ++ [x00]) ++ str_bytes (canonical_ticket_claims claims)) signature_bytes = true
}.

Lemma ticket_claims_bound claims b :
  claims_bound claims b = true <->
  jidx claims "issuer" = JString (b_issuer b) /\ jidx claims "provider_id" = JString (b_provider_id b) /\
  jidx claims "intent" = JString (b_intent b) /\ jidx claims "constraints_digest" = JString (b_constraints_digest b) /\
  (forall a, b_audience b = Some a -> jidx claims "audience" = JString a).
Proof.
  unfold claims_bound. rewrite !andb_true_iff, !jis_str_true. destruct (b_audience b) as [a|]; cbn [is_none_or].
  - rewrite jis_str_true. split; [intros ((((? & ?) & ?) & ?) & Ha)|intros (? & ? & ? & ? & Ha)]; split_and!; try done.
    + by intros ? [= <-].
    + by apply Ha.
  - split; [intros ((((? & ?) & ?) & ?) & _)|intros (? & ? & ? & ? & _)]; by split_and!.
Qed.
Lemma signature_valid_spec key sig claims :
  signature_valid key sig claims = true <-> exists public_bytes signature_bytes,
    b64url_decode (public_key_b64url key) = Some public_bytes /\ zlen public_bytes = 32 /\
    b64url_decode sig = Some signature_bytes /\ zlen signature_bytes = 64 /\
    ed25519_verify public_bytes
      ((str_bytes "IICP-DISPATCH-TICKET-V2" ++ [x00]) ++ str_bytes (canonical_ticket_claims claims)) signature_bytes = true.
Proof.
  unfold signature_valid, sized. split.
  - destruct (b64url_decode (public_key_b64url key)) as [pk|]; simpl; [|done]. destruct (Z.eqb_spec (zlen pk) 32); [|done].
    destruct (b64url_decode sig) as [sg|]; simpl; [|done]. destruct (Z.eqb_spec (zlen sg) 64); [|done]. intros Hv. by exists pk, sg.
  - intros (pk & sg & -> & Hpk & -> & Hsg & Hv). simpl. rewrite Hpk, Hsg. exact Hv.
Qed.
(** The key a name finds is the first that has it. *)
Lemma find_first kid l key :
  List.find (fun k => key_id k ==? kid) l = Some key <->
  key_id key = kid /\ exists before after, l = before ++ key :: after /\ Forall (fun k => key_id k <> kid) before.
Proof.
  induction l as [|k l IH]; simpl.
  - split; [done|]. by intros (_ & [|? ?] & after & E & _).
  - destruct (String.eqb_spec (key_id k) kid) as [Ek|Ek].
    + split; [intros [= ->]; split; [done|by exists [], l]|]. intros (Hk & [|b before] & after & E & Hb); [by simplify_eq/=|].
      simplify_eq/=. by apply Forall_cons in Hb as [? _].
    + rewrite IH. split.
      * intros (Hk & before & after & -> & Hb). split; [done|]. exists (k :: before), after. split; [done|by constructor].
      * intros (Hk & [|b before] & after & E & Hb); simplify_eq/=. split; [done|]. apply Forall_cons in Hb as [_ ?]. by exists before, after.
Qed.

Lemma bool_decide_nil_orb {A} `{EqDecision A} (l : list A) (b : bool) :
  negb (bool_decide (l = [])) && negb b = false <-> l = [] \/ b = true.
Proof. destruct (bool_decide_reflect (l = [])), b; simpl; naive_solver. Qed.

Lemma exists_jis_str v l :
  existsb (fun i => jis_str v i) l = true <-> exists i, i ∈ l /\ v = JString i.
Proof.
  rewrite existsb_exists. split; intros (i & H1 & H2); exists i.
  - apply jis_str_true in H2. by rewrite list_elem_of_In.
  - by rewrite <- list_elem_of_In, jis_str_true.
Qed.

(** The identifier is not in the cache, or has expired there. *)
Definition not_replayed (c : option (gmap string Z)) (jti : string) (now : Z) : Prop :=
  forall m e, c = Some m -> m !! jti = Some e -> e <= now.

Lemma cache_retain_lookup m now j :
  cache_retain m now !! j = m !! j ≫= fun x => if bool_decide (now < x) then Some x else None.
Proof.
  unfold cache_retain. rewrite map_lookup_filter. destruct (m !! j) as [x|]; simpl; [|done].
  unfold guard. destruct (decide (now < x)); case_bool_decide; done.
Qed.
Lemma not_replayed_spec m jti now : not_replayed (Some m) jti now <-> (cache_contains m jti now).1 = false.
Proof.
  unfold cache_contains. simpl. rewrite cache_retain_lookup. split.
  - intros H. destruct (m !! jti) as [e|] eqn:E; [|done]. specialize (H m e eq_refl E). simpl. by rewrite bool_decide_false by lia.
  - intros H m' e [= <-] E. rewrite E in H. simpl in H. case_bool_decide; [done|lia].
Qed.

Lemma as_str_json v s : as_str v = Some s <-> v = JString s.
Proof. destruct v; simpl; split; congruence. Qed.

Lemma verify_v2_sound claims sig bundle bindings now minv c d c' :
  verify_dispatch_ticket_v2 claims sig bundle bindings now minv c = (d, c') -> td_accepted d = true ->
  exists key jti expires, ticket_admissible claims sig bundle bindings now minv key jti expires /\
    not_replayed c jti now /\
    c' = (fun m => cache_remember (cache_retain m now) jti expires) <$> c.
Proof.
  unfold verify_dispatch_ticket_v2. intros H Ha.
  destruct (Z.ltb_spec (bundle_version bundle) minv); [by simplify_eq/=|].
  destruct (is_some_and (valid_from bundle) _) eqn:Ef; [by simplify_eq/=|].
  destruct (is_some_and (valid_until bundle) _) eqn:Eu; [by simplify_eq/=|].
  destruct (jis_str (jidx claims "profile") TRUST_PROFILE) eqn:Ep; [|by simplify_eq/=]. cbn [negb] in H.
  destruct (as_str (jidx claims "key_id")) as [kid|] eqn:Ek; [|by simplify_eq/=].
  destruct (List.find _ _) as [key|] eqn:Efind; [|by simplify_eq/=].
  apply find_first in Efind as [Ekid Efind]. subst kid.
  destruct (String.eqb_spec (key_state key) "revoked"); [by simplify_eq/=|].
  destruct (_ || _) eqn:Ew in H; [by simplify_eq/=|].
  destruct (_ && negb (str_in _ _)) eqn:Eal in H; [by simplify_eq/=|].
  destruct (_ && negb (existsb _ (issuers key))) eqn:Eis in H; [by simplify_eq/=|].
  destruct (_ && negb (existsb _ (audiences key))) eqn:Eau in H; [by simplify_eq/=|].
  destruct (claims_bound claims bindings) eqn:Eb; [|by simplify_eq/=]. cbn [negb] in H.
  destruct (as_u64 (jidx claims "expires_at")) as [ex|] eqn:Ee; [|by simplify_eq/=].
  destruct (as_str (jidx claims "jti")) as [jti|] eqn:Ej; [|by simplify_eq/=].
  destruct ((ex <=? now) || str_is_empty jti) eqn:Eexp; [by simplify_eq/=|].
  destruct (signature_valid key sig claims) eqn:Es; [|by simplify_eq/=]. cbn [negb] in H.
  apply orb_false_iff in Ew as [Ew1%Z.ltb_ge Ew2%Z.ltb_ge].
  apply orb_false_iff in Eexp as [Eexp1%Z.leb_gt Eexp2%String.eqb_neq].
  rewrite bool_decide_nil_orb in Eal, Eis, Eau. rewrite str_in_elem in Eal. rewrite exists_jis_str in Eis, Eau.
  apply ticket_claims_bound in Eb as (Eb1 & Eb2 & Eb3 & Eb4 & Eb5). apply signature_valid_spec in Es.
  exists key, jti, ex. split; [|destruct c as [m|]].
  - constructor; try done.
    + intros t Et. rewrite Et in Ef. simpl in Ef. apply Z.ltb_ge in Ef. lia.
    + intros t Et. rewrite Et in Eu. simpl in Eu. apply Z.ltb_ge in Eu. lia.
    + by apply jis_str_true.
    + by apply as_str_json.
    + by apply as_str_json.
  - destruct (cache_contains m jti now) as [seen m'] eqn:Ec. destruct seen; simplify_eq/=.
    split; [apply not_replayed_spec; by rewrite Ec|]. unfold cache_contains in Ec. by simplify_eq.
  - simplify_eq. by split.
Qed.

Lemma verify_v2_complete claims sig bundle bindings now minv c key jti expires :
  ticket_admissible claims sig bundle bindings now minv key jti expires -> not_replayed c jti now ->
  verify_dispatch_ticket_v2 claims sig bundle bindings now minv c =
    (mkTrustDecision true "accept_anchored" true (Some (key_id key)),
     (fun m => cache_remember (cache_retain m now) jti expires) <$> c).
Proof.
  intros [] Hr. unfold verify_dispatch_ticket_v2.
  rewrite (proj2 (Z.ltb_ge _ _)) by done.
  assert (is_some_and (valid_from bundle) (fun start => now <? start) = false) as ->.
  { destruct (valid_from bundle) as [t|]; [|done]. apply Z.ltb_ge. auto. }
  assert (is_some_and (valid_until bundle) (fun until => until <? now) = false) as ->.
  { destruct (valid_until bundle) as [t|]; [|done]. apply Z.ltb_ge. auto. }
  rewrite (proj2 (jis_str_true _ TRUST_PROFILE) ta_profile0), ta_key_id0. cbn [negb as_str].
  rewrite (proj2 (find_first (key_id key) (keys bundle) key)) by done.
  rewrite (proj2 (String.eqb_neq _ _) ta_state0).
  rewrite (proj2 (Z.ltb_ge now (key_valid_from key))), (proj2 (Z.ltb_ge (key_valid_until key) now)) by lia.
  cbn [orb].
  rewrite (proj2 (bool_decide_nil_orb (allowed_profiles key) _)) by (by rewrite str_in_elem).
  rewrite (proj2 (bool_decide_nil_orb (issuers key) _)) by (by rewrite exists_jis_str).
  rewrite (proj2 (bool_decide_nil_orb (audiences key) _)) by (by rewrite exists_jis_str).
  rewrite (proj2 (ticket_claims_bound claims bindings)) by done. rewrite ta_expires0, ta_jti0. cbn [negb as_str].
  rewrite (proj2 (Z.leb_gt _ _)) by done. unfold str_is_empty. rewrite (proj2 (String.eqb_neq _ _) ta_jti_ne0).
  cbn [orb]. rewrite (proj2 (signature_valid_spec key sig claims)) by done. cbn [negb]. destruct c as [m|]; [|done].
  apply not_replayed_spec in Hr. unfold cache_contains in *. simpl in *. by rewrite Hr.
Qed.

(** The cache drops nothing but what has expired. *)
Definition keeps_unexpired (m m' : gmap string Z) (now : Z) : Prop :=
  forall j x, (m' !! j = Some x -> m !! j = Some x) /\ (m !! j = Some x -> now < x -> m' !! j = Some x).

Lemma retain_keeps m now : keeps_unexpired m (cache_retain m now) now.
Proof.
  intros j x. rewrite cache_retain_lookup. destruct (m !! j) as [y|]; simpl; [|by split]. case_bool_decide; split; intros [= ->]; [done..|lia].
Qed.
(** The cache only forgets what has expired. *)
Lemma verify_v2_cache claims sig bundle bindings now minv m d c' :
  verify_dispatch_ticket_v2 claims sig bundle bindings now minv (Some m) = (d, c') ->
  td_accepted d = false -> c' = Some m \/ c' = Some (cache_retain m now).
Proof.
  unfold verify_dispatch_ticket_v2, cache_contains. intros H Ha.
  repeat (case_match; simplify_eq/=; try (by left); try (by right)).
Qed.

(** C26: a v2 ticket is accepted exactly when it is admissible: the bundle is
    current and not rolled back; the claims name the profile and a key of the
    bundle that is not revoked, within its validity and allowed for profile,
    issuer and audience; issuer, provider, intent, constraints digest and, where
    the caller asks for one, audience are the caller's; the ticket has an
    identifier and has not expired; the key's 32 bytes verify the 64 bytes of the
    signature over the domain-separated canonical claims; and the identifier is
    not in the replay cache, unless expired there.  Accepting names that key and
    puts the identifier with its expiry into the cache; whatever is decided, the
    cache drops only what has expired. *)
Theorem ticket_v2_accepted_iff claims sig bundle bindings now minv c d c' :
  verify_dispatch_ticket_v2 claims sig bundle bindings now minv c = (d, c') ->
  (td_accepted d = true <->
   exists key jti expires, ticket_admissible claims sig bundle bindings now minv key jti expires /\ not_replayed c jti now) /\
  (forall key jti expires, ticket_admissible claims sig bundle bindings now minv key jti expires -> not_replayed c jti now ->
   d = mkTrustDecision true "accept_anchored" true (Some (key_id key)) /\
   forall m, c = Some m -> exists kept, keeps_unexpired m kept now /\ c' = Some (<[jti := expires]> kept)) /\
  (td_accepted d = false -> forall m, c = Some m -> exists kept, keeps_unexpired m kept now /\ c' = Some kept).
Proof.
  intros E. split_and!.
  - split.
    + intros Ha. destruct (verify_v2_sound _ _ _ _ _ _ _ _ _ E Ha) as (k & j & x & H1 & H2 & _). eauto.
    + intros (k & j & x & H1 & H2). rewrite (verify_v2_complete _ _ _ _ _ _ _ _ _ _ H1 H2) in E. by injection E as <- _.
  - intros key jti expires H1 H2. rewrite (verify_v2_complete _ _ _ _ _ _ _ _ _ _ H1 H2) in E. injection E as <- <-.
    split; [done|]. intros m ->. exists (cache_retain m now). split; [apply retain_keeps|done].
  - intros Ha m ->. destruct (verify_v2_cache _ _ _ _ _ _ _ _ _ E Ha) as [-> | ->]; eexists; (split; [|done]); [|apply retain_keeps].
    intros j x. by split.
Qed.

(** ** Replays *)

Record presentation := mkPresentation {
  pr_claims : json;
  pr_signature : string;
  pr_bundle : DispatchTrustBundle;
  pr_bindings : DispatchTicketBindings;
  pr_now : Z;
  pr_minimum : Z
}.

(** The ticket's identifier and expiry. *)
Definition pr_ticket (p : presentation) : option json * option Z :=
  (jget (pr_claims p) "jti", as_u64 (jidx (pr_claims p) "expires_at")).

(** The cache and the tickets accepted so far. *)
Definition present (s : gmap string Z * list (option json * option Z)) (p : presentation)
    : gmap string Z * list (option json * option Z) :=
  let '(d, c) := verify_dispatch_ticket_v2 (pr_claims p) (pr_signature p) (pr_bundle p)
                   (pr_bindings p) (pr_now p) (pr_minimum p) (Some s.1) in
  (default s.1 c, if td_accepted d then s.2 ++ [pr_ticket p] else s.2).

Record replay_inv (clock : Z) (s : gmap string Z * list (option json * option Z)) : Prop := {
  ri_nodup : NoDup s.2;
  ri_spent : forall j x, (Some (JString j), Some x) ∈ s.2 -> s.1 !! j = Some x \/ x <= clock;
  ri_shape : forall t, t ∈ s.2 -> exists j x, t = (Some (JString j), Some x)
}.

Lemma retain_spent m now j x : m !! j = Some x \/ x <= now -> cache_retain m now !! j = Some x \/ x <= now.
Proof.
  rewrite cache_retain_lookup. intros [->|]; [|by right]. simpl. case_bool_decide; [by left|right; lia].
Qed.

Lemma present_inv clock s p :
  clock <= pr_now p -> replay_inv clock s -> replay_inv (pr_now p) (present s p).
Proof.
  intros Hc [Hn Hs Hsh]. destruct s as [m tickets]; simpl in *. unfold present. simpl.
  assert (forall j x, (Some (JString j), Some x) ∈ tickets -> m !! j = Some x \/ x <= pr_now p) as Hs'.
  { intros j x Hin. destruct (Hs j x Hin); [by left|right; lia]. }
  destruct (verify_dispatch_ticket_v2 _ _ _ _ _ _ _) as [d c'] eqn:E. destruct (td_accepted d) eqn:Ea.
  - destruct (verify_v2_sound _ _ _ _ _ _ _ _ _ E Ea) as (key & jti & ex & Hadm & Hnr & ->). simpl.
    apply not_replayed_spec in Hnr. unfold cache_contains in Hnr. simpl in Hnr.
    assert (pr_ticket p = (Some (JString jti), Some ex)) as Ht.
    { unfold pr_ticket. rewrite (ta_expires _ _ _ _ _ _ _ _ _ Hadm). f_equal.
      pose proof (ta_jti _ _ _ _ _ _ _ _ _ Hadm) as Hj. unfold jidx in Hj.
      destruct (jget (pr_claims p) "jti"); simpl in Hj; congruence. }
    assert ((Some (JString jti), Some ex) ∉ tickets) as Hnew.
    { intros Hin. pose proof (ta_fresh _ _ _ _ _ _ _ _ _ Hadm).
      destruct (retain_spent m (pr_now p) jti ex (Hs' _ _ Hin)) as [Hr|]; [|lia]. by rewrite Hr in Hnr. }
    rewrite Ht. split; simpl.
    + apply NoDup_app. split; [done|]. split; [|apply NoDup_singleton].
      intros x Hx ->%list_elem_of_singleton. done.
    + intros j x [Hin|Hin%list_elem_of_singleton]%elem_of_app.
      * unfold cache_remember. destruct (decide (jti = j)) as [->|Hne].
        -- destruct (retain_spent m (pr_now p) j x (Hs' _ _ Hin)) as [Hr|]; [|by right].
           by rewrite Hr in Hnr.
        -- rewrite lookup_insert_ne by done. by apply retain_spent, Hs'.
      * simplify_eq. left. unfold cache_remember. by rewrite lookup_insert_eq.
    + intros t [Hin|Hin%list_elem_of_singleton]%elem_of_app; [auto|]. subst t. eauto.
  - destruct (verify_v2_cache _ _ _ _ _ _ _ _ _ E Ea) as [-> | ->]; split; simpl; try done.
    intros j x Hin. by apply retain_spent, Hs'.
Qed.

Fixpoint nondecreasing (clock : Z) (ps : list presentation) : Prop :=
  match ps with [] => True | p :: ps => clock <= pr_now p /\ nondecreasing (pr_now p) ps end.

(** Through one replay cache and under a clock that does not run backwards,
    no ticket (identifier and expiry) is accepted twice, whatever bundles,
    bindings and other tickets are presented in between. *)
Theorem ticket_v2_accepted_once clock ps :
  nondecreasing clock ps -> NoDup (foldl present (∅, []) ps).2.
Proof.
  assert (replay_inv clock (∅, [])) as Hinv.
  { split; [by apply NoDup_nil_2|intros j x Hin; by apply elem_of_nil in Hin|].
    intros t Hin. by apply elem_of_nil in Hin. }
  revert Hinv. generalize (∅ : gmap string Z, @nil (option json * option Z)) as s. revert clock.
  induction ps as [|p ps IH]; intros clock s Hinv Ht; simpl; [apply Hinv|].
  destruct Ht as [H1 H2]. eapply IH; [|exact H2]. by eapply present_inv.
Qed.

(** An accepted v1 route ticket is signed over the domain-separated payload
    that its claims were read from, and is bound to the expected issuer,
    audience, node and intent and not expired. *)
Theorem route_ticket_sound token pk issuer node_id intent now claims :
  verify_dispatch_route_ticket token pk issuer node_id intent now = Some claims ->
  exists payload sig_hex key sig body,
    split_once "." token = Some (payload, sig_hex) /\
    hex_decode pk = Some key /\ zlen key = 32 /\ hex_decode sig_hex = Some sig /\ zlen sig = 64 /\
    ed25519_verify key (str_bytes (ROUTE_DOMAIN +:+ payload)) sig = true /\
    b64url_decode payload = Some body /\ parse_claims body = Some claims /\
    tc_iss claims = issuer /\ tc_aud claims = AUDIENCE /\ tc_node_id claims = node_id /\
    tc_intent claims = intent /\ now < tc_exp claims.
Proof.
  unfold verify_dispatch_route_ticket. destruct (split_once "." token) as [[payload sig_hex]|]; [|done].
  simpl. destruct (negb _); [done|]. unfold sized.
  destruct (hex_decode pk) as [key|] eqn:Ekey; simpl; [|done]. destruct (Z.eqb_spec (zlen key) 32); simpl; [|done].
  destruct (hex_decode sig_hex) as [sig|] eqn:Esig; simpl; [|done]. destruct (Z.eqb_spec (zlen sig) 64); simpl; [|done].
  destruct (ed25519_verify _ _ _) eqn:Ev; simpl; [|done].
  destruct (b64url_decode payload) as [body|] eqn:Ebody; simpl; [|done].
  destruct (parse_claims body) as [c|] eqn:Ec; simpl; [|done].
  destruct (route_claims_ok c issuer node_id intent now) eqn:Er; [|done]. intros [= ->].
  unfold route_claims_ok in Er. bprop.
  exists payload, sig_hex, key, sig, body. repeat split; try done.
Qed.
End verify.

(** ** Concrete tickets

    A toy signature scheme (the signature repeats its first byte) and decoders
    that read a string's own bytes. *)

Definition toy_verify (key message sig : list byte) : bool :=
  forallb (fun b => Byte.eqb b (default x00 (head message))) sig.
Definition toy_decode (s : string) : option (list byte) := Some (str_bytes s).
Definition repeat_str (n : nat) (c : Ascii.ascii) : string :=
  String.string_of_list_ascii (repeat c n).
Definition toy_text (v : json) : string := match v with JString s => s | _ => "0" end.

Definition demo_bundle : DispatchTrustBundle :=
  mkBundle 3 [mkTrustKey "k1" (repeat_str 32 "x") "active" 0 1000 [] [] []] None (Some 0) (Some 1000).
Definition demo_bindings : DispatchTicketBindings := mkBindings "dir" "p" "i" "d" None.
Definition demo_ticket : json :=
  mk_obj [("profile", JString TRUST_PROFILE); ("key_id", JString "k1"); ("issuer", JString "dir");
          ("provider_id", JString "p"); ("intent", JString "i"); ("constraints_digest", JString "d");
          ("expires_at", u64_json 100); ("jti", JString "t1")].
Definition demo_sig : string := repeat_str 64 "I".
Definition demo_presentation (now : Z) : presentation :=
  mkPresentation demo_ticket demo_sig demo_bundle demo_bindings now 2.

(** A current ticket is accepted and its identifier kept, though an expired entry
    has the same one; the other expired entry is dropped. *)
Lemma ticket_v2_accepted_iff_witness :
  td_accepted (verify_dispatch_ticket_v2 toy_verify toy_decode toy_text demo_ticket demo_sig demo_bundle demo_bindings 10 2
    (Some (<["t1" := 10]> (<["t0" := 5]> ∅)))).1 = true /\
  exists key jti expires,
    ticket_admissible toy_verify toy_decode toy_text demo_ticket demo_sig demo_bundle demo_bindings 10 2 key jti expires.
Proof.
  split; [vm_compute; reflexivity|].
  destruct (ticket_v2_accepted_iff toy_verify toy_decode toy_text demo_ticket demo_sig demo_bundle demo_bindings 10 2
    (Some (<["t1" := 10]> (<["t0" := 5]> ∅))) _ _ (surjective_pairing _)) as (H & _ & _).
  destruct (proj1 H) as (key & jti & expires & Ha & _); [vm_compute; reflexivity|]. exists key, jti, expires. exact Ha.
Defined.

Lemma ticket_v2_accepted_once_witness :
  NoDup (foldl (present toy_verify toy_decode toy_text) (∅, []) [demo_presentation 10; demo_presentation 20]).2 /\
  length (foldl (present toy_verify toy_decode toy_text) (∅, []) [demo_presentation 10; demo_presentation 20]).2 = 1%nat.
Proof.
  split; [|vm_compute; reflexivity].
  apply (ticket_v2_accepted_once toy_verify toy_decode toy_text 0
           [demo_presentation 10; demo_presentation 20]).
  simpl. lia.
Defined.

Definition demo_route_claims : DispatchRouteTicketClaims :=
  mkTicketClaims 1 "dispatch-route-ticket" "dir" AUDIENCE (repeat_str 24 "a") "n" "i" 0 100 None.
Definition demo_route_token : string := "payload." +:+ repeat_str 128 "i".
Definition toy_hex (s : string) : option (list byte) := Some (take (Nat.div2 (String.length s)) (str_bytes s)).

Lemma route_ticket_sound_witness : tc_iss demo_route_claims = "dir" /\ 50 < tc_exp demo_route_claims.
Proof.
  destruct (route_ticket_sound toy_verify toy_hex toy_decode (fun _ => Some demo_route_claims)
    demo_route_token (repeat_str 64 "k") "dir" "n" "i" 50 demo_route_claims) as
    (p & sh & k & sg & b & _ & _ & _ & _ & _ & _ & _ & _ & H1 & _ & _ & _ & H2).
  - vm_compute. reflexivity.
  - split; [exact H1|exact H2].
Defined.
