(* ===== verification/TrustStore.v ===== *)
(** * The trust bundle store ([src/dispatch_ticket_trust.rs],
      [FileDispatchTrustBundleStore])

    The state file is its bytes, or absent.  Taking the lock file makes
    [install] and [recover] one step each; permissions, the temporary file and
    the flushes are the file system's.  Base64, SHA-256 and the derived JSON
    parsers are parameters, with the round trips the store relies on as
    hypotheses about the bundles that are written. *)

From S2P Require Import Prelude Text Json DispatchTicket.

(** ** Canonical bundles *)

(** Stable [sort_by] *)
Fixpoint insert_sorted {A} (le : A -> A -> bool) (x : A) (l : list A) : list A :=
  match l with
  | [] => [x]
  | y :: l' => if le x y then x :: l else y :: insert_sorted le x l'
  end.
Definition sort_by {A} (le : A -> A -> bool) : list A -> list A := foldr (insert_sorted le) [].

Definition strings_json (l : list string) : json := JArray (JString <$> l).

(** [serde_json::to_value] of a key, with its lists sorted and an empty list
    of profiles filled in. *)
Definition key_value (k : DispatchTrustKey) : json :=
  mk_obj [("key_id", JString (key_id k)); ("public_key_b64url", JString (public_key_b64url k));
          ("state", JString (key_state k)); ("valid_from", u64_json (key_valid_from k));
          ("valid_until", u64_json (key_valid_until k));
          ("allowed_profiles",
           strings_json (sort_by str_leb (match allowed_profiles k with [] => [TRUST_PROFILE] | l => l end)));
          ("issuers", strings_json (sort_by str_leb (issuers k)));
          ("audiences", strings_json (sort_by str_leb (audiences k)))].

Definition opt_field (name : string) (o : option json) : list (string * json) :=
  match o with Some v => [(name, v)] | None => [] end.

Definition bundle_value (b : DispatchTrustBundle) : json :=
  mk_obj ([("bundle_version", u64_json (bundle_version b));
           ("keys", JArray (key_value <$> sort_by (fun x y => str_leb (key_id x) (key_id y)) (keys b)))]
          ++ opt_field "issuer" (JString <$> bundle_issuer b)
          ++ opt_field "valid_from" (u64_json <$> valid_from b)
          ++ opt_field "valid_until" (u64_json <$> valid_until b)).

(** ** The store *)

Record StoredDispatchTrustBundle := mkStored {
  st_bundle : DispatchTrustBundle;
  canonical_bytes : list byte;
  digest : string;
  high_water : Z
}.

Inductive TrustBundleInstallStatus :=
| Installed | Unchanged | Stale | InstallConflict | Recovered | RecoveryRequired.

Record TrustBundleInstallResult := mkInstallResult {
  install_status : TrustBundleInstallStatus;
  install_state : option StoredDispatchTrustBundle
}.

Record AdminRecoveryAuthorization := mkRecovery { reason : string; minimum_high_water : Z }.

Inductive TrustBundleStoreError := Corrupt (message : string).

Record TrustStoreState := mkTrustState {
  bundle_b64 : string;
  bundle_digest : string;
  ts_bundle_version : Z;
  ts_high_water : Z
}.

Definition STATE_LIMIT : Z := 4 * 1024 * 1024.

(** The state file. *)
Definition state_file := option (list byte).

Section store.
Context (leaf_text : json -> string) (sha256_hex : list byte -> string)
        (b64_encode : list byte -> string) (b64_decode : string -> option (list byte))
        (state_of_bytes : list byte -> option TrustStoreState)
        (bundle_of_bytes : list byte -> option DispatchTrustBundle).

Definition canonical_dispatch_trust_bundle (b : DispatchTrustBundle) : list byte :=
  str_bytes (canonical_ticket_claims leaf_text (bundle_value b)).

Definition sha256_digest (l : list byte) : string := "sha256:" +:+ sha256_hex l.

Definition state_value (s : TrustStoreState) : json :=
  mk_obj [("bundle_b64", JString (bundle_b64 s)); ("bundle_digest", JString (bundle_digest s));
          ("bundle_version", u64_json (ts_bundle_version s)); ("high_water", u64_json (ts_high_water s))].
Definition state_bytes (s : TrustStoreState) : list byte :=
  str_bytes (canonical_ticket_claims leaf_text (state_value s)).

Definition commit_state (b : DispatchTrustBundle) (high_water : Z) : TrustStoreState :=
  mkTrustState (b64_encode (canonical_dispatch_trust_bundle b))
    (sha256_digest (canonical_dispatch_trust_bundle b)) (bundle_version b) high_water.

Definition commit (b : DispatchTrustBundle) (high_water : Z) : StoredDispatchTrustBundle * state_file :=
  let canonical := canonical_dispatch_trust_bundle b in
  (mkStored b canonical (sha256_digest canonical) high_water, Some (state_bytes (commit_state b high_water))).

Definition load (f : state_file) : result (option StoredDispatchTrustBundle) TrustBundleStoreError :=
  match f with
  | None => Ok None
  | Some raw =>
      if STATE_LIMIT <? zlen raw then Err (Corrupt "state exceeds size limit")
      else
        let? state := ok_or (state_of_bytes raw) (Corrupt "invalid state") in
        let? canonical := ok_or (b64_decode (bundle_b64 state)) (Corrupt "invalid base64") in
        let digest := sha256_digest canonical in
        if digest <>? bundle_digest state then Err (Corrupt "bundle digest mismatch")
        else
          let? bundle := ok_or (bundle_of_bytes canonical) (Corrupt "invalid bundle") in
          if negb (bundle_version bundle =? ts_bundle_version state)
             || (ts_high_water state <? bundle_version bundle)
          then Err (Corrupt "bundle version/high-water mismatch")
          else if negb (bool_decide (canonical_dispatch_trust_bundle bundle = canonical))
          then Err (Corrupt "bundle is not canonical")
          else Ok (Some (mkStored bundle canonical digest (ts_high_water state)))
  end.

Definition install (f : state_file) (b : DispatchTrustBundle) (expected_current_version : option Z)
    : result TrustBundleInstallResult TrustBundleStoreError * state_file :=
  match load f with
  | Err e => (Err e, f)
  | Ok current =>
      let current_version := (fun s => bundle_version (st_bundle s)) <$> current in
      if is_some expected_current_version && negb (bool_decide (expected_current_version = current_version))
      then (Ok (mkInstallResult InstallConflict current), f)
      else
        let candidate_digest := sha256_digest (canonical_dispatch_trust_bundle b) in
        let hw := match current with Some s => high_water s | None => 0 end in
        if bundle_version b <? hw then (Ok (mkInstallResult Stale current), f)
        else if bool_decide (current_version = Some (bundle_version b)) then
          (Ok (mkInstallResult
                 (if is_some_and current (fun s => digest s ==? candidate_digest) then Unchanged
                  else InstallConflict) current), f)
        else
          let '(state, f') := commit b (Z.max hw (bundle_version b)) in
          (Ok (mkInstallResult Installed (Some state)), f')
  end.

Definition recover (f : state_file) (b : DispatchTrustBundle)
    (authorization : option AdminRecoveryAuthorization)
    : result TrustBundleInstallResult TrustBundleStoreError * state_file :=
  match authorization with
  | Some auth =>
      if str_is_empty (trim (reason auth)) then (Ok (mkInstallResult RecoveryRequired None), f)
      else
        let current := match load f with Ok s => s | Err (Corrupt _) => None end in
        let hw := Z.max (Z.max (match current with Some s => high_water s | None => 0 end)
                               (minimum_high_water auth)) (bundle_version b) in
        let '(state, f') := commit b hw in
        (Ok (mkInstallResult Recovered (Some state)), f')
  | None => (Ok (mkInstallResult RecoveryRequired None), f)
  end.

(** ** Round trips of what is written *)

(** The bundle survives the file with each of the high-water marks [marks]:
    its state fits, and the parsers give back what was printed. *)
Record survives (marks : list Z) (b : DispatchTrustBundle) : Prop := {
  sv_version : 0 <= bundle_version b;
  sv_mark : bundle_version b ∈ marks;
  sv_b64 : b64_decode (b64_encode (canonical_dispatch_trust_bundle b)) =
           Some (canonical_dispatch_trust_bundle b);
  sv_state : forall hw, hw ∈ marks -> state_of_bytes (state_bytes (commit_state b hw)) = Some (commit_state b hw);
  sv_fits : forall hw, hw ∈ marks -> zlen (state_bytes (commit_state b hw)) <= STATE_LIMIT;
  sv_parse : exists b', bundle_of_bytes (canonical_dispatch_trust_bundle b) = Some b' /\
    bundle_version b' = bundle_version b /\
    canonical_dispatch_trust_bundle b' = canonical_dispatch_trust_bundle b
}.

(** What [load] finds after a [commit]. *)
Lemma load_commit marks b hw :
  survives marks b -> hw ∈ marks -> bundle_version b <= hw ->
  exists s, load (commit b hw).2 = Ok (Some s) /\ high_water s = hw /\
    bundle_version (st_bundle s) = bundle_version b /\
    digest s = sha256_digest (canonical_dispatch_trust_bundle b).
Proof.
  intros [Hv _ Hb Hst Hf (b' & Hp & Hv' & Hc)] Hm Hle. unfold load, commit. simpl.
  rewrite (proj2 (Z.ltb_ge _ _)) by auto. rewrite Hst by done. simpl. rewrite Hb. simpl.
  rewrite String.eqb_refl. simpl. rewrite Hp. simpl. rewrite Hv', Z.eqb_refl. simpl.
  rewrite (proj2 (Z.ltb_ge _ _)) by done. rewrite bool_decide_true by done. simpl. eauto.
Qed.

Inductive store_op :=
| Install (b : DispatchTrustBundle) (expected : option Z)
| Recover (b : DispatchTrustBundle) (auth : option AdminRecoveryAuthorization).
Definition op_bundle (o : store_op) : DispatchTrustBundle :=
  match o with Install b _ | Recover b _ => b end.

Definition op_ok (marks : list Z) (o : store_op) : Prop :=
  survives marks (op_bundle o) /\
  match o with Recover _ (Some auth) => minimum_high_water auth ∈ marks | _ => True end.

(** The file and the versions committed so far. *)
Definition store_step (s : state_file * list Z) (o : store_op) : state_file * list Z :=
  let '(r, f) := match o with Install b e => install s.1 b e | Recover b a => recover s.1 b a end in
  match r with
  | Ok res => (f, match install_status res with
                  | Installed | Recovered => s.2 ++ [bundle_version (op_bundle o)]
                  | _ => s.2 end)
  | Err _ => (f, s.2)
  end.

(** The file is readable, and its high-water mark is above every version ever
    committed. *)
Definition store_inv (marks : list Z) (s : state_file * list Z) : Prop :=
  exists cur, load s.1 = Ok cur /\ (forall st, cur = Some st -> high_water st ∈ marks) /\
    forall v, v ∈ s.2 -> v <= match cur with Some st => high_water st | None => -1 end.

Lemma max_mark (marks : list Z) a b : a ∈ marks -> b ∈ marks -> Z.max a b ∈ marks.
Proof. intros. by destruct (Z.max_spec a b) as [[_ ->]|[_ ->]]. Qed.

Lemma store_step_inv marks s o : op_ok marks o -> store_inv marks s -> store_inv marks (store_step s o).
Proof.
  intros [Hb Ho] (cur & Hl & Hm & Hv). destruct s as [f vs]. simpl in *.
  assert (forall hw, hw ∈ marks -> bundle_version (op_bundle o) <= hw ->
    (match cur with Some st => high_water st | None => -1 end) <= hw ->
    store_inv marks ((commit (op_bundle o) hw).2, vs ++ [bundle_version (op_bundle o)])) as Hcommit.
  { intros hw H0 H1 H2. destruct (load_commit marks (op_bundle o) hw Hb H0 H1) as (st & E & <- & _).
    exists (Some st). split; [done|]. split; [by intros ? [= <-]|]. intros v [Hin|Hin%list_elem_of_singleton]%elem_of_app; simpl.
    - specialize (Hv v Hin). lia.
    - subst v. done. }
  assert (store_inv marks (f, vs)) as Hsame by (by exists cur).
  pose proof (sv_version _ _ Hb) as Hver. pose proof (sv_mark _ _ Hb) as Hbm.
  assert (Z.max (match cur with Some s => high_water s | None => 0 end) (bundle_version (op_bundle o)) ∈ marks) as Hmax.
  { destruct cur as [st|]; [apply max_mark; auto|by rewrite Z.max_r]. }
  unfold store_step.
  destruct o as [b e|b a]; cbn [fst op_bundle] in *.
  - unfold install. rewrite Hl. destruct (_ && _); [done|].
    destruct (Z.ltb_spec (bundle_version b) (match cur with Some st => high_water st | None => 0 end)); [done|].
    destruct (bool_decide _).
    + destruct (is_some_and _ _); done.
    + destruct (commit b _) as [st f'] eqn:Ec. cbn [install_status].
      assert (f' = (commit b (Z.max (match cur with Some s => high_water s | None => 0 end) (bundle_version b))).2)
        as -> by (by rewrite Ec).
      apply Hcommit; [done|lia|]. destruct cur; lia.
  - unfold recover. destruct a as [auth|]; [|done]. destruct (str_is_empty _); [done|].
    rewrite Hl. destruct (commit b _) as [st f'] eqn:Ec. cbn [install_status].
    assert (f' = (commit b (Z.max (Z.max (match cur with Some s => high_water s | None => 0 end)
      (minimum_high_water auth)) (bundle_version b))).2) as -> by (by rewrite Ec).
    apply Hcommit; [|lia|destruct cur; lia].
    rewrite <- Z.max_assoc, (Z.max_comm (minimum_high_water auth)), Z.max_assoc. by apply max_mark.
Qed.

Lemma store_run_inv marks ops s :
  Forall (op_ok marks) ops -> store_inv marks s -> store_inv marks (foldl store_step s ops).
Proof.
  intros H. revert s. induction H as [|o ops Ho _ IH]; intros s Hs; simpl; [done|].
  by apply IH, store_step_inv.
Qed.

(** The trust store does not roll back: a bundle is installed only if no
    bundle of a higher version was ever installed or recovered in its history;
    after an installation the file loads again with that version; and a bundle
    of the current version but other content is refused. *)
Theorem trust_store_no_rollback marks ops b expected r f' :
  Forall (op_ok marks) ops -> survives marks b ->
  let s := foldl store_step (None, []) ops in
  install s.1 b expected = (Ok r, f') ->
  match install_status r with
  | Installed => (forall v, v ∈ s.2 -> v <= bundle_version b) /\
      exists st, load f' = Ok (Some st) /\ bundle_version (st_bundle st) = bundle_version b /\
        bundle_version b <= high_water st
  | _ => f' = s.1
  end.
Proof.
  intros Hops Hb s Hi.
  assert (store_inv marks s) as (cur & Hl & Hm & Hv).
  { apply store_run_inv; [done|]. exists None. split; [done|]. split; [done|]. intros v Hin. by apply elem_of_nil in Hin. }
  unfold install in Hi. rewrite Hl in Hi. destruct (_ && _); [by simplify_eq/=|].
  destruct (Z.ltb_spec (bundle_version b) (match cur with Some st => high_water st | None => 0 end));
    [by simplify_eq/=|].
  destruct (bool_decide _); [by destruct (is_some_and _ _); simplify_eq/=|].
  destruct (commit b _) as [st f1] eqn:Ec. simplify_eq. simpl.
  pose proof (sv_version _ _ Hb). pose proof (sv_mark _ _ Hb). split.
  - intros v Hin. specialize (Hv v Hin). destruct cur; lia.
  - destruct (load_commit marks b (Z.max (match cur with Some s => high_water s | None => 0 end) (bundle_version b)) Hb)
      as (st' & E & Hhw & Hvs & _); [|lia|].
    { destruct cur as [st0|]; [apply max_mark; auto|by rewrite Z.max_r]. } rewrite Ec in E. exists st'. repeat split; try done. lia.
Qed.

(** An installed bundle whose state exceeds the size limit makes the store
    unreadable: [commit] does not test the limit that [load] enforces. *)
Theorem trust_store_oversize_unreadable b :
  STATE_LIMIT < zlen (state_bytes (commit_state b (bundle_version b))) -> 0 <= bundle_version b ->
  exists r f, install None b None = (Ok r, f) /\ install_status r = Installed /\
    load f = Err (Corrupt "state exceeds size limit").
Proof.
  intros Hz Hv. unfold install. simpl. rewrite (proj2 (Z.ltb_ge _ _)) by done. rewrite Z.max_r by done.
  eexists _, _. split; [done|]. split; [done|]. unfold load. by rewrite (proj2 (Z.ltb_lt _ _)).
Qed.
End store.

(** ** A concrete store

    The texts and parsers of two bundles. *)

Definition demo_b1 : DispatchTrustBundle := mkBundle 1 [] None None None.
Definition demo_b2 : DispatchTrustBundle := mkBundle 2 [] None None None.

Definition num_text (v : json) : string :=
  match v with JString s => s | JNumber (PosInt n) => pretty n | _ => "x" end.
Definition ident_b64 (l : list byte) : string := bytes_str l.
Definition ident_unb64 (s : string) : option (list byte) := Some (str_bytes s).
Definition len_hex (l : list byte) : string := pretty (zlen l).

Definition demo_canonical (b : DispatchTrustBundle) : list byte := canonical_dispatch_trust_bundle num_text b.
Definition demo_parse (l : list byte) : option DispatchTrustBundle :=
  if bool_decide (l = demo_canonical demo_b1) then Some demo_b1
  else if bool_decide (l = demo_canonical demo_b2) then Some demo_b2 else None.

Definition demo_states : list TrustStoreState :=
  [commit_state num_text len_hex ident_b64 demo_b1 1; commit_state num_text len_hex ident_b64 demo_b1 2;
   commit_state num_text len_hex ident_b64 demo_b2 1; commit_state num_text len_hex ident_b64 demo_b2 2].
Definition demo_state_of (l : list byte) : option TrustStoreState :=
  List.find (fun s => bool_decide (state_bytes num_text s = l)) demo_states.

Lemma demo_survives b :
  b = demo_b1 \/ b = demo_b2 ->
  survives num_text len_hex ident_b64 ident_unb64 demo_state_of demo_parse [1; 2] b.
Proof.
  intros Hb. constructor.
  - destruct Hb as [-> | ->]; vm_compute; discriminate.
  - destruct Hb as [-> | ->]; set_solver.
  - unfold ident_unb64, ident_b64. by rewrite str_bytes_str.
  - intros hw Hhw. destruct Hb as [-> | ->];
      (apply elem_of_cons in Hhw as [->|Hhw%list_elem_of_singleton]; [|subst hw]); vm_compute; reflexivity.
  - intros hw Hhw. destruct Hb as [-> | ->];
      (apply elem_of_cons in Hhw as [->|Hhw%list_elem_of_singleton]; [|subst hw]); vm_compute; discriminate.
  - exists b. split; [|done]. destruct Hb as [-> | ->]; vm_compute; reflexivity.
Qed.

Lemma trust_store_no_rollback_witness :
  let f := (foldl (store_step num_text len_hex ident_b64 ident_unb64 demo_state_of demo_parse) (None, [])
              [Install demo_b1 None]).1 in
  exists st, load num_text len_hex ident_unb64 demo_state_of demo_parse
      (install num_text len_hex ident_b64 ident_unb64 demo_state_of demo_parse f demo_b2 (Some 1)).2
    = Ok (Some st) /\ bundle_version (st_bundle st) = 2.
Proof.
  destruct (trust_store_no_rollback num_text len_hex ident_b64 ident_unb64 demo_state_of demo_parse [1; 2]
    [Install demo_b1 None] demo_b2 (Some 1)
    (mkInstallResult Installed (Some (commit num_text len_hex ident_b64 demo_b2 2).1))
    (commit num_text len_hex ident_b64 demo_b2 2).2) as (_ & st & H1 & H2 & _).
  - apply Forall_cons; split; [|by apply Forall_nil]. split; [apply demo_survives; by left|exact I].
  - apply demo_survives. by right.
  - vm_compute. reflexivity.
  - exists st. split; [|exact H2]. etransitivity; [|exact H1]. vm_compute. reflexivity.
Defined.
