(* ===== verification/RelayWire.v ===== *)
(** * Relay wire format ([src/relay_session.rs], [src/relay_worker_client.rs])

    The relay and its workers exchange the same frames as the task transport,
    through their own, laxer reader: [read_frame] looks only at the magic
    bytes, the type and the length.  Payloads are CBOR maps with integer
    keys. *)

From S2P Require Import Prelude Text Framing Json Cbor.

Definition MT_INIT : byte := x01.
Definition MT_ACK : byte := x02.
Definition MT_CALL : byte := x05.
Definition MT_RESPONSE : byte := x06.
Definition MT_CLOSE : byte := x07.
Definition MT_PING : byte := x09.
Definition MT_PONG : byte := x0a.
Definition MT_RELAY_BIND : byte := x0b.
Definition MT_RELAY_ACK : byte := x0c.

(** The length is cast to [u32]; nothing bounds it here. *)
Definition make_frame (msg_type : byte) (payload : list byte) : list byte :=
  IICP_MAGIC ++ [FRAMING_VERSION; msg_type; x00; x00] ++ u32_to_be_bytes (zlen payload mod 2 ^ 32) ++ payload.

(** [read_exact]: the bytes still to come, or the I/O error at their end. *)
Definition relay_read_exact (n : Z) (input : list byte) : option (list byte * list byte) :=
  if n <=? zlen input then Some (take (Z.to_nat n) input, drop (Z.to_nat n) input) else None.

Definition relay_read_frame (input : list byte) : result (byte * list byte * list byte) string :=
  match relay_read_exact FRAME_HEADER_LEN input with
  | None => Err "early eof"
  | Some (header, input) =>
      if negb (bytes_eqb (take 4 header) IICP_MAGIC) then Err ("bad magic " +:+ debug_bytes (take 4 header))
      else
        let msg_type := byte_at header 5 in
        let payload_len := header_payload_len header in
        if 16 * 1024 * 1024 <? payload_len then Err ("payload too large: " +:+ pretty payload_len)
        else if 0 <? payload_len then
          match relay_read_exact payload_len input with
          | Some (payload, input) => Ok (msg_type, payload, input)
          | None => Err "early eof"
          end
        else Ok (msg_type, [], input)
  end.

Section int_maps.
Context {cbor_codec : CborCodec}.

Definition cbor_encode_int_map (entries : list (Z * CborValue)) : list byte :=
  cbor_ser (CMap ((fun kv => (CInteger kv.1, kv.2)) <$> entries)).

(** [out.insert(key_i, val)] for the entries with an [i64] key *)
Definition int_map_step (out : gmap Z CborValue) (kv : CborValue * CborValue) : gmap Z CborValue :=
  match kv.1 with
  | CInteger n => if (i64_min <=? n) && (n <=? i64_max) then <[n := kv.2]> out else out
  | _ => out
  end.
Definition cbor_decode_int_map (data : list byte) : option (gmap Z CborValue) :=
  match cbor_de data with
  | Ok (CMap m) => Some (foldl int_map_step ∅ m)
  | _ => None
  end.

Definition cbor_text_or_bytes (v : option CborValue) : option string :=
  match v with
  | Some (CText s) => Some s
  | Some (CBytes b) => if utf8_bytes b then Some (bytes_str b) else None
  | _ => None
  end.

Definition cbor_bytes (v : option CborValue) : option (list byte) :=
  match v with
  | Some (CBytes b) => Some b
  | Some (CText s) => Some (str_bytes s)
  | _ => None
  end.

Definition cbor_list_of_strings (v : option CborValue) : list string :=
  match v with
  | Some (CArray arr) => omap cbor_to_str arr
  | _ => []
  end.

(** ** Lemmas *)

(** The values of a relay payload that survive the codec. *)
Definition text_plain (v : CborValue) : bool := match v with CText s => utf8 s | _ => false end.
Definition entry_plain (kv : Z * CborValue) : bool :=
  (i64_min <=? kv.1) && (kv.1 <=? i64_max)
  && match kv.2 with
     | CText s => utf8 s
     | CBytes _ => true
     | CInteger n => (i64_min <=? n) && (n <=? i64_max)
     | CArray l => forallb text_plain l
     | _ => false
     end.

Lemma entry_plain_cbor d kv : entry_plain kv = true ->
  cbor_plain (S d) (CInteger kv.1) && cbor_plain (S d) kv.2 = true.
Proof.
  unfold entry_plain, i64_min, i64_max. destruct kv as [k v]. simpl. intros H. bprop.
  apply andb_true_iff. split; [apply andb_true_iff; lia|].
  destruct v; try done; simpl in *; [bprop; apply andb_true_iff; lia|].
  rewrite forallb_forall in *. intros x Hx. specialize (H0 x Hx). destruct x; try done. by destruct d.
Qed.

Lemma int_map_plain_S d entries :
  forallb entry_plain entries = true ->
  cbor_plain (S (S d)) (CMap ((fun kv => (CInteger kv.1, kv.2)) <$> entries)) = true.
Proof.
  intros H. cbn [cbor_plain]. rewrite forallb_forall in *. intros x Hx.
  apply list_elem_of_In, list_elem_of_fmap in Hx as (kv & -> & Hkv).
  apply entry_plain_cbor. apply H. by apply list_elem_of_In.
Qed.

(** A payload map is read back with its keys. *)
Lemma cbor_decode_encode_int_map entries :
  forallb entry_plain entries = true ->
  cbor_decode_int_map (cbor_encode_int_map entries) =
    Some (foldl (fun out kv => <[kv.1 := kv.2]> out) ∅ entries).
Proof.
  intros H. unfold cbor_decode_int_map, cbor_encode_int_map.
  rewrite cbor_de_ser by (by apply (int_map_plain_S 254)). f_equal.
  generalize (∅ : gmap Z CborValue). induction entries as [|[k v] entries IH]; intros out; [done|].
  cbn [fmap list_fmap foldl forallb] in *. apply andb_true_iff in H as [Hk H].
  rewrite IH by done. f_equal. unfold int_map_step, entry_plain in *. simpl in *.
  apply andb_true_iff in Hk as [Hk _]. by rewrite Hk.
Qed.
End int_maps.

(** A frame whose payload fits is read back with what follows it. *)
Lemma relay_read_make_frame mt payload rest :
  zlen payload <= MAX_FRAME_PAYLOAD ->
  relay_read_frame (make_frame mt payload ++ rest) = Ok (mt, payload, rest).
Proof.
  intros Hp. pose proof (zlen_nonneg payload) as H0. unfold MAX_FRAME_PAYLOAD in Hp.
  unfold make_frame. rewrite Z.mod_small by lia.
  pose proof (u32_to_be_bytes_length (zlen payload)) as Hl.
  pose proof (u32_be_roundtrip (zlen payload)) as Hr. unfold u32_max in Hr.
  specialize (Hr ltac:(lia)).
  destruct (u32_to_be_bytes (zlen payload)) as [|a [|b [|c [|d [|]]]]] eqn:E; try done.
  unfold relay_read_frame, relay_read_exact. unfold IICP_MAGIC. cbn [app].
  replace (FRAME_HEADER_LEN <=? _) with true
    by (symmetry; apply Z.leb_le; unfold FRAME_HEADER_LEN, zlen; simpl; lia).
  change (Z.to_nat FRAME_HEADER_LEN) with 12%nat. cbn [take drop].
  unfold bytes_eqb. rewrite bool_decide_true by done. cbn [negb].
  replace (header_payload_len _) with (zlen payload) by (rewrite <- Hr; done).
  change (byte_at _ 5) with mt. rewrite drop_0.
  destruct (Z.ltb_spec (16 * 1024 * 1024) (zlen payload)); [lia|].
  destruct (Z.ltb_spec 0 (zlen payload)).
  - rewrite zlen_app. pose proof (zlen_nonneg rest).
    destruct (Z.leb_spec (zlen payload) (zlen payload + zlen rest)); [|lia].
    unfold zlen. rewrite Nat2Z.id, take_app_length, drop_app_length. done.
  - destruct payload; [done|]. rewrite zlen_cons in *. pose proof (zlen_nonneg payload). lia.
Qed.
