(* ===== verification/RelaySession.v ===== *)
(** * Relay sessions ([src/relay_session.rs])

    A bound worker's session: the calls waiting for their response, the
    streams being relayed, and the queue of messages for the worker.  The two
    transports ([RelayWorkerSession] over TCP frames, [HttpPollWorkerSession]
    over long polls) differ in what is queued and in when queueing fails; the
    rest of their code is the same and is modelled once.

    A handle is shared by the registry, the connection's read loop and every
    caller; what they share (the two [pending] maps, the channels) is the
    [session_cell], and each operation below is one critical section or one
    poll of a caller.  Call identifiers come from [Uuid::new_v4] and are
    arguments. *)

From S2P Require Import Prelude Text Json Cbor CodecModel Framing ResponseSequence RelayWire.

Definition MAX_RELAY_STREAM_EVENTS : Z := 32.

(** The way to the worker: the write channel of a TCP session with its
    receiver alive or gone; the call queue of a polling session, whose receiver
    the session itself owns. *)
Inductive link :=
| TcpLink (write_open : bool)
| PollLink.

Inductive relay_message :=
| WireFrame (frame : list byte)
| PollCall (call : json).

(** A caller's [oneshot] receiver.  The sender of a waiting call lives in the
    session's [pending] map, which the caller's own handle keeps alive: no
    operation below makes a receiver [SenderDropped]. *)
Inductive oneshot :=
| Waiting
| Sent (v : json)
| SenderDropped.

(** Where a relayed stream's generator stands: before the loop, at the failure
    check, in [rx.recv()], after its last [yield], returned. *)
Inductive phase := KStart | KCheck | KRecv | KStop | KEnded.

(** The consumer side of a relayed stream: the channel's buffer, the shared
    failure, the outcome of queueing the CALL and the generator's state. *)
Record relay_stream := mkRelayStream {
  rs_events : list NativeResponseFrame;
  rs_failure : option string;
  rs_sent : bool;
  rs_timeout : Z;
  rs_phase : phase
}.

Record session_cell := mkCell {
  c_link : link;
  c_outbox : list relay_message;
  c_pending : gset string;
  c_calls : gmap string oneshot;
  c_stream_pending : gmap string NativeResponseSequence;
  c_streams : gmap string relay_stream
}.

Definition session_new (l : link) : session_cell := mkCell l [] ∅ ∅ ∅ ∅.

Definition set_pending (c : session_cell) (p : gset string) (calls : gmap string oneshot) : session_cell :=
  mkCell (c_link c) (c_outbox c) p calls (c_stream_pending c) (c_streams c).
Definition set_streams (c : session_cell) (p : gmap string NativeResponseSequence)
    (s : gmap string relay_stream) : session_cell :=
  mkCell (c_link c) (c_outbox c) (c_pending c) (c_calls c) p s.

(** [write_tx.send] and [call_tx.send] *)
Definition link_send (c : session_cell) (m : relay_message) : option session_cell :=
  match c_link c with
  | TcpLink false => None
  | _ => Some (mkCell (c_link c) (c_outbox c ++ [m]) (c_pending c) (c_calls c) (c_stream_pending c) (c_streams c))
  end.

Definition send_raw (c : session_cell) (frame : list byte) : result session_cell string :=
  ok_or (link_send c (WireFrame frame)) "relay write channel closed".

Definition link_closed (c : session_cell) : string :=
  match c_link c with
  | TcpLink _ => "relay session write channel closed"
  | PollLink => "relay poll session closed"
  end.

Section session.
Context {cbor_codec : CborCodec} {json_codec : JsonCodec}.

(** ** Buffered calls *)

Definition call_message (l : link) (call_id : string) (task : json) : relay_message :=
  match l with
  | TcpLink _ =>
      WireFrame (make_frame MT_CALL
        (cbor_encode_int_map [(15, CText call_id); (5, CBytes (json_to_vec task))]))
  | PollLink => PollCall (mk_obj [("call_id", JString call_id); ("task", task)])
  end.

(** [forward_task] up to its [await] *)
Definition forward_task_begin (c : session_cell) (call_id : string) (task : json)
    : result unit string * session_cell :=
  let c1 := set_pending c ({[call_id]} ∪ c_pending c) (<[call_id := Waiting]> (c_calls c)) in
  match link_send c1 (call_message (c_link c) call_id task) with
  | None => (Err (link_closed c), set_pending c1 (c_pending c1 ∖ {[call_id]}) (c_calls c1))
  | Some c2 => (Ok tt, c2)
  end.

(** One poll of the [await]; [timed_out] says that the timer has fired. *)
Definition forward_task_poll (c : session_cell) (call_id : string) (timeout_secs : Z) (timed_out : bool)
    : option (result json string) * session_cell :=
  match c_calls c !! call_id with
  | Some (Sent v) => (Some (Ok v), c)
  | Some SenderDropped => (Some (Err "relay session closed"), c)
  | Some Waiting =>
      if timed_out then
        (Some (Err ("relay forward timeout (" +:+ pretty timeout_secs +:+ "s) for call " +:+ call_id)),
         set_pending c (c_pending c ∖ {[call_id]}) (c_calls c))
      else (None, c)
  | None => (None, c)
  end.

Definition on_response (c : session_cell) (call_id : string) (result : json) : session_cell :=
  if bool_decide (call_id ∈ c_pending c)
  then set_pending c (c_pending c ∖ {[call_id]}) (<[call_id := Sent result]> (c_calls c))
  else c.

(** ** Relayed streams *)

Definition stream_task_id (task : json) (call_id : string) : string := default call_id (get_str task "task_id").
Definition stream_session_id (task : json) (call_id : string) : string :=
  default call_id (get_str task "session_id").

Definition stream_message (l : link) (call_id : string) (task : json) : relay_message :=
  let task_id := stream_task_id task call_id in
  let session_id := stream_session_id task call_id in
  match l with
  | TcpLink _ =>
      WireFrame (make_frame MT_CALL
        (cbor_encode_int_map [(2, CText session_id); (15, CText call_id); (24, CText task_id);
                              (5, CBytes (json_to_vec task))]))
  | PollLink =>
      PollCall (mk_obj [("call_id", JString call_id); ("task_id", JString task_id);
                        ("session_id", JString session_id); ("stream", JBool true); ("task", task)])
  end.

(** [forward_stream] up to the stream it returns *)
Definition forward_stream (c : session_cell) (call_id : string) (task : json) (timeout_secs : Z) : session_cell :=
  let c1 := set_streams c
    (<[call_id := sequence_new (stream_session_id task call_id) call_id (stream_task_id task call_id)]>
       (c_stream_pending c)) (c_streams c) in
  let sent := link_send c1 (stream_message (c_link c) call_id task) in
  let c2 := default c1 sent in
  set_streams c2 (c_stream_pending c2)
    (<[call_id := mkRelayStream [] None (is_some sent) timeout_secs KStart]> (c_streams c2)).

Definition set_stream (c : session_cell) (call_id : string) (s : relay_stream) : session_cell :=
  set_streams c (c_stream_pending c) (<[call_id := s]> (c_streams c)).
(** Removing the entry drops the channel's sender with it. *)
Definition drop_sender (c : session_cell) (call_id : string) : session_cell :=
  set_streams c (delete call_id (c_stream_pending c)) (c_streams c).

Definition with_failure (s : relay_stream) (f : option string) : relay_stream :=
  mkRelayStream (rs_events s) f (rs_sent s) (rs_timeout s) (rs_phase s).
Definition with_phase (s : relay_stream) (p : phase) : relay_stream :=
  mkRelayStream (rs_events s) (rs_failure s) (rs_sent s) (rs_timeout s) p.
Definition with_events (s : relay_stream) (es : list NativeResponseFrame) : relay_stream :=
  mkRelayStream es (rs_failure s) (rs_sent s) (rs_timeout s) (rs_phase s).

Definition fail_stream (c : session_cell) (call_id code : string) : session_cell :=
  let c1 := drop_sender c call_id in
  match c_streams c !! call_id with
  | Some s => set_stream c1 call_id (with_failure s (Some code))
  | None => c1
  end.

(** [deliver_stream_event], reached by [on_stream_response] *)
Definition deliver_stream_event (c : session_cell) (call_id : string) (event : NativeResponseFrame)
    : session_cell :=
  match c_stream_pending c !! call_id with
  | None => c
  | Some sequence =>
      match accept sequence event with
      | Err code => fail_stream c call_id code
      | Ok sequence' =>
          let c1 := set_streams c (<[call_id := sequence']> (c_stream_pending c)) (c_streams c) in
          match c_streams c !! call_id with
          | Some s =>
              if MAX_RELAY_STREAM_EVENTS <=? zlen (rs_events s)
              then fail_stream c1 call_id "relay_backpressure_exceeded"
              else set_stream c1 call_id (with_events s (rs_events s ++ [event]))
          | None => c1
          end
      end
  end.

(** One step of the generator: what it yields, if anything. *)
Definition stream_step (c : session_cell) (call_id : string) (timed_out : bool)
    : option (result NativeResponseFrame string) * session_cell :=
  match c_streams c !! call_id with
  | None => (None, c)
  | Some s =>
      let stop_with e := (Some (Err e), set_stream c call_id (with_phase s KStop)) in
      match rs_phase s with
      | KStart => if rs_sent s then (None, set_stream c call_id (with_phase s KCheck))
                  else stop_with (link_closed c)
      | KCheck =>
          match rs_failure s with
          | Some reason =>
              (Some (Err reason), set_stream c call_id (with_phase (with_failure s None) KStop))
          | None => (None, set_stream c call_id (with_phase s KRecv))
          end
      | KRecv =>
          match rs_events s with
          | event :: events =>
              (Some (Ok event),
               set_stream c call_id (with_phase (with_events s events) (if is_final event then KStop else KCheck)))
          | [] =>
              if bool_decide (is_Some (c_stream_pending c !! call_id)) then
                if timed_out then
                  stop_with ("relay stream timeout (" +:+ pretty (rs_timeout s) +:+ "s) for call " +:+ call_id)
                else (None, c)
              else stop_with (default "relay stream closed before terminal" (rs_failure s))
          end
      | KStop => (None, set_stream (drop_sender c call_id) call_id (with_phase s KEnded))
      | KEnded => (None, c)
      end
  end.

(** The consumer drops the stream: the guard removes the entry. *)
Definition drop_stream (c : session_cell) (call_id : string) : session_cell :=
  match c_streams c !! call_id with
  | Some s => set_stream (drop_sender c call_id) call_id (with_phase s KEnded)
  | None => c
  end.

(** ** Traces of a session *)

Inductive session_op :=
| OForward (call_id : string) (task : json)
| OAwait (call_id : string) (timeout_secs : Z) (timed_out : bool)
| OResponse (call_id : string) (result : json)
| OStream (call_id : string) (task : json) (timeout_secs : Z)
| OPoll (call_id : string) (timed_out : bool)
| OEvent (call_id : string) (event : NativeResponseFrame)
| ODropStream (call_id : string)
| OLinkDown.

(** What the callers see. *)
Inductive observation :=
| Silent
| Reply (r : result json string)
| Yield (r : result NativeResponseFrame string).

Definition link_down (c : session_cell) : session_cell :=
  mkCell (match c_link c with TcpLink _ => TcpLink false | PollLink => PollLink end)
    (c_outbox c) (c_pending c) (c_calls c) (c_stream_pending c) (c_streams c).

Definition session_exec (c : session_cell) (op : session_op) : observation * session_cell :=
  match op with
  | OForward call_id task =>
      match forward_task_begin c call_id task with
      | (Ok _, c) => (Silent, c)
      | (Err e, c) => (Reply (Err e), c)
      end
  | OAwait call_id timeout_secs timed_out =>
      match forward_task_poll c call_id timeout_secs timed_out with
      | (Some r, c) => (Reply r, c)
      | (None, c) => (Silent, c)
      end
  | OResponse call_id r => (Silent, on_response c call_id r)
  | OStream call_id task timeout_secs => (Silent, forward_stream c call_id task timeout_secs)
  | OPoll call_id timed_out =>
      match stream_step c call_id timed_out with
      | (Some r, c) => (Yield r, c)
      | (None, c) => (Silent, c)
      end
  | OEvent call_id event => (Silent, deliver_stream_event c call_id event)
  | ODropStream call_id => (Silent, drop_stream c call_id)
  | OLinkDown => (Silent, link_down c)
  end.

Definition trace : Type := list (session_op * observation).

Definition begun (op : session_op) : option string :=
  match op with OForward cid _ | OStream cid _ _ => Some cid | _ => None end.

(** The histories of a session in which no identifier is drawn twice; the
    newest step is the head. *)
Inductive history (l : link) : trace -> session_cell -> Prop :=
| history_new : history l [] (session_new l)
| history_step tr c op o c' :
    history l tr c ->
    (forall cid, begun op = Some cid -> cid ∉ omap (fun x => begun x.1) tr) ->
    session_exec c op = (o, c') ->
    history l ((op, o) :: tr) c'.

(** ** What a history says about one call identifier *)

(** The items a stream's consumer has seen, oldest first. *)
Fixpoint yields (cid : string) (tr : trace) : list (result NativeResponseFrame string) :=
  match tr with
  | [] => []
  | (OPoll cid' _, Yield r) :: tr => if cid' ==? cid then yields cid tr ++ [r] else yields cid tr
  | _ :: tr => yields cid tr
  end.

(** The events the worker has sent for a stream since it was opened. *)
Fixpoint delivered (cid : string) (tr : trace) : list NativeResponseFrame :=
  match tr with
  | [] => []
  | (OStream cid' _ _, _) :: tr => if cid' ==? cid then [] else delivered cid tr
  | (OEvent cid' e, _) :: tr => if cid' ==? cid then delivered cid tr ++ [e] else delivered cid tr
  | _ :: tr => delivered cid tr
  end.

(** The first response for a call since it was forwarded. *)
Fixpoint first_response (cid : string) (tr : trace) : option json :=
  match tr with
  | [] => None
  | (OForward cid' _, _) :: tr => if cid' ==? cid then None else first_response cid tr
  | (OResponse cid' v, _) :: tr =>
      if cid' ==? cid then option_or (first_response cid tr) (Some v) else first_response cid tr
  | _ :: tr => first_response cid tr
  end.

(** The answers a forwarded call's caller has got, oldest first. *)
Fixpoint replies (cid : string) (tr : trace) : list (result json string) :=
  match tr with
  | [] => []
  | (OForward cid' _, Reply r) :: tr | (OAwait cid' _ _, Reply r) :: tr =>
      if cid' ==? cid then replies cid tr ++ [r] else replies cid tr
  | _ :: tr => replies cid tr
  end.

Definition stream_op (op : session_op) : option string :=
  match op with
  | OStream cid _ _ | OPoll cid _ | OEvent cid _ | ODropStream cid => Some cid
  | _ => None
  end.

(** ** Frame properties: an operation touches only its own identifier *)

Lemma link_send_cell c m c' :
  link_send c m = Some c' ->
  c_pending c' = c_pending c /\ c_calls c' = c_calls c /\
  c_stream_pending c' = c_stream_pending c /\ c_streams c' = c_streams c.
Proof. unfold link_send. destruct (c_link c) as [[]|]; intros; simplify_eq/=; done. Qed.

Lemma fail_stream_lookup c cid code :
  (forall k, c_stream_pending (fail_stream c cid code) !! k = delete cid (c_stream_pending c) !! k) /\
  (forall k, c_streams (fail_stream c cid code) !! k =
     if k ==? cid then (fun s => with_failure s (Some code)) <$> c_streams c !! cid else c_streams c !! k).
Proof.
  unfold fail_stream. destruct (c_streams c !! cid) as [s|] eqn:E; simpl; split; intros k; try done.
  - destruct (String.eqb_spec k cid) as [->|]; [by rewrite lookup_insert_eq|by rewrite lookup_insert_ne].
  - destruct (String.eqb_spec k cid) as [->|]; done.
Qed.

Lemma exec_other_stream c op o c' cid :
  session_exec c op = (o, c') -> stream_op op <> Some cid ->
  c_streams c' !! cid = c_streams c !! cid /\ c_stream_pending c' !! cid = c_stream_pending c !! cid.
Proof.
  intros E Hop. destruct op as [k t|k n b|k v|k t n|k b|k e|k|]; simpl in *.
  - unfold forward_task_begin in E. destruct (link_send _ _) as [c2|] eqn:El; simplify_eq/=; [|done].
    by apply link_send_cell in El as (_ & _ & -> & ->).
  - unfold forward_task_poll in E. destruct (c_calls c !! k) as [[]|], b; by simplify_eq/=.
  - unfold on_response in E. simplify_eq. by case_bool_decide.
  - simplify_eq. unfold forward_stream. destruct (link_send _ _) as [c2|] eqn:El; simpl.
    + apply link_send_cell in El as (_ & _ & -> & ->). simpl.
      by rewrite !lookup_insert_ne by congruence.
    + by rewrite !lookup_insert_ne by congruence.
  - unfold stream_step in E. destruct (c_streams c !! k) as [s|]; [|by simplify_eq].
    destruct (rs_phase s), (rs_sent s), (rs_failure s), (rs_events s); repeat (case_bool_decide || destruct b);
      simplify_eq/=; rewrite ?lookup_insert_ne, ?lookup_delete_ne by congruence; done.
  - simplify_eq. assert (k <> cid) as Hne by congruence.
    assert (forall c0 code, c_streams (fail_stream c0 k code) !! cid = c_streams c0 !! cid /\
              c_stream_pending (fail_stream c0 k code) !! cid = c_stream_pending c0 !! cid) as Hf.
    { intros c0 code. destruct (fail_stream_lookup c0 k code) as [-> ->].
      rewrite lookup_delete_ne by done. by destruct (String.eqb_spec cid k). }
    unfold deliver_stream_event. destruct (c_stream_pending c !! k) as [q|]; [|done].
    destruct (accept q e) as [q'|code]; [|apply Hf].
    destruct (c_streams c !! k) as [s|]; [destruct (_ <=? _)|]; simpl;
      rewrite ?(proj1 (Hf _ _)), ?(proj2 (Hf _ _)); simpl; by rewrite ?lookup_insert_ne by done.
  - simplify_eq. unfold drop_stream. destruct (c_streams c !! k) as [s|]; simpl; [|done].
    by rewrite ?lookup_insert_ne, ?lookup_delete_ne by congruence.
  - by simplify_eq.
Qed.

Lemma accept_all_app s fs gs :
  accept_all s (fs ++ gs) = let? s' := accept_all s fs in accept_all s' gs.
Proof. revert s. induction fs as [|f fs IH]; intros s; simpl; [done|]. by destruct (accept s f); simpl. Qed.

(** ** The stream invariant *)

Definition stream_start (task : json) (cid : string) : NativeResponseSequence :=
  sequence_new (stream_session_id task cid) cid (stream_task_id task cid).

Definition phase_ok (p : phase) (fs : list NativeResponseFrame)
    (tail : list (result NativeResponseFrame string)) : Prop :=
  match p with
  | KStart | KCheck | KRecv => tail = [] /\ Forall (fun f => is_final f = false) fs
  | KStop => (tail = [] /\ exists gs f, fs = gs ++ [f] /\ is_final f = true) \/ exists e, tail = [Err e]
  | KEnded => tail = [] \/ exists e, tail = [Err e]
  end.

Record stream_ok (s0 : NativeResponseSequence) (pending : option NativeResponseSequence) (s : relay_stream)
    (seen : list (result NativeResponseFrame string)) (sent : list NativeResponseFrame)
    (fs : list NativeResponseFrame) (tail : list (result NativeResponseFrame string)) : Prop := {
  so_seen : seen = (Ok <$> fs) ++ tail;
  so_phase : phase_ok (rs_phase s) fs tail;
  so_sequence : exists q, accept_all s0 (fs ++ rs_events s) = Ok q /\ (forall p, pending = Some p -> p = q);
  so_bounded : zlen (rs_events s) <= MAX_RELAY_STREAM_EVENTS;
  so_lossless : is_Some pending -> sent = fs ++ rs_events s
}.

Definition stream_at (s0 : NativeResponseSequence) (c : session_cell) (cid : string)
    (seen : list (result NativeResponseFrame string)) (sent : list NativeResponseFrame) : Prop :=
  exists s fs tail, c_streams c !! cid = Some s /\ stream_ok s0 (c_stream_pending c !! cid) s seen sent fs tail.

Lemma stream_ok_phase s0 p p' s s' seen seen' sent fs tail tail' :
  stream_ok s0 p s seen sent fs tail ->
  rs_events s' = rs_events s -> (forall q, p' = Some q -> p = Some q) ->
  seen' = (Ok <$> fs) ++ tail' -> phase_ok (rs_phase s') fs tail' ->
  stream_ok s0 p' s' seen' sent fs tail'.
Proof.
  intros [Hs Hp (q & Hq & Hpq) Hb Hl] He Hpp Hs' Hp'. split; try rewrite He; try done.
  - exists q. split; [done|]. naive_solver.
  - intros [x ->]. apply Hl. rewrite (Hpp x eq_refl). done.
Qed.

Lemma with_phase_events s p : rs_events (with_phase s p) = rs_events s.
Proof. done. Qed.

Lemma stream_step_ok s0 c cid b r c' seen sent :
  stream_at s0 c cid seen sent -> stream_step c cid b = (r, c') ->
  stream_at s0 c' cid (seen ++ option_list r) sent.
Proof.
  intros (s & fs & tail & Hs & Hok) E. unfold stream_step in E. rewrite Hs in E.
  pose proof (so_phase _ _ _ _ _ _ _ Hok) as Hph. pose proof (so_seen _ _ _ _ _ _ _ Hok) as Hseen.
  destruct (rs_phase s) eqn:Ep; [destruct (rs_sent s)|destruct (rs_failure s)|destruct (rs_events s) as [|e es] eqn:Ee|..];
    simplify_eq/=; unfold stream_at; simpl.
  - eexists _, fs, tail. rewrite lookup_insert_eq, app_nil_r. split; [done|]. by eapply stream_ok_phase.
  - destruct Hph as [-> Hph]. eexists _, fs, [Err _]. rewrite lookup_insert_eq. split; [done|].
    eapply stream_ok_phase; [done..|by rewrite app_nil_r|by right; eexists].
  - destruct Hph as [-> Hph]. eexists _, fs, [Err _]. rewrite lookup_insert_eq. split; [done|].
    eapply stream_ok_phase; [done..|by rewrite app_nil_r|by right; eexists].
  - eexists _, fs, tail. rewrite lookup_insert_eq, app_nil_r. split; [done|]. by eapply stream_ok_phase.
  - destruct Hph as [-> Hph].
    assert (forall e s', rs_events s' = rs_events s -> rs_phase s' = KStop ->
      stream_ok s0 (c_stream_pending c !! cid) s' (((Ok <$> fs) ++ []) ++ [Err e]) sent fs [Err e]) as Hstop.
    { intros e s' He Hk. eapply stream_ok_phase; [done..|by rewrite app_nil_r|rewrite Hk; by right; eexists]. }
    case_bool_decide; [destruct b|]; simplify_eq/=.
    + eexists _, fs, [Err _]. rewrite lookup_insert_eq. split; [done|]. by apply Hstop.
    + exists s, fs, []. rewrite app_nil_r. by split.
    + eexists _, fs, [Err _]. rewrite lookup_insert_eq. split; [done|]. by apply Hstop.
  - destruct Hph as [-> Hph]. eexists _, (fs ++ [e]), []. rewrite lookup_insert_eq. split; [done|].
    destruct Hok as [_ _ (q & Hq & Hpq) Hb Hl]. rewrite Ee in *. split; simpl.
    + by rewrite fmap_app, !app_nil_r.
    + destruct (is_final e) eqn:Ef; simpl; [left; split; [done|]; by exists fs, e|].
      split; [done|]. apply Forall_app. split; [done|]. apply Forall_cons. by split; [|apply Forall_nil].
    + exists q. by rewrite <- app_assoc.
    + unfold zlen in *. simpl in Hb. lia.
    + intros H. rewrite <- app_assoc. by apply Hl.
  - eexists _, fs, tail. rewrite lookup_insert_eq, app_nil_r. split; [done|].
    eapply stream_ok_phase; [done|done|by rewrite lookup_delete_eq|done|]. simpl. naive_solver.
  - exists s, fs, tail. by rewrite app_nil_r.
Qed.

Lemma fail_stream_ok s0 c cid code seen sent sent' :
  stream_at s0 c cid seen sent -> stream_at s0 (fail_stream c cid code) cid seen sent'.
Proof.
  intros (s & fs & tail & Hs & Hok). destruct (fail_stream_lookup c cid code) as [Hp Hst].
  exists (with_failure s (Some code)), fs, tail. rewrite Hp, Hst, String.eqb_refl, Hs, lookup_delete_eq.
  split; [done|]. destruct Hok as [Hseen Hph (q & Hq & _) Hb _]. split; try done. by exists q.
Qed.

Lemma deliver_ok s0 c cid e seen sent :
  stream_at s0 c cid seen sent -> stream_at s0 (deliver_stream_event c cid e) cid seen (sent ++ [e]).
Proof.
  intros Hat. pose proof Hat as (s & fs & tail & Hs & Hok). unfold deliver_stream_event.
  destruct Hok as [Hseen Hph (q & Hq & Hpq) Hb Hl].
  destruct (c_stream_pending c !! cid) as [p|] eqn:Ep.
  - rewrite (Hpq p eq_refl) in *. destruct (accept q e) as [q'|code] eqn:Ea; [|by eapply fail_stream_ok].
    rewrite Hs.
    assert (accept_all s0 (fs ++ rs_events s ++ [e]) = Ok q') as Hq'.
    { rewrite app_assoc, accept_all_app, Hq. simpl. by rewrite Ea. }
    destruct (Z.leb_spec MAX_RELAY_STREAM_EVENTS (zlen (rs_events s))).
    + match goal with |- stream_at _ (fail_stream ?c1 _ _) _ _ _ => set (c1' := c1) end.
      destruct (fail_stream_lookup c1' cid "relay_backpressure_exceeded") as [Hp Hst].
      exists (with_failure s (Some "relay_backpressure_exceeded")), fs, tail.
      rewrite Hp, Hst, String.eqb_refl. simpl. rewrite Hs, lookup_delete_eq. split; [done|].
      split; try done. by exists q.
    + exists (with_events s (rs_events s ++ [e])), fs, tail. simpl. rewrite !lookup_insert_eq. split; [done|].
      split; simpl; try done.
      * exists q'. split; [done|]. by intros p0 [= ->].
      * rewrite zlen_app, zlen_cons. unfold zlen at 2. simpl. lia.
      * intros _. rewrite Hl, app_assoc by done. done.
  - exists s, fs, tail. rewrite Ep. split; [done|]. split; try done. by exists q.
Qed.

Lemma drop_stream_ok s0 c cid seen sent :
  stream_at s0 c cid seen sent -> stream_at s0 (drop_stream c cid) cid seen sent.
Proof.
  intros (s & fs & tail & Hs & Hok). unfold drop_stream, stream_at. rewrite Hs. simpl.
  eexists _, fs, tail. rewrite lookup_insert_eq. split; [done|].
  eapply stream_ok_phase; [done|done|by rewrite lookup_delete_eq|by destruct Hok|].
  pose proof (so_phase _ _ _ _ _ _ _ Hok) as Hph. simpl. destruct (rs_phase s); simpl in Hph; naive_solver.
Qed.

Lemma forward_stream_ok c cid task secs :
  stream_at (stream_start task cid) (forward_stream c cid task secs) cid [] [].
Proof.
  unfold forward_stream, stream_at. destruct (link_send _ _) as [c2|] eqn:El; simpl.
  - apply link_send_cell in El as (_ & _ & -> & ->). simpl.
    eexists _, [], []. rewrite !lookup_insert_eq. split; [done|]. split; simpl; try done.
    eexists. split; [done|]. by intros p [= <-].
  - eexists _, [], []. rewrite !lookup_insert_eq. split; [done|]. split; simpl; try done.
    eexists. split; [done|]. by intros p [= <-].
Qed.

Definition begun_ids (tr : trace) : list string := omap (fun x => begun x.1) tr.

Lemma stream_begun cid task secs o tr : (OStream cid task secs, o) ∈ tr -> cid ∈ begun_ids tr.
Proof. intros H. apply list_elem_of_omap. eexists. split; [exact H|]. done. Qed.

(** An identifier not drawn yet has no stream and no items. *)
Lemma history_unbegun l tr c cid :
  history l tr c -> cid ∉ begun_ids tr -> c_streams c !! cid = None /\ yields cid tr = [].
Proof.
  induction 1 as [|tr c op o c' Hh IH Hf E]; intros Hn; [by split|].
  assert (cid ∉ begun_ids tr) as Hn'.
  { intros H. apply Hn. unfold begun_ids. simpl. destruct (begun op); [by right|done]. }
  destruct (IH Hn') as [IHs IHy]. clear IH.
  destruct (decide (stream_op op = Some cid)) as [Hop|Hop].
  - destruct op as [| | |k t n|k b|k e|k|]; simplify_eq/=.
    + exfalso. apply Hn. unfold begun_ids. simpl. by left.
    + unfold stream_step in E. rewrite IHs in E. by simplify_eq/=.
    + unfold deliver_stream_event. rewrite IHs, IHy. split; [|done].
      destruct (c_stream_pending c !! cid) as [q|]; [|done]. destruct (accept q e); simpl; [done|].
      destruct (fail_stream_lookup c cid e0) as [_ ->]. by rewrite String.eqb_refl, IHs.
    + unfold drop_stream. rewrite IHs. by rewrite IHs.
  - destruct (exec_other_stream _ _ _ _ _ E Hop) as [-> _]. split; [done|].
    destruct op; simpl; try done. destruct o; try done.
    destruct (String.eqb_spec call_id cid); [by subst|done].
Qed.

Lemma history_stream l tr c cid task secs o :
  history l tr c -> (OStream cid task secs, o) ∈ tr ->
  stream_at (stream_start task cid) c cid (yields cid tr) (delivered cid tr).
Proof.
  induction 1 as [|tr c op o' c' Hh IH Hf E]; intros Hin; [by apply elem_of_nil in Hin|].
  apply elem_of_cons in Hin as [[= <- <-]|Hin].
  - destruct (history_unbegun l tr c cid Hh (Hf cid eq_refl)) as [_ Hy].
    simpl in *. rewrite String.eqb_refl, Hy. simplify_eq/=. apply forward_stream_ok.
  - specialize (IH Hin). destruct (decide (stream_op op = Some cid)) as [Hop|Hop].
    + destruct op as [| | |k t n|k b|k e|k|]; simplify_eq/=.
      * exfalso. by apply (Hf cid eq_refl), (stream_begun cid task secs o).
      * destruct (stream_step c cid b) as [r c1] eqn:Es. pose proof (stream_step_ok _ _ _ _ _ _ _ _ IH Es) as H.
        destruct r; simplify_eq/=; [by rewrite String.eqb_refl|by rewrite app_nil_r in H].
      * rewrite String.eqb_refl. by apply deliver_ok.
      * by apply drop_stream_ok.
    + destruct (exec_other_stream _ _ _ _ _ E Hop) as [Es Ep].
      destruct IH as (s & fs & tail & Hs & Hok). exists s, fs, tail. rewrite Es, Ep. split; [done|].
      replace (yields cid ((op, o') :: tr)) with (yields cid tr); [replace (delivered cid ((op, o') :: tr)) with (delivered cid tr); [done|]|].
      * destruct op; simpl in *; try done; destruct (String.eqb_spec call_id cid); simplify_eq; done.
      * destruct op; simpl in *; try done. destruct o'; try done.
        destruct (String.eqb_spec call_id cid); simplify_eq; done.
Qed.

(** A prefix that ends with a final frame is a complete stream. *)
Lemma accepted_final_complete sid cid tid gs f q :
  zlen (gs ++ [f]) <= u64_max -> accept_all (sequence_new sid cid tid) (gs ++ [f]) = Ok q ->
  is_final f = true -> complete_stream sid cid tid 0 (gs ++ [f]).
Proof.
  intros Hz Hq Hf. apply accept_all_complete; [lia|lia|]. exists q. split; [done|].
  rewrite accept_all_app in Hq. destruct (accept_all _ gs) as [q1|]; [|done]. simpl in Hq.
  destruct (accept q1 f) as [q2|] eqn:E; [|done]. simplify_eq/=.
  apply accept_ok in E as (_ & _ & ->). unfold finish. simpl. by rewrite Hf.
Qed.

(** C27: whatever a worker sends and however deliveries, polls, timeouts and
    other calls interleave, the consumer of a relayed stream sees frames that
    form a valid response sequence of its call, followed by at most one error;
    a stream that stops without an error was complete.  The relay buffers at
    most 32 events, and while the stream is registered nothing that arrived is
    lost: it was yielded or is in the buffer, in order. *)
Theorem relay_stream_faithful l tr c cid task secs o :
  history l tr c -> (OStream cid task secs, o) ∈ tr -> zlen (yields cid tr) <= u64_max ->
  exists s fs tail,
    c_streams c !! cid = Some s /\ yields cid tr = (Ok <$> fs) ++ tail /\
    (tail = [] \/ exists e, tail = [Err e]) /\
    (exists q, accept_all (stream_start task cid) fs = Ok q) /\
    (rs_phase s = KStop -> tail = [] ->
       complete_stream (stream_session_id task cid) cid (stream_task_id task cid) 0 fs) /\
    zlen (rs_events s) <= MAX_RELAY_STREAM_EVENTS /\
    (is_Some (c_stream_pending c !! cid) -> delivered cid tr = fs ++ rs_events s).
Proof.
  intros Hh Hin Hz. destruct (history_stream l tr c cid task secs o Hh Hin) as (s & fs & tail & Hs & Hok).
  destruct Hok as [Hseen Hph (q & Hq & _) Hb Hl]. exists s, fs, tail. rewrite accept_all_app in Hq.
  destruct (accept_all _ fs) as [q1|] eqn:Eq; [|done]. split; [done|]. split; [done|]. split.
  { destruct (rs_phase s); simpl in Hph; naive_solver. }
  split; [by exists q1|]. split; [|done].
  - intros Hk ->. rewrite Hk in Hph. destruct Hph as [(_ & gs & f & -> & Hf)|[e He]]; [|done].
    rewrite Hseen, app_nil_r in Hz. unfold zlen in Hz. rewrite length_fmap in Hz.
    by eapply accepted_final_complete.
Qed.

(** ** Buffered calls *)

Definition call_op (op : session_op) : option string :=
  match op with OForward cid _ | OAwait cid _ _ | OResponse cid _ => Some cid | _ => None end.

Lemma exec_other_call c op o c' cid :
  session_exec c op = (o, c') -> call_op op <> Some cid ->
  c_calls c' !! cid = c_calls c !! cid /\ (cid ∈ c_pending c' <-> cid ∈ c_pending c).
Proof.
  intros E Hop. destruct op as [k t|k n b|k v|k t n|k b|k e|k|]; simpl in *.
  - unfold forward_task_begin in E. destruct (link_send _ _) as [c2|] eqn:El; simplify_eq/=.
    + apply link_send_cell in El as (-> & -> & _). simpl. rewrite lookup_insert_ne by congruence. set_solver.
    + rewrite lookup_insert_ne by congruence. set_solver.
  - unfold forward_task_poll in E. destruct (c_calls c !! k) as [[]|], b; simplify_eq/=; try done. set_solver.
  - unfold on_response in E. simplify_eq. case_bool_decide; simpl; [|done].
    rewrite lookup_insert_ne by congruence. set_solver.
  - simplify_eq. unfold forward_stream. destruct (link_send _ _) as [c2|] eqn:El; simpl; [|done].
    by apply link_send_cell in El as (-> & -> & _).
  - unfold stream_step in E. destruct (c_streams c !! k) as [s|]; [|by simplify_eq].
    destruct (rs_phase s), (rs_sent s), (rs_failure s), (rs_events s); repeat (case_bool_decide || destruct b);
      by simplify_eq/=.
  - simplify_eq. unfold deliver_stream_event, fail_stream. destruct (c_stream_pending c !! k) as [q|]; [|done].
    destruct (accept q e); destruct (c_streams c !! k) eqn:Es; try destruct (_ <=? _); simpl; rewrite ?Es; done.
  - simplify_eq. unfold drop_stream. by destruct (c_streams c !! k).
  - by simplify_eq.
Qed.

(** What the cell and the history say about a forwarded call. *)
Record call_ok (slot : option oneshot) (waiting : Prop) (rs : list (result json string)) (first : option json)
    : Prop := {
  co_slot : slot = Some Waiting \/ exists v, slot = Some (Sent v) /\ first = Some v;
  co_waiting : waiting -> slot = Some Waiting /\ rs = [] /\ first = None;
  co_open : slot = Some Waiting -> rs = [] -> waiting;
  co_replies : forall v, Ok v ∈ rs -> first = Some v
}.

Definition call_at (c : session_cell) (cid : string) (tr : trace) : Prop :=
  call_ok (c_calls c !! cid) (cid ∈ c_pending c) (replies cid tr) (first_response cid tr).

Lemma history_uncalled l tr c cid :
  history l tr c -> cid ∉ begun_ids tr ->
  c_calls c !! cid = None /\ cid ∉ c_pending c /\ replies cid tr = [].
Proof.
  induction 1 as [|tr c op o c' Hh IH Hf E]; intros Hn; [by split|].
  assert (cid ∉ begun_ids tr) as Hn'.
  { intros H. apply Hn. unfold begun_ids. simpl. destruct (begun op); [by right|done]. }
  destruct (IH Hn') as (IHc & IHp & IHr). clear IH.
  destruct (decide (call_op op = Some cid)) as [Hop|Hop].
  - destruct op as [k t|k n b|k v|k t n|k b|k e|k|]; simplify_eq/=.
    + exfalso. apply Hn. unfold begun_ids. simpl. by left.
    + unfold forward_task_poll in E. rewrite IHc in E. by simplify_eq/=.
    + unfold on_response. by rewrite bool_decide_false.
  - destruct (exec_other_call _ _ _ _ _ E Hop) as [-> ->]. split; [done|]. split; [done|].
    destruct op; simpl in *; try done; destruct o; try done; destruct (String.eqb_spec call_id cid); simplify_eq; done.
Qed.

Lemma forward_task_begin_ok c cid task tr o c' :
  cid ∉ c_pending c -> replies cid tr = [] ->
  session_exec c (OForward cid task) = (o, c') -> call_at c' cid ((OForward cid task, o) :: tr).
Proof.
  intros Hp Hr E. unfold call_at. simpl in *. unfold forward_task_begin in E.
  destruct (link_send _ _) as [c2|] eqn:El; simplify_eq/=; rewrite String.eqb_refl, Hr.
  - apply link_send_cell in El as (-> & -> & _). simpl. rewrite lookup_insert_eq.
    split; [by left| |set_solver|by intros v ?%elem_of_nil]. done.
  - rewrite lookup_insert_eq. split; [by left|set_solver|done|].
    intros v. simpl. intros H%list_elem_of_singleton. done.
Qed.

Lemma forward_task_poll_ok c cid n b tr o c' :
  call_at c cid tr -> session_exec c (OAwait cid n b) = (o, c') ->
  call_at c' cid ((OAwait cid n b, o) :: tr).
Proof.
  intros [Hs Hw Ho Hr] E. unfold call_at. simpl in *. unfold forward_task_poll in E.
  destruct Hs as [Hs|(v & Hs & Hv)]; rewrite Hs in *.
  - destruct b; simplify_eq/=.
    + rewrite Hs, String.eqb_refl. split; [by left|set_solver| |].
      * intros _ H. by destruct (replies cid tr).
      * intros v Hin%elem_of_app. destruct Hin as [Hin|Hin%list_elem_of_singleton]; [by apply Hr|done].
    + split; [by left|..]; rewrite ?Hs; auto.
  - simplify_eq/=. rewrite Hs, String.eqb_refl. split; [by right; eauto| |done|].
    + intros H%Hw. by destruct H.
    + intros w Hin%elem_of_app. destruct Hin as [Hin|Hin%list_elem_of_singleton]; [by apply Hr|congruence].
Qed.

Lemma on_response_ok c cid v tr o c' :
  call_at c cid tr -> session_exec c (OResponse cid v) = (o, c') ->
  call_at c' cid ((OResponse cid v, o) :: tr).
Proof.
  intros [Hs Hw Ho Hr] [= <- <-]. unfold call_at. simpl. rewrite String.eqb_refl. unfold on_response.
  case_bool_decide as Hp.
  - destruct (Hw Hp) as (Hslot & Hrs & Hf). rewrite Hf, Hrs. simpl. rewrite lookup_insert_eq.
    split; [by right; eauto|set_solver|done|by intros w ?%elem_of_nil].
  - split; [|done|done|].
    + destruct Hs as [Hs|(w & Hs & Hv)]; [by left|]. right. exists w. by rewrite Hv.
    + intros w Hin. by rewrite (Hr w Hin).
Qed.

Lemma history_call l tr c cid task o :
  history l tr c -> (OForward cid task, o) ∈ tr -> call_at c cid tr.
Proof.
  induction 1 as [|tr c op o' c' Hh IH Hf E]; intros Hin; [by apply elem_of_nil in Hin|].
  apply elem_of_cons in Hin as [[= <- <-]|Hin].
  - destruct (history_uncalled l tr c cid Hh (Hf cid eq_refl)) as (_ & Hp & Hr).
    by eapply forward_task_begin_ok.
  - specialize (IH Hin). destruct (decide (call_op op = Some cid)) as [Hop|Hop].
    + destruct op as [k t|k n b|k v| | | | |]; simplify_eq/=.
      * exfalso. apply (Hf cid eq_refl). apply list_elem_of_omap. by eexists.
      * by eapply forward_task_poll_ok.
      * by eapply on_response_ok.
    + destruct (exec_other_call _ _ _ _ _ E Hop) as [Ec Ep].
      assert (replies cid ((op, o') :: tr) = replies cid tr /\
              first_response cid ((op, o') :: tr) = first_response cid tr) as [Er Ef].
      { destruct op; simpl in *; try done; destruct o'; try done;
          destruct (String.eqb_spec call_id cid); simplify_eq; done. }
      destruct IH as [Hs Hw Ho Hr]. unfold call_at. rewrite Ec, Er, Ef. split; try done.
      * intros H%Ep. by apply Hw.
      * intros. by apply Ep, Ho.
Qed.

(** A forwarded call's caller gets the first response the worker gave for
    that call, and nothing else: never another call's response, never a later
    one.  When the response has arrived and the call was not given up, the next
    poll returns it (the timer does not win over it); when the caller has its
    answer the session keeps no entry for the call. *)
Theorem relay_call_correlated l tr c cid task o :
  history l tr c -> (OForward cid task, o) ∈ tr ->
  (forall v, Ok v ∈ replies cid tr -> first_response cid tr = Some v) /\
  (forall v secs timed_out, replies cid tr = [] -> first_response cid tr = Some v ->
     forward_task_poll c cid secs timed_out = (Some (Ok v), c)) /\
  (replies cid tr <> [] -> cid ∉ c_pending c).
Proof.
  intros Hh Hin. destruct (history_call l tr c cid task o Hh Hin) as [Hs Hw Ho Hr].
  split; [done|]. split.
  - intros v secs b Hrs Hf. unfold forward_task_poll. destruct Hs as [Hs|(w & -> & Hv)]; [|congruence].
    destruct (Hw (Ho Hs Hrs)) as (_ & _ & ?). congruence.
  - intros Hne H%Hw. by destruct H as (_ & ? & _).
Qed.

(** ** Running a list of operations *)

Fixpoint run_session (st : trace * session_cell) (ops : list session_op) : trace * session_cell :=
  match ops with
  | [] => st
  | op :: ops => let '(o, c') := session_exec st.2 op in run_session ((op, o) :: st.1, c') ops
  end.

Lemma run_session_history l ops tr c :
  history l tr c -> NoDup (omap begun ops ++ begun_ids tr) ->
  history l (run_session (tr, c) ops).1 (run_session (tr, c) ops).2.
Proof.
  revert tr c. induction ops as [|op ops IH]; intros tr c Hh Hn; [done|].
  simpl in *. destruct (session_exec c op) as [o c'] eqn:E. apply IH.
  - apply history_step with c; try done. intros cid Hc. rewrite Hc in Hn.
    apply NoDup_cons in Hn as [Hn _]. rewrite not_elem_of_app in Hn. apply Hn.
  - unfold begun_ids in *. simpl. destruct (begun op) as [cid|] eqn:Eb; [|done].
    by rewrite <- Permutation_middle.
Qed.
End session.

Definition demo_event (n : Z) (st ev : string) (fin : bool) : NativeResponseFrame :=
  mkResponse "s1" "c1" st fin (mkEnvelope "t1" n ev fin) JNull JNull None.
Definition demo_stream_task : json := mk_obj [("session_id", JString "s1"); ("task_id", JString "t1")].

(** A stream of two events next to a buffered call, on one session. *)
Definition demo_ops : list session_op :=
  [OStream "c1" demo_stream_task 30; OForward "c2" JNull; OEvent "c1" (demo_event 0 "partial" "partial" false);
   OPoll "c1" false; OPoll "c1" false; OPoll "c1" false; OResponse "c2" (JString "answer");
   OEvent "c1" (demo_event 1 "success" "completed" true); OPoll "c1" false; OPoll "c1" false].

Lemma relay_stream_faithful_witness :
  let st := run_session ([], session_new (TcpLink true)) demo_ops in
  exists s fs tail, c_streams st.2 !! "c1" = Some s /\ rs_phase s = KStop /\
    yields "c1" st.1 = (Ok <$> fs) ++ tail /\ tail = [] /\
    complete_stream "s1" "c1" "t1" 0 fs /\ length fs = 2%nat.
Proof.
  intros st.
  destruct (relay_stream_faithful (TcpLink true) st.1 st.2 "c1" demo_stream_task 30 Silent)
    as (s & fs & tail & Hs & Hy & Ht & _ & Hc & _ & _).
  - apply run_session_history; [constructor|]. apply (bool_decide_unpack _). vm_compute. exact I.
  - apply list_elem_of_lookup_2 with 9%nat. vm_compute. reflexivity.
  - vm_compute. discriminate.
  - exists s, fs, tail.
    assert (yields "c1" st.1 = [Ok (demo_event 0 "partial" "partial" false);
                                Ok (demo_event 1 "success" "completed" true)]) as Ey by (vm_compute; reflexivity).
    assert (rs_phase s = KStop) as Hk.
    { assert (rs_phase <$> c_streams st.2 !! "c1" = Some KStop) as H by (vm_compute; reflexivity).
      rewrite Hs in H. by injection H. }
    assert (tail = [] /\ length fs = 2%nat) as [-> Hl].
    { rewrite Ey in Hy. destruct Ht as [->|[e ->]].
      - split; [done|]. rewrite app_nil_r in Hy. apply (f_equal length) in Hy. rewrite length_fmap in Hy. done.
      - exfalso. apply (f_equal last) in Hy. by rewrite last_snoc in Hy. }
    split; [exact Hs|]. split; [exact Hk|]. split; [exact Hy|]. split; [reflexivity|].
    split; [exact (Hc Hk eq_refl)|exact Hl].
Defined.

Lemma relay_call_correlated_witness :
  let st := run_session ([], session_new (TcpLink true)) demo_ops in
  forward_task_poll st.2 "c2" 120 true = (Some (Ok (JString "answer")), st.2).
Proof.
  intros st.
  destruct (relay_call_correlated (TcpLink true) st.1 st.2 "c2" JNull Silent) as (_ & H & _).
  - apply run_session_history; [constructor|]. apply (bool_decide_unpack _). vm_compute. exact I.
  - apply list_elem_of_lookup_2 with 8%nat. vm_compute. reflexivity.
  - apply H; vm_compute; reflexivity.
Defined.
