(* ===== verification/RelayWorker.v ===== *)
(** * Relay workers ([src/relay_worker_client.rs], the loops of
    [src/relay_session.rs])

    The relay's read loop on a bound worker's connection, the worker's loop
    that answers CALL frames with its handler, and the two composed: calls
    forwarded on one session, answered concurrently by the worker, come back to
    their callers. *)

From S2P Require Import Prelude Text Json Cbor CodecModel Framing ResponseSequence NativePayload RelayWire RelaySession.

(** ** The relay's side *)

Inductive loop_next := LoopContinue | LoopReturn (r : result unit string).

Section loops.
Context {cbor_codec : CborCodec} {json_codec : JsonCodec}.

Definition relay_pong (payload : list byte) : list byte :=
  let echo := default [] (cbor_decode_int_map payload ≫= fun b => cbor_bytes (b !! 1)) in
  cbor_encode_int_map [(1, CBytes echo)].

(** The fall-back of the RESPONSE branch: a buffered answer. *)
Definition relay_buffered_response (c : session_cell) (payload : list byte) : session_cell :=
  match cbor_decode_int_map payload with
  | None => c
  | Some body =>
      let call_id := default EmptyString (cbor_text_or_bytes (body !! 15)) in
      let result := match cbor_bytes (body !! 5) with
                    | Some bytes => default JNull (result_ok (json_from_slice bytes))
                    | None => JNull
                    end in
      if negb (str_is_empty call_id) then on_response c call_id result else c
  end.

Definition relay_response (c : session_cell) (payload : list byte) : session_cell :=
  match decode_cbor payload with
  | Ok body =>
      match decode_lifecycle_response body with
      | Ok event => deliver_stream_event c (rf_call_id event) event
      | Err _ => relay_buffered_response c payload
      end
  | Err _ => relay_buffered_response c payload
  end.

Definition relay_frame (c : session_cell) (mt : byte) (payload : list byte) : loop_next * session_cell :=
  if bool_decide (mt = MT_PING) then
    match send_raw c (make_frame MT_PONG (relay_pong payload)) with
    | Ok c' => (LoopContinue, c')
    | Err e => (LoopReturn (Err e), c)
    end
  else if bool_decide (mt = MT_RESPONSE) then (LoopContinue, relay_response c payload)
  else if bool_decide (mt = MT_CLOSE) then (LoopReturn (Ok tt), c)
  else (LoopContinue, c).

(** [relay_worker_loop] on all the bytes the worker sends; every frame takes at
    least twelve of them, so the length of the input is fuel enough. *)
Fixpoint relay_loop (fuel : nat) (input : list byte) (c : session_cell) : result unit string * session_cell :=
  match relay_read_frame input with
  | Err _ => (Ok tt, c)
  | Ok (mt, payload, input) =>
      match relay_frame c mt payload with
      | (LoopReturn r, c) => (r, c)
      | (LoopContinue, c) => match fuel with O => (Ok tt, c) | S fuel => relay_loop fuel input c end
      end
  end.
Definition relay_worker_loop (input : list byte) (c : session_cell) : result unit string * session_cell :=
  relay_loop (length input) input c.

(** ** The worker's side *)

Definition utf8_width (b : Z) : Z :=
  if z_between 194 223 b then 2 else if z_between 224 239 b then 3 else if z_between 240 244 b then 4 else 0.
(** the second byte of a three- or four-byte sequence *)
Definition utf8_second (b c : Z) : bool :=
  if b =? 224 then z_between 160 191 c else if b =? 237 then z_between 128 159 c
  else if b =? 240 then z_between 144 191 c else if b =? 244 then z_between 128 143 c
  else utf8_cont c.

(** [String::from_utf8_lossy]: every maximal invalid prefix becomes U+FFFD. *)
Definition replacement : list Z := [239; 191; 189].
Fixpoint utf8_lossy (l : list Z) : list Z :=
  match l with
  | [] => []
  | b :: l1 =>
      if b <=? 127 then b :: utf8_lossy l1
      else if utf8_width b =? 2 then
        match l1 with
        | c :: l2 => if utf8_cont c then b :: c :: utf8_lossy l2 else replacement ++ utf8_lossy l1
        | [] => replacement
        end
      else if utf8_width b =? 0 then replacement ++ utf8_lossy l1
      else
        match l1 with
        | c :: l2 =>
            if negb (utf8_second b c) then replacement ++ utf8_lossy l1
            else
              match l2 with
              | d :: l3 =>
                  if negb (utf8_cont d) then replacement ++ utf8_lossy l2
                  else if utf8_width b =? 3 then b :: c :: d :: utf8_lossy l3
                  else
                    match l3 with
                    | e :: l4 => if utf8_cont e then b :: c :: d :: e :: utf8_lossy l4
                                 else replacement ++ utf8_lossy l3
                    | [] => replacement
                    end
              | [] => replacement
              end
        | [] => replacement
        end
  end.
Definition from_utf8_lossy (b : list byte) : string := bytes_str (u8_of_Z <$> utf8_lossy (u8_to_Z <$> b)).

Definition worker_cbor_bytes (v : option CborValue) : list byte := default [] (cbor_bytes v).
Definition worker_cbor_text (v : option CborValue) : string :=
  match v with
  | Some (CText s) => s
  | Some (CBytes b) => from_utf8_lossy b
  | _ => EmptyString
  end.

(** The task spawned for a CALL frame: the RESPONSE it writes. *)
Definition worker_answer (handler : json -> json) (payload : list byte) : list byte :=
  let body := cbor_decode_int_map payload in
  let call_id := default EmptyString ((fun b => worker_cbor_text (b !! 15)) <$> body) in
  let raw5 := default [] ((fun b => worker_cbor_bytes (b !! 5)) <$> body) in
  let task := default JNull (result_ok (json_from_slice raw5)) in
  let result := handler task in
  make_frame MT_RESPONSE (cbor_encode_int_map [(15, CText call_id); (5, CBytes (json_to_vec result))]).

(** The worker's session loop: the answers of the CALL frames it reads, in the
    order in which their tasks are spawned. *)
Fixpoint worker_loop (fuel : nat) (handler : json -> json) (input : list byte) : list (list byte) :=
  match result_ok (relay_read_frame input) with
  | None => []
  | Some (mt, payload, input) =>
      let rest := match fuel with O => [] | S fuel => worker_loop fuel handler input end in
      if bool_decide (mt = MT_CALL) then worker_answer handler payload :: rest
      else if bool_decide (mt = MT_CLOSE) then []
      else rest
  end.
Definition worker_session_loop (handler : json -> json) (input : list byte) : list (list byte) :=
  worker_loop (length input) handler input.

(** [run]: the pause before the next attempt, from the outcome of the last. *)
Definition MAX_RECONNECT_DELAY_SECS : Z := 60.
Definition reconnect (delay : Z) (outcome : result unit string) : Z * Z :=
  let delay := if is_ok outcome then 2 else delay in
  (delay, Z.min (delay * 2) MAX_RECONNECT_DELAY_SECS).
Fixpoint reconnect_pauses (delay : Z) (outcomes : list (result unit string)) : list Z :=
  match outcomes with
  | [] => []
  | o :: outcomes => let '(pause, delay) := reconnect delay o in pause :: reconnect_pauses delay outcomes
  end.

(** ** Reading a sequence of frames *)

(** A call as forwarded: identifier, task, both within what the wire carries. *)
Definition call_payload_of (call : string * json) : list byte :=
  cbor_encode_int_map [(15, CText call.1); (5, CBytes (json_to_vec call.2))].
Record call_carried (handler : json -> json) (call : string * json) : Prop := {
  cc_id : call.1 <> EmptyString;
  cc_utf8 : utf8 call.1 = true;
  cc_task : json_plain JSON_RECURSION_LIMIT call.2 = true;
  cc_result : json_plain JSON_RECURSION_LIMIT (handler call.2) = true;
  cc_fits : zlen (call_payload_of call) <= MAX_FRAME_PAYLOAD;
  cc_answer_fits : zlen (call_payload_of (call.1, handler call.2)) <= MAX_FRAME_PAYLOAD
}.

Lemma make_frame_length mt p : (12 <= length (make_frame mt p))%nat.
Proof. unfold make_frame. rewrite !length_app, u32_to_be_bytes_length. simpl. lia. Qed.

Lemma call_payload_body call :
  utf8 call.1 = true ->
  cbor_decode_int_map (call_payload_of call) = Some (<[5 := CBytes (json_to_vec call.2)]> (<[15 := CText call.1]> ∅)).
Proof.
  intros Hu. unfold call_payload_of. rewrite cbor_decode_encode_int_map; [done|].
  unfold entry_plain. cbn [forallb fst snd]. by rewrite Hu.
Qed.

Lemma worker_answer_call handler call :
  call_carried handler call ->
  worker_answer handler (call_payload_of call) = make_frame MT_RESPONSE (call_payload_of (call.1, handler call.2)).
Proof.
  intros [_ Hu Ht _ _ _]. unfold worker_answer. rewrite call_payload_body by done. cbn [fmap option_fmap option_map].
  rewrite lookup_insert_eq, lookup_insert_ne, lookup_insert_eq by done.
  unfold worker_cbor_bytes. cbn [default from_option id cbor_bytes worker_cbor_text]. by rewrite json_from_to.
Qed.

(** The worker answers the forwarded calls, each under its identifier. *)
Lemma worker_loop_calls handler calls fuel :
  Forall (call_carried handler) calls -> (length calls <= fuel)%nat ->
  worker_loop fuel handler (concat ((fun call => make_frame MT_CALL (call_payload_of call)) <$> calls)) =
    (fun call => make_frame MT_RESPONSE (call_payload_of (call.1, handler call.2))) <$> calls.
Proof.
  revert fuel. induction calls as [|call calls IH]; intros fuel Hc Hf; [by destruct fuel|].
  apply Forall_cons in Hc as [Hc Hcs]. destruct fuel as [|fuel]; [simpl in Hf; lia|].
  cbn [fmap list_fmap concat worker_loop]. rewrite relay_read_make_frame by apply Hc. cbn [result_ok].
  rewrite bool_decide_true by done. rewrite worker_answer_call by done. f_equal.
  apply IH; [done|]. simpl in Hf. lia.
Qed.

(** A buffered answer reaches the call it names. *)
Lemma relay_response_call c call :
  call.1 <> EmptyString -> utf8 call.1 = true -> json_plain JSON_RECURSION_LIMIT call.2 = true ->
  relay_response c (call_payload_of call) = on_response c call.1 call.2.
Proof.
  intros Hne Hu Hp. unfold relay_response.
  assert (decode_cbor (call_payload_of call) =
          Ok (CMap [(CInteger 15, CText call.1); (CInteger 5, CBytes (json_to_vec call.2))])) as ->.
  { unfold decode_cbor, call_payload_of, cbor_encode_int_map. rewrite cbor_de_ser; [done|].
    apply (int_map_plain_S 254). unfold entry_plain. cbn [forallb fst snd]. by rewrite Hu. }
  cbn [decode_lifecycle_response cbor_map_get entries_get Z.eqb ok_or rbind].
  unfold relay_buffered_response. rewrite call_payload_body by done.
  rewrite lookup_insert_eq, lookup_insert_ne, lookup_insert_eq by done.
  cbn [default from_option id cbor_text_or_bytes cbor_bytes]. rewrite json_from_to by done. cbn [result_ok default from_option id].
  unfold str_is_empty. by destruct (String.eqb_spec call.1 EmptyString).
Qed.

Definition respond (c : session_cell) (call : string * json) : session_cell := on_response c call.1 call.2.

Lemma relay_loop_responses answers c fuel :
  Forall (fun call => call.1 <> EmptyString /\ utf8 call.1 = true /\
            json_plain JSON_RECURSION_LIMIT call.2 = true /\ zlen (call_payload_of call) <= MAX_FRAME_PAYLOAD) answers ->
  (length answers <= fuel)%nat ->
  relay_loop fuel (concat ((fun call => make_frame MT_RESPONSE (call_payload_of call)) <$> answers)) c =
    (Ok tt, foldl respond c answers).
Proof.
  revert c fuel. induction answers as [|call answers IH]; intros c fuel Hc Hf; [by destruct fuel|].
  apply Forall_cons in Hc as [(Hne & Hu & Hp & Hz) Hcs]. destruct fuel as [|fuel]; [simpl in Hf; lia|].
  cbn [fmap list_fmap concat relay_loop foldl]. rewrite relay_read_make_frame by done.
  unfold relay_frame. rewrite bool_decide_false, bool_decide_true by done.
  rewrite relay_response_call by done. apply IH; [done|]. simpl in Hf. lia.
Qed.

(** ** Calls forwarded on one session *)

Definition forward (c : session_cell) (call : string * json) : session_cell :=
  (forward_task_begin c call.1 call.2).2.

(** The bytes the write task puts on the socket. *)
Definition wire (ms : list relay_message) : list byte :=
  concat ((fun m => match m with WireFrame f => f | PollCall _ => [] end) <$> ms).

Lemma forward_open c call :
  c_link c = TcpLink true ->
  forward c call = mkCell (c_link c) (c_outbox c ++ [WireFrame (make_frame MT_CALL (call_payload_of call))])
    ({[call.1]} ∪ c_pending c) (<[call.1 := Waiting]> (c_calls c)) (c_stream_pending c) (c_streams c).
Proof. intros Hl. unfold forward, forward_task_begin, link_send. simpl. by rewrite Hl. Qed.

Lemma forward_all_open calls c :
  c_link c = TcpLink true ->
  c_outbox (foldl forward c calls) =
    c_outbox c ++ ((fun call => WireFrame (make_frame MT_CALL (call_payload_of call))) <$> calls) /\
  (forall cid, cid ∈ c_pending c \/ cid ∈ calls.*1 -> cid ∈ c_pending (foldl forward c calls)).
Proof.
  revert c. induction calls as [|call calls IH]; intros c Hl; simpl.
  - rewrite app_nil_r. split; [done|]. intros cid [H|H%elem_of_nil]; done.
  - destruct (IH (forward c call)) as [Ho Hp]; [by rewrite forward_open|].
    rewrite Ho, forward_open by done. simpl. rewrite <- app_assoc. split; [done|].
    intros cid Hc. rewrite <- (forward_open c call) by done. apply Hp. rewrite forward_open by done. simpl.
    rewrite elem_of_cons in Hc. set_solver.
Qed.

Lemma respond_frame c call cid :
  cid <> call.1 ->
  c_calls (respond c call) !! cid = c_calls c !! cid /\ (cid ∈ c_pending (respond c call) <-> cid ∈ c_pending c).
Proof.
  intros Hne. unfold respond, on_response. case_bool_decide; simpl; [|done].
  rewrite lookup_insert_ne by done. set_solver.
Qed.

Lemma respond_all c answers :
  NoDup answers.*1 -> (forall cid, cid ∈ answers.*1 -> cid ∈ c_pending c) ->
  (forall cid, cid ∉ answers.*1 -> c_calls (foldl respond c answers) !! cid = c_calls c !! cid) /\
  (forall cid v, (cid, v) ∈ answers -> c_calls (foldl respond c answers) !! cid = Some (Sent v)).
Proof.
  revert c. induction answers as [|[k w] answers IH]; intros c Hn Hp; simpl.
  - split; [done|]. intros cid v H%elem_of_nil. done.
  - simpl in *. apply NoDup_cons in Hn as [Hk Hn].
    destruct (IH (respond c (k, w)) Hn) as [Ho Hs].
    { intros cid Hc. apply respond_frame; [by intros ->|]. apply Hp. by right. }
    split.
    + intros cid [Hne Hc]%not_elem_of_cons. rewrite Ho by done. by apply respond_frame.
    + intros cid v [[= -> ->]|Hin]%elem_of_cons; [|by apply Hs].
      rewrite Ho by done. unfold respond, on_response. simpl.
      rewrite bool_decide_true by (apply Hp; left). simpl. by rewrite lookup_insert_eq.
Qed.

Lemma concat_frames_length (f : (string * json) -> list byte) mt calls :
  (length calls <= length (concat ((fun call => make_frame mt (f call)) <$> calls)))%nat.
Proof.
  induction calls as [|call calls IH]; [done|]. rewrite fmap_cons. cbn [concat length].
  rewrite length_app. pose proof (make_frame_length mt (f call)). lia.
Qed.

(** Calls forwarded on one TCP session and answered by the worker's handler,
    whose answers may come back in any order, all return: each caller's next
    poll gives the handler's result for its own task.  (Identifiers are
    distinct; tasks and results are values JSON carries, in frames of at most
    16 MiB.) *)
Theorem relay_calls_return handler c calls answers :
  c_link c = TcpLink true -> NoDup calls.*1 -> Forall (call_carried handler) calls ->
  let c1 := foldl forward c calls in
  answers ≡ₚ worker_session_loop handler (wire (drop (length (c_outbox c)) (c_outbox c1))) ->
  exists c2, relay_worker_loop (concat answers) c1 = (Ok tt, c2) /\
    forall cid task secs timed_out, (cid, task) ∈ calls ->
      forward_task_poll c2 cid secs timed_out = (Some (Ok (handler task)), c2).
Proof.
  intros Hl Hn Hc c1 Hans. subst c1. destruct (forward_all_open calls c Hl) as [Ho Hp].
  rewrite Ho, drop_app_length in Hans.
  assert (answers ≡ₚ (fun call => make_frame MT_RESPONSE (call_payload_of (call.1, handler call.2))) <$> calls)
    as Ha.
  { rewrite Hans. unfold worker_session_loop, wire. rewrite <- list_fmap_compose. unfold compose.
    by rewrite (worker_loop_calls handler calls) by (done || apply (concat_frames_length call_payload_of)). }
  clear Hans Ho.
  pose (g := fun call : string * json => (call.1, handler call.2)).
  assert (exists rs, answers = (fun call => make_frame MT_RESPONSE (call_payload_of call)) <$> rs /\ rs ≡ₚ g <$> calls)
    as (rs & -> & Hrs).
  { change ((fun call => make_frame MT_RESPONSE (call_payload_of (call.1, handler call.2))) <$> calls)
      with (((fun call => make_frame MT_RESPONSE (call_payload_of call)) ∘ g) <$> calls) in Ha.
    rewrite list_fmap_compose in Ha. apply Permutation_map_inv in Ha as (rs & -> & Hrs).
    by exists rs. }
  assert (Forall (fun call => call.1 <> EmptyString /\ utf8 call.1 = true /\
            json_plain JSON_RECURSION_LIMIT call.2 = true /\ zlen (call_payload_of call) <= MAX_FRAME_PAYLOAD) rs)
    as Hok.
  { rewrite Hrs. apply Forall_fmap. eapply Forall_impl; [exact Hc|]. intros call []. done. }
  exists (foldl respond (foldl forward c calls) rs). split.
  - apply relay_loop_responses; [done|]. apply (concat_frames_length call_payload_of).
  - intros cid task secs b Hin.
    assert (rs.*1 ≡ₚ calls.*1) as Hids by (rewrite Hrs, <- list_fmap_compose; done).
    destruct (respond_all (foldl forward c calls) rs) as [_ Hs].
    + by rewrite Hids.
    + intros k Hk. apply Hp. right. by rewrite <- Hids.
    + unfold forward_task_poll. rewrite (Hs cid (handler task)); [done|]. rewrite Hrs.
      apply list_elem_of_fmap. by exists (cid, task).
Qed.
End loops.

(** Two calls whose answers come back in the opposite order. *)
Definition demo_handler (task : json) : json := mk_obj [("echo", task)].
Definition demo_calls : list (string * json) := [("c1", JString "one"); ("c2", JString "two")].

Lemma demo_calls_carried : Forall (call_carried demo_handler) demo_calls.
Proof.
  apply Forall_cons; split; [|apply Forall_cons; split; [|by apply Forall_nil]];
    (split; [done|vm_compute; reflexivity..| |]; vm_compute; discriminate).
Qed.

Lemma relay_calls_return_witness :
  let c1 := foldl forward (session_new (TcpLink true)) demo_calls in
  exists c2,
    relay_worker_loop (concat (rev (worker_session_loop demo_handler (wire (c_outbox c1))))) c1 = (Ok tt, c2) /\
    forward_task_poll c2 "c1" 120 true = (Some (Ok (mk_obj [("echo", JString "one")])), c2).
Proof.
  destruct (relay_calls_return demo_handler (session_new (TcpLink true)) demo_calls
    (rev (worker_session_loop demo_handler (wire (c_outbox (foldl forward (session_new (TcpLink true)) demo_calls))))))
    as (c2 & H1 & H2).
  - reflexivity.
  - apply (bool_decide_unpack _). vm_compute. exact I.
  - exact demo_calls_carried.
  - symmetry. apply Permutation_rev.
  - exists c2. split; [exact H1|]. apply (H2 "c1" (JString "one")). left.
Defined.
