(* ===== verification/RelayBind.v ===== *)
(** * Binding relay workers ([src/relay_session.rs], [src/node.rs])

    The registry of bound sessions with its bind rate limit, the TCP accept
    handler and the HTTP bind and unbind endpoints.  Many handlers run at once:
    a handler is a tree of [action]s on the shared state (one lock-protected
    access each), and a schedule interleaves the actions of all handlers.  What
    a handler reads from its socket, the clock and fresh tokens come with each
    scheduled action. *)

From S2P Require Import Prelude Program Text Json Cbor CodecModel Framing TcpClient RelayWire DispatchTicket.

(** ** Relay bind tickets ([src/relay_ticket.rs])

    Verification of a directory-signed bind ticket and the process-wide replay
    cache.  Ed25519, hexadecimal and base64 decoding and the derived JSON parser
    of the claims are parameters. *)

Record RelayBindTicketClaims := mkRelayClaims {
  rc_v : Z;
  rc_typ : string;
  rc_jti : string;
  rc_iss : string;
  rc_sub : string;
  rc_aud : string;
  rc_iat : Z;
  rc_exp : Z
}.
Global Instance relay_claims_eq_dec : EqDecision RelayBindTicketClaims.
Proof. solve_decision. Defined.

Definition RELAY_DOMAIN : string := "iicp:relay-bind-ticket:v1" +:+ String (chr 10) EmptyString.

(** The replay cache: [seen.retain], the test and the insertion are one
    critical section. *)
Definition consume_relay_bind_ticket (seen : gmap string Z) (claims : RelayBindTicketClaims) (now_s : Z)
    : bool * gmap string Z :=
  let seen := cache_retain seen now_s in
  if is_some (seen !! rc_jti claims) then (false, seen)
  else (true, <[rc_jti claims := rc_exp claims]> seen).

(** What the code needs of the libraries it verifies with. *)
Class RelayCrypto := {
  relay_ed25519_verify : list byte -> list byte -> list byte -> bool;
  relay_hex_decode : string -> option (list byte);
  relay_b64url_decode : string -> option (list byte);
  relay_parse_claims : list byte -> option RelayBindTicketClaims
}.

Section verify.
Context {crypto : RelayCrypto}.

Definition relay_claims_ok (claims : RelayBindTicketClaims) (worker_id relay_audience : string) (now_s : Z) : bool :=
  negb ((rc_typ claims <>? "relay-bind-ticket") || negb (str_len (rc_jti claims) =? 32)
        || negb (str_all lower_hex_char (rc_jti claims)) || (rc_sub claims <>? worker_id)
        || (rc_exp claims <=? now_s))
  && negb ((rc_aud claims <>? "*") && (rc_aud claims <>? relay_audience)).

Definition verify_relay_bind_ticket (token public_key_hex worker_id relay_audience : string) (now_s : Z)
    : option RelayBindTicketClaims :=
  let! (payload_b64, sig_hex) := split_once "." token in
  if negb (str_len sig_hex =? 128) then None
  else
    let! pub_bytes := relay_hex_decode public_key_hex ≫= sized 32 in
    let! sig_bytes := relay_hex_decode sig_hex ≫= sized 64 in
    if negb (relay_ed25519_verify pub_bytes (str_bytes (RELAY_DOMAIN +:+ payload_b64)) sig_bytes) then None
    else
      let! claims := relay_b64url_decode payload_b64 ≫= relay_parse_claims in
      if relay_claims_ok claims worker_id relay_audience now_s then Some claims else None.

(** ** Lemmas *)

Lemma relay_claims_sub claims wid aud now :
  relay_claims_ok claims wid aud now = true -> rc_sub claims = wid /\ now < rc_exp claims.
Proof. unfold relay_claims_ok. intros H. bprop. done. Qed.

Lemma verify_relay_sub token pk wid aud now claims :
  verify_relay_bind_ticket token pk wid aud now = Some claims -> rc_sub claims = wid /\ now < rc_exp claims.
Proof.
  unfold verify_relay_bind_ticket. destruct (split_once "." token) as [[payload sig]|]; [|done]. simpl.
  destruct (negb _); [done|]. destruct (relay_hex_decode pk ≫= _); [|done]. simpl.
  destruct (relay_hex_decode sig ≫= _); [|done]. simpl. destruct (negb _); [done|].
  destruct (relay_b64url_decode payload ≫= _) as [c|]; [|done]. simpl.
  destruct (relay_claims_ok c wid aud now) eqn:E; [|done]. intros [= ->]. by eapply relay_claims_sub.
Qed.
End verify.

(** The tickets consumed so far and the cache, under a clock that does not run
    backwards: a consumed ticket is remembered until it has expired. *)
Record replay_ok (clock : Z) (seen : gmap string Z) (spent : list (string * Z)) : Prop := {
  ry_nodup : NoDup spent;
  ry_spent : forall j x, (j, x) ∈ spent -> seen !! j = Some x \/ x <= clock
}.

Lemma replay_ok_clock clock clock' seen spent :
  clock <= clock' -> replay_ok clock seen spent -> replay_ok clock' seen spent.
Proof. intros Hc [Hn Hs]. split; [done|]. intros j x Hin. destruct (Hs j x Hin); [by left|right; lia]. Qed.

(** The time a handler read may be older than the time [clock] at which it
    gets the lock. *)
Lemma consume_replay_ok clock seen spent claims now ok seen' :
  now <= clock -> replay_ok clock seen spent ->
  consume_relay_bind_ticket seen claims now = (ok, seen') ->
  replay_ok clock seen'
    (if ok && (clock <? rc_exp claims) then (rc_jti claims, rc_exp claims) :: spent else spent).
Proof.
  intros Hc [Hn Hs]. unfold consume_relay_bind_ticket.
  assert (forall j x, (j, x) ∈ spent -> cache_retain seen now !! j = Some x \/ x <= clock) as Hs'.
  { intros j x Hin. destruct (Hs j x Hin) as [H|H]; [|by right].
    destruct (retain_spent seen now j x (or_introl H)); [by left|right; lia]. }
  destruct (cache_retain seen now !! rc_jti claims) as [y|] eqn:E; intros [= <- <-]; [by split|]. cbn [andb].
  assert (forall j x, (j, x) ∈ spent ->
            <[rc_jti claims := rc_exp claims]> (cache_retain seen now) !! j = Some x \/ x <= clock) as Hs''.
  { intros j x Hin. destruct (decide (j = rc_jti claims)) as [->|Hne]; [|rewrite lookup_insert_ne by done; by apply Hs'].
    destruct (Hs' _ _ Hin) as [H|]; [congruence|by right]. }
  destruct (Z.ltb_spec clock (rc_exp claims)); [|by split].
  split.
  - apply NoDup_cons. split; [|done]. intros Hin. destruct (Hs' _ _ Hin) as [H'|]; [congruence|lia].
  - intros j x [[= -> ->]|Hin]%elem_of_cons; [left; by rewrite lookup_insert_eq|by apply Hs''].
Qed.

(** ** The registry *)

Definition MAX_RELAY_SESSIONS : Z := 256.
Definition RELAY_BIND_RATE_WINDOW : Z := 60.

(** Handles; [ptr] is the identity of the session's [pending] map, which all
    clones of the handle share. *)
Record RelayWorkerSession := mkWorker { ws_worker_id : string; ws_ptr : nat }.
Record HttpPollWorkerSession := mkPoll {
  ps_worker_id : string;
  ps_intent : string;
  ps_models : list string;
  session_token : string;
  ps_ptr : nat;
  liveness_window : Z
}.
Inductive RelaySession :=
| STcp (s : RelayWorkerSession)
| SPoll (s : HttpPollWorkerSession).

Definition session_worker (s : RelaySession) : string :=
  match s with STcp s => ws_worker_id s | SPoll s => ps_worker_id s end.

Record RelaySessionRegistry := mkRelayRegistry {
  sessions : gmap string RelaySession;
  bind_rate_limit : Z;
  bind_rate_buckets : gmap string (Z * Z)
}.

(** [now.duration_since(start)], zero when [start] is later *)
Definition duration_since (now start : Z) : Z := Z.max (now - start) 0.

Definition live_buckets (b : gmap string (Z * Z)) (now : Z) : gmap string (Z * Z) :=
  filter (fun kv => duration_since now kv.2.1 < RELAY_BIND_RATE_WINDOW) b.

Definition allow_bind (r : RelaySessionRegistry) (source : string) (rebind : bool) (now : Z)
    : bool * RelaySessionRegistry :=
  if rebind || (bind_rate_limit r =? 0) then (true, r)
  else
    let entry := default (now, 0) (bind_rate_buckets r !! source) in
    let entry := if RELAY_BIND_RATE_WINDOW <=? duration_since now entry.1 then (now, 0) else entry in
    let entry := (entry.1, (entry.2 + 1) mod 2 ^ 32) in
    let allowed := entry.2 <=? bind_rate_limit r in
    let buckets := <[source := entry]> (bind_rate_buckets r) in
    let buckets := if 4096 <? Z.of_nat (size buckets) then live_buckets buckets now else buckets in
    (allowed, mkRelayRegistry (sessions r) (bind_rate_limit r) buckets).

Definition with_sessions (r : RelaySessionRegistry) (s : gmap string RelaySession) : RelaySessionRegistry :=
  mkRelayRegistry s (bind_rate_limit r) (bind_rate_buckets r).

Definition at_capacity (r : RelaySessionRegistry) (worker_id : string) : bool :=
  negb (is_some (sessions r !! worker_id)) && (MAX_RELAY_SESSIONS <=? Z.of_nat (size (sessions r))).
Definition registry_bind (r : RelaySessionRegistry) (worker_id : string) (s : RelaySession) : RelaySessionRegistry :=
  with_sessions r (<[worker_id := s]> (sessions r)).
Definition registry_unbind (r : RelaySessionRegistry) (worker_id : string) : RelaySessionRegistry :=
  with_sessions r (delete worker_id (sessions r)).
Definition unbind_session (r : RelaySessionRegistry) (worker_id : string) (s : RelayWorkerSession)
    : RelaySessionRegistry :=
  match sessions r !! worker_id with
  | Some (STcp existing) =>
      if bool_decide (ws_ptr existing = ws_ptr s) then registry_unbind r worker_id else r
  | _ => r
  end.
Definition get_by_token (r : RelaySessionRegistry) (token : string) : option HttpPollWorkerSession :=
  if str_is_empty token then None
  else head (omap (fun kv => match kv.2 with
                             | SPoll p => if session_token p ==? token then Some p else None
                             | STcp _ => None
                             end) (map_to_list (sessions r))).

(** ** The shared state *)

Record relay_world := mkWorld {
  w_registry : RelaySessionRegistry;
  w_replay : gmap string Z;           (** the bind-ticket replay cache *)
  w_next : nat;                       (** next fresh session identity *)
  w_closed : gset nat;                (** write channel closed, or [close] called *)
  w_last_pull : gmap nat Z            (** polling sessions: the last pull *)
}.

Definition is_alive (w : relay_world) (s : RelaySession) (now : Z) : bool :=
  match s with
  | STcp s => bool_decide (ws_ptr s ∉ w_closed w)
  | SPoll s => bool_decide (ps_ptr s ∉ w_closed w)
               && (duration_since now (default now (w_last_pull w !! ps_ptr s)) <? liveness_window s)
  end.

Definition with_registry (w : relay_world) (r : RelaySessionRegistry) : relay_world :=
  mkWorld r (w_replay w) (w_next w) (w_closed w) (w_last_pull w).

(** ** Actions *)

Inductive action :=
| AGet (worker_id : string)
| AIsAlive (s : RelaySession)
| AAllowBind (source : string) (rebind : bool) (now : Z)
| AAtCapacity (worker_id : string)
| ANow
| AConsume (claims : RelayBindTicketClaims) (now_s : Z)
| ANewTcp (worker_id : string)
| ANewPoll (worker_id intent : string) (models : list string)
| ABind (worker_id : string) (s : RelaySession)
| ASendRaw (s : RelayWorkerSession) (frame : list byte)
| AServe (s : RelayWorkerSession)
| AUnbindSession (worker_id : string) (s : RelayWorkerSession)
| AUnbind (worker_id : string)
| AByToken (token : string)
| AClose (s : HttpPollWorkerSession)
| ARead
| AWrite (frame : list byte).

Definition resp (a : action) : Type :=
  match a with
  | AGet _ => option RelaySession
  | AIsAlive _ | AAllowBind _ _ _ | AAtCapacity _ | AConsume _ _ => bool
  | ANow => Z
  | ANewTcp _ => RelayWorkerSession
  | ANewPoll _ _ _ => HttpPollWorkerSession
  | AByToken _ => option HttpPollWorkerSession
  | ABind _ _ | AUnbindSession _ _ | AUnbind _ | AClose _ => unit
  | ASendRaw _ _ | AServe _ | AWrite _ => result unit string
  | ARead => result (byte * list byte) string
  end.

(** What the outside gives to a scheduled action. *)
Record env := mkEnv {
  e_now : Z;
  e_frame : result (byte * list byte) string;   (** the next frame of the handler's socket *)
  e_io : result unit string;                    (** outcome of a socket write, or of the read loop *)
  e_token : string                              (** [Uuid::new_v4] *)
}.

Definition perform (w : relay_world) (e : env) (a : action) : resp a * relay_world :=
  match a return resp a * relay_world with
  | AGet wid => (sessions (w_registry w) !! wid, w)
  | AIsAlive s => (is_alive w s (e_now e), w)
  | AAllowBind source rebind now =>
      let '(ok, r) := allow_bind (w_registry w) source rebind now in (ok, with_registry w r)
  | AAtCapacity wid => (at_capacity (w_registry w) wid, w)
  | ANow => (e_now e, w)
  | AConsume claims now_s =>
      let '(ok, seen) := consume_relay_bind_ticket (w_replay w) claims now_s in
      (ok, mkWorld (w_registry w) seen (w_next w) (w_closed w) (w_last_pull w))
  | ANewTcp wid =>
      (mkWorker wid (w_next w),
       mkWorld (w_registry w) (w_replay w) (S (w_next w)) (w_closed w) (w_last_pull w))
  | ANewPoll wid intent models =>
      (mkPoll wid intent models (e_token e) (w_next w) 90,
       mkWorld (w_registry w) (w_replay w) (S (w_next w)) (w_closed w)
         (<[w_next w := e_now e]> (w_last_pull w)))
  | ABind wid s => (tt, with_registry w (registry_bind (w_registry w) wid s))
  | ASendRaw s _ =>
      (if bool_decide (ws_ptr s ∈ w_closed w) then Err "relay write channel closed" else Ok tt, w)
  | AServe s => (e_io e, w)
  | AUnbindSession wid s => (tt, with_registry w (unbind_session (w_registry w) wid s))
  | AUnbind wid => (tt, with_registry w (registry_unbind (w_registry w) wid))
  | AByToken token => (get_by_token (w_registry w) token, w)
  | AClose s =>
      (tt, mkWorld (w_registry w) (w_replay w) (w_next w) ({[ps_ptr s]} ∪ w_closed w) (w_last_pull w))
  | ARead => (e_frame e, w)
  | AWrite _ => (e_io e, w)
  end.

(** ** Handlers *)

Inductive outcome :=
| TcpDone (r : result unit string)
| HttpDone (status : Z) (body : option json).

Notation prog := (prog resp outcome).
Local Notation "'act!' x := a 'in' k" := (@Act action resp outcome a (fun x => k))
  (at level 200, x name, a at level 100, k at level 200).

(** Why a bind is refused after its ticket was looked at. *)
Inductive refusal := AlreadyAlive | RateLimited | AtCapacity | TicketReplayed.

(** The checks both bind handlers make, in their order: after the test for an
    alive session, ... *)
Definition bind_admit (worker_id source : string) (claims : option RelayBindTicketClaims)
    (refuse : refusal -> prog) (accept : prog) : prog :=
  act! again := AGet worker_id in
  act! now := ANow in
  act! allowed := AAllowBind source (is_some again) now in
  if negb allowed then refuse RateLimited
  else
    act! full := AAtCapacity worker_id in
    if full then refuse AtCapacity
    else match claims with
         | Some c =>
             act! now_s := ANow in
             act! fresh := AConsume c now_s in if fresh then accept else refuse TicketReplayed
         | None => accept
         end.

(** ... and the whole. *)
Definition bind_checks (worker_id source : string) (claims : option RelayBindTicketClaims)
    (refuse : refusal -> prog) (accept : prog) : prog :=
  act! existing := AGet worker_id in
  match existing with
  | Some s =>
      act! alive := AIsAlive s in
      if alive then refuse AlreadyAlive else bind_admit worker_id source claims refuse accept
  | None => bind_admit worker_id source claims refuse accept
  end.

Section handlers.
Context {cbor_codec : CborCodec} {crypto : RelayCrypto}.

(** The fields of [RelayAcceptServer] that a connection gets. *)
Record relay_config := mkRelayConfig {
  http_port : Z;
  require_bind_ticket : bool;
  bind_ticket_public_key_hex : option string;
  relay_node_id : string
}.

(** *** [handle_relay_connection] *)

Definition nack_frame (worker_id reason : string) : list byte :=
  make_frame MT_RELAY_ACK (cbor_encode_int_map [(1, CText "error"); (2, CText worker_id); (3, CText reason)]).
Definition nack (worker_id reason : string) : prog :=
  act! r := AWrite (nack_frame worker_id reason) in Ret (TcpDone r).
Definition tcp_refusal (r : refusal) : string :=
  match r with
  | AlreadyAlive => "worker_id already bound to an alive session"
  | RateLimited => "relay_bind_rate_limited"
  | AtCapacity => "relay at session capacity"
  | TicketReplayed => "relay bind ticket replayed"
  end.

Definition relay_ack (cfg : relay_config) (worker_id : string) : list byte :=
  make_frame MT_RELAY_ACK
    (cbor_encode_int_map [(1, CText "ok"); (2, CText worker_id); (4, CInteger (http_port cfg))]).

(** From the bound session to its end. *)
Definition tcp_serve (cfg : relay_config) (worker_id : string) (session : RelayWorkerSession) : prog :=
  act! sent := ASendRaw session (relay_ack cfg worker_id) in
  match sent with
  | Err e => Ret (TcpDone (Err e))
  | Ok _ =>
      act! result := AServe session in
      act! done := AUnbindSession worker_id session in
      Ret (TcpDone result)
  end.

Definition tcp_bind (cfg : relay_config) (source worker_id : string) (claims : option RelayBindTicketClaims) : prog :=
  bind_checks worker_id source claims (fun r => nack worker_id (tcp_refusal r))
    (act! session := ANewTcp worker_id in
     act! bound := ABind worker_id (STcp session) in
     tcp_serve cfg worker_id session).

Definition tcp_bind_request (cfg : relay_config) (source : string) (payload : list byte) : prog :=
  match cbor_decode_int_map payload with
  | None => Ret (TcpDone (Err "RELAY_BIND decode failed"))
  | Some body =>
      let worker_id := default EmptyString (cbor_text_or_bytes (body !! 1)) in
      let bind_ticket := default EmptyString (cbor_text_or_bytes (body !! 4)) in
      if str_is_empty worker_id then Ret (TcpDone (Err "RELAY_BIND missing worker_id"))
      else if negb (str_is_empty bind_ticket) then
        match bind_ticket_public_key_hex cfg with
        | Some pub_hex =>
            act! now := ANow in
            match verify_relay_bind_ticket bind_ticket pub_hex worker_id (relay_node_id cfg) now with
            | None => nack worker_id "relay bind ticket invalid"
            | Some claims => tcp_bind cfg source worker_id (Some claims)
            end
        | None => tcp_bind cfg source worker_id None
        end
      else if require_bind_ticket cfg then nack worker_id "relay bind ticket required"
      else tcp_bind cfg source worker_id None
  end.

Definition ack_frame : list byte :=
  make_frame MT_ACK (cbor_encode_int_map [(1, CInteger (u8_to_Z FRAMING_VERSION))]).

Definition handle_relay_connection (cfg : relay_config) (source : string) : prog :=
  act! first := ARead in
  match first with
  | Err e => Ret (TcpDone (Err e))
  | Ok (mt, _) =>
      if negb (bool_decide (mt = MT_INIT)) then Ret (TcpDone (Err ("expected INIT, got 0x" +:+ hex2 mt)))
      else
        act! written := AWrite ack_frame in
        match written with
        | Err e => Ret (TcpDone (Err e))
        | Ok _ =>
            act! second := ARead in
            match second with
            | Err e => Ret (TcpDone (Err e))
            | Ok (mt, payload) =>
                if negb (bool_decide (mt = MT_RELAY_BIND))
                then Ret (TcpDone (Err ("expected RELAY_BIND, got 0x" +:+ hex2 mt)))
                else tcp_bind_request cfg source payload
            end
        end
  end.

(** *** The HTTP endpoints *)

Definition http_error (status : Z) (code message : string) : prog :=
  Ret (HttpDone status (Some (mk_obj [("error", mk_obj [("code", JString code); ("message", JString message)])]))).
Definition http_refusal (r : refusal) : prog :=
  match r with
  | AlreadyAlive => http_error 409 "IICP-E038" "worker_id has an alive relay session — rebind rejected"
  | RateLimited =>
      Ret (HttpDone 429 (Some (mk_obj [("error", mk_obj [("code", JString "IICP-E039");
        ("reason", JString "relay_bind_rate_limited"); ("message", JString "relay bind rate limit exceeded")])])))
  | AtCapacity => http_error 503 "IICP-E039" "relay at session capacity — try another relay"
  | TicketReplayed => http_error 409 "IICP-E040" "relay bind ticket replayed"
  end.

Definition poll_models (payload : json) : list string :=
  default [] ((fun a : list json => omap as_str a) <$> (jget payload "models" ≫= as_array)).

Definition poll_bind (payload : json) (worker_id : string) (claims : option RelayBindTicketClaims) : prog :=
  bind_checks worker_id ("worker:" +:+ worker_id) claims http_refusal
    (act! session := ANewPoll worker_id (default EmptyString (get_str payload "intent")) (poll_models payload) in
     act! bound := ABind worker_id (SPoll session) in
     Ret (HttpDone 200 (Some (mk_obj [("session_token", JString (session_token session));
       ("poll_timeout_s", u64_json 25);
       ("worker_endpoint_path", JString ("/v1/relay-for/" +:+ worker_id))])))).

(** The HTTP side reads the same settings from [AppState]. *)
Definition relay_bind_endpoint (cfg : relay_config) (payload : json) : prog :=
  let worker_id := default EmptyString (get_str payload "worker_id") in
  if str_is_empty worker_id then http_error 422 "IICP-E001" "worker_id is required"
  else
    let bind_ticket := default EmptyString (get_str payload "bind_ticket") in
    let ticket_public_key := default EmptyString (bind_ticket_public_key_hex cfg) in
    if negb (str_is_empty bind_ticket) && negb (str_is_empty ticket_public_key) then
      act! now := ANow in
      match verify_relay_bind_ticket bind_ticket ticket_public_key worker_id (relay_node_id cfg) now with
      | None => http_error 401 "IICP-E040" "relay bind ticket invalid"
      | Some claims => poll_bind payload worker_id (Some claims)
      end
    else if require_bind_ticket cfg then http_error 401 "IICP-E040" "relay bind ticket required"
    else poll_bind payload worker_id None.

Definition relay_unbind_endpoint (token : string) : prog :=
  act! found := AByToken token in
  match found with
  | None => http_error 401 "IICP-E021" "invalid or missing relay session token"
  | Some session =>
      act! closed := AClose session in
      act! done := AUnbind (ps_worker_id session) in
      Ret (HttpDone 204 None)
  end.
End handlers.

(** ** The bind rate limit ([RelaySessionRegistry::allow_bind])

    The limiter counts in windows that start with a source's first attempt.
    What it promises over time: in any sixty seconds no source gets more than
    twice the limit admitted. *)

(** One call of [allow_bind]: source, rebind, time. *)
Definition attempt : Type := string * bool * Z.

(** The registry after a call, and the times at which [src] was admitted under
    the limit, oldest first. *)
Definition attempt_step (src : string) (st : RelaySessionRegistry * list Z) (a : attempt)
    : RelaySessionRegistry * list Z :=
  let '(source, rebind, now) := a in
  let '(ok, r) := allow_bind st.1 source rebind now in
  (r, if ok && negb rebind && (source ==? src) then st.2 ++ [now] else st.2).

Definition admitted_times (limit : Z) (src : string) (atts : list attempt) : list Z :=
  (foldl (attempt_step src) (mkRelayRegistry ∅ limit ∅, []) atts).2.

(** How many of the times lie in the window of [RELAY_BIND_RATE_WINDOW] from [t]. *)
Definition in_window (t x : Z) : bool := (t <=? x) && (x <? t + RELAY_BIND_RATE_WINDOW).
Definition count_window (t : Z) (l : list Z) : Z := zlen (List.filter (in_window t) l).

Fixpoint times_from (clock : Z) (atts : list attempt) : Prop :=
  match atts with [] => True | (_, _, now) :: atts => clock <= now /\ times_from now atts end.

Lemma count_window_app t l k : count_window t (l ++ k) = count_window t l + count_window t k.
Proof. unfold count_window. by rewrite List.filter_app, zlen_app. Qed.
Lemma count_window_le t l : 0 <= count_window t l <= zlen l.
Proof.
  unfold count_window, zlen. induction l as [|x l IH]; simpl; [lia|]. destruct (in_window t x); simpl; lia.
Qed.
Lemma count_window_none t l : Forall (fun x => x < t \/ t + RELAY_BIND_RATE_WINDOW <= x) l -> count_window t l = 0.
Proof.
  induction 1 as [|x l Hx Hl IH]; [done|]. unfold count_window in *. simpl.
  replace (in_window t x) with false; [done|]. symmetry. unfold in_window. apply andb_false_iff.
  destruct Hx; [left; apply Z.leb_gt; lia|right; apply Z.ltb_ge; lia].
Qed.

Section rate.
Context (limit : Z) (src : string).
Context (Hlimit : 0 < limit).

(** Two consecutive windows of the source: no interval meets more of them. *)
Record windows (pstart start : Z) (older prev cur : list Z) : Prop := {
  wi_apart : pstart + RELAY_BIND_RATE_WINDOW <= start;
  wi_older : Forall (fun x => x < pstart) older;
  wi_prev : Forall (fun x => x < start) prev;
  wi_cur : Forall (fun x => start <= x < start + RELAY_BIND_RATE_WINDOW) cur;
  wi_prev_len : zlen prev <= limit;
  wi_cur_len : zlen cur <= limit;
  wi_count : forall t, count_window t (older ++ prev) <= 2 * limit
}.

Lemma windows_count pstart start older prev cur t :
  windows pstart start older prev cur -> count_window t (older ++ prev ++ cur) <= 2 * limit.
Proof.
  intros [Ha Ho Hp Hc Hpl Hcl Hcount]. rewrite app_assoc, count_window_app.
  destruct (Z.leb_spec t (start - RELAY_BIND_RATE_WINDOW)).
  - rewrite (count_window_none t cur); [specialize (Hcount t); lia|].
    eapply Forall_impl; [exact Hc|]. intros x Hx. right. simpl in *. lia.
  - rewrite count_window_app, (count_window_none t older).
    + pose proof (count_window_le t prev). pose proof (count_window_le t cur). lia.
    + eapply Forall_impl; [exact Ho|]. intros x Hx. left. simpl in *. lia.
Qed.

(** A new window opens at [now]. *)
Lemma windows_shift pstart start older prev cur now :
  windows pstart start older prev cur -> start + RELAY_BIND_RATE_WINDOW <= now ->
  windows start now (older ++ prev) cur [now].
Proof.
  intros Hw Hn. pose proof Hw as [Ha Ho Hp Hc Hpl Hcl Hcount]. unfold RELAY_BIND_RATE_WINDOW in *. split; try done.
  - apply Forall_app. split; [|done]. eapply Forall_impl; [exact Ho|]. intros x Hx. simpl in *. lia.
  - eapply Forall_impl; [exact Hc|]. intros x Hx. simpl in *. lia.
  - apply Forall_cons. split; [unfold RELAY_BIND_RATE_WINDOW; lia|by apply Forall_nil].
  - unfold zlen. simpl. lia.
  - intros t. rewrite <- app_assoc. by eapply windows_count.
Qed.

Record rate_ok (clock steps : Z) (st : RelaySessionRegistry * list Z) : Prop := {
  ra_limit : bind_rate_limit st.1 = limit;
  ra_windows : exists pstart start older prev cur,
    st.2 = older ++ prev ++ cur /\ windows pstart start older prev cur /\ start <= clock /\
    match bind_rate_buckets st.1 !! src with
    | Some (s, n) => s = start /\ zlen cur <= n <= steps
    | None => start + RELAY_BIND_RATE_WINDOW <= clock
    end
}.

Lemma live_buckets_lookup b now k :
  live_buckets b now !! k =
    b !! k ≫= fun e => if bool_decide (duration_since now e.1 < RELAY_BIND_RATE_WINDOW) then Some e else None.
Proof.
  unfold live_buckets. rewrite map_lookup_filter. destruct (b !! k) as [e|]; simpl; [|done].
  unfold guard. destruct (decide _); case_bool_decide; done.
Qed.

Lemma attempt_step_ok clock steps st source rebind now :
  rate_ok clock steps st -> 0 <= steps -> steps + 1 < 2 ^ 32 -> clock <= now ->
  rate_ok now (steps + 1) (attempt_step src st (source, rebind, now)).
Proof.
  intros [Hl (pstart & start & older & prev & cur & Hlog & Hw & Hst & Hb)] H0 Hsteps Hc.
  destruct st as [r log]. simpl in *.
  assert (forall steps', steps <= steps' -> rate_ok now steps' (r, log)) as Hkeep.
  { intros steps' Hs. split; [done|]. exists pstart, start, older, prev, cur. split_and!; [done|done|lia|].
    simpl. destruct (bind_rate_buckets r !! src) as [[s n]|]; [destruct Hb as [-> Hb]; split; [done|lia]|lia]. }
  unfold allow_bind. rewrite Hl. destruct (Z.eqb_spec limit 0) as [|_]; [lia|].
  destruct rebind; simpl.
  { apply Hkeep. lia. }
  set (entry := default (now, 0) (bind_rate_buckets r !! source)).
  set (entry1 := if _ <=? _ then (now, 0) else entry).
  set (n' := (entry1.2 + 1) mod 2 ^ 32).
  set (buckets := <[source := (entry1.1, n')]> (bind_rate_buckets r)).
  assert (forall k, (if 4096 <? Z.of_nat (size buckets) then live_buckets buckets now else buckets) !! k =
                      buckets !! k \/
                    exists e, buckets !! k = Some e /\ RELAY_BIND_RATE_WINDOW <= duration_since now e.1 /\
                      (if 4096 <? Z.of_nat (size buckets) then live_buckets buckets now else buckets) !! k = None)
    as Hret.
  { intros k. destruct (4096 <? _); [|by left]. rewrite live_buckets_lookup.
    destruct (buckets !! k) as [e|]; simpl; [|by left]. case_bool_decide; [by left|].
    right. exists e. split_and!; [done|lia|done]. }
  destruct (String.eqb_spec source src) as [->|Hne].
  - assert (duration_since now entry1.1 < RELAY_BIND_RATE_WINDOW) as Hdur.
    { unfold entry1, duration_since, RELAY_BIND_RATE_WINDOW. destruct (Z.leb_spec 60 (Z.max (now - entry.1) 0)); simpl; lia. }
    destruct (Hret src) as [Hlk|(e & He & Hd & _)];
      [|unfold buckets in He; rewrite lookup_insert_eq in He; simplify_eq/=; lia].
    unfold buckets in Hlk at 4. rewrite lookup_insert_eq in Hlk.
    assert ((start + RELAY_BIND_RATE_WINDOW <= now /\ entry1 = (now, 0)) \/
            (now < start + RELAY_BIND_RATE_WINDOW /\ entry1.1 = start /\ zlen cur <= entry1.2 <= steps))
      as [[Hnew He1]|(Hold & He1 & Hn1)].
    { unfold entry1, entry, duration_since, RELAY_BIND_RATE_WINDOW in *.
      destruct (bind_rate_buckets r !! src) as [[s n]|]; simpl.
      - destruct Hb as [-> Hb]. destruct (Z.leb_spec 60 (Z.max (now - start) 0)); [left|right]; simpl; split_and!; try done; lia.
      - left. split; [lia|]. by destruct (60 <=? _). }
    + assert (n' = 1) as -> by (unfold n'; rewrite He1; done).
      rewrite He1 in *. simpl in *. destruct (Z.leb_spec 1 limit); [|lia]. simpl.
      split; [done|]. exists start, now, (older ++ prev), cur, [now]. split_and!; simpl.
      * rewrite Hlog. by rewrite <- !app_assoc.
      * by eapply windows_shift.
      * lia.
      * rewrite Hlk. unfold zlen. simpl. lia.
    + assert (n' = entry1.2 + 1) as Hn'.
      { unfold n'. apply Z.mod_small. pose proof (zlen_nonneg cur). lia. }
      destruct (Z.leb_spec n' limit); simpl; split; try done; simpl.
      * exists pstart, start, older, prev, (cur ++ [now]). split_and!.
        -- rewrite Hlog. by rewrite <- !app_assoc.
        -- destruct Hw. split; try done.
           ++ apply Forall_app. split; [done|]. apply Forall_cons. split; [lia|by apply Forall_nil].
           ++ rewrite zlen_app. unfold zlen at 2. simpl. lia.
        -- lia.
        -- rewrite Hlk, He1. split; [done|]. rewrite zlen_app. unfold zlen at 2. simpl. lia.
      * exists pstart, start, older, prev, cur. split_and!; [done|done|lia|]. rewrite Hlk, He1. split; [done|lia].
  - rewrite andb_false_r. split; [done|]. simpl. exists pstart, start, older, prev, cur. split_and!; [done|done|lia|].
    assert (buckets !! src = bind_rate_buckets r !! src) as Hsame by (unfold buckets; by rewrite lookup_insert_ne).
    destruct (Hret src) as [->|(e & He & Hd & ->)].
    + rewrite Hsame. destruct (bind_rate_buckets r !! src) as [[s n]|]; [destruct Hb as [-> Hb]; split; [done|lia]|lia].
    + rewrite Hsame in He. rewrite He in Hb. destruct e as [s n]. destruct Hb as [-> _]. simpl in Hd.
      unfold duration_since, RELAY_BIND_RATE_WINDOW in *. lia.
Qed.

Lemma attempts_ok atts clock steps st :
  rate_ok clock steps st -> 0 <= steps -> steps + zlen atts < 2 ^ 32 -> times_from clock atts ->
  exists clock' steps', rate_ok clock' steps' (foldl (attempt_step src) st atts).
Proof.
  revert clock steps st. induction atts as [|[[source rebind] now] atts IH]; intros clock steps st Hr H0 Hs Ht; [eauto|].
  rewrite zlen_cons in Hs. pose proof (zlen_nonneg atts). destruct Ht as [Hc Ht]. simpl foldl.
  eapply (IH now (steps + 1)); [|lia|lia|done]. apply attempt_step_ok with clock; [done|lia|lia|done].
Qed.
End rate.

(** In any sixty seconds, at most twice the configured limit of new bind
    attempts of one source are admitted, whatever other sources do and however
    the bucket table is pruned in between (for fewer than [2^32] attempts, the
    range of the counters, and a clock that does not run backwards). *)
Theorem relay_bind_rate_bounded limit src atts clock t :
  0 < limit -> zlen atts < 2 ^ 32 -> times_from clock atts ->
  count_window t (admitted_times limit src atts) <= 2 * limit.
Proof.
  intros Hl Hz Ht. unfold admitted_times.
  destruct (attempts_ok limit src Hl atts clock 0 (mkRelayRegistry ∅ limit ∅, [])) as (c' & s' & Hr); try done.
  { split; [done|]. exists (clock - 120), (clock - 60), [], [], []. unfold RELAY_BIND_RATE_WINDOW. split_and!; try done.
    - split; try done; unfold RELAY_BIND_RATE_WINDOW, zlen; simpl; try lia. intros x. unfold count_window, zlen. simpl. lia.
    - lia.
    - cbn [fst bind_rate_buckets]. rewrite lookup_empty. lia. }
  destruct Hr as [_ (pstart & start & older & prev & cur & -> & Hw & _)].
  by apply (windows_count limit pstart start).
Qed.

Lemma relay_bind_rate_bounded_witness :
  let atts := [("a", false, 10); ("a", false, 11); ("b", false, 12); ("a", false, 13); ("a", false, 71)] in
  admitted_times 2 "a" atts = [10; 11; 71] /\ count_window 11 (admitted_times 2 "a" atts) <= 4.
Proof.
  split; [vm_compute; reflexivity|].
  apply (relay_bind_rate_bounded 2 "a"
    [("a", false, 10); ("a", false, 11); ("b", false, 12); ("a", false, 13); ("a", false, 71)] 0 11).
  - lia.
  - vm_compute. reflexivity.
  - simpl. lia.
Defined.
