(* ===== verification/RelayExec.v ===== *)
(** * Concurrent relay handlers

    Executions of the bind handlers of [RelayBind.v] under every interleaving,
    and what holds of the registry and of the bind tickets in all of them. *)

From S2P Require Import Prelude Program Concurrent Text Json Cbor CodecModel Framing RelayWire DispatchTicket RelayBind.

(** ** Executions *)

Notation event := (Concurrent.event resp).

Definition relay_world_new (limit : Z) : relay_world :=
  mkWorld (mkRelayRegistry ∅ limit ∅) ∅ 0 ∅ ∅.

Definition close_session (w : relay_world) (ptr : nat) : relay_world :=
  mkWorld (w_registry w) (w_replay w) (w_next w) ({[ptr]} ∪ w_closed w) (w_last_pull w).
Definition pull_session (w : relay_world) (ptr : nat) (now : Z) : relay_world :=
  mkWorld (w_registry w) (w_replay w) (w_next w) (w_closed w) (<[ptr := now]> (w_last_pull w)).

Section executions.
Context {cbor_codec : CborCodec} {crypto : RelayCrypto}.
Context (cfg : relay_config) (limit : Z).

Inductive handler : prog -> Prop :=
| handler_tcp source : handler (handle_relay_connection cfg source)
| handler_bind payload : handler (relay_bind_endpoint cfg payload)
| handler_unbind token : handler (relay_unbind_endpoint token).

(** A connection's writer may fail and a worker may pull at any time. *)
Definition relay_env (w : relay_world) (t : Z) (w' : relay_world) : Prop :=
  (exists ptr, w' = close_session w ptr) \/ (exists ptr, w' = pull_session w ptr t).

Notation exec := (Concurrent.exec perform e_now handler relay_env (relay_world_new limit)).

(** The parts of the handlers outside the bind section do not matter to a ghost
    state with an invariant [I] that reading, writing and asking the time keep. *)
Definition neutral (a : action) : bool :=
  match a with ARead | AWrite _ | ANow | AByToken _ | AClose _ | AUnbind _ => true | _ => false end.

Section handlers_along.
Context {S : Type} (upd : S -> forall a, resp a -> S) (ok : S -> action -> Prop) (fin : S -> Prop) (I : S -> Prop).
Context (Hfin : forall s, I s -> fin s)
        (Hneutral : forall s a r, I s -> neutral a = true -> ok s a /\ I (upd s a r))
        (Htcp : forall s src wid claims, I s -> along upd ok (fun s (_ : outcome) => fin s) s (tcp_bind cfg src wid claims))
        (Hpoll : forall s payload wid claims, I s -> along upd ok (fun s (_ : outcome) => fin s) s (poll_bind payload wid claims)).

Lemma along_neutral s a k :
  I s -> neutral a = true -> resp a -> (forall s r, I s -> along upd ok (fun s (_ : outcome) => fin s) s (k r)) -> along upd ok (fun s (_ : outcome) => fin s) s (Act a k).
Proof.
  intros HI Ha r0 Hk. split; [apply (Hneutral s a r0 HI Ha)|]. intros r. apply Hk. by apply (Hneutral s a r).
Qed.

Lemma handlers_along s q : I s -> handler q -> along upd ok (fun s (_ : outcome) => fin s) s q.
Proof.
  intros HI [src|payload|token].
  - unfold handle_relay_connection. apply along_neutral; [done..|exact (Err EmptyString)|]. clear s HI.
    intros s [[mt pl]|e] HI; [|by apply Hfin]. destruct (negb _); [by apply Hfin|].
    apply along_neutral; [done..|exact (Ok tt)|]. clear s HI. intros s [u|e] HI; [|by apply Hfin].
    apply along_neutral; [done..|exact (Err EmptyString)|]. clear s HI.
    intros s [[mt2 pl2]|e] HI; [|by apply Hfin]. destruct (negb _); [by apply Hfin|].
    assert (forall s reason wid, I s -> along upd ok (fun s (_ : outcome) => fin s) s (nack wid reason)) as Hnack.
    { intros s' reason wid HI'. apply along_neutral; [done..|exact (Ok tt)|]. intros s'' r HI''. by apply Hfin. }
    unfold tcp_bind_request. destruct (cbor_decode_int_map pl2) as [body|]; [|by apply Hfin].
    destruct (str_is_empty _); [by apply Hfin|]. destruct (negb _).
    + destruct (bind_ticket_public_key_hex cfg); [|by apply Htcp].
      apply along_neutral; [done..|exact 0|]. intros s' n HI'.
      destruct (verify_relay_bind_ticket _ _ _ _ _); [by apply Htcp|by apply Hnack].
    + destruct (require_bind_ticket cfg); [by apply Hnack|by apply Htcp].
  - unfold relay_bind_endpoint. destruct (str_is_empty _); [by apply Hfin|]. destruct (_ && _).
    + apply along_neutral; [done..|exact 0|]. intros s' n HI'.
      destruct (verify_relay_bind_ticket _ _ _ _ _); [by apply Hpoll|by apply Hfin].
    + destruct (require_bind_ticket cfg); [by apply Hfin|by apply Hpoll].
  - unfold relay_unbind_endpoint. apply along_neutral; [done..|exact None|]. clear s HI.
    intros s [h|] HI; [|by apply Hfin]. apply along_neutral; [done..|exact tt|]. clear s HI. intros s _ HI.
    apply along_neutral; [done..|exact tt|]. clear s HI. intros s _ HI. by apply Hfin.
Qed.
End handlers_along.

(** ** Bind tickets *)

(** The tickets a handler has consumed. *)
Definition ticket_upd (s : list RelayBindTicketClaims) (a : action) : resp a -> list RelayBindTicketClaims :=
  match a return resp a -> list RelayBindTicketClaims with
  | AConsume c _ => fun ok => if ok then c :: s else s
  | _ => fun _ => s
  end.

(** A ticket the relay's key verified for a worker. *)
Definition ticket_for (key wid : string) (c : RelayBindTicketClaims) : Prop :=
  exists token now, verify_relay_bind_ticket token key wid (relay_node_id cfg) now = Some c.

Definition ticket_allowed (key : string) (s : list RelayBindTicketClaims) (a : action) : Prop :=
  match a with ABind wid _ => exists c, c ∈ s /\ ticket_for key wid c | _ => True end.

Notation ticketed key := (along ticket_upd (ticket_allowed key) (fun _ (_ : outcome) => True)).

Lemma bind_checks_ticketed key wid src c refuse accept :
  (forall r s, ticketed key s (refuse r)) -> ticketed key [c] accept ->
  ticketed key [] (bind_checks wid src (Some c) refuse accept).
Proof.
  intros Hr Ha. unfold bind_checks. split; [done|]. intros ex. cbn [ticket_upd].
  assert (ticketed key [] (bind_admit wid src (Some c) refuse accept)) as Hadm.
  { unfold bind_admit. simpl. split; [done|]. intros _. split; [done|]. intros _. split; [done|].
    intros [|]; simpl; [|apply Hr]. split; [done|]. intros [|]; simpl; [apply Hr|].
    split; [done|]. intros _. split; [done|]. intros [|]; [done|apply Hr]. }
  destruct ex as [s|]; [|exact Hadm]. split; [done|]. intros [|]; [apply Hr|exact Hadm].
Qed.

Lemma nack_ticketed key wid reason s : ticketed key s (nack wid reason).
Proof. by split. Qed.

Lemma http_refusal_ticketed key r s : ticketed key s (http_refusal r).
Proof. by destruct r. Qed.

Lemma tcp_bind_ticketed key src wid c :
  ticket_for key wid c -> ticketed key [] (tcp_bind cfg src wid (Some c)).
Proof.
  intros Hc. apply bind_checks_ticketed; [intros; apply nack_ticketed|].
  simpl. split; [done|]. intros s. split; [exists c; split; [left|done]|].
  intros _. split; [done|]. intros [u|e]; [|done]. repeat (split; [done|]; intros _). done.
Qed.

Lemma handlers_ticketed key q :
  require_bind_ticket cfg = true -> bind_ticket_public_key_hex cfg = Some key -> key <> EmptyString ->
  handler q -> ticketed key [] q.
Proof.
  intros Hreq Hkey Hne [src|payload|token].
  - unfold handle_relay_connection. split; [done|]. intros [[mt pl]|e]; [|done].
    destruct (negb _); [done|]. split; [done|]. intros [u|e]; [|done].
    split; [done|]. intros [[mt2 pl2]|e]; [|done]. destruct (negb _); [done|].
    unfold tcp_bind_request. destruct (cbor_decode_int_map pl2) as [body|]; [|done].
    destruct (str_is_empty _); [done|]. rewrite Hkey, Hreq.
    destruct (negb _); [|apply nack_ticketed]. split; [done|]. intros now. cbn [ticket_upd].
    destruct (verify_relay_bind_ticket _ _ _ _ _) as [c|] eqn:E; [|apply nack_ticketed].
    apply tcp_bind_ticketed. by eexists _, _.
  - unfold relay_bind_endpoint. destruct (str_is_empty _); [done|]. rewrite Hkey, Hreq. simpl default.
    destruct (_ && _); [|done]. split; [done|]. intros now. cbn [ticket_upd].
    destruct (verify_relay_bind_ticket _ _ _ _ _) as [c|] eqn:E; [|done].
    apply bind_checks_ticketed; [intros; apply http_refusal_ticketed|].
    simpl. split; [done|]. intros s. split; [|done]. exists c. split; [left|]. by eexists _, _.
  - unfold relay_unbind_endpoint. split; [done|]. intros [s|]; [|done]. repeat (split; [done|]; intros _). done.
Qed.

(** Handlers pass on the time they read. *)
Definition time_upd (s : Z) (a : action) : resp a -> Z :=
  match a return resp a -> Z with ANow => fun n => Z.max s n | _ => fun _ => s end.
Definition time_allowed (s : Z) (a : action) : Prop :=
  match a with AConsume _ now => now <= s | _ => True end.
Notation timed := (along time_upd time_allowed (fun _ (_ : outcome) => True)).

Lemma bind_checks_timed s wid src claims refuse accept :
  (forall r s, timed s (refuse r)) -> (forall s, timed s accept) ->
  timed s (bind_checks wid src claims refuse accept).
Proof.
  intros Hr Ha. unfold bind_checks. split; [done|]. intros ex. cbn [time_upd].
  assert (timed s (bind_admit wid src claims refuse accept)) as Hadm.
  { unfold bind_admit. simpl. split; [done|]. intros _. split; [done|]. intros n. split; [done|].
    intros [|]; simpl; [|apply Hr]. split; [done|]. intros [|]; simpl; [apply Hr|].
    destruct claims as [c|]; [|apply Ha]. split; [done|]. intros m. split; [simpl; lia|].
    intros [|]; [apply Ha|apply Hr]. }
  destruct ex as [x|]; [|exact Hadm]. split; [done|]. intros [|]; [apply Hr|exact Hadm].
Qed.

Lemma tcp_bind_timed s src wid claims : timed s (tcp_bind cfg src wid claims).
Proof.
  apply bind_checks_timed; [by split|]. intros s'. simpl. split; [done|]. intros h. split; [done|].
  intros _. split; [done|]. intros [u|e]; [|done]. repeat (split; [done|]; intros _). done.
Qed.
Lemma poll_bind_timed s payload wid claims : timed s (poll_bind payload wid claims).
Proof.
  apply bind_checks_timed; [by intros []|]. intros s'. simpl. split; [done|]. intros h. split; [done|]. done.
Qed.

Lemma handlers_timed q : handler q -> timed 0 q.
Proof.
  apply (handlers_along _ _ _ (fun _ => True)); try done.
  - intros s a r _ Ha. split; [|done]. by destruct a.
  - intros s src wid claims _. apply tcp_bind_timed.
  - intros s payload wid claims _. apply poll_bind_timed.
Qed.

(** The tickets consumed while they were valid. *)
Fixpoint spent (tr : list event) : list (string * Z) :=
  match tr with
  | [] => []
  | Ev _ t a r :: tr =>
      match a return resp a -> list (string * Z) with
      | AConsume c _ => fun ok => if ok && (t <? rc_exp c) then (rc_jti c, rc_exp c) :: spent tr else spent tr
      | _ => fun _ => spent tr
      end r
  end.

Lemma exec_time tr t w ts i : exec tr t w ts -> 0 <= t /\ ghost time_upd 0 i tr <= t.
Proof.
  induction 1 as [|tr t w ts p Hx IH Hh|tr t w w2 ts Hx IH Henv|tr t w ts j b k e q w' Hx IH Hp Ht Hw];
    try done.
  destruct IH as [H0 IH]. split; [lia|]. simpl. case_bool_decide; [|lia].
  destruct b; simpl in *; simplify_eq; lia.
Qed.

Lemma exec_replay tr t w ts : exec tr t w ts -> replay_ok t (w_replay w) (spent tr).
Proof.
  induction 1 as [|tr t w ts p Hx IH Hh|tr t w w2 ts Hx IH Henv|tr t w ts j b k e q w' Hx IH Hp Ht Hw];
    try done.
  - split; [by apply NoDup_nil_2|]. intros x y H%elem_of_nil. done.
  - by destruct Henv as [[ptr ->]|[ptr ->]].
  - apply (replay_ok_clock t (e_now e)) in IH; [|done].
    pose proof (exec_along _ _ _ 0 _ _ _ _ _ _ handlers_timed Hx Hp) as [Hn _].
    destruct (exec_time _ _ _ _ j Hx) as [_ Hg].
    destruct b; simpl in *; simplify_eq/=; try done.
    + destruct (allow_bind _ _ _ _) as [ok0 r0]. by simplify_eq.
    + destruct (consume_relay_bind_ticket _ _ _) as [ok0 seen] eqn:E. simplify_eq/=.
      eapply consume_replay_ok; [|done|exact E]. lia.
Qed.

Lemma ghost_tickets i tr c :
  c ∈ ghost ticket_upd [] i tr -> exists t now, Ev i t (AConsume c now) true ∈ tr.
Proof.
  induction tr as [|[j t a r] tr IH]; simpl; [by intros ?%elem_of_nil|].
  case_bool_decide as E.
  - subst j. intros Hc.
    assert (c ∈ ghost ticket_upd [] i tr \/ exists now, Ev i t a r = Ev i t (AConsume c now) true) as [H|[now H]].
    { destruct a; simpl in *; try (by left). destruct r; [|by left].
      apply elem_of_cons in Hc as [->|Hc]; [right; by eexists|by left]. }
    + destruct (IH H) as (t' & now & Hin). exists t', now. by right.
    + exists t, now. rewrite H. left.
  - intros H. destruct (IH H) as (t' & now & Hin). exists t', now. by right.
Qed.

(** On a relay that requires bind tickets and has the directory's key, under
    every interleaving of TCP and HTTP binds, a worker id is only ever bound by
    a handler that has consumed a ticket which the key verifies for exactly
    that worker; and no ticket is consumed twice while it is valid. *)
Theorem relay_bind_ticketed key tr t w ts :
  require_bind_ticket cfg = true -> bind_ticket_public_key_hex cfg = Some key -> key <> EmptyString ->
  exec tr t w ts ->
  NoDup (spent tr) /\
  forall tr2 i t' wid s tr1, tr = tr2 ++ Ev i t' (ABind wid s) tt :: tr1 ->
    exists c t0 now, Ev i t0 (AConsume c now) true ∈ tr1 /\ ticket_for key wid c /\ rc_sub c = wid.
Proof.
  intros Hreq Hkey Hne Hx. split; [apply (exec_replay tr t w ts Hx)|].
  intros tr2 i t' wid s tr1 ->.
  pose proof (exec_allowed ticket_upd (ticket_allowed key) (fun _ (_ : outcome) => True) [] tr2 tr1 t w ts i t' (ABind wid s) tt
    (fun q => handlers_ticketed key q Hreq Hkey Hne) Hx) as (c & Hc & Hfor).
  destruct (ghost_tickets i tr1 c Hc) as (t0 & now & Hin). exists c, t0, now. split; [done|]. split; [done|].
  destruct Hfor as (token & n & Hv). by apply verify_relay_sub in Hv as [-> _].
Qed.

(** ** Who owns a registered session *)

(** The TCP session a handler has bound and not given up. *)
Definition owner_upd (s : option (string * RelayWorkerSession)) (a : action)
    : resp a -> option (string * RelayWorkerSession) :=
  match a return resp a -> option (string * RelayWorkerSession) with
  | ABind wid (STcp h) => fun _ => Some (wid, h)
  | ASendRaw _ _ => fun r => if is_ok r then s else None
  | AUnbindSession _ _ => fun _ => None
  | _ => fun _ => s
  end.
Definition owner_allowed (s : option (string * RelayWorkerSession)) (a : action) : Prop :=
  match a with
  | ABind _ _ => s = None
  | ASendRaw h _ => exists wid, s = Some (wid, h)
  | AUnbindSession wid h => s = Some (wid, h)
  | _ => True
  end.
Notation owning := (along owner_upd owner_allowed (fun s (_ : outcome) => s = None)).

Lemma bind_checks_owning wid src claims refuse accept :
  (forall r, owning None (refuse r)) -> owning None accept -> owning None (bind_checks wid src claims refuse accept).
Proof.
  intros Hr Ha. unfold bind_checks. split; [done|]. intros ex. cbn [owner_upd].
  assert (owning None (bind_admit wid src claims refuse accept)) as Hadm.
  { unfold bind_admit. simpl. split; [done|]. intros _. split; [done|]. intros n. split; [done|].
    intros [|]; simpl; [|apply Hr]. split; [done|]. intros [|]; simpl; [apply Hr|].
    destruct claims as [c|]; [|apply Ha]. split; [done|]. intros m. split; [done|].
    intros [|]; [apply Ha|apply Hr]. }
  destruct ex as [x|]; [|exact Hadm]. split; [done|]. intros [|]; [apply Hr|exact Hadm].
Qed.

Lemma handlers_owning q : handler q -> owning None q.
Proof.
  apply (handlers_along _ _ _ (fun s => s = None)); try done.
  - intros s a r -> Ha. by destruct a.
  - intros s src wid claims ->. apply bind_checks_owning; [by intros []|].
    simpl. split; [done|]. intros h. split; [done|]. intros _. split; [by eexists|].
    intros [u|e]; [|done]. simpl. by repeat (split; [done|]; intros _).
  - intros s payload wid claims ->. apply bind_checks_owning; [by intros []|].
    simpl. split; [done|]. intros h. split; [done|]. done.
Qed.

(** The registry has a TCP session under a worker id. *)
Definition holds_tcp (w : relay_world) (wid : string) (h : RelayWorkerSession) : Prop :=
  sessions (w_registry w) !! wid = Some (STcp h).

Definition table_owned (tr : list event) (w : relay_world) (ts : list prog) : Prop :=
  forall wid h, sessions (w_registry w) !! wid = Some (STcp h) ->
    ws_ptr h ∈ w_closed w \/ exists i, (i < length ts)%nat /\ ghost owner_upd None i tr = Some (wid, h).

(** Actions that leave the table and the channels alone. *)
Lemma perform_sessions w e a r w' :
  perform w e a = (r, w') ->
  w_closed w ⊆ w_closed w' /\
  (sessions (w_registry w') =
     match a with
     | ABind wid s => <[wid := s]> (sessions (w_registry w))
     | AUnbind wid => delete wid (sessions (w_registry w))
     | AUnbindSession wid s => sessions (unbind_session (w_registry w) wid s)
     | _ => sessions (w_registry w)
     end).
Proof.
  intros E. destruct a; simpl in *; simplify_eq/=; try done.
  - unfold allow_bind in E. destruct (_ || _); simplify_eq/=; done.
  - destruct (consume_relay_bind_ticket _ _ _). simplify_eq/=. done.
  - split; [set_solver|done].
Qed.

Lemma unbind_session_lookup r wid s wid' x :
  sessions (unbind_session r wid s) !! wid' = Some x ->
  sessions r !! wid' = Some x /\ (wid' = wid -> forall h, x = STcp h -> ws_ptr h <> ws_ptr s).
Proof.
  unfold unbind_session. destruct (sessions r !! wid) as [[h|p]|] eqn:E; try naive_solver.
  case_bool_decide as Ep; simpl; [|naive_solver].
  destruct (decide (wid' = wid)) as [->|Hne]; [by rewrite lookup_delete_eq|].
  rewrite lookup_delete_ne by done. naive_solver.
Qed.

Lemma exec_owned tr t w ts : exec tr t w ts -> table_owned tr w ts.
Proof.
  induction 1 as [|tr t w ts p Hx IH Hh|tr t w w2 ts Hx IH Henv|tr t w ts i a k e r w' Hx IH Hp Ht Hw].
  - intros wid h H. done.
  - intros wid h H. destruct (IH wid h H) as [|(i & Hi & Hg)]; [by left|]. right. exists i.
    rewrite length_app. split; [simpl; lia|done].
  - destruct Henv as [[ptr ->]|[ptr ->]]; intros wid h H; [|by apply (IH wid h)].
    destruct (IH wid h H) as [|?]; [left; simpl; set_solver|by right].
  - pose proof (exec_along _ _ _ None _ _ _ _ _ _ handlers_owning Hx Hp) as [Hok _].
    assert (i < length ts)%nat as Hlt by (by eapply lookup_lt_Some).
    destruct (perform_sessions _ _ _ _ _ Hw) as [Hcl Hs].
    intros wid h H. rewrite length_insert. rewrite Hs in H.
    assert (forall wid h, sessions (w_registry w) !! wid = Some (STcp h) ->
      ws_ptr h ∈ w_closed w' \/
      exists j, (j < length ts)%nat /\ ghost owner_upd None j tr = Some (wid, h)) as IH'.
    { intros wid' h' H'. destruct (IH wid' h' H') as [|?]; [left; set_solver|by right]. }
    simpl ghost. destruct a as [ | | | | | | | |bw bs|sh f| |uw uh| | | | | ].
    9: { destruct (decide (wid = bw)) as [->|Hne].
         - rewrite lookup_insert_eq in H. injection H as ->. right. exists i. by rewrite bool_decide_true.
         - rewrite lookup_insert_ne in H by done. destruct (IH' _ _ H) as [?|(j & Hj & Hg)]; [by left|]. right.
           exists j. split; [done|]. case_bool_decide as E; [|done]. subst j. simpl in Hok. congruence. }
    9: { destruct (IH' _ _ H) as [?|(j & Hj & Hg)]; [by left|].
         destruct (decide (i = j)) as [<-|Hne]; [|right; exists j; by rewrite bool_decide_false].
         destruct Hok as [wid0 Hok]. simpl in Hw. injection Hw as <- <-.
         case_bool_decide as Ec; [left|right; exists i; by rewrite bool_decide_true].
         rewrite Hok in Hg. by simplify_eq. }
    10: { apply unbind_session_lookup in H as [H Hne]. destruct (IH' _ _ H) as [?|(j & Hj & Hg)]; [by left|].
         destruct (decide (i = j)) as [<-|Hne']; [|right; exists j; by rewrite bool_decide_false].
         simpl in Hok. rewrite Hok in Hg. simplify_eq. by destruct (Hne eq_refl h eq_refl). }
    10: apply lookup_delete_Some in H as [_ H].
    all: destruct (IH' _ _ H) as [?|(j & Hj & Hg)]; [by left|right; exists j; split; [done|]];
      case_bool_decide; by subst.
Qed.

Lemma ghost_owner_bound i tr wid h :
  ghost owner_upd None i tr = Some (wid, h) -> exists t, Ev i t (ABind wid (STcp h)) tt ∈ tr.
Proof.
  induction tr as [|[j t a r] tr IH]; [done|]. simpl. case_bool_decide as E.
  - subst j. intros Hg.
    assert (ghost owner_upd None i tr = Some (wid, h) \/ Ev i t a r = Ev i t (ABind wid (STcp h)) tt) as [H|H].
    { destruct a as [ | | | | | | | |bw [bs|bs]|sh f| | | | | | | ]; simpl in *; try (by left).
      - right. simplify_eq. by destruct r.
      - left. by destruct (is_ok r). }
    + destruct (IH H) as [t' Hin]. exists t'. by right.
    + exists t. rewrite H. left.
  - intros H. destruct (IH H) as [t' Hin]. exists t'. by right.
Qed.

(** Under every interleaving of accept handlers, bind and unbind requests,
    pulls and broken sockets, a TCP session in the registry is the one bound
    under that worker id by a handler that is still running, or its write
    channel is closed (and any later bind may replace it): no handler leaves its
    session behind, and none removes the session of a newer connection. *)
Theorem relay_table_live tr t w ts wid h :
  exec tr t w ts -> holds_tcp w wid h ->
  ws_ptr h ∈ w_closed w \/
  exists i t0 a k, Ev i t0 (ABind wid (STcp h)) tt ∈ tr /\ ts !! i = Some (Act a k).
Proof.
  intros Hx Hs. destruct (exec_owned _ _ _ _ Hx wid h Hs) as [|(i & Hi & Hg)]; [by left|]. right.
  destruct (ghost_owner_bound _ _ _ _ Hg) as [t0 Hin].
  apply lookup_lt_is_Some in Hi as [p Hp].
  pose proof (exec_along _ _ _ None _ _ _ _ _ _ handlers_owning Hx Hp) as Ha. rewrite Hg in Ha.
  destruct p as [o|a k]; [done|]. by exists i, t0, a, k.
Qed.

(** ** Binds that do not overlap *)

(** Where a handler stands in its bind section: it has seen an entry, found no
    live one, found room. *)
Inductive section := Idle | Looking (wid : string) (s : RelaySession) | Clear (wid : string) | Counted (wid : string).

Definition section_upd (s : section) (a : action) : resp a -> section :=
  match a return resp a -> section with
  | AGet wid => fun r => match s with Idle => match r with Some x => Looking wid x | None => Clear wid end | _ => s end
  | AIsAlive _ => fun alive => match s with Looking wid _ => if alive then Idle else Clear wid | _ => s end
  | AAllowBind _ _ _ => fun ok => if ok then s else Idle
  | AAtCapacity _ => fun full => if full then Idle else match s with Clear wid => Counted wid | _ => s end
  | AConsume _ _ => fun ok => if ok then s else Idle
  | ABind _ _ => fun _ => Idle
  | _ => fun _ => s
  end.
Definition section_allowed (s : section) (a : action) : Prop :=
  match a with
  | AIsAlive x => exists wid, s = Looking wid x
  | AAtCapacity wid => s = Clear wid
  | ABind wid _ => s = Counted wid
  | _ => True
  end.
Notation sectioned := (along section_upd section_allowed (fun s (_ : outcome) => s = Idle)).

Lemma bind_checks_sectioned wid src claims refuse accept :
  (forall r, sectioned Idle (refuse r)) -> sectioned (Counted wid) accept ->
  sectioned Idle (bind_checks wid src claims refuse accept).
Proof.
  intros Hr Ha. unfold bind_checks. split; [done|]. intros ex. cbn [section_upd].
  assert (sectioned (Clear wid) (bind_admit wid src claims refuse accept)) as Hadm.
  { unfold bind_admit. simpl. split; [done|]. intros _. split; [done|]. intros n. split; [done|].
    intros [|]; simpl; [|apply Hr]. split; [done|]. intros [|]; simpl; [apply Hr|].
    destruct claims as [c|]; [|apply Ha]. split; [done|]. intros m. split; [done|].
    intros [|]; [apply Ha|apply Hr]. }
  destruct ex as [x|]; [|exact Hadm]. split; [by exists wid|]. intros [|]; [apply Hr|exact Hadm].
Qed.

Lemma handlers_sectioned q : handler q -> sectioned Idle q.
Proof.
  apply (handlers_along _ _ _ (fun s => s = Idle)); try done.
  - intros s a r -> Ha. by destruct a.
  - intros s src wid claims ->. apply bind_checks_sectioned; [by intros []|].
    simpl. split; [done|]. intros h. split; [done|]. intros _. split; [done|].
    intros [u|e]; [|done]. by repeat (split; [done|]; intros _).
  - intros s payload wid claims ->. apply bind_checks_sectioned; [by intros []|].
    simpl. split; [done|]. intros h. split; [done|]. done.
Qed.

(** At no time were two handlers inside their bind sections. *)
Definition serialized (tr : list event) : Prop :=
  forall tr2 tr1 i j, tr = tr2 ++ tr1 ->
    ghost section_upd Idle i tr1 <> Idle -> ghost section_upd Idle j tr1 <> Idle -> i = j.

Definition replaceable (w : relay_world) (wid : string) : Prop :=
  forall h, sessions (w_registry w) !! wid = Some (STcp h) -> ws_ptr h ∈ w_closed w.

Definition section_ok (w : relay_world) (s : section) : Prop :=
  match s with
  | Idle => True
  | Looking wid x => sessions (w_registry w) !! wid = None \/ sessions (w_registry w) !! wid = Some x
  | Clear wid => replaceable w wid
  | Counted wid => replaceable w wid /\
      (is_Some (sessions (w_registry w) !! wid) \/ Z.of_nat (size (sessions (w_registry w))) < MAX_RELAY_SESSIONS)
  end.

Lemma map_size_delete_le {A} (m : gmap string A) k : (size (delete k m) <= size m)%nat.
Proof. rewrite map_size_delete. destruct (m !! k); simpl; lia. Qed.

(** Removing entries and closing channels keeps it. *)
Lemma section_ok_shrink w w' s :
  w_closed w ⊆ w_closed w' ->
  (sessions (w_registry w') = sessions (w_registry w) \/
   exists k, sessions (w_registry w') = delete k (sessions (w_registry w))) ->
  Z.of_nat (size (sessions (w_registry w))) <= MAX_RELAY_SESSIONS ->
  section_ok w s -> section_ok w' s.
Proof.
  intros Hc Hs Hz. assert (forall wid, replaceable w wid -> replaceable w' wid) as Hr.
  { intros wid H h Hh. apply Hc, H. destruct Hs as [Hs|[k Hs]]; rewrite Hs in Hh; [done|].
    by apply lookup_delete_Some in Hh as [_ ?]. }
  destruct s as [|wid x|wid|wid]; simpl; [done| |by apply Hr|].
  - destruct Hs as [->|[k ->]]; [done|]. intros H.
    destruct (decide (k = wid)) as [->|]; [left; by rewrite lookup_delete_eq|by rewrite lookup_delete_ne].
  - intros [H1 H2]. split; [by apply Hr|]. destruct Hs as [->|[k ->]]; [done|].
    destruct (decide (k = wid)) as [->|].
    + right. destruct H2 as [[x Hx]|H2].
      * pose proof (map_size_delete_Some wid (sessions (w_registry w)) ltac:(by eexists)) as E.
        assert (size (sessions (w_registry w)) <> 0)%nat.
        { intros H0%map_size_empty_inv. by rewrite H0 in Hx. }
        lia.
      * pose proof (map_size_delete_le (sessions (w_registry w)) wid). lia.
    + rewrite lookup_delete_ne by done. destruct H2 as [H2|H2]; [by left|right].
      pose proof (map_size_delete_le (sessions (w_registry w)) k). lia.
Qed.

Definition sections_ok (tr : list event) (w : relay_world) : Prop :=
  Z.of_nat (size (sessions (w_registry w))) <= MAX_RELAY_SESSIONS /\
  forall i, section_ok w (ghost section_upd Idle i tr).

Lemma unbind_session_delete r wid s :
  sessions (unbind_session r wid s) = sessions r \/ exists k, sessions (unbind_session r wid s) = delete k (sessions r).
Proof.
  unfold unbind_session. destruct (sessions r !! wid) as [[h|p]|]; [|by left..].
  case_bool_decide; [right; by exists wid|by left].
Qed.

(** A performed action other than a bind only removes entries. *)
Lemma perform_shrinks w e a r w' :
  perform w e a = (r, w') -> (forall wid s, a <> ABind wid s) ->
  w_closed w ⊆ w_closed w' /\
  (sessions (w_registry w') = sessions (w_registry w) \/
   exists k, sessions (w_registry w') = delete k (sessions (w_registry w))).
Proof.
  intros E Hb. destruct (perform_sessions _ _ _ _ _ E) as [Hc Hs]. split; [done|]. rewrite Hs.
  destruct a; try (by left); [by destruct (Hb worker_id s)|apply unbind_session_delete|right; by eexists].
Qed.

(** The acting handler's own step. *)
Lemma section_step w e a r w' s :
  perform w e a = (r, w') -> (forall wid x, a <> ABind wid x) -> section_allowed s a ->
  Z.of_nat (size (sessions (w_registry w))) <= MAX_RELAY_SESSIONS ->
  section_ok w s -> section_ok w' (section_upd s a r).
Proof.
  intros E Hb Ha Hz Hok. destruct (perform_shrinks _ _ _ _ _ E Hb) as [Hc Hs].
  apply (section_ok_shrink w w' s Hc Hs Hz) in Hok as Hok'.
  destruct a; simpl in *; try exact Hok'.
  - destruct s; try exact Hok'. injection E as <- <-. destruct (sessions _ !! worker_id) as [x|] eqn:Ex; simpl; [by right|].
    intros h Hh. congruence.
  - destruct Ha as [wid ->]. injection E as <- <-. destruct (is_alive w s0 (e_now e)) eqn:El; [done|].
    intros h Hh. destruct Hok as [Hok|Hok]; [congruence|]. rewrite Hok in Hh. simplify_eq. simpl in El.
    by apply bool_decide_eq_false, dec_stable in El.
  - by destruct r.
  - injection E as <- <-. subst s. unfold at_capacity.
    destruct (negb _ && _) eqn:Ef; [done|]. simpl. split; [done|].
    destruct (sessions (w_registry w) !! worker_id) as [x|]; [left; by eexists|right].
    simpl in Ef. by apply Z.leb_gt in Ef.
  - by destruct r.
  - by destruct (Hb worker_id s0).
Qed.

Lemma exec_sections tr t w ts : exec tr t w ts -> serialized tr -> sections_ok tr w.
Proof.
  induction 1 as [|tr t w ts p Hx IH Hh|tr t w w2 ts Hx IH Henv|tr t w ts i a k e r w' Hx IH Hp Ht Hw];
    intros Hser; try by auto.
  - destruct (IH Hser) as [Hz Hs]. destruct Henv as [[ptr ->]|[ptr ->]]; split; try done; intros i;
      (apply (section_ok_shrink w); [simpl; set_solver|by left|done|apply Hs]).
  - assert (serialized tr) as Hser'.
    { intros tr2 tr1 x y ->. apply (Hser (Ev i (e_now e) a r :: tr2)). done. }
    destruct (IH Hser') as [Hz Hs]. specialize (Hser' [] tr).
    pose proof (exec_along _ _ _ Idle _ _ _ _ _ _ handlers_sectioned Hx Hp) as [Hok _].
    assert ((exists wid x, a = ABind wid x) \/ forall wid x, a <> ABind wid x) as [(wid & x & ->)|Hb].
    { destruct a; try (right; by intros). left. by eexists _, _. }
    + simpl in Hw, Hok. simplify_eq/=. pose proof (Hs i) as Hi. rewrite Hok in Hi. destruct Hi as [Hrep Hroom].
      split; simpl.
      * rewrite map_size_insert. destruct (sessions (w_registry w) !! wid); [done|].
        destruct Hroom as [[? ?]|?]; [done|lia].
      * intros j. case_bool_decide as E; [done|]. destruct (ghost section_upd Idle j tr) eqn:Ej; try done;
          destruct E; apply Hser'; rewrite ?Ej, ?Hok; done.
    + destruct (perform_shrinks _ _ _ _ _ Hw Hb) as [Hc Hsh]. split.
      * destruct Hsh as [->|[q ->]]; [done|]. pose proof (map_size_delete_le (sessions (w_registry w)) q). lia.
      * intros j. simpl. case_bool_decide as E.
        -- subst j. by eapply section_step.
        -- by apply (section_ok_shrink w).
Qed.

(** As long as no two bind handlers are between their first look at the
    registry and their bind at the same time, the registry never holds more
    than 256 sessions, and a bind never displaces a TCP session whose write
    channel is open. *)
Theorem relay_bind_guarded tr t w ts :
  exec tr t w ts -> serialized tr ->
  Z.of_nat (size (sessions (w_registry w))) <= MAX_RELAY_SESSIONS /\
  forall i wid s k h, ts !! i = Some (Act (ABind wid s) k) ->
    sessions (w_registry w) !! wid = Some (STcp h) -> ws_ptr h ∈ w_closed w.
Proof.
  intros Hx Hser. destruct (exec_sections _ _ _ _ Hx Hser) as [Hz Hs]. split; [done|].
  intros i wid s k h Hp. pose proof (exec_along _ _ _ Idle _ _ _ _ _ _ handlers_sectioned Hx Hp) as [Hok _].
  simpl in Hok. specialize (Hs i). rewrite Hok in Hs. apply Hs.
Qed.
End executions.

(** ** Running a schedule *)

Notation sched := (Concurrent.sched resp outcome env).
Notation run_sched limit := (Concurrent.run_sched perform e_now (relay_world_new limit)).

Section running.
Context {cbor_codec : CborCodec} {crypto : RelayCrypto}.

(** With a single acting handler nothing overlaps. *)
Lemma serialized_single i tr :
  Forall (fun ev => match ev with Ev j _ _ _ => j = i end) tr -> serialized tr.
Proof.
  intros Hf tr2 tr1 x y ->. apply Forall_app in Hf as [_ Hf]. rewrite Forall_forall in Hf.
  assert (forall z, ghost section_upd Idle z tr1 <> Idle -> z = i) as Hz.
  { intros z Hz. destruct (decide (z = i)) as [|Hne]; [done|]. destruct Hz. apply ghost_unused.
    intros t a r Hin. apply Hne. by apply (Hf _ Hin). }
  intros Hx Hy. by rewrite (Hz x Hx), (Hz y Hy).
Qed.
End running.

(** *** A worker that binds with a ticket *)

Definition demo_claims : RelayBindTicketClaims :=
  mkRelayClaims 1 "relay-bind-ticket" (repeat_str 32 "a") "dir" "w1" "*" 1 100.
#[export] Instance toy_crypto : RelayCrypto := {|
  relay_ed25519_verify := toy_verify;
  relay_hex_decode s := Some (repeat x69 (String.length s / 2));
  relay_b64url_decode := toy_decode;
  relay_parse_claims _ := Some demo_claims
|}.
Definition demo_key : string := repeat_str 64 "0".
Definition demo_relay : relay_config := mkRelayConfig 9484 true (Some demo_key) "relay-1".
Definition demo_token : string := "p." +:+ repeat_str 128 "0".
Definition demo_bind_payload : list byte :=
  cbor_encode_int_map [(1, CText "w1"); (2, CText "chat"); (4, CText demo_token)].

Definition demo_env (f : result (byte * list byte) string) : env := mkEnv 10 f (Ok tt) "tok".
Definition demo_steps : list sched :=
  inl (handle_relay_connection demo_relay "10.0.0.1")
  :: ((fun f => inr (0%nat, demo_env f)) <$>
      ([Ok (MT_INIT, []); Ok (MT_ACK, []); Ok (MT_RELAY_BIND, demo_bind_payload)]
       ++ repeat (Err EmptyString) 10)).

Lemma demo_steps_handlers :
  Forall (fun x => match x with inl p => handler demo_relay p | inr _ => True end) demo_steps.
Proof.
  apply Forall_cons. split; [constructor|]. apply Forall_fmap. apply Forall_forall. done.
Qed.

Definition demo_sys : sys resp outcome relay_world := run_sched 30 demo_steps.
Definition demo_events : list event := demo_sys.1.1.1.
Definition demo_world : relay_world := demo_sys.1.2.

Lemma demo_exec :
  exec perform e_now (handler demo_relay) relay_env (relay_world_new 30) demo_events demo_sys.1.1.2 demo_world demo_sys.2.
Proof.
  pose proof (run_sched_exec (perform:=perform) (now:=e_now) relay_env (w0:=relay_world_new 30) demo_steps demo_steps_handlers) as Hx.
  unfold demo_events, demo_world, demo_sys. by destruct (run_sched 30 demo_steps) as [[[tr t] w] ts].
Qed.

Lemma relay_bind_ticketed_witness :
  NoDup (spent demo_events) /\ spent demo_events = [(rc_jti demo_claims, 100)] /\
  exists tr1 s c t0 now, demo_events = Ev 0 10 (ABind "w1" s) tt :: tr1 /\
    Ev 0 t0 (AConsume c now) true ∈ tr1 /\ rc_sub c = "w1".
Proof.
  destruct (relay_bind_ticketed demo_relay 30 demo_key _ _ _ _ eq_refl eq_refl
    ltac:(discriminate) demo_exec) as [Hn Hb].
  split; [exact Hn|]. split; [vm_compute; reflexivity|].
  assert (demo_events = [] ++ Ev 0 10 (ABind "w1" (STcp (mkWorker "w1" 0))) tt :: tail demo_events) as E
    by (vm_compute; reflexivity).
  destruct (Hb [] 0%nat 10 "w1" (STcp (mkWorker "w1" 0)) (tail demo_events) E) as (c & t0 & now & Hin & _ & Hsub).
  eexists _, _, c, t0, now. split; [exact E|]. split; [exact Hin|exact Hsub].
Defined.

Lemma relay_table_live_witness :
  0%nat ∈ w_closed demo_world \/
  exists i t0 a k, Ev i t0 (ABind "w1" (STcp (mkWorker "w1" 0))) tt ∈ demo_events /\ demo_sys.2 !! i = Some (Act a k).
Proof.
  apply (relay_table_live demo_relay 30 _ _ _ _ "w1" (mkWorker "w1" 0) demo_exec). vm_compute. reflexivity.
Defined.

Lemma relay_bind_guarded_witness :
  size (sessions (w_registry demo_world)) = 1%nat /\
  Z.of_nat (size (sessions (w_registry demo_world))) <= MAX_RELAY_SESSIONS.
Proof.
  destruct (relay_bind_guarded demo_relay 30 _ _ _ _ demo_exec) as [Hz _].
  - apply (serialized_single 0). apply Forall_forall. intros ev Hin.
    assert ((fun ev => match ev with Ev j _ _ _ => j end) <$> demo_events = repeat 0%nat 13) as E
      by (vm_compute; reflexivity).
    apply (list_elem_of_fmap_2 (fun ev => match ev with Ev j _ _ _ => j end)) in Hin. rewrite E in Hin.
    destruct ev. apply list_elem_of_In, repeat_spec in Hin. exact Hin.
  - split; [vm_compute; reflexivity|exact Hz].
Defined.

(** *** A required ticket without a key

    The TCP handler verifies a ticket only when a key is configured: with
    [require_bind_ticket] set and no key, any non-empty ticket text binds (the
    HTTP endpoint refuses it). *)
Definition keyless_relay : relay_config := mkRelayConfig 9484 true None "relay-1".
Definition keyless_steps : list sched :=
  inl (handle_relay_connection keyless_relay "10.0.0.1")
  :: ((fun f => inr (0%nat, demo_env f)) <$>
      ([Ok (MT_INIT, []); Ok (MT_ACK, []);
        Ok (MT_RELAY_BIND, cbor_encode_int_map [(1, CText "w1"); (4, CText "anything")])]
       ++ repeat (Err EmptyString) 7)).

Example relay_unverified_ticket_binds :
  let '(tr, _, w, _) := run_sched 30 keyless_steps in
  sessions (w_registry w) !! "w1" = Some (STcp (mkWorker "w1" 0)) /\ spent tr = [] /\ w_replay w = ∅.
Proof. vm_compute. done. Qed.

Example relay_http_refuses_unverified :
  relay_bind_endpoint keyless_relay (mk_obj [("worker_id", JString "w1"); ("bind_ticket", JString "anything")]) =
    http_error 401 "IICP-E040" "relay bind ticket required".
Proof. reflexivity. Qed.
