(* ===== verification/HttpResource.v ===== *)
(** * HTTP task resource boundary ([src/http_resource.rs])

    Header and size checks of the [POST /v1/task] binding.  A [HeaderMap] is the
    sequence of its fields, names in lower case; a value is the answer of
    [to_str()], [None] where the bytes are not visible ASCII. *)

From S2P Require Import Prelude Text Json.

Definition MAX_HTTP_TASK_BODY_BYTES : Z := 1048576.

Record HttpResourceError := mkResourceError { he_status : Z; he_code : string; he_message : string }.

Definition HeaderMap : Type := list (string * option string).
Definition get_all (headers : HeaderMap) (name : string) : list (option string) :=
  snd <$> filter (fun f => f.1 = name) headers.
Definition contains_key (headers : HeaderMap) (name : string) : bool :=
  existsb (fun f => f.1 ==? name) headers.

(** [headers.get(name)] as text *)
Definition header_str (headers : HeaderMap) (name : string) : option string := mjoin (head (get_all headers name)).

Fixpoint split_values (values : list (option string)) : result (list string) HttpResourceError :=
  match values with
  | [] => Ok []
  | None :: _ => Err (mkResourceError 400 "invalid_http_body" "invalid HTTP header")
  | Some value :: rest =>
      rbind (split_values rest) (fun tail => Ok ((trim <$> str_split "," value) ++ tail))
  end.
Definition split_header_values (headers : HeaderMap) (name : string) : result (list string) HttpResourceError :=
  split_values (get_all headers name).

Definition eq_ignore_ascii_case (a b : string) : bool := to_ascii_lowercase a ==? to_ascii_lowercase b.

Definition validate_identity_encoding (headers : HeaderMap) : result unit HttpResourceError :=
  rbind (split_header_values headers "content-encoding") (fun encodings =>
    if existsb (fun value => negb (eq_ignore_ascii_case value "identity")) encodings
    then Err (mkResourceError 415 "unsupported_content_encoding"
                "supported HTTP task binding accepts identity encoding only")
    else Ok tt).

Definition invalid_content_length (message : string) : HttpResourceError :=
  mkResourceError 400 "invalid_http_body" message.

(** The value of a string of decimal digits. *)
Definition decimal (value : string) : Z :=
  foldl (fun n c => n * 10 + (code c - 48)) 0 (String.list_ascii_of_string value).

(** [parse::<usize>] fails beyond 64 bits. *)
Definition parse_content_length_value (value : string) : result Z HttpResourceError :=
  if str_is_empty value || negb (str_all is_ascii_digit value)
  then Err (invalid_content_length "invalid Content-Length")
  else if decimal value <=? u64_max then Ok (decimal value)
  else Err (invalid_content_length "invalid Content-Length").

(** [windows(2).any(|p| p[0] != p[1])] *)
Fixpoint windows_differ (values : list Z) : bool :=
  match values with
  | a :: (b :: _) as rest => negb (a =? b) || windows_differ rest
  | _ => false
  end.
Definition require_matching_content_lengths (values : list Z) : result unit HttpResourceError :=
  if windows_differ values then Err (mkResourceError 400 "invalid_http_body" "conflicting Content-Length")
  else Ok tt.

(** [collect::<Result<_, _>>()]: the first error wins. *)
Fixpoint collect_results {A B E} (f : A -> result B E) (l : list A) : result (list B) E :=
  match l with
  | [] => Ok []
  | a :: l => rbind (f a) (fun b => rbind (collect_results f l) (fun bs => Ok (b :: bs)))
  end.

Definition content_length (headers : HeaderMap) : result (option Z) HttpResourceError :=
  rbind (split_header_values headers "content-length") (fun values =>
    match values with
    | [] => Ok None
    | _ =>
        rbind (collect_results parse_content_length_value values) (fun parsed =>
          rbind (require_matching_content_lengths parsed) (fun _ => Ok (head parsed)))
    end).

Definition too_large (status : Z) (code what : string) : HttpResourceError :=
  mkResourceError status code
    ("encoded task " +:+ what +:+ " exceeds " +:+ pretty MAX_HTTP_TASK_BODY_BYTES +:+ " bytes").

Definition validate_request_headers (headers : HeaderMap) : result unit HttpResourceError :=
  rbind (validate_identity_encoding headers) (fun _ =>
  rbind (content_length headers) (fun length =>
    if contains_key headers "transfer-encoding" && is_some length
    then Err (mkResourceError 400 "invalid_http_body" "Content-Length and Transfer-Encoding cannot be combined")
    else if is_some_and length (fun value => MAX_HTTP_TASK_BODY_BYTES <? value)
    then Err (too_large 413 "request_too_large" "request")
    else Ok tt)).

Definition validate_response_headers (headers : HeaderMap) : result unit HttpResourceError :=
  rbind (validate_identity_encoding headers) (fun _ =>
  rbind (content_length headers) (fun length =>
    if is_some_and length (fun value => MAX_HTTP_TASK_BODY_BYTES <? value)
    then Err (too_large 500 "response_too_large" "response")
    else Ok tt)).

(** [encode_request] at a [serde_json::Value], whose [to_vec] cannot fail. *)
Definition encode_request (to_vec : json -> list byte) (value : json) : result (list byte) HttpResourceError :=
  let body := to_vec value in
  if MAX_HTTP_TASK_BODY_BYTES <? zlen body then Err (too_large 413 "request_too_large" "request") else Ok body.

(** [to_bytes(body, limit)] of axum reads a body up to a limit. *)
Definition read_request_body {Body} (to_bytes : Body -> Z -> option (list byte)) (headers : HeaderMap) (body : Body)
    : result (list byte) HttpResourceError :=
  rbind (validate_request_headers headers) (fun _ =>
    ok_or (to_bytes body MAX_HTTP_TASK_BODY_BYTES) (too_large 413 "request_too_large" "request")).

(** ** What passes *)

(** The comma-separated values a field carries, over all its occurrences. *)
Definition field_values (headers : HeaderMap) (name : string) (values : list string) : Prop :=
  exists raw, get_all headers name = Some <$> raw /\ values = raw ≫= fun v => trim <$> str_split "," v.

(** The one length the [Content-Length] fields agree on, if there are any. *)
Definition declared_length (headers : HeaderMap) (len : option Z) : Prop :=
  exists values, field_values headers "content-length" values /\
    match len with
    | None => values = []
    | Some n => values <> [] /\ n <= u64_max /\
        Forall (fun v => v <> EmptyString /\ str_all is_ascii_digit v = true /\ decimal v = n) values
    end.

Definition identity_only (headers : HeaderMap) : Prop :=
  exists values, field_values headers "content-encoding" values /\
    Forall (fun v => to_ascii_lowercase v = "identity") values.

Lemma split_values_spec l values :
  split_values l = Ok values <-> exists raw, l = Some <$> raw /\ values = raw ≫= fun v => trim <$> str_split "," v.
Proof.
  revert values. induction l as [|[v|] l IH]; intros values; cbn [split_values].
  - split; [intros [= <-]; by exists []|]. intros ([|] & [=] & ->). done.
  - rewrite rbind_Ok. split.
    + intros (tail & Ht & [= <-]). apply IH in Ht as (raw & -> & ->). by exists (v :: raw).
    + intros ([|v' raw] & [= <- ->] & ->). exists (raw ≫= fun v => trim <$> str_split "," v).
      split; [|done]. apply IH. by exists raw.
  - split; [done|]. by intros ([|? ?] & [=] & _).
Qed.

Lemma identity_encoding_spec headers : validate_identity_encoding headers = Ok tt <-> identity_only headers.
Proof.
  unfold validate_identity_encoding, identity_only, field_values. rewrite rbind_Ok.
  apply exist_proper. intros values. unfold split_header_values. rewrite split_values_spec.
  enough ((if existsb (fun v => negb (eq_ignore_ascii_case v "identity")) values
           then Err (A:=unit) (mkResourceError 415 "unsupported_content_encoding"
                "supported HTTP task binding accepts identity encoding only")
           else Ok tt) = Ok tt <-> Forall (fun v => to_ascii_lowercase v = "identity") values) as H by by rewrite H.
  induction values as [|v values IH]; simpl; [done|]. rewrite Forall_cons, <- IH. unfold eq_ignore_ascii_case.
  change (to_ascii_lowercase "identity") with "identity".
  destruct (String.eqb_spec (to_ascii_lowercase v) "identity"); simpl; [by split; [|intros [_ ?]]|].
  by split; [|intros [? _]].
Qed.

Lemma parse_length_spec v n :
  parse_content_length_value v = Ok n <->
  v <> EmptyString /\ str_all is_ascii_digit v = true /\ decimal v = n /\ n <= u64_max.
Proof.
  unfold parse_content_length_value, str_is_empty. destruct (String.eqb_spec v empty_str) as [->|Hv]; simpl.
  { split; [done|]. by intros (? & _). }
  destruct (str_all is_ascii_digit v); simpl; [|by split; [|intros (_ & ? & _)]].
  destruct (Z.leb_spec (decimal v) u64_max); split; try done.
  - by intros [= <-].
  - by intros (_ & _ & -> & _).
  - intros (_ & _ & <- & ?). lia.
Qed.

Lemma collect_nonempty {A B E} (f : A -> result B E) a l : collect_results f (a :: l) <> Ok [].
Proof. simpl. destruct (f a); simpl; [|done]. by destruct (collect_results f l). Qed.

Lemma collect_same values n :
  (exists parsed, collect_results parse_content_length_value values = Ok parsed /\
     windows_differ parsed = false /\ head parsed = Some n) <->
  values <> [] /\ n <= u64_max /\
    Forall (fun v => v <> EmptyString /\ str_all is_ascii_digit v = true /\ decimal v = n) values.
Proof.
  induction values as [|v values IH]; [split; [intros (? & [= <-] & _ & [=])|by intros (? & _)]|].
  cbn [collect_results]. setoid_rewrite rbind_Ok. setoid_rewrite rbind_Ok. split.
  - intros (parsed & (m & Hm & parsed' & Hp & [= <-]) & Hw & [= ->]). apply parse_length_spec in Hm as (? & ? & ? & ?).
    split; [done|]. split; [done|]. constructor; [done|]. destruct values as [|v' values]; [constructor|].
    apply IH. exists parsed'. split; [done|]. destruct parsed' as [|m' parsed'].
    { by apply collect_nonempty in Hp. }
    cbn [windows_differ] in Hw. apply orb_false_iff in Hw as [He%negb_false_iff%Z.eqb_eq Hw]. by rewrite He.
  - intros (_ & Hn & [Hv Hvs]%Forall_cons). destruct Hv as (? & ? & Hd).
    assert (parse_content_length_value v = Ok n) as Hp by by apply parse_length_spec.
    destruct values as [|v' values].
    + exists [n]. split; [|done]. exists n. split; [done|]. by exists [].
    + destruct (proj2 IH) as (parsed & Hc & Hw & Hh); [done|]. exists (n :: parsed). split.
      { exists n. split; [done|]. by exists parsed. }
      split; [|done]. destruct parsed as [|m parsed]; [done|]. injection Hh as ->. cbn [windows_differ].
      by rewrite Z.eqb_refl.
Qed.

Lemma content_length_spec headers len : content_length headers = Ok len <-> declared_length headers len.
Proof.
  unfold content_length, declared_length, split_header_values, field_values. rewrite rbind_Ok.
  apply exist_proper. intros values. rewrite split_values_spec. apply and_iff_compat_l.
  destruct values as [|v values].
  { destruct len; split; try done. by intros (? & _). }
  rewrite rbind_Ok. unfold require_matching_content_lengths. split.
  - intros (parsed & Hc & Hr). destruct (windows_differ parsed) eqn:E; [done|]. injection Hr as <-.
    destruct parsed as [|n parsed]; [by apply collect_nonempty in Hc|].
    apply collect_same. by exists (n :: parsed).
  - destruct len as [n|]; [|done]. intros (parsed & Hc & Hw & Hh)%collect_same. exists parsed. split; [done|].
    rewrite Hw. simpl. by rewrite Hh.
Qed.

(** The HTTP resource boundary is exact.  Response headers pass if and only
    if every content coding is identity and the content lengths, if any, agree
    on one number within the limit; request headers pass if and only if,
    besides, no transfer coding accompanies a content length; and an encoded
    request is never longer than the limit. *)
Theorem http_boundary_exact headers to_vec value body :
  (validate_response_headers headers = Ok tt <->
     identity_only headers /\ exists len, declared_length headers len /\
       (forall n, len = Some n -> n <= MAX_HTTP_TASK_BODY_BYTES)) /\
  (validate_request_headers headers = Ok tt <->
     identity_only headers /\ exists len, declared_length headers len /\
       (forall n, len = Some n -> n <= MAX_HTTP_TASK_BODY_BYTES /\ contains_key headers "transfer-encoding" = false)) /\
  (encode_request to_vec value = Ok body <-> body = to_vec value /\ zlen body <= MAX_HTTP_TASK_BODY_BYTES).
Proof.
  split; [|split].
  - unfold validate_response_headers. rewrite rbind_Ok.
    setoid_rewrite <- content_length_spec. rewrite <- identity_encoding_spec. split.
    + intros ([] & Hi & Hl). split; [done|]. apply rbind_Ok in Hl as (len & Hc & Hl). exists len. split; [done|].
      intros n ->. simpl in Hl. destruct (Z.ltb_spec MAX_HTTP_TASK_BODY_BYTES n); [done|lia].
    + intros (Hi & len & Hc & Hl). exists tt. split; [done|]. rewrite Hc. simpl. destruct len as [n|]; [|done].
      specialize (Hl n eq_refl). simpl. destruct (Z.ltb_spec MAX_HTTP_TASK_BODY_BYTES n); [lia|done].
  - unfold validate_request_headers. rewrite rbind_Ok.
    setoid_rewrite <- content_length_spec. rewrite <- identity_encoding_spec. split.
    + intros ([] & Hi & Hl). split; [done|]. apply rbind_Ok in Hl as (len & Hc & Hl). exists len. split; [done|].
      intros n ->. simpl in Hl. rewrite andb_true_r in Hl. destruct (contains_key headers _); [done|].
      destruct (Z.ltb_spec MAX_HTTP_TASK_BODY_BYTES n); [done|split; [lia|done]].
    + intros (Hi & len & Hc & Hl). exists tt. split; [done|]. rewrite Hc. simpl. destruct len as [n|]; cycle 1.
      { by rewrite andb_false_r. }
      destruct (Hl n eq_refl) as [? ->]. simpl. destruct (Z.ltb_spec MAX_HTTP_TASK_BODY_BYTES n); [lia|done].
  - unfold encode_request. destruct (Z.ltb_spec MAX_HTTP_TASK_BODY_BYTES (zlen (to_vec value))); split; try done.
    + intros [-> ?]. lia.
    + intros [= <-]. done.
    + by intros [-> _].
Qed.

Example conflicting_lengths_refused :
  is_ok (validate_response_headers [("content-length", Some "12"); ("content-length", Some "13")]) = false /\
  is_ok (validate_response_headers [("content-length", Some "12, 12"); ("content-encoding", Some "Identity")]) = true /\
  is_ok (validate_request_headers [("content-length", Some "12"); ("transfer-encoding", Some "chunked")]) = false.
Proof. vm_compute. done. Qed.
