(* ===== verification/Chars.v ===== *)
(** * Strings as sequences of characters and lines

    Strings are UTF-8 bytes ([Text.v]); what the code does by [chars()] or
    [lines()] is written here on the bytes. *)

From S2P Require Import Prelude Text Json HttpResource.

(** A byte inside a character, after its first. *)
Definition inner_byte (c : Ascii.ascii) : bool := z_between 128 191 (code c).

(** [.chars().take(n)] *)
Fixpoint take_chars (n : nat) (s : string) : string :=
  match s with
  | EmptyString => EmptyString
  | String c s =>
      if inner_byte c then String c (take_chars n s)
      else match n with O => EmptyString | S n => String c (take_chars n s) end
  end.

(** [.chars().map(|c| if keep(c) { c } else { '_' })] for an ASCII test *)
Fixpoint sanitize (keep : Ascii.ascii -> bool) (s : string) : string :=
  match s with
  | EmptyString => EmptyString
  | String c s =>
      if inner_byte c then sanitize keep s
      else String (if keep c then c else "_"%char) (sanitize keep s)
  end.

(** [.chars().count()] *)
Fixpoint chars_count (s : string) : nat :=
  match s with
  | EmptyString => O
  | String c s => if inner_byte c then chars_count s else S (chars_count s)
  end.

(** [.lines()] *)
Definition strip_cr (s : string) : string := default s (strip_suffix (str_of_codes [13]) s).
Definition lines (s : string) : list string :=
  let parts := str_split "010"%char s in
  strip_cr <$> (if str_is_empty (default empty_str (list.last parts)) then take (length parts - 1) parts else parts).

(** [parse] of an unsigned type with maximum [max]: a sign [+] is allowed. *)
Definition parse_uint (max : Z) (s : string) : option Z :=
  let digits := default s (strip_prefix "+" s) in
  if str_is_empty digits || negb (str_all is_ascii_digit digits) then None
  else if decimal digits <=? max then Some (decimal digits) else None.

Lemma sanitize_kept keep s :
  str_all (fun c => negb (inner_byte c) && keep c) s = true -> sanitize keep s = s.
Proof.
  induction s as [|c s IH]; [done|]. unfold str_all. simpl. rewrite andb_true_iff, andb_true_iff, negb_true_iff.
  intros [[-> ->] H]. f_equal. by apply IH.
Qed.

Lemma sanitize_length keep s : String.length (sanitize keep s) = chars_count s.
Proof. induction s as [|c s IH]; [done|]. simpl. destruct (inner_byte c); [done|]. simpl. by rewrite IH. Qed.

Lemma sanitize_alphabet keep s : keep "_"%char = true -> str_all keep (sanitize keep s) = true.
Proof.
  intros Hu. induction s as [|c s IH]; [done|]. simpl. destruct (inner_byte c); [done|]. unfold str_all in *. simpl.
  destruct (keep c) eqn:E; by rewrite ?E, ?Hu, IH.
Qed.

Lemma take_chars_count n s : (chars_count (take_chars n s) <= n)%nat.
Proof.
  revert n. induction s as [|c s IH]; intros n; simpl; [lia|]. destruct (inner_byte c) eqn:E.
  - simpl. rewrite E. apply IH.
  - destruct n as [|n]; simpl; [lia|]. rewrite E. specialize (IH n). lia.
Qed.

Example lines_ex : lines (str_of_codes [97; 13; 10; 98; 10; 10; 99; 10]) = ["a"; "b"; empty_str; "c"].
Proof. reflexivity. Qed.
Example chars_ex : (take_chars 2 (str_of_codes [195; 164; 195; 182; 98]), sanitize is_ascii_alphanumeric (str_of_codes [195; 164; 46; 98]))
  = (str_of_codes [195; 164; 195; 182], "__b").
Proof. reflexivity. Qed.

(** Printing a number and reading it back. *)
Lemma decimal_snoc s c : decimal (s +:+ String c EmptyString) = decimal s * 10 + (code c - 48).
Proof.
  unfold decimal. assert (String.list_ascii_of_string (s +:+ String c EmptyString) = String.list_ascii_of_string s ++ [c]) as ->
    by (induction s as [|a s IH]; [done | simpl; by rewrite IH]).
  by rewrite foldl_app.
Qed.
Lemma digit_char d : (d < 10)%N -> is_ascii_digit (pretty_N_char d) = true /\ code (pretty_N_char d) = Z.of_N d + 48.
Proof.
  intros H. assert (d ∈ [0; 1; 2; 3; 4; 5; 6; 7; 8; 9]%N) as Hd.
  { rewrite !elem_of_cons, elem_of_nil. lia. }
  repeat (apply elem_of_cons in Hd as [->|Hd]; [done|]). by apply elem_of_nil in Hd.
Qed.
Lemma append_assoc (s t u : string) : (s +:+ t) +:+ u = s +:+ t +:+ u.
Proof. induction s as [|c s IH]; [done|]. change (String c ((s +:+ t) +:+ u) = String c (s +:+ t +:+ u)). by rewrite IH. Qed.
Lemma pretty_go_app n s : pretty_N_go n s = pretty_N_go n EmptyString +:+ s.
Proof.
  revert s. induction (N.lt_wf_0 n) as [n _ IH]. intros s. destruct (decide (n = 0)%N) as [->|Hn]; [by rewrite !pretty_N_go_0|].
  rewrite (pretty_N_go_step n s), (pretty_N_go_step n EmptyString) by lia. assert (n `div` 10 < n)%N by (apply N.div_lt; lia).
  set (c := pretty_N_char _). rewrite (IH _ H (String c s)), (IH _ H (String c EmptyString)). by rewrite append_assoc.
Qed.
Lemma pretty_go_decimal n :
  str_all is_ascii_digit (pretty_N_go n EmptyString) = true /\ decimal (pretty_N_go n EmptyString) = Z.of_N n
  /\ (n <> 0%N -> pretty_N_go n EmptyString <> EmptyString).
Proof.
  induction (N.lt_wf_0 n) as [n _ IH]. destruct (decide (n = 0)%N) as [->|Hn]; [by rewrite pretty_N_go_0|].
  rewrite pretty_N_go_step, pretty_go_app by lia.
  destruct (IH (n `div` 10)%N) as (Ha & Hd & _); [apply N.div_lt; lia|].
  destruct (digit_char (n `mod` 10)%N) as [Hc Hv]; [apply N.mod_lt; lia|].
  split_and!; [|rewrite decimal_snoc, Hd, Hv|by destruct (pretty_N_go _ _)].
  - revert Ha. generalize (pretty_N_go (n `div` 10) EmptyString). intros s. induction s as [|a s IHs]; intros Hs.
    + change (EmptyString +:+ ?x) with x. by rewrite str_all_cons, Hc.
    + change (String a s +:+ ?x) with (String a (s +:+ x)). rewrite str_all_cons in *. apply andb_true_iff in Hs as [-> Hs]. by apply IHs.
  - pose proof (N.div_mod n 10 ltac:(lia)). lia.
Qed.
Lemma parse_uint_pretty max n : 0 <= n <= max -> parse_uint max (pretty n) = Some n.
Proof.
  intros Hn. assert (exists m, n = Z.of_N m /\ pretty n = pretty m) as (m & Hm & ->).
  { destruct n as [|p|p]; [by exists 0%N|by exists (N.pos p) | lia]. }
  assert (str_all is_ascii_digit (pretty m) = true /\ decimal (pretty m) = Z.of_N m /\ pretty m <> EmptyString) as (Ha & Hd & He).
  { destruct (decide (m = 0)%N) as [->|H0]; [done|]. destruct (pretty_go_decimal m) as (Ha & Hd & He).
    assert (pretty m = pretty_N_go m EmptyString) as -> by (unfold pretty, pretty_N; by rewrite decide_False). auto. }
  unfold parse_uint. assert (strip_prefix "+" (pretty m) = None) as ->.
  { destruct (pretty m) as [|c s]; [done|]. rewrite str_all_cons in Ha. apply andb_true_iff in Ha as [Ha _].
    simpl. by destruct c as [[] [] [] [] [] [] [] []]. }
  simpl. rewrite Ha, Hd, <- Hm. assert (str_is_empty (pretty m) = false) as -> by (by apply String.eqb_neq).
  cbn [orb negb]. assert (n <=? max = true) as -> by lia. done.
Qed.
