(* ===== verification/ClientTypes.v ===== *)
(** * Data of the consumer client ([src/types.rs], [src/errors.rs])

    The structs the client's submit path reads.  Fields of [Node] that no
    modelled operation looks at are left out. *)

From S2P Require Import Prelude Text Json.

(** [IicpError]; of a [reqwest::Error] only whether connecting failed matters. *)
Inductive IicpError :=
| Http (connect : bool)
| EndpointRefused (message : string)
| Protocol (code message : string) (status : Z)
| InvalidIntent (intent : string)
| PolicyRefused (code message : string)
| TimeoutTooLarge (ms : Z)
| NoNodes (intent : string)
| Serde (message : string)
| NodeError (message : string).

Definition is_transient (e : IicpError) : bool :=
  match e with
  | Protocol _ _ status => (status =? 429) || (status =? 502) || (status =? 503) || (status =? 504)
  | Http _ => true
  | _ => false
  end.

Inductive RoutingProfile := Standard | Sensitive | EuRestricted | StrictPolicy | DebugOverride.
Global Instance routing_profile_eq_dec : EqDecision RoutingProfile.
Proof. solve_decision. Defined.

Definition profile_from_cli (value : string) : RoutingProfile :=
  let v := to_ascii_lowercase (str_replace_char "-" "_" value) in
  if v ==? "sensitive" then Sensitive
  else if v ==? "eu_restricted" then EuRestricted
  else if v ==? "strict_policy" then StrictPolicy
  else if v ==? "debug_override" then DebugOverride
  else Standard.

Record RoutingPolicy := mkPolicy {
  rp_profile : RoutingProfile;
  rp_allowed_regions : list string;
  rp_require_encryption : option bool;
  rp_require_policy_manifest : option bool;
  rp_require_no_payload_retention : option bool;
  rp_allow_remote_executor : option bool;
  rp_known_operator_only : option bool;
  rp_required_manifest_identity_level : option string
}.

Record CxPublicKey := mkCxKey {
  algorithm : string;
  encoding : option string;
  cx_key : string;
  cx_key_id : string;
  features : list string
}.

Record RestrictedEligibility := mkEligibility {
  re_domain_id : string;
  re_authority_id : string;
  re_membership_generation : Z;
  re_membership_expires_at : Z
}.

(** [allow_remote_inference] is the only field. *)
Record CipPolicy := mkCipPolicy { cp_allow_remote_inference : bool }.

Record Node := mkNode {
  node_id : string;
  endpoint : string;
  score : f64;
  load : f64;
  available : bool;
  region : string;
  models : option (list string);
  health_label : option string;
  cx_public_key : option CxPublicKey;
  cip_policy : option CipPolicy;
  directory_observed_reachable : option bool;
  browser_usable : option bool;
  node_policy_manifest : option json;
  dispatch_ticket_id_prefix : option string;
  restricted_eligibility : option RestrictedEligibility
}.

Record ProfileRequest := mkProfileRequest {
  profile_id : string;
  profile_version : string;
  profile_fixture_sha256 : string;
  profile_required : bool
}.
Record ProfileNegotiation := mkNegotiation {
  pn_requested : bool;
  pn_status : option string;
  pn_reason : option string;
  dispatch_allowed : option bool
}.

Record NodeList := mkNodeList {
  nodes : list Node;
  count : Z;
  profile_negotiation : option ProfileNegotiation;
  list_eligibility : option RestrictedEligibility
}.

Record TaskConstraints := mkConstraints {
  timeout_ms : option Z;
  max_tokens : option Z;
  c_model : option string;
  c_qos : option string;
  c_region : option string;
  c_min_reputation : option f64
}.
Record RouteConstraints := mkRoute {
  rt_region : option string;
  rt_qos : option string;
  rt_model : option string;
  rt_min_reputation : option f64;
  rt_limit : option Z;
  rt_browser_usable_only : option bool;
  rt_profile_request : option ProfileRequest
}.
Record DiscoverOptions := mkOptions {
  o_region : option string;
  o_qos : option string;
  o_model : option string;
  o_min_reputation : option f64;
  o_limit : option Z;
  o_browser_usable_only : option bool;
  o_profile_request : option ProfileRequest
}.

Record TaskRequest := mkRequest {
  task_id : string;
  intent : string;
  payload : json;
  constraints : option TaskConstraints;
  route_constraints : option RouteConstraints;
  auth_token : option string;
  source_node_id : option string;
  routing_policy : option RoutingPolicy
}.

Record RoutingReceipt := mkReceipt {
  receipt_version : string;
  selection_profile : string;
  eligible_candidate_count : Z;
  selected_node_id_prefix : string;
  receipt_negotiation : option ProfileNegotiation;
  redaction : string
}.
Record TaskResponse := mkTaskResponse {
  tr_task_id : string;
  tr_status : string;
  tr_result : option json;
  iicp_conf_resp : option (gmap string json);
  tr_metrics : option json;
  tr_error : option json;
  generated_by_ai : bool;
  tr_ticket_id_prefix : option string;
  routing_receipt : option RoutingReceipt
}.

(** [SecretRef] of [src/runtime_config.rs] *)
Inductive SecretRef :=
| EnvironmentSecret (name : string)
| FileSecret (path : string)
| MacosKeychain (service account : string)
| WindowsCredential (target : string)
| LinuxSecretService (collection label : string)
| ExternalSecret (provider reference : string).
Global Instance secret_ref_eq_dec : EqDecision SecretRef.
Proof. solve_decision. Defined.

Record RestrictedDirectoryContext := mkContext {
  domain_id : string;
  authority_id : string;
  subject_id : string;
  subject_kind : string;
  minimum_membership_generation : Z;
  membership_credential : SecretRef
}.

(** [DirectoryDecision] of [src/restricted_directory.rs] *)
Record DirectoryDecision := mkDirectoryDecision {
  dd_schema : string;
  dd_profile : string;
  dd_decision : string;
  dd_operation : string;
  dd_domain_id : string;
  dd_authority_id : string;
  dd_subject_kind : string;
  dd_membership_generation : Z;
  dd_membership_expires_at : Z
}.

Record ClientConfig := mkConfig {
  directory_url : string;
  cfg_timeout_ms : Z;
  cfg_region : option string;
  node_token : option string;
  consumer_auth_mode : string;
  routing_epsilon : f64;
  routing_strategy : string;
  routing_top_k : Z;
  routing_softmax_tau : f64;
  cfg_routing_policy : RoutingPolicy;
  route_discovery_mode : string;
  cfg_profile_request : option ProfileRequest;
  restricted_directory : option RestrictedDirectoryContext
}.

(** Fields [serde] skips when they are [None]. *)
Definition opt_field {A} (k : string) (f : A -> json) (o : option A) : list (string * json) :=
  match o with Some a => [(k, f a)] | None => [] end.

Definition constraints_json (c : TaskConstraints) : json :=
  mk_obj (opt_field "timeout_ms" u64_json (timeout_ms c) ++ opt_field "max_tokens" u64_json (max_tokens c)
          ++ opt_field "model" JString (c_model c) ++ opt_field "qos" JString (c_qos c)).

(** [serde_json::to_value(&request)]: the local-only fields are skipped. *)
Definition request_json (r : TaskRequest) : json :=
  mk_obj ([("task_id", JString (task_id r)); ("intent", JString (intent r)); ("payload", payload r)]
          ++ opt_field "constraints" constraints_json (constraints r)
          ++ opt_field "auth" (fun t => mk_obj [("token", JString t)]) (auth_token r)
          ++ opt_field "source_node_id" JString (source_node_id r)).

(** [project_route_options] ([src/request_projection.rs]) *)
Definition project_route_options (request : TaskRequest) (config : ClientConfig) : DiscoverOptions :=
  let route := route_constraints request in
  let c := constraints request in
  mkOptions
    (option_or (route ≫= rt_region) (option_or (c ≫= c_region) (cfg_region config)))
    (option_or (route ≫= rt_qos) (c ≫= c_qos))
    (option_or (route ≫= rt_model) (c ≫= c_model))
    (option_or (route ≫= rt_min_reputation) (c ≫= c_min_reputation))
    (option_or (route ≫= rt_limit) (Some 10))
    (route ≫= rt_browser_usable_only)
    (option_or (route ≫= rt_profile_request) (cfg_profile_request config)).
