(* ===== verification/IpAddr.v ===== *)
(** * IP addresses ([std::net])

    The parser of [IpAddr::from_str] and the address classes the endpoint
    guards use. *)

From S2P Require Import Prelude Text.

Inductive Ipv4Addr := V4Addr (a b c d : Z).
(** The eight 16-bit segments. *)
Inductive Ipv6Addr := V6Addr (segments : list Z).
Inductive IpAddr := V4 (ip : Ipv4Addr) | V6 (ip : Ipv6Addr).

Global Instance ipv4_eq_dec : EqDecision Ipv4Addr.
Proof. solve_decision. Defined.
Global Instance ipv6_eq_dec : EqDecision Ipv6Addr.
Proof. solve_decision. Defined.
Global Instance ip_eq_dec : EqDecision IpAddr.
Proof. solve_decision. Defined.

Definition octets (ip : Ipv4Addr) : Z * Z * Z * Z := match ip with V4Addr a b c d => (a, b, c, d) end.
Definition segments (ip : Ipv6Addr) : list Z := match ip with V6Addr l => l end.
Definition segment (ip : Ipv6Addr) (i : nat) : Z := default 0 (segments ip !! i).

(** ** The parser of [core::net::parser]: a reader takes the rest of the input
    and, when it succeeds, answers a value and what is left. *)

Definition reader (A : Type) : Type := string -> option (A * string).

Definition to_digit (radix : Z) (c : Ascii.ascii) : option Z :=
  let d :=
    if is_ascii_digit c then code c - 48
    else if (97 <=? code c) && (code c <=? 122) then code c - 87
    else if is_ascii_uppercase c then code c - 55
    else radix in
  if d <? radix then Some d else None.

(** The digits at the head of the input: value, number, rest. *)
Fixpoint read_digits (radix : Z) (value count : Z) (s : string) : Z * Z * string :=
  match s with
  | String c rest =>
      match to_digit radix c with
      | Some d => read_digits radix (value * radix + d) (count + 1) rest
      | None => (value, count, s)
      end
  | EmptyString => (value, count, s)
  end.

Definition read_number (radix max_digits : Z) (allow_zero_prefix : bool) (limit : Z) : reader Z := fun s =>
  let '(value, count, rest) := read_digits radix 0 0 s in
  if max_digits <? count then None
  else if count =? 0 then None
  else if negb allow_zero_prefix && starts_with s "0" && (1 <? count) then None
  else if limit <? value then None
  else Some (value, rest).

Definition read_separator {A} (sep : string) (index : nat) (inner : reader A) : reader A := fun s =>
  match index with O => inner s | S _ => strip_prefix sep s ≫= inner end.

Definition read_octet (index : nat) : reader Z := read_separator "." index (read_number 10 3 false u8_max).
Definition read_ipv4_addr : reader Ipv4Addr := fun s =>
  let! (a, s) := read_octet 0 s in
  let! (b, s) := read_octet 1 s in
  let! (c, s) := read_octet 2 s in
  let! (d, s) := read_octet 3 s in
  Some (V4Addr a b c d, s).

(** [read_groups] into [limit] slots, from slot [i]: the groups, and whether
    an embedded IPv4 address ended them. *)
Fixpoint read_groups (slots i : nat) (s : string) : list Z * bool * string :=
  match slots with
  | O => ([], false, s)
  | S slots' =>
      match (if (0 <? slots')%nat then read_separator ":" i read_ipv4_addr s else None) with
      | Some (V4Addr a b c d, rest) => ([a * 256 + b; c * 256 + d], true, rest)
      | None =>
          match read_separator ":" i (read_number 16 4 true u16_max) s with
          | Some (g, rest) =>
              let '(gs, v4, rest) := read_groups slots' (S i) rest in (g :: gs, v4, rest)
          | None => ([], false, s)
          end
      end
  end.

Definition read_ipv6_addr : reader Ipv6Addr := fun s =>
  let '(head, head_ipv4, rest) := read_groups 8 0 s in
  if (length head =? 8)%nat then Some (V6Addr head, rest)
  else if head_ipv4 then None
  else
    let! rest := strip_prefix "::" rest in
    let '(tail, _, rest) := read_groups (8 - (length head + 1)) 0 rest in
    Some (V6Addr (head ++ replicate (8 - length head - length tail) 0 ++ tail), rest).

Definition parse_ip (s : string) : option IpAddr :=
  let! (ip, rest) :=
    (match read_ipv4_addr s with
     | Some (ip, rest) => Some (V4 ip, rest)
     | None => let! (ip, rest) := read_ipv6_addr s in Some (V6 ip, rest)
     end) in
  if str_is_empty rest then Some ip else None.

Example parse_ip_examples :
  parse_ip "127.0.0.1" = Some (V4 (V4Addr 127 0 0 1)) /\
  parse_ip "127.0.0.01" = None /\ parse_ip "256.0.0.1" = None /\ parse_ip "1.2.3" = None /\
  parse_ip "::1" = Some (V6 (V6Addr [0;0;0;0;0;0;0;1])) /\
  parse_ip "::" = Some (V6 (V6Addr [0;0;0;0;0;0;0;0])) /\
  parse_ip "fe80::1:2" = Some (V6 (V6Addr [65152;0;0;0;0;0;1;2])) /\
  parse_ip "::ffff:10.0.0.1" = Some (V6 (V6Addr [0;0;0;0;0;65535;2560;1])) /\
  parse_ip "1:2:3:4:5:6:7:8" = Some (V6 (V6Addr [1;2;3;4;5;6;7;8])) /\
  parse_ip "1:2:3:4:5:6:7:8:9" = None /\ parse_ip "1::2::3" = None /\ parse_ip "example.com" = None.
Proof. vm_compute. done. Qed.

(** ** Classes *)

Definition v4_is_loopback (ip : Ipv4Addr) : bool := match ip with V4Addr a _ _ _ => a =? 127 end.
Definition v4_is_private (ip : Ipv4Addr) : bool :=
  match ip with
  | V4Addr a b _ _ => (a =? 10) || ((a =? 172) && ((16 <=? b) && (b <=? 31))) || ((a =? 192) && (b =? 168))
  end.
Definition v4_is_link_local (ip : Ipv4Addr) : bool := match ip with V4Addr a b _ _ => (a =? 169) && (b =? 254) end.
Definition v4_is_broadcast (ip : Ipv4Addr) : bool := bool_decide (ip = V4Addr 255 255 255 255).
Definition v4_is_unspecified (ip : Ipv4Addr) : bool := bool_decide (ip = V4Addr 0 0 0 0).

Definition v6_is_unspecified (ip : Ipv6Addr) : bool := bool_decide (segments ip = [0;0;0;0;0;0;0;0]).
Definition v6_is_loopback (ip : Ipv6Addr) : bool := bool_decide (segments ip = [0;0;0;0;0;0;0;1]).
Definition v6_is_multicast (ip : Ipv6Addr) : bool := Z.land (segment ip 0) 65280 =? 65280.
Definition to_ipv4_mapped (ip : Ipv6Addr) : option Ipv4Addr :=
  match segments ip with
  | [0; 0; 0; 0; 0; 65535; ab; cd] => Some (V4Addr (ab / 256) (ab mod 256) (cd / 256) (cd mod 256))
  | _ => None
  end.

(** ** Well-formed addresses *)

Definition u8_range (z : Z) : Prop := 0 <= z <= u8_max.
Definition v4_wf (ip : Ipv4Addr) : Prop :=
  match ip with V4Addr a b c d => u8_range a /\ u8_range b /\ u8_range c /\ u8_range d end.
Definition v6_wf (ip : Ipv6Addr) : Prop :=
  length (segments ip) = 8%nat /\ Forall (fun z => 0 <= z <= u16_max) (segments ip).
Definition ip_wf (ip : IpAddr) : Prop := match ip with V4 ip => v4_wf ip | V6 ip => v6_wf ip end.

Lemma to_digit_range radix c d : to_digit radix c = Some d -> 0 <= d < radix.
Proof.
  unfold to_digit. set (x := if is_ascii_digit c then _ else _). destruct (Z.ltb_spec x radix); [|done].
  intros [= <-]. split; [|done]. subst x. unfold is_ascii_digit, is_ascii_uppercase in *.
  repeat case_match; rewrite ?andb_true_iff, ?Z.leb_le in *; lia.
Qed.

Lemma read_digits_nonneg radix v n s v' n' r :
  0 <= v -> 0 <= radix -> read_digits radix v n s = (v', n', r) -> 0 <= v'.
Proof.
  revert v n. induction s as [|c s IH]; intros v n Hv Hr; simpl; [by intros [= <- _ _]|].
  destruct (to_digit radix c) as [d|] eqn:E; [|by intros [= <- _ _]].
  apply to_digit_range in E. apply IH; nia.
Qed.

Lemma read_number_range radix m z limit s v r :
  0 <= radix -> read_number radix m z limit s = Some (v, r) -> 0 <= v <= limit.
Proof.
  intros Hr. unfold read_number. destruct (read_digits radix 0 0 s) as [[v' n'] r'] eqn:E.
  destruct (m <? n'); [done|]. destruct (n' =? 0); [done|]. destruct (negb z && _ && _); [done|].
  destruct (Z.ltb_spec limit v'); [done|]. intros [= <- <-]. apply read_digits_nonneg in E; lia.
Qed.

Lemma read_octet_range i s v r : read_octet i s = Some (v, r) -> u8_range v.
Proof.
  unfold read_octet, read_separator. destruct i; [intros H; by apply read_number_range in H|].
  destruct (strip_prefix "." s); [|done]. intros H. by apply read_number_range in H.
Qed.

Lemma read_ipv4_wf s ip r : read_ipv4_addr s = Some (ip, r) -> v4_wf ip.
Proof.
  unfold read_ipv4_addr. intros ([a s1] & Ha & ([b s2] & Hb & ([c s3] & Hc &
    ([d s4] & Hd & [= <- <-])%bind_Some)%bind_Some)%bind_Some)%bind_Some.
  simpl. split_and!; eapply read_octet_range; eassumption.
Qed.

Lemma read_groups_wf slots i s gs v4 r :
  read_groups slots i s = (gs, v4, r) ->
  (length gs <= slots)%nat /\ Forall (fun z => 0 <= z <= u16_max) gs.
Proof.
  revert i s gs v4 r. induction slots as [|slots IH]; intros i s gs v4 r; cbn [read_groups].
  { intros [= <- _ _]. done. }
  destruct (if (0 <? slots)%nat then _ else None) as [[[a b c d] rest]|] eqn:E4.
  - intros [= <- _ _]. destruct slots as [|slots]; [done|]. split; [simpl; lia|]. cbn [Nat.ltb Nat.leb] in E4.
    assert (v4_wf (V4Addr a b c d)) as Hwf.
    { unfold read_separator in E4. destruct i; [by apply read_ipv4_wf in E4|].
      destruct (strip_prefix ":" s); [|done]. by apply read_ipv4_wf in E4. }
    unfold v4_wf, u8_range, u8_max, u16_max in *. repeat constructor; lia.
  - destruct (read_separator ":" i (read_number 16 4 true u16_max) s) as [[g rest]|] eqn:Eg.
    + destruct (read_groups slots (S i) rest) as [[gs' v4'] rest'] eqn:E'. intros [= <- <- <-].
      apply IH in E' as [Hl Hf]. split; [simpl; lia|]. constructor; [|done].
      unfold read_separator in Eg. destruct i; [by apply read_number_range in Eg|].
      destruct (strip_prefix ":" s); [|done]. by apply read_number_range in Eg.
    + intros [= <- _ _]. split; [simpl; lia|constructor].
Qed.

Lemma parse_ip_wf s ip : parse_ip s = Some ip -> ip_wf ip.
Proof.
  unfold parse_ip. intros ([ip' rest] & H & E)%bind_Some. destruct (str_is_empty rest); [|done]. injection E as <-.
  destruct (read_ipv4_addr s) as [[ip4 r4]|] eqn:E4.
  { injection H as <- <-. by apply read_ipv4_wf in E4. }
  apply bind_Some in H as ([ip6 r6] & H & [= <- <-]). unfold read_ipv6_addr in H.
  destruct (read_groups 8 0 s) as [[hd v4] r] eqn:Eh. apply read_groups_wf in Eh as [Hhl Hhf].
  destruct (Nat.eqb_spec (length hd) 8) as [Hl|Hl]; [injection H as <- <-; by split|].
  destruct v4; [done|]. apply bind_Some in H as (r' & _ & H).
  destruct (read_groups (8 - (length hd + 1)) 0 r') as [[tl v4'] r''] eqn:Et.
  apply read_groups_wf in Et as [Htl Htf]. injection H as <- <-. split; simpl.
  - rewrite !length_app, length_replicate. lia.
  - apply Forall_app; split; [done|]. apply Forall_app; split; [|done]. apply Forall_replicate. unfold u16_max. lia.
Qed.
