(* ===== verification/ClientEffects.v ===== *)
(** * What the consumer client asks of its surroundings

    The client's async functions are programs over these actions: network,
    name resolution, clock, randomness, secrets and the two mutex-protected
    caches of [IicpClient].  The types of the URL and of the JSON library are
    interfaces. *)

From stdpp Require Import vector.
From S2P Require Import Prelude Program Text Json Cbor HttpResource IpAddr ClientTypes.

(** ** Interfaces of the libraries *)

(** [reqwest::Url].  An origin is a triple for the schemes that have one; two
    opaque origins are never equal.  Parsing what was printed gives it back. *)
Class UrlOps (Url : Type) := {
  url_parse : string -> option Url;
  url_scheme : Url -> string;
  url_username : Url -> string;
  url_password : Url -> option string;
  url_host_str : Url -> option string;
  url_fragment : Url -> option string;
  url_port_or_known_default : Url -> option Z;
  url_origin : Url -> option (string * string * Z);
  url_join : Url -> string -> option Url;
  url_to_string : Url -> string;
  url_print_parse : forall u, url_parse (url_to_string u) = Some u
}.

Definition same_origin {Url} `{UrlOps Url} (a b : Url) : bool :=
  match url_origin a, url_origin b with
  | Some x, Some y => bool_decide (x = y)
  | _, _ => false
  end.

(** [serde_json] and the derived [Deserialize] implementations. *)
Class SerdeOps := {
  serde_codec :: JsonCodec;
  node_list_from_value : json -> result NodeList string;
  node_from_value : json -> result Node string;
  response_from_value : json -> result TaskResponse string;
  decision_from_value : json -> option DirectoryDecision
}.

Definition to_vec `{SerdeOps} : json -> list byte := json_to_vec.
Definition from_slice `{SerdeOps} (l : list byte) : option json := result_ok (json_from_slice l).

(** ** Requests and responses *)

Record SocketAddr := mkSocket { sock_ip : IpAddr; sock_port : Z }.
Global Instance socket_eq_dec : EqDecision SocketAddr.
Proof. solve_decision. Defined.

(** [rq_pin] is [ClientBuilder::resolve]: the address the host name is bound
    to; [rq_follow] the default redirect policy of the shared client. *)
Record http_request := mkRequestOut {
  rq_method : string;
  rq_url : string;
  rq_bearer : option string;
  rq_headers : list (string * string);
  rq_body : option (list byte);
  rq_follow : bool;
  rq_pin : option (string * SocketAddr)
}.

(** The body arrives in chunks and may break off. *)
Record http_response := mkResponseIn {
  rs_status : Z;
  rs_headers : HeaderMap;
  rs_chunks : list (list byte);
  rs_broken : bool
}.

(** [Response::json] *)
Definition response_json `{SerdeOps} (r : http_response) : result json IicpError :=
  if rs_broken r then Err (Http false)
  else ok_or (from_slice (concat (rs_chunks r))) (Http false).

Definition is_redirection (status : Z) : bool := (300 <=? status) && (status <? 400).
Definition is_success (status : Z) : bool := (200 <=? status) && (status <? 300).

(** ** Actions *)

Definition ct_key : Type := string * string * string.

Inductive action :=
| NewUuid
| NewUuidSimple
| GenF64
| GenBelow (n : nat)
| UnixNow
| Sleep (ms : Z)
| ResolveSecret (reference : SecretRef)
| LookupHost (host : string) (port : Z)
| Send (request : http_request)
| CacheGet (key : ct_key)
| CacheSet (key : ct_key) (token : string) (exp : Z)
| TicketKeyGet
| TicketKeySet (key : string)
| RandomBytes (n : nat).

(** A failed [send] says whether connecting failed; [GenBelow n] draws from
    [0..n+1], [RandomBytes n] an array of [n] bytes. *)
Definition answer (a : action) : Type :=
  match a with
  | NewUuid | NewUuidSimple => string
  | GenF64 => f64
  | GenBelow n => fin (S n)
  | UnixNow => Z
  | Sleep _ => unit
  | ResolveSecret _ => option string
  | LookupHost _ _ => option (list SocketAddr)
  | Send _ => result http_response bool
  | CacheGet _ => option (string * Z)
  | CacheSet _ _ _ => unit
  | TicketKeyGet => option string
  | TicketKeySet _ => unit
  | RandomBytes n => vec byte n
  end.

(** ** Fallible programs

    A function ends with a value, with an error, or in a panic. *)
Inductive outcome (R : Type) := Val (r : R) | Fail (e : IicpError) | Panic.
Arguments Val {R} r.
Arguments Fail {R} e.
Arguments Panic {R}.

Definition outcome_of {R} (r : result R IicpError) : outcome R := match r with Ok a => Val a | Err e => Fail e end.

Definition try_bind {A} {resp : A -> Type} {R R'} (p : prog resp (outcome R)) (k : R -> prog resp (outcome R'))
    : prog resp (outcome R') :=
  prog_bind p (fun o => match o with Val r => k r | Fail e => Ret (Fail e) | Panic => Ret Panic end).

Notation "'perform' x := a 'in' k" := (Act (resp:=answer) a (fun x => k))
  (at level 200, x name, a at level 100, k at level 200,
   format "'[v' 'perform'  x  :=  a  'in' '/' k ']'") : iicp_scope.
Notation "'await?' x := p 'in' k" := (try_bind p (fun x => k))
  (at level 200, x pattern, p at level 100, k at level 200,
   format "'[v' 'await?'  x  :=  p  'in' '/' k ']'") : iicp_scope.

(** Results where only a value carries information. *)
Definition on_val {S R} (P : S -> R -> Prop) (s : S) (o : outcome R) : Prop :=
  match o with Val r => P s r | _ => True end.

Lemma along_try {A} {resp : A -> Type} {R R' S} (upd : S -> forall a, resp a -> S) (ok : S -> A -> Prop)
    (mid : S -> R -> Prop) (fin : S -> R' -> Prop) s (p : prog resp (outcome R)) k :
  along upd ok (on_val mid) s p -> (forall s r, mid s r -> along upd ok (on_val fin) s (k r)) ->
  along upd ok (on_val fin) s (try_bind p k).
Proof. intros Hp Hk. apply (along_bind _ _ (on_val mid)); [done|]. intros s' [r|e|] H; simpl; auto. Qed.

Lemma along_try_log {A} {resp : A -> Type} {R R'} (ok : list (step resp) -> A -> Prop)
    (mid : list (step resp) -> R -> Prop) (fin : list (step resp) -> R' -> Prop) s (p : prog resp (outcome R)) k :
  along log ok (on_val mid) s p ->
  (forall s' r, mid s' r -> s `prefix_of` s' -> along log ok (on_val fin) s' (k r)) ->
  along log ok (on_val fin) s (try_bind p k).
Proof.
  intros Hp Hk. eapply along_bind; [by apply along_prefix|]. intros s' [r|e|] [H Hpre]; simpl; auto.
Qed.

Lemma acts_try {A} {resp : A -> Type} {R R'} (ok : A -> Prop) (p : prog resp (outcome R)) (k : R -> prog resp (outcome R')) :
  acts ok p -> (forall r, acts ok (k r)) -> acts ok (try_bind p k).
Proof. intros Hp Hk. apply acts_bind; [done|]. intros [r|e|]; [apply Hk|apply acts_ret..]. Qed.

(** Break a program into its actions. *)
Ltac acts_split :=
  repeat (first
    [ apply acts_ret
    | apply acts_try; [|intros ?]
    | apply acts_bind; [|intros ?]
    | apply acts_act; [|intros ?]
    | case_match ]).
