(* ===== verification/Confidential.v ===== *)
(** * Task confidentiality ([src/confidentiality.rs])

    Sealing of task payloads and of responses.  The primitives of the
    cryptographic crates are an interface; the nonce a peer sends is used as it
    comes, so opening can panic. *)

From stdpp Require Import vector.
From S2P Require Import Prelude Program Text Json Cbor CodecModel ClientTypes ClientEffects.

(** X25519, HKDF-SHA256 with 32 bytes of output, AES-256-GCM with additional
    data, unpadded URL-safe base64, and the text of a UTF-8 error. *)
Class CxCrypto := {
  x25519_public : list byte -> list byte;
  x25519 : list byte -> list byte -> list byte;
  hkdf_sha256 : list byte -> list byte -> list byte -> list byte;
  aes_gcm_seal : list byte -> list byte -> list byte -> list byte -> option (list byte);
  aes_gcm_open : list byte -> list byte -> list byte -> list byte -> option (list byte);
  b64url_encode : list byte -> string;
  b64url_decode : string -> result (list byte) string;
  utf8_error : list byte -> string;
  x25519_public_length : forall k, length k = 32%nat -> length (x25519_public k) = 32%nat;
  x25519_agree : forall a b, length a = 32%nat -> length b = 32%nat ->
    x25519 a (x25519_public b) = x25519 b (x25519_public a);
  aes_gcm_open_seal : forall k n aad m c, aes_gcm_seal k n aad m = Some c -> aes_gcm_open k n aad c = Some m;
  b64url_decode_encode : forall l, b64url_decode (b64url_encode l) = Ok l
}.

(** [HashMap<String, Value>] *)
Definition envelope : Type := gmap string json.
(** The JSON object it serializes to. *)
Definition env_json (e : envelope) : json := JObject (obj_of_list (map_to_list e)).
Definition env_str (e : envelope) (k : string) : option string := e !! k ≫= as_str.

Definition NONCE_LEN : Z := 12.

(** [str::find('|')] and the two halves *)
Fixpoint split_pipe (s : string) : option (string * string) :=
  match s with
  | EmptyString => None
  | String c s =>
      if Ascii.eqb c "|" then Some (EmptyString, s)
      else let! (a, b) := split_pipe s in Some (String c a, b)
  end.

Section confidentiality.
Context {json_codec : JsonCodec} {crypto : CxCrypto}.

Definition node_err {A} (m : string) : result A IicpError := Err (NodeError m).

(** [Nonce::from_slice] panics unless given twelve bytes. *)
Definition from_slice_panics (nonce : list byte) : bool := negb (zlen nonce =? NONCE_LEN).

Definition decode_field {A} (what : string) (s : string) (k : list byte -> outcome A) : outcome A :=
  match b64url_decode s with
  | Err e => Fail (NodeError (what +:+ e))
  | Ok b => k b
  end.
Definition env_field {A} (e : envelope) (name : string) (k : string -> outcome A) : outcome A :=
  match env_str e name with
  | None => Fail (NodeError ("missing " +:+ name))
  | Some s => k s
  end.

Definition request_info (task_id intent : string) : list byte := str_bytes ("IICP-CX-v1" +:+ task_id +:+ intent).
Definition request_aad (task_id intent : string) : list byte := str_bytes (task_id +:+ "|" +:+ intent).
Definition response_info (task_id : string) : list byte := str_bytes ("IICP-CX-RESP-v1" +:+ task_id).
Definition response_aad (task_id : string) : list byte := str_bytes (task_id +:+ "|resp").

(** ** Requests *)

(** The checks on the recipient's key. *)
Definition recipient_key (key : CxPublicKey) : result (list byte) IicpError :=
  if algorithm key <>? "X25519"
  then Err (NodeError ("Unsupported cx_public_key algorithm: " +:+ algorithm key))
  else
    let? pub := map_err (fun e => NodeError ("cx_public_key decode error: " +:+ e)) (b64url_decode (cx_key key)) in
    if negb (zlen pub =? 32) then Err (NodeError "cx_public_key must be 32 bytes") else Ok pub.

(** Sealing with a drawn ephemeral key and nonce. *)
Definition seal_payload (payload : json) (key : CxPublicKey) (pub ephem nonce : list byte) (task_id intent : string)
    : result (envelope * list byte) IicpError :=
  let shared := x25519 ephem pub in
  let key_material := hkdf_sha256 nonce shared (request_info task_id intent) in
  let payload_json := json_to_vec payload in
  let aad := request_aad task_id intent in
  let? ciphertext := ok_or (aes_gcm_seal key_material nonce aad payload_json) (NodeError "AES-GCM encrypt failed") in
  Ok (list_to_map [("version", u64_json 1);
                   ("recipient_key_id", JString (cx_key_id key));
                   ("kem_ciphertext", JString (b64url_encode (x25519_public ephem)));
                   ("encrypted_body", JString (b64url_encode ciphertext));
                   ("nonce", JString (b64url_encode nonce));
                   ("aad", JString (b64url_encode aad));
                   ("plaintext_size", u64_json (zlen payload_json))], shared).

Definition encrypt_payload_with_context (payload : json) (key : CxPublicKey) (task_id intent : string)
    : prog answer (outcome (envelope * list byte)) :=
  match recipient_key key with
  | Err e => Ret (Fail e)
  | Ok pub =>
      perform ephem := RandomBytes 32 in
      perform nonce := RandomBytes 12 in
      Ret (outcome_of (seal_payload payload key pub ephem nonce task_id intent))
  end.

Definition encrypt_payload (payload : json) (key : CxPublicKey) (task_id intent : string) : prog answer (outcome envelope) :=
  await? (sealed, _) := encrypt_payload_with_context payload key task_id intent in Ret (Val sealed).

Definition decrypt_payload_with_context (conf : envelope) (private_key : list byte) : outcome (json * list byte) :=
  env_field conf "kem_ciphertext" (fun kem_ct =>
  decode_field "kem_ciphertext decode: " kem_ct (fun ephem_pub =>
  if negb (zlen ephem_pub =? 32) then Fail (NodeError "kem_ciphertext must be 32 bytes")
  else
    let shared := x25519 private_key ephem_pub in
    env_field conf "nonce" (fun nonce_str =>
    decode_field "nonce decode: " nonce_str (fun nonce =>
    env_field conf "aad" (fun aad_str =>
    decode_field "aad decode: " aad_str (fun aad =>
    if negb (utf8_bytes aad) then Fail (NodeError ("aad utf8: " +:+ utf8_error aad))
    else
      match split_pipe (bytes_str aad) with
      | None => Fail (NodeError "aad missing task_id|intent separator")
      | Some (task_id, intent) =>
          let key_material := hkdf_sha256 nonce shared (request_info task_id intent) in
          env_field conf "encrypted_body" (fun enc_str =>
          decode_field "encrypted_body decode: " enc_str (fun enc_body =>
          if from_slice_panics nonce then Panic
          else
            match aes_gcm_open key_material nonce aad enc_body with
            | None => Fail (NodeError "AES-GCM decrypt failed (wrong key or tampered)")
            | Some plaintext =>
                outcome_of
                  (let? payload := map_err (fun e => NodeError ("plaintext JSON parse: " +:+ e)) (json_from_slice plaintext) in
                   Ok (payload, shared))
            end))
      end)))))).

Definition decrypt_payload (conf : envelope) (private_key : list byte) : outcome json :=
  match decrypt_payload_with_context conf private_key with
  | Val (payload, _) => Val payload
  | Fail e => Fail e
  | Panic => Panic
  end.

(** ** Responses *)

(** [encrypt_response] with the nonce it draws. *)
Definition encrypt_response (nonce : list byte) (response : json) (shared : list byte) (task_id : string)
    : result envelope IicpError :=
  let key_material := hkdf_sha256 nonce shared (response_info task_id) in
  let? ciphertext := ok_or (aes_gcm_seal key_material nonce (response_aad task_id) (json_to_vec response))
    (NodeError "AES-GCM encrypt failed") in
  Ok (list_to_map [("version", u64_json 1);
                   ("nonce", JString (b64url_encode nonce));
                   ("encrypted_body", JString (b64url_encode ciphertext))]).

Definition decrypt_response (env : envelope) (shared : list byte) (task_id : string) : outcome json :=
  env_field env "nonce" (fun nonce_b64 =>
  env_field env "encrypted_body" (fun body_b64 =>
  decode_field "nonce decode: " nonce_b64 (fun nonce =>
  let key_material := hkdf_sha256 nonce shared (response_info task_id) in
  decode_field "body decode: " body_b64 (fun ct =>
  if from_slice_panics nonce then Panic
  else
    match aes_gcm_open key_material nonce (response_aad task_id) ct with
    | None => Fail (NodeError "AES-GCM decrypt failed (wrong key or tampered)")
    | Some plaintext =>
        outcome_of (map_err (fun e => NodeError ("response JSON parse: " +:+ e)) (json_from_slice plaintext))
    end)))).

(** ** Round trips *)

Lemma split_pipe_app a b : char_in "|" a = false -> split_pipe (a +:+ "|" +:+ b) = Some (a, b).
Proof.
  unfold char_in. induction a as [|c a IH]; [done|]. cbn [String.list_ascii_of_string existsb].
  intros [Hc H]%orb_false_iff. change (String c a +:+ "|" +:+ b) with (String c (a +:+ "|" +:+ b)).
  cbn [split_pipe]. rewrite Ascii.eqb_sym, Hc, IH by done. done.
Qed.

Lemma decode_encoded {A} what l (k : list byte -> outcome A) : decode_field what (b64url_encode l) k = k l.
Proof. unfold decode_field. by rewrite b64url_decode_encode. Qed.

Lemma env_field_found {A} e name s (k : string -> outcome A) : e !! name = Some (JString s) -> env_field e name k = k s.
Proof. unfold env_field, env_str. by intros ->. Qed.

Lemma nonce_fits nonce : length nonce = 12%nat -> from_slice_panics nonce = false.
Proof. intros H. unfold from_slice_panics, zlen. by rewrite H. Qed.

(** What a recipient with the matching private key reads. *)
Lemma open_sealed payload key priv ephem nonce task_id intent env shared :
  length priv = 32%nat -> length ephem = 32%nat -> length nonce = 12%nat ->
  json_plain JSON_RECURSION_LIMIT payload = true -> utf8_bytes (request_aad task_id intent) = true ->
  char_in "|" task_id = false ->
  seal_payload payload key (x25519_public priv) ephem nonce task_id intent = Ok (env, shared) ->
  decrypt_payload_with_context env priv = Val (payload, shared).
Proof.
  intros Hp He Hn Hj Hu Hi. unfold seal_payload.
  destruct (aes_gcm_seal _ _ _ _) as [c|] eqn:Es; [|done]. intros [= <- <-]. unfold decrypt_payload_with_context.
  rewrite (env_field_found _ _ (b64url_encode (x25519_public ephem))) by done. rewrite decode_encoded.
  unfold zlen at 1. rewrite x25519_public_length by done. cbn [Z.of_nat].
  rewrite (env_field_found _ _ (b64url_encode nonce)) by done. rewrite decode_encoded.
  rewrite (env_field_found _ _ (b64url_encode (request_aad task_id intent))) by done. rewrite decode_encoded.
  rewrite Hu. cbn [negb]. unfold request_aad at 1. rewrite bytes_str_bytes, split_pipe_app by done.
  rewrite (env_field_found _ _ (b64url_encode c)) by done. rewrite decode_encoded, nonce_fits by done.
  rewrite (x25519_agree priv ephem) by done. rewrite (aes_gcm_open_seal _ _ _ _ _ Es), json_from_to by done. done.
Qed.

Lemma open_response_sealed nonce response shared task_id env :
  length nonce = 12%nat -> json_plain JSON_RECURSION_LIMIT response = true ->
  encrypt_response nonce response shared task_id = Ok env -> decrypt_response env shared task_id = Val response.
Proof.
  intros Hn Hj. unfold encrypt_response. destruct (aes_gcm_seal _ _ _ _) as [c|] eqn:Es; [|done]. intros [= <-].
  unfold decrypt_response. rewrite (env_field_found _ _ (b64url_encode nonce)) by done.
  rewrite (env_field_found _ _ (b64url_encode c)) by done. rewrite decode_encoded. cbv zeta.
  rewrite decode_encoded, nonce_fits by done. by rewrite (aes_gcm_open_seal _ _ _ _ _ Es), json_from_to.
Qed.

(** The public half of a private key, as a node advertises it. *)
Definition advertises (key : CxPublicKey) (priv : list byte) : Prop :=
  algorithm key = "X25519" /\ cx_key key = b64url_encode (x25519_public priv) /\ length priv = 32%nat.

Lemma recipient_key_advertised key priv : advertises key priv -> recipient_key key = Ok (x25519_public priv).
Proof.
  intros (Ha & Hk & Hl). unfold recipient_key. rewrite Ha, Hk, b64url_decode_encode. simpl.
  unfold zlen. by rewrite x25519_public_length.
Qed.

(** C22: what a consumer seals for a node's advertised key, the node opens to the
    same payload with the same shared secret, and what the node seals under
    that secret the consumer opens to the same response, whatever random bytes
    were drawn; the task identifier must not contain the separator of the
    additional data. *)
Theorem cx_roundtrip payload key priv task_id intent ans tr env shared :
  advertises key priv -> json_plain JSON_RECURSION_LIMIT payload = true ->
  utf8_bytes (request_aad task_id intent) = true -> char_in "|" task_id = false ->
  run ans 0 (encrypt_payload_with_context payload key task_id intent) = (tr, Val (env, shared)) ->
  decrypt_payload_with_context env priv = Val (payload, shared) /\
  forall response (nonce : vec byte 12) sealed,
    json_plain JSON_RECURSION_LIMIT response = true ->
    encrypt_response nonce response shared task_id = Ok sealed -> decrypt_response sealed shared task_id = Val response.
Proof.
  intros Hadv Hj Hu Hi. unfold encrypt_payload_with_context. rewrite (recipient_key_advertised _ _ Hadv).
  cbn [run]. intros [= _ Hs]. split.
  - destruct (seal_payload _ _ _ _ _ _ _) as [[e s]|] eqn:Es; [|done]. injection Hs as -> ->.
    eapply open_sealed; [apply Hadv|apply length_vec_to_list..|done|done|done|exact Es].
  - intros response nonce sealed Hr. by apply open_response_sealed; [apply length_vec_to_list|].
Qed.

(** A nonce of another length is not refused: once the other fields are
    readable, opening panics. *)
Lemma decrypt_nonce_panics conf priv ephem nonce aad task_id intent body :
  env_str conf "kem_ciphertext" = Some (b64url_encode ephem) -> length ephem = 32%nat ->
  env_str conf "nonce" = Some (b64url_encode nonce) -> length nonce <> 12%nat ->
  env_str conf "aad" = Some (b64url_encode aad) -> utf8_bytes aad = true -> split_pipe (bytes_str aad) = Some (task_id, intent) ->
  env_str conf "encrypted_body" = Some (b64url_encode body) ->
  decrypt_payload_with_context conf priv = Panic.
Proof.
  intros H1 H2 H3 H4 H5 H6 H7 H8. unfold decrypt_payload_with_context, env_field. rewrite H1, decode_encoded.
  unfold zlen at 1. rewrite H2. cbn [Z.of_nat]. rewrite H3, decode_encoded, H5, decode_encoded, H6. cbn [negb].
  rewrite H7, H8, decode_encoded. unfold from_slice_panics, zlen, NONCE_LEN.
  destruct (Z.eqb_spec (Z.of_nat (length nonce)) 12); [lia|]. done.
Qed.
End confidentiality.

(** ** An instance

    Keys are added bytewise, a ciphertext is the key, the nonce and the
    additional data followed by the message. *)
Definition toy_add (a b : list byte) : list byte := zip_with (fun x y => u8_of_Z (u8_to_Z x + u8_to_Z y)) a b.
Definition toy_open (p c : list byte) : option (list byte) :=
  if bool_decide (take (length p) c = p) then Some (drop (length p) c) else None.

Lemma toy_add_comm a b : length a = 32%nat -> length b = 32%nat -> toy_add a b = toy_add b a.
Proof.
  intros _ _. unfold toy_add. revert b. induction a as [|x a IH]; intros [|y b]; simpl; [done..|].
  by rewrite IH, Z.add_comm.
Qed.
Lemma toy_open_seal (k n aad m c : list byte) : Some ((k ++ n ++ aad) ++ m) = Some c -> toy_open (k ++ n ++ aad) c = Some m.
Proof. intros [= <-]. unfold toy_open. by rewrite take_app_length, bool_decide_true, drop_app_length. Qed.
Lemma toy_decode_encode l : Ok (E:=string) (str_bytes (bytes_str l)) = Ok l.
Proof. f_equal. apply String.list_byte_of_string_of_list_byte. Qed.

Definition toy_cx : CxCrypto := {|
  x25519_public k := k;
  x25519 := toy_add;
  hkdf_sha256 salt ikm info := take 32 (ikm ++ salt ++ info);
  aes_gcm_seal k n aad m := Some ((k ++ n ++ aad) ++ m);
  aes_gcm_open k n aad c := toy_open (k ++ n ++ aad) c;
  b64url_encode := bytes_str;
  b64url_decode s := Ok (str_bytes s);
  utf8_error _ := "invalid utf-8 sequence";
  x25519_public_length k H := H;
  x25519_agree := toy_add_comm;
  aes_gcm_open_seal := toy_open_seal;
  b64url_decode_encode := toy_decode_encode
|}.

Definition toy_private : list byte := repeat x07 32.
Definition toy_public_key : CxPublicKey :=
  mkCxKey "X25519" (Some "base64url") (bytes_str toy_private) "cx-1" ["response_encryption_v1"].
Definition toy_payload : json := JArray [JBool true; JNull].
Definition toy_random (n : nat) (a : action) : answer a :=
  match a with
  | RandomBytes k => vreplicate k x2a
  | Send _ => Err false
  | NewUuid | NewUuidSimple => "u"
  | GenF64 => f64_of_Z 1
  | GenBelow n => 0%fin
  | UnixNow => 0
  | ResolveSecret _ => None
  | LookupHost _ _ => None
  | CacheGet _ => None
  | TicketKeyGet => None
  | Sleep _ | CacheSet _ _ _ | TicketKeySet _ => tt
  end.

Definition toy_seal : outcome (envelope * list byte) :=
  (run toy_random 0 (encrypt_payload_with_context (crypto:=toy_cx) (json_codec:=model_json_codec) toy_payload toy_public_key
    "t1" "i")).2.

Lemma cx_roundtrip_witness :
  match toy_seal with
  | Val (env, shared) => decrypt_payload_with_context (crypto:=toy_cx) (json_codec:=model_json_codec) env toy_private = Val (toy_payload, shared)
  | _ => False
  end.
Proof.
  assert (is_some (match toy_seal with Val x => Some x | _ => None end) = true) as Hv by (vm_compute; reflexivity).
  destruct toy_seal as [[env shared]| |] eqn:E; [|discriminate Hv|discriminate Hv].
  refine (proj1 (cx_roundtrip (crypto:=toy_cx) (json_codec:=model_json_codec) toy_payload toy_public_key toy_private "t1" "i"
    toy_random _ env shared _ _ _ _ _)).
  - split; [reflexivity|split; reflexivity].
  - vm_compute. reflexivity.
  - vm_compute. reflexivity.
  - vm_compute. reflexivity.
  - rewrite <- E. apply surjective_pairing.
Defined.
