(* ===== verification/Endpoint.v ===== *)
(** * Endpoint guards ([src/endpoint_security.rs], the guards of [src/client.rs])

    Which URLs and addresses a task may be sent to.  [allow_private] is the
    answer of [private_endpoints_allowed()], an environment variable. *)

From S2P Require Import Prelude Program Text Json IpAddr ClientTypes ClientEffects.

(** ** Host names and addresses *)

Definition BLOCKED_SUFFIXES : list string := [".local"; ".internal"; ".lan"; ".test"; ".invalid"; ".localhost"].

(** The value of [IICP_PROXY_ALLOW_LOOPBACK_NODES], if it is set. *)
Definition private_endpoints_allowed (var : option string) : bool :=
  is_some_and var (fun v => str_in (trim v) ["1"; "true"; "yes"]).

Definition hostname_allowed (host : string) (allow_private : bool) : bool :=
  if str_is_empty host then false
  else if allow_private then true
  else
    let host := to_ascii_lowercase (trim_end_char "." host) in
    if str_in host ["localhost"; "0.0.0.0"; "::1"; "::"] then false
    else if existsb (ends_with host) BLOCKED_SUFFIXES then false
    else is_some (parse_ip host) || str_contains host "." || str_contains host ":".

Definition ipv4_allowed (ip : Ipv4Addr) : bool :=
  let '(a, b, c, _) := octets ip in
  negb ((a =? 0) || (a =? 10) || (a =? 127)
        || ((a =? 100) && ((64 <=? b) && (b <=? 127)))
        || ((a =? 169) && (b =? 254))
        || ((a =? 172) && ((16 <=? b) && (b <=? 31)))
        || ((a =? 192) && (b =? 0) && ((c =? 0) || (c =? 2)))
        || ((a =? 192) && (b =? 168))
        || ((a =? 198) && ((b =? 18) || (b =? 19)))
        || ((a =? 198) && (b =? 51) && (c =? 100))
        || ((a =? 203) && (b =? 0) && (c =? 113))
        || (224 <=? a)).

Definition ipv6_allowed (ip : Ipv6Addr) : bool :=
  negb (v6_is_unspecified ip || v6_is_loopback ip || v6_is_multicast ip
        || (Z.land (segment ip 0) 65024 =? 64512)
        || (Z.land (segment ip 0) 65472 =? 65152)
        || (segment ip 0 =? 256)
        || ((segment ip 0 =? 8193) && (segment ip 1 =? 3512))).

Definition address_allowed (address : IpAddr) (allow_private : bool) : bool :=
  if allow_private then true
  else
    match address with
    | V4 v4 => ipv4_allowed v4
    | V6 v6 =>
        match to_ipv4_mapped v6 with
        | Some v4 => ipv4_allowed v4
        | None => ipv6_allowed v6
        end
    end.

(** ** [resolve_endpoint_with_policy] *)

Record ResolvedEndpoint (Url : Type) := mkResolved {
  re_url : Url;
  re_host : string;
  re_addresses : list SocketAddr
}.
Arguments mkResolved {Url}.
Arguments re_url {Url}.
Arguments re_host {Url}.
Arguments re_addresses {Url}.

Definition refuse {R} (message : string) : prog answer (outcome R) := Ret (Fail (EndpointRefused message)).

(** The order of [SocketAddr]: IPv4 before IPv6, then address, then port. *)
Definition socket_rank (a : SocketAddr) : list Z :=
  match sock_ip a with
  | V4 (V4Addr a1 a2 a3 a4) => [0; a1; a2; a3; a4]
  | V6 (V6Addr l) => 1 :: l
  end ++ [sock_port a].
Fixpoint zlist_ltb (l k : list Z) : bool :=
  match l, k with
  | [], _ :: _ => true
  | x :: l, y :: k => (x <? y) || ((x =? y) && zlist_ltb l k)
  | _, [] => false
  end.

(** [BTreeSet<SocketAddr>]: sorted without duplicates *)
Fixpoint socket_insert (a : SocketAddr) (l : list SocketAddr) : list SocketAddr :=
  match l with
  | [] => [a]
  | b :: l' =>
      if bool_decide (a = b) then l
      else if zlist_ltb (socket_rank a) (socket_rank b) then a :: l
      else b :: socket_insert a l'
  end.
Definition socket_set (l : list SocketAddr) : list SocketAddr := foldl (fun acc a => socket_insert a acc) [] l.

Section resolve.
Context {Url : Type} `{UrlOps Url}.

Definition check_addresses (allow_private : bool) (parsed : Url) (host : string) (unique : list SocketAddr)
    : prog answer (outcome (ResolvedEndpoint Url)) :=
  match unique with
  | [] => refuse "provider hostname returned no addresses"
  | _ =>
      if existsb (fun address => negb (address_allowed (sock_ip address) allow_private)) unique
      then refuse "provider hostname resolved to a prohibited address"
      else Ret (Val (mkResolved parsed host unique))
  end.

Definition resolve_endpoint_with_policy (url : string) (allow_private : bool)
    : prog answer (outcome (ResolvedEndpoint Url)) :=
  match url_parse url with
  | None => refuse "provider endpoint is not a valid URL"
  | Some parsed =>
      if negb (str_in (url_scheme parsed) ["http"; "https"]) then refuse "provider endpoint must use HTTP or HTTPS"
      else if negb (str_is_empty (url_username parsed)) || is_some (url_password parsed)
      then refuse "provider endpoint must not contain user info"
      else
        match url_host_str parsed with
        | None => refuse "provider endpoint has no host"
        | Some h =>
            let host := to_ascii_lowercase (trim_end_char "." h) in
            if negb (hostname_allowed host allow_private)
            then refuse "provider hostname is prohibited by network policy"
            else
              match url_port_or_known_default parsed with
              | None => refuse "provider endpoint has no usable port"
              | Some port =>
                  match parse_ip host with
                  | Some ip => check_addresses allow_private parsed host (socket_set [mkSocket ip port])
                  | None =>
                      perform resolved := LookupHost host port in
                      match resolved with
                      | None => refuse "provider hostname resolution failed"
                      | Some l => check_addresses allow_private parsed host (socket_set l)
                      end
                  end
              end
        end
  end.
End resolve.

(** ** [is_ssrf_safe] and its neighbours in [client.rs] *)

Section client_guards.
(** [str::to_lowercase], full Unicode *)
Context (to_lowercase : string -> string).

(** [trim_start_matches(c)] *)
Definition trim_start_char (c : Ascii.ascii) (s : string) : string :=
  strip_while (String.length s) [String c EmptyString] s.

Definition host_of (rest : string) : string :=
  if starts_with rest "[" then trim_start_char "[" (default empty_str (head (str_split "]" rest)))
  else default empty_str (head (str_split ":" (default empty_str (head (str_split "/" rest))))).

Definition is_ssrf_safe (allow_private : bool) (url : string) : bool :=
  let lower := to_lowercase url in
  match option_or (strip_prefix "https://" lower) (strip_prefix "http://" lower) with
  | None => false
  | Some rest =>
      let host := host_of rest in
      if str_is_empty host then false
      else if allow_private then true
      else if str_in host ["localhost"; "0.0.0.0"; "::1"; "::"] then false
      else if existsb (ends_with host) BLOCKED_SUFFIXES then false
      else if negb (str_contains host ".") && negb (str_contains host ":") then false
      else
        match parse_ip host with
        | Some (V4 v4) =>
            if v4_is_loopback v4 || v4_is_private v4 || v4_is_link_local v4 || v4_is_broadcast v4
               || v4_is_unspecified v4 then false
            else
              let '(a, b, _, _) := octets v4 in
              if (a =? 100) && ((64 <=? b) && (b <=? 127)) then false else true
        | Some (V6 v6) =>
            if v6_is_loopback v6 || v6_is_multicast v6 || v6_is_unspecified v6 then false else true
        | None => true
        end
  end.

Definition is_browser_usable_endpoint (url : string) : bool :=
  let lower := to_lowercase url in
  if starts_with lower "https://" then true
  else
    match strip_prefix "http://" lower with
    | None => false
    | Some rest => str_in (host_of rest) ["localhost"; "127.0.0.1"; "::1"]
    end.
End client_guards.

(** The value of [IICP_CX_ALLOW_PLAINTEXT], if it is set. *)
Definition cx_plaintext_fallback_allowed (var : option string) : bool :=
  is_some_and var (fun v => str_in (to_ascii_lowercase (trim v)) ["1"; "true"; "yes"; "on"]).

Definition is_safe_query_param (s : string) : bool :=
  negb (existsb (fun c => char_in c "&=" || (code c =? 10) || (code c =? 13) || (code c =? 0))
          (String.list_ascii_of_string s)).

(** [&node_id[..node_id.len().min(8)]]: a cut inside a character panics. *)
Definition is_char_boundary (s : string) (n : nat) : bool :=
  match String.get n s with Some c => negb (utf8_cont (code c)) | None => true end.
Definition node_short_id (node_id : string) : option string :=
  if is_char_boundary node_id 8 then Some (str_take 8 node_id) else None.

(** ** Which addresses are public *)

(** An IPv4 network [a.b.c.d/len]. *)
Definition v4_number (ip : Ipv4Addr) : Z :=
  match ip with V4Addr a b c d => ((a * 256 + b) * 256 + c) * 256 + d end.
Definition v4_within (net : Ipv4Addr * Z) (ip : Ipv4Addr) : Prop :=
  v4_number ip / 2 ^ (32 - net.2) = v4_number net.1 / 2 ^ (32 - net.2).

(** The special-purpose IPv4 networks. *)
Definition v4_special : list (Ipv4Addr * Z) :=
  [(V4Addr 0 0 0 0, 8); (V4Addr 10 0 0 0, 8); (V4Addr 127 0 0 0, 8); (V4Addr 100 64 0 0, 10);
   (V4Addr 169 254 0 0, 16); (V4Addr 172 16 0 0, 12); (V4Addr 192 0 0 0, 24); (V4Addr 192 0 2 0, 24);
   (V4Addr 192 168 0 0, 16); (V4Addr 198 18 0 0, 15); (V4Addr 198 51 100 0, 24); (V4Addr 203 0 113 0, 24);
   (V4Addr 224 0 0 0, 4); (V4Addr 240 0 0 0, 4)].

Definition v4_public (ip : Ipv4Addr) : Prop := Forall (fun net => ~ v4_within net ip) v4_special.

(** The special-purpose IPv6 networks, as ranges of the leading segments:
    unique local, link local, discard, multicast, documentation. *)
Definition v6_public (ip : Ipv6Addr) : Prop :=
  let s0 := segment ip 0 in
  segments ip <> [0;0;0;0;0;0;0;0] /\ segments ip <> [0;0;0;0;0;0;0;1] /\
  ~ (64512 <= s0 <= 65023) /\ ~ (65152 <= s0 <= 65215) /\ s0 <> 256 /\ ~ (65280 <= s0 <= 65535) /\
  ~ (s0 = 8193 /\ segment ip 1 = 3512).

(** An IPv4-mapped IPv6 address is as public as the IPv4 address. *)
Definition ip_public (ip : IpAddr) : Prop :=
  match ip with
  | V4 v4 => v4_public v4
  | V6 v6 => match to_ipv4_mapped v6 with Some v4 => v4_public v4 | None => v6_public v6 end
  end.

(** The test of one network as [ipv4_allowed] writes it. *)
Definition v4_test (net : Ipv4Addr * Z) (ip : Ipv4Addr) : bool :=
  match net, ip with
  | (V4Addr x y z _, len), V4Addr a b c _ =>
      if len =? 4 then a / 16 =? x / 16
      else if len =? 8 then a =? x
      else if len <=? 16 then (a =? x) && (b / 2 ^ (16 - len) =? y / 2 ^ (16 - len))
      else (a =? x) && (b =? y) && (c =? z)
  end.

Lemma v4_within_test ip net : v4_wf ip -> net ∈ v4_special -> (v4_within net ip <-> v4_test net ip = true).
Proof.
  destruct ip as [a b c d]. unfold v4_wf, u8_range, u8_max. intros (Ha & Hb & Hc & Hd) Hin.
  unfold v4_special in Hin. rewrite !elem_of_cons in Hin.
  destruct_or! Hin; try subst net; try by apply not_elem_of_nil in Hin.
  all: unfold v4_within, v4_test; cbn [fst snd v4_number].
  all: repeat match goal with
    | |- context [2 ^ ?k] => let v := eval vm_compute in (2 ^ k) in change (2 ^ k) with v
    | |- context [if ?t then _ else _] => let v := eval vm_compute in t in change t with v; cbv iota
    end.
  all: rewrite ?andb_true_iff, !Z.eqb_eq; Z.to_euclidean_division_equations; lia.
Qed.

Lemma ipv4_allowed_tests ip : v4_wf ip -> ipv4_allowed ip = negb (existsb (fun net => v4_test net ip) v4_special).
Proof.
  destruct ip as [a b c d]. unfold v4_wf, u8_range, u8_max. intros (Ha & Hb & Hc & Hd).
  unfold ipv4_allowed, v4_special. cbn [octets existsb]. f_equal.
  assert (((64 <=? b) && (b <=? 127)) = (b / 64 =? 1)) as ->.
  { apply eq_true_iff_eq. rewrite andb_true_iff, !Z.leb_le, Z.eqb_eq. Z.to_euclidean_division_equations. lia. }
  assert (((16 <=? b) && (b <=? 31)) = (b / 16 =? 1)) as ->.
  { apply eq_true_iff_eq. rewrite andb_true_iff, !Z.leb_le, Z.eqb_eq. Z.to_euclidean_division_equations. lia. }
  assert (((b =? 18) || (b =? 19)) = (b / 2 =? 9)) as ->.
  { apply eq_true_iff_eq. rewrite orb_true_iff, !Z.eqb_eq. Z.to_euclidean_division_equations. lia. }
  assert ((224 <=? a) = ((a / 16 =? 14) || (a / 16 =? 15))) as ->.
  { apply eq_true_iff_eq. rewrite orb_true_iff, !Z.eqb_eq, Z.leb_le. Z.to_euclidean_division_equations. lia. }
  unfold v4_test. cbn -[Z.div Z.mul Z.add]. rewrite !Z.div_1_r.
  change (64 / 64) with 1. change (16 / 16) with 1. change (18 / 2) with 9. change (224 / 16) with 14.
  change (240 / 16) with 15. rewrite orb_false_r, andb_orb_distrib_r, !orb_assoc. done.
Qed.

Lemma ipv4_allowed_public ip : v4_wf ip -> (ipv4_allowed ip = true <-> v4_public ip).
Proof.
  intros Hwf. rewrite ipv4_allowed_tests, negb_true_iff by done. unfold v4_public. rewrite Forall_forall.
  rewrite <- not_true_iff_false, existsb_exists. split.
  - intros Hn net Hin Hw. apply Hn. exists net. split; [by apply list_elem_of_In|]. by apply v4_within_test.
  - intros Hn (net & Hin%list_elem_of_In & Ht). apply (Hn net Hin). by apply v4_within_test.
Qed.

(** A mask of the upper bits of a 16-bit word clears the lower ones. *)
Lemma land_high s k : 0 <= s <= u16_max -> 0 <= k <= 16 -> Z.land s (2 ^ 16 - 2 ^ k) = s / 2 ^ k * 2 ^ k.
Proof.
  intros Hs Hk. rewrite <- Z.shiftl_mul_pow2, <- Z.shiftr_div_pow2 by lia. rewrite <- Z.ldiff_ones_r by lia.
  assert (2 ^ 16 - 2 ^ k = Z.shiftl (Z.ones (16 - k)) k) as ->.
  { rewrite Z.shiftl_mul_pow2, Z.ones_equiv by lia. rewrite <- Z.sub_1_r, Z.mul_sub_distr_r, <- Z.pow_add_r by lia.
    rewrite Z.mul_1_l. do 2 f_equal. lia. }
  apply Z.bits_inj'. intros n Hn. rewrite Z.land_spec, Z.ldiff_spec, Z.shiftl_spec by lia.
  rewrite !Z.testbit_ones by lia. destruct (Z.ltb_spec n 16) as [Hlt|Hge].
  - destruct (Z.leb_spec 0 n), (Z.ltb_spec n k), (Z.leb_spec 0 (n - k)), (Z.ltb_spec (n - k) (16 - k));
      simpl; (done || lia || idtac).
  - rewrite (Z.bits_above_log2 s n); [done|lia|]. destruct (Z.eq_dec s 0) as [->|]; [simpl; lia|].
    apply Z.log2_lt_pow2; [lia|]. pose proof (Z.pow_le_mono_r 2 16 n). unfold u16_max in *. lia.
Qed.

Lemma land_range s k v : 0 <= s <= u16_max -> 0 <= k <= 16 ->
  (Z.land s (2 ^ 16 - 2 ^ k) =? v * 2 ^ k) = ((v * 2 ^ k <=? s) && (s <=? v * 2 ^ k + 2 ^ k - 1)).
Proof.
  intros Hs Hk. rewrite land_high by done. pose proof (Z.pow_pos_nonneg 2 k).
  pose proof (Z.div_mod s (2 ^ k) ltac:(lia)). pose proof (Z.mod_pos_bound s (2 ^ k) ltac:(lia)).
  apply eq_true_iff_eq. rewrite Z.eqb_eq, andb_true_iff, !Z.leb_le. split; [nia|]. intros [? ?].
  assert (s / 2 ^ k = v) as -> by nia. done.
Qed.

Lemma segment_range ip i : v6_wf ip -> 0 <= segment ip i <= u16_max.
Proof.
  intros [_ Hf]. unfold segment. destruct (segments ip !! i) as [z|] eqn:E; simpl; [|unfold u16_max; lia].
  by apply (Forall_lookup_1 _ _ _ _ Hf E).
Qed.

Lemma ipv6_allowed_public ip : v6_wf ip -> (ipv6_allowed ip = true <-> v6_public ip).
Proof.
  intros Hwf. pose proof (segment_range ip 0 Hwf) as Hs. unfold ipv6_allowed, v6_public, v6_is_multicast,
    v6_is_unspecified, v6_is_loopback.
  revert Hs. generalize (segment ip 0) as s0. intros s0 Hs.
  rewrite (land_range s0 8 255 Hs ltac:(lia) : (Z.land s0 65280 =? 65280) = ((65280 <=? s0) && (s0 <=? 65535))).
  rewrite (land_range s0 9 126 Hs ltac:(lia) : (Z.land s0 65024 =? 64512) = ((64512 <=? s0) && (s0 <=? 65023))).
  rewrite (land_range s0 6 1018 Hs ltac:(lia) : (Z.land s0 65472 =? 65152) = ((65152 <=? s0) && (s0 <=? 65215))).
  rewrite negb_true_iff, !orb_false_iff, !andb_false_iff, !bool_decide_eq_false, !Z.leb_gt, !Z.eqb_neq.
  split; intros H; destruct_and! H; split_and!; done || lia.
Qed.

Lemma to_ipv4_mapped_wf ip v4 : v6_wf ip -> to_ipv4_mapped ip = Some v4 -> v4_wf v4.
Proof.
  destruct ip as [l]. unfold v6_wf, to_ipv4_mapped. cbn [segments]. intros [_ Hf] H.
  repeat (case_match; try done). simplify_eq.
  repeat match goal with H : Forall _ (_ :: _) |- _ => apply Forall_cons in H as [? H] end.
  unfold v4_wf, u8_range, u8_max, u16_max in *. Z.to_euclidean_division_equations. lia.
Qed.

Lemma address_allowed_public ip : ip_wf ip -> (address_allowed ip false = true <-> ip_public ip).
Proof.
  destruct ip as [v4|v6]; simpl; [apply ipv4_allowed_public|]. intros Hwf.
  destruct (to_ipv4_mapped v6) as [v4|] eqn:E; [|by apply ipv6_allowed_public].
  apply ipv4_allowed_public. by eapply to_ipv4_mapped_wf.
Qed.
