(* ===== verification/HttpClient.v ===== *)
(** * HTTP client ([src/http.rs])

    The task POST with its address pinning and redirect rules, and the
    directory requests. *)

From S2P Require Import Prelude Program Text Json HttpResource IpAddr ClientTypes ClientEffects Endpoint.

Definition make_traceparent : prog answer string :=
  perform trace_id := NewUuidSimple in
  perform parent := NewUuidSimple in
  Ret ("00-" +:+ trace_id +:+ "-" +:+ str_take 16 parent +:+ "-01").

Definition traceparent_or_new (traceparent : option string) : prog answer string :=
  match traceparent with Some t => Ret t | None => make_traceparent end.

Definition resource_error (e : HttpResourceError) : IicpError := Protocol (he_code e) (he_message e) (he_status e).

(** [body["error"]["code"]] and the like *)
Definition error_field (body : json) (k : string) : option string := jget body "error" ≫= fun e => get_str e k.
Definition protocol_error (body : json) (status : Z) : IicpError :=
  Protocol (default "unknown" (error_field body "code")) (default empty_str (error_field body "message")) status.

(** The chunks of a task response, read up to the limit. *)
Fixpoint read_chunks (encoded : list byte) (chunks : list (list byte)) (broken : bool)
    : result (list byte) IicpError :=
  match chunks with
  | [] => if broken then Err (Http false) else Ok encoded
  | chunk :: chunks =>
      if MAX_HTTP_TASK_BODY_BYTES <? zlen encoded + zlen chunk
      then Err (resource_error (too_large 500 "response_too_large" "response"))
      else read_chunks (encoded ++ chunk) chunks broken
  end.

Definition decode_task_response `{SerdeOps} (response : http_response) : result json IicpError :=
  let status := rs_status response in
  let? _ := map_err resource_error (validate_response_headers (rs_headers response)) in
  let? encoded := read_chunks [] (rs_chunks response) (rs_broken response) in
  let? body := ok_or (from_slice encoded)
    (Protocol "invalid_http_body" "provider returned invalid JSON" (if 400 <=? status then status else 500)) in
  if 400 <=? status then Err (protocol_error body status) else Ok body.

Section http_client.
Context {Url : Type} `{UrlOps Url} `{SerdeOps}.
(** [HttpClient::token] *)
Context (token : option string).

(** ** Tasks *)

Definition task_request (resolved : ResolvedEndpoint Url) (selected : SocketAddr) (encoded : list byte)
    (auth_override consumer_token : option string) (tp : string) : http_request :=
  mkRequestOut "POST" (url_to_string (re_url resolved)) (option_or auth_override token)
    ([("content-type", "application/json"); ("accept", "application/json"); ("traceparent", tp)]
     ++ match consumer_token with Some ct => [("x-iicp-consumer-token", ct)] | None => [] end)
    (Some encoded) false (Some (re_host resolved, selected)).

(** The redirect loop; [left] is three less the redirects followed.  Redirects
    are not followed by the client, so the response's URL is the request's. *)
Fixpoint post_loop (left : nat) (encoded : list byte) (auth_override consumer_token : option string) (tp : string)
    (allow_private : bool) (current : string) : prog answer (outcome http_response) :=
  await? resolved := resolve_endpoint_with_policy current allow_private in
  match re_addresses resolved with
  | [] => refuse "provider hostname returned no addresses"
  | selected :: _ =>
      perform r := Send (task_request resolved selected encoded auth_override consumer_token tp) in
      match r with
      | Err connect => Ret (Fail (Http connect))
      | Ok candidate =>
          if (rs_status candidate =? 307) || (rs_status candidate =? 308)
          then
            match left with
            | O => refuse "provider redirect limit exceeded"
            | S left' =>
                match header_str (rs_headers candidate) "location" with
                | None => refuse "provider redirect omitted Location"
                | Some location =>
                    match url_join (re_url resolved) location with
                    | None => refuse "provider redirect Location is invalid"
                    | Some next =>
                        if negb (same_origin next (re_url resolved))
                        then refuse "cross-origin provider redirect is not allowed"
                        else post_loop left' encoded auth_override consumer_token tp allow_private (url_to_string next)
                    end
                end
            end
          else if is_redirection (rs_status candidate) then refuse "provider redirect method is not allowed"
          else Ret (Val candidate)
      end
  end.

Definition post_json_ct_with_policy (url : string) (body : json) (auth_override consumer_token traceparent : option string)
    (allow_private : bool) : prog answer (outcome TaskResponse) :=
  run! tp := traceparent_or_new traceparent in
  match encode_request to_vec body with
  | Err e => Ret (Fail (resource_error e))
  | Ok encoded =>
      await? resp := post_loop 3 encoded auth_override consumer_token tp allow_private url in
      Ret (outcome_of
        (let? resp_body := decode_task_response resp in map_err Serde (response_from_value resp_body)))
  end.

(** ** The directory *)

Definition directory_request (method url : string) (bearer : option string) (headers : list (string * string))
    (body : option json) (follow : bool) : http_request :=
  mkRequestOut method url bearer headers (to_vec <$> body) follow None.

Definition send_result {R} (r : result http_response bool) (k : http_response -> prog answer (outcome R))
    : prog answer (outcome R) :=
  match r with Err connect => Ret (Fail (Http connect)) | Ok resp => k resp end.

Definition get_json (url : string) (traceparent : option string) : prog answer (outcome json) :=
  run! tp := traceparent_or_new traceparent in
  perform r := Send (directory_request "GET" url token [("traceparent", tp)] None true) in
  send_result r (fun resp =>
    Ret (outcome_of
      (let? body := response_json resp in
       if 400 <=? rs_status resp then Err (protocol_error body (rs_status resp)) else Ok body))).

Definition restricted_headers (tp membership subject_id : string) : list (string * string) :=
  [("traceparent", tp); ("x-iicp-membership", membership); ("x-iicp-subject-id", subject_id)].

Definition get_restricted_json (url membership subject_id : string) (traceparent : option string)
    : prog answer (outcome json) :=
  run! tp := traceparent_or_new traceparent in
  perform r := Send (directory_request "GET" url None (restricted_headers tp membership subject_id) None false) in
  send_result r (fun resp =>
    if is_redirection (rs_status resp) then refuse "restricted directory redirect is not allowed"
    else
      Ret (outcome_of
        (let? body := response_json resp in
         if 400 <=? rs_status resp then Err (protocol_error body (rs_status resp)) else Ok body))).

Definition post_restricted_json (url : string) (body : json) (membership subject_id : string)
    (auth_override traceparent : option string) : prog answer (outcome (Z * json)) :=
  run! tp := traceparent_or_new traceparent in
  perform r := Send (directory_request "POST" url (option_or auth_override token)
                       (restricted_headers tp membership subject_id) (Some body) false) in
  send_result r (fun resp =>
    if is_redirection (rs_status resp) then refuse "restricted directory redirect is not allowed"
    else Ret (outcome_of (let? body := response_json resp in Ok (rs_status resp, body)))).
End http_client.

(** ** Where tasks are sent *)

(** The requests sent so far, with their answers. *)
Definition sent : Type := list (http_request * result http_response bool).
Definition record_send (s : sent) (a : action) : answer a -> sent :=
  match a with Send rq => fun r => s ++ [(rq, r)] | _ => fun _ => s end.

Definition any_action (s : sent) (a : action) : Prop := True.

(** A URL and an address that passed the endpoint guard. *)
Record endpoint_checked {Url} `{UrlOps Url} (allow_private : bool) (u : Url) (host : string) (a : SocketAddr) : Prop := {
  ec_scheme : url_scheme u = "http" \/ url_scheme u = "https";
  ec_user : url_username u = EmptyString /\ url_password u = None;
  ec_host : exists h, url_host_str u = Some h /\ host = to_ascii_lowercase (trim_end_char "." h);
  ec_name : hostname_allowed host allow_private = true;
  ec_address : allow_private = false -> ip_wf (sock_ip a) -> ip_public (sock_ip a)
}.

Section guarded.
Context {Url : Type} `{UrlOps Url} `{SerdeOps} (token : option string).

Definition resolved_ok (allow_private : bool) (url : string) (r : ResolvedEndpoint Url) : Prop :=
  url_parse url = Some (re_url r) /\
  forall a, a ∈ re_addresses r -> endpoint_checked allow_private (re_url r) (re_host r) a.

Lemma check_addresses_along (ok : sent -> action -> Prop) s allow (u : Url) host l :
  (forall a, address_allowed (sock_ip a) allow = true -> endpoint_checked allow u host a) ->
  along record_send ok (on_val (fun s' r => s' = s /\ re_url r = u /\ forall a, a ∈ re_addresses r ->
    endpoint_checked allow (re_url r) (re_host r) a)) s (check_addresses allow u host l).
Proof.
  intros Hok. unfold check_addresses. destruct l as [|a l]; [done|].
  destruct (existsb _ (a :: l)) eqn:E; [done|]. cbn [along on_val]. split; [done|]. split; [done|].
  intros b Hb. apply Hok. apply not_true_iff_false in E. destruct (address_allowed (sock_ip b) allow) eqn:Eb; [done|].
  destruct E. apply existsb_exists. exists b. rewrite Eb. split; [by apply list_elem_of_In|done].
Qed.

Lemma resolve_along (ok : sent -> action -> Prop) s url allow :
  (forall s host port, ok s (LookupHost host port)) ->
  along record_send ok (on_val (fun s' r => s' = s /\ resolved_ok allow url r)) s
    (resolve_endpoint_with_policy (Url:=Url) url allow).
Proof.
  intros Hlook. unfold resolve_endpoint_with_policy, resolved_ok. destruct (url_parse url) as [u|] eqn:Eu; [|done].
  destruct (str_in (url_scheme u) ["http"; "https"]) eqn:Es; [|done]. cbn [negb].
  destruct (str_is_empty (url_username u)) eqn:En; [|done]. cbn [negb orb].
  destruct (url_password u) eqn:Ep; [done|]. cbn [is_some].
  destruct (url_host_str u) as [h|] eqn:Eh; [|done].
  destruct (hostname_allowed (to_ascii_lowercase (trim_end_char "." h)) allow) eqn:Ea; [|done]. cbn [negb].
  destruct (url_port_or_known_default u) as [port|]; [|done].
  assert (forall a, address_allowed (sock_ip a) allow = true ->
    endpoint_checked allow u (to_ascii_lowercase (trim_end_char "." h)) a) as Hok.
  { intros a Hadd. split.
    - apply str_in_elem in Es. set_solver.
    - unfold str_is_empty in En. apply String.eqb_eq in En. done.
    - by exists h.
    - done.
    - intros -> Hwf. by apply address_allowed_public. }
  assert (forall l, along record_send ok (on_val (fun s' r => s' = s /\ Some u = Some (re_url r) /\
    forall a, a ∈ re_addresses r -> endpoint_checked allow (re_url r) (re_host r) a)) s
    (check_addresses allow u (to_ascii_lowercase (trim_end_char "." h)) l)) as Hc.
  { intros l. eapply along_mono; [|by apply check_addresses_along]. intros s' [r|e|]; simpl; [|done..].
    intros (-> & <- & ?). done. }
  destruct (parse_ip _); [apply Hc|]. split; [apply Hlook|]. intros [l|]; [apply Hc|done].
Qed.

Lemma traceparent_along (ok : sent -> action -> Prop) s o :
  (forall s, ok s NewUuidSimple) -> along record_send ok (fun s' _ => s' = s) s (traceparent_or_new o).
Proof. intros Hok. destruct o; simpl; [done|]. split; [done|]. intros r. by split. Qed.

(** What one transmission of a task looks like: the [n]-th of at most four,
    to a checked address of the URL's origin, without automatic redirects,
    with this body, this bearer token and this consumer token. *)
Record send_guarded (url : string) (body : json) (auth ct : option string) (allow_private : bool)
    (s : sent) (rq : http_request) : Prop := {
  sg_count : (length s < 4)%nat;
  sg_url : exists u0 u host addr, url_parse url = Some u0 /\ rq_url rq = url_to_string u /\
    (u = u0 \/ same_origin u u0 = true) /\ rq_pin rq = Some (host, addr) /\
    endpoint_checked (Url:=Url) allow_private u host addr;
  sg_follow : rq_follow rq = false;
  sg_auth : rq_bearer rq = option_or auth token;
  sg_ct : forall t, ("x-iicp-consumer-token", t) ∈ rq_headers rq <-> ct = Some t;
  sg_body : rq_body rq = Some (to_vec body) /\ zlen (to_vec body) <= MAX_HTTP_TASK_BODY_BYTES
}.

Definition task_action_ok (url : string) (body : json) (auth ct : option string) (allow_private : bool)
    (s : sent) (a : action) : Prop :=
  match a with
  | Send rq => send_guarded url body auth ct allow_private s rq
  | LookupHost _ _ | NewUuidSimple => True
  | _ => False
  end.

(** The response a value was decoded from: the last one received, complete,
    within the limit, neither an error nor a redirect. *)
Definition accepted_response (s : sent) (v : TaskResponse) : Prop :=
  exists s0 rq resp body, s = s0 ++ [(rq, Ok resp)] /\ rs_broken resp = false /\
    is_redirection (rs_status resp) = false /\ rs_status resp < 400 /\
    validate_response_headers (rs_headers resp) = Ok tt /\
    zlen (concat (rs_chunks resp)) <= MAX_HTTP_TASK_BODY_BYTES /\
    from_slice (concat (rs_chunks resp)) = Some body /\ response_from_value body = Ok v.

Lemma same_origin_trans (a b c : Url) : same_origin a b = true -> same_origin b c = true -> same_origin a c = true.
Proof.
  unfold same_origin. destruct (url_origin a), (url_origin b), (url_origin c); try done.
  rewrite !bool_decide_eq_true. congruence.
Qed.

Lemma header_consumer_token ct tp t :
  ("x-iicp-consumer-token", t) ∈ [("content-type", "application/json"); ("accept", "application/json");
     ("traceparent", tp)] ++ match ct with Some ct => [("x-iicp-consumer-token", ct)] | None => [] end <-> ct = Some t.
Proof.
  rewrite elem_of_app, !elem_of_cons. split.
  - intros [H1|H1]; [destruct_or! H1; try done; by apply not_elem_of_nil in H1|].
    destruct ct as [x|]; [|by apply not_elem_of_nil in H1]. apply list_elem_of_singleton in H1. congruence.
  - intros ->. right. by apply list_elem_of_singleton.
Qed.

Lemma post_loop_along url body auth ct tp allow (u0 : Url) left s current :
  zlen (to_vec body) <= MAX_HTTP_TASK_BODY_BYTES -> url_parse url = Some u0 ->
  (forall u, url_parse current = Some u -> u = u0 \/ same_origin u u0 = true) -> (length s + left = 3)%nat ->
  along record_send (task_action_ok url body auth ct allow)
    (on_val (fun s' resp => is_redirection (rs_status resp) = false /\ exists s0 rq, s' = s0 ++ [(rq, Ok resp)])) s
    (post_loop token left (to_vec body) auth ct tp allow current).
Proof.
  intros Hlen Hu0. revert s current. induction left as [|left IH]; intros s current Hcur Hs.
  all: cbn [post_loop]; eapply along_try; [by apply resolve_along|]; intros ? r [-> [Hparse Hadd]].
  all: destruct (re_addresses r) as [|selected rest]; [done|].
  all: pose proof (Hadd selected ltac:(set_solver)) as Hsel.
  all: (split; [split; cbn; [lia| |done|done| |done] |]).
  all: try (exists u0, (re_url r), (re_host r), selected; by auto using Hcur).
  all: try (intros t; apply header_consumer_token).
  all: intros [cand|connect]; [|done].
  all: destruct ((rs_status cand =? 307) || (rs_status cand =? 308)); cbn [record_send].
  - done.
  - destruct (is_redirection (rs_status cand)) eqn:Er; [done|]. split; [done|]. eauto.
  - destruct (header_str _ _) as [loc|]; [|done]. destruct (url_join (re_url r) loc) as [next|]; [|done].
    destruct (same_origin next (re_url r)) eqn:Eo; [|done]. apply IH; [|rewrite length_app; simpl; lia].
    intros u. rewrite url_print_parse. intros [= <-]. right.
    destruct (Hcur _ Hparse) as [<-|Hx]; [done|by eapply same_origin_trans].
  - destruct (is_redirection (rs_status cand)) eqn:Er; [done|]. split; [done|]. eauto.
Qed.

Lemma read_chunks_ok chunks : forall encoded broken out,
  zlen encoded <= MAX_HTTP_TASK_BODY_BYTES -> read_chunks encoded chunks broken = Ok out ->
  out = encoded ++ concat chunks /\ broken = false /\ zlen out <= MAX_HTTP_TASK_BODY_BYTES.
Proof.
  induction chunks as [|c chunks IH]; intros encoded broken out Hl; simpl.
  - destruct broken; [done|]. intros [= <-]. by rewrite app_nil_r.
  - destruct (Z.ltb_spec MAX_HTTP_TASK_BODY_BYTES (zlen encoded + zlen c)); [done|].
    intros Hr. apply IH in Hr as (-> & -> & ?); [|by rewrite zlen_app]. by rewrite <- app_assoc in *.
Qed.

Lemma decode_accepted s0 rq resp v :
  is_redirection (rs_status resp) = false ->
  (let? resp_body := decode_task_response resp in map_err Serde (response_from_value resp_body)) = Ok v ->
  accepted_response (s0 ++ [(rq, Ok resp)]) v.
Proof.
  intros Hr (body & Hd & Hv)%rbind_Ok. unfold decode_task_response in Hd. apply rbind_Ok in Hd as ([] & Hh & Hd).
  apply rbind_Ok in Hd as (enc & Hc & Hd). apply rbind_Ok in Hd as (b & Hb & Hd).
  destruct (Z.leb_spec 400 (rs_status resp)); [done|]. injection Hd as ->.
  apply read_chunks_ok in Hc as (-> & ? & ?); [|done]. exists s0, rq, resp, body.
  destruct (validate_response_headers _) as [[]|]; [|done].
  destruct (from_slice _) as [?|]; [|done]. injection Hb as ->.
  destruct (response_from_value body); [|done]. injection Hv as ->. done.
Qed.

Lemma post_along url body auth ct tp allow :
  along record_send (task_action_ok url body auth ct allow) (on_val accepted_response) []
    (post_json_ct_with_policy token url body auth ct tp allow).
Proof.
  unfold post_json_ct_with_policy. eapply along_bind; [by apply traceparent_along|]. intros s t ->.
  unfold encode_request. destruct (Z.ltb_spec MAX_HTTP_TASK_BODY_BYTES (zlen (to_vec body))); [done|].
  destruct (url_parse url) as [u0|] eqn:Eu.
  - eapply along_try; [apply (post_loop_along url body auth ct t allow u0); [lia|done| |done]|].
    + intros u. rewrite Eu. intros [= <-]. by left.
    + intros s' resp (Hr & s0 & rq & ->). simpl.
      destruct (let? b := decode_task_response resp in _) as [v|e] eqn:E; simpl; [|done].
      by apply decode_accepted.
  - cbn [post_loop]. unfold resolve_endpoint_with_policy. rewrite Eu. done.
Qed.
End guarded.

(** The requests of a trace. *)
Definition sends_of (tr : list (step answer)) : sent := foldl (upd_step record_send) [] tr.

(** C7: a task POST reaches only checked addresses.  Whatever the network and
    the provider answer, a task is transmitted at most four times, always to an
    address that passed the endpoint guard (a public one unless private
    endpoints are allowed) under the origin of the given URL, with automatic
    redirects off, with exactly the given body and tokens; and a value is
    returned only if the last response was complete, of legal size and coding,
    and neither an error nor a redirect. *)
Theorem post_task_guarded {Url} `{UrlOps Url} `{SerdeOps} token url body auth ct tp allow ans tr res :
  run ans 0 (post_json_ct_with_policy token url body auth ct tp allow) = (tr, res) ->
  (forall tr1 rq r tr2, tr = tr1 ++ Did (Send rq) r :: tr2 ->
     send_guarded (Url:=Url) token url body auth ct allow (sends_of tr1) rq) /\
  (forall v, res = Val v -> accepted_response (sends_of tr) v).
Proof.
  intros Hrun. destruct (run_along _ _ _ _ _ _ _ _ _ (post_along token url body auth ct tp allow) Hrun) as [Hf Hs].
  split.
  - intros tr1 rq r tr2 E. exact (Hs _ _ _ _ E).
  - intros v ->. exact Hf.
Qed.
