(* ===== verification/IntentPolicy.v ===== *)
(** * Intent policy ([src/policy.rs], [IicpClient::validate_intent])

    Which intents the client refuses before it talks to anyone. *)

From S2P Require Import Prelude Text ClientTypes.

Definition POLICY_REFUSAL_CODE : string := "IICP-POLICY-001".

Inductive IntentRiskCategory := Prohibited | HighRisk | TransparencyRisk | MinimalOrGeneral.
Global Instance risk_eq_dec : EqDecision IntentRiskCategory.
Proof. solve_decision. Defined.

Record ProhibitedIntentRule := mkRule { rule_id : string; label : string; fragments : list string }.

Definition PROHIBITED_INTENT_RULES : list ProhibitedIntentRule :=
  [mkRule "eu-ai-act-social-scoring" "social scoring" ["social-scoring"; "social_scoring"; "social:scoring"];
   mkRule "eu-ai-act-criminal-risk" "individual criminal risk prediction"
     ["criminal-risk"; "criminal_risk"; "criminal:risk"; "predict-crime"];
   mkRule "eu-ai-act-workplace-education-emotion" "workplace or education emotion recognition"
     ["emotion:workplace"; "emotion:education"; "workplace-monitoring"; "education-monitoring"; "worker-monitoring"];
   mkRule "eu-ai-act-protected-trait-biometric" "biometric protected-trait classification"
     ["protected-trait"; "protected_trait"; "biometric:protected"];
   mkRule "eu-ai-act-untargeted-face-scraping" "untargeted facial image scraping for recognition databases"
     ["untargeted-scraping"; "untargeted_scraping"; "face-scraping"; "facial-scraping"];
   mkRule "eu-ai-act-realtime-remote-biometric-id" "real-time remote biometric identification"
     ["remote-biometric:realtime"; "realtime-remote-biometric"; "real-time-remote-biometric"];
   mkRule "eu-ai-act-nonconsensual-sexual-deepfake" "non-consensual sexual deepfake or CSAM generation"
     ["nonconsensual-sexual"; "non-consensual-sexual"; "child-sexual-abuse"; "csam"]].

Definition HIGH_RISK_INTENT_RULES : list ProhibitedIntentRule :=
  [mkRule "eu-ai-act-employment-workforce" "employment or workforce decision"
     ["employment:hiring"; "employment:screen"; "employment:rank"; "recruitment:decision"; "workforce:decision";
      "worker-management"; "worker:performance"; "worker:discipline"];
   mkRule "eu-ai-act-education-admission-grading" "education admission or grading decision"
     ["education:admission"; "education:grading"; "education:grade"; "student:admission"; "student:assess";
      "exam-grading"];
   mkRule "eu-ai-act-credit-essential-services" "credit or essential-services decision"
     ["credit-scoring"; "credit:score"; "credit:decision"; "essential-services"; "benefits:eligibility";
      "public-benefit:eligibility"];
   mkRule "eu-ai-act-law-enforcement-border-justice"
     "law enforcement, border, justice or democratic-process decision"
     ["law-enforcement"; "law_enforcement"; "migration:decision"; "asylum:decision"; "border-control";
      "justice:decision"; "democratic-process"; "election:decision"];
   mkRule "eu-ai-act-healthcare-critical-infrastructure" "healthcare or critical-infrastructure safety decision"
     ["healthcare:decision"; "medical:diagnosis"; "medical:triage"; "clinical:decision"; "critical-infrastructure";
      "grid:stabilize"; "hospital:surge-capacity"];
   mkRule "eu-ai-act-physical-world-control" "physical-world control"
     ["robotics:control"; "robotics:fleet"; "drone:control"; "drone:search"; "iot:actuate"; "physical-world";
      "system_control"]].

Definition TRANSPARENCY_FRAGMENTS : list string :=
  ["chatbot"; "ai-assistant"; "synthetic-media"; "deepfake:labelled"; "content:generate-public"; "creative:generate"].

Definition normalize_intent (intent : string) : string := to_ascii_lowercase (trim intent).

Definition rule_matches (normalized : string) (r : ProhibitedIntentRule) : bool :=
  existsb (str_contains normalized) (fragments r).

Definition classify_intent (intent : string) : IntentRiskCategory :=
  let normalized := normalize_intent intent in
  if existsb (rule_matches normalized) PROHIBITED_INTENT_RULES then Prohibited
  else if existsb (rule_matches normalized) HIGH_RISK_INTENT_RULES then HighRisk
  else if existsb (str_contains normalized) TRANSPARENCY_FRAGMENTS then TransparencyRisk
  else MinimalOrGeneral.

Definition rule_reason (r : ProhibitedIntentRule) : string := label r +:+ " (" +:+ rule_id r +:+ ")".

Definition prohibited_intent_reason (intent : string) : option string :=
  rule_reason <$> List.find (rule_matches (normalize_intent intent)) PROHIBITED_INTENT_RULES.

Definition category_name (c : IntentRiskCategory) : string :=
  match c with
  | Prohibited => "Prohibited" | HighRisk => "HighRisk"
  | TransparencyRisk => "TransparencyRisk" | MinimalOrGeneral => "MinimalOrGeneral"
  end.

Definition ensure_intent_allowed (intent : string) : result unit IicpError :=
  let category := classify_intent intent in
  let rule := List.find (rule_matches (normalize_intent intent)) (PROHIBITED_INTENT_RULES ++ HIGH_RISK_INTENT_RULES) in
  match category with
  | Prohibited | HighRisk =>
      let reason := default "restricted intent" (rule_reason <$> rule) in
      Err (PolicyRefused POLICY_REFUSAL_CODE
        ("Intent refused by IICP client policy before discovery/routing: " +:+ reason +:+ " ["
         +:+ category_name category
         +:+ "]. Use an explicit private, documented, human-reviewed compliance path outside the public mesh for restricted/high-risk workflows."))
  | _ => Ok tt
  end.

(** [^urn:iicp:intent:[a-z0-9_:/-]+$] *)
Definition intent_char (c : Ascii.ascii) : bool := is_ascii_lowercase c || is_ascii_digit c || char_in c "_:/-".
Definition intent_re (intent : string) : bool :=
  match strip_prefix "urn:iicp:intent:" intent with
  | Some rest => negb (str_is_empty rest) && str_all intent_char rest
  | None => false
  end.

Definition validate_intent (intent : string) : result unit IicpError :=
  if negb (intent_re intent) then Err (InvalidIntent intent) else ensure_intent_allowed intent.

(** ** What is refused *)

(** The URN grammar of an intent. *)
Definition intent_alphabet : list Ascii.ascii :=
  String.list_ascii_of_string "abcdefghijklmnopqrstuvwxyz0123456789_:/-".
Definition well_formed_intent (i : string) : Prop :=
  exists rest, i = "urn:iicp:intent:" +:+ rest /\ rest <> EmptyString /\
    Forall (fun c => c ∈ intent_alphabet) (String.list_ascii_of_string rest).

(** A fragment of a rule occurs somewhere in the intent. *)
Definition hits_rule (i : string) (r : ProhibitedIntentRule) : Prop :=
  exists f, f ∈ fragments r /\ exists before after, i = before +:+ f +:+ after.

Lemma intent_char_spec c : intent_char c = true <-> c ∈ intent_alphabet.
Proof.
  rewrite <- (bool_decide_eq_true (c ∈ intent_alphabet)).
  destruct c as [[] [] [] [] [] [] [] []]; vm_compute; done.
Qed.

Lemma str_all_Forall (p : Ascii.ascii -> bool) (P : Ascii.ascii -> Prop) s :
  (forall c, p c = true <-> P c) -> (str_all p s = true <-> Forall P (String.list_ascii_of_string s)).
Proof.
  intros H. unfold str_all. rewrite forallb_forall, Forall_forall. setoid_rewrite H.
  setoid_rewrite list_elem_of_In. done.
Qed.

Lemma intent_re_spec i : intent_re i = true <-> well_formed_intent i.
Proof.
  unfold intent_re, well_formed_intent. split.
  - destruct (strip_prefix "urn:iicp:intent:" i) as [rest|] eqn:E; [|done]. apply strip_prefix_spec in E as ->.
    intros [Hne Hall]%andb_true_iff. exists rest. split; [done|]. split.
    + unfold str_is_empty in Hne. destruct (String.eqb_spec rest empty_str); done.
    + by apply (str_all_Forall intent_char _ _ intent_char_spec).
  - intros (rest & E & Hne & Hall). apply strip_prefix_spec in E as ->.
    apply (str_all_Forall intent_char _ _ intent_char_spec) in Hall. rewrite Hall.
    unfold str_is_empty. by destruct (String.eqb_spec rest empty_str).
Qed.

(** An intent of the grammar is its own normal form. *)
Lemma normalize_intent_id i : intent_re i = true -> normalize_intent i = i.
Proof.
  intros H. assert (str_all intent_char i = true) as Hall.
  { unfold intent_re in H. destruct (strip_prefix "urn:iicp:intent:" i) as [rest|] eqn:E; [|done].
    apply strip_prefix_spec in E as ->. rewrite str_all_app. apply andb_true_iff in H as [_ ->]. done. }
  unfold normalize_intent. rewrite trim_id.
  - apply to_ascii_lowercase_id. revert Hall. apply str_all_mono. intros c.
    destruct c as [[] [] [] [] [] [] [] []]; vm_compute; done.
  - revert Hall. apply str_all_mono. intros c. destruct c as [[] [] [] [] [] [] [] []]; vm_compute; done.
Qed.

Lemma rule_matches_spec i r : rule_matches i r = true <-> hits_rule i r.
Proof.
  unfold rule_matches, hits_rule. rewrite existsb_exists. setoid_rewrite str_contains_spec.
  setoid_rewrite list_elem_of_In. done.
Qed.

Lemma existsb_rules i rs : existsb (rule_matches i) rs = true <-> Exists (hits_rule i) rs.
Proof.
  rewrite existsb_exists, Exists_exists. setoid_rewrite rule_matches_spec. setoid_rewrite list_elem_of_In. done.
Qed.

Lemma find_first_match i rs pre r rest :
  rs = pre ++ r :: rest -> hits_rule i r -> Forall (fun q => ~ hits_rule i q) pre ->
  List.find (rule_matches i) rs = Some r.
Proof.
  intros -> Hr Hpre. induction Hpre as [|q pre Hq _ IH]; simpl.
  - apply rule_matches_spec in Hr. by rewrite Hr.
  - destruct (rule_matches i q) eqn:E; [|done]. by apply rule_matches_spec in E.
Qed.

(** The intent gate is exact.  An intent is accepted if and only if it is a
    URN of the grammar in which no fragment of a prohibited or high-risk rule
    occurs; outside the grammar it is reported as invalid; and inside it a
    refusal names the first rule of the two tables that the intent hits. *)
Theorem intent_policy_exact i :
  (validate_intent i = Ok tt <->
     well_formed_intent i /\ ~ Exists (hits_rule i) (PROHIBITED_INTENT_RULES ++ HIGH_RISK_INTENT_RULES)) /\
  (validate_intent i = Err (InvalidIntent i) <-> ~ well_formed_intent i) /\
  (forall pre r rest, well_formed_intent i ->
     PROHIBITED_INTENT_RULES ++ HIGH_RISK_INTENT_RULES = pre ++ r :: rest ->
     hits_rule i r -> Forall (fun q => ~ hits_rule i q) pre ->
     exists m1 m2, validate_intent i = Err (PolicyRefused POLICY_REFUSAL_CODE (m1 +:+ rule_reason r +:+ m2))).
Proof.
  rewrite <- intent_re_spec. unfold validate_intent. destruct (intent_re i) eqn:Hre; cbn [negb]; cycle 1.
  { split; [|split; [|intros ? ? ? H%intent_re_spec; congruence]]; split; try (intros [? _]; discriminate); discriminate || done. }
  unfold ensure_intent_allowed, classify_intent. rewrite (normalize_intent_id i Hre), Exists_app, <- !existsb_rules.
  split; [|split].
  - destruct (existsb (rule_matches i) PROHIBITED_INTENT_RULES).
    { split; [discriminate|]. intros [_ Hn]. destruct Hn. by left. }
    destruct (existsb (rule_matches i) HIGH_RISK_INTENT_RULES).
    { split; [discriminate|]. intros [_ Hn]. destruct Hn. by right. }
    destruct (existsb (str_contains i) TRANSPARENCY_FRAGMENTS); (split; [|done]); intros _; (split; [done|]);
      intros [|]; discriminate.
  - destruct (existsb (rule_matches i) PROHIBITED_INTENT_RULES); [by split|].
    destruct (existsb (rule_matches i) HIGH_RISK_INTENT_RULES); [by split|].
    destruct (existsb (str_contains i) TRANSPARENCY_FRAGMENTS); by split.
  - intros pre r rest _ E Hr Hpre. rewrite (find_first_match i _ pre r rest E Hr Hpre).
    assert (Exists (hits_rule i) (PROHIBITED_INTENT_RULES ++ HIGH_RISK_INTENT_RULES)) as Hex.
    { rewrite E. apply Exists_exists. exists r. split; [|done]. set_solver. }
    rewrite Exists_app, <- !existsb_rules in Hex.
    destruct (existsb (rule_matches i) PROHIBITED_INTENT_RULES).
    + eexists _, _. reflexivity.
    + destruct (existsb (rule_matches i) HIGH_RISK_INTENT_RULES); [|by destruct Hex]. eexists _, _. reflexivity.
Qed.

Example intent_high_risk :
  is_ok (validate_intent "urn:iicp:intent:llm:chat:v1") = true /\
  is_ok (validate_intent "urn:iicp:intent:employment:hiring:v1") = false.
Proof. vm_compute. done. Qed.
