(* ===== verification/RoutingPolicy.v ===== *)
(** * Remote-routing policy ([src/routing_policy.rs])

    Which discovered nodes may receive a prompt. *)

From S2P Require Import Prelude Text Json ClientTypes.

Definition ROUTING_POLICY_REFUSAL_CODE : string := "IICP-POLICY-ROUTING".

Record EffectiveRoutingPolicy := mkEffective {
  ep_profile : RoutingProfile;
  allowed_regions : list string;
  require_encryption : bool;
  require_policy_manifest : bool;
  require_no_payload_retention : bool;
  allow_remote_executor : bool;
  known_operator_only : bool;
  required_manifest_identity_level : option string
}.

Definition profile_defaults (profile : RoutingProfile) : EffectiveRoutingPolicy :=
  match profile with
  | Standard => mkEffective profile [] true false false true false None
  | Sensitive => mkEffective profile [] true false false false false None
  | EuRestricted => mkEffective profile ["eu"; "eea"] true false false true false None
  | StrictPolicy => mkEffective profile [] true true true true false None
  | DebugOverride => mkEffective profile [] false false false true false None
  end.

Definition resolved_policy (policy : option RoutingPolicy) : EffectiveRoutingPolicy :=
  let effective := profile_defaults (default Standard (rp_profile <$> policy)) in
  match policy with
  | None => effective
  | Some p =>
      mkEffective (ep_profile effective)
        (match rp_allowed_regions p with [] => allowed_regions effective | l => l end)
        (default (require_encryption effective) (rp_require_encryption p))
        (default (require_policy_manifest effective) (rp_require_policy_manifest p))
        (default (require_no_payload_retention effective) (rp_require_no_payload_retention p))
        (default (allow_remote_executor effective) (rp_allow_remote_executor p))
        (default (known_operator_only effective) (rp_known_operator_only p))
        (option_or (rp_required_manifest_identity_level p) (required_manifest_identity_level effective))
  end.

(** ** One node *)

Definition region_allowed (region : string) (allowed : list string) : bool :=
  let value := to_ascii_lowercase (trim region) in
  existsb (fun raw =>
    let item := to_ascii_lowercase (trim raw) in
    if str_is_empty item then false
    else (value ==? item) || starts_with value (item +:+ "-")
         || ((item ==? "eea") && starts_with value "eu-")) allowed.

Definition manifest_signed_verified (node : Node) : bool :=
  match node_policy_manifest node with
  | None => false
  | Some manifest =>
      opt_str_is (jget manifest "verification" ≫= fun v => get_str v "status") "signed_valid"
      || opt_str_is (get_str manifest "evidence") "signed_verified"
  end.

Definition declares_no_payload_retention (node : Node) : bool :=
  opt_str_is (node_policy_manifest node ≫= fun m => jget m "retention" ≫= fun r => get_str r "task_payload") "none".

Definition manifest_identity_rank (level : string) : Z :=
  if level ==? "self_attested" then 0
  else if level ==? "signed_valid" then 1
  else if level ==? "operator_bound" then 2
  else if level ==? "known_operator" then 3
  else -1.

Definition manifest_identity_rejection_reason (node : Node) (required_level : string) : option string :=
  let required :=
    if str_in required_level ["signed_valid"; "operator_bound"; "known_operator"] then required_level
    else "known_operator" in
  match node_policy_manifest node ≫= fun m => get_str m "manifest_identity_level" with
  | None => Some "missing_manifest_identity"
  | Some level =>
      if (level ==? "revoked") || (level ==? "rotated") then Some "policy_manifest_revoked_or_rotated"
      else if manifest_identity_rank level <? manifest_identity_rank required
      then Some "manifest_identity_level_too_low"
      else None
  end.

Definition node_rejection_reason (node : Node) (policy : EffectiveRoutingPolicy) (allow_plaintext_debug : bool)
    : option string :=
  if negb (allow_remote_executor policy) then Some "remote_executor_disabled"
  else if negb (bool_decide (allowed_regions policy = [])) && negb (region_allowed (region node) (allowed_regions policy))
  then Some "region_not_allowed"
  else if require_encryption policy && is_none (cx_public_key node) && negb allow_plaintext_debug
  then Some "missing_encryption_key"
  else if require_policy_manifest policy && is_none (node_policy_manifest node)
  then Some "missing_policy_manifest"
  else if bool_decide (ep_profile policy = StrictPolicy) && negb (manifest_signed_verified node)
  then Some "policy_manifest_not_signed"
  else if require_no_payload_retention policy && negb (declares_no_payload_retention node)
  then Some "payload_retention_not_none"
  else match option_or (required_manifest_identity_level policy)
               (if known_operator_only policy then Some "known_operator" else None) with
       | Some required_level => manifest_identity_rejection_reason node required_level
       | None => None
       end.

(** ** All nodes *)

Record RoutingPolicyDecision := mkDecision {
  eligible : list Node;
  rejected_reasons : list string;
  skipped_keyless : Z
}.

Definition filter_step (policy : EffectiveRoutingPolicy) (allow_plaintext_debug : bool) (d : RoutingPolicyDecision)
    (node : Node) : RoutingPolicyDecision :=
  match node_rejection_reason node policy allow_plaintext_debug with
  | Some reason =>
      mkDecision (eligible d) (rejected_reasons d ++ [reason])
        (if reason ==? "missing_encryption_key" then skipped_keyless d + 1 else skipped_keyless d)
  | None => mkDecision (eligible d ++ [node]) (rejected_reasons d) (skipped_keyless d)
  end.
Definition filter_nodes_for_routing_policy (nodes : list Node) (policy : EffectiveRoutingPolicy)
    (allow_plaintext_debug : bool) : RoutingPolicyDecision :=
  foldl (filter_step policy allow_plaintext_debug) (mkDecision [] [] 0) nodes.

(** [BTreeMap] of the reasons with their counts *)
Fixpoint count_reason (reason : string) (l : list (string * Z)) : list (string * Z) :=
  match l with
  | [] => [(reason, 1)]
  | (r, n) :: l =>
      match String.compare reason r with
      | Eq => (r, n + 1) :: l
      | Lt => (reason, 1) :: (r, n) :: l
      | Gt => (r, n) :: count_reason reason l
      end
  end.
Definition summarize (reasons : list string) : string :=
  match reasons with
  | [] => "none"
  | _ => str_join ", " ((fun rc => rc.1 +:+ "=" +:+ pretty rc.2) <$> foldl (fun l r => count_reason r l) [] reasons)
  end.

Definition profile_name (p : RoutingProfile) : string :=
  match p with
  | Standard => "Standard" | Sensitive => "Sensitive" | EuRestricted => "EuRestricted"
  | StrictPolicy => "StrictPolicy" | DebugOverride => "DebugOverride"
  end.
Definition routing_policy_refusal_message (intent : string) (decision : RoutingPolicyDecision)
    (policy : EffectiveRoutingPolicy) : string :=
  "Routing policy '" +:+ profile_name (ep_profile policy) +:+ "' refused all discovered nodes for '" +:+ intent
  +:+ "' before prompt dispatch; no prompt was sent. Reasons: " +:+ summarize (rejected_reasons decision)
  +:+ ". Remote nodes can read prompts they execute; use local/browser mode for sensitive data or relax the policy explicitly.".

(** ** What the policy permits *)

(** The region is one of the allowed ones, a sub-region of one of them, or an
    [eu-] region where [eea] is allowed; case and surrounding blanks aside. *)
Definition region_within (r : string) (allowed : list string) : Prop :=
  exists raw, raw ∈ allowed /\
    let v := to_ascii_lowercase (trim r) in
    let item := to_ascii_lowercase (trim raw) in
    item <> EmptyString /\
    (v = item \/ (exists sub, v = (item +:+ "-") +:+ sub) \/ (item = "eea" /\ exists sub, v = "eu-" +:+ sub)).

(** The identity level demanded of the manifest; an unknown demand is read as
    the strongest one. *)
Definition demanded_level (p : EffectiveRoutingPolicy) : option string :=
  match required_manifest_identity_level p with
  | Some l => Some (if str_in l ["signed_valid"; "operator_bound"; "known_operator"] then l else "known_operator")
  | None => if known_operator_only p then Some "known_operator" else None
  end.

Record permitted (p : EffectiveRoutingPolicy) (plaintext : bool) (n : Node) : Prop := {
  pm_remote : allow_remote_executor p = true;
  pm_region : allowed_regions p = [] \/ region_within (region n) (allowed_regions p);
  pm_key : require_encryption p = true -> plaintext = true \/ cx_public_key n <> None;
  pm_manifest : require_policy_manifest p = true -> node_policy_manifest n <> None;
  pm_signed : ep_profile p = StrictPolicy -> exists m, node_policy_manifest n = Some m /\
    ((exists v, jget m "verification" = Some v /\ get_str v "status" = Some "signed_valid")
     \/ get_str m "evidence" = Some "signed_verified");
  pm_retention : require_no_payload_retention p = true -> exists m r, node_policy_manifest n = Some m /\
    jget m "retention" = Some r /\ get_str r "task_payload" = Some "none";
  pm_identity : forall required, demanded_level p = Some required -> exists m level,
    node_policy_manifest n = Some m /\ get_str m "manifest_identity_level" = Some level /\
    level <> "revoked" /\ level <> "rotated" /\ manifest_identity_rank required <= manifest_identity_rank level
}.

Lemma region_allowed_spec r allowed : region_allowed r allowed = true <-> region_within r allowed.
Proof.
  unfold region_allowed, region_within. rewrite existsb_exists. setoid_rewrite list_elem_of_In.
  split; intros (raw & Hin & H); exists raw; (split; [done|]); revert H; cbv zeta; unfold str_is_empty;
    destruct (String.eqb_spec (to_ascii_lowercase (trim raw)) empty_str) as [E|E];
    rewrite ?orb_true_iff, ?andb_true_iff, ?String.eqb_eq, ?starts_with_spec; naive_solver.
Qed.

Lemma manifest_signed_spec n : manifest_signed_verified n = true <-> exists m, node_policy_manifest n = Some m /\
    ((exists v, jget m "verification" = Some v /\ get_str v "status" = Some "signed_valid")
     \/ get_str m "evidence" = Some "signed_verified").
Proof.
  unfold manifest_signed_verified. destruct (node_policy_manifest n) as [m|]; [|by split; [|intros (? & ? & _)]].
  rewrite orb_true_iff, !opt_str_is_true, bind_Some. split; [by exists m|]. by intros (? & [= <-] & ?).
Qed.

Lemma retention_spec n : declares_no_payload_retention n = true <-> exists m r, node_policy_manifest n = Some m /\
    jget m "retention" = Some r /\ get_str r "task_payload" = Some "none".
Proof.
  unfold declares_no_payload_retention. rewrite opt_str_is_true.
  destruct (node_policy_manifest n) as [m|]; cbn [mbind option_bind]; [|by split; [|intros (? & ? & ? & _)]].
  rewrite bind_Some. split; [intros (r & ? & ?); by exists m, r|]. intros (? & r & [= <-] & ?). by exists r.
Qed.

Lemma manifest_identity_spec n l :
  manifest_identity_rejection_reason n l = None <-> exists m level,
    node_policy_manifest n = Some m /\ get_str m "manifest_identity_level" = Some level /\
    level <> "revoked" /\ level <> "rotated" /\
    manifest_identity_rank (if str_in l ["signed_valid"; "operator_bound"; "known_operator"] then l else "known_operator")
      <= manifest_identity_rank level.
Proof.
  unfold manifest_identity_rejection_reason.
  generalize (if str_in l ["signed_valid"; "operator_bound"; "known_operator"] then l else "known_operator").
  intros required. destruct (node_policy_manifest n) as [m|]; simpl; [|by split; [|intros (? & ? & ? & _)]].
  destruct (get_str m _) as [level|] eqn:E; cycle 1.
  { split; [done|]. intros (? & ? & [= <-] & ? & _). congruence. }
  destruct (String.eqb_spec level "revoked"), (String.eqb_spec level "rotated"); simpl;
    try (split; [done|]; intros (? & ? & [= <-] & E' & ? & ? & _); congruence).
  destruct (Z.ltb_spec (manifest_identity_rank level) (manifest_identity_rank required)); split; try done.
  - intros (? & level' & [= <-] & E' & _ & _ & ?). assert (level' = level) as -> by congruence. lia.
  - intros _. by exists m, level.
Qed.

Lemma node_rejection_permitted n p plain :
  node_rejection_reason n p plain = None <-> permitted p plain n.
Proof.
  unfold node_rejection_reason. split.
  - destruct (allow_remote_executor p) eqn:E1; [|done]. cbn [negb].
    destruct (negb (bool_decide (allowed_regions p = [])) && negb _) eqn:E2; [done|].
    destruct (require_encryption p && is_none (cx_public_key n) && negb plain) eqn:E3; [done|].
    destruct (require_policy_manifest p && is_none (node_policy_manifest n)) eqn:E4; [done|].
    destruct (bool_decide (ep_profile p = StrictPolicy) && negb (manifest_signed_verified n)) eqn:E5; [done|].
    destruct (require_no_payload_retention p && negb (declares_no_payload_retention n)) eqn:E6; [done|].
    intros H. split; [done|..].
    + rewrite <- region_allowed_spec. rewrite andb_false_iff, !negb_false_iff, bool_decide_eq_true in E2. done.
    + intros Hr. rewrite Hr in E3. unfold is_none in E3. destruct (cx_public_key n); [by right|]. left. by destruct plain.
    + intros Hr. rewrite Hr in E4. unfold is_none in E4. by destruct (node_policy_manifest n).
    + intros Hr. rewrite <- manifest_signed_spec. rewrite (bool_decide_eq_true_2 _ Hr) in E5.
      by destruct (manifest_signed_verified n).
    + intros Hr. rewrite <- retention_spec. rewrite Hr in E6. by destruct (declares_no_payload_retention n).
    + intros required Hl. unfold demanded_level in Hl. unfold option_or in H.
      destruct (required_manifest_identity_level p) as [l|].
      * injection Hl as <-. by apply manifest_identity_spec.
      * destruct (known_operator_only p); [|done]. injection Hl as <-. apply manifest_identity_spec in H. exact H.
  - intros [H1 H2 H3 H4 H5 H6 H7]. rewrite H1. cbn [negb].
    replace (negb (bool_decide (allowed_regions p = [])) && negb _) with false; cycle 1.
    { symmetry. rewrite andb_false_iff, !negb_false_iff, bool_decide_eq_true, region_allowed_spec. done. }
    replace (require_encryption p && _ && negb plain) with false; cycle 1.
    { destruct (require_encryption p); [|done]. unfold is_none. destruct (H3 eq_refl) as [->|Hk]; [by rewrite andb_false_r|].
      by destruct (cx_public_key n). }
    replace (require_policy_manifest p && _) with false; cycle 1.
    { destruct (require_policy_manifest p); [|done]. specialize (H4 eq_refl). unfold is_none.
      by destruct (node_policy_manifest n). }
    replace (bool_decide (ep_profile p = StrictPolicy) && _) with false; cycle 1.
    { case_bool_decide as Hp; [|done]. apply H5, manifest_signed_spec in Hp as ->. done. }
    replace (require_no_payload_retention p && _) with false; cycle 1.
    { destruct (require_no_payload_retention p); [|done]. specialize (H6 eq_refl).
      apply retention_spec in H6 as ->. done. }
    unfold demanded_level in H7. unfold option_or. destruct (required_manifest_identity_level p) as [l|].
    + apply manifest_identity_spec. by apply H7.
    + destruct (known_operator_only p); [|done]. apply manifest_identity_spec. by apply H7.
Qed.

Global Instance permitted_dec p plain n : Decision (permitted p plain n).
Proof.
  refine (cast_if (decide (node_rejection_reason n p plain = None))); by rewrite <- node_rejection_permitted.
Defined.

(** ** The filter *)

Lemma filter_step_foldl p plain nodes d :
  foldl (filter_step p plain) d nodes =
  mkDecision (eligible d ++ filter (permitted p plain) nodes)
    (rejected_reasons d ++ omap (fun n => node_rejection_reason n p plain) nodes)
    (skipped_keyless d
     + zlen (filter (fun n => node_rejection_reason n p plain = Some "missing_encryption_key") nodes)).
Proof.
  revert d. induction nodes as [|n nodes IH]; intros d.
  { destruct d. simpl. rewrite !app_nil_r. f_equal. unfold zlen. simpl. lia. }
  cbn [foldl]. rewrite IH, !filter_cons. cbn [omap list_omap]. unfold filter_step.
  destruct (node_rejection_reason n p plain) as [r|] eqn:E.
  - rewrite decide_False by (rewrite <- node_rejection_permitted; congruence).
    destruct (String.eqb_spec r "missing_encryption_key") as [->|Hr].
    + rewrite decide_True by done. cbn. f_equal; [by rewrite <- app_assoc|]. rewrite zlen_cons. lia.
    + rewrite decide_False by congruence. cbn. f_equal. by rewrite <- app_assoc.
  - rewrite decide_True by (by apply node_rejection_permitted). rewrite decide_False by done. cbn.
    f_equal. by rewrite <- app_assoc.
Qed.

Lemma filter_nodes_spec p plain nodes :
  filter_nodes_for_routing_policy nodes p plain =
  mkDecision (filter (permitted p plain) nodes) (omap (fun n => node_rejection_reason n p plain) nodes)
    (zlen (filter (fun n => node_rejection_reason n p plain = Some "missing_encryption_key") nodes)).
Proof. unfold filter_nodes_for_routing_policy. by rewrite filter_step_foldl. Qed.

(** A node is rejected for want of a key only if it has none and the policy
    neither waives encryption nor is overridden. *)
Lemma rejected_keyless n p plain :
  node_rejection_reason n p plain = Some "missing_encryption_key" ->
  require_encryption p = true /\ cx_public_key n = None /\ plain = false.
Proof.
  unfold node_rejection_reason. destruct (negb (allow_remote_executor p)); [done|].
  destruct (negb (bool_decide _) && _); [done|].
  destruct (require_encryption p), (cx_public_key n), plain; cbn [is_none is_some negb andb]; try done;
    (destruct (require_policy_manifest p && _); [done|]); (destruct (bool_decide _ && _); [done|]);
    (destruct (require_no_payload_retention p && _); [done|]); destruct (option_or _ _) as [l|]; try done;
    unfold manifest_identity_rejection_reason; destruct (node_policy_manifest n ≫= _) as [v|]; try done;
    destruct ((v ==? "revoked") || (v ==? "rotated")); try done; destruct (Z.ltb _ _); done.
Qed.

Lemma rejected_length p plain nodes :
  zlen (omap (fun n => node_rejection_reason n p plain) nodes)
  + zlen (filter (permitted p plain) nodes) = zlen nodes.
Proof.
  induction nodes as [|n nodes IH]; [done|]. rewrite filter_cons. cbn [omap list_omap].
  destruct (node_rejection_reason n p plain) as [r|] eqn:E.
  - rewrite decide_False by (rewrite <- node_rejection_permitted; congruence). rewrite !zlen_cons. lia.
  - rewrite decide_True by (by apply node_rejection_permitted). rewrite !zlen_cons. lia.
Qed.

Lemma filter_all_length {A} (P : A -> Prop) `{forall x, Decision (P x)} l : zlen (filter P l) = zlen l -> Forall P l.
Proof.
  induction l as [|x l IH]; [done|]. rewrite filter_cons.
  assert (length (filter P l) <= length l)%nat by apply length_filter.
  destruct (decide (P x)); rewrite !zlen_cons; intros.
  - constructor; [done|]. apply IH. lia.
  - unfold zlen in *. simpl in *. lia.
Qed.

(** C9: the routing-policy filter keeps, in order, exactly the nodes the policy
    permits and gives one reason for each other node; and it counts a refusal as
    a confidentiality refusal only when every discovered node was keyless under
    a policy that requires encryption and is not overridden. *)
Theorem routing_policy_exact nodes p plain :
  let d := filter_nodes_for_routing_policy nodes p plain in
  eligible d = filter (permitted p plain) nodes /\
  zlen (rejected_reasons d) = zlen nodes - zlen (eligible d) /\
  (eligible d = [] -> 0 < skipped_keyless d -> zlen (rejected_reasons d) = skipped_keyless d ->
   require_encryption p = true /\ plain = false /\ Forall (fun n => cx_public_key n = None) nodes).
Proof.
  cbv zeta. rewrite filter_nodes_spec. cbn [eligible rejected_reasons skipped_keyless].
  pose proof (rejected_length p plain nodes) as Hlen. split; [done|]. split; [lia|].
  intros He Hpos Hall. rewrite He in Hlen. rewrite Hall in Hlen.
  assert (Forall (fun n => node_rejection_reason n p plain = Some "missing_encryption_key") nodes) as HF.
  { apply (filter_all_length (fun n => node_rejection_reason n p plain = Some "missing_encryption_key")). rewrite <- Hlen. unfold zlen at 3. simpl. lia. }
  split; [|split].
  - destruct HF as [|n ns H _]; [done|]. by apply rejected_keyless in H as (? & ? & ?).
  - destruct HF as [|n ns H _]; [done|]. by apply rejected_keyless in H as (? & ? & ?).
  - apply (Forall_impl _ _ _ HF). intros n H. by apply rejected_keyless in H as (? & ? & ?).
Qed.
