(* ===== verification/Selection.v ===== *)
(** * Candidate selection ([src/selection.rs], the selection step of
    [IicpClient::submit_internal])

    Which of the eligible nodes are tried, and in which order.  [f64::exp] and
    SHA-256 are parameters; random draws are actions. *)

From stdpp Require Import vector.
From S2P Require Import Prelude Program Text Json IpAddr ClientTypes ClientEffects.

Definition MAX_RETRIES : nat := 3.

(** ** [f64] *)

Definition f64_zero : f64 := f64_of_Z 0.
Definition f64_one : f64 := f64_of_Z 1.
Definition f64_neg_infinity : f64 := SpecFloat.S754_infinity true.
(** [f64::max]: a NaN gives way to the other operand. *)
Definition f64_max (a b : f64) : f64 := if f64_is_nan a then b else if f64_is_nan b then a else if f64_ltb a b then b else a.
Definition f64_clamp (x lo hi : f64) : f64 :=
  let x := if f64_ltb x lo then lo else x in if f64_ltb hi x then hi else x.
Definition f64_sum (l : list f64) : f64 := foldl f64_add (SpecFloat.S754_zero true) l.

(** [for (a, w) in .. { r -= w; if r <= 0.0 { .. } }] *)
Fixpoint pick_weighted {A} (remaining : f64) (l : list (A * f64)) : option A :=
  match l with
  | [] => None
  | (a, w) :: l =>
      let remaining := f64_sub remaining w in
      if f64_leb remaining f64_zero then Some a else pick_weighted remaining l
  end.

Definition weighted_v1_index (scores loads : list f64) (random_value : f64) : nat :=
  let weights := zip_with (fun score load =>
    f64_div (f64_max score (f64_lit 1 2)) (f64_add f64_one (f64_clamp load f64_zero f64_one))) scores loads in
  let remaining := f64_mul (f64_clamp random_value f64_zero (f64_lit 999999999 9)) (f64_sum weights) in
  default (length weights - 1)%nat (pick_weighted remaining (zip (seq 0 (length weights)) weights)).

(** ** The optional local ranker *)

Record CandidateEvidenceV0 := mkEvidence {
  schema_version : string;
  candidate_ref : string;
  ev_models : list string;
  directory_score : f64;
  ev_load : f64;
  ev_health_label : option string;
  ev_observed_reachable : option bool
}.

Inductive RankerMode := Normal | Exploration.
Definition receipt_value (m : RankerMode) : string := match m with Normal => "normal" | Exploration => "exploration" end.

Record RankerDecision := mkRanking { rd_candidate_ref : string; policy_id : string; mode : RankerMode }.
Record RankerRequest := mkRankerRequest { request_ref : string; rr_intent : string; rr_request : TaskRequest }.
Definition CandidateRanker : Type := RankerRequest -> list CandidateEvidenceV0 -> result (option RankerDecision) string.
Record AppliedRanker := mkApplied { ar_candidates : list Node; ar_decision : option RankerDecision }.

Definition CANDIDATE_EVIDENCE_SCHEMA_V0 : string := "iicp-candidate-evidence-v0".

Definition validate_policy_id (value : string) : result unit string :=
  if str_is_empty value || (64 <? str_len value)
     || negb (str_all (fun c => is_ascii_alphanumeric c || char_in c "._-") value)
  then Err "candidate ranker policy_id must be 1-64 ASCII letters, digits, '.', '_' or '-'"
  else Ok tt.

Definition ranker_receipt_profile (decision : RankerDecision) (selected_candidate_index : nat) : string :=
  let m := if (selected_candidate_index =? 0)%nat then receipt_value (mode decision) else "fallback" in
  "external_ranker/" +:+ policy_id decision +:+ "/" +:+ m.

(** The chosen node, then up to two others of the given order. *)
Definition head_first (chosen : Node) (others : list Node) (limit : nat) : list Node :=
  chosen :: take limit (filter (fun n => node_id n <> node_id chosen) others).

Section selection.
Context (sha256_hex : string -> string) (exp : f64 -> f64).

Definition opaque_ref (domain value : string) : string :=
  sha256_hex (("iicp:" +:+ domain +:+ ":v0" +:+ String (chr 10) EmptyString) +:+ value).

Definition candidate_evidence_v0 (node : Node) : CandidateEvidenceV0 :=
  mkEvidence CANDIDATE_EVIDENCE_SCHEMA_V0 (opaque_ref "candidate" (node_id node)) (default [] (models node))
    (score node) (load node) (health_label node) (directory_observed_reachable node).

Definition apply_candidate_ranker (ranker : CandidateRanker) (request : TaskRequest) (eligible built_in_order : list Node)
    (limit : nat) : result AppliedRanker string :=
  let evidence := candidate_evidence_v0 <$> eligible in
  let? decision := ranker (mkRankerRequest (opaque_ref "request" (task_id request)) (intent request) request) evidence in
  match decision with
  | None => Ok (mkApplied built_in_order None)
  | Some d =>
      let? _ := validate_policy_id (policy_id d) in
      match list_find (fun c => candidate_ref c = rd_candidate_ref d) evidence ≫= fun ic => eligible !! ic.1 with
      | None => Err "candidate ranker selected a reference outside the eligible candidate set"
      | Some selected => Ok (mkApplied (head_first selected built_in_order (limit - 1)) (Some d))
      end
  end.

(** ** The built-in strategies *)

Definition softmax_choice (tau : f64) (pool : list Node) (random : f64) : option Node :=
  let max_score := foldl f64_max f64_neg_infinity (score <$> pool) in
  let tau := f64_max tau (f64_lit 1 3) in
  let weights := (fun n => exp (f64_div (f64_sub (score n) max_score) tau)) <$> pool in
  let r := f64_mul random (f64_sum weights) in
  option_or (pick_weighted r (zip pool weights)) (head pool).

Definition built_in_candidates (config : ClientConfig) (safe_nodes : list Node) : prog answer (list Node) :=
  let top := take MAX_RETRIES safe_nodes in
  let top_k := Z.to_nat (Z.min (Z.max (routing_top_k config) 1) (zlen safe_nodes)) in
  let choose (o : option Node) := match o with Some chosen => head_first chosen top (MAX_RETRIES - 1) | None => [] end in
  if (routing_strategy config ==? "deterministic") || (zlen safe_nodes <=? 1) then Ret top
  else if routing_strategy config ==? "weighted_v1" then
    perform random := GenF64 in
    let pool := take top_k safe_nodes in
    Ret (choose (safe_nodes !! weighted_v1_index (score <$> pool) (load <$> pool) random))
  else if routing_strategy config ==? "softmax_top_k" then
    perform random := GenF64 in
    Ret (choose (softmax_choice (routing_softmax_tau config) (take top_k safe_nodes) random))
  else
    perform random := GenF64 in
    if f64_ltb random (routing_epsilon config) then
      perform explore_idx := GenBelow (length safe_nodes - 1) in
      Ret (choose (safe_nodes !! fin_to_nat explore_idx))
    else Ret top.

(** Built-in order, then the ranker if there is one. *)
Definition select_candidates (config : ClientConfig) (ranker : option CandidateRanker) (request : TaskRequest)
    (eligible_nodes : list Node) : prog answer (outcome (list Node * option RankerDecision)) :=
  run! built_in := built_in_candidates config eligible_nodes in
  match ranker with
  | None => Ret (Val (built_in, None))
  | Some r =>
      match apply_candidate_ranker r request eligible_nodes built_in MAX_RETRIES with
      | Err message => Ret (Fail (PolicyRefused "IICP-CANDIDATE-RANKER-REFUSED" message))
      | Ok applied => Ret (Val (ar_candidates applied, ar_decision applied))
      end
  end.
End selection.

(** ** The candidates are eligible *)

Lemma pick_weighted_elem {A} r (l : list (A * f64)) a : pick_weighted r l = Some a -> a ∈ l.*1.
Proof.
  revert r. induction l as [|[b w] l IH]; intros r; simpl; [done|].
  destruct (f64_leb _ _); [intros [= ->]; by left|]. right. by eapply IH.
Qed.

(** The weighted draw stays inside its pool. *)
Lemma weighted_v1_index_bound scores loads random :
  length scores = length loads -> scores <> [] -> (weighted_v1_index scores loads random < length scores)%nat.
Proof.
  intros Hl Hne. unfold weighted_v1_index. set (ws := zip_with _ scores loads).
  assert (length ws = length scores) as Hw by (subst ws; rewrite length_zip_with; lia).
  assert (0 < length scores)%nat by (destruct scores; simpl; [done|lia]).
  destruct (pick_weighted _ _) as [i|] eqn:E; simpl; [|lia].
  apply pick_weighted_elem in E. rewrite fst_zip in E by (rewrite length_seq; lia).
  apply elem_of_seq in E. lia.
Qed.

(** All three where no two nodes share an identifier. *)
Definition full (elig cs : list Node) : Prop :=
  NoDup (node_id <$> elig) -> NoDup (node_id <$> cs) /\ length cs = Nat.min 3 (length elig).

Lemma ids_filter (c : Node) l :
  NoDup (node_id <$> l) -> NoDup (node_id <$> filter (fun n => node_id n <> node_id c) l) /\
  (length l <= S (length (filter (fun n => node_id n <> node_id c) l)))%nat /\
  (node_id c ∉ node_id <$> l -> length (filter (fun n => node_id n <> node_id c) l) = length l).
Proof.
  induction l as [|m l IH]; intros Hnd; [split_and!; [done|simpl; lia|done]|].
  rewrite fmap_cons in Hnd. apply NoDup_cons in Hnd as [Hm Hnd]. destruct (IH Hnd) as (Ha & Hb & Hc).
  rewrite filter_cons. destruct (decide (node_id m <> node_id c)) as [Hne|Heq].
  - rewrite fmap_cons, NoDup_cons. split_and!; [|done|simpl; lia|].
    + intros (x & E & Hx)%list_elem_of_fmap. apply list_elem_of_filter in Hx as [_ Hx]. apply Hm. rewrite E. by apply list_elem_of_fmap_2.
    + intros Hn. simpl. rewrite Hc; [done|]. rewrite fmap_cons in Hn. by apply not_elem_of_cons in Hn as [_ ?].
  - assert (node_id m = node_id c) as E by (by destruct (decide (node_id m = node_id c))). rewrite E in Hm. specialize (Hc Hm).
    split_and!; [done|simpl; lia|]. intros Hn. rewrite fmap_cons, E in Hn. by apply not_elem_of_cons in Hn as [? _].
Qed.

(** What every selection satisfies: some nodes, at most three, all eligible. *)
Definition selection_ok (eligible candidates : list Node) : Prop :=
  (1 <= length candidates <= 3)%nat /\ candidates ⊆ eligible /\ full eligible candidates.

Lemma take_subset {A} n (l : list A) : take n l ⊆ l.
Proof. intros x (i & Hi & _)%elem_of_take. by apply list_elem_of_lookup_2 in Hi. Qed.

Lemma head_first_full elig chosen others :
  chosen ∈ elig -> others ⊆ elig -> full elig others -> full elig (head_first chosen others 2).
Proof.
  intros Hc Ho Hf Hnd. destruct (Hf Hnd) as [Hno Hl]. unfold head_first.
  destruct (ids_filter chosen others Hno) as (Ha & Hb & Hd). set (fl := filter _ others) in *. split.
  - rewrite fmap_cons. apply NoDup_cons. split.
    + intros (m & E & Hm)%list_elem_of_fmap. apply take_subset, list_elem_of_filter in Hm as [Hne _]. by destruct Hne.
    + rewrite fmap_take. eapply sublist_NoDup; [done|apply sublist_take].
  - assert (0 < length elig)%nat by (destruct elig; [by apply not_elem_of_nil in Hc|simpl; lia]).
    cbn [length]. rewrite length_take. destruct (decide (node_id chosen ∈ node_id <$> others)) as [Hin|Hin].
    + assert (length fl <= length others - 1)%nat; [|lia].
      apply list_elem_of_fmap in Hin as (m & E & Hm). apply list_elem_of_split in Hm as (l1 & l2 & E2).
      subst fl. rewrite E2, filter_app, filter_cons. rewrite decide_False by (intros Hn; by apply Hn).
      rewrite !length_app. cbn [length]. pose proof (length_filter (fun n => node_id n <> node_id chosen) l1).
      pose proof (length_filter (fun n => node_id n <> node_id chosen) l2). lia.
    + rewrite Hd by done. assert (S (length others) <= length elig)%nat; [|lia].
      assert (NoDup (node_id <$> chosen :: others)) as Hnd' by (rewrite fmap_cons; by apply NoDup_cons).
      apply NoDup_fmap_1 in Hnd'. apply (submseteq_length (chosen :: others)), NoDup_submseteq; [done|].
      intros x [->|Hx]%elem_of_cons; [done|by apply Ho].
Qed.
Lemma head_first_ok eligible chosen others :
  chosen ∈ eligible -> others ⊆ eligible -> full eligible others -> selection_ok eligible (head_first chosen others 2).
Proof.
  intros Hc Ho Hf. split; [|split; [|by apply head_first_full]]; unfold head_first.
  - simpl. pose proof (firstn_le_length 2 (filter (fun n => node_id n <> node_id chosen) others)). lia.
  - intros n [->|Hn]%elem_of_cons; [done|]. apply elem_of_take in Hn as (i & Hi & _).
    apply list_elem_of_lookup_2 in Hi. apply list_elem_of_filter in Hi as [_ Hi]. by apply Ho.
Qed.

Lemma take_full elig : full elig (take MAX_RETRIES elig).
Proof.
  intros Hnd. rewrite length_take. split; [|done]. rewrite fmap_take. eapply sublist_NoDup; [done|apply sublist_take].
Qed.
Lemma take_top_ok eligible : eligible <> [] -> selection_ok eligible (take MAX_RETRIES eligible).
Proof.
  intros Hne. split; [|split; [apply take_subset|apply take_full]].
  rewrite length_take. destruct eligible; [done|]. unfold MAX_RETRIES. cbn [length]. lia.
Qed.

Section selection_theorems.
Context (sha256_hex : string -> string) (exp : f64 -> f64) (config : ClientConfig).

(** Programs that only draw random numbers, whatever they draw. *)
Definition draws {R} (fin : R -> Prop) (p : prog answer R) : Prop :=
  along (fun (_ : unit) a (_ : answer a) => tt)
    (fun _ a => match a with GenF64 | GenBelow _ => True | _ => False end) (fun _ => fin) tt p.

Lemma built_in_ok eligible :
  eligible <> [] -> draws (selection_ok eligible) (built_in_candidates exp config eligible).
Proof.
  intros Hne. assert (0 < length eligible)%nat as Hlen by (destruct eligible; simpl; [done|lia]).
  unfold draws, built_in_candidates. set (top_k := Z.to_nat _).
  assert (1 <= top_k <= length eligible)%nat as Hk by (unfold top_k, zlen; lia).
  assert (forall chosen, chosen ∈ eligible ->
    selection_ok eligible (head_first chosen (take MAX_RETRIES eligible) (MAX_RETRIES - 1))) as Hhf.
  { intros chosen Hc. apply head_first_ok; [done|apply take_subset|apply take_full]. }
  assert (take top_k eligible <> []) as Htk by (intros E%(f_equal length); rewrite length_take in E; simpl in E; lia).
  destruct (_ || _); [by apply take_top_ok|].
  destruct (routing_strategy config ==? "weighted_v1"); [|destruct (routing_strategy config ==? "softmax_top_k")].
  - split; [done|]. intros random. cbn [along].
    assert (weighted_v1_index (score <$> take top_k eligible) (load <$> take top_k eligible) random < length eligible)%nat as Hi.
    { eapply Nat.lt_le_trans; [apply weighted_v1_index_bound|].
      - by rewrite !length_fmap.
      - by destruct (take top_k eligible).
      - rewrite length_fmap, length_take. lia. }
    apply lookup_lt_is_Some_2 in Hi as [n En]. rewrite En. apply Hhf. by eapply list_elem_of_lookup_2.
  - split; [done|]. intros random. cbn [along]. unfold softmax_choice.
    match goal with |- context [pick_weighted ?r ?l] => destruct (pick_weighted r l) as [n|] eqn:E end.
    + apply Hhf, (take_subset top_k). apply pick_weighted_elem in E. rewrite fst_zip in E; [done|].
      by rewrite length_fmap.
    + destruct (take top_k eligible) as [|n l] eqn:Et; [done|]. apply Hhf, (take_subset top_k). rewrite Et. by left.
  - split; [done|]. intros random. destruct (f64_ltb _ _); [|by apply take_top_ok].
    split; [done|]. intros i. cbn [along]. pose proof (fin_to_nat_lt i) as Hi.
    destruct (lookup_lt_is_Some_2 eligible i) as [n En]; [lia|]. rewrite En. apply Hhf.
    by eapply list_elem_of_lookup_2.
Qed.

Lemma ranked_ok ranker request eligible built_in applied :
  selection_ok eligible built_in ->
  apply_candidate_ranker sha256_hex ranker request eligible built_in MAX_RETRIES = Ok applied ->
  selection_ok eligible (ar_candidates applied) /\
  match ar_decision applied with
  | None => ar_candidates applied = built_in
  | Some d => is_ok (validate_policy_id (policy_id d)) = true /\
      exists n rest, ar_candidates applied = n :: rest /\
        candidate_ref (candidate_evidence_v0 sha256_hex n) = rd_candidate_ref d /\
        Forall (fun m => node_id m <> node_id n) rest
  end.
Proof.
  intros Hb (decision & _ & H)%rbind_Ok. destruct decision as [d|]; [|by injection H as <-].
  apply rbind_Ok in H as ([] & Hp & H). destruct (list_find _ _) as [[i c]|] eqn:Ef; simpl in H; [|done].
  destruct (eligible !! i) as [n|] eqn:En; [|done]. injection H as <-. simpl. split.
  - apply head_first_ok; [by eapply list_elem_of_lookup_2|apply Hb..].
  - split; [by rewrite Hp|]. exists n. eexists. split; [reflexivity|]. apply list_find_Some in Ef as (Hc & Href & _).
    rewrite list_lookup_fmap, En in Hc. injection Hc as <-. split; [done|]. apply Forall_forall.
    intros m Hm%take_subset. by apply list_elem_of_filter in Hm as [? _].
Qed.

(** Why a ranker's answer is refused: it reports an error, its policy has no legal
    name, or it names none of the candidates it was shown. *)
Definition policy_named (d : RankerDecision) : Prop :=
  0 < str_len (policy_id d) <= 64 /\ str_all (fun c => is_ascii_alphanumeric c || char_in c "._-") (policy_id d) = true.
Inductive ranking_refused (ranker : CandidateRanker) (request : TaskRequest) (eligible : list Node) (m : string) : Prop :=
| rk_error : ranker (mkRankerRequest (opaque_ref sha256_hex "request" (task_id request)) (intent request) request)
               (candidate_evidence_v0 sha256_hex <$> eligible) = Err m -> ranking_refused ranker request eligible m
| rk_answer d : ranker (mkRankerRequest (opaque_ref sha256_hex "request" (task_id request)) (intent request) request)
               (candidate_evidence_v0 sha256_hex <$> eligible) = Ok (Some d) ->
    ~ policy_named d \/ (forall n, n ∈ eligible -> candidate_ref (candidate_evidence_v0 sha256_hex n) <> rd_candidate_ref d) ->
    ranking_refused ranker request eligible m.
Lemma validate_policy_named d : is_ok (validate_policy_id (policy_id d)) = true <-> policy_named d.
Proof.
  unfold validate_policy_id, policy_named. destruct (str_is_empty (policy_id d)) eqn:E; simpl.
  { apply String.eqb_eq in E. rewrite E. unfold str_len. simpl. split; [done | lia]. }
  assert (0 < str_len (policy_id d)) by (destruct (policy_id d); [done | unfold str_len; simpl; lia]).
  destruct (64 <? str_len (policy_id d)) eqn:L; simpl; [split; [done | lia]|]. destruct (str_all _ _); simpl; [|split; [done | by intros [_ ?]]].
  split; [|done]. intros _. split; [lia | done].
Qed.
Lemma refused_ranking ranker request eligible built_in limit m :
  apply_candidate_ranker sha256_hex ranker request eligible built_in limit = Err m -> ranking_refused ranker request eligible m.
Proof.
  unfold apply_candidate_ranker. destruct (ranker _ _) as [[d|]|e] eqn:Er; cbn [rbind]; [|done|by intros [= ->]; apply rk_error].
  intros H. apply (rk_answer _ _ _ _ d); [done|]. pose proof (validate_policy_named d) as Hv.
  destruct (validate_policy_id (policy_id d)) as [u|e]; cbn [rbind is_ok] in *; [|left; rewrite <- Hv; done].
  right. intros n Hn Href. destruct (list_find _ _) as [[i c]|] eqn:Ef; cbn [mbind option_bind fst] in H.
  - apply list_find_Some in Ef as (Hc & _). rewrite list_lookup_fmap in Hc. by destruct (eligible !! i).
  - apply list_find_None in Ef. rewrite Forall_forall in Ef. apply (Ef (candidate_evidence_v0 sha256_hex n)); [|done].
    by apply list_elem_of_fmap_2.
Qed.

Lemma select_ok ranker request eligible :
  eligible <> [] ->
  draws (fun o => match o with
    | Val (cs, d) => selection_ok eligible cs /\ (forall dec, d = Some dec ->
        is_ok (validate_policy_id (policy_id dec)) = true /\ exists n rest, cs = n :: rest /\
          candidate_ref (candidate_evidence_v0 sha256_hex n) = rd_candidate_ref dec /\
          Forall (fun m => node_id m <> node_id n) rest)
    | Fail e => exists r m, ranker = Some r /\ ranking_refused r request eligible m /\ e = PolicyRefused "IICP-CANDIDATE-RANKER-REFUSED" m
    | Panic => False
    end) (select_candidates sha256_hex exp config ranker request eligible).
Proof.
  intros Hne. unfold draws, select_candidates. eapply along_bind; [by apply built_in_ok|].
  intros [] built_in Hb. destruct ranker as [r|]; simpl; [|done].
  destruct (apply_candidate_ranker _ _ _ _ _ _) as [applied|m] eqn:E; simpl; [|exists r, m; split; [done|]; split; [by eapply refused_ranking | done]].
  destruct (ranked_ok _ _ _ _ _ Hb E) as [? Hd]. split; [done|]. intros dec Hdec. by rewrite Hdec in Hd.
Qed.
End selection_theorems.

(** Selection stays inside the eligible nodes.  Whatever the strategy, the
    random draws and the external ranker answer, selection only draws random
    numbers and ends with one to three candidates, all of them eligible, or
    with a refusal of the ranker's answer; and when a ranker decided, the first
    candidate is the one it named and no other candidate shares its identifier. *)
Theorem candidates_eligible sha256_hex exp config ranker request eligible ans tr res :
  eligible <> [] ->
  run ans 0 (select_candidates sha256_hex exp config ranker request eligible) = (tr, res) ->
  Forall (fun x => match x with Did GenF64 _ | Did (GenBelow _) _ => True | _ => False end) tr /\
  match res with
  | Val (cs, d) => (1 <= length cs <= 3)%nat /\ cs ⊆ eligible /\ (forall dec, d = Some dec ->
      is_ok (validate_policy_id (policy_id dec)) = true /\ exists n rest, cs = n :: rest /\
        candidate_ref (candidate_evidence_v0 sha256_hex n) = rd_candidate_ref dec /\
        Forall (fun m => node_id m <> node_id n) rest)
  | Fail e => ranker <> None /\ exists m, e = PolicyRefused "IICP-CANDIDATE-RANKER-REFUSED" m
  | Panic => False
  end.
Proof.
  intros Hne Hrun. destruct (run_along _ _ _ _ _ _ _ _ _ (select_ok sha256_hex exp config ranker request eligible Hne) Hrun)
    as [Hf Hs]. split.
  - apply Forall_forall. intros [a r] Hin. apply list_elem_of_split in Hin as (tr1 & tr2 & E).
    specialize (Hs _ _ _ _ E). by destruct a.
  - destruct res as [[cs d]|e|]; [| |done].
    + destruct Hf as [(? & ? & _) ?]. done.
    + destruct Hf as (r & m & -> & _ & ->). eauto.
Qed.

Definition demo_node (id : string) : Node :=
  mkNode id ("https://" +:+ id +:+ ".example.com") f64_one f64_zero true "eu" None None None None None None None None None.
Definition demo_client_config (strategy : string) : ClientConfig :=
  mkConfig "https://dir.example.com" 30000 None None "optional" f64_zero strategy 2 f64_one
    (mkPolicy Standard [] None None None None None None) "auto" None None.
Definition demo_request : TaskRequest :=
  mkRequest "t1" "urn:iicp:intent:llm:chat:v1" (mk_obj []) None None None None None.
Definition demo_answer (n : nat) (a : action) : answer a :=
  match a with
  | NewUuid => "11111111-1111-1111-1111-111111111111"
  | NewUuidSimple => "11111111111111111111111111111111"
  | GenF64 => f64_lit 9 1
  | GenBelow _ => 0%fin
  | UnixNow => 1000
  | Sleep _ => tt
  | ResolveSecret _ => None
  | LookupHost _ port => Some [mkSocket (V4 (V4Addr 93 184 216 34)) port]
  | Send _ => Err true
  | CacheGet _ => None
  | CacheSet _ _ _ => tt
  | TicketKeyGet => None
  | TicketKeySet _ => tt
  | RandomBytes n => vreplicate n x00
  end.

Lemma candidates_eligible_witness :
  match (run demo_answer 0 (select_candidates (fun s => s) (fun x => x) (demo_client_config "weighted_v1") None demo_request
           [demo_node "a"; demo_node "b"; demo_node "c"; demo_node "d"])).2 with
  | Val (cs, _) => (1 <= length cs <= 3)%nat /\ cs ⊆ [demo_node "a"; demo_node "b"; demo_node "c"; demo_node "d"]
                   /\ node_id <$> cs = ["b"; "a"; "c"]
  | _ => False
  end.
Proof.
  pose proof (candidates_eligible (fun s => s) (fun x => x) (demo_client_config "weighted_v1") None demo_request
    [demo_node "a"; demo_node "b"; demo_node "c"; demo_node "d"] demo_answer _ _ ltac:(discriminate)
    (surjective_pairing _)) as [_ H].
  revert H. vm_compute (run _ _ _). cbv beta iota. intros (H1 & H2 & _). split; [exact H1|]. split; [exact H2|].
  vm_compute. reflexivity.
Defined.
