(* ===== verification/ConsumerToken.v ===== *)
(** * Restricted directory decisions and consumer tokens
    ([src/restricted_directory.rs], [src/consumer_token.rs])

    The token a consumer presents to a provider, with its cache, and the
    decision a restricted directory attaches to each answer. *)

From S2P Require Import Prelude Program Text Json HttpResource ClientTypes ClientEffects Endpoint HttpClient.

(** ** Decisions of a restricted directory *)

Definition RESTRICTED_PROFILE_ID : string := "urn:iicp:profile:restricted-trust-domain:v1".

Definition refused (message : string) : IicpError := PolicyRefused "restricted_directory_decision_refused" message.

Definition validate_context (context : RestrictedDirectoryContext) : result unit IicpError :=
  if str_is_empty (trim (domain_id context)) || str_is_empty (trim (authority_id context))
     || str_is_empty (trim (subject_id context))
     || negb (str_in (subject_kind context) ["node"; "client"; "directory"])
     || (minimum_membership_generation context =? 0)
  then Err (refused "restricted directory context is incomplete")
  else Ok tt.

Definition validate_decision `{SerdeOps} (body : json) (context : RestrictedDirectoryContext) (operation : string)
    : prog answer (outcome RestrictedEligibility) :=
  match jget body "restricted_domain_decision" with
  | None => Ret (Fail (refused "restricted directory decision is missing"))
  | Some raw =>
      match decision_from_value raw with
      | None => Ret (Fail (refused "restricted directory decision is malformed"))
      | Some d =>
          perform now := UnixNow in
          if (dd_schema d <>? "iicp.restricted-trust-domain.directory-decision.v0")
             || (dd_profile d <>? RESTRICTED_PROFILE_ID) || (dd_decision d <>? "eligible")
             || (dd_operation d <>? operation) || (dd_domain_id d <>? domain_id context)
             || (dd_authority_id d <>? authority_id context) || (dd_subject_kind d <>? subject_kind context)
             || (dd_membership_generation d <? minimum_membership_generation context)
             || (dd_membership_expires_at d <=? now)
          then Ret (Fail (refused "restricted directory decision does not match the request context"))
          else Ret (Val (mkEligibility (dd_domain_id d) (dd_authority_id d) (dd_membership_generation d)
                           (dd_membership_expires_at d)))
      end
  end.

(** ** The token cache *)

Definition EXPIRY_BUFFER_S : Z := 30.

(** [ConsumerTokenCache::get]: the clock is read before the lock is taken. *)
Definition cache_get (key : ct_key) : prog answer (option string) :=
  perform now := UnixNow in
  perform entry := CacheGet key in
  Ret (entry ≫= fun te => if u64_add now EXPIRY_BUFFER_S <? te.2 then Some te.1 else None).

Definition as_u64_field (body : json) (k : string) : Z := default 0 (jget body k ≫= as_u64).

Definition token_url (directory_url : string) : string :=
  trim_end_char "/" (trim_end_str "/api" directory_url) +:+ "/api/v1/consumer-token".
Definition token_body (target_node_id intent : string) : json :=
  mk_obj [("target_node_id", JString target_node_id); ("intent", JString intent)].

Section tokens.
Context `{SerdeOps} (token : option string).

(** A time-out of the five seconds is one of the failures of [Send]. *)
Definition acquire_consumer_token (directory_url node_token target_node_id intent : string)
    : prog answer (option string) :=
  let key := (node_token, target_node_id, intent) in
  run! cached := cache_get key in
  match cached with
  | Some tok => Ret (Some tok)
  | None =>
      perform r := Send (directory_request "POST" (token_url directory_url) (Some node_token) []
                           (Some (token_body target_node_id intent)) true) in
      match r with
      | Err _ => Ret None
      | Ok resp =>
          if negb (rs_status resp =? 201) then Ret None
          else
            match response_json resp with
            | Err _ => Ret None
            | Ok data =>
                match get_str data "token" with
                | None => Ret None
                | Some tok =>
                    perform _ := CacheSet key tok (as_u64_field data "expires_at") in
                    Ret (Some tok)
                end
            end
      end
  end.

Definition membership_unavailable : IicpError :=
  PolicyRefused "restricted_membership_unavailable" "restricted directory membership credential is unavailable".

Definition acquire_restricted_consumer_token (directory_url node_token target_node_id intent : string)
    (context : RestrictedDirectoryContext) : prog answer (outcome (option string)) :=
  let key := (node_token, target_node_id, intent) in
  run! cached := cache_get key in
  match cached with
  | Some tok => Ret (Val (Some tok))
  | None =>
      perform secret := ResolveSecret (membership_credential context) in
      match secret with
      | None => Ret (Fail membership_unavailable)
      | Some membership =>
          await? (status, data) := post_restricted_json token (token_url directory_url)
                                     (token_body target_node_id intent) membership (subject_id context)
                                     (Some node_token) None in
          if negb (status =? 201) then Ret (Fail (protocol_error data status))
          else
            await? _ := validate_decision data context "consumer_token" in
            match get_str data "token" with
            | None => Ret (Fail (PolicyRefused "restricted_consumer_token_malformed"
                                   "restricted consumer-token response is malformed"))
            | Some tok =>
                perform _ := CacheSet key tok (as_u64_field data "expires_at") in
                Ret (Val (Some tok))
            end
      end
  end.
End tokens.

(** ** Where a token comes from *)

Definition trace : Type := list (step answer).

(** Cached under exactly this key, with more than the buffer left. *)
Definition from_cache (key : ct_key) (tok : string) (tr : trace) : Prop :=
  exists now exp, Did (resp:=answer) UnixNow now ∈ tr /\ Did (resp:=answer) (CacheGet key) (Some (tok, exp)) ∈ tr /\
    u64_add now EXPIRY_BUFFER_S < exp.

(** Issued by the directory, on request of the holder of [key.1.1], for this
    provider and this intent. *)
Definition issued `{SerdeOps} (directory_url : string) (follow : bool) (key : ct_key) (tok : string) (data : json)
    (tr : trace) : Prop :=
  exists rq resp, Did (resp:=answer) (Send rq) (Ok resp) ∈ tr /\ rq_url rq = token_url directory_url /\
    rq_bearer rq = Some key.1.1 /\ rq_body rq = Some (to_vec (token_body key.1.2 key.2)) /\ rq_follow rq = follow /\
    rs_status resp = 201 /\ response_json resp = Ok data /\ get_str data "token" = Some tok.

(** A decision of the restricted directory for this context and operation. *)
Definition eligible_now `{SerdeOps} (context : RestrictedDirectoryContext) (operation : string) (data : json)
    (tr : trace) : Prop :=
  exists raw d now, jget data "restricted_domain_decision" = Some raw /\ decision_from_value raw = Some d /\
    Did (resp:=answer) UnixNow now ∈ tr /\ dd_decision d = "eligible" /\ dd_operation d = operation /\
    dd_profile d = RESTRICTED_PROFILE_ID /\
    dd_domain_id d = domain_id context /\ dd_authority_id d = authority_id context /\
    dd_subject_kind d = subject_kind context /\
    minimum_membership_generation context <= dd_membership_generation d /\ now < dd_membership_expires_at d.

(** Only tokens issued for a key are stored under it. *)
Definition cache_write_ok `{SerdeOps} (directory_url : string) (follow : bool) (key : ct_key) (tr : trace) (a : action) : Prop :=
  match a with CacheSet k t _ => k = key /\ exists data, issued directory_url follow key t data tr | _ => True end.

Lemma from_cache_log key tok tr x : from_cache key tok tr -> from_cache key tok (tr ++ [x]).
Proof. intros (now & exp & ? & ? & ?). exists now, exp. set_solver. Qed.
Lemma issued_log `{SerdeOps} u f key tok data tr x : issued u f key tok data tr -> issued u f key tok data (tr ++ [x]).
Proof. intros (rq & resp & ? & Hr). exists rq, resp. split; [set_solver|done]. Qed.
Lemma eligible_now_log `{SerdeOps} c op data tr x : eligible_now c op data tr -> eligible_now c op data (tr ++ [x]).
Proof. intros (raw & d & now & ? & ? & ? & Hr). exists raw, d, now. do 2 (split; [done|]). split; [set_solver|done]. Qed.

Lemma neq_str_false a b : (a <>? b) = false -> a = b.
Proof. by intros ?%negb_false_iff%String.eqb_eq. Qed.

Section token_theorems.
Context `{SerdeOps} (token : option string) (directory_url node_token target intent : string).
Notation key := (node_token, target, intent).

Lemma cache_get_along (ok : trace -> action -> Prop) tr :
  (forall tr, ok tr UnixNow) -> (forall tr, ok tr (CacheGet key)) ->
  along log ok (fun tr' o => forall tok, o = Some tok -> from_cache key tok tr') tr (cache_get key).
Proof.
  intros H1 H2. unfold cache_get. split; [done|]. intros now. split; [done|]. intros entry. cbn [along].
  intros tok (te & -> & Ht)%bind_Some. destruct (Z.ltb_spec (u64_add now EXPIRY_BUFFER_S) te.2); [|done].
  destruct te as [tok' exp]. injection Ht as <-. exists now, exp. unfold log. split; [set_solver|]. split; [set_solver|done].
Qed.

Lemma acquire_along :
  along log (cache_write_ok directory_url true key)
    (fun tr o => forall tok, o = Some tok -> from_cache key tok tr \/ exists data, issued directory_url true key tok data tr)
    [] (acquire_consumer_token directory_url node_token target intent).
Proof.
  unfold acquire_consumer_token. eapply along_bind; [by apply cache_get_along|]. intros tr [tok|] Hc; simpl.
  { intros tok' [= <-]. left. by apply Hc. }
  split; [done|]. intros [resp|]; [|done]. destruct (Z.eqb_spec (rs_status resp) 201) as [Hs|]; [|done]. cbn [negb].
  destruct (response_json resp) as [data|] eqn:Ej; [|done]. destruct (get_str data "token") as [tok|] eqn:Et; [|done].
  assert (issued directory_url true key tok data (log tr (Send (directory_request "POST" (token_url directory_url)
    (Some node_token) [] (Some (token_body target intent)) true)) (Ok resp))) as Hi.
  { eexists _, resp. split; [unfold log; apply elem_of_app; right; by apply list_elem_of_singleton|]. done. }
  split; [split; eauto|]. intros []. cbn [along]. intros tok' [= <-]. right. exists data. by apply issued_log.
Qed.

Lemma traceparent_log (ok : trace -> action -> Prop) tr o :
  (forall tr, ok tr NewUuidSimple) -> along log ok (fun _ _ => True) tr (traceparent_or_new o).
Proof. intros Hok. destruct o; simpl; [done|]. split; [done|]. intros r. by split. Qed.

Lemma post_restricted_along (ok : trace -> action -> Prop) tr url body membership subject auth tp :
  (forall tr rq, ok tr (Send rq)) -> (forall tr, ok tr NewUuidSimple) ->
  along log ok (on_val (fun tr' sd => exists rq resp, Did (resp:=answer) (Send rq) (Ok resp) ∈ tr' /\ rq_url rq = url /\
      rq_bearer rq = option_or auth token /\ rq_body rq = Some (to_vec body) /\ rq_follow rq = false /\
      rs_status resp = sd.1 /\ response_json resp = Ok sd.2)) tr
    (post_restricted_json token url body membership subject auth tp).
Proof.
  intros H1 H2. unfold post_restricted_json. eapply along_bind; [by apply traceparent_log|]. intros tr' t _.
  split; [done|]. intros [resp|]; [|done]. cbn [send_result]. destruct (is_redirection (rs_status resp)); [done|].
  destruct (response_json resp) as [b|] eqn:Ej; cbn; [|done]. eexists _, resp.
  split; [unfold log; apply elem_of_app; right; by apply list_elem_of_singleton|]. done.
Qed.

Lemma validate_decision_along (ok : trace -> action -> Prop) tr body context op (P : trace -> Prop) :
  (forall tr, ok tr UnixNow) -> (forall tr x, P tr -> P (tr ++ [x])) -> P tr ->
  along log ok (on_val (fun tr' e => P tr' /\ eligible_now context op body tr')) tr (validate_decision body context op).
Proof.
  intros H1 HP Hp. unfold validate_decision. destruct (jget body _) as [raw|] eqn:Eb; [|done].
  destruct (decision_from_value raw) as [d|] eqn:Ed; [|done]. split; [done|]. intros now.
  match goal with |- context [if ?c then _ else _] => destruct c eqn:E end; [done|].
  repeat (apply orb_false_iff in E as [E ?]). cbn [along on_val]. split; [by apply HP|].
  exists raw, d, now. rewrite Z.ltb_ge, Z.leb_gt in *.
  repeat match goal with Hx : (_ <>? _) = false |- _ => apply neq_str_false in Hx end.
  unfold log. split_and!; try done. set_solver.
Qed.

Lemma acquire_restricted_along context :
  along log (cache_write_ok directory_url false key)
    (fun tr o => o <> Val None /\ forall tok, o = Val (Some tok) -> from_cache key tok tr \/
       exists data, issued directory_url false key tok data tr /\ eligible_now context "consumer_token" data tr)
    [] (acquire_restricted_consumer_token token directory_url node_token target intent context).
Proof.
  unfold acquire_restricted_consumer_token. eapply along_bind; [by apply cache_get_along|]. intros tr [tok|] Hc; simpl.
  { split; [done|]. intros tok' [= <-]. left. by apply Hc. }
  split; [done|]. intros [membership|]; [|by split]. unfold try_bind at 1.
  eapply along_bind; [by apply post_restricted_along|]. intros tr1 [[status data]|e|] Hp; [|by split..].
  cbn in Hp. destruct Hp as (rq & resp & Hin & Hu & Hb & Hbody & Hf & Hs & Hj).
  destruct (Z.eqb_spec status 201) as [->|]; [|by split]. cbn [negb]. unfold try_bind.
  set (P := fun tr' : trace => Did (resp:=answer) (Send rq) (Ok resp) ∈ tr').
  eapply along_bind; [apply (validate_decision_along _ _ _ context "consumer_token" P); [done| |done]|].
  { intros tr' x. unfold P. set_solver. }
  intros tr2 [e|e|] He; [|by split..]. cbn in He. destruct He as [HP He].
  destruct (get_str data "token") as [tok|] eqn:Et; [|by split].
  assert (issued directory_url false key tok data tr2) as Hi by (exists rq, resp; done).
  split; [split; eauto|]. intros []. cbn [along]. split; [done|]. intros tok' [= <-]. right. exists data.
  split; [by apply issued_log|by apply eligible_now_log].
Qed.
End token_theorems.

(** C10: a consumer token is bound to its provider and intent.  A token comes
    either from the cache entry of exactly this caller, provider and intent
    with more than thirty seconds left, or from a 201 answer of the directory
    to a request that names this provider and intent and authenticates as this
    caller; only such tokens enter the cache, under that key; and in a
    restricted domain the answer must carry a current eligible decision for the
    domain, and the absence of a token is never silently accepted. *)
Theorem consumer_token_bound `{SerdeOps} token directory_url node_token target intent context ans tr res tr' res' :
  let key := (node_token, target, intent) in
  run ans 0 (acquire_consumer_token directory_url node_token target intent) = (tr, res) ->
  run ans 0 (acquire_restricted_consumer_token token directory_url node_token target intent context) = (tr', res') ->
  (forall tok, res = Some tok -> from_cache key tok tr \/ exists data, issued directory_url true key tok data tr) /\
  (forall tr1 k t e x tr2, tr = tr1 ++ Did (CacheSet k t e) x :: tr2 ->
     k = key /\ exists data, issued directory_url true key t data tr1) /\
  res' <> Val None /\
  (forall tok, res' = Val (Some tok) -> from_cache key tok tr' \/
     exists data, issued directory_url false key tok data tr' /\ eligible_now context "consumer_token" data tr') /\
  (forall tr1 k t e x tr2, tr' = tr1 ++ Did (CacheSet k t e) x :: tr2 ->
     k = key /\ exists data, issued directory_url false key t data tr1).
Proof.
  cbv zeta. intros H1 H2.
  destruct (run_logged _ _ _ _ _ _ _ (acquire_along directory_url node_token target intent) H1) as [Hf Hs].
  destruct (run_logged _ _ _ _ _ _ _ (acquire_restricted_along token directory_url node_token target intent context) H2)
    as [[Hn Hf'] Hs'].
  split; [done|]. split; [intros; by eapply (Hs _ (CacheSet _ _ _))|]. split; [done|]. split; [done|].
  intros; by eapply (Hs' _ (CacheSet _ _ _)).
Qed.
