(* ===== verification/Directory.v ===== *)
(** * Discovery and ticketed routes ([IicpClient::discover] and
    [IicpClient::ticketed_candidates] of [src/client.rs])

    How a client learns about nodes: the legacy discovery query, and dispatch
    tickets whose signature the client checks. *)

From S2P Require Import Prelude Program Text Json HttpResource DispatchTicket ClientTypes ClientEffects Endpoint HttpClient IntentPolicy Selection ConsumerToken.

Definition DIRECTORY_CONNECT_ATTEMPTS : Z := 3.
Definition directory_connect_retry_delay (attempt : Z) (is_connect_error : bool) : option Z :=
  if is_connect_error && (attempt + 1 <? DIRECTORY_CONNECT_ATTEMPTS) then Some (100 * (attempt + 1)) else None.

Definition unsupported_profile (message : string) : IicpError := PolicyRefused "unsupported_pre_normative_profile" message.
Definition bool_display (b : bool) : string := if b then "true" else "false".

(** [request[k] = v] *)
Definition json_set (k : string) (v : json) (o : json) : json :=
  match o with JObject m => JObject (obj_insert k v m) | _ => o end.
Definition json_set_opt {A} (k : string) (f : A -> json) (a : option A) (o : json) : json :=
  match a with Some a => json_set k (f a) o | None => o end.

(** [TicketRouteError::LegacyRequired] is a value; other errors are failures. *)
Inductive ticket_route := Candidates (l : list Node) | LegacyRequired.

Section directory.
Context `{SerdeOps} (config : ClientConfig).
(** [str::to_lowercase] and [Display] of [f64] *)
Context (to_lowercase : string -> string) (f64_display : f64 -> string).
Context (ed25519_verify : list byte -> list byte -> list byte -> bool)
        (hex_decode b64url_decode : string -> option (list byte))
        (parse_claims : list byte -> option DispatchRouteTicketClaims).

(** ** [discover] *)

Definition query_opt (k : string) (v : option string) : string :=
  match v with
  | Some x => if is_safe_query_param x then "&" +:+ k +:+ "=" +:+ x else empty_str
  | None => empty_str
  end.

Definition profile_query (p : ProfileRequest) : result string IicpError :=
  if is_safe_query_param (profile_id p) && is_safe_query_param (profile_version p)
     && (str_len (profile_fixture_sha256 p) =? 64) && str_all is_ascii_hexdigit (profile_fixture_sha256 p)
  then Ok ("&profile_id=" +:+ profile_id p +:+ "&profile_version=" +:+ profile_version p
           +:+ "&profile_fixture_sha256=" +:+ profile_fixture_sha256 p
           +:+ "&profile_required=" +:+ bool_display (profile_required p))
  else Err (unsupported_profile "invalid pre-normative profile request").

Definition base_url : string := trim_end_char "/" (directory_url config).

Definition discover_url (intent : string) (opts : DiscoverOptions) : result string IicpError :=
  let? profile := (match o_profile_request opts with Some p => profile_query p | None => Ok empty_str end) in
  Ok (base_url +:+ "/v1/discover?intent=" +:+ intent
      +:+ query_opt "region" (option_or (o_region opts) (cfg_region config))
      +:+ query_opt "model" (o_model opts) +:+ query_opt "qos" (o_qos opts)
      +:+ match o_min_reputation opts with Some rep => "&min_reputation=" +:+ f64_display rep | None => empty_str end
      +:+ profile +:+ "&limit=" +:+ pretty (default 10 (o_limit opts))).

Definition with_eligibility (e : option RestrictedEligibility) (n : Node) : Node :=
  mkNode (node_id n) (endpoint n) (score n) (load n) (available n) (region n) (models n) (health_label n)
    (cx_public_key n) (cip_policy n) (directory_observed_reachable n) (browser_usable n) (node_policy_manifest n)
    (dispatch_ticket_id_prefix n) e.

Definition fetch_nodes (url : string) (traceparent : option string) : prog answer (outcome NodeList) :=
  match restricted_directory config with
  | Some context =>
      perform secret := ResolveSecret (membership_credential context) in
      match secret with
      | None => Ret (Fail membership_unavailable)
      | Some membership =>
          await? body := get_restricted_json url membership (subject_id context) traceparent in
          await? eligibility := validate_decision body context "discovery" in
          match node_list_from_value body with
          | Err e => Ret (Fail (Serde e))
          | Ok parsed =>
              Ret (Val (mkNodeList (with_eligibility (Some eligibility) <$> nodes parsed) (count parsed)
                          (profile_negotiation parsed) (Some eligibility)))
          end
      end
  | None =>
      await? body := get_json (node_token config) url traceparent in
      Ret (outcome_of (map_err Serde (node_list_from_value body)))
  end.

Definition negotiated (l : NodeList) : bool :=
  is_some_and (profile_negotiation l) (fun n =>
    opt_str_is (pn_status n) "compatible" && bool_decide (dispatch_allowed n = Some true)).

Definition usable_in_browser (n : Node) : bool :=
  match browser_usable n with Some b => b | None => is_browser_usable_endpoint to_lowercase (endpoint n) end.

Definition discover (intent : string) (opts : DiscoverOptions) (traceparent : option string)
    : prog answer (outcome NodeList) :=
  match validate_intent intent with
  | Err e => Ret (Fail e)
  | Ok _ =>
      match discover_url intent opts with
      | Err e => Ret (Fail e)
      | Ok url =>
          await? list := fetch_nodes url traceparent in
          if is_some_and (o_profile_request opts) profile_required && negb (negotiated list)
          then Ret (Fail (unsupported_profile "required pre-normative profile is not supported by the directory"))
          else if default false (o_browser_usable_only opts) then
            let kept := List.filter usable_in_browser (nodes list) in
            Ret (Val (mkNodeList kept (zlen kept mod 2 ^ 32) (profile_negotiation list) (list_eligibility list)))
          else Ret (Val list)
      end
  end.

(** ** [ticketed_candidates] *)

Definition ticket_request (intent : string) (opts : DiscoverOptions) (excluded : list string) : json :=
  json_set "exclude_node_id_prefixes" (JArray (JString <$> excluded))
    (json_set_opt "min_reputation" f64_json (o_min_reputation opts)
    (json_set_opt "qos" JString (o_qos opts)
    (json_set_opt "model" JString (o_model opts)
    (json_set_opt "region" JString (option_or (o_region opts) (cfg_region config))
    (mk_obj [("intent", JString intent); ("limit", u64_json (Z.min (default 10 (o_limit opts)) 50))]))))).

(** The unrestricted POST, repeated while connecting fails. *)
Fixpoint send_with_retry (left : nat) (attempt : Z) (rq : http_request) : prog answer (outcome http_response) :=
  perform r := Send rq in
  match r with
  | Ok response => Ret (Val response)
  | Err connect =>
      match directory_connect_retry_delay attempt connect, left with
      | Some delay, S left' => perform _ := Sleep delay in send_with_retry left' (attempt + 1) rq
      | _, _ => Ret (Fail (Http connect))
      end
  end.

(** One round's answer: [None] where the directory has no ticket route. *)
Definition ticket_round_response (url : string) (request : json) (traceparent : string)
    : prog answer (outcome (option (Z * json))) :=
  match restricted_directory config with
  | Some context =>
      perform secret := ResolveSecret (membership_credential context) in
      match secret with
      | None => Ret (Fail membership_unavailable)
      | Some membership =>
          await? sb := post_restricted_json (node_token config) url request membership (subject_id context) None
                         (Some traceparent) in
          Ret (Val (Some sb))
      end
  | None =>
      await? response := send_with_retry 3 0
                           (directory_request "POST" url None [("traceparent", traceparent)] (Some request) true) in
      let status := rs_status response in
      if (status =? 405) || (status =? 501) then Ret (Val None)
      else Ret (outcome_of (let? body := response_json response in Ok (Some (status, body))))
  end.

(** The directory's key, fetched once and then kept. *)
Definition ticket_key : prog answer (option string) :=
  perform cached := TicketKeyGet in
  match cached with
  | Some _ => perform key := TicketKeyGet in Ret key
  | None =>
      perform r := Send (directory_request "GET" (base_url +:+ "/v1/directory-key") None [] None true) in
      match r with
      | Ok response =>
          if is_success (rs_status response) then
            match response_json response with
            | Ok body =>
                match get_str body "public_key" with
                | Some key => perform _ := TicketKeySet key in perform key := TicketKeyGet in Ret key
                | None => perform key := TicketKeyGet in Ret key
                end
            | Err _ => perform key := TicketKeyGet in Ret key
            end
          else perform key := TicketKeyGet in Ret key
      | Err _ => perform key := TicketKeyGet in Ret key
      end
  end.

Definition ticket_issuer : string := default base_url (strip_suffix "/api" base_url).

Definition verify_ticket (body : json) (key : option string) (node_id intent : string)
    : prog answer (option DispatchRouteTicketClaims) :=
  match get_str body "ticket", key with
  | Some ticket, Some key =>
      perform now := UnixNow in
      Ret (verify_dispatch_route_ticket ed25519_verify hex_decode b64url_decode parse_claims
             ticket key ticket_issuer node_id intent now)
  | _, _ => Ret None
  end.

(** A 201 answer: the node, once its ticket is verified. *)
Definition accept_ticket (status : Z) (body : json) (intent : string) : prog answer (outcome (Node * string)) :=
  await? eligibility :=
    (match restricted_directory config with
     | Some context => await? e := validate_decision body context "dispatch_ticket" in Ret (Val (Some e))
     | None => Ret (Val None)
     end) in
  let node_id := default empty_str (get_str body "node_id") in
  run! key := ticket_key in
  run! claims := verify_ticket body key node_id intent in
  match claims with
  | None => Ret (Fail (Protocol "IICP-DISPATCH-TICKET-UNVERIFIED" "Directory returned an unverifiable dispatch ticket" status))
  | Some claims =>
      let route := default JNull (jget body "route") in
      if negb (policy_manifest_binding_matches claims route)
      then Ret (Fail (Protocol "IICP-POLICY-MANIFEST-BINDING-MISMATCH"
                        "Directory ticket does not match the route policy manifest" status))
      else
        match node_from_value (json_set "node_id" (default JNull (jget body "node_id")) route) with
        | Err e => Ret (Fail (Serde e))
        | Ok n =>
            let node := mkNode (ClientTypes.node_id n) (endpoint n) (score n) (load n) (available n) (region n)
              (models n) (health_label n) (cx_public_key n) (cip_policy n) (directory_observed_reachable n) (browser_usable n)
              (node_policy_manifest n) (get_str body "ticket_id_prefix") eligibility in
            match node_short_id (ClientTypes.node_id node) with
            | None => Ret Panic
            | Some short => Ret (Val (node, short))
            end
        end
  end.

Fixpoint ticket_rounds (left : nat) (intent : string) (opts : DiscoverOptions) (traceparent : string)
    (excluded : list string) (candidates : list Node) : prog answer (outcome ticket_route) :=
  match left with
  | O => Ret (Val (Candidates candidates))
  | S left' =>
      await? answered := ticket_round_response (base_url +:+ "/v1/dispatch/ticket")
                           (ticket_request intent opts excluded) traceparent in
      match answered with
      | None => Ret (Val LegacyRequired)
      | Some (status, body) =>
          let error_code := error_field body "code" in
          let restricted := is_some (restricted_directory config) in
          if (status =? 405) || (status =? 501)
          then Ret (Fail (PolicyRefused "restricted_directory_operation_unsupported"
                            "restricted dispatch-ticket operation is unavailable"))
          else if status =? 201 then
            await? (node, short) := accept_ticket status body intent in
            ticket_rounds left' intent opts traceparent (excluded ++ [short]) (candidates ++ [node])
          else if (status =? 404) && opt_str_is error_code "no_route_available"
          then Ret (Val (Candidates candidates))
          else if (status =? 404) && negb restricted then Ret (Val LegacyRequired)
          else if (status =? 503) && opt_str_is error_code "not_configured" && negb restricted
          then Ret (Val LegacyRequired)
          else Ret (Fail (Protocol ("IICP-DISPATCH-TICKET-" +:+ pretty status)
                            ("Ticketed dispatch refused (" +:+ default "unknown" error_code +:+ ")") status))
      end
  end.

Definition ticketed_candidates (intent : string) (opts : DiscoverOptions) (traceparent : string)
    : prog answer (outcome ticket_route) :=
  ticket_rounds MAX_RETRIES intent opts traceparent [] [].

(** ** Ticketed candidates are verified *)

Definition anything (tr : trace) (a : action) : Prop := True.

(** The directory answered [status] and [body] to a ticket request. *)
Definition ticket_answered (status : Z) (body : json) (tr : trace) : Prop :=
  exists rq resp, Did (resp:=answer) (Send rq) (Ok resp) ∈ tr /\ rq_url rq = base_url +:+ "/v1/dispatch/ticket" /\
    rs_status resp = status /\ response_json resp = Ok body.

(** The node comes from the route of a 201 answer whose ticket verifies, under
    the pinned directory key, for that node identifier and intent, is not
    expired, and binds the route's policy manifest. *)
Definition ticket_backed (intent : string) (tr : trace) (n : Node) : Prop :=
  exists body key now ticket claims n0,
    ticket_answered 201 body tr /\ Did (resp:=answer) TicketKeyGet (Some key) ∈ tr /\
    Did (resp:=answer) UnixNow now ∈ tr /\ get_str body "ticket" = Some ticket /\
    verify_dispatch_route_ticket ed25519_verify hex_decode b64url_decode parse_claims ticket key ticket_issuer
      (default empty_str (get_str body "node_id")) intent now = Some claims /\
    tc_node_id claims = default empty_str (get_str body "node_id") /\ tc_intent claims = intent /\ now < tc_exp claims /\
    policy_manifest_binding_matches claims (default JNull (jget body "route")) = true /\
    node_from_value (json_set "node_id" (default JNull (jget body "node_id")) (default JNull (jget body "route"))) = Ok n0 /\
    node_id n = node_id n0 /\ endpoint n = endpoint n0 /\ cx_public_key n = cx_public_key n0.

Lemma ticket_answered_prefix st body tr tr' : tr `prefix_of` tr' -> ticket_answered st body tr -> ticket_answered st body tr'.
Proof. intros Hp (rq & resp & Hin & Hr). exists rq, resp. split; [by eapply prefix_elem|done]. Qed.

Lemma ticket_backed_prefix i tr tr' n : tr `prefix_of` tr' -> ticket_backed i tr n -> ticket_backed i tr' n.
Proof.
  intros Hp (body & key & now & ticket & claims & n0 & H1 & H2 & H3 & Hr). exists body, key, now, ticket, claims, n0.
  split; [by eapply ticket_answered_prefix|]. split; [by eapply prefix_elem|]. split; [by eapply prefix_elem|done].
Qed.

Lemma send_retry_along left : forall attempt rq tr,
  along log anything (on_val (fun tr' resp => Did (resp:=answer) (Send rq) (Ok resp) ∈ tr')) tr
    (send_with_retry left attempt rq).
Proof.
  induction left as [|left IH]; intros attempt rq tr; cbn [send_with_retry]; (split; [done|]);
    (intros [resp|connect]; [apply elem_last|]).
  - by destruct (directory_connect_retry_delay attempt connect).
  - destruct (directory_connect_retry_delay attempt connect); [|done]. split; [done|]. intros []. apply IH.
Qed.

Lemma round_response_along request tp tr :
  along log anything (on_val (fun tr' o => forall st b, o = Some (st, b) -> ticket_answered st b tr')) tr
    (ticket_round_response (base_url +:+ "/v1/dispatch/ticket") request tp).
Proof.
  unfold ticket_round_response. destruct (restricted_directory config) as [context|].
  - split; [done|]. intros [membership|]; [|done]. eapply along_try; [by apply post_restricted_along|].
    intros tr' [st b] (rq & resp & ? & ? & _ & _ & _ & ? & ?). cbn. intros st' b' [= <- <-]. by exists rq, resp.
  - eapply along_try; [apply send_retry_along|]. intros tr' resp Hin.
    destruct (_ || _); [by cbn; intros ? ? [=]|]. destruct (response_json resp) as [b|] eqn:Ej; [|done].
    cbn. intros st b' [= <- <-]. eexists _, resp. split; [exact Hin|]. done.
Qed.

Lemma ticket_key_along tr :
  along log anything (fun tr' o => forall key, o = Some key -> Did (resp:=answer) TicketKeyGet (Some key) ∈ tr') tr ticket_key.
Proof.
  assert (forall tr, along log anything (fun tr' o => forall key, o = Some key -> Did (resp:=answer) TicketKeyGet (Some key) ∈ tr')
    tr (perform key := TicketKeyGet in Ret key)) as Hget.
  { intros tr0. split; [done|]. cbn. intros o key ->. apply elem_last. }
  unfold ticket_key. split; [done|]. intros [k|]; [apply Hget|]. split; [done|]. intros [resp|]; [|apply Hget].
  destruct (is_success _); [|apply Hget]. destruct (response_json resp) as [b|]; [|apply Hget].
  destruct (get_str b "public_key"); [|apply Hget]. split; [done|]. intros []. apply Hget.
Qed.

Lemma accept_ticket_along body intent tr :
  ticket_answered 201 body tr ->
  along log anything (on_val (fun tr' ns => ticket_backed intent tr' ns.1)) tr (accept_ticket 201 body intent).
Proof.
  intros Hans. unfold accept_ticket. eapply (along_try _ _ (fun tr' _ => tr `prefix_of` tr')).
  { destruct (restricted_directory config) as [context|]; [|cbn; done].
    eapply along_try; [|by intros tr' e Hp; exact Hp].
    eapply along_mono; [|apply along_prefix, along_any]. by intros s [r|e|] [_ Hp]. }
  intros tr1 eligibility Hp1. eapply along_bind; [apply along_prefix, ticket_key_along|]. intros tr2 key [Hkey Hp2].
  unfold verify_ticket. destruct (get_str body "ticket") as [ticket|] eqn:Et; [|done].
  destruct key as [key|]; [|done]. split; [done|]. intros now. cbn [prog_bind].
  destruct (verify_dispatch_route_ticket _ _ _ _ _ _ _ _ _ _) as [claims|] eqn:Ev; [|done].
  destruct (policy_manifest_binding_matches claims _) eqn:Eb; [|done]. cbn [negb].
  destruct (node_from_value _) as [n0|] eqn:En; [|done]. cbn [node_id].
  destruct (node_short_id (node_id n0)) as [short|]; [|done]. cbn.
  pose proof Ev as Hv. apply route_ticket_sound in Hv as (? & ? & ? & ? & ? & _ & _ & _ & _ & _ & _ & _ & _ & _ & _ & ? & ? & ?).
  assert (tr `prefix_of` log tr2 UnixNow now) as Hp by (eapply prefix_app_r; by etrans).
  exists body, key, now, ticket, claims, n0. split; [by eapply ticket_answered_prefix|].
  split; [eapply prefix_elem; [|by apply Hkey]; by apply prefix_app_r|]. split; [apply elem_last|]. done.
Qed.

Lemma ticket_rounds_along left intent opts tp : forall excluded candidates tr,
  Forall (ticket_backed intent tr) candidates ->
  along log anything (on_val (fun tr' o => forall l, o = Candidates l ->
      Forall (ticket_backed intent tr') l /\ (length l <= length candidates + left)%nat)) tr
    (ticket_rounds left intent opts tp excluded candidates).
Proof.
  induction left as [|left IH]; intros excluded candidates tr Hc; cbn [ticket_rounds].
  { cbn. intros l [= <-]. split; [done|lia]. }
  eapply along_try_log; [apply round_response_along|].
  intros tr1 [[st body]|] Hans Hp; [|by cbn; intros ? [=]].
  specialize (Hans _ _ eq_refl).
  assert (Forall (ticket_backed intent tr1) candidates) as Hc1.
  { eapply Forall_impl; [exact Hc|]. intros n. by apply ticket_backed_prefix. }
  destruct (_ || _); [done|]. destruct (Z.eqb_spec st 201) as [->|].
  - eapply along_try_log; [by apply accept_ticket_along|]. intros tr2 [n short] Hn Hp2. eapply along_mono; [|apply IH].
    + intros tr' [o|e|] H1; [|done..]. cbn in *. intros l E. destruct (H1 l E) as [? Hl].
      split; [done|]. rewrite length_app in Hl. simpl in Hl. lia.
    + apply Forall_app. split; [|by constructor].
      eapply Forall_impl; [exact Hc1|]. intros m. by apply ticket_backed_prefix.
  - destruct (_ && _); [cbn; intros l [= <-]; split; [done|lia]|].
    destruct (_ && _); [by cbn; intros ? [=]|]. destruct (_ && _ && _); [by cbn; intros ? [=]|done].
Qed.
End directory.

(** C8: a ticketed route is a verified one.  Every candidate the ticket route
    yields (at most three) stands in the route of a 201 answer of the directory
    whose ticket carries a valid signature of the pinned directory key, names
    that node and the requested intent, is not expired when checked, and binds
    the policy manifest of the route. *)
Theorem ticketed_candidates_verified `{SerdeOps} config ed25519_verify hex_decode b64url_decode parse_claims
    intent opts tp ans tr l :
  run ans 0 (ticketed_candidates config ed25519_verify hex_decode b64url_decode parse_claims intent opts tp)
    = (tr, Val (Candidates l)) ->
  (length l <= 3)%nat /\
  Forall (ticket_backed config ed25519_verify hex_decode b64url_decode parse_claims intent tr) l.
Proof.
  intros Hrun. destruct (run_logged _ _ _ _ _ _ _ (ticket_rounds_along config ed25519_verify hex_decode b64url_decode
    parse_claims MAX_RETRIES intent opts tp [] [] [] ltac:(constructor)) Hrun) as [Hf _].
  destruct (Hf l eq_refl) as [HF Hl]. split; [exact Hl|exact HF].
Qed.
