(* ===== verification/Client.v ===== *)
(** * Submitting a task ([IicpClient] of [src/client.rs])

    Discover or take tickets, filter, select, encrypt, send, retry and fail
    over.  The functions the submit path calls are actions of this layer;
    [client_call] interprets them by the programs of the layer below. *)

From S2P Require Import Prelude Program Text Json Cbor HttpResource DispatchTicket ClientTypes ClientEffects Confidential Endpoint HttpClient IntentPolicy RoutingPolicy Selection ConsumerToken Directory.

Definition MAX_TIMEOUT_MS : Z := 120000.

(** ** Calls of the submit path *)

Inductive call :=
| Lib (a : action)
| Discover (intent : string) (opts : DiscoverOptions) (traceparent : string)
| Ticketed (intent : string) (opts : DiscoverOptions) (traceparent : string)
| AcquireToken (node_token node_id intent : string)
| EncryptPayload (payload : json) (key : CxPublicKey) (task_id intent : string)
| PostTask (url : string) (body : json) (consumer_token : option string) (traceparent : string).

Definition call_answer (c : call) : Type :=
  match c with
  | Lib a => answer a
  | Discover _ _ _ => outcome NodeList
  | Ticketed _ _ _ => outcome ticket_route
  | AcquireToken _ _ _ => outcome (option string)
  | EncryptPayload _ _ _ _ => outcome (envelope * list byte)
  | PostTask _ _ _ _ => outcome TaskResponse
  end.

Notation "'invoke' x := c 'in' k" := (Act (resp:=call_answer) c (fun x => k))
  (at level 200, x name, c at level 100, k at level 200,
   format "'[v' 'invoke'  x  :=  c  'in' '/' k ']'") : iicp_scope.

(** A library program inside the submit path. *)
Definition lib {R} (p : prog answer R) : prog call_answer R :=
  interp (respA:=answer) (fun a => invoke r := Lib a in Ret r) p.

(** [IicpClient::new]; [http] is the result of [HttpClient::new]. *)
Definition client_new (config : ClientConfig) (http : result unit IicpError) : prog answer (outcome ClientConfig) :=
  if MAX_TIMEOUT_MS <? cfg_timeout_ms config then Ret (Fail (TimeoutTooLarge (cfg_timeout_ms config)))
  else if negb (str_in (route_discovery_mode config) ["auto"; "ticketed"; "legacy"])
  then Ret (Fail (NodeError "route_discovery_mode must be auto, ticketed, or legacy"))
  else if negb (str_in (consumer_auth_mode config) ["optional"; "required"; "disabled"])
  then Ret (Fail (PolicyRefused "SDK-AUTH-MODE" "consumer_auth_mode must be optional, required, or disabled"))
  else
    await? _ :=
      (match restricted_directory config with
       | None => Ret (Val tt)
       | Some context =>
           match validate_context context with
           | Err e => Ret (Fail e)
           | Ok _ =>
               if negb (is_some_and (cfg_profile_request config) (fun p =>
                    profile_required p && (profile_id p ==? RESTRICTED_PROFILE_ID)))
               then Ret (Fail (unsupported_profile "restricted directory context requires the canonical Profile request"))
               else
                 perform secret := ResolveSecret (membership_credential context) in
                 match secret with Some _ => Ret (Val tt) | None => Ret (Fail membership_unavailable) end
           end
       end) in
    Ret (outcome_of (let? _ := http in Ok config)).

(** [payload[k] = v]: [Null] becomes an object, other values panic. *)
Definition index_set (k : string) (v : json) (payload : json) : option json :=
  match payload with
  | JObject m => Some (JObject (obj_insert k v m))
  | JNull => Some (mk_obj [(k, v)])
  | _ => None
  end.

Section submit.
Context `{SerdeOps} {crypto : CxCrypto} (config : ClientConfig) (ranker : option CandidateRanker).
(** The two environment variables the path reads. *)
Context (loopback_var plaintext_var : option string).
Context (to_lowercase : string -> string) (sha256_hex : string -> string) (exp : f64 -> f64).
(** Runtime identity: the messages and options of a chat, and their composition
    for a selected model and selection reason. *)
Context {Identity : Type}
        (compose_runtime_identity : Identity -> string -> option string -> string -> result json string).

Definition node_allowed (allowed : option (gset string)) (n : Node) : bool :=
  is_none_or allowed (fun s => bool_decide (node_id n ∈ s)).
Definition endpoint_safe (n : Node) : bool :=
  is_ssrf_safe to_lowercase (private_endpoints_allowed loopback_var) (endpoint n).

(** The first filter; it prints the short identifier of an unsafe node. *)
Fixpoint pre_policy_filter (allowed : option (gset string)) (l : list Node) : option (list Node) :=
  match l with
  | [] => Some []
  | n :: l =>
      if negb (node_allowed allowed n) then pre_policy_filter allowed l
      else if negb (endpoint_safe n)
      then match node_short_id (node_id n) with Some _ => pre_policy_filter allowed l | None => None end
      else if negb (available n) then pre_policy_filter allowed l
      else let! rest := pre_policy_filter allowed l in Some (n :: rest)
  end.

(** The loop that prints the keyless nodes. *)
Definition keyless_printable (allow_plaintext : bool) (l : list Node) : bool :=
  forallb (fun n => negb (is_none (cx_public_key n) && negb allow_plaintext) || is_some (node_short_id (node_id n))) l.

Definition selected_model (request : TaskRequest) (node : Node) : option string :=
  let requested := constraints request ≫= c_model in
  option_or
    (requested ≫= fun r => models node ≫= fun ms => List.find (fun m => m ==? r) ms)
    (models node ≫= fun ms => if zlen ms =? 1 then head ms else None).

Definition runtime_identity_payload_for_candidate (request : TaskRequest) (node : Node) (candidate_index : nat)
    (context : Identity) : outcome json :=
  let reason := if (0 <? candidate_index)%nat then "fallback_after_unavailable_candidate"
                else "matched_intent_and_constraints" in
  match compose_runtime_identity context (intent request) (selected_model request node) reason with
  | Err code => Fail (Protocol code "runtime identity context could not be composed before dispatch" 400)
  | Ok messages => match index_set "messages" messages (payload request) with Some p => Val p | None => Panic end
  end.

Definition candidate_payload (request : TaskRequest) (identity : option Identity) (node : Node) (index : nat) : outcome json :=
  match identity with
  | Some context => runtime_identity_payload_for_candidate request node index context
  | None => Val (payload request)
  end.

Definition with_payload (request : TaskRequest) (p : json) : TaskRequest :=
  mkRequest (task_id request) (intent request) p (constraints request) (route_constraints request)
    (auth_token request) (source_node_id request) (routing_policy request).
Definition with_task_id (request : TaskRequest) (id : string) : TaskRequest :=
  mkRequest id (intent request) (payload request) (constraints request) (route_constraints request)
    (auth_token request) (source_node_id request) (routing_policy request).

Definition requires_encrypted_response (node : Node) : bool :=
  is_some_and (cx_public_key node) (fun key => str_in "response_encryption_v1" (features key)).

(** The encrypted body: the request without its payload, with the envelope. *)
Definition sealed_body (request : TaskRequest) (conf : json) (encrypted_response : bool) : json :=
  match request_json request with
  | JObject m =>
      let m := obj_insert "iicp_conf" conf (obj_remove "payload" m) in
      JObject (if encrypted_response then obj_insert "cx_response_encryption" (JString "required") m else m)
  | v => v
  end.

(** The body for one candidate, with the shared secret of its encryption. *)
Definition candidate_body (request : TaskRequest) (p : json) (node : Node)
    : prog call_answer (outcome (json * option (list byte))) :=
  match cx_public_key node with
  | Some cx_key =>
      await? (conf, secret) := (invoke r := EncryptPayload p cx_key (task_id request) (intent request) in Ret r) in
      Ret (Val (sealed_body request (env_json conf) (requires_encrypted_response node), Some secret))
  | None => Ret (Val (request_json (with_payload request p), None))
  end.

Definition candidate_token (node : Node) (intent : string) : prog call_answer (outcome (option string)) :=
  await? token :=
    (if consumer_auth_mode config ==? "disabled" then Ret (Val None)
     else match node_token config with
          | Some tok => invoke r := AcquireToken tok (node_id node) intent in Ret r
          | None => Ret (Val None)
          end) in
  if (consumer_auth_mode config ==? "required") && is_none token
  then Ret (Fail (PolicyRefused "IICP-CONSUMER-AUTH-REQUIRED"
                    "Consumer authentication is required but no directory-issued token is available"))
  else Ret (Val token).

(** Opening an encrypted response. *)
Definition open_response (node : Node) (secret : option (list byte)) (task_id : string) (resp : TaskResponse)
    : outcome TaskResponse :=
  if negb (requires_encrypted_response node) then Val resp
  else
    match iicp_conf_resp resp, secret with
    | None, _ => Fail (NodeError "node advertised response encryption but returned plaintext")
    | Some _, None => Fail (NodeError "missing CX response context")
    | Some envelope, Some secret =>
        match decrypt_response envelope secret task_id with
        | Val opened =>
            outcome_of (map_err (fun err => NodeError ("encrypted response decode failed: " +:+ err))
                          (response_from_value opened))
        | Fail e => Fail e
        | Panic => Panic
        end
    end.

Definition receipt_profile (decision : option RankerDecision) (negotiation : option ProfileNegotiation) (index : nat) : string :=
  match decision with
  | Some d => ranker_receipt_profile d index
  | None =>
      if is_some negotiation || (route_discovery_mode config ==? "legacy") then routing_strategy config
      else "directory_ticket_v1"
  end.

Definition with_receipt (resp : TaskResponse) (prefix : option string) (receipt : RoutingReceipt) : TaskResponse :=
  mkTaskResponse (tr_task_id resp) (tr_status resp) (tr_result resp) (iicp_conf_resp resp) (tr_metrics resp)
    (tr_error resp) true prefix (Some receipt).

(** What does not change from candidate to candidate. *)
Record dispatch_context := mkDispatch {
  dc_request : TaskRequest;
  dc_tp : string;
  dc_decision : option RankerDecision;
  dc_negotiation : option ProfileNegotiation;
  dc_eligible : nat
}.

Definition finish (dc : dispatch_context) (node : Node) (index : nat) (secret : option (list byte)) (resp : TaskResponse)
    : outcome TaskResponse :=
  match open_response node secret (task_id (dc_request dc)) resp with
  | Fail e => Fail e
  | Panic => Panic
  | Val resp =>
      match node_short_id (node_id node) with
      | None => Panic
      | Some short =>
          Val (with_receipt resp (dispatch_ticket_id_prefix node)
            (mkReceipt "iicp-routing-receipt-v1" (receipt_profile (dc_decision dc) (dc_negotiation dc) index)
              (Z.of_nat (dc_eligible dc)) short (dc_negotiation dc) "prompt_response_endpoint_token_excluded"))
      end
  end.

(** How the attempts on one candidate end. *)
Inductive attempt_end := Returned (o : outcome TaskResponse) | NextNode (e : IicpError).

Definition is_endpoint_refused (e : IicpError) : bool := match e with EndpointRefused _ => true | _ => false end.
Definition is_http (e : IicpError) : bool := match e with Http _ => true | _ => false end.

(** [for attempt in 0..MAX_RETRIES]; [left] attempts remain, [last] is the
    error of the previous one. *)
Fixpoint attempts (left : nat) (attempt : Z) (last : IicpError) (dc : dispatch_context) (node : Node) (index : nat)
    (body : json) (token : option string) (secret : option (list byte)) : prog call_answer attempt_end :=
  match left with
  | O => Ret (NextNode last)
  | S left' =>
      invoke r := PostTask (endpoint node +:+ "/v1/task") body token (dc_tp dc) in
      match r with
      | Val resp => Ret (Returned (finish dc node index secret resp))
      | Panic => Ret (Returned Panic)
      | Fail e =>
          if is_endpoint_refused e then Ret (NextNode e)
          else if negb (is_transient e) then Ret (Returned (Fail e))
          else if is_http e then Ret (NextNode e)
          else if attempt <? 2 then
            invoke _ := Lib (Sleep (200 * 2 ^ attempt)) in
            attempts left' (attempt + 1) e dc node index body token secret
          else attempts left' (attempt + 1) e dc node index body token secret
      end
  end.

(** ['nodes: for (candidate_index, node) in candidates] *)
Fixpoint try_candidates (candidates : list Node) (index : nat) (last_err : option IicpError) (dc : dispatch_context)
    (identity : option Identity) : prog call_answer (outcome TaskResponse) :=
  match candidates with
  | [] => Ret (Fail (default (NoNodes (intent (dc_request dc))) last_err))
  | node :: rest =>
      match candidate_payload (dc_request dc) identity node index with
      | Fail e => Ret (Fail e)
      | Panic => Ret Panic
      | Val p =>
          await? token := candidate_token node (intent (dc_request dc)) in
          await? (body, secret) := candidate_body (dc_request dc) p node in
          run! ended := attempts MAX_RETRIES 0 (NoNodes (intent (dc_request dc))) dc node index body token secret in
          match ended with
          | Returned o => Ret o
          | NextNode e => try_candidates rest (S index) (Some e) dc identity
          end
      end
  end.

(** The node list: legacy discovery or ticketed routes. *)
Definition find_nodes (request : TaskRequest) (opts : DiscoverOptions) (tp : string) : prog call_answer (outcome NodeList) :=
  if (route_discovery_mode config ==? "legacy")
     || (is_some (cfg_profile_request config) && is_none (restricted_directory config))
  then invoke r := Discover (intent request) opts tp in Ret r
  else
    invoke r := Ticketed (intent request) opts tp in
    match r with
    | Val (Candidates l) => Ret (Val (mkNodeList l (zlen l mod 2 ^ 32) None None))
    | Val LegacyRequired =>
        if route_discovery_mode config ==? "auto" then invoke d := Discover (intent request) opts tp in Ret d
        else Ret (Fail (Protocol "IICP-DISPATCH-TICKET-UNAVAILABLE" "Directory does not support ticketed dispatch" 501))
    | Fail e => Ret (Fail e)
    | Panic => Ret Panic
    end.

Definition effective_policy (request : TaskRequest) : EffectiveRoutingPolicy :=
  resolved_policy (Some (default (cfg_routing_policy config) (routing_policy request))).
Definition plaintext_allowed (policy : EffectiveRoutingPolicy) : bool :=
  cx_plaintext_fallback_allowed plaintext_var || negb (require_encryption policy).

(** Everything after the node list. *)
Definition dispatch (request : TaskRequest) (tp : string) (identity : option Identity) (allowed : option (gset string))
    (found : NodeList) : prog call_answer (outcome TaskResponse) :=
  match pre_policy_filter allowed (nodes found) with
  | None => Ret Panic
  | Some pre =>
      if is_some allowed && bool_decide (length pre = 0%nat) then Ret (Fail (NoNodes (intent request)))
      else
        let policy := effective_policy request in
        let plain := plaintext_allowed policy in
        let decision := filter_nodes_for_routing_policy pre policy plain in
        if negb (keyless_printable plain pre) then Ret Panic
        else
          match eligible decision with
          | [] =>
              if (0 <? skipped_keyless decision) && (zlen (rejected_reasons decision) =? skipped_keyless decision)
              then Ret (Fail (NodeError ("IICP-CX confidentiality required: " +:+ pretty (skipped_keyless decision)
                     +:+ " discovered node(s) advertised no encryption key; refusing plaintext fallback")))
              else Ret (Fail (PolicyRefused ROUTING_POLICY_REFUSAL_CODE
                                (routing_policy_refusal_message (intent request) decision policy)))
          | eligible_nodes =>
              await? (candidates, ranked) := lib (select_candidates sha256_hex exp config ranker request eligible_nodes) in
              match candidates with
              | [] => Ret (Fail (NoNodes (intent request)))
              | _ =>
                  try_candidates candidates 0 None
                    (mkDispatch request tp ranked (profile_negotiation found) (length eligible_nodes)) identity
              end
          end
  end.

Definition submit_internal (request : TaskRequest) (identity : option Identity) (allowed : option (gset string))
    : prog call_answer (outcome TaskResponse) :=
  match validate_intent (intent request) with
  | Err e => Ret (Fail e)
  | Ok _ =>
      run! request := (if str_is_empty (task_id request) then invoke id := Lib NewUuid in Ret (with_task_id request id)
                       else Ret request) in
      run! tp := lib make_traceparent in
      await? found := find_nodes request (project_route_options request config) tp in
      dispatch request tp identity allowed found
  end.

Definition submit (request : TaskRequest) : prog call_answer (outcome TaskResponse) := submit_internal request None None.
Definition submit_to_node_ids (request : TaskRequest) (allowed_node_ids : gset string) : prog call_answer (outcome TaskResponse) :=
  submit_internal request None (Some allowed_node_ids).

Definition RUNTIME_IDENTITY_CHAT_INTENT : string := "urn:iicp:intent:llm:chat:v1".

(** [identity_of] decodes the messages and joins them with the options. *)
Definition submit_chat_with_runtime_identity (identity_of : json -> result Identity string) (request : TaskRequest)
    : prog call_answer (outcome TaskResponse) :=
  if intent request <>? RUNTIME_IDENTITY_CHAT_INTENT
  then Ret (Fail (Protocol "runtime_identity_not_applicable"
                    "runtime identity composition is available only for llm:chat:v1" 400))
  else
    match jget (payload request) "messages" with
    | None => Ret (Fail (Protocol "runtime_identity_messages_missing" "chat runtime identity requires a messages array" 400))
    | Some value =>
        match identity_of value with
        | Err error => Ret (Fail (Protocol "runtime_identity_messages_invalid"
                                    ("chat messages could not be decoded: " +:+ error) 400))
        | Ok identity => submit_internal request (Some identity) None
        end
    end.
End submit.

(** ** The calls, by the programs that implement them *)

Definition client_call_token `{SerdeOps} (config : ClientConfig) (tok node i : string) : prog answer (outcome (option string)) :=
  match restricted_directory config with
  | Some context => acquire_restricted_consumer_token (node_token config) (directory_url config) tok node i context
  | None => run! t := acquire_consumer_token (directory_url config) tok node i in Ret (Val t)
  end.

Definition client_call {Url} `{UrlOps Url} `{SerdeOps} {crypto : CxCrypto} (config : ClientConfig) (loopback_var : option string)
    (to_lowercase : string -> string) (f64_display : f64 -> string)
    (ed25519_verify : list byte -> list byte -> list byte -> bool) (hex_decode b64url_decode : string -> option (list byte))
    (parse_claims : list byte -> option DispatchRouteTicketClaims) (c : call) : prog answer (call_answer c) :=
  match c with
  | Lib a => perform r := a in Ret r
  | Discover i opts tp => discover config to_lowercase f64_display i opts (Some tp)
  | Ticketed i opts tp => ticketed_candidates config ed25519_verify hex_decode b64url_decode parse_claims i opts tp
  | AcquireToken tok node i => client_call_token config tok node i
  | EncryptPayload p key id i => encrypt_payload_with_context p key id i
  | PostTask url body ct tp =>
      post_json_ct_with_policy (node_token config) url body None ct (Some tp) (private_endpoints_allowed loopback_var)
  end.
