(* ===== verification/SubmitSafety.v ===== *)
(** * What a submission may do

    Properties of [submit_internal] on every path: where a task is posted, what
    the body carries, how often, and how the result depends on the answers. *)

From S2P Require Import Prelude Program Text Chars Json HttpResource DispatchTicket ClientTypes ClientEffects Confidential Endpoint HttpClient IntentPolicy RoutingPolicy Selection ConsumerToken Directory Client.

Definition ctrace : Type := list (step call_answer).

(** The answers of the task posts of a trace, in order. *)
Definition post_result (x : step call_answer) : option (outcome TaskResponse) :=
  match x with
  | Did c r =>
      match c return call_answer c -> option (outcome TaskResponse) with
      | PostTask _ _ _ _ => fun r => Some r
      | _ => fun _ => None
      end r
  end.
Definition posts (tr : ctrace) : list (outcome TaskResponse) := omap post_result tr.

Lemma posts_app tr tr' : posts (tr ++ tr') = posts tr ++ posts tr'.
Proof. apply omap_app. Qed.

(** A failure after which another candidate or attempt may follow. *)
Definition retryable (o : outcome TaskResponse) : Prop :=
  exists e, o = Fail e /\ (is_endpoint_refused e || is_transient e) = true.

(** The node stands in an answer of the directory for this intent. *)
Definition discovered (i : string) (n : Node) (tr : ctrace) : Prop :=
  (exists opts tp l, Did (resp:=call_answer) (Discover i opts tp) (Val l) ∈ tr /\ n ∈ nodes l) \/
  (exists opts tp l, Did (resp:=call_answer) (Ticketed i opts tp) (Val (Candidates l)) ∈ tr /\ n ∈ l).

Lemma discovered_prefix i n tr tr' : tr `prefix_of` tr' -> discovered i n tr -> discovered i n tr'.
Proof.
  intros Hp [(o & tp & l & Hin & Hn)|(o & tp & l & Hin & Hn)]; [left|right]; exists o, tp, l; eauto using prefix_elem.
Qed.

Section submit_safety.
Context `{SerdeOps} {crypto : CxCrypto} (config : ClientConfig) (ranker : option CandidateRanker) (loopback_var plaintext_var : option string).
Context (to_lowercase : string -> string) (sha256_hex : string -> string) (exp : f64 -> f64).
Context {Identity : Type} (compose : Identity -> string -> option string -> string -> result json string).

(** A node this request may be sent to. *)
Record target_ok (request : TaskRequest) (allowed : option (gset string)) (n : Node) : Prop := {
  to_allowed : forall s, allowed = Some s -> node_id n ∈ s;
  to_safe : endpoint_safe loopback_var to_lowercase n = true;
  to_available : available n = true;
  to_policy : permitted (effective_policy config request) (plaintext_allowed plaintext_var (effective_policy config request)) n
}.

(** The body for a node: sealed for its key, in clear only where that is allowed. *)
Definition body_ok (request : TaskRequest) (n : Node) (body : json) (tr : ctrace) : Prop :=
  match cx_public_key n with
  | Some key =>
      jget body "payload" = None /\ exists p id conf secret, jget body "iicp_conf" = Some (env_json conf) /\
        Did (resp:=call_answer) (EncryptPayload p key id (intent request)) (Val (conf, secret)) ∈ tr
  | None => plaintext_allowed plaintext_var (effective_policy config request) = true
  end.

(** The consumer token: obtained for this node and intent, and present where
    the configuration requires one. *)
Definition token_ok (request : TaskRequest) (n : Node) (ct : option string) (tr : ctrace) : Prop :=
  (forall t, ct = Some t -> exists own, node_token config = Some own /\
     Did (resp:=call_answer) (AcquireToken own (node_id n) (intent request)) (Val (Some t)) ∈ tr) /\
  (consumer_auth_mode config = "required" -> ct <> None).

Definition post_allowed (request : TaskRequest) (allowed : option (gset string)) (tr : ctrace)
    (url : string) (body : json) (ct : option string) : Prop :=
  exists n, discovered (intent request) n tr /\ target_ok request allowed n /\ url = endpoint n +:+ "/v1/task" /\
    body_ok request n body tr /\ token_ok request n ct tr /\ (length (posts tr) < 9)%nat /\ Forall retryable (posts tr).

Definition call_ok (request : TaskRequest) (allowed : option (gset string)) (tr : ctrace) (c : call) : Prop :=
  match c with
  | PostTask url body ct _ => post_allowed request allowed tr url body ct
  | Lib (Send _) => False
  | _ => True
  end.

(** ** The filter before the policy *)

Lemma pre_policy_filter_ok allowed l pre :
  pre_policy_filter loopback_var to_lowercase allowed l = Some pre ->
  forall n, n ∈ pre -> n ∈ l /\ (forall s, allowed = Some s -> node_id n ∈ s) /\
    endpoint_safe loopback_var to_lowercase n = true /\ available n = true.
Proof.
  revert pre. induction l as [|m l IH]; intros pre; simpl; [intros [= <-] n Hn; by apply not_elem_of_nil in Hn|].
  assert (forall pre', pre_policy_filter loopback_var to_lowercase allowed l = Some pre' -> forall n, n ∈ pre' ->
    n ∈ m :: l /\ (forall s, allowed = Some s -> node_id n ∈ s) /\
    endpoint_safe loopback_var to_lowercase n = true /\ available n = true) as IH'.
  { intros pre' E n Hn. destruct (IH _ E n Hn) as [? ?]. split; [by right|done]. }
  destruct (node_allowed allowed m) eqn:Ea; cbn [negb]; [|by apply IH'].
  destruct (endpoint_safe loopback_var to_lowercase m) eqn:Es; cbn [negb].
  2:{ destruct (node_short_id (node_id m)); [by apply IH'|done]. }
  destruct (available m) eqn:Ev; cbn [negb]; [|by apply IH'].
  intros (rest & E & [= <-])%bind_Some n [->|Hn]%elem_of_cons; [|by eapply IH'].
  split; [by left|]. split; [|done]. intros s ->. cbn in Ea. by apply bool_decide_eq_true in Ea.
Qed.

(** ** Library programs do not post *)

Lemma lib_along {R} (okA : unit -> action -> Prop) (fin : R -> Prop) (okc : ctrace -> call -> Prop) (p : prog answer R) tr :
  along (fun (_ : unit) a (_ : answer a) => tt) okA (fun _ => fin) tt p -> (forall tr a, okA tt a -> okc tr (Lib a)) ->
  along log okc (fun tr' r => fin r /\ tr `prefix_of` tr' /\ posts tr' = posts tr) tr (lib p).
Proof.
  intros Hp Hok.
  enough (forall tr', tr `prefix_of` tr' -> posts tr' = posts tr ->
    along log okc (fun tr' r => fin r /\ tr `prefix_of` tr' /\ posts tr' = posts tr) tr' (lib p)) as H0 by by apply H0.
  unfold lib. revert Hp. induction p as [r|a k IH]; intros Hp tr' Hpre Hposts; simpl in *; [done|].
  destruct Hp as [Ha Hk]. split; [by apply Hok|]. intros r. apply IH; [apply Hk|by apply prefix_app_r|].
  unfold log. rewrite posts_app. simpl. by rewrite app_nil_r.
Qed.

Lemma posts_log_other tr c (r : call_answer c) : post_result (Did c r) = None -> posts (log tr c r) = posts tr.
Proof. intros E. unfold log. rewrite posts_app. cbn [posts omap list_omap]. rewrite E. apply app_nil_r. Qed.

Lemma log_prefix tr0 tr c (r : call_answer c) : tr0 `prefix_of` tr -> tr0 `prefix_of` log tr c r.
Proof. intros Hp. by apply prefix_app_r. Qed.

(** ** One candidate *)

Section candidate.
Context (request : TaskRequest) (allowed : option (gset string)).
Notation ok := (call_ok request allowed).

(** What a step that prepares a candidate leaves behind. *)
Definition prepared {R} (P : ctrace -> R -> Prop) (tr tr' : ctrace) (o : outcome R) : Prop :=
  tr `prefix_of` tr' /\ posts tr' = posts tr /\
  match o with Val r => P tr' r | Fail _ => True | Panic => True end.

Lemma candidate_token_along n tr :
  along log ok (prepared (fun tr' ct => token_ok request n ct tr') tr) tr (candidate_token config n (intent request)).
Proof.
  unfold candidate_token.
  eapply (along_bind _ _ (prepared (fun tr' ct => forall t, ct = Some t -> exists own, node_token config = Some own /\
     Did (resp:=call_answer) (AcquireToken own (node_id n) (intent request)) (Val (Some t)) ∈ tr') tr)).
  - destruct (consumer_auth_mode config ==? "disabled"); [cbn; by split|].
    destruct (node_token config) as [own|] eqn:Eo; [|cbn; by split]. split; [done|]. intros r. cbn.
    split; [by apply log_prefix|]. split; [by apply posts_log_other|]. destruct r as [ct|e|]; [| |done].
    + intros t ->. exists own. split; [done|apply elem_last].
    + done.
  - intros tr' [ct|e|] (Hp & Hq & Hv); [|by split..].
    destruct (String.eqb_spec (consumer_auth_mode config) "required") as [Er|Er]; cbn [andb].
    + destruct ct as [t|]; cbn.
      * split; [done|]. split; [done|]. by split.
      * by split.
    + split; [done|]. split; [done|]. by split.
Qed.

Lemma sealed_body_ok r conf b : jget (sealed_body r conf b) "payload" = None /\ jget (sealed_body r conf b) "iicp_conf" = Some conf.
Proof.
  unfold sealed_body, request_json, mk_obj. destruct b; rewrite !jget_mk_obj_insert; cbn [String.eqb Ascii.eqb Bool.eqb andb];
    (split; [apply obj_get_remove|done]).
Qed.

Lemma candidate_body_along n p r tr :
  intent r = intent request -> target_ok request allowed n ->
  along log ok (prepared (fun tr' bs => body_ok request n bs.1 tr') tr) tr (candidate_body r p n).
Proof.
  intros Hi Ht. unfold candidate_body, body_ok. destruct (cx_public_key n) as [key|] eqn:Ek.
  - split; [done|]. intros [[conf secret]|e|]; cbn; (split; [by apply log_prefix|]);
      (split; [by apply posts_log_other|]); [| |done].
    + destruct (sealed_body_ok r (env_json conf) (requires_encrypted_response n)) as [? ?]. split; [done|].
      exists p, (task_id r), conf, secret. split; [done|]. rewrite <- Hi. apply elem_last.
    + done.
  - cbn. split; [done|]. split; [done|]. destruct Ht as [_ _ _ [_ _ Hk _ _ _ _]].
    unfold plaintext_allowed in *. destruct (require_encryption _) eqn:Er; [|by rewrite orb_true_r].
    destruct (Hk eq_refl) as [Hk'|Hk']; [exact Hk'|done].
Qed.

Lemma attempts_along dc n index body ct secret left : forall attempt last tr,
  (forall tr', tr `prefix_of` tr' -> (length (posts tr') < 9)%nat -> Forall retryable (posts tr') ->
     post_allowed request allowed tr' (endpoint n +:+ "/v1/task") body ct) ->
  Forall retryable (posts tr) -> (length (posts tr) + left <= 9)%nat ->
  along log ok (fun tr' ended => tr `prefix_of` tr' /\ (length (posts tr') <= length (posts tr) + left)%nat /\
      match ended with
      | NextNode e => Forall retryable (posts tr')
      | Returned o => True
      end) tr
    (attempts config left attempt last dc n index body ct secret).
Proof.
  induction left as [|left IH]; intros attempt last tr Hpost Hret Hlen; cbn [attempts].
  { cbn. split; [done|]. split; [lia|done]. }
  split; [by apply Hpost; [|lia|]|]. intros r. set (tr1 := log tr _ r).
  assert (posts tr1 = posts tr ++ [r]) as Hp1 by (unfold tr1, log; rewrite posts_app; done).
  assert (tr `prefix_of` tr1) as Hpre by (by apply log_prefix).
  assert (length (posts tr1) = S (length (posts tr))) as Hl1 by (rewrite Hp1, length_app; simpl; lia).
  destruct r as [resp|e|].
  - cbn [along]. split; [done|]. split; [lia|]. done.
  - assert ((is_endpoint_refused e || is_transient e) = true -> Forall retryable (posts tr1)) as Hr1.
    { intros He. rewrite Hp1. apply Forall_app. split; [done|]. constructor; [|constructor]. by exists e. }
    destruct (is_endpoint_refused e) eqn:E1.
    { cbn [along]. split; [done|]. split; [lia|]. by apply Hr1. }
    destruct (is_transient e) eqn:E2; cbn [negb].
    2:{ cbn [along]. split; [done|]. split; [lia|done]. }
    destruct (is_http e) eqn:E3; [cbn [along]; split; [done|]; split; [lia|]; by apply Hr1|].
    assert (forall tr2, tr1 `prefix_of` tr2 -> posts tr2 = posts tr1 -> along log ok (fun tr' ended => tr `prefix_of` tr' /\
      (length (posts tr') <= length (posts tr) + S left)%nat /\
      match ended with
      | NextNode e => Forall retryable (posts tr')
      | Returned o => True
      end) tr2 (attempts config left (attempt + 1) e dc n index body ct secret)) as Hrec.
    { intros tr2 Hpre2 Hp2. eapply along_mono; [|apply IH].
      - intros tr' ended (Hx & Hy & Hz). split; [by do 2 (etrans; [eassumption|])|]. rewrite Hp2 in Hy. split; [lia|done].
      - intros tr' Hx. apply Hpost. by do 2 (etrans; [eassumption|]).
      - rewrite Hp2. by apply Hr1.
      - rewrite Hp2. lia. }
    destruct (attempt <? 2); [|by apply Hrec]. split; [done|]. intros []. apply Hrec; [by apply log_prefix|].
    by apply posts_log_other.
  - cbn [along]. split; [done|]. by split; [lia|].
Qed.

(** ** All candidates *)

Lemma body_ok_prefix n body tr tr' : tr `prefix_of` tr' -> body_ok request n body tr -> body_ok request n body tr'.
Proof.
  intros Hp. unfold body_ok. destruct (cx_public_key n); [|done].
  intros (? & p & id & conf & secret & ? & Hin). split; [done|]. exists p, id, conf, secret. eauto using prefix_elem.
Qed.
Lemma token_ok_prefix n ct tr tr' : tr `prefix_of` tr' -> token_ok request n ct tr -> token_ok request n ct tr'.
Proof.
  intros Hp [Ht Hr]. split; [|done]. intros t E. destruct (Ht t E) as (own & ? & ?). eauto using prefix_elem.
Qed.

Lemma try_candidates_along dc identity candidates : forall index last_err tr,
  intent (dc_request dc) = intent request ->
  Forall (fun n => target_ok request allowed n /\ discovered (intent request) n tr) candidates ->
  Forall retryable (posts tr) -> (length (posts tr) + 3 * length candidates <= 9)%nat ->
  along log ok (fun _ _ => True) tr
    (try_candidates config compose candidates index last_err dc identity).
Proof.
  induction candidates as [|n rest IH]; intros index last_err tr Hi Hc Hret Hlen; cbn [try_candidates]; [done|].
  apply Forall_cons in Hc as [[Htarget Hdisc] Hrest].
  destruct (candidate_payload compose (dc_request dc) identity n index) as [p|e|]; [|done..].
  rewrite Hi. unfold try_bind at 1. eapply along_bind; [apply candidate_token_along|].
  intros tr1 [ct|e|] (Hp1 & Hq1 & Hct); [|done..].
  unfold try_bind. eapply along_bind; [by apply candidate_body_along|].
  intros tr2 [[body secret]|e|] (Hp2 & Hq2 & Hb); [|done..].
  assert (tr `prefix_of` tr2) as Hp02 by (by etrans).
  eapply along_bind; [apply attempts_along|].
  - intros tr' Hp3 Hl Hr. exists n. split; [eapply discovered_prefix; [|exact Hdisc]; by etrans|]. split; [done|].
    split; [done|]. split; [by eapply body_ok_prefix|]. split; [|done].
    eapply token_ok_prefix; [|exact Hct]. by etrans.
  - by rewrite Hq2, Hq1.
  - rewrite Hq2, Hq1. cbn [length] in Hlen. unfold MAX_RETRIES. lia.
  - intros tr3 [o|e] (Hp3 & Hl & Hr); [done|]. apply IH; [done| |done|].
    + eapply Forall_impl; [exact Hrest|]. intros m [? Hd]. split; [done|]. eapply discovered_prefix; [|exact Hd]. by etrans.
    + rewrite Hq2, Hq1 in Hl. cbn [length] in Hlen. unfold MAX_RETRIES in Hl. lia.
Qed.

(** ** The whole submission *)

Lemma find_nodes_along r opts tp tr :
  intent r = intent request -> posts tr = [] ->
  along log ok (fun tr' o => posts tr' = [] /\ match o with
      | Val l => forall n, n ∈ nodes l -> discovered (intent request) n tr'
      | _ => True end) tr
    (find_nodes config r opts tp).
Proof.
  intros Hi Hp. unfold find_nodes. rewrite Hi.
  assert (forall tr, posts tr = [] -> along log ok (fun tr' o => posts tr' = [] /\ match o with
      | Val l => forall n, n ∈ nodes l -> discovered (intent request) n tr'
      | _ => True end) tr (Act (resp:=call_answer) (Discover (intent request) opts tp) (fun d => Ret d))) as Hd.
  { intros tr0 Hp0. split; [done|]. intros d. cbn. split; [by rewrite posts_log_other|]. destruct d as [l|e|]; [|done..].
    intros n Hn. left. exists opts, tp, l. split; [apply elem_last|done]. }
  destruct (_ || _); [by apply Hd|]. split; [done|]. intros [[l|]|e|]; cbn [along].
  - split; [by rewrite posts_log_other|]. cbn [nodes]. intros n Hn. right. exists opts, tp, l. split; [apply elem_last|done].
  - destruct (_ ==? _); [apply Hd; by rewrite posts_log_other|]. cbn. split; [by rewrite posts_log_other|done].
  - split; [by rewrite posts_log_other|done].
  - split; [by rewrite posts_log_other|done].
Qed.

Lemma dispatch_along r tp identity found tr :
  intent r = intent request -> routing_policy r = routing_policy request -> posts tr = [] ->
  (forall n, n ∈ nodes found -> discovered (intent request) n tr) ->
  along log ok (fun _ _ => True) tr
    (dispatch config ranker loopback_var plaintext_var to_lowercase sha256_hex exp compose
       r tp identity allowed found).
Proof.
  intros Hi Hrp Hp Hfound. unfold dispatch.
  destruct (pre_policy_filter _ _ _ _) as [pre|] eqn:Epre; [|done].
  destruct (_ && _); [done|].
  assert (effective_policy config r = effective_policy config request) as -> by (unfold effective_policy; by rewrite Hrp).
  rewrite filter_nodes_spec. cbn [eligible skipped_keyless rejected_reasons].
  destruct (negb _); [done|].
  set (elig := filter _ pre).
  assert (Forall (fun n => target_ok request allowed n /\ discovered (intent request) n tr) elig) as Helig.
  { apply Forall_forall. intros n [Hperm Hn]%list_elem_of_filter.
    destruct (pre_policy_filter_ok _ _ _ Epre n Hn) as (? & ? & ? & ?). split; [by split|]. by apply Hfound. }
  destruct elig as [|n0 elig0] eqn:Eel; [destruct (_ && _); done|].
  unfold try_bind. eapply along_bind; [eapply lib_along; [by apply select_ok|by intros ? []]|].
  intros tr1 [[cs ranked]|e|] (Hsel & Hp1 & Hq1).
  2,3: done.
  destruct Hsel as [(Hl & Hsub & _) _]. destruct cs as [|c cs]; [done|].
  apply try_candidates_along; [done| | |].
  - apply Forall_forall. intros n Hn. apply Hsub in Hn. rewrite Forall_forall in Helig.
    destruct (Helig n Hn) as [? Hd]. split; [done|]. by eapply discovered_prefix.
  - rewrite Hq1, Hp. constructor.
  - rewrite Hq1, Hp. simpl in *. lia.
Qed.

Lemma submit_along identity :
  along log ok (fun _ _ => True) []
    (submit_internal config ranker loopback_var plaintext_var to_lowercase sha256_hex exp compose
       request identity allowed).
Proof.
  unfold submit_internal. destruct (validate_intent (intent request)) as [[]|e]; [|done].
  eapply (along_bind _ _ (fun tr r => posts tr = [] /\ intent r = intent request /\ routing_policy r = routing_policy request)).
  { destruct (str_is_empty _); [|done]. split; [done|]. intros id. cbn. done. }
  intros tr r (Hp & Hi & Hrp). eapply along_bind.
  { apply (lib_along (fun _ a => a = NewUuidSimple) (fun _ => True)); [done|by intros ? ? ->]. }
  intros tr1 tp (_ & _ & Hq1). unfold try_bind. eapply along_bind; [apply find_nodes_along; [done|congruence]|].
  intros tr2 [found|e|] [Hq2 Hfound]; [by apply dispatch_along|done..].
Qed.
End candidate.
End submit_safety.

(** C4: a task is posted only to nodes the request may reach.  Whatever the
    directory and the providers answer, a post goes to the task endpoint of a
    node that the directory returned for this intent, that is in the caller's
    allowed set, passes the address guard, is available and is permitted by the
    routing policy; to a node with a key the body carries no payload but the
    envelope encrypted for that key; in clear it is sent only where the policy
    or the override allows that; its consumer token was obtained for this node
    and intent and is present where required; at most nine posts happen, each
    after retryable failures only; and a refused intent causes no action. *)
Theorem submit_posts_guarded `{SerdeOps} {crypto : CxCrypto} config ranker loopback_var plaintext_var to_lowercase sha256_hex exp
    {Identity} (compose : Identity -> string -> option string -> string -> result json string)
    request identity allowed ans tr res :
  run ans 0 (submit_internal config ranker loopback_var plaintext_var to_lowercase sha256_hex exp
    compose request identity allowed) = (tr, res) ->
  (forall tr1 url body ct tp r tr2, tr = tr1 ++ Did (PostTask url body ct tp) r :: tr2 ->
     post_allowed config loopback_var plaintext_var to_lowercase request allowed tr1 url body ct) /\
  (forall e, validate_intent (intent request) = Err e -> tr = [] /\ res = Fail e).
Proof.
  intros Hrun. split.
  - intros tr1 url body ct tp r tr2 E. destruct (run_logged _ _ _ _ _ _ _ (submit_along config ranker loopback_var
      plaintext_var to_lowercase sha256_hex exp compose request allowed identity) Hrun) as [_ Hs].
    exact (Hs _ _ _ _ E).
  - intros e He. unfold submit_internal in Hrun. rewrite He in Hrun. by injection Hrun as <- <-.
Qed.

(** ** Egress of the whole client *)

Section egress.
Context {Url : Type} `{UrlOps Url} `{SerdeOps} (config : ClientConfig) (allow_private : bool).

(** A route of the configured directory. *)
Definition directory_route (method url : string) : Prop :=
  method = "GET" /\ (exists query, url = base_url config +:+ "/v1/discover?" +:+ query) \/
  method = "POST" /\ url = base_url config +:+ "/v1/dispatch/ticket" \/
  method = "POST" /\ url = token_url (directory_url config).
(** A request to the configured directory.  The HTTP library may follow its
    redirects only where no restricted directory is configured, or for the
    directory's public key, a request that carries nothing. *)
Definition directory_egress (rq : http_request) : Prop :=
  rq_pin rq = None /\
  (directory_route (rq_method rq) (rq_url rq) /\ (rq_follow rq = true -> restricted_directory config = None) \/
   rq_method rq = "GET" /\ rq_url rq = base_url config +:+ "/v1/directory-key" /\
   rq_bearer rq = None /\ rq_headers rq = [] /\ rq_body rq = None).

(** A transmission to a pinned address that passed the endpoint guard. *)
Definition provider_egress (rq : http_request) : Prop :=
  exists u host addr, rq_url rq = url_to_string u /\ rq_pin rq = Some (host, addr) /\ rq_follow rq = false /\
    endpoint_checked (Url:=Url) allow_private u host addr /\
    exists body, rq_body rq = Some body /\ zlen body <= MAX_HTTP_TASK_BODY_BYTES.

Definition egress_ok (a : action) : Prop :=
  match a with Send rq => directory_egress rq \/ provider_egress rq | _ => True end.

Lemma route_egress method url bearer headers body follow :
  directory_route method url -> (follow = true -> restricted_directory config = None) ->
  egress_ok (Send (directory_request method url bearer headers body follow)).
Proof. intros Hr Hf. left. split; [done|]. by left. Qed.
Lemma key_egress : egress_ok (Send (directory_request "GET" (base_url config +:+ "/v1/directory-key") None [] None true)).
Proof. left. split; [done|]. by right. Qed.

Ltac egress := acts_split; first [exact I | apply key_egress | idtac].

Lemma validate_decision_egress body context op : acts egress_ok (validate_decision body context op).
Proof. unfold validate_decision. egress. Qed.
Lemma traceparent_egress o : acts egress_ok (traceparent_or_new o).
Proof. unfold traceparent_or_new, make_traceparent. egress. Qed.
Lemma send_result_egress {R} r (k : http_response -> prog answer (outcome R)) :
  (forall resp, acts egress_ok (k resp)) -> acts egress_ok (send_result r k).
Proof. intros Hk. destruct r; [apply Hk|apply acts_ret]. Qed.

Lemma get_json_egress token url tp :
  directory_route "GET" url -> restricted_directory config = None -> acts egress_ok (get_json token url tp).
Proof.
  intros Hu Hr. unfold get_json. apply acts_bind; [apply traceparent_egress|]. intros t.
  apply acts_act; [by apply route_egress|]. intros r. apply send_result_egress. intros. apply acts_ret.
Qed.
Lemma get_restricted_egress url m sub tp : directory_route "GET" url -> acts egress_ok (get_restricted_json url m sub tp).
Proof.
  intros Hu. unfold get_restricted_json. apply acts_bind; [apply traceparent_egress|]. intros t.
  apply acts_act; [by apply route_egress|]. intros r. apply send_result_egress. intros. egress.
Qed.
Lemma post_restricted_egress token url body m sub auth tp :
  directory_route "POST" url -> acts egress_ok (post_restricted_json token url body m sub auth tp).
Proof.
  intros Hu. unfold post_restricted_json. apply acts_bind; [apply traceparent_egress|]. intros t.
  apply acts_act; [by apply route_egress|]. intros r. apply send_result_egress. intros. egress.
Qed.

Lemma discover_egress to_lowercase f64_display i opts tp :
  acts egress_ok (discover config to_lowercase f64_display i opts tp).
Proof.
  unfold discover. destruct (validate_intent i); [|apply acts_ret].
  destruct (discover_url config f64_display i opts) as [url|] eqn:Eu; [|apply acts_ret].
  assert (directory_route "GET" url) as Hu.
  { unfold discover_url in Eu. apply rbind_Ok in Eu as (profile & _ & [= <-]). left. split; [done|]. eexists.
    change "/v1/discover?intent=" with ("/v1/discover?" +:+ "intent="). by rewrite append_assoc. }
  apply acts_try; [|intros l; egress]. unfold fetch_nodes. destruct (restricted_directory config) as [context|] eqn:Er.
  - apply acts_act; [done|]. intros [m|]; [|apply acts_ret].
    apply acts_try; [by apply get_restricted_egress|]. intros b.
    apply acts_try; [apply validate_decision_egress|]. intros e. egress.
  - apply acts_try; [by apply get_json_egress|]. intros b. apply acts_ret.
Qed.

Lemma send_retry_egress left : forall attempt rq, egress_ok (Send rq) -> acts egress_ok (send_with_retry left attempt rq).
Proof.
  induction left as [|left IH]; intros attempt rq Hrq; cbn [send_with_retry]; (apply acts_act; [done|]);
    (intros [resp|connect]; [apply acts_ret|]); destruct (directory_connect_retry_delay _ _); try apply acts_ret.
  apply acts_act; [done|]. intros _. by apply IH.
Qed.

Lemma ticketed_egress ed hex b64 parse i opts tp :
  acts egress_ok (ticketed_candidates config ed hex b64 parse i opts tp).
Proof.
  unfold ticketed_candidates. generalize (@nil string) (@nil Node). induction MAX_RETRIES as [|left IH];
    intros excluded candidates; cbn [ticket_rounds]; [apply acts_ret|].
  apply acts_try.
  { unfold ticket_round_response. destruct (restricted_directory config) as [context|] eqn:Er.
    - apply acts_act; [done|]. intros [m|]; [|apply acts_ret]. apply acts_try; [|intros; apply acts_ret].
      apply post_restricted_egress. by right; left.
    - apply acts_try; [apply send_retry_egress, route_egress; [by right; left|done]|]. intros. egress. }
  intros [[status body]|]; [|apply acts_ret]. case_match; [apply acts_ret|]. case_match; [|egress].
  apply acts_try; [|intros [n short]; apply IH]. unfold accept_ticket. apply acts_try.
  { destruct (restricted_directory config); [|apply acts_ret].
    apply acts_try; [apply validate_decision_egress|]. intros. apply acts_ret. }
  intros e. apply acts_bind; [unfold ticket_key; egress|]. intros key.
  apply acts_bind; [unfold verify_ticket; egress|]. intros claims. egress.
Qed.

Lemma cache_get_egress key : acts egress_ok (cache_get key).
Proof. unfold cache_get. egress. Qed.

Lemma acquire_egress own n i :
  acts egress_ok (client_call_token config own n i).
Proof.
  unfold client_call_token. destruct (restricted_directory config) as [context|] eqn:Er.
  - unfold acquire_restricted_consumer_token. apply acts_bind; [apply cache_get_egress|]. intros [t|]; [apply acts_ret|].
    apply acts_act; [done|]. intros [m|]; [|apply acts_ret].
    apply acts_try; [apply post_restricted_egress; by right; right|]. intros [status data].
    case_match; [apply acts_ret|]. apply acts_try; [apply validate_decision_egress|]. intros. egress.
  - apply acts_bind; [|intros; apply acts_ret]. unfold acquire_consumer_token.
    apply acts_bind; [apply cache_get_egress|]. intros [t|]; [apply acts_ret|].
    apply acts_act; [apply route_egress; [by right; right|done]|]. intros r. egress.
Qed.

Lemma post_task_egress token url body auth ct tp :
  acts egress_ok (post_json_ct_with_policy token url body auth ct tp allow_private).
Proof.
  eapply along_acts; [apply post_along|]. intros s a. destruct a; simpl; try done. intros [_ Hu Hf _ _ [Hb Hl]].
  destruct Hu as (u0 & u & host & addr & _ & ? & _ & ? & ?). right. exists u, host, addr.
  do 4 (split; [done|]). eauto.
Qed.
End egress.

(** C6: the client talks to nobody else.  Over a whole submission, every
    request the client makes is one of the configured directory's routes
    (discovery, tickets, consumer tokens, its public key), or a task of legal
    size sent, without automatic redirects, to a pinned address that passed the
    endpoint guard.  The HTTP library is let to follow a redirect of the directory
    only where no restricted directory is configured, or for the public key,
    asked for without token, header or body; where it then goes is up to that
    library and not part of this statement. *)
Theorem client_egress {Url} `{UrlOps Url} `{SerdeOps} {crypto : CxCrypto} config ranker loopback_var plaintext_var to_lowercase f64_display
    sha256_hex exp ed25519_verify hex_decode b64url_decode parse_claims
    {Identity} (compose : Identity -> string -> option string -> string -> result json string)
    request identity allowed ans tr res :
  run ans 0 (interp (client_call (Url:=Url) config loopback_var to_lowercase f64_display ed25519_verify hex_decode
      b64url_decode parse_claims)
    (submit_internal config ranker loopback_var plaintext_var to_lowercase sha256_hex exp compose
      request identity allowed)) = (tr, res) ->
  Forall (fun x => match x with
    | Did (Send rq) _ => directory_egress config rq \/
        provider_egress (Url:=Url) (private_endpoints_allowed loopback_var) rq
    | _ => True end) tr.
Proof.
  intros Hrun. eapply Forall_impl; [eapply run_acts; [|exact Hrun]|]; cycle 1.
  { instantiate (1 := egress_ok (Url:=Url) config (private_endpoints_allowed loopback_var)). by intros [[] r]. }
  apply (acts_interp (fun c => match c with Lib (Send _) => False | _ => True end)).
  - intros [a|i opts tp|i opts tp|own n i|p key id i|url body ct tp] Ha; cbn [client_call].
    + apply acts_act; [by destruct a|]. intros. apply acts_ret.
    + apply discover_egress.
    + apply ticketed_egress.
    + apply acquire_egress.
    + unfold encrypt_payload_with_context. by acts_split.
    + apply post_task_egress.
  - eapply along_acts; [apply (submit_along config ranker loopback_var plaintext_var to_lowercase sha256_hex exp
      compose request allowed identity)|]. by intros tr0 [[]| | | | |].
Qed.
