(* ===== verification/SubmitFailover.v ===== *)
(** * How a submission fails over

    Which posts a submission makes and how its result follows from the answers:
    a failure that another attempt or another node may mend leads on, until an
    answer settles the submission or the candidates are used up. *)

From S2P Require Import Prelude Program Text Json HttpResource DispatchTicket ClientTypes ClientEffects Confidential Endpoint HttpClient IntentPolicy RoutingPolicy Selection ConsumerToken Directory Client SubmitSafety.

(** ** The posts of a trace *)

Definition task_post (x : step call_answer) : option (string * outcome TaskResponse) :=
  match x with
  | Did c r =>
      match c return call_answer c -> option (string * outcome TaskResponse) with
      | PostTask url _ _ _ => fun r => Some (url, r)
      | _ => fun _ => None
      end r
  end.
(** Each post with its address and its answer, in order. *)
Definition task_posts (tr : ctrace) : list (string * outcome TaskResponse) := omap task_post tr.

Lemma sent_app tr tr' : task_posts (tr ++ tr') = task_posts tr ++ task_posts tr'.
Proof. apply omap_app. Qed.
Lemma sent_log_other tr c (r : call_answer c) : task_post (Did c r) = None -> task_posts (log tr c r) = task_posts tr.
Proof. intros E. unfold log. rewrite sent_app. cbn [task_posts omap list_omap]. rewrite E. apply app_nil_r. Qed.
Lemma posts_sent tr : posts tr = (task_posts tr).*2.
Proof. induction tr as [|[[] r] tr IH]; [done|exact IH..|]. cbn. by f_equal. Qed.
Lemma sent_same tr tr' : tr `prefix_of` tr' -> posts tr' = posts tr -> task_posts tr' = task_posts tr.
Proof.
  intros [x ->]. rewrite posts_app, sent_app, (posts_sent x). intros E. destruct (task_posts x) as [|y l]; [by rewrite app_nil_r|].
  apply (f_equal length) in E. rewrite length_app in E. cbn in E. lia.
Qed.

(** ** Answers *)

(** Overloaded or unavailable for now: the same node may be asked again. *)
Definition busy (e : IicpError) : Prop := exists code m status, e = Protocol code m status /\ status ∈ [429; 502; 503; 504].
(** The address was refused or the node not reached: another node is next. *)
Definition unreachable (e : IicpError) : Prop := (exists m, e = EndpointRefused m) \/ exists c, e = Http c.
Definition again (o : outcome TaskResponse) : Prop := exists e, o = Fail e /\ busy e.

Lemma busy_spec e : busy e <-> is_endpoint_refused e = false /\ is_transient e = true /\ is_http e = false.
Proof.
  split.
  - intros (code & m & status & -> & Hs). split_and!; [done| |done]. cbn.
    rewrite !elem_of_cons, elem_of_nil in Hs. lia.
  - intros (H1 & H2 & H3). destruct e; try done. cbn in H2. exists code, message, status. split; [done|].
    rewrite !elem_of_cons, elem_of_nil. lia.
Qed.
Lemma unreachable_spec e : unreachable e <-> is_endpoint_refused e = true \/ is_http e = true.
Proof.
  split; [by intros [[m ->]|[c ->]]; [left|right]|]. intros [H|H]; destruct e; try done; [left|right]; eauto.
Qed.

(** The attempts on one node that end with the error [e] and lead on: asked
    while busy, at most three times, until it could not be reached, or three
    times busy. *)
Definition gave_up (limit : nat) (rs : list (outcome TaskResponse)) (e : IicpError) : Prop :=
  exists ps, rs = ps ++ [Fail e] /\ Forall again ps /\
    (unreachable e /\ (length rs <= limit)%nat \/ busy e /\ length rs = limit).

Section failover.
Context `{SerdeOps} {crypto : CxCrypto} (config : ClientConfig) (ranker : option CandidateRanker) (loopback_var plaintext_var : option string).
Context (to_lowercase : string -> string) (sha256_hex : string -> string) (exp : f64 -> f64).
Context {Identity : Type} (compose : Identity -> string -> option string -> string -> result json string).

(** The attempts that end with an answer of the node, or an error that no
    other attempt mends. *)
Definition settled (limit : nat) (dc : dispatch_context) (n : Node) (index : nat) (secret : option (list byte))
    (rs : list (outcome TaskResponse)) (o : outcome TaskResponse) : Prop :=
  exists ps x, rs = ps ++ [x] /\ Forall again ps /\ (length rs <= limit)%nat /\
    match x with
    | Val resp => o = finish config dc n index secret resp
    | Fail e => o = Fail e /\ ~ busy e /\ ~ unreachable e
    | Panic => o = Panic
    end.

(** The secret of the encryption for the node of this task. *)
Definition secret_of (tr : ctrace) (dc : dispatch_context) (n : Node) (secret : option (list byte)) : Prop :=
  match cx_public_key n with
  | None => secret = None
  | Some key => exists p conf s, secret = Some s /\
      Did (resp:=call_answer) (EncryptPayload p key (task_id (dc_request dc)) (intent (dc_request dc))) (Val (conf, s)) ∈ tr
  end.

(** Why nothing is posted to a candidate: its messages, its token or its body
    could not be made. *)
Inductive unprepared (tr : ctrace) (dc : dispatch_context) (identity : option Identity) (n : Node) (index : nat)
    : outcome TaskResponse -> Prop :=
| up_identity c o : identity = Some c ->
    runtime_identity_payload_for_candidate compose (dc_request dc) n index c = o -> (forall v, o <> Val v) ->
    unprepared tr dc identity n index (match o with Fail e => Fail e | _ => Panic end)
| up_token own o : node_token config = Some own ->
    Did (resp:=call_answer) (AcquireToken own (node_id n) (intent (dc_request dc))) o ∈ tr -> (forall v, o <> Val v) ->
    unprepared tr dc identity n index (match o with Fail e => Fail e | _ => Panic end)
| up_no_token m : consumer_auth_mode config = "required" ->
    (forall own, node_token config = Some own ->
       Did (resp:=call_answer) (AcquireToken own (node_id n) (intent (dc_request dc))) (Val None) ∈ tr) ->
    unprepared tr dc identity n index (Fail (PolicyRefused "IICP-CONSUMER-AUTH-REQUIRED" m))
| up_body key p o : cx_public_key n = Some key ->
    Did (resp:=call_answer) (EncryptPayload p key (task_id (dc_request dc)) (intent (dc_request dc))) o ∈ tr -> (forall v, o <> Val v) ->
    unprepared tr dc identity n index (match o with Fail e => Fail e | _ => Panic end).

(** Posting to the candidates in turn; [last] is the error the last one left. *)
Inductive fails_over (tr : ctrace) (dc : dispatch_context) (identity : option Identity)
    : list Node -> nat -> option IicpError -> list (string * outcome TaskResponse) -> outcome TaskResponse -> Prop :=
| fo_exhausted i e : fails_over tr dc identity [] i (Some e) [] (Fail e)
| fo_unprepared n rest i last o : unprepared tr dc identity n i o -> fails_over tr dc identity (n :: rest) i last [] o
| fo_settled n rest i last secret rs o :
    secret_of tr dc n secret -> settled 3 dc n i secret rs o ->
    fails_over tr dc identity (n :: rest) i last (map (pair (endpoint n +:+ "/v1/task")) rs) o
| fo_next n rest i last rs e more o :
    gave_up 3 rs e -> fails_over tr dc identity rest (S i) (Some e) more o ->
    fails_over tr dc identity (n :: rest) i last (map (pair (endpoint n +:+ "/v1/task")) rs ++ more) o.

(** ** Which candidates *)

(** The nodes the directory answered with. *)
Definition answered_nodes (tr : ctrace) (i : string) (found : NodeList) : Prop :=
  (exists opts tp, Did (resp:=call_answer) (Discover i opts tp) (Val found) ∈ tr) \/
  (exists opts tp l, Did (resp:=call_answer) (Ticketed i opts tp) (Val (Candidates l)) ∈ tr /\
     found = mkNodeList l (zlen l mod 2 ^ 32) None None).
(** Those this request may be posted to. *)
Definition eligible_nodes (request : TaskRequest) (allowed : option (gset string)) (found elig : list Node) : Prop :=
  elig `sublist_of` found /\
  forall n, n ∈ elig <-> n ∈ found /\ target_ok config loopback_var plaintext_var to_lowercase request allowed n.
(** Up to three of them, and all three where no two share an identifier. *)
Definition selected (elig candidates : list Node) : Prop :=
  (1 <= length candidates <= 3)%nat /\ candidates ⊆ elig /\
  (NoDup (node_id <$> elig) -> NoDup (node_id <$> candidates) /\ length candidates = Nat.min 3 (length elig)).

(** The task as it is posted: with an identifier of its own if it had none. *)
Definition identified (tr : ctrace) (request r : TaskRequest) : Prop :=
  if str_is_empty (task_id request)
  then exists id, Did (resp:=call_answer) (Lib NewUuid) id ∈ tr /\ r = with_task_id request id
  else r = request.

(** Why a submission never gets to a candidate. *)
Inductive not_dispatched (request : TaskRequest) (allowed : option (gset string)) (tr : ctrace) : outcome TaskResponse -> Prop :=
| nd_intent e : validate_intent (intent request) = Err e -> not_dispatched request allowed tr (Fail e)
| nd_discover opts tp o : Did (resp:=call_answer) (Discover (intent request) opts tp) o ∈ tr -> (forall v, o <> Val v) ->
    not_dispatched request allowed tr (match o with Fail e => Fail e | _ => Panic end)
| nd_ticketed opts tp o : Did (resp:=call_answer) (Ticketed (intent request) opts tp) o ∈ tr -> (forall v, o <> Val v) ->
    not_dispatched request allowed tr (match o with Fail e => Fail e | _ => Panic end)
| nd_no_tickets opts tp m : Did (resp:=call_answer) (Ticketed (intent request) opts tp) (Val LegacyRequired) ∈ tr ->
    route_discovery_mode config <> "auto" ->
    not_dispatched request allowed tr (Fail (Protocol "IICP-DISPATCH-TICKET-UNAVAILABLE" m 501))
| nd_nobody found e : answered_nodes tr (intent request) found -> eligible_nodes request allowed (nodes found) [] ->
    e = NoNodes (intent request) \/ (exists m, e = NodeError m) \/ (exists m, e = PolicyRefused ROUTING_POLICY_REFUSAL_CODE m) ->
    not_dispatched request allowed tr (Fail e)
| nd_unprintable found n : answered_nodes tr (intent request) found -> n ∈ nodes found -> node_short_id (node_id n) = None ->
    not_dispatched request allowed tr Panic
| nd_ranker found elig r named m : answered_nodes tr (intent request) found -> eligible_nodes request allowed (nodes found) elig ->
    identified tr request named -> ranker = Some r -> ranking_refused sha256_hex r named elig m -> not_dispatched request allowed tr (Fail (PolicyRefused "IICP-CANDIDATE-RANKER-REFUSED" m)).

Inductive submitted (request : TaskRequest) (identity : option Identity) (allowed : option (gset string)) (tr : ctrace)
    (o : outcome TaskResponse) : Prop :=
| sb_dispatched found elig candidates dc :
    answered_nodes tr (intent request) found -> eligible_nodes request allowed (nodes found) elig -> selected elig candidates ->
    identified tr request (dc_request dc) -> dc_eligible dc = length elig -> dc_negotiation dc = profile_negotiation found ->
    fails_over tr dc identity candidates 0 None (task_posts tr) o -> submitted request identity allowed tr o
| sb_refused : task_posts tr = [] -> not_dispatched request allowed tr o -> submitted request identity allowed tr o.

(** ** Along the paths *)
Notation anywhere := (fun (_ : ctrace) (_ : call) => True).

Lemma settled_now limit dc n index secret x o :
  match x with
  | Val resp => o = finish config dc n index secret resp
  | Fail e => o = Fail e /\ ~ busy e /\ ~ unreachable e
  | Panic => o = Panic
  end -> settled (S limit) dc n index secret [x] o.
Proof. intros Hx. exists [], x. split_and!; [done..|simpl; lia|done]. Qed.
Lemma settled_later limit dc n index secret x rs o :
  again x -> settled limit dc n index secret rs o -> settled (S limit) dc n index secret (x :: rs) o.
Proof.
  intros Hx (ps & y & -> & Hps & Hl & Hy). exists (x :: ps), y. split_and!; [done|by constructor|simpl; lia|done].
Qed.
Lemma gave_up_later limit x rs e : again x -> gave_up limit rs e -> gave_up (S limit) (x :: rs) e.
Proof.
  intros Hx (ps & -> & Hps & Hl). exists (x :: ps). split_and!; [done|by constructor|]. cbn [length app]. naive_solver lia.
Qed.

Lemma attempts_walk dc n index body ct secret left : forall attempt last tr,
  along log anywhere (fun tr' ended => tr `prefix_of` tr' /\ exists rs,
      task_posts tr' = task_posts tr ++ map (pair (endpoint n +:+ "/v1/task")) rs /\
      match ended with
      | NextNode e => left = O /\ rs = [] /\ e = last \/ gave_up left rs e
      | Returned o => settled left dc n index secret rs o
      end) tr
    (attempts config left attempt last dc n index body ct secret).
Proof.
  induction left as [|left IH]; intros attempt last tr; cbn [attempts].
  { cbn [along]. split; [done|]. exists []. rewrite app_nil_r. auto. }
  split; [done|]. intros r. set (tr1 := log tr _ r).
  assert (task_posts tr1 = task_posts tr ++ [(endpoint n +:+ "/v1/task", r)]) as Hs1 by (unfold tr1, log; by rewrite sent_app).
  assert (tr `prefix_of` tr1) as Hpre by (by apply log_prefix).
  destruct r as [resp|e|].
  - cbn [along]. split; [done|]. exists [Val resp]. split; [done|]. by apply settled_now.
  - destruct (is_endpoint_refused e) eqn:E1; [|destruct (is_transient e) eqn:E2; cbn [negb]; [destruct (is_http e) eqn:E3|]].
    + cbn [along]. split; [done|]. exists [Fail e]. split; [done|]. right. exists []. split_and!; [done..|]. left.
      split; [apply unreachable_spec; by left|simpl; lia].
    + cbn [along]. split; [done|]. exists [Fail e]. split; [done|]. right. exists []. split_and!; [done..|]. left.
      split; [apply unreachable_spec; by right|simpl; lia].
    + assert (busy e) as Hb by (by apply busy_spec).
      assert (forall tr2, tr1 `prefix_of` tr2 -> task_posts tr2 = task_posts tr1 -> along log anywhere (fun tr' ended => tr `prefix_of` tr' /\ exists rs,
          task_posts tr' = task_posts tr ++ map (pair (endpoint n +:+ "/v1/task")) rs /\
          match ended with
          | NextNode e => S left = O /\ rs = [] /\ e = last \/ gave_up (S left) rs e
          | Returned o => settled (S left) dc n index secret rs o
          end) tr2 (attempts config left (attempt + 1) e dc n index body ct secret)) as Hrec.
      { intros tr2 Hpre2 Hs2. eapply along_mono; [|apply IH]. intros tr' ended (Hp' & rs & Hs' & He).
        split; [by do 2 (etrans; [eassumption|])|]. exists (Fail e :: rs). rewrite Hs', Hs2, Hs1, <- app_assoc. split; [done|].
        destruct ended as [o|e']; [apply settled_later; [by exists e|done]|right].
        destruct He as [(-> & -> & ->)|He]; [|apply gave_up_later; [by exists e|done]].
        exists []. split_and!; [done..|]. by right. }
      destruct (attempt <? 2); [|by apply Hrec]. split; [done|]. intros []. apply Hrec; [by apply log_prefix|by apply sent_log_other].
    + cbn [along]. split; [done|]. exists [Fail e]. split; [done|]. apply settled_now. split_and!; [done| |].
      * intros (_ & Hx & _)%busy_spec. congruence.
      * intros [Hx|Hx]%unreachable_spec; [congruence|]. by destruct e.
  - cbn [along]. split; [done|]. exists [Panic]. split; [done|]. by apply settled_now.
Qed.

(** What preparing a candidate leaves: no post, and a value or a reason. *)
Definition readied {R} (why : ctrace -> outcome TaskResponse -> Prop) (P : ctrace -> R -> Prop) (tr tr' : ctrace) (o : outcome R) : Prop :=
  tr `prefix_of` tr' /\ task_posts tr' = task_posts tr /\
  match o with Val r => P tr' r | Fail e => why tr' (Fail e) | Panic => why tr' Panic end.

Lemma token_walk dc identity n index tr :
  along log anywhere (readied (fun tr' => unprepared tr' dc identity n index) (fun _ _ => True) tr) tr
    (candidate_token config n (intent (dc_request dc))).
Proof.
  unfold candidate_token. set (i := intent (dc_request dc)).
  eapply (along_bind _ _ (readied (fun tr' => unprepared tr' dc identity n index) (fun tr' ct => ct = None ->
     consumer_auth_mode config = "required" -> forall own, node_token config = Some own ->
     Did (resp:=call_answer) (AcquireToken own (node_id n) i) (Val None) ∈ tr') tr)).
  - destruct (String.eqb_spec (consumer_auth_mode config) "disabled") as [Ed|Ed]; [cbn; split_and!; [done..|congruence]|].
    destruct (node_token config) as [own|] eqn:Eo; [|cbn; split_and!; [done..|congruence]]. split; [done|]. intros r. cbn.
    split; [by apply log_prefix|]. split; [by apply sent_log_other|]. destruct r as [ct|e|].
    + intros -> _ own' [= <-]. apply elem_last.
    + apply (up_token _ _ _ _ _ own (Fail e)); [done|apply elem_last|done].
    + apply (up_token _ _ _ _ _ own Panic); [done|apply elem_last|done].
  - intros tr' [ct|e|] (Hp & Hq & Hv); [|by split..].
    destruct (String.eqb_spec (consumer_auth_mode config) "required") as [Er|Er]; cbn [andb]; [|by split].
    destruct ct as [t|]; [by split|]. split; [done|]. split; [done|]. by apply up_no_token; [|apply Hv].
Qed.

Lemma body_walk dc identity n index p tr :
  along log anywhere (readied (fun tr' => unprepared tr' dc identity n index) (fun tr' bs => secret_of tr' dc n bs.2) tr) tr
    (candidate_body (dc_request dc) p n).
Proof.
  unfold candidate_body, secret_of. destruct (cx_public_key n) as [key|] eqn:Ek; [|cbn; by split].
  split; [done|]. intros r. destruct r as [[conf secret]|e|]; cbn; (split; [by apply log_prefix|]); (split; [by apply sent_log_other|]).
  - exists p, conf, secret. split; [done|apply elem_last].
  - apply (up_body _ _ _ _ _ key p (Fail e)); [done|apply elem_last|done].
  - apply (up_body _ _ _ _ _ key p Panic); [done|apply elem_last|done].
Qed.

(** Facts about events persist. *)
Lemma secret_of_prefix dc n secret tr tr' : tr `prefix_of` tr' -> secret_of tr dc n secret -> secret_of tr' dc n secret.
Proof.
  intros Hp. unfold secret_of. destruct (cx_public_key n); [|done]. intros (p & conf & s & -> & Hin). exists p, conf, s. eauto using prefix_elem.
Qed.

Lemma candidates_walk dc identity candidates : forall index last tr,
  (candidates = [] -> last <> None) ->
  along log anywhere (fun tr' o => exists more, task_posts tr' = task_posts tr ++ more /\ fails_over tr' dc identity candidates index last more o) tr
    (try_candidates config compose candidates index last dc identity).
Proof.
  induction candidates as [|n rest IH]; intros index last tr Hne; cbn [try_candidates].
  { cbn [along]. exists []. rewrite app_nil_r. split; [done|]. destruct last as [e|]; [constructor|by destruct (Hne eq_refl)]. }
  assert (forall tr' o, task_posts tr' = task_posts tr -> unprepared tr' dc identity n index o ->
    exists more, task_posts tr' = task_posts tr ++ more /\ fails_over tr' dc identity (n :: rest) index last more o) as Hup.
  { intros tr' o Hs Hu. exists []. rewrite app_nil_r. split; [done|by constructor]. }
  destruct (candidate_payload compose (dc_request dc) identity n index) as [p|e|] eqn:Ep.
  2,3: cbn [along]; apply Hup; [done|]; unfold candidate_payload in Ep; destruct identity as [c|]; [|done];
    by apply (up_identity _ _ _ _ _ c _ eq_refl Ep).
  unfold try_bind at 1. eapply along_bind; [apply (token_walk dc identity n index)|].
  intros tr1 [ct|e|] (Hp1 & Hq1 & Hct); [|cbn [along]; by apply Hup..].
  unfold try_bind. eapply along_bind; [apply (body_walk dc identity n index)|].
  intros tr2 [[body secret]|e|] (Hp2 & Hq2 & Hb); [|cbn [along]; apply Hup; [congruence|done]..]. cbn [snd] in Hb.
  eapply along_bind; [apply attempts_walk|]. intros tr3 [o|e] (Hp3 & rs & Hs & He).
  - cbn [along]. eexists. split; [rewrite Hs, Hq2, Hq1; reflexivity|]. apply (fo_settled _ _ _ _ _ _ _ secret); [|done].
    by eapply secret_of_prefix.
  - destruct He as [(? & _)|He]; [done|]. eapply along_mono; [|apply IH; done].
    intros tr4 o (more & Hm & Hf). exists (map (pair (endpoint n +:+ "/v1/task")) rs ++ more).
    split; [rewrite Hm, Hs, Hq2, Hq1; by rewrite app_assoc|]. by apply (fo_next _ _ _ _ _ _ _ _ e).
Qed.

(** ** Dispatch and submission *)

(** The first filter keeps the nodes this request can reach. *)
Definition reachable (allowed : option (gset string)) (n : Node) : bool :=
  node_allowed allowed n && endpoint_safe loopback_var to_lowercase n && available n.
Lemma pre_policy_spec allowed l :
  match pre_policy_filter loopback_var to_lowercase allowed l with
  | Some pre => pre = filter (fun n => reachable allowed n = true) l
  | None => exists n, n ∈ l /\ node_short_id (node_id n) = None
  end.
Proof.
  induction l as [|n l IH]; [done|]. cbn [pre_policy_filter]. rewrite filter_cons.
  assert (forall b : bool, b = reachable allowed n -> b = false ->
    match pre_policy_filter loopback_var to_lowercase allowed l with
    | Some pre => pre = (if decide (reachable allowed n = true) then n :: filter (fun n => reachable allowed n = true) l
                         else filter (fun n => reachable allowed n = true) l)
    | None => exists m, m ∈ n :: l /\ node_short_id (node_id m) = None
    end) as Hskip.
  { intros b -> E. rewrite E. rewrite decide_False by done. destruct (pre_policy_filter _ _ _ l); [done|].
    destruct IH as (m & Hm & Hs). exists m. split; [by right|done]. }
  destruct (node_allowed allowed n) eqn:Ea; cbn [negb]; [|by apply (Hskip false); [unfold reachable; rewrite Ea|]].
  destruct (endpoint_safe loopback_var to_lowercase n) eqn:Es; cbn [negb].
  2:{ destruct (node_short_id (node_id n)) eqn:En; [by apply (Hskip false); [unfold reachable; rewrite Ea, Es|]|].
      exists n. split; [by left|done]. }
  destruct (available n) eqn:Ev; cbn [negb]; [|by apply (Hskip false); [unfold reachable; rewrite Ea, Es, Ev|]].
  rewrite decide_True by (unfold reachable; by rewrite Ea, Es, Ev).
  destruct (pre_policy_filter _ _ _ l) as [pre|]; simpl; [by rewrite IH|].
  destruct IH as (m & Hm & Hs). exists m. split; [by right|done].
Qed.
Lemma eligible_nodes_spec request allowed found :
  eligible_nodes request allowed found
    (filter (permitted (effective_policy config request) (plaintext_allowed plaintext_var (effective_policy config request)))
       (filter (fun n => reachable allowed n = true) found)).
Proof.
  split.
  - etrans; apply sublist_filter.
  - intros n. rewrite !list_elem_of_filter. unfold reachable. rewrite !andb_true_iff. split.
    + intros (Hp & ((Ha & Hs) & Hv) & Hn). split; [done|]. split; [|done..]. intros s ->. by apply bool_decide_eq_true in Ha.
    + intros (Hn & [Ha Hs Hv Hp]). split_and!; [done| |done..]. destruct allowed as [s|]; [|done].
      by apply bool_decide_eq_true, Ha.
Qed.

Lemma select_walk request elig :
  elig <> [] ->
  draws (fun o => match o with
    | Val (cs, _) => selected elig cs
    | Fail e => exists r m, ranker = Some r /\ ranking_refused sha256_hex r request elig m /\ e = PolicyRefused "IICP-CANDIDATE-RANKER-REFUSED" m
    | Panic => False
    end) (select_candidates sha256_hex exp config ranker request elig).
Proof.
  intros Hne. unfold draws. eapply along_mono; [|by apply select_ok].
  intros [] [[cs d]|e|] Hf; [by destruct Hf as [Hs _]|done|done].
Qed.

Section one_submission.
Context (request : TaskRequest) (allowed : option (gset string)).

Lemma identified_prefix tr tr' r : tr `prefix_of` tr' -> identified tr request r -> identified tr' request r.
Proof. unfold identified. destruct (str_is_empty _); [|done]. intros Hp (id & Hin & ->). eauto using prefix_elem. Qed.
Lemma answered_prefix tr tr' found : tr `prefix_of` tr' -> answered_nodes tr (intent request) found -> answered_nodes tr' (intent request) found.
Proof. intros Hp [(o & t & Hin)|(o & t & l & Hin & ->)]; [left|right]; eauto 10 using prefix_elem. Qed.
Lemma identified_same tr r : identified tr request r -> intent r = intent request /\ routing_policy r = routing_policy request.
Proof. unfold identified. destruct (str_is_empty _); [by intros (id & _ & ->)|by intros ->]. Qed.

Lemma find_walk r opts tp tr :
  intent r = intent request -> task_posts tr = [] ->
  along log anywhere (fun tr' o => tr `prefix_of` tr' /\ task_posts tr' = [] /\ match o with
      | Val found => answered_nodes tr' (intent request) found
      | Fail e => not_dispatched request allowed tr' (Fail e)
      | Panic => not_dispatched request allowed tr' Panic
      end) tr (find_nodes config r opts tp).
Proof.
  intros Hi Hs. unfold find_nodes. rewrite Hi.
  assert (forall tr1, tr `prefix_of` tr1 -> task_posts tr1 = [] -> along log anywhere (fun tr' o => tr `prefix_of` tr' /\ task_posts tr' = [] /\ match o with
      | Val found => answered_nodes tr' (intent request) found
      | Fail e => not_dispatched request allowed tr' (Fail e)
      | Panic => not_dispatched request allowed tr' Panic
      end) tr1 (Act (resp:=call_answer) (Discover (intent request) opts tp) (fun d => Ret d))) as Hd.
  { intros tr1 Hp1 Hs1. split; [done|]. intros d. cbn. split; [by apply prefix_app_r|]. split; [by rewrite sent_log_other|].
    destruct d as [found|e|].
    - left. exists opts, tp. apply elem_last.
    - by apply (nd_discover _ _ _ opts tp (Fail e)); [apply elem_last|].
    - by apply (nd_discover _ _ _ opts tp Panic); [apply elem_last|]. }
  destruct (_ || _); [by apply Hd|]. split; [done|]. intros [[l|]|e|].
  - cbn. split; [by apply prefix_app_r|]. split; [by rewrite sent_log_other|]. right. exists opts, tp, l. split; [apply elem_last|done].
  - destruct (String.eqb_spec (route_discovery_mode config) "auto") as [Ea|Ea]; [apply Hd; [by apply prefix_app_r|by rewrite sent_log_other]|].
    cbn. split; [by apply prefix_app_r|]. split; [by rewrite sent_log_other|]. by apply (nd_no_tickets _ _ _ opts tp); [apply elem_last|].
  - cbn. split; [by apply prefix_app_r|]. split; [by rewrite sent_log_other|].
    by apply (nd_ticketed _ _ _ opts tp (Fail e)); [apply elem_last|].
  - cbn. split; [by apply prefix_app_r|]. split; [by rewrite sent_log_other|].
    by apply (nd_ticketed _ _ _ opts tp Panic); [apply elem_last|].
Qed.

Lemma keyless_unprintable plain l : keyless_printable plain l = false -> exists n, n ∈ l /\ node_short_id (node_id n) = None.
Proof.
  induction l as [|n l IH]; [done|]. unfold keyless_printable. cbn [forallb]. intros [E|E]%andb_false_iff.
  - apply orb_false_iff in E as [_ E]. exists n. split; [by left|]. by destruct (node_short_id _).
  - destruct (IH E) as (m & Hm & Hn). exists m. split; [by right|done].
Qed.

Lemma dispatch_walk r tp identity found tr :
  identified tr request r -> task_posts tr = [] -> answered_nodes tr (intent request) found ->
  along log anywhere (fun tr' o => submitted request identity allowed tr' o) tr
    (dispatch config ranker loopback_var plaintext_var to_lowercase sha256_hex exp compose r tp identity allowed found).
Proof.
  intros Hr Hs Hfound. destruct (identified_same _ _ Hr) as [Hi Hrp]. unfold dispatch.
  pose proof (pre_policy_spec allowed (nodes found)) as Hpre.
  destruct (pre_policy_filter _ _ _ _) as [pre|]; [subst pre|].
  2:{ destruct Hpre as (n & Hn & Hsh). apply sb_refused; [done|]. by eapply nd_unprintable. }
  assert (effective_policy config r = effective_policy config request) as Hpol by (unfold effective_policy; by rewrite Hrp).
  pose proof (eligible_nodes_spec request allowed (nodes found)) as Helig. rewrite Hpol.
  set (pre := filter (fun n => reachable allowed n = true) (nodes found)) in *.
  destruct (_ && _) eqn:Enone.
  { apply sb_refused; [done|]. apply (nd_nobody _ _ _ found); [done| |left; by rewrite Hi].
    apply andb_true_iff in Enone as [_ En%bool_decide_eq_true]. by destruct pre. }
  rewrite filter_nodes_spec. cbn [eligible skipped_keyless rejected_reasons].
  destruct (keyless_printable _ _) eqn:Eprint; cbn [negb].
  2:{ apply keyless_unprintable in Eprint as (n & Hn & Hsh). apply sb_refused; [done|].
      apply (nd_unprintable _ _ _ found n); [done| |done]. by apply list_elem_of_filter in Hn as [_ ?]. }
  set (elig := filter _ pre) in *.
  destruct (decide (elig = [])) as [Ee|Ee].
  { rewrite Ee in Helig |- *. match goal with |- along _ _ _ _ (if ?b then _ else _) => destruct b end;
      (apply sb_refused; [done|]); (apply (nd_nobody _ _ _ found); [done..|]); right; [left|right]; by eexists. }
  clearbody elig. destruct elig as [|n0 elig0] eqn:Eel; [done|]. rewrite <- Eel in *.
  unfold try_bind. eapply along_bind; [eapply lib_along; [by apply select_walk|done]|].
  intros tr1 [[cs ranked]|e|] (Hsel & Hp1 & Hq1); [| |done].
  2:{ destruct Hsel as (rk & m & Hrk & Href & ->). apply sb_refused; [by rewrite (sent_same _ _ Hp1 Hq1)|].
      eapply nd_ranker; [by eapply answered_prefix|exact Helig|by eapply identified_prefix|exact Hrk|exact Href]. }
  destruct cs as [|c cs]; [destruct Hsel as [Hl _]; simpl in Hl; lia|].
  eapply along_mono; [|apply along_prefix, candidates_walk; done].
  intros tr' o [(more & Hm & Hf) Hp']. rewrite (sent_same _ _ Hp1 Hq1), Hs in Hm. simpl in Hm. subst more.
  assert (tr `prefix_of` tr') as Hp by (by etrans).
  eapply (sb_dispatched _ _ _ _ _ found elig (c :: cs)); [by eapply answered_prefix|done|exact Hsel| | | |exact Hf]; [|done..].
  by eapply identified_prefix.
Qed.

Lemma submit_walk identity :
  along log anywhere (fun tr o => submitted request identity allowed tr o) []
    (submit_internal config ranker loopback_var plaintext_var to_lowercase sha256_hex exp compose request identity allowed).
Proof.
  unfold submit_internal. destruct (validate_intent (intent request)) as [[]|e] eqn:Ev; [|apply sb_refused; [done|by constructor]].
  eapply (along_bind _ _ (fun tr r => task_posts tr = [] /\ identified tr request r)).
  { unfold identified. destruct (str_is_empty _); [|done]. split; [done|]. intros id. cbn. split; [done|]. exists id. split; [by left|done]. }
  intros tr r [Hs Hr]. eapply along_bind.
  { apply (lib_along (fun _ a => a = NewUuidSimple) (fun _ => True)); [done|done]. }
  intros tr1 tp (_ & Hp1 & Hq1). pose proof (sent_same _ _ Hp1 Hq1) as Hs1. destruct (identified_same _ _ Hr) as [Hi _].
  unfold try_bind. eapply along_bind; [apply find_walk; [done|congruence]|].
  intros tr2 [found|e|] (Hp2 & Hs2 & Hf); [|by apply sb_refused..].
  apply dispatch_walk; [|done..]. eapply identified_prefix; [|exact Hr]. by etrans.
Qed.
End one_submission.
End failover.

(** C5: failures lead on.  Whatever the directory and the nodes answer, a
    submission either gets to no candidate, for one of the listed reasons, and
    posts nothing; or it takes one to three candidates among the nodes the
    request may be posted to, all three (or all there are) where no two of these
    share an identifier, and posts to them in turn.  A node that is busy is asked
    again, three times in all; one that cannot be reached, or is busy to the last,
    is followed by the next candidate; the submission ends at the first answer or
    error no other attempt mends, at a candidate that could not be prepared, or
    after all of them with the last error.  An answer is opened with the secret
    that was drawn for its node, and the receipt tells the candidate's place. *)
Theorem submit_failover `{SerdeOps} {crypto : CxCrypto} config ranker loopback_var plaintext_var to_lowercase sha256_hex exp
    {Identity} (compose : Identity -> string -> option string -> string -> result json string)
    request identity allowed ans tr res :
  run ans 0 (submit_internal config ranker loopback_var plaintext_var to_lowercase sha256_hex exp
    compose request identity allowed) = (tr, res) ->
  submitted config ranker loopback_var plaintext_var to_lowercase sha256_hex compose request identity allowed tr res.
Proof.
  intros Hrun. exact (proj1 (run_logged _ _ _ _ _ _ _ (submit_walk config ranker loopback_var plaintext_var to_lowercase
    sha256_hex exp compose request allowed identity) Hrun)).
Qed.
