(* ===== verification/ClientWitness.v ===== *)
(** * Concrete runs of the client

    A small URL type and JSON library that satisfy the interfaces, and runs on
    which the theorems about the client say something. *)

From S2P Require Import Prelude Program Text Json Cbor CodecModel HttpResource IpAddr DispatchTicket ClientTypes ClientEffects Confidential Endpoint HttpClient IntentPolicy RoutingPolicy Selection ConsumerToken Directory Client SubmitSafety SubmitFailover.

(** ** Instances *)

(** An [https] URL without user info, as what follows the scheme. *)
Lemma demo_print_parse u : strip_prefix "https://" ("https://" +:+ u) = Some u.
Proof. by apply strip_prefix_spec. Qed.

Definition demo_host (u : string) : string := default empty_str (head (str_split "/" u)).
Definition demo_url : UrlOps string := {|
  url_parse s := strip_prefix "https://" s;
  url_scheme _ := "https";
  url_username _ := EmptyString;
  url_password _ := None;
  url_host_str u := Some (demo_host u);
  url_fragment _ := None;
  url_port_or_known_default _ := Some 443;
  url_origin u := Some ("https", demo_host u, 443);
  url_join u l := Some (demo_host u +:+ l);
  url_to_string u := "https://" +:+ u;
  url_print_parse := demo_print_parse
|}.

Definition demo_key : CxPublicKey := mkCxKey "X25519" None (bytes_str (repeat x07 32)) "k1" [].
Definition demo_keyed (id : string) : Node :=
  mkNode id ("https://" +:+ id +:+ ".example.com") f64_one f64_zero true "eu-west" None None (Some demo_key) None None None None None None.

Definition demo_task_response : TaskResponse := mkTaskResponse "t1" "success" (Some (mk_obj [])) None None None false None None.
Definition demo_token_answer : json :=
  mk_obj [("token", JString "tok"); ("expires_at", u64_json 2000); ("restricted_domain_decision", JBool true)].
Definition demo_ticket_answer : json :=
  mk_obj [("node_id", JString "n"); ("ticket", JString demo_route_token); ("route", mk_obj [])].
Definition demo_key_answer : json := mk_obj [("public_key", JString (repeat_str 64 "k"))].
Definition demo_decision : DirectoryDecision :=
  mkDirectoryDecision "iicp.restricted-trust-domain.directory-decision.v0" RESTRICTED_PROFILE_ID "eligible" "consumer_token"
    "d" "a" "client" 7 5000.

Definition demo_serde : SerdeOps := {|
  serde_codec := model_json_codec;
  node_list_from_value _ := Ok (mkNodeList [demo_keyed "a"; demo_keyed "b"] 2 None None);
  node_from_value _ := Ok (demo_keyed "n");
  response_from_value _ := Ok demo_task_response;
  decision_from_value _ := Some demo_decision
|}.

Definition demo_context : RestrictedDirectoryContext := mkContext "d" "a" "s" "client" 7 (EnvironmentSecret "MEMBERSHIP").
Definition legacy_config : ClientConfig :=
  mkConfig "https://dir.example.com/" 30000 None None "optional" f64_zero "deterministic" 2 f64_one
    (mkPolicy Standard [] None None None None None None) "legacy" None None.
Definition ok_response (status : Z) (v : json) : result http_response bool := Ok (mkResponseIn status [] [json_to_vec v] false).

(** ** A task post that is redirected once *)

Definition redirect_answer (n : nat) (a : action) : answer a :=
  match a with
  | Send rq => if (n =? 1)%nat then Ok (mkResponseIn 307 [("location", Some "/v2/task")] [] false) else ok_response 200 (mk_obj [])
  | a => demo_answer n a
  end.

Lemma post_task_guarded_witness :
  let p := post_json_ct_with_policy (H:=demo_url) (H0:=demo_serde) None "https://a.example.com/v1/task" (mk_obj []) None
             (Some "tok") (Some "tp") false in
  length (sends_of (run redirect_answer 0 p).1) = 2%nat /\
  accepted_response (H0:=demo_serde) (sends_of (run redirect_answer 0 p).1) demo_task_response.
Proof.
  cbv zeta. split; [vm_compute; reflexivity|].
  eapply (post_task_guarded (H:=demo_url) (H0:=demo_serde)); [apply surjective_pairing|]. vm_compute. reflexivity.
Defined.

(** ** A token from the directory *)

Definition token_answer (n : nat) (a : action) : answer a :=
  match a with
  | Send _ => ok_response 201 demo_token_answer
  | ResolveSecret _ => Some "membership"
  | a => demo_answer n a
  end.

Lemma consumer_token_bound_witness :
  (run token_answer 0 (acquire_restricted_consumer_token (H:=demo_serde) None "https://dir/api" "me" "n" "i" demo_context)).2
    = Val (Some "tok") /\
  exists data, eligible_now (H:=demo_serde) demo_context "consumer_token" data
    (run token_answer 0 (acquire_restricted_consumer_token (H:=demo_serde) None "https://dir/api" "me" "n" "i" demo_context)).1
    \/ from_cache ("me", "n", "i") "tok"
    (run token_answer 0 (acquire_restricted_consumer_token (H:=demo_serde) None "https://dir/api" "me" "n" "i" demo_context)).1.
Proof.
  split; [vm_compute; reflexivity|].
  destruct (consumer_token_bound (H:=demo_serde) None "https://dir/api" "me" "n" "i" demo_context token_answer _ _ _ _
    (surjective_pairing _) (surjective_pairing _)) as (_ & _ & _ & H & _).
  destruct (H "tok") as [Hc|(data & _ & He)].
  - vm_compute. reflexivity.
  - exists JNull. right. exact Hc.
  - exists data. left. exact He.
Defined.

(** ** Ticketed candidates *)

Definition ticket_answer (n : nat) (a : action) : answer a :=
  match a with
  | Send rq => if rq_method rq ==? "POST" then (if (n =? 0)%nat then ok_response 201 demo_ticket_answer else ok_response 501 (mk_obj []))
               else ok_response 200 demo_key_answer
  | TicketKeyGet => if (n =? 1)%nat then None else Some (repeat_str 64 "k")
  | UnixNow => 50
  | a => demo_answer n a
  end.
Definition demo_claims : DispatchRouteTicketClaims :=
  mkTicketClaims 1 "dispatch-route-ticket" "https://dir.example.com" AUDIENCE (repeat_str 24 "a") "n" "i" 0 100 None.
Definition demo_ticketed : prog answer (outcome ticket_route) :=
  ticket_rounds (H:=demo_serde) legacy_config toy_verify toy_hex toy_decode (fun _ => Some demo_claims) 1 "i"
    (mkOptions None None None None None None None) "tp" [] [].

Example ticket_accepted :
  (run ticket_answer 0 demo_ticketed).2 = Val (Candidates [demo_keyed "n"]).
Proof. vm_compute. reflexivity. Qed.

(** The directory answers one verifiable ticket and then has no further route. *)
Definition no_route : json := mk_obj [("error", mk_obj [("code", JString "no_route_available")])].
Definition route_answer (n : nat) (a : action) : answer a :=
  match a with
  | Send rq => if rq_method rq ==? "POST" then (if (n =? 0)%nat then ok_response 201 demo_ticket_answer else ok_response 404 no_route)
               else ok_response 200 demo_key_answer
  | a => ticket_answer n a
  end.

Lemma ticketed_candidates_verified_witness :
  exists tr, ticket_backed (H:=demo_serde) legacy_config toy_verify toy_hex toy_decode (fun _ => Some demo_claims) "i" tr
    (demo_keyed "n").
Proof.
  set (p := ticketed_candidates (H:=demo_serde) legacy_config toy_verify toy_hex toy_decode (fun _ => Some demo_claims) "i"
    (mkOptions None None None None None None None) "tp").
  assert ((run route_answer 0 p).2 = Val (Candidates [demo_keyed "n"])) as Hres by (vm_compute; reflexivity).
  exists (run route_answer 0 p).1.
  destruct (ticketed_candidates_verified (H:=demo_serde) legacy_config toy_verify toy_hex toy_decode (fun _ => Some demo_claims)
    "i" (mkOptions None None None None None None None) "tp" route_answer (run route_answer 0 p).1 [demo_keyed "n"]) as [_ HF].
  - rewrite <- Hres. apply surjective_pairing.
  - inversion HF; assumption.
Defined.

(** ** A submission with one retry *)

Definition demo_calls (n : nat) (c : call) : call_answer c :=
  match c with
  | Lib a => demo_answer n a
  | Discover _ _ _ => Val (mkNodeList [demo_keyed "a"; demo_keyed "b"] 2 None None)
  | Ticketed _ _ _ => Val LegacyRequired
  | AcquireToken _ _ _ => Val None
  | EncryptPayload _ _ _ _ => Val (∅, [])
  | PostTask _ _ _ _ => if (n <=? 4)%nat then Fail (Protocol "busy" "busy" 503) else Val demo_task_response
  end.

Definition demo_submit : prog call_answer (outcome TaskResponse) :=
  submit_internal (H:=demo_serde) (crypto:=toy_cx) legacy_config None None None to_ascii_lowercase (fun s => s) (fun x => x)
    (Identity:=unit) (fun _ _ _ _ => Ok JNull) demo_request None None.

Lemma submit_posts_guarded_witness :
  exists tr1 url body ct tp r tr2,
    (run demo_calls 0 demo_submit).1 = tr1 ++ Did (PostTask url body ct tp) r :: tr2 /\
    post_allowed legacy_config None None to_ascii_lowercase demo_request None tr1 url body ct.
Proof.
  set (tr := (run demo_calls 0 demo_submit).1).
  assert (tr = take 4 tr ++ Did (PostTask "https://a.example.com/v1/task"
    (sealed_body demo_request (env_json ∅) false) None
    "00-11111111111111111111111111111111-1111111111111111-01") (Fail (Protocol "busy" "busy" 503)) :: drop 5 tr) as E
    by (vm_compute; reflexivity).
  do 7 eexists. split; [exact E|].
  apply (proj1 (submit_posts_guarded (H:=demo_serde) (crypto:=toy_cx) legacy_config None None None to_ascii_lowercase (fun s => s) (fun x => x)
    (Identity:=unit) (fun _ _ _ _ => Ok JNull) demo_request None None demo_calls tr
    (run demo_calls 0 demo_submit).2 (surjective_pairing _)) _ _ _ _ _ _ _ E).
Defined.

Lemma submit_failover_witness :
  (task_posts (run demo_calls 0 demo_submit).1).*1 = ["https://a.example.com/v1/task"; "https://a.example.com/v1/task"] /\
  submitted (H:=demo_serde) (crypto:=toy_cx) (Identity:=unit) legacy_config None None None to_ascii_lowercase (fun s => s) (fun _ _ _ _ => Ok JNull) demo_request None None
    (run demo_calls 0 demo_submit).1 (run demo_calls 0 demo_submit).2.
Proof.
  split; [vm_compute; reflexivity|].
  apply (submit_failover (H:=demo_serde) (crypto:=toy_cx) legacy_config None None None to_ascii_lowercase (fun s => s) (fun x => x)
    (Identity:=unit) (fun _ _ _ _ => Ok JNull) demo_request None None demo_calls).
  apply surjective_pairing.
Defined.

Definition egress_answer (n : nat) (a : action) : answer a :=
  match a with Send _ => ok_response 200 (mk_obj []) | a => demo_answer n a end.
Definition demo_client : prog answer (outcome TaskResponse) :=
  interp (client_call (H:=demo_url) (H0:=demo_serde) (crypto:=toy_cx) legacy_config None to_ascii_lowercase (fun _ => "0") toy_verify toy_hex
    toy_decode (fun _ => Some demo_claims)) demo_submit.

Lemma client_egress_witness :
  is_some (match (run egress_answer 0 demo_client).2 with Val v => Some v | _ => None end) = true /\
  Forall (fun x => match x with
    | Did (Send rq) _ => directory_egress legacy_config rq \/ provider_egress (H:=demo_url) false rq
    | _ => True end) (run egress_answer 0 demo_client).1.
Proof.
  split; [vm_compute; reflexivity|].
  apply (client_egress (H:=demo_url) (H0:=demo_serde) (crypto:=toy_cx) legacy_config None None None to_ascii_lowercase (fun _ => "0")
    (fun s => s) (fun x => x) toy_verify toy_hex toy_decode (fun _ => Some demo_claims)
    (Identity:=unit) (fun _ _ _ _ => Ok JNull) demo_request None None egress_answer _ (run egress_answer 0 demo_client).2).
  apply surjective_pairing.
Defined.

(** ** The policies *)

Lemma intent_policy_exact_witness :
  exists m1 m2, validate_intent "urn:iicp:intent:social-scoring:v1" =
    Err (PolicyRefused POLICY_REFUSAL_CODE (m1 +:+ "social scoring (eu-ai-act-social-scoring)" +:+ m2)).
Proof.
  destruct (intent_policy_exact "urn:iicp:intent:social-scoring:v1") as (_ & _ & H).
  refine (H [] (mkRule "eu-ai-act-social-scoring" "social scoring" ["social-scoring"; "social_scoring"; "social:scoring"])
    _ _ eq_refl _ _).
  - apply intent_re_spec. vm_compute. reflexivity.
  - exists "social-scoring". split; [apply elem_of_cons; left; reflexivity|].
    exists "urn:iicp:intent:", ":v1". vm_compute. reflexivity.
  - constructor.
Defined.

Lemma routing_policy_exact_witness :
  require_encryption (profile_defaults Standard) = true /\ Forall (fun n => cx_public_key n = None) [demo_node "a"].
Proof.
  destruct (routing_policy_exact [demo_node "a"] (profile_defaults Standard) false) as (_ & _ & H).
  destruct H as (H1 & _ & H2); [vm_compute; reflexivity|vm_compute; reflexivity|vm_compute; reflexivity|].
  split; [exact H1|exact H2].
Defined.
