(* ===== verification/Proxy.v ===== *)
(** * The consumer gateway ([src/proxy/])

    The gates of cooperative inference ([cip.rs]) and the gateway that turns
    chat requests of three API families into task submissions ([mod.rs]). *)

From S2P Require Import Prelude Program Text Json Cbor ClientTypes ClientEffects.

(** ** Cooperative inference ([cip.rs]) *)

Definition VALID_CIP_POLICIES : list string := ["best_of_n"; "majority_vote"; "map_reduce"].

Inductive CipError := InsufficientCredits (code : string) | NoEligibleWorkers (code : string).
Inductive CipStrategy := LocalFirst | RemoteFirst | Balanced.
Global Instance cip_strategy_eq_dec : EqDecision CipStrategy.
Proof. solve_decision. Defined.

Record CipConfig := mkCipConfig {
  cip_enabled : bool;
  strategy : CipStrategy;
  max_credits_per_task : f64;
  session_credit_budget : option f64;
  send_sensitive_prompts : bool;
  trusted_peers : list string;
  min_reputation : f64
}.

Record CipWorkerCandidate := mkWorkerCandidate {
  cw_node_id : string;
  allow_remote_inference : bool;
  reputation_score : f64;
  cw_eligibility : option RestrictedEligibility
}.

Record CipTrustScope := mkTrustScope {
  ts_domain_id : string;
  ts_authority_id : string;
  ts_minimum_generation : Z
}.

Inductive DispatchResult := Local | Remote | DispatchError (code : string).
Global Instance dispatch_result_eq_dec : EqDecision DispatchResult.
Proof. solve_decision. Defined.

Record CipDispatchPlan := mkPlan { plan_envelope : option json; allowed_node_ids : option (list string) }.
Definition plan_local : CipDispatchPlan := mkPlan None None.

(** [is_i64] holds exactly when [as_i64] answers. *)
Definition replicas_error (policy : option string) (r : json) : option string :=
  match as_i64 r with
  | None => Some "IICP-E028"
  | Some n =>
      if negb ((1 <=? n) && (n <=? 10)) then Some "IICP-E028"
      else if opt_str_is policy "majority_vote" && (Z.rem n 2 =? 0) then Some "IICP-E025"
      else None
  end.
Definition quorum_error (replicas : option Z) (q : json) : option string :=
  match as_i64 q with
  | None => Some "IICP-E028"
  | Some quorum => if (quorum <? 1) || (default 1 replicas <? quorum) then Some "IICP-E028" else None
  end.

Definition validate_cip_request_fields (body : json) : option string :=
  let! cip := jget body "cip" in
  if is_none (as_object cip) then None
  else
    let policy := get_str cip "policy" in
    if is_some_and policy (fun p => negb (str_in p VALID_CIP_POLICIES)) then Some "IICP-E028"
    else
      option_or (jget cip "replicas" ≫= replicas_error policy)
        (jget cip "quorum" ≫= quorum_error (get_i64 cip "replicas")).

Definition blocked_remote (config : CipConfig) (code : string) : DispatchResult :=
  if bool_decide (strategy config = LocalFirst) then Local else DispatchError code.

Definition decide_dispatch (estimated_credits : f64) (sensitivity : option string) (eligible_workers : list string)
    (config : CipConfig) (replicas : Z) (consumer_balance : option f64) (session_spent : f64) : DispatchResult :=
  if negb (cip_enabled config) then Local
  else if f64_ltb (max_credits_per_task config) estimated_credits then Local
  else if is_some_and (session_credit_budget config) (fun b => f64_ltb b (f64_add session_spent estimated_credits)) then Local
  else if is_some_and consumer_balance (fun bal => f64_ltb bal estimated_credits) then blocked_remote config "IICP-E036"
  else if opt_str_is sensitivity "high" && negb (send_sensitive_prompts config) then Local
  else if zlen eligible_workers <? Z.max replicas 1
  then (if bool_decide (strategy config = LocalFirst) then Local else DispatchError "IICP-E022")
  else Remote.

Definition build_cip_envelope (decision : DispatchResult) (parent_task_id session_key : string) : option json :=
  if bool_decide (decision = Remote)
  then Some (mk_obj [("cip_role", JString "worker"); ("cip_session_key", JString session_key);
                     ("cip_parent_task_id", JString parent_task_id)])
  else None.

Definition scope_proved (scope : CipTrustScope) (now : Z) (n : CipWorkerCandidate) : bool :=
  is_some_and (cw_eligibility n) (fun proof =>
    (re_domain_id proof ==? ts_domain_id scope) && (re_authority_id proof ==? ts_authority_id scope) &&
    (ts_minimum_generation scope <=? re_membership_generation proof) && (now <? re_membership_expires_at proof)).

Definition worker_eligible (config : CipConfig) (scope : option CipTrustScope) (now : Z) (n : CipWorkerCandidate) : bool :=
  allow_remote_inference n && negb (str_is_empty (cw_node_id n)) &&
  f64_leb (min_reputation config) (reputation_score n) &&
  is_none_or scope (fun s => scope_proved s now n).

Definition eligible_ids (config : CipConfig) (scope : option CipTrustScope) (now : Z) (nodes : list CipWorkerCandidate)
    : list string :=
  let eligible := cw_node_id <$> filter (fun n => worker_eligible config scope now n = true) nodes in
  match trusted_peers config with
  | [] => eligible
  | peers => filter (fun id => str_in id peers = true) eligible
  end.

Definition requested_replicas (body : json) : Z := default 1 (jget body "cip" ≫= fun c => get_i64 c "replicas").

Definition compute_cip_envelope (now : Z) (nodes : list CipWorkerCandidate) (body : json) (config : CipConfig)
    (trust_scope : option CipTrustScope) (task_id : string) (qos : option string) (consumer_balance : option f64)
    : result CipDispatchPlan CipError :=
  if negb (cip_enabled config) || opt_str_is qos "realtime" then Ok plan_local
  else if is_some (validate_cip_request_fields body) then Ok plan_local
  else
    let eligible := eligible_ids config trust_scope now nodes in
    let decision := decide_dispatch (f64_of_Z 1) (get_str body "sensitivity") eligible config (requested_replicas body)
                      consumer_balance (f64_of_Z 0) in
    let plan := mkPlan (build_cip_envelope decision task_id ("cip-sess-" +:+ task_id))
                  (if bool_decide (decision = Remote) then Some eligible else None) in
    match decision with
    | DispatchError code =>
        if code ==? "IICP-E036" then Err (InsufficientCredits code)
        else if code ==? "IICP-E022" then Err (NoEligibleWorkers code)
        else Ok plan
    | _ => Ok plan
    end.

(** ** The gateway ([mod.rs]) *)

Definition INTENT : string := "urn:iicp:intent:llm:chat:v1".
Definition SERVER_ID : string := "iicp-proxy".
Definition OLLAMA_VERSION : string := "0.1.0".

(** The trait [ProxyBackend] as calls, and the two clocks. *)
Inductive ProxyDispatchError := IicpFailure (e : IicpError) | CipFailure (e : CipError).
Inductive proxy_call :=
| DiscoverWorkers (intent : string)
| TrustScope
| SubmitTask (intent : string) (payload : json)
| SubmitToCandidates (intent : string) (payload : json) (allowed : gset string)
| UnixSeconds
| NowIso.

Definition proxy_answer (c : proxy_call) : Type :=
  match c with
  | DiscoverWorkers _ => list CipWorkerCandidate
  | TrustScope => option CipTrustScope
  | SubmitTask _ _ | SubmitToCandidates _ _ _ => result TaskResponse ProxyDispatchError
  | UnixSeconds => Z
  | NowIso => string
  end.

Notation "'ask!' x := c 'in' k" := (Act (resp:=proxy_answer) c (fun x => k))
  (at level 200, x name, c at level 100, k at level 200,
   format "'[v' 'ask!'  x  :=  c  'in' '/' k ']'") : iicp_scope.

Record gateway_reply := mkGatewayReply { gr_status : Z; gr_headers : list (string * string); gr_body : list byte }.

(** *** Translators *)

Definition empty_obj : json := mk_obj [].

Definition first_message (resp : TaskResponse) : string * string :=
  let result := default empty_obj (tr_result resp) in
  let choices := default [] (jget result "choices" ≫= as_array) in
  let msg := default empty_obj (head choices ≫= fun c => jget c "message") in
  (default "assistant" (get_str msg "role"), default empty_str (get_str msg "content")).

Definition usage_of (resp : TaskResponse) : json := default empty_obj (tr_result resp ≫= fun r => jget r "usage").

Definition to_openai (now : Z) (resp : TaskResponse) (model : string) : json :=
  let '(role, content) := first_message resp in
  mk_obj [("id", JString "chatcmpl-iicp"); ("object", JString "chat.completion");
          ("created", i64_json now); ("model", JString model);
          ("choices", JArray [mk_obj [("index", u64_json 0);
             ("message", mk_obj [("role", JString role); ("content", JString content)]); ("finish_reason", JString "stop")]]);
          ("usage", usage_of resp)].

Definition to_ollama (now : string) (resp : TaskResponse) (model : string) : json :=
  let '(role, content) := first_message resp in
  mk_obj [("model", JString model); ("created_at", JString now);
          ("message", mk_obj [("role", JString role); ("content", JString content)]);
          ("done", JBool true); ("done_reason", JString "stop")].

Definition to_ollama_generate (now : string) (resp : TaskResponse) (model : string) : json :=
  mk_obj [("model", JString model); ("created_at", JString now); ("response", JString (first_message resp).2);
          ("done", JBool true); ("done_reason", JString "stop")].

Definition to_anthropic (resp : TaskResponse) (model : string) : json :=
  mk_obj [("id", JString "msg_iicp"); ("type", JString "message"); ("role", JString "assistant"); ("model", JString model);
          ("content", JArray [mk_obj [("type", JString "text"); ("text", JString (first_message resp).2)]]);
          ("stop_reason", JString "end_turn"); ("usage", usage_of resp)].

Definition openai_err (code message : string) : json :=
  mk_obj [("error", mk_obj [("code", JString code); ("message", JString message)])].
Definition ollama_err (code message : string) : json := mk_obj [("error", JString (code +:+ ": " +:+ message))].
Definition anthropic_err (code message : string) : json :=
  mk_obj [("type", JString "error");
          ("error", mk_obj [("type", JString "api_error"); ("message", JString (code +:+ ": " +:+ message))])].

Section gateway.
Context {json_codec : JsonCodec}.
(** The text of a [reqwest] error. *)
Context (http_text : bool -> string).

(** [Display] of [IicpError] *)
Definition error_text (e : IicpError) : string :=
  match e with
  | Http connect => "network error: " +:+ http_text connect
  | EndpointRefused m => "endpoint refused: " +:+ m
  | Protocol code m status => "[" +:+ code +:+ "] " +:+ m +:+ " (HTTP " +:+ pretty status +:+ ")"
  | InvalidIntent i => "SDK-03: invalid intent URN: " +:+ i
  | PolicyRefused code m => "[" +:+ code +:+ "] " +:+ m
  | TimeoutTooLarge ms => "SDK-04: timeout_ms must be ≤ 120000; got " +:+ pretty ms
  | NoNodes i => "no nodes available for intent " +:+ i
  | Serde m => "serialization error: " +:+ m
  | NodeError m => "node error: " +:+ m
  end.

Definition build (status : Z) (content_type : string) (body : list byte) : gateway_reply :=
  mkGatewayReply status [("content-type", content_type); ("server", SERVER_ID)] body.
Definition json_response (status : Z) (body : json) : gateway_reply := build status "application/json" (json_to_vec body).
Definition ai_generated (r : gateway_reply) : gateway_reply :=
  mkGatewayReply (gr_status r) (gr_headers r ++ [("x-iicp-generated-by-ai", "true")]) (gr_body r).

(** *** Dispatch *)

Inductive Outcome := OutcomeOk (resp : TaskResponse) | OutcomeErr (status : Z) (code : string).

Definition extras (body : json) : list (string * json) :=
  omap (fun k => (fun v => (k, v)) <$> jget body k) ["temperature"; "max_tokens"; "cip"; "billing"; "qos"].

Definition cip_outcome (e : CipError) : Outcome :=
  match e with InsufficientCredits c => OutcomeErr 402 c | NoEligibleWorkers c => OutcomeErr 503 c end.

Definition code_of_text (text : string) : Outcome :=
  if starts_with text "SDK-" || starts_with text "IICP-"
  then OutcomeErr 502 (default "proxy_error" (head (str_split ":" text)))
  else OutcomeErr 500 "proxy_error".

Definition outcome_of_submit (r : result TaskResponse ProxyDispatchError) : Outcome :=
  match r with
  | Ok resp =>
      if (tr_status resp ==? "success") || (tr_status resp ==? "completed") then OutcomeOk resp
      else OutcomeErr 502 (default "proxy_error" (tr_error resp ≫= fun e => get_str e "code"))
  | Err (CipFailure e) => cip_outcome e
  | Err (IicpFailure (NoNodes _)) => OutcomeErr 502 "IICP-E033"
  | Err (IicpFailure e) => code_of_text (error_text e)
  end.

(** [obj.insert(k, v)] on the payload, which is an object. *)
Definition payload_insert (k : string) (v : json) (p : json) : json :=
  match p with JObject m => JObject (obj_insert k v m) | _ => p end.

Definition base_payload (messages : json) (model : string) (body : json) : json :=
  foldl (fun p kv => payload_insert kv.1 kv.2 p) (mk_obj [("messages", messages); ("model", JString model)]) (extras body).

Definition submit_planned (payload : json) (plan : CipDispatchPlan) : prog proxy_answer Outcome :=
  let payload := match plan_envelope plan with Some env => payload_insert "cip" env payload | None => payload end in
  match allowed_node_ids plan with
  | Some ids => ask! r := SubmitToCandidates INTENT payload (list_to_set ids) in Ret (outcome_of_submit r)
  | None => ask! r := SubmitTask INTENT payload in Ret (outcome_of_submit r)
  end.

Definition run_task (config : CipConfig) (messages : json) (model : string) (body : json) : prog proxy_answer Outcome :=
  let payload := base_payload messages model body in
  if cip_enabled config then
    ask! nodes := DiscoverWorkers INTENT in
    ask! trust_scope := TrustScope in
    ask! now := UnixSeconds in
    match compute_cip_envelope now nodes body config trust_scope "cip-task" (get_str body "qos")
            (jget body "billing" ≫= fun b => jget b "consumer_balance" ≫= as_f64) with
    | Err e => Ret (cip_outcome e)
    | Ok plan => submit_planned payload plan
    end
  else submit_planned payload plan_local.

Definition model_of (body : json) : string := default "iicp" (get_str body "model").
Definition messages_of (body : json) : json := default (JArray []) (jget body "messages").
Definition err_msg (status : Z) : string := if status =? 502 then "Upstream error" else "Internal proxy error".

(** *** Handlers *)

Definition error_reply (err : string -> string -> json) (status : Z) (code : string) : gateway_reply :=
  json_response status (err code (err_msg status)).

Definition openai_chat (config : CipConfig) (body : json) : prog proxy_answer gateway_reply :=
  let model := model_of body in
  run! outcome := run_task config (messages_of body) model body in
  match outcome with
  | OutcomeOk resp => ask! now := UnixSeconds in Ret (ai_generated (json_response 200 (to_openai now resp model)))
  | OutcomeErr s code => Ret (error_reply openai_err s code)
  end.

(** [is_none_or(|v| v.as_bool().unwrap_or(true))] *)
Definition stream_default_true (body : json) : bool := is_none_or (jget body "stream") (fun v => default true (as_bool v)).

Definition ollama_reply (stream : bool) (payload : json) : gateway_reply :=
  ai_generated (if stream then build 200 "application/x-ndjson" (json_to_vec payload ++ [x0a]) else json_response 200 payload).

Definition ollama_chat (config : CipConfig) (body : json) : prog proxy_answer gateway_reply :=
  let model := model_of body in
  run! outcome := run_task config (messages_of body) model body in
  match outcome with
  | OutcomeOk resp => ask! now := NowIso in Ret (ollama_reply (stream_default_true body) (to_ollama now resp model))
  | OutcomeErr s code => Ret (error_reply ollama_err s code)
  end.

Definition ollama_generate (config : CipConfig) (body : json) : prog proxy_answer gateway_reply :=
  let model := model_of body in
  let prompt := default empty_str (get_str body "prompt") in
  let messages := JArray [mk_obj [("role", JString "user"); ("content", JString prompt)]] in
  run! outcome := run_task config messages model body in
  match outcome with
  | OutcomeOk resp => ask! now := NowIso in Ret (ollama_reply (stream_default_true body) (to_ollama_generate now resp model))
  | OutcomeErr s code => Ret (error_reply ollama_err s code)
  end.

(** One server-sent event: the type joins the fields. *)
Definition sse_event (t : string) (d : list (string * json)) : list byte :=
  str_bytes ("event: " +:+ t) ++ [x0a] ++ str_bytes "data: " ++
  json_to_vec (foldl (fun p kv => payload_insert kv.1 kv.2 p) (mk_obj [("type", JString t)]) d) ++ [x0a; x0a].

Definition anthropic_stream (msg : json) (text : string) : list byte :=
  sse_event "message_start" [("message", msg)]
  ++ sse_event "content_block_start"
       [("index", u64_json 0); ("content_block", mk_obj [("type", JString "text"); ("text", JString empty_str)])]
  ++ sse_event "content_block_delta"
       [("index", u64_json 0); ("delta", mk_obj [("type", JString "text_delta"); ("text", JString text)])]
  ++ sse_event "content_block_stop" [("index", u64_json 0)]
  ++ sse_event "message_delta" [("delta", mk_obj [("stop_reason", JString "end_turn")])]
  ++ sse_event "message_stop" [].

Definition anthropic_messages (config : CipConfig) (body : json) : prog proxy_answer gateway_reply :=
  let model := model_of body in
  let stream := default false (get_bool body "stream") in
  run! outcome := run_task config (messages_of body) model body in
  match outcome with
  | OutcomeOk resp =>
      let msg := to_anthropic resp model in
      Ret (ai_generated (if stream then build 200 "text/event-stream" (anthropic_stream msg (first_message resp).2)
                         else json_response 200 msg))
  | OutcomeErr s code => Ret (error_reply anthropic_err s code)
  end.

Definition ollama_version : gateway_reply := json_response 200 (mk_obj [("version", JString OLLAMA_VERSION)]).
Definition ollama_tags : gateway_reply :=
  json_response 200 (mk_obj [("models", JArray [mk_obj [("name", JString "iicp"); ("model", JString "iicp");
    ("modified_at", JString empty_str); ("size", u64_json 0); ("digest", JString empty_str)]])]).
Definition anthropic_models : gateway_reply :=
  json_response 200 (mk_obj [("object", JString "list"); ("data", JArray [mk_obj [("id", JString "iicp");
    ("object", JString "model"); ("created", u64_json 1700000000); ("owned_by", JString "iicp")]])]).
Definition proxy_metrics : gateway_reply :=
  build 200 "text/plain; version=0.0.4" (str_bytes "# iicp-proxy metrics" ++ [x0a]).
Definition proxy_status : gateway_reply := json_response 200 (mk_obj [("status", JString "ok"); ("role", JString "proxy")]).

(** *** The routes *)

Inductive proxy_route := OpenAiChat | OllamaChat | OllamaGenerate | AnthropicMessages.
Definition proxy_handler (r : proxy_route) : CipConfig -> json -> prog proxy_answer gateway_reply :=
  match r with
  | OpenAiChat => openai_chat
  | OllamaChat => ollama_chat
  | OllamaGenerate => ollama_generate
  | AnthropicMessages => anthropic_messages
  end.
Definition route_error (r : proxy_route) : string -> string -> json :=
  match r with OpenAiChat => openai_err | OllamaChat | OllamaGenerate => ollama_err | AnthropicMessages => anthropic_err end.
End gateway.

(** ** The client as backend *)

(** The request [impl ProxyBackend for IicpClient] builds. *)
Definition proxy_request (intent : string) (payload : json) : TaskRequest :=
  mkRequest empty_str intent payload None None None None None.

(** [discover]: an error is an empty list. *)
Definition worker_candidate (n : Node) : CipWorkerCandidate :=
  mkWorkerCandidate (node_id n) (from_option cp_allow_remote_inference false (cip_policy n)) (score n)
    (restricted_eligibility n).
Definition worker_candidates (found : result NodeList IicpError) : list CipWorkerCandidate :=
  match found with Ok l => worker_candidate <$> nodes l | Err _ => [] end.
Definition cip_trust_scope (restricted : option RestrictedDirectoryContext) : option CipTrustScope :=
  (fun c => mkTrustScope (domain_id c) (authority_id c) (minimum_membership_generation c)) <$> restricted.

(** The result of [submit] and [submit_to_candidates]. *)
Definition submit_result (r : result TaskResponse IicpError) : result TaskResponse ProxyDispatchError := map_err IicpFailure r.
Definition candidates_result (r : result TaskResponse IicpError) : result TaskResponse ProxyDispatchError :=
  map_err (fun e => match e with NoNodes _ => CipFailure (NoEligibleWorkers "IICP-E022") | e => IicpFailure e end) r.

(** [client_config_for_proxy] on top of the default configuration. *)
Definition client_config_for_proxy (dflt : ClientConfig) (directory : option string) (region : option string)
    (restricted : option RestrictedDirectoryContext) (profile : ProfileRequest) : ClientConfig :=
  mkConfig (default (directory_url dflt) directory) (cfg_timeout_ms dflt) region (node_token dflt) (consumer_auth_mode dflt)
    (routing_epsilon dflt) (routing_strategy dflt) (routing_top_k dflt) (routing_softmax_tau dflt) (cfg_routing_policy dflt)
    (route_discovery_mode dflt) (if is_some restricted then Some profile else cfg_profile_request dflt) restricted.
