(* ===== verification/ProxySafety.v ===== *)
(** * What the gateway guarantees

    When a request is distributed to workers, whom it can reach, and what the
    four chat surfaces answer. *)

From S2P Require Import Prelude Program Text Json Cbor CodecModel DispatchTicket ClientTypes ClientEffects Confidential IntentPolicy RoutingPolicy Selection Client SubmitSafety ClientWitness Proxy.

(** ** The request fields *)

(** The [cip] object of a request, declaratively. *)
Definition cip_fields_ok (body : json) : Prop :=
  forall cip, jget body "cip" = Some cip -> is_Some (as_object cip) ->
    (forall p, get_str cip "policy" = Some p -> p ∈ VALID_CIP_POLICIES) /\
    (forall r, jget cip "replicas" = Some r -> exists n, as_i64 r = Some n /\ 1 <= n <= 10 /\
       (get_str cip "policy" = Some "majority_vote" -> Z.odd n = true)) /\
    (forall q, jget cip "quorum" = Some q -> exists n, as_i64 q = Some n /\ 1 <= n <= default 1 (get_i64 cip "replicas")).

Lemma rem_odd n : 1 <= n -> (Z.rem n 2 =? 0) = negb (Z.odd n).
Proof.
  intros Hn. rewrite Z.rem_mod_nonneg by lia. rewrite Zmod_odd. by destruct (Z.odd n).
Qed.

Lemma replicas_spec policy r :
  replicas_error policy r = None <->
  exists n, as_i64 r = Some n /\ 1 <= n <= 10 /\ (policy = Some "majority_vote" -> Z.odd n = true).
Proof.
  unfold replicas_error. destruct (as_i64 r) as [n|]; [|by split; [|intros (? & [=] & _)]].
  destruct (Z.leb_spec 1 n); simpl; [|split; [done|intros (m & [= <-] & ? & _); lia]].
  destruct (Z.leb_spec n 10); simpl; [|split; [done|intros (m & [= <-] & ? & _); lia]].
  rewrite rem_odd by done. destruct policy as [p|]; cbn [opt_str_is is_some_and].
  2:{ split; [|done]. intros _. by exists n. }
  destruct (String.eqb_spec "majority_vote" p) as [<-|Hp]; cbn [andb].
  - destruct (Z.odd n) eqn:E; simpl; [split; [|done]; intros _; by exists n|].
    split; [done|]. intros (m & [= <-] & _ & Ho). rewrite E in Ho. by specialize (Ho eq_refl).
  - split; [|done]. intros _. exists n. split; [done|]. split; [done|]. congruence.
Qed.

Lemma quorum_spec replicas q :
  quorum_error replicas q = None <-> exists n, as_i64 q = Some n /\ 1 <= n <= default 1 replicas.
Proof.
  unfold quorum_error. destruct (as_i64 q) as [n|]; [|by split; [|intros (? & [=] & _)]].
  destruct (Z.ltb_spec n 1), (Z.ltb_spec (default 1 replicas) n); simpl; split; try done;
    try (intros (m & [= <-] & ?); lia). intros _. exists n. split; [done|lia].
Qed.

Lemma bind_none {A B} (o : option A) (f : A -> option B) : o ≫= f = None <-> forall a, o = Some a -> f a = None.
Proof. destruct o; simpl; split; [by intros ? ? [= <-]|intros H; by apply H|done|done]. Qed.

Lemma option_or_none {A} (a b : option A) : option_or a b = None <-> a = None /\ b = None.
Proof. destruct a; simpl; naive_solver. Qed.

Lemma cip_fields_spec body : validate_cip_request_fields body = None <-> cip_fields_ok body.
Proof.
  unfold validate_cip_request_fields, cip_fields_ok. rewrite bind_none. apply forall_proper. intros cip.
  apply forall_proper. intros _. destruct (as_object cip) as [m|]; cbn [is_none is_some negb].
  2:{ split; [|done]. intros _ [x [=]]. }
  transitivity ((forall p, get_str cip "policy" = Some p -> p ∈ VALID_CIP_POLICIES) /\
    (jget cip "replicas" ≫= replicas_error (get_str cip "policy")) = None /\
    (jget cip "quorum" ≫= quorum_error (get_i64 cip "replicas")) = None).
  - destruct (get_str cip "policy") as [p|]; cbn [is_some_and].
    + destruct (str_in p VALID_CIP_POLICIES) eqn:E; cbn [negb].
      * apply str_in_elem in E. rewrite option_or_none. split; [|by intros [_ H]].
        intros H. split; [by intros ? [= <-]|done].
      * split; [done|]. intros (H & _). specialize (H p eq_refl). apply str_in_elem in H. congruence.
    + rewrite option_or_none. split; [|by intros [_ H]]. by intros H.
  - rewrite !bind_none. setoid_rewrite replicas_spec. setoid_rewrite quorum_spec. split; [intros H _; exact H|].
    intros H. apply H. by eexists.
Qed.

(** ** When a request is distributed *)

Section plan.
Context (config : CipConfig) (scope : option CipTrustScope) (now : Z) (nodes : list CipWorkerCandidate) (body : json)
  (qos : option string) (balance : option f64).

(** The estimated cost of a task. *)
Notation cost := (f64_of_Z 1).

Definition cip_asked : Prop := cip_enabled config = true /\ qos <> Some "realtime" /\ cip_fields_ok body.
Definition within_budget : Prop :=
  f64_ltb (max_credits_per_task config) cost = false /\
  forall b, session_credit_budget config = Some b -> f64_ltb b (f64_add (f64_of_Z 0) cost) = false.
Definition affordable : Prop := forall b, balance = Some b -> f64_ltb b cost = false.
Definition may_leave : Prop := get_str body "sensitivity" = Some "high" -> send_sensitive_prompts config = true.
Definition enough_workers : Prop := Z.max (requested_replicas body) 1 <= zlen (eligible_ids config scope now nodes).

Definition distributed : Prop := cip_asked /\ within_budget /\ affordable /\ may_leave /\ enough_workers.

(** A worker that may get a distributed request. *)
Definition worker_admissible (n : CipWorkerCandidate) : Prop :=
  n ∈ nodes /\ allow_remote_inference n = true /\ cw_node_id n <> empty_str /\
  f64_leb (min_reputation config) (reputation_score n) = true /\
  (forall s, scope = Some s -> exists proof, cw_eligibility n = Some proof /\ re_domain_id proof = ts_domain_id s /\
     re_authority_id proof = ts_authority_id s /\ ts_minimum_generation s <= re_membership_generation proof /\
     now < re_membership_expires_at proof) /\
  (trusted_peers config <> [] -> cw_node_id n ∈ trusted_peers config).

Lemma scope_proved_spec s n :
  scope_proved s now n = true <->
  exists proof, cw_eligibility n = Some proof /\ re_domain_id proof = ts_domain_id s /\
     re_authority_id proof = ts_authority_id s /\ ts_minimum_generation s <= re_membership_generation proof /\
     now < re_membership_expires_at proof.
Proof.
  unfold scope_proved. rewrite is_some_and_true. apply exist_proper. intros proof.
  rewrite !andb_true_iff, !String.eqb_eq, Z.leb_le, Z.ltb_lt. tauto.
Qed.

Lemma str_is_empty_spec s : negb (str_is_empty s) = true <-> s <> empty_str.
Proof. by destruct s. Qed.

Lemma is_none_or_true {A} (o : option A) p : is_none_or o p = true <-> forall a, o = Some a -> p a = true.
Proof. destruct o; simpl; naive_solver. Qed.

Lemma eligible_spec id :
  id ∈ eligible_ids config scope now nodes <-> exists n, worker_admissible n /\ cw_node_id n = id.
Proof.
  unfold eligible_ids, worker_admissible.
  assert (forall n, worker_eligible config scope now n = true <->
    allow_remote_inference n = true /\ cw_node_id n <> empty_str /\
    f64_leb (min_reputation config) (reputation_score n) = true /\
    (forall s, scope = Some s -> scope_proved s now n = true)) as He.
  { intros n. unfold worker_eligible. rewrite !andb_true_iff, str_is_empty_spec, is_none_or_true. tauto. }
  setoid_rewrite scope_proved_spec in He.
  destruct (trusted_peers config) as [|p l] eqn:Ep.
  - rewrite list_elem_of_fmap. setoid_rewrite list_elem_of_filter. setoid_rewrite He. naive_solver.
  - rewrite list_elem_of_filter, list_elem_of_fmap, str_in_elem. setoid_rewrite list_elem_of_filter. setoid_rewrite He.
    naive_solver.
Qed.

Lemma budget_spec :
  within_budget <-> f64_ltb (max_credits_per_task config) cost = false /\
    is_some_and (session_credit_budget config) (fun b => f64_ltb b (f64_add (f64_of_Z 0) cost)) = false.
Proof. unfold within_budget. destruct (session_credit_budget config); simpl; naive_solver. Qed.

Lemma affordable_spec : affordable <-> is_some_and balance (fun b => f64_ltb b cost) = false.
Proof. unfold affordable. destruct balance; simpl; naive_solver. Qed.

Lemma may_leave_spec :
  may_leave <-> opt_str_is (get_str body "sensitivity") "high" && negb (send_sensitive_prompts config) = false.
Proof.
  unfold may_leave, opt_str_is. destruct (get_str body "sensitivity") as [s|]; cbn [is_some_and].
  2:{ split; done. }
  destruct (String.eqb_spec "high" s) as [<-|Hs]; cbn [andb].
  - destruct (send_sensitive_prompts config); naive_solver.
  - split; [done|]. congruence.
Qed.

Lemma asked_spec :
  cip_asked <-> negb (cip_enabled config) || opt_str_is qos "realtime" = false /\
    is_some (validate_cip_request_fields body) = false.
Proof.
  unfold cip_asked, opt_str_is. rewrite <- cip_fields_spec, orb_false_iff, negb_false_iff.
  assert (qos <> Some "realtime" <-> is_some_and qos (String.eqb "realtime") = false) as ->.
  { destruct qos as [q|]; cbn [is_some_and]; [|done]. rewrite String.eqb_neq. split; congruence. }
  destruct (validate_cip_request_fields body); simpl; naive_solver.
Qed.
End plan.

Definition remote_plan (task_id : string) (ids : list string) : CipDispatchPlan :=
  mkPlan (Some (mk_obj [("cip_role", JString "worker"); ("cip_session_key", JString ("cip-sess-" +:+ task_id));
                        ("cip_parent_task_id", JString task_id)])) (Some ids).

(** The four outcomes of the gates. *)
Inductive plan_decided (config : CipConfig) (scope : option CipTrustScope) (now : Z) (nodes : list CipWorkerCandidate)
    (body : json) (qos : option string) (balance : option f64) (task_id : string) : result CipDispatchPlan CipError -> Prop :=
| decided_remote ids : distributed config scope now nodes body qos balance ->
    (forall id, id ∈ ids <-> exists n, worker_admissible config scope now nodes n /\ cw_node_id n = id) ->
    plan_decided config scope now nodes body qos balance task_id (Ok (remote_plan task_id ids))
| decided_credits : cip_asked config body qos -> within_budget config -> ~ affordable balance -> strategy config <> LocalFirst ->
    plan_decided config scope now nodes body qos balance task_id (Err (InsufficientCredits "IICP-E036"))
| decided_workers : cip_asked config body qos -> within_budget config -> affordable balance -> may_leave config body ->
    ~ enough_workers config scope now nodes body -> strategy config <> LocalFirst ->
    plan_decided config scope now nodes body qos balance task_id (Err (NoEligibleWorkers "IICP-E022"))
| decided_local :
    ~ (cip_asked config body qos /\ within_budget config /\
       (affordable balance /\ may_leave config body /\ enough_workers config scope now nodes body \/
        strategy config <> LocalFirst /\
          (~ affordable balance \/ may_leave config body /\ ~ enough_workers config scope now nodes body))) ->
    plan_decided config scope now nodes body qos balance task_id (Ok plan_local).

Lemma cip_plan_cases config scope now nodes body qos balance task_id :
  plan_decided config scope now nodes body qos balance task_id
    (compute_cip_envelope now nodes body config scope task_id qos balance).
Proof.
  unfold compute_cip_envelope, decide_dispatch, blocked_remote.
  pose proof (asked_spec config body qos) as Ha. pose proof (budget_spec config) as Hb.
  pose proof (affordable_spec balance) as Hc. pose proof (may_leave_spec config body) as Hm.
  destruct (negb (cip_enabled config) || opt_str_is qos "realtime") eqn:E1; [apply decided_local; intuition congruence|].
  destruct (is_some (validate_cip_request_fields body)); [apply decided_local; intuition congruence|].
  destruct (cip_enabled config); [cbn [negb]|done].
  destruct (f64_ltb (max_credits_per_task config) _); [apply decided_local; intuition congruence|].
  destruct (is_some_and (session_credit_budget config) _); [apply decided_local; intuition congruence|].
  destruct (is_some_and balance _).
  { destruct (decide (strategy config = LocalFirst)) as [Hs|Hs].
    - rewrite bool_decide_eq_true_2 by done. apply decided_local. intuition congruence.
    - rewrite bool_decide_eq_false_2 by done. apply decided_credits; intuition congruence. }
  destruct (_ && negb (send_sensitive_prompts config)); [apply decided_local; intuition congruence|].
  destruct (Z.ltb_spec (zlen (eligible_ids config scope now nodes)) (Z.max (requested_replicas body) 1)) as [Hl|Hl].
  { assert (~ enough_workers config scope now nodes body) by (unfold enough_workers; lia).
    destruct (decide (strategy config = LocalFirst)) as [Hs|Hs].
    - rewrite bool_decide_eq_true_2 by done. apply decided_local. intuition congruence.
    - rewrite bool_decide_eq_false_2 by done. apply decided_workers; intuition congruence. }
  apply decided_remote; [|intros id; apply eligible_spec]. unfold distributed, enough_workers. intuition congruence.
Qed.

(** C23: the gates of cooperative inference decide exactly.  A request is planned
    for remote workers, with the set of admissible workers, if and only if the
    gates are on, it is not realtime, its [cip] fields are well formed, it fits
    the budgets and the balance, its sensitivity allows it and enough workers
    are admissible; the credit error and the worker error appear exactly where
    the balance, or the number of workers, is what fails under a strategy other
    than local-first; every other request is planned as local. *)
Theorem cip_plan_exact now nodes body config scope task_id qos balance :
  let plan := compute_cip_envelope now nodes body config scope task_id qos balance in
  let asked := cip_asked config body qos /\ within_budget config in
  let served := affordable balance /\ may_leave config body in
  let strict := strategy config <> LocalFirst in
  (distributed config scope now nodes body qos balance <->
     exists ids, plan = Ok (remote_plan task_id ids) /\
       forall id, id ∈ ids <-> exists n, worker_admissible config scope now nodes n /\ cw_node_id n = id) /\
  (asked /\ ~ affordable balance /\ strict <-> plan = Err (InsufficientCredits "IICP-E036")) /\
  (asked /\ served /\ ~ enough_workers config scope now nodes body /\ strict <->
     plan = Err (NoEligibleWorkers "IICP-E022")) /\
  (plan = Ok plan_local \/ (exists ids, plan = Ok (remote_plan task_id ids)) \/
   plan = Err (InsufficientCredits "IICP-E036") \/ plan = Err (NoEligibleWorkers "IICP-E022")).
Proof.
  cbv zeta. unfold distributed. destruct (cip_plan_cases config scope now nodes body qos balance task_id) as
    [ids (Ha & Hb & Hc & Hm & He) Hids|Ha Hb Hc Hs|Ha Hb Hc Hm He Hs|Hn]; split_and!.
  all: try (split; [intuition congruence|intros H; first [discriminate H|done]]).
  all: try (split; [|by intros (? & [=] & _)]; tauto).
  - split; [intros _; by exists ids|done].
  - right. left. by exists ids.
  - by auto.
  - by auto.
  - by left.
Qed.

(** ** Where the gateway sends a request *)

Definition ptrace : Type := list (step proxy_answer).

(** The answer of a submission. *)
Definition submission (x : step proxy_answer) : option (result TaskResponse ProxyDispatchError) :=
  match x with
  | Did (SubmitTask _ _) r => Some r
  | Did (SubmitToCandidates _ _ _) r => Some r
  | _ => None
  end.
Definition submissions (tr : ptrace) : list (result TaskResponse ProxyDispatchError) := omap submission tr.

(** The workers, the scope and the time the plan was made with. *)
Definition planned_with (tr : ptrace) (nodes : list CipWorkerCandidate) (scope : option CipTrustScope) (now : Z) : Prop :=
  tr = [Did (resp:=proxy_answer) (DiscoverWorkers INTENT) nodes; Did (resp:=proxy_answer) TrustScope scope;
        Did (resp:=proxy_answer) UnixSeconds now].

Definition body_balance (body : json) : option f64 :=
  jget body "billing" ≫= fun b => jget b "consumer_balance" ≫= as_f64.

Definition submission_ok (config : CipConfig) (body : json) (tr : ptrace) (c : proxy_call) : Prop :=
  match c with
  | SubmitTask i _ =>
      i = INTENT /\ submissions tr = [] /\
      (cip_enabled config = true -> exists nodes scope now, planned_with tr nodes scope now /\
         ~ distributed config scope now nodes body (get_str body "qos") (body_balance body))
  | SubmitToCandidates i _ allowed =>
      i = INTENT /\ submissions tr = [] /\
      exists nodes scope now, planned_with tr nodes scope now /\
        distributed config scope now nodes body (get_str body "qos") (body_balance body) /\
        forall id, id ∈ allowed <-> exists n, worker_admissible config scope now nodes n /\ cw_node_id n = id
  | _ => True
  end.

(** The table of failures: what an unsuccessful answer becomes. *)
Inductive failed : result TaskResponse ProxyDispatchError -> Z -> string -> Prop :=
| failed_task resp : tr_status resp ∉ ["success"; "completed"] ->
    failed (Ok resp) 502 (default "proxy_error" (tr_error resp ≫= fun e => get_str e "code"))
| failed_credits c : failed (Err (CipFailure (InsufficientCredits c))) 402 c
| failed_workers c : failed (Err (CipFailure (NoEligibleWorkers c))) 503 c
| failed_nodes i : failed (Err (IicpFailure (NoNodes i))) 502 "IICP-E033"
| failed_intent i : failed (Err (IicpFailure (InvalidIntent i))) 502 "SDK-03"
| failed_timeout ms : failed (Err (IicpFailure (TimeoutTooLarge ms))) 502 "SDK-04"
| failed_http c : failed (Err (IicpFailure (Http c))) 500 "proxy_error"
| failed_endpoint m : failed (Err (IicpFailure (EndpointRefused m))) 500 "proxy_error"
| failed_protocol c m st : failed (Err (IicpFailure (Protocol c m st))) 500 "proxy_error"
| failed_policy c m : failed (Err (IicpFailure (PolicyRefused c m))) 500 "proxy_error"
| failed_serde m : failed (Err (IicpFailure (Serde m))) 500 "proxy_error"
| failed_node m : failed (Err (IicpFailure (NodeError m))) 500 "proxy_error".

(** How a task ended: by its only submission, or refused by the gates. *)
Inductive task_end (config : CipConfig) (body : json) (tr : ptrace) : Outcome -> Prop :=
| end_ok resp : submissions tr = [Ok resp] -> tr_status resp ∈ ["success"; "completed"] -> task_end config body tr (OutcomeOk resp)
| end_failed r status code : submissions tr = [r] -> failed r status code -> task_end config body tr (OutcomeErr status code)
| end_refused nodes scope now status code : planned_with tr nodes scope now ->
    strategy config <> LocalFirst -> cip_asked config body (get_str body "qos") ->
    (status = 402 /\ code = "IICP-E036" /\ ~ affordable (body_balance body) \/
     status = 503 /\ code = "IICP-E022" /\ ~ enough_workers config scope now nodes body) ->
    task_end config body tr (OutcomeErr status code).

Lemma status_finished (s : string) : s ∈ ["success"; "completed"] <-> (s ==? "success") || (s ==? "completed") = true.
Proof. rewrite orb_true_iff, !String.eqb_eq. set_solver. Qed.

Lemma submit_end http_text config body tr r :
  submissions tr = [r] -> task_end config body tr (outcome_of_submit http_text r).
Proof.
  intros Hs. destruct r as [resp|[e|[c|c]]]; simpl.
  - destruct (_ || _) eqn:E; [by apply end_ok; [|apply status_finished]|].
    eapply end_failed; [done|]. constructor. rewrite status_finished. congruence.
  - destruct e; (eapply end_failed; [done|]; constructor).
  - eapply end_failed; [done|constructor].
  - eapply end_failed; [done|constructor].
Qed.

Section handlers.
Context {json_codec : JsonCodec} (http_text : bool -> string) (config : CipConfig) (body : json).

Lemma planned_along tr payload plan nodes scope now :
  submissions tr = [] ->
  (allowed_node_ids plan = None -> cip_enabled config = true -> planned_with tr nodes scope now /\
     ~ distributed config scope now nodes body (get_str body "qos") (body_balance body)) ->
  (forall ids, allowed_node_ids plan = Some ids -> planned_with tr nodes scope now /\
     distributed config scope now nodes body (get_str body "qos") (body_balance body) /\
     forall id, id ∈ ids <-> exists n, worker_admissible config scope now nodes n /\ cw_node_id n = id) ->
  along log (submission_ok config body) (task_end config body) tr (submit_planned http_text payload plan).
Proof.
  intros Hs Hl Hr. unfold submit_planned.
  assert (forall c (r : proxy_answer c) x, submission (Did c r) = Some x -> submissions (log tr c r) = [x]) as Hlog.
  { intros c r x E. unfold submissions, log in *. rewrite omap_app, Hs.
    change (omap submission [Did c r]) with (match submission (Did c r) with Some y => [y] | None => [] end). by rewrite E. }
  destruct (allowed_node_ids plan) as [ids|]; split.
  - split; [done|]. split; [done|]. destruct (Hr ids eq_refl) as (? & ? & Hids). exists nodes, scope, now.
    split; [done|]. split; [done|]. intros id. by rewrite elem_of_list_to_set.
  - intros r. apply submit_end. by apply Hlog.
  - split; [done|]. split; [done|]. intros He. destruct (Hl eq_refl He). by exists nodes, scope, now.
  - intros r. apply submit_end. by apply Hlog.
Qed.

Lemma run_task_along messages model :
  along log (submission_ok config body) (task_end config body) [] (run_task http_text config messages model body).
Proof.
  unfold run_task. destruct (cip_enabled config) eqn:He.
  2:{ by apply (planned_along [] _ _ [] None 0); [|cbn; congruence|]. }
  split; [done|]. intros nodes. split; [done|]. intros scope. split; [done|]. intros now.
  change (log _ UnixSeconds now) with ([Did (resp:=proxy_answer) (DiscoverWorkers INTENT) nodes;
    Did (resp:=proxy_answer) TrustScope scope; Did (resp:=proxy_answer) UnixSeconds now]).
  fold (body_balance body).
  destruct (cip_plan_cases config scope now nodes body (get_str body "qos") (body_balance body) "cip-task") as
    [ids Hd Hids|Ha Hb Hc Hs|Ha Hb Hc Hm Hw Hs|Hn].
  - apply (planned_along _ _ _ nodes scope now); [done|done|]. by intros ? [= <-].
  - eapply end_refused; [done|done|done|by left].
  - eapply end_refused; [done|done|done|by right].
  - apply (planned_along _ _ _ nodes scope now); [done| |done]. intros _ _. split; [done|].
    unfold distributed in *. tauto.
Qed.

(** *** Replies *)

(** The text of the model's answer, and where each surface carries it. *)
Definition completion_text (resp : TaskResponse) : option string :=
  tr_result resp ≫= fun r => jget r "choices" ≫= fun cs => as_array cs ≫= fun l => head l ≫= fun c =>
    jget c "message" ≫= fun m => get_str m "content".
Definition answer_text (r : proxy_route) (v : json) : option string :=
  match r with
  | OpenAiChat => jget v "choices" ≫= fun cs => as_array cs ≫= fun l => head l ≫= fun c => jget c "message" ≫= fun m => get_str m "content"
  | OllamaChat => jget v "message" ≫= fun m => get_str m "content"
  | OllamaGenerate => get_str v "response"
  | AnthropicMessages => jget v "content" ≫= fun cs => as_array cs ≫= fun l => head l ≫= fun b => get_str b "text"
  end.
Definition streamed (r : proxy_route) : bool :=
  match r with
  | OpenAiChat => false
  | OllamaChat | OllamaGenerate => stream_default_true body
  | AnthropicMessages => default false (get_bool body "stream")
  end.
Definition framed (r : proxy_route) (v : json) (text : string) : list byte :=
  if negb (streamed r) then json_to_vec v
  else match r with AnthropicMessages => anthropic_stream v text | _ => json_to_vec v ++ [x0a] end.

Lemma first_message_text resp : (first_message resp).2 = default empty_str (completion_text resp).
Proof.
  unfold first_message, completion_text, default, id. destruct (tr_result resp) as [r|]; [|done]. cbn [from_option mbind option_bind].
  destruct (jget r "choices") as [c|]; [|done]. cbn [mbind option_bind]. destruct (as_array c) as [l|]; [|done].
  destruct l as [|x l]; [done|]. simpl. by destruct (jget x "message").
Qed.

(** What a route answers when the task ended in [o]. *)
Definition replied (r : proxy_route) (reply : gateway_reply) (o : Outcome) : Prop :=
  match o with
  | OutcomeOk resp =>
      gr_status reply = 200 /\ ("x-iicp-generated-by-ai", "true") ∈ gr_headers reply /\
      exists v, answer_text r v = Some (default empty_str (completion_text resp)) /\
        get_str v "model" = Some (model_of body) /\ gr_body reply = framed r v (default empty_str (completion_text resp))
  | OutcomeErr status code =>
      gr_status reply = status /\ gr_body reply = json_to_vec (route_error r code (err_msg status)) /\
      forall v, ("x-iicp-generated-by-ai", v) ∉ gr_headers reply
  end.

Definition gateway_end (r : proxy_route) (tr : ptrace) (reply : gateway_reply) : Prop :=
  ("server", SERVER_ID) ∈ gr_headers reply /\ exists o, replied r reply o /\ task_end config body tr o.

Lemma end_clock tr c (x : proxy_answer c) resp :
  submission (Did c x) = None -> task_end config body tr (OutcomeOk resp) -> task_end config body (log tr c x) (OutcomeOk resp).
Proof.
  intros Hc H. inversion H as [? Hs Hf| |]; subst. apply end_ok; [|done]. rewrite <- Hs.
  unfold submissions, log. rewrite omap_app.
  change (omap submission [Did c x]) with (match submission (Did c x) with Some y => [y] | None => [] end).
  by rewrite Hc, app_nil_r.
Qed.

Lemma error_replied r status code : replied r (error_reply (route_error r) status code) (OutcomeErr status code).
Proof. split; [done|]. split; [done|]. intros v. simpl. set_solver. Qed.

Lemma ok_replied r tr resp v ct text :
  task_end config body tr (OutcomeOk resp) -> text = default empty_str (completion_text resp) ->
  answer_text r v = Some text -> get_str v "model" = Some (model_of body) ->
  gateway_end r tr (ai_generated (build 200 ct (framed r v text))).
Proof.
  intros Ht -> Ha Hm. split; [simpl; set_solver|]. exists (OutcomeOk resp). split; [|done].
  split; [done|]. split; [simpl; set_solver|]. by exists v.
Qed.

Lemma handler_along r : along log (submission_ok config body) (gateway_end r) [] (proxy_handler http_text r config body).
Proof.
  assert (forall status code tr, task_end config body tr (OutcomeErr status code) ->
    gateway_end r tr (error_reply (route_error r) status code)) as Herr.
  { intros status code tr H. split; [simpl; set_solver|]. eexists. split; [apply error_replied|done]. }
  assert (forall resp, default empty_str (completion_text resp) = (first_message resp).2) as Htext
    by (intros; by rewrite first_message_text).
  destruct r; simpl; (eapply along_bind; [apply run_task_along|]); intros tr [resp|status code] H; try by apply Herr.
  - split; [done|]. intros now. unfold to_openai. destruct (first_message resp) as [role text] eqn:E.
    eapply (ok_replied OpenAiChat _ _ _ _ text); [by apply end_clock|by rewrite Htext, E|done|done].
  - split; [done|]. intros now. unfold to_ollama. destruct (first_message resp) as [role text] eqn:E.
    replace (ollama_reply _ _) with (ai_generated (build 200 (if stream_default_true body then "application/x-ndjson" else "application/json")
      (framed OllamaChat (to_ollama now resp (model_of body)) text)))
      by (unfold framed, ollama_reply, to_ollama, json_response, streamed; rewrite E; by destruct (stream_default_true body)).
    eapply (ok_replied OllamaChat _ _ _ _ text); [by apply end_clock|by rewrite Htext, E| |]; unfold to_ollama; by rewrite E.
  - split; [done|]. intros now.
    replace (ollama_reply _ _) with (ai_generated (build 200 (if stream_default_true body then "application/x-ndjson" else "application/json")
      (framed OllamaGenerate (to_ollama_generate now resp (model_of body)) (first_message resp).2)))
      by (unfold framed, ollama_reply, json_response; simpl; by destruct (stream_default_true body)).
    by eapply ok_replied; [apply end_clock|rewrite Htext|..].
  - cbn [along]. replace (if default false (get_bool body "stream") then _ else _) with
      (build 200 (if default false (get_bool body "stream") then "text/event-stream" else "application/json")
        (framed AnthropicMessages (to_anthropic resp (model_of body)) (first_message resp).2))
      by (unfold framed, json_response; simpl; by destruct (default false (get_bool body "stream"))).
    by eapply ok_replied; [|rewrite Htext|..].
Qed.
End handlers.

Lemma task_end_once config body tr o : task_end config body tr o -> (length (submissions tr) <= 1)%nat.
Proof. by intros [? -> ?|? ? ? -> ?|? ? ? ? ? -> ? ? ?]; simpl; lia. Qed.

(** C24: a request reaches only whom the gates admit.  The gateway submits at
    most one task per request, for the chat intent; a task restricted to
    candidates goes out only for a request the gates distribute, with exactly
    the workers they admit, and whatever the directory and the providers
    answer to the client that carries it out, every transmission of the task
    goes to the endpoint of one of these workers that also passes the client's
    guards; with the gates on, an unrestricted task is one they did not
    distribute. *)
Theorem gateway_confined `{SerdeOps} {crypto : CxCrypto} {codec : JsonCodec} http_text config route body ans tr reply :
  run ans 0 (proxy_handler http_text route config body) = (tr, reply) ->
  (length (submissions tr) <= 1)%nat /\
  (forall tr1 c x tr2, tr = tr1 ++ Did c x :: tr2 -> submission_ok config body tr1 c) /\
  forall tr1 i payload allowed x tr2, tr = tr1 ++ Did (SubmitToCandidates i payload allowed) x :: tr2 ->
    exists nodes scope now, planned_with tr1 nodes scope now /\
    forall client ranker loopback_var plaintext_var to_lowercase sha256_hex exp Identity
        (compose : Identity -> string -> option string -> string -> result json string) cans ctr cres,
      run cans 0 (submit_to_node_ids client ranker loopback_var plaintext_var to_lowercase sha256_hex exp compose
        (proxy_request i payload) allowed) = (ctr, cres) ->
      forall ctr1 url b ct tp y ctr2, ctr = ctr1 ++ Did (PostTask url b ct tp) y :: ctr2 ->
        exists n w, worker_admissible config scope now nodes w /\ node_id n = cw_node_id w /\
          discovered INTENT n ctr1 /\ url = endpoint n +:+ "/v1/task" /\
          target_ok client loopback_var plaintext_var to_lowercase (proxy_request i payload) (Some allowed) n.
Proof.
  intros Hrun. destruct (run_logged _ _ _ _ _ _ _ (handler_along http_text config body route) Hrun) as [(_ & o & _ & He) Hs].
  split; [by eapply task_end_once|]. split; [done|]. intros tr1 i payload allowed x tr2 E.
  destruct (Hs _ _ _ _ E) as (-> & _ & nodes & scope & now & Hp & _ & Hids). exists nodes, scope, now. split; [done|].
  intros client ranker lv pv low sha ex Identity compose cans ctr cres Hc ctr1 url b ct tp y ctr2 Ec.
  destruct (run_logged _ _ _ _ _ _ _ (submit_along client ranker lv pv low sha ex compose (proxy_request INTENT payload)
    (Some allowed) None) Hc) as [_ Hcs]. destruct (Hcs _ _ _ _ Ec) as (n & Hd & Ht & Hu & _).
  destruct (proj1 (Hids (node_id n))) as (w & Hw & Heq); [by apply (to_allowed _ _ _ _ _ _ _ Ht)|].
  exists n, w. by split_and!.
Qed.

(** The replies of the four chat surfaces.  Every reply carries the server
    name.  A task that succeeded is answered with status 200, the mark that the
    content was generated, the requested model name, and the text of the first
    choice where the surface carries it, streamed where the request asks for
    it; any other end is answered with the surface's error object and the
    status and code of the failure table, without the mark. *)
Theorem gateway_replies_exact {codec : JsonCodec} http_text config route body ans tr reply :
  run ans 0 (proxy_handler http_text route config body) = (tr, reply) ->
  ("server", SERVER_ID) ∈ gr_headers reply /\
  exists o, task_end config body tr o /\ replied body route reply o.
Proof.
  intros Hrun. destruct (run_logged _ _ _ _ _ _ _ (handler_along http_text config body route) Hrun) as [(Hh & o & Hr & He) _].
  split; [done|]. by exists o.
Qed.

(** ** Concrete runs *)

Definition demo_cip : CipConfig := mkCipConfig true RemoteFirst (f64_of_Z 10) None false [] (f64_of_Z 0).
Definition demo_workers : list CipWorkerCandidate :=
  [mkWorkerCandidate "a" true (f64_of_Z 1) None; mkWorkerCandidate "b" false (f64_of_Z 1) None].
Definition demo_chat : json := mk_obj [("messages", JArray []); ("model", JString "m"); ("stream", JBool false)].

(** A request distributed to one worker. *)
Lemma cip_plan_exact_witness :
  distributed demo_cip None 0 demo_workers demo_chat None None /\
  ~ distributed demo_cip None 0 [] demo_chat None None.
Proof.
  split.
  - apply (proj2 (proj1 (cip_plan_exact 0 demo_workers demo_chat demo_cip None "t" None None))).
    exists ["a"]. split; [vm_compute; reflexivity|]. intros id.
    rewrite <- (eligible_spec demo_cip None 0 demo_workers id).
    replace (eligible_ids demo_cip None 0 demo_workers) with ["a"] by (vm_compute; reflexivity). reflexivity.
  - intros Hd. apply (proj1 (proj1 (cip_plan_exact 0 [] demo_chat demo_cip None "t" None None))) in Hd.
    destruct Hd as (ids & E & _).
    replace (compute_cip_envelope 0 [] demo_chat demo_cip None "t" None None)
      with (@Err CipDispatchPlan CipError (NoEligibleWorkers "IICP-E022")) in E by (vm_compute; reflexivity). discriminate E.
Defined.

Definition demo_completion : TaskResponse :=
  mkTaskResponse "t1" "success" (Some (mk_obj [("choices", JArray [mk_obj [("message", mk_obj [("content", JString "hi")])]])]))
    None None None false None None.

Definition gateway_answer (n : nat) (c : proxy_call) : proxy_answer c :=
  match c with
  | DiscoverWorkers _ => demo_workers
  | TrustScope => None
  | SubmitTask _ _ => Err (IicpFailure (TimeoutTooLarge 5))
  | SubmitToCandidates _ _ _ => Ok demo_completion
  | UnixSeconds => 0
  | NowIso => "2026-01-01T00:00:00Z"
  end.
Definition demo_gateway (r : proxy_route) (config : CipConfig) : list (step proxy_answer) * gateway_reply :=
  run gateway_answer 0 (proxy_handler (fun _ => EmptyString) r config demo_chat).

Definition demo_candidates_client (payload : json) : prog call_answer (outcome TaskResponse) :=
  submit_to_node_ids (H:=demo_serde) (crypto:=toy_cx) legacy_config None None None to_ascii_lowercase (fun s => s) (fun x => x)
    (Identity:=unit) (fun _ _ _ _ => Ok JNull) (proxy_request INTENT payload) {["a"]}.

Definition demo_cip_payload : json :=
  mk_obj [("cip", mk_obj [("cip_role", JString "worker"); ("cip_session_key", JString "cip-sess-cip-task");
            ("cip_parent_task_id", JString "cip-task")]); ("messages", JArray []); ("model", JString "m")].

Lemma demo_submitted :
  (demo_gateway OpenAiChat demo_cip).1 =
  take 3 (demo_gateway OpenAiChat demo_cip).1 ++
    Did (SubmitToCandidates INTENT demo_cip_payload {["a"]}) (Ok demo_completion) :: [Did UnixSeconds 0].
Proof. vm_compute. reflexivity. Qed.

Definition demo_remote : list (step call_answer) * outcome TaskResponse := run demo_calls 0 (demo_candidates_client demo_cip_payload).
Definition demo_sent : json := sealed_body (with_task_id (proxy_request INTENT demo_cip_payload)
  "11111111-1111-1111-1111-111111111111") (env_json ∅) false.
Lemma demo_remote_posted :
  demo_remote.1 = take 5 demo_remote.1 ++
    Did (PostTask "https://a.example.com/v1/task" demo_sent None "00-11111111111111111111111111111111-1111111111111111-01")
      (Val demo_task_response) :: [].
Proof. vm_compute. reflexivity. Qed.

(** The request goes to worker [a], the only admissible one. *)
Lemma gateway_confined_witness :
  exists nodes scope now n w, worker_admissible demo_cip scope now nodes w /\ node_id n = cw_node_id w /\
    "https://a.example.com/v1/task" = endpoint n +:+ "/v1/task".
Proof.
  destruct (gateway_confined (H:=demo_serde) (crypto:=toy_cx) (fun _ => EmptyString) demo_cip OpenAiChat demo_chat
    gateway_answer (demo_gateway OpenAiChat demo_cip).1 (demo_gateway OpenAiChat demo_cip).2 (surjective_pairing _)) as (_ & _ & H).
  destruct (H _ _ _ _ _ _ demo_submitted) as (nodes & scope & now & _ & Hc).
  destruct (Hc legacy_config None None None to_ascii_lowercase (fun s => s) (fun x => x) unit (fun _ _ _ _ => Ok JNull)
    demo_calls demo_remote.1 demo_remote.2 (surjective_pairing _) _ _ _ _ _ _ _ demo_remote_posted) as (n & w & Hw & Hn & _ & Hu & _).
  exists nodes, scope, now, n, w. split; [exact Hw|]. split; [exact Hn|exact Hu].
Defined.

(** The text arrives; without the gates, a rejected deadline is a 502. *)
Definition demo_cip_off : CipConfig := mkCipConfig false LocalFirst (f64_of_Z 10) None false [] (f64_of_Z 0).
Lemma gateway_replies_exact_witness :
  (exists o, task_end demo_cip demo_chat (demo_gateway AnthropicMessages demo_cip).1 o /\
     replied demo_chat AnthropicMessages (demo_gateway AnthropicMessages demo_cip).2 o) /\
  gr_status (demo_gateway AnthropicMessages demo_cip).2 = 200 /\
  gr_body (demo_gateway OllamaChat demo_cip_off).2 = json_to_vec (ollama_err "SDK-04" "Upstream error").
Proof.
  split; [|split; vm_compute; reflexivity].
  apply (gateway_replies_exact (fun _ => EmptyString) demo_cip AnthropicMessages demo_chat gateway_answer
    (demo_gateway AnthropicMessages demo_cip).1 (demo_gateway AnthropicMessages demo_cip).2 (surjective_pairing _)).
Defined.
