(* ===== verification/Signing.v ===== *)
(** * Signed declarations ([src/pricing.rs], [src/delegation.rs], [src/jcs.rs],
    [src/token_validator.rs], [src/policy_manifest.rs])

    The texts an operator or a node signs, who accepts them, and the bearer
    token check. *)

From S2P Require Import Prelude Text Json Cbor CodecModel DispatchTicket.

(** ** The libraries: HMAC, Ed25519, SHA-256, standard base64 *)
Class SigningLib := {
  hmac_sha256 : list byte -> list byte -> list byte;
  std_b64_decode : string -> result (list byte) string;
  std_b64_encode : list byte -> string;
  ed_public : list byte -> list byte;
  ed_sign : list byte -> list byte -> list byte;
  ed_key_valid : list byte -> bool;
  ed_verify : list byte -> list byte -> list byte -> bool;
  sha256 : list byte -> list byte;
  hmac_length : forall k m, length (hmac_sha256 k m) = 32%nat;
  std_decode_encode : forall l, std_b64_decode (std_b64_encode l) = Ok l;
  ed_public_length : forall s, length s = 32%nat -> length (ed_public s) = 32%nat;
  ed_public_valid : forall s, length s = 32%nat -> ed_key_valid (ed_public s) = true;
  ed_sign_length : forall s m, length s = 32%nat -> length (ed_sign s m) = 64%nat;
  ed_verify_sign : forall s m, length s = 32%nat -> ed_verify (ed_public s) m (ed_sign s m) = true
}.

(** ** Bearer tokens ([token_validator.rs]) *)

Record TokenValidator := mkValidator { expected : string }.
Definition is_valid (v : TokenValidator) (presented : string) : bool :=
  if str_is_empty (expected v) || str_is_empty presented then false
  else if negb (str_len (expected v) =? str_len presented) then false
  else bool_decide (str_bytes (expected v) = str_bytes presented).
Definition update_token (v : TokenValidator) (new_token : string) : TokenValidator := mkValidator new_token.

(** ** Hexadecimal text *)

Definition hex_digit (n : Z) : Ascii.ascii := default "0"%char (String.get (Z.to_nat n) "0123456789abcdef").
Fixpoint hex_encode (l : list byte) : string :=
  match l with
  | [] => EmptyString
  | b :: l => String (hex_digit (Z.shiftr (u8_to_Z b) 4)) (String (hex_digit (Z.land (u8_to_Z b) 15)) (hex_encode l))
  end.

(** ** Interoperable canonical JSON ([jcs.rs]) *)

Definition JCS_MAX_SAFE_INTEGER : Z := 9007199254740991.
Inductive JcsError := UnsafeInteger | Serialization.

Definition number_safe (n : number) : bool :=
  match num_as_i64 n with
  | Some z => Z.abs z <=? JCS_MAX_SAFE_INTEGER
  | None => is_none_or (num_as_u64 n) (fun z => z <=? JCS_MAX_SAFE_INTEGER)
  end.
Fixpoint jcs_validate (v : json) : bool :=
  match v with
  | JNumber n => number_safe n
  | JArray l => forallb jcs_validate l
  | JObject m => forallb (fun kv => jcs_validate kv.2) m
  | _ => true
  end.
Definition canonicalize_jcs (jcs : json -> option (list byte)) (v : json) : result (list byte) JcsError :=
  if jcs_validate v then ok_or (jcs v) Serialization else Err UnsafeInteger.

Section signing.
Context {json_codec : JsonCodec} {lib : SigningLib}.
(** [Display] of an [f64] *)
Context (f64_display : f64 -> string).

(** ** Pricing ([pricing.rs]) *)

Record PricingConfig := mkPricing {
  credit_cost_multiplier : f64;
  pricing_model : string;
  sign_declarations : bool;
  effective_from : option string;
  effective_until : option string
}.
Definition PricingConfig_default : PricingConfig := mkPricing (f64_of_Z 1) "per_token" false None None.

Definition sign_body (body : list byte) (secret : string) : string := hex_encode (hmac_sha256 (str_bytes secret) body).
(** [ct_eq] compares lengths first, then every byte. *)
Definition verify_signature (body : list byte) (secret signature : string) : bool :=
  bool_decide (str_bytes (sign_body body secret) = str_bytes signature).

(** [f64::trunc], [as i64] and [abs] for a finite value below [1e15] *)
Definition f64_trunc_Z (f : f64) : Z :=
  match f with
  | S754_finite s m e => let n := if 0 <=? e then Z.pos m * 2 ^ e else Z.pos m / 2 ^ (- e) in if s then - n else n
  | _ => 0
  end.
Definition f64_abs (f : f64) : f64 :=
  match f with
  | S754_finite _ m e => S754_finite false m e
  | S754_infinity _ => S754_infinity false
  | S754_zero _ => S754_zero false
  | S754_nan => S754_nan
  end.
Definition whole (f : f64) : bool :=
  match f with
  | S754_zero _ => true
  | S754_finite s m e => (0 <=? e) || (Z.pos m mod 2 ^ (- e) =? 0)
  | _ => false
  end.

Definition php_canonical_sign_body (multiplier : f64) (model : string) : list byte :=
  let num := if f64_is_finite multiplier && whole multiplier && f64_ltb (f64_abs multiplier) (f64_of_Z (10 ^ 15))
             then pretty (f64_trunc_Z multiplier) else f64_display multiplier in
  str_bytes (quoted "{'credit_cost_multiplier':" +:+ num +:+ quoted ",'pricing_model':")
  ++ json_to_vec (JString model) ++ str_bytes "}".

(** [block["k"] = v] on an object *)
Definition set_field (k : string) (v : json) (b : json) : json :=
  match b with JObject m => JObject (obj_insert k v m) | _ => b end.
Definition set_opt (k : string) (o : option string) (b : json) : json :=
  match o with Some s => set_field k (JString s) b | None => b end.

Definition build_pricing_block (p : PricingConfig) (hmac_key : string) : json :=
  let block := mk_obj [("credit_cost_multiplier", f64_json (credit_cost_multiplier p));
                       ("pricing_model", JString (pricing_model p))] in
  let block :=
    if sign_declarations p && negb (str_is_empty hmac_key)
    then set_field "declaration_signature"
           (JString (sign_body (php_canonical_sign_body (credit_cost_multiplier p) (pricing_model p)) hmac_key)) block
    else block in
  set_opt "effective_until" (effective_until p) (set_opt "effective_from" (effective_from p) block).

(** ** Delegation ([delegation.rs]) *)

Record Delegation := mkDelegation { dg_node_id : string; dg_operator_pub : string; dg_not_after : Z; dg_sig : string }.

(** The fields of the serialized structs are in key order. *)
Definition canonical_bytes (node_id operator_pub : string) (not_after : Z) : list byte :=
  json_to_vec (mk_obj [("node_id", JString node_id); ("not_after", u64_json not_after); ("operator_pub", JString operator_pub)]).
Definition canonical_rename_bytes (display_name operator_pub : string) (ts : Z) : list byte :=
  json_to_vec (mk_obj [("display_name", JString display_name); ("operator_pub", JString operator_pub); ("ts", i64_json ts)]).
Definition sign_rename (seed : list byte) (display_name operator_pub : string) (ts : Z) : string :=
  std_b64_encode (ed_sign seed (canonical_rename_bytes display_name operator_pub ts)).

Definition SELF_SERVICE_DOMAIN : list byte := str_bytes "iicp:operator:self-service:v1" ++ [x0a].
(** The fields are a [BTreeMap]: an object in key order. *)
Definition canonical_operator_self_service_bytes (action : string) (fields : list (string * json)) : list byte :=
  SELF_SERVICE_DOMAIN ++
  json_to_vec (JObject (obj_insert "action" (JString action) (obj_remove "new_key_sig" (obj_remove "sig" fields)))).
Definition sign_operator_self_service (seed : list byte) (action : string) (fields : list (string * json)) : string :=
  std_b64_encode (ed_sign seed (canonical_operator_self_service_bytes action fields)).

Definition operator_pub_b64 (seed : list byte) : string := std_b64_encode (ed_public seed).

Definition issue_delegation (seed : list byte) (node_id : string) (ttl_seconds now : Z) : Delegation :=
  let pub := operator_pub_b64 seed in
  let not_after := u64_add now ttl_seconds in
  mkDelegation node_id pub not_after (std_b64_encode (ed_sign seed (canonical_bytes node_id pub not_after))).

Definition verify_delegation (token : Delegation) (claimed_node_id : string) (now : Z) : result unit string :=
  if dg_node_id token <>? claimed_node_id then Err "node_id_mismatch"
  else if dg_not_after token <=? now then Err "expired"
  else
    let? pub_raw := ok_or (result_ok (std_b64_decode (dg_operator_pub token)) ≫= sized 32) "bad_operator_pub" in
    let? sig_raw := ok_or (result_ok (std_b64_decode (dg_sig token)) ≫= sized 64) "bad_sig" in
    if negb (ed_key_valid pub_raw) then Err "bad_operator_pub"
    else if ed_verify pub_raw (canonical_bytes (dg_node_id token) (dg_operator_pub token) (dg_not_after token)) sig_raw
    then Ok tt else Err "bad_signature".

(** ** Policy manifests ([policy_manifest.rs]) *)

(** Rebuilding every object in key order; objects are kept in that order. *)
Fixpoint sorted (v : json) : json :=
  match v with
  | JObject m => JObject (foldr (fun kv acc => obj_insert kv.1 kv.2 acc) [] ((fun kv => (kv.1, sorted kv.2)) <$> m))
  | JArray l => JArray (sorted <$> l)
  | _ => v
  end.

Definition without_detached (m : list (string * json)) : list (string * json) :=
  match obj_get m "signature" with
  | Some (JObject s) => obj_insert "signature" (JObject (obj_remove "signature" s)) m
  | _ => obj_remove "signature" m
  end.
Definition canonical_policy_manifest (manifest : json) : result (list byte) string :=
  match manifest with
  | JObject m => Ok (json_to_vec (sorted (JObject (without_detached m))))
  | _ => Err "policy manifest must be a JSON object"
  end.

(** [rfc3339 n] is the text of the instant [n] in whole seconds; the file is
    what was read, or the text of the error. *)
Definition sign_policy_manifest (rfc3339 : Z -> string) (file : result (list byte) string) (operator_id : string)
    (seed : list byte) (instant : Z) : result json string :=
  let? bytes := map_err (fun e => "cannot read policy manifest: " +:+ e) file in
  let? manifest := map_err (fun e => "cannot read policy manifest: " +:+ e) (json_from_slice bytes) in
  match manifest with
  | JObject m =>
      let m := obj_remove "signature" m in
      match std_b64_decode operator_id with
      | Err e => Err ("operator_id is not valid base64: " +:+ e)
      | Ok public_key =>
          if negb (bool_decide (public_key = ed_public seed)) then Err "operator_id does not match the operator signing key"
          else
            let block := obj_of_list
              [("algorithm", JString "Ed25519"); ("key_id", JString (str_take 12 (hex_encode (sha256 public_key))));
               ("public_key", JString operator_id); ("signed_at", JString (rfc3339 instant));
               ("expires_at", JString (rfc3339 (instant + 90 * 86400)))] in
            let m := obj_insert "signature" (JObject block) m in
            let? canonical := canonical_policy_manifest (JObject m) in
            Ok (JObject (obj_insert "signature"
                  (JObject (obj_insert "signature" (JString (std_b64_encode (ed_sign seed canonical))) block)) m))
      end
  | _ => Err "policy manifest must be a JSON object"
  end.
End signing.

(** ** Lemmas *)

Lemma rbind_unit {E A} (r : result unit E) (k : unit -> result A E) a : rbind r k = Ok a <-> r = Ok tt /\ k tt = Ok a.
Proof. destruct r as [[]|]; simpl; naive_solver. Qed.

Lemma sized_spec n (o : option (list byte)) l : o ≫= sized n = Some l <-> o = Some l /\ zlen l = n.
Proof.
  destruct o as [x|]; simpl; [|naive_solver]. unfold sized. destruct (Z.eqb_spec (zlen x) n); naive_solver.
Qed.

Lemma ok_or_Ok {A E} (o : option A) (e : E) a : ok_or o e = Ok a <-> o = Some a.
Proof. destruct o; simpl; naive_solver. Qed.

Lemma is_valid_spec v presented : is_valid v presented = true <-> presented = expected v /\ presented <> EmptyString.
Proof.
  unfold is_valid. destruct (str_is_empty (expected v)) eqn:E1; simpl.
  { apply String.eqb_eq in E1. split; [done|]. intros [-> H]. congruence. }
  destruct (str_is_empty presented) eqn:E2.
  { apply String.eqb_eq in E2. naive_solver. }
  destruct (Z.eqb_spec (str_len (expected v)) (str_len presented)); simpl.
  - rewrite bool_decide_eq_true. split.
    + intros H. split; [|by intros ->]. apply (f_equal bytes_str) in H. unfold bytes_str, str_bytes in H.
      by rewrite !String.string_of_list_byte_of_string in H.
    + by intros [-> _].
  - split; [done|]. by intros [-> _].
Qed.

Lemma hex_digit_inj a b : 0 <= a < 16 -> 0 <= b < 16 -> hex_digit a = hex_digit b -> a = b.
Proof.
  intros Ha Hb. assert (forall z, 0 <= z < 16 -> z = 0 \/ z = 1 \/ z = 2 \/ z = 3 \/ z = 4 \/ z = 5 \/ z = 6 \/ z = 7 \/ z = 8 \/
    z = 9 \/ z = 10 \/ z = 11 \/ z = 12 \/ z = 13 \/ z = 14 \/ z = 15) as Hz by lia.
  pose proof (Hz a Ha) as Ca. pose proof (Hz b Hb) as Cb. clear Hz.
  repeat (destruct Ca as [->|Ca]); subst; repeat (destruct Cb as [->|Cb]); subst; by vm_compute.
Qed.

Lemma byte_nibbles b : u8_to_Z b = Z.shiftr (u8_to_Z b) 4 * 16 + Z.land (u8_to_Z b) 15.
Proof.
  change 15 with (Z.ones 4). rewrite Z.land_ones, Z.shiftr_div_pow2 by lia. change (2 ^ 4) with 16.
  pose proof (Z.div_mod (u8_to_Z b) 16). lia.
Qed.

Lemma nibble_range b : 0 <= Z.shiftr (u8_to_Z b) 4 < 16 /\ 0 <= Z.land (u8_to_Z b) 15 < 16.
Proof.
  pose proof (u8_to_Z_range b). change 15 with (Z.ones 4). rewrite Z.land_ones, Z.shiftr_div_pow2 by lia. change (2 ^ 4) with 16.
  split; [split; [apply Z.div_pos; lia|apply Z.div_lt_upper_bound; lia]|apply Z.mod_pos_bound; lia].
Qed.

Lemma hex_encode_inj l k : hex_encode l = hex_encode k -> l = k.
Proof.
  revert k. induction l as [|a l IH]; intros [|b k]; simpl; try done. intros [= H1 H2 H3].
  pose proof (nibble_range a). pose proof (nibble_range b). f_equal; [|by apply IH].
  apply (inj u8_to_Z). rewrite (byte_nibbles a), (byte_nibbles b).
  apply hex_digit_inj in H1; [|lia..]. apply hex_digit_inj in H2; [|lia..]. congruence.
Qed.

(** Every number of a value. *)
Fixpoint json_numbers (v : json) : list number :=
  match v with
  | JNumber n => [n]
  | JArray l => l ≫= json_numbers
  | JObject m => m ≫= fun kv => json_numbers kv.2
  | _ => []
  end.

(** An integer that other implementations may round. *)
Definition unsafe_integer (n : number) : Prop :=
  match n with PosInt z => JCS_MAX_SAFE_INTEGER < Z.abs z | NegInt z => JCS_MAX_SAFE_INTEGER < Z.abs z | Float _ => False end.

Definition u64_number (n : number) : Prop := match n with PosInt z => 0 <= z | _ => True end.

Lemma number_safe_spec n : u64_number n -> number_safe n = false <-> unsafe_integer n.
Proof.
  unfold number_safe, unsafe_integer. destruct n as [z|z|f]; simpl; intros Hz.
  - destruct (Z.leb_spec z i64_max); simpl; rewrite Z.leb_gt; [done|]. by rewrite Z.abs_eq by done.
  - by rewrite Z.leb_gt.
  - done.
Qed.

Lemma jcs_validate_spec v : Forall u64_number (json_numbers v) ->
  jcs_validate v = false <-> Exists unsafe_integer (json_numbers v).
Proof.
  assert (forall {A} (f : A -> bool) (g : A -> list number) l,
    Forall (fun x => Forall u64_number (g x) -> f x = false <-> Exists unsafe_integer (g x)) l ->
    Forall u64_number (l ≫= g) -> forallb f l = false <-> Exists unsafe_integer (l ≫= g)) as Hl.
  { intros A f g l Hx. induction Hx as [|x l Hx Hl IH]; simpl; intros Hn; [by rewrite Exists_nil|].
    apply Forall_app in Hn as [Hn1 Hn2]. rewrite andb_false_iff, Exists_app, Hx, IH by done. done. }
  induction v as [|b|n|s|l IH|m IH] using json_induction; simpl; intros Hn; rewrite ?Exists_nil; try done.
  - rewrite Exists_cons, Exists_nil, number_safe_spec by (by inversion Hn). tauto.
  - by apply Hl.
  - by apply (Hl _ (fun kv : string * json => jcs_validate kv.2)).
Qed.

Lemma obj_insert_twice k v w m : obj_insert k v (obj_insert k w m) = obj_insert k v m.
Proof.
  induction m as [|[n x] m IH]; simpl; [by rewrite str_compare_refl|].
  destruct (String.compare k n) eqn:E; simpl; rewrite ?str_compare_refl; [done..|]. by rewrite E, IH.
Qed.

Section theorems.
Context {json_codec : JsonCodec} {lib : SigningLib}.

Lemma canonical_plain n p t :
  utf8 n = true -> utf8 p = true -> in_u64 t ->
  json_plain JSON_RECURSION_LIMIT (mk_obj [("node_id", JString n); ("not_after", u64_json t); ("operator_pub", JString p)]) = true.
Proof.
  intros Hn Hp [H1 H2]. simpl. rewrite Hn, Hp. apply Z.leb_le in H1, H2. by rewrite H1, H2.
Qed.

Lemma canonical_bytes_inj n p t n' p' t' :
  utf8 n = true -> utf8 p = true -> in_u64 t -> utf8 n' = true -> utf8 p' = true -> in_u64 t' ->
  canonical_bytes n p t = canonical_bytes n' p' t' -> n = n' /\ p = p' /\ t = t'.
Proof.
  intros Hn Hp Ht Hn' Hp' Ht' E. apply (f_equal json_from_slice) in E. unfold canonical_bytes in E.
  rewrite !json_from_to in E by (by apply canonical_plain). by simplify_eq/=.
Qed.

(** The signature of a token covers its fields, under the operator's key. *)
Definition delegation_signed (token : Delegation) : Prop :=
  exists key sig, std_b64_decode (dg_operator_pub token) = Ok key /\ zlen key = 32 /\ ed_key_valid key = true /\
    std_b64_decode (dg_sig token) = Ok sig /\ zlen sig = 64 /\
    ed_verify key (canonical_bytes (dg_node_id token) (dg_operator_pub token) (dg_not_after token)) sig = true.

Lemma decoded_spec (s : string) n (l : list byte) :
  result_ok (std_b64_decode s) ≫= sized n = Some l <-> std_b64_decode s = Ok l /\ zlen l = n.
Proof.
  destruct (std_b64_decode s) as [x|]; simpl; [|naive_solver]. unfold sized. destruct (Z.eqb_spec (zlen x) n); naive_solver.
Qed.

Lemma verify_delegation_spec token node now :
  verify_delegation token node now = Ok tt <-> dg_node_id token = node /\ now < dg_not_after token /\ delegation_signed token.
Proof.
  unfold verify_delegation, delegation_signed.
  destruct (String.eqb_spec (dg_node_id token) node) as [->|]; simpl; [|naive_solver].
  destruct (Z.leb_spec (dg_not_after token) now); [split; [done|lia]|]. rewrite rbind_Ok. split.
  - intros (k & Hk & Hr). rewrite rbind_Ok in Hr. destruct Hr as (s & Hs & Hr).
    rewrite ok_or_Ok, decoded_spec in Hk, Hs. destruct (ed_key_valid k) eqn:Ev; simpl in Hr; [|done].
    destruct (ed_verify _ _ _) eqn:Es; [|done]. split; [done|]. split; [done|]. exists k, s. naive_solver.
  - intros (_ & _ & k & s & Hk & Hlk & Hv & Hs & Hls & Hsig). exists k. rewrite ok_or_Ok, decoded_spec. split; [done|].
    rewrite rbind_Ok. exists s. rewrite ok_or_Ok, decoded_spec, Hv, Hsig. done.
Qed.

(** ** Manifests *)

(** An object's keys are unique and in order at every level, as [BTreeMap] keeps them. *)
Fixpoint ordered (v : json) : bool :=
  match v with
  | JArray l => forallb ordered l
  | JObject m => keys_sorted m.*1 && forallb (fun kv => ordered kv.2) m
  | _ => true
  end.

Lemma insert_front k v m : keys_sorted (k :: m.*1) = true -> obj_insert k v m = (k, v) :: m.
Proof.
  destruct m as [|[n x] m]; simpl; [done|]. rewrite andb_true_iff. intros [H _]. unfold String.ltb in H.
  by destruct (String.compare k n).
Qed.

Lemma sorted_ordered v : ordered v = true -> sorted v = v.
Proof.
  induction v as [|b|n|s|l IH|m IH] using json_induction; try done.
  - intros H. change (JArray (sorted <$> l) = JArray l). f_equal. change (forallb ordered l = true) in H.
    induction IH as [|x l Hx Hl IHl]; [done|]. cbn [forallb] in H. apply andb_true_iff in H as [H1 H2].
    rewrite fmap_cons. by rewrite Hx, IHl.
  - intros [Hk H]%andb_true_iff.
    change (JObject (foldr (fun kv acc => obj_insert kv.1 kv.2 acc) [] ((fun kv => (kv.1, sorted kv.2)) <$> m)) = JObject m).
    f_equal. change (forallb (fun kv => ordered kv.2) m = true) in H. revert Hk.
    induction IH as [|[k x] m Hx Hl IHm]; [done|]. cbn [forallb snd] in *. intros Hk. apply andb_true_iff in H as [H1 H2].
    assert (keys_sorted m.*1 = true) as Hm by (destruct m as [|[? ?] ?]; simpl in *; [done|]; by apply andb_true_iff in Hk as [_ ?]).
    rewrite fmap_cons. cbn [foldr fst snd]. rewrite Hx, IHm by done. by apply insert_front.
Qed.

Lemma obj_get_remove_ne k k' m : k <> k' -> obj_get (obj_remove k m) k' = obj_get m k'.
Proof.
  intros Hne. induction m as [|[n w] m IH]; simpl; [done|]. destruct (String.eqb_spec n k) as [->|]; simpl.
  - destruct (String.eqb_spec k k'); [done|]. exact IH.
  - destruct (n ==? k'); [done|]. exact IH.
Qed.

Lemma without_detached_get m k : k <> "signature" -> obj_get (without_detached m) k = obj_get m k.
Proof.
  intros Hk. unfold without_detached.
  destruct (obj_get m "signature") as [[]|]; rewrite ?obj_get_insert, ?obj_get_remove_ne by done; try done.
  by destruct (String.eqb_spec "signature" k).
Qed.

(** Two manifests that may be exchanged under one signature. *)
Definition manifest_agrees (m m' : list (string * json)) : Prop :=
  (forall k, k <> "signature" -> obj_get m k = obj_get m' k) /\
  forall k, k <> "signature" -> jget (default JNull (obj_get m "signature")) k = jget (default JNull (obj_get m' "signature")) k.

Lemma without_detached_agrees m m' :
  is_some (obj_get m "signature" ≫= as_object) = true -> without_detached m = without_detached m' -> manifest_agrees m m'.
Proof.
  intros Ho E. split.
  - intros k Hk. by rewrite <- (without_detached_get m), <- (without_detached_get m'), E.
  - intros k Hk. pose proof (f_equal (fun x => obj_get x "signature") E) as Es. simpl in Es. unfold without_detached in Es.
    destruct (obj_get m "signature") as [[]|]; try done. rewrite obj_get_insert in Es. simpl in Es.
    destruct (obj_get m' "signature") as [[]|]; rewrite ?obj_get_remove in Es; try done.
    rewrite obj_get_insert in Es. simplify_eq/=. unfold jget. simpl.
    rewrite <- (obj_get_remove_ne "signature" k m0), <- (obj_get_remove_ne "signature" k m1) by done. congruence.
Qed.

Lemma canonical_manifest_inj m m' c :
  ordered (JObject (without_detached m)) = true -> json_plain JSON_RECURSION_LIMIT (JObject (without_detached m)) = true ->
  ordered (JObject (without_detached m')) = true -> json_plain JSON_RECURSION_LIMIT (JObject (without_detached m')) = true ->
  canonical_policy_manifest (JObject m) = Ok c -> canonical_policy_manifest (JObject m') = Ok c ->
  without_detached m = without_detached m'.
Proof.
  intros Ho Hp Ho' Hp' E E'. unfold canonical_policy_manifest in *. rewrite sorted_ordered in E, E' by done.
  assert (json_from_slice (json_to_vec (JObject (without_detached m))) = json_from_slice (json_to_vec (JObject (without_detached m'))))
    as Ej by congruence. rewrite !json_from_to in Ej by done. by simplify_eq.
Qed.

Lemma sign_manifest_shape rfc3339 file operator seed instant signed :
  sign_policy_manifest rfc3339 file operator seed instant = Ok signed ->
  exists bytes m block c, file = Ok bytes /\ json_from_slice bytes = Ok (JObject m) /\
    std_b64_decode operator = Ok (ed_public seed) /\ obj_get block "public_key" = Some (JString operator) /\
    obj_get block "algorithm" = Some (JString "Ed25519") /\
    signed = JObject (obj_insert "signature" (JObject (obj_insert "signature" (JString (std_b64_encode (ed_sign seed c))) block))
               (obj_remove "signature" m)) /\ canonical_policy_manifest signed = Ok c.
Proof.
  unfold sign_policy_manifest. destruct file as [bytes|]; [|done]. cbn [map_err rbind].
  destruct (json_from_slice bytes) as [v|] eqn:Ej; [|done]. cbn [map_err rbind]. destruct v as [| | | | |m]; try done.
  destruct (std_b64_decode operator) as [pk|] eqn:Ed; [|done]. case_bool_decide as Epk; cbn [negb]; [subst pk|done].
  match goal with |- context [obj_of_list ?l] => remember (obj_of_list l) as block eqn:Eb end.
  intros (c & Hc & [= <-])%rbind_Ok. exists bytes, m, block, c. do 3 (split; [done|]).
  split; [by rewrite Eb|]. split; [by rewrite Eb|]. rewrite obj_insert_twice. split; [done|].
  rewrite <- Hc. unfold canonical_policy_manifest, without_detached. rewrite !obj_get_insert, String.eqb_refl, !obj_insert_twice.
  do 5 f_equal. by rewrite Eb.
Qed.
End theorems.

(** ** Properties *)

(** C30: a delegation is accepted exactly for its own node, before its expiry,
    with a signature by the key it names over its canonical text; that text
    determines node, expiry and key, so no signature can be moved to another
    delegation; and what the operator issues is accepted until it expires. *)
Theorem delegation_bound {json_codec : JsonCodec} {lib : SigningLib} :
  (forall token node now, verify_delegation token node now = Ok tt <->
     dg_node_id token = node /\ now < dg_not_after token /\ delegation_signed token) /\
  (forall n p t n' p' t', utf8 n = true -> utf8 p = true -> in_u64 t -> utf8 n' = true -> utf8 p' = true -> in_u64 t' ->
     canonical_bytes n p t = canonical_bytes n' p' t' -> n = n' /\ p = p' /\ t = t') /\
  (forall seed node ttl issued now, length seed = 32%nat -> now < u64_add issued ttl ->
     verify_delegation (issue_delegation seed node ttl issued) node now = Ok tt).
Proof.
  split; [|split].
  - apply verify_delegation_spec.
  - intros. by apply canonical_bytes_inj.
  - intros seed node ttl issued now Hs Hn. apply verify_delegation_spec. split; [done|]. split; [done|].
    eexists (ed_public seed), (ed_sign seed _). simpl. unfold operator_pub_b64. rewrite !std_decode_encode. unfold zlen.
    rewrite ed_public_length, ed_public_valid, ed_sign_length by done. repeat (split; [done|]). by apply ed_verify_sign.
Qed.

(** A signed policy manifest verifies, and cannot be changed.  It carries
    the file's fields; its canonical text is what the operator's key signed, and
    any manifest with the same canonical text (of values the JSON library reads
    back) agrees with it on every field and on the signature block, the
    detached signature itself excepted. *)
Theorem policy_manifest_binding {json_codec : JsonCodec} {lib : SigningLib} rfc3339 file operator seed instant signed :
  sign_policy_manifest rfc3339 file operator seed instant = Ok signed -> length seed = 32%nat ->
  exists bytes m sm canonical sig, file = Ok bytes /\ json_from_slice bytes = Ok (JObject m) /\ signed = JObject sm /\
    (forall k, k <> "signature" -> obj_get sm k = obj_get m k) /\
    canonical_policy_manifest signed = Ok canonical /\ std_b64_decode operator = Ok (ed_public seed) /\
    jget signed "signature" ≫= (fun b => get_str b "signature") = Some (std_b64_encode sig) /\
    ed_verify (ed_public seed) canonical sig = true /\
    forall m', canonical_policy_manifest (JObject m') = Ok canonical ->
      ordered (JObject (without_detached sm)) = true -> json_plain JSON_RECURSION_LIMIT (JObject (without_detached sm)) = true ->
      ordered (JObject (without_detached m')) = true -> json_plain JSON_RECURSION_LIMIT (JObject (without_detached m')) = true ->
      manifest_agrees sm m'.
Proof.
  intros Hs Hl. destruct (sign_manifest_shape _ _ _ _ _ _ Hs) as (bytes & m & block & c & -> & Hj & Hd & _ & _ & -> & Hc).
  eexists bytes, m, _, c, (ed_sign seed c). split; [done|]. split; [done|]. split; [done|]. split; [|split; [done|split; [done|split; [|split]]]].
  - intros k Hk. rewrite obj_get_insert, obj_get_remove_ne by done. by destruct (String.eqb_spec "signature" k).
  - unfold jget, get_str. simpl. rewrite obj_get_insert. simpl. unfold jget. simpl. by rewrite obj_get_insert.
  - by apply ed_verify_sign.
  - intros m' Hc' Ho Hp Ho' Hp'. apply without_detached_agrees; [by rewrite obj_get_insert|].
    by apply (canonical_manifest_inj _ _ c).
Qed.

(** ** A concrete library *)

Definition toy_sign (seed m : list byte) : list byte := seed ++ resize 32 x00 m.
Lemma toy_sign_length seed m : length seed = 32%nat -> length (toy_sign seed m) = 64%nat.
Proof. intros H. unfold toy_sign. by rewrite length_app, H, length_resize. Qed.
Lemma toy_length m : length (resize 32 x00 m) = 32%nat.
Proof. apply length_resize. Qed.
Lemma toy_verify_sign seed m : bool_decide (toy_sign seed m = toy_sign seed m) = true.
Proof. by apply bool_decide_eq_true. Qed.

Definition toy_signing : SigningLib := {|
  hmac_sha256 _ m := resize 32 x00 m;
  std_b64_decode s := Ok (str_bytes s);
  std_b64_encode := bytes_str;
  ed_public s := s;
  ed_sign := toy_sign;
  ed_key_valid _ := true;
  ed_verify k m sig := bool_decide (sig = toy_sign k m);
  sha256 := resize 32 x00;
  hmac_length _ m := toy_length m;
  std_decode_encode l := f_equal Ok (str_bytes_str l);
  ed_public_length s H := H;
  ed_public_valid _ _ := eq_refl;
  ed_sign_length := toy_sign_length;
  ed_verify_sign s m _ := toy_verify_sign s m
|}.
Definition toy_seed : list byte := repeat x07 32.

Lemma delegation_bound_witness :
  verify_delegation (lib:=toy_signing) (json_codec:=model_json_codec)
    (issue_delegation (lib:=toy_signing) (json_codec:=model_json_codec) toy_seed "node" 60 1000) "node" 1059 = Ok tt.
Proof.
  apply (proj2 (proj2 (delegation_bound (json_codec:=model_json_codec) (lib:=toy_signing)))); vm_compute; reflexivity.
Defined.

Definition demo_manifest : list byte := json_to_vec (mk_obj [("retention", JString "none"); ("version", u64_json 1)]).
Definition demo_signed : result json string :=
  sign_policy_manifest (lib:=toy_signing) pretty (Ok demo_manifest) (bytes_str toy_seed) toy_seed 1000.
Definition demo_signed_manifest : json := default JNull (result_ok demo_signed).
Lemma demo_signed_ok : demo_signed = Ok demo_signed_manifest.
Proof. vm_compute. reflexivity. Qed.

Lemma policy_manifest_binding_witness :
  get_str demo_signed_manifest "retention" = Some "none" /\
  exists canonical sig, canonical_policy_manifest demo_signed_manifest = Ok canonical /\
    ed_verify (SigningLib:=toy_signing) toy_seed canonical sig = true.
Proof.
  split; [vm_compute; reflexivity|].
  destruct (policy_manifest_binding (lib:=toy_signing) pretty (Ok demo_manifest) (bytes_str toy_seed) toy_seed 1000
    demo_signed_manifest demo_signed_ok eq_refl) as (b & m & sm & c & sig & _ & _ & _ & _ & Hc & _ & _ & Hv & _).
  exists c, sig. split; [exact Hc|exact Hv].
Defined.
