(* ===== verification/Membership.v ===== *)
(** * Restricted trust domains ([src/restricted_membership.rs])

    Membership assertions signed by the authority of a domain, gossip proofs
    signed by the member they name, and their verification. *)

From S2P Require Import Prelude Text Json DispatchTicket Signing.

(** ** Data *)

Definition MEMBERSHIP_SCHEMA : string := "iicp.restricted-trust-domain.membership-assertion.v0".
Definition RESTRICTED_PROFILE : string := "urn:iicp:profile:restricted-trust-domain:v1".
Definition MEMBERSHIP_DOMAIN : list byte := str_bytes "IICP-RTD-MEMBERSHIP-V0" ++ [x0a].
Definition GOSSIP_DOMAIN : list byte := str_bytes "IICP-RTD-GOSSIP-V0" ++ [x0a].

Record MembershipSubject := mkSubject {
  sub_kind : string;
  sub_id : string;
  sub_key_id : string;
  sub_public_key_ed25519 : string
}.
Record MembershipIssuer := mkIssuer { iss_id : string; iss_key_id : string }.
Record MembershipAssertion := mkAssertion {
  as_schema : string;
  as_profile : string;
  as_assertion_id : string;
  as_domain_id : string;
  as_subject : MembershipSubject;
  as_issuer : MembershipIssuer;
  as_issued_at : Z;
  as_expires_at : Z;
  as_generation : Z;
  as_scopes : list string;
  as_audience : list string
}.
Record DetachedSignature := mkDetached { ds_algorithm : string; ds_key_id : option string; ds_value : string }.
Record MembershipEnvelope := mkMembership { me_assertion : MembershipAssertion; me_signature : DetachedSignature }.
Record GossipProof := mkProof {
  gp_sender_id : string;
  gp_domain_id : string;
  gp_sent_at : Z;
  gp_replay_id : string;
  gp_payload_sha256 : string;
  gp_membership_assertion_id : string
}.
Record GossipEnvelope := mkGossip { ge_proof : GossipProof; ge_signature : DetachedSignature }.
Record MembershipPolicy := mkMembershipPolicy {
  mp_domain_id : string;
  mp_authority_id : string;
  mp_authority_key_id : string;
  mp_authority_public_key_ed25519 : string;
  mp_minimum_generation : Z;
  mp_maximum_clock_skew_seconds : Z
}.
Record RestrictedPeerBundle := mkPeerBundle {
  pb_policy : MembershipPolicy;
  pb_membership : MembershipEnvelope;
  pb_signing_seed_ed25519 : string;
  pb_directory_membership_bearer : string
}.

Global Instance detached_eq_dec : EqDecision DetachedSignature.
Proof. solve_decision. Defined.
Global Instance assertion_eq_dec : EqDecision MembershipAssertion.
Proof. intros a b. unfold Decision. repeat (decide equality || apply Z.eq_dec || apply string_eq_dec). Defined.
Global Instance proof_eq_dec : EqDecision GossipProof.
Proof. solve_decision. Defined.
Global Instance membership_eq_dec : EqDecision MembershipEnvelope.
Proof. solve_decision. Defined.
Global Instance gossip_eq_dec : EqDecision GossipEnvelope.
Proof. solve_decision. Defined.

Inductive MembershipRefusal :=
| MalformedEvidence | UnsupportedEvidence | InvalidAuthority | InvalidSignature | WrongDomain | WrongSubject
| Expired | NotYetValid | RevokedGeneration | MissingScope | InvalidPayloadBinding | ReplayDetected
| ReplayCapacity | StaleGossip | MissingDirectoryCredential.
Global Instance refusal_eq_dec : EqDecision MembershipRefusal.
Proof. solve_decision. Defined.

Definition refusal_code (r : MembershipRefusal) : string :=
  match r with
  | MalformedEvidence => "membership_malformed"
  | UnsupportedEvidence => "membership_unsupported"
  | InvalidAuthority => "membership_authority_invalid"
  | InvalidSignature => "membership_signature_invalid"
  | WrongDomain => "membership_domain_mismatch"
  | WrongSubject => "membership_subject_mismatch"
  | Expired => "membership_expired"
  | NotYetValid => "membership_not_yet_valid"
  | RevokedGeneration => "membership_generation_revoked"
  | MissingScope => "membership_scope_missing"
  | InvalidPayloadBinding => "gossip_payload_mismatch"
  | ReplayDetected => "gossip_replay"
  | ReplayCapacity => "gossip_replay_capacity"
  | StaleGossip => "gossip_stale"
  | MissingDirectoryCredential => "directory_membership_missing"
  end.

(** ** The derived [Serialize] implementations *)

Definition strings_value (l : list string) : json := JArray (JString <$> l).
Definition subject_value (s : MembershipSubject) : json :=
  mk_obj [("kind", JString (sub_kind s)); ("id", JString (sub_id s)); ("key_id", JString (sub_key_id s));
          ("public_key_ed25519", JString (sub_public_key_ed25519 s))].
Definition assertion_value (a : MembershipAssertion) : json :=
  mk_obj [("schema", JString (as_schema a)); ("profile", JString (as_profile a));
          ("assertion_id", JString (as_assertion_id a)); ("domain_id", JString (as_domain_id a));
          ("subject", subject_value (as_subject a));
          ("issuer", mk_obj [("id", JString (iss_id (as_issuer a))); ("key_id", JString (iss_key_id (as_issuer a)))]);
          ("issued_at", u64_json (as_issued_at a)); ("expires_at", u64_json (as_expires_at a));
          ("generation", u64_json (as_generation a)); ("scopes", strings_value (as_scopes a));
          ("audience", strings_value (as_audience a))].
Definition signature_value (s : DetachedSignature) : json :=
  mk_obj ([("algorithm", JString (ds_algorithm s))]
          ++ match ds_key_id s with Some k => [("key_id", JString k)] | None => [] end
          ++ [("value", JString (ds_value s))]).
Definition membership_value (e : MembershipEnvelope) : json :=
  mk_obj [("assertion", assertion_value (me_assertion e)); ("signature", signature_value (me_signature e))].
Definition proof_value (p : GossipProof) : json :=
  mk_obj [("sender_id", JString (gp_sender_id p)); ("domain_id", JString (gp_domain_id p));
          ("sent_at", u64_json (gp_sent_at p)); ("replay_id", JString (gp_replay_id p));
          ("payload_sha256", JString (gp_payload_sha256 p));
          ("membership_assertion_id", JString (gp_membership_assertion_id p))].
Definition gossip_value (g : GossipEnvelope) : json :=
  mk_obj [("proof", proof_value (ge_proof g)); ("signature", signature_value (ge_signature g))].

(** ** The libraries

    Ed25519 ([sd_key_valid] is [VerifyingKey::from_bytes]), SHA-256, base64,
    RFC 8785 text, UUID syntax and the derived [Deserialize]. *)
Class SignedDomain := {
  sd_b64_decode : string -> option (list byte);
  sd_b64_encode : list byte -> string;
  sd_public : list byte -> list byte;
  sd_sign : list byte -> list byte -> list byte;
  sd_key_valid : list byte -> bool;
  sd_verify : list byte -> list byte -> list byte -> bool;
  sd_sha256_hex : list byte -> string;
  sd_jcs : json -> option (list byte);
  sd_uuid : string -> bool;
  membership_from_value : json -> option MembershipEnvelope;
  gossip_from_value : json -> option GossipEnvelope;
  sd_decode_encode : forall l, sd_b64_decode (sd_b64_encode l) = Some l;
  sd_public_length : forall s, length s = 32%nat -> length (sd_public s) = 32%nat;
  sd_public_valid : forall s, length s = 32%nat -> sd_key_valid (sd_public s) = true;
  sd_sign_length : forall s m, length s = 32%nat -> length (sd_sign s m) = 64%nat;
  sd_verify_sign : forall s m, length s = 32%nat -> sd_verify (sd_public s) m (sd_sign s m) = true;
  membership_from_to : forall e, membership_from_value (membership_value e) = Some e;
  gossip_from_to : forall g, gossip_from_value (gossip_value g) = Some g
}.

Section membership.
Context {lib : SignedDomain}.

(** ** [verify_membership] *)

Definition refuse_if (b : bool) (r : MembershipRefusal) : result unit MembershipRefusal := if b then Err r else Ok tt.
Notation "'check' b 'else' r ; k" := (rbind (refuse_if b r) (fun _ => k))
  (at level 200, b at level 100, r at level 100, k at level 200) : iicp_scope.

Definition blank (s : string) : bool := str_is_empty (trim s).

Definition validate_membership_issuer (a : MembershipAssertion) : result unit MembershipRefusal :=
  refuse_if (blank (iss_id (as_issuer a)) || blank (iss_key_id (as_issuer a))) MalformedEvidence.
Definition validate_membership_collections (a : MembershipAssertion) : result unit MembershipRefusal :=
  let? _ := validate_membership_issuer a in
  refuse_if (bool_decide (as_audience a = []) || bool_decide (as_scopes a = []) || (as_expires_at a <=? as_issued_at a))
    MalformedEvidence.
Definition validate_membership_shape (a : MembershipAssertion) : result unit MembershipRefusal :=
  check negb (sd_uuid (as_assertion_id a)) || blank (as_domain_id a) || blank (sub_id (as_subject a))
        || blank (sub_key_id (as_subject a)) else MalformedEvidence;
  validate_membership_collections a.
Definition validate_membership_format (e : MembershipEnvelope) : result unit MembershipRefusal :=
  refuse_if ((as_schema (me_assertion e) <>? MEMBERSHIP_SCHEMA) || (as_profile (me_assertion e) <>? RESTRICTED_PROFILE)
             || (ds_algorithm (me_signature e) <>? "Ed25519")) UnsupportedEvidence.
Definition validate_membership_authority (a : MembershipAssertion) (p : MembershipPolicy) : result unit MembershipRefusal :=
  check (iss_id (as_issuer a) <>? mp_authority_id p) || (iss_key_id (as_issuer a) <>? mp_authority_key_id p)
    else InvalidAuthority;
  refuse_if ((as_domain_id a <>? mp_domain_id p) || negb (str_in (mp_domain_id p) (as_audience a))) WrongDomain.
Definition validate_membership_identity (e : MembershipEnvelope) (p : MembershipPolicy) (expected_subject : string)
    : result unit MembershipRefusal :=
  let? _ := validate_membership_format e in
  let? _ := validate_membership_authority (me_assertion e) p in
  refuse_if ((sub_kind (as_subject (me_assertion e)) <>? "node")
             || (sub_id (as_subject (me_assertion e)) <>? expected_subject)) WrongSubject.
Definition validate_membership_time (a : MembershipAssertion) (p : MembershipPolicy) (now : Z) : result unit MembershipRefusal :=
  check u64_sat_add now (mp_maximum_clock_skew_seconds p) <? as_issued_at a else NotYetValid;
  refuse_if (as_expires_at a <=? now) Expired.
Definition validate_membership_generation (a : MembershipAssertion) (p : MembershipPolicy) : result unit MembershipRefusal :=
  refuse_if (as_generation a <? mp_minimum_generation p) RevokedGeneration.
Definition validate_membership_lifecycle (a : MembershipAssertion) (p : MembershipPolicy) (required_scope : string) (now : Z)
    : result unit MembershipRefusal :=
  let? _ := validate_membership_time a p now in
  let? _ := validate_membership_generation a p in
  refuse_if (negb (str_in required_scope (as_scopes a))) MissingScope.

Definition verifying_key (value : string) : result (list byte) MembershipRefusal :=
  let? raw := ok_or (sd_b64_decode value ≫= sized 32) MalformedEvidence in
  if sd_key_valid raw then Ok raw else Err MalformedEvidence.
Definition signature_of (value : string) : result (list byte) MembershipRefusal :=
  ok_or (sd_b64_decode value ≫= sized 64) MalformedEvidence.

(** A signature over a domain prefix and the canonical text. *)
Definition verify_signed (domain : list byte) (key value : string) (v : json) : result unit MembershipRefusal :=
  let? key := verifying_key key in
  let? sig := signature_of value in
  let? canonical := ok_or (sd_jcs v) MalformedEvidence in
  refuse_if (negb (sd_verify key (domain ++ canonical) sig)) InvalidSignature.

Definition verify_membership_signature (e : MembershipEnvelope) (p : MembershipPolicy) : result unit MembershipRefusal :=
  verify_signed MEMBERSHIP_DOMAIN (mp_authority_public_key_ed25519 p) (ds_value (me_signature e))
    (assertion_value (me_assertion e)).

Definition verify_membership (e : MembershipEnvelope) (p : MembershipPolicy) (expected_subject required_scope : string) (now : Z)
    : result unit MembershipRefusal :=
  let? _ := validate_membership_shape (me_assertion e) in
  let? _ := validate_membership_identity e p expected_subject in
  let? _ := validate_membership_lifecycle (me_assertion e) p required_scope now in
  verify_membership_signature e p.

(** ** Gossip *)

Definition validate_gossip_format (g : GossipEnvelope) (m : MembershipEnvelope) : result unit MembershipRefusal :=
  refuse_if ((ds_algorithm (ge_signature g) <>? "Ed25519")
             || negb (bool_decide (ds_key_id (ge_signature g) = Some (sub_key_id (as_subject (me_assertion m))))))
    UnsupportedEvidence.
Definition validate_gossip_binding (g : GossipEnvelope) (m : MembershipEnvelope) (p : MembershipPolicy)
    : result unit MembershipRefusal :=
  check gp_domain_id (ge_proof g) <>? mp_domain_id p else WrongDomain;
  refuse_if (gp_membership_assertion_id (ge_proof g) <>? as_assertion_id (me_assertion m)) WrongSubject.
Definition validate_gossip_identity (g : GossipEnvelope) (m : MembershipEnvelope) (p : MembershipPolicy) (replay_seen : bool)
    : result unit MembershipRefusal :=
  check negb (sd_uuid (gp_replay_id (ge_proof g))) else MalformedEvidence;
  let? _ := validate_gossip_format g m in
  let? _ := validate_gossip_binding g m p in
  refuse_if replay_seen ReplayDetected.
Definition validate_gossip_freshness_and_payload (g : GossipEnvelope) (p : MembershipPolicy) (payload : list byte) (now : Z)
    : result unit MembershipRefusal :=
  check (u64_sat_add now (mp_maximum_clock_skew_seconds p) <? gp_sent_at (ge_proof g))
        || (mp_maximum_clock_skew_seconds p <? u64_sat_sub now (gp_sent_at (ge_proof g))) else StaleGossip;
  refuse_if (sd_sha256_hex payload <>? gp_payload_sha256 (ge_proof g)) InvalidPayloadBinding.
Definition verify_gossip_signature (g : GossipEnvelope) (m : MembershipEnvelope) : result unit MembershipRefusal :=
  verify_signed GOSSIP_DOMAIN (sub_public_key_ed25519 (as_subject (me_assertion m))) (ds_value (ge_signature g))
    (proof_value (ge_proof g)).

Definition verify_gossip (g : GossipEnvelope) (m : MembershipEnvelope) (p : MembershipPolicy) (payload : list byte) (now : Z)
    (replay_seen : bool) : result unit MembershipRefusal :=
  let? _ := verify_membership m p (gp_sender_id (ge_proof g)) "peers" now in
  let? _ := validate_gossip_identity g m p replay_seen in
  let? _ := validate_gossip_freshness_and_payload g p payload now in
  verify_gossip_signature g m.

Definition sign_gossip (m : MembershipEnvelope) (seed : list byte) (domain_id : string) (payload : list byte) (sent_at : Z)
    (replay_id : string) : result GossipEnvelope MembershipRefusal :=
  if sd_b64_encode (sd_public seed) <>? sub_public_key_ed25519 (as_subject (me_assertion m)) then Err WrongSubject
  else
    let proof := mkProof (sub_id (as_subject (me_assertion m))) domain_id sent_at replay_id (sd_sha256_hex payload)
                   (as_assertion_id (me_assertion m)) in
    let? canonical := ok_or (sd_jcs (proof_value proof)) MalformedEvidence in
    Ok (mkGossip proof (mkDetached "Ed25519" (Some (sub_key_id (as_subject (me_assertion m))))
                          (sd_b64_encode (sd_sign seed (GOSSIP_DOMAIN ++ canonical))))).

(** ** A peer's own identity *)

Definition signing_seed (value expected_public_key : string) : result (list byte) MembershipRefusal :=
  let? seed := ok_or (sd_b64_decode value ≫= sized 32) MalformedEvidence in
  if sd_b64_encode (sd_public seed) <>? expected_public_key then Err WrongSubject else Ok seed.
End membership.

(** ** Acceptance *)

Section acceptance.
Context {lib : SignedDomain}.

(** [text] is a signature of [v] under [key_text] in the given domain. *)
Definition signed_under (domain : list byte) (key_text text : string) (v : json) : Prop :=
  exists key sig canonical, sd_b64_decode key_text = Some key /\ zlen key = 32 /\ sd_key_valid key = true /\
    sd_b64_decode text = Some sig /\ zlen sig = 64 /\ sd_jcs v = Some canonical /\
    sd_verify key (domain ++ canonical) sig = true.

(** What the rules of the domain demand of an assertion. *)
Record member_admissible (e : MembershipEnvelope) (p : MembershipPolicy) (subject scope : string) (now : Z) : Prop := {
  ma_uuid : sd_uuid (as_assertion_id (me_assertion e)) = true;
  ma_named : Forall (fun s => blank s = false)
    [as_domain_id (me_assertion e); sub_id (as_subject (me_assertion e)); sub_key_id (as_subject (me_assertion e));
     iss_id (as_issuer (me_assertion e)); iss_key_id (as_issuer (me_assertion e))];
  ma_period : as_issued_at (me_assertion e) < as_expires_at (me_assertion e);
  ma_format : as_schema (me_assertion e) = MEMBERSHIP_SCHEMA /\ as_profile (me_assertion e) = RESTRICTED_PROFILE /\
    ds_algorithm (me_signature e) = "Ed25519";
  ma_issuer : iss_id (as_issuer (me_assertion e)) = mp_authority_id p /\
    iss_key_id (as_issuer (me_assertion e)) = mp_authority_key_id p;
  ma_domain : as_domain_id (me_assertion e) = mp_domain_id p /\ mp_domain_id p ∈ as_audience (me_assertion e);
  ma_subject : sub_kind (as_subject (me_assertion e)) = "node" /\ sub_id (as_subject (me_assertion e)) = subject;
  ma_time : as_issued_at (me_assertion e) <= u64_sat_add now (mp_maximum_clock_skew_seconds p) /\
    now < as_expires_at (me_assertion e);
  ma_generation : mp_minimum_generation p <= as_generation (me_assertion e);
  ma_scope : scope ∈ as_scopes (me_assertion e);
  ma_signed : signed_under MEMBERSHIP_DOMAIN (mp_authority_public_key_ed25519 p) (ds_value (me_signature e))
    (assertion_value (me_assertion e))
}.

Lemma refuse_if_Ok b r : refuse_if b r = Ok tt <-> b = false.
Proof. by destruct b. Qed.

Lemma verify_signed_spec domain key text v : verify_signed domain key text v = Ok tt <-> signed_under domain key text v.
Proof.
  unfold verify_signed, verifying_key, signature_of, signed_under. rewrite !rbind_Ok. split.
  - intros (k & Hk & H). rewrite rbind_Ok in H. destruct H as (sig & Hs & H). rewrite rbind_Ok in H.
    destruct H as (c & Hc & H). rewrite rbind_Ok in Hk. destruct Hk as (raw & Hraw & Hk).
    rewrite ok_or_Ok, sized_spec in Hraw, Hs. rewrite ok_or_Ok in Hc. rewrite refuse_if_Ok, negb_false_iff in H.
    destruct (sd_key_valid raw) eqn:Ev; [|done]. simplify_eq. exists k, sig, c. naive_solver.
  - intros (k & sig & c & Hk & Hl & Hv & Hs & Hls & Hc & H). exists k. split.
    + rewrite rbind_Ok. exists k. rewrite ok_or_Ok, sized_spec, Hv. done.
    + rewrite rbind_Ok. exists sig. rewrite ok_or_Ok, sized_spec. split; [done|]. rewrite rbind_Ok.
      exists c. rewrite ok_or_Ok. split; [done|]. by rewrite refuse_if_Ok, H.
Qed.

Lemma verify_membership_spec e p subject scope now :
  verify_membership e p subject scope now = Ok tt <-> member_admissible e p subject scope now.
Proof.
  unfold verify_membership, validate_membership_shape, validate_membership_collections, validate_membership_issuer,
    validate_membership_identity, validate_membership_format, validate_membership_authority, validate_membership_lifecycle,
    validate_membership_time, validate_membership_generation, verify_membership_signature.
  rewrite !rbind_unit, !refuse_if_Ok, verify_signed_spec, !orb_false_iff, !negb_false_iff, !Z.leb_gt, !Z.ltb_ge, !str_in_elem,
    !String.eqb_eq, !bool_decide_eq_false.
  split.
  - intros H. destruct_and!. constructor; try by repeat constructor.
  - intros [? Hn ? ? ? [? Ha] ? ? ? Hs ?]. rewrite !Forall_cons in Hn. destruct_and!. split_and!; try done.
    + intros E. rewrite E in Ha. by apply elem_of_nil in Ha.
    + intros E. rewrite E in Hs. by apply elem_of_nil in Hs.
Qed.

(** What the rules demand of a gossip message. *)
Record gossip_admissible (g : GossipEnvelope) (m : MembershipEnvelope) (p : MembershipPolicy) (payload : list byte) (now : Z)
    (replay_seen : bool) : Prop := {
  ga_member : member_admissible m p (gp_sender_id (ge_proof g)) "peers" now;
  ga_uuid : sd_uuid (gp_replay_id (ge_proof g)) = true;
  ga_format : ds_algorithm (ge_signature g) = "Ed25519" /\
    ds_key_id (ge_signature g) = Some (sub_key_id (as_subject (me_assertion m)));
  ga_binding : gp_domain_id (ge_proof g) = mp_domain_id p /\
    gp_membership_assertion_id (ge_proof g) = as_assertion_id (me_assertion m);
  ga_new : replay_seen = false;
  ga_fresh : gp_sent_at (ge_proof g) <= u64_sat_add now (mp_maximum_clock_skew_seconds p) /\
    u64_sat_sub now (gp_sent_at (ge_proof g)) <= mp_maximum_clock_skew_seconds p;
  ga_payload : gp_payload_sha256 (ge_proof g) = sd_sha256_hex payload;
  ga_signed : signed_under GOSSIP_DOMAIN (sub_public_key_ed25519 (as_subject (me_assertion m))) (ds_value (ge_signature g))
    (proof_value (ge_proof g))
}.

Lemma verify_gossip_spec g m p payload now seen :
  verify_gossip g m p payload now seen = Ok tt <-> gossip_admissible g m p payload now seen.
Proof.
  unfold verify_gossip, validate_gossip_identity, validate_gossip_format, validate_gossip_binding,
    validate_gossip_freshness_and_payload, verify_gossip_signature.
  rewrite !rbind_unit, !refuse_if_Ok, verify_membership_spec, verify_signed_spec, !orb_false_iff, !negb_false_iff, !Z.ltb_ge,
    !String.eqb_eq, !bool_decide_eq_true.
  split.
  - intros H. destruct_and!. by constructor.
  - intros [? ? ? ? ? ? ? ?]. destruct_and!. by split_and!.
Qed.

(** A signed message, and who can accept it. *)
Lemma sign_gossip_admissible m p seed payload sent rid g now :
  length seed = 32%nat -> sign_gossip m seed (mp_domain_id p) payload sent rid = Ok g ->
  member_admissible m p (sub_id (as_subject (me_assertion m))) "peers" now -> sd_uuid rid = true ->
  sent <= u64_sat_add now (mp_maximum_clock_skew_seconds p) -> u64_sat_sub now sent <= mp_maximum_clock_skew_seconds p ->
  gossip_admissible g m p payload now false.
Proof.
  intros Hl Hg Hm Hu Hs1 Hs2. unfold sign_gossip in Hg.
  destruct (_ <>? _) eqn:Ek; [done|]. apply negb_false_iff, String.eqb_eq in Ek.
  apply rbind_Ok in Hg as (c & Hc & [= <-]). apply ok_or_Ok in Hc. constructor; simpl; try done.
  exists (sd_public seed), (sd_sign seed (GOSSIP_DOMAIN ++ c)), c. rewrite <- Ek, !sd_decode_encode. unfold zlen.
  rewrite sd_public_length, sd_sign_length, sd_public_valid, sd_verify_sign by done. done.
Qed.
End acceptance.
