(* ===== verification/PeerManager.v ===== *)
(** * The mesh layer ([src/peer_manager.rs], the mesh endpoints of [src/node.rs])

    The table of peers, admission of advertised peers, gossip exchanges and
    relay election.  Handlers and the gossip task share the table: all of it
    are programs whose actions are the critical sections of the source. *)

From S2P Require Import Prelude Program Concurrent Text Json Cbor HttpResource ClientTypes ClientEffects ConsumerToken Signing Membership.

(** ** Data *)

Definition PEER_EXPIRY : Z := 90 * 10 ^ 9.
Definition MAX_REPLAY_IDS : Z := 4096.

Record PeerInfo := mkPeer {
  pi_node_id : string;
  pi_endpoint : string;
  pi_region : string;
  pi_last_seen : string;
  pi_last_contact : Z;
  pi_relay_capable : bool;
  pi_relay_accept_port : Z;
  pi_relay_load : f64;
  pi_trust_domain_id : option string;
  pi_membership_generation : option Z;
  pi_membership_expires_at : option Z;
  pi_membership : option MembershipEnvelope
}.

Record ElectedRelay := mkElected { el_peer : PeerInfo; el_host : string; el_port : Z }.

Record RestrictedLocalIdentity := mkLocalIdentity { li_membership : MembershipEnvelope; li_signing_seed : list byte }.
Record RestrictedPeerAdmission := mkRestrictedAdmission {
  ra_policy : MembershipPolicy;
  ra_directory_membership_bearer : string;
  ra_directory_context : option RestrictedDirectoryContext;
  ra_local : option RestrictedLocalIdentity
}.
Inductive PeerAdmissionMode := Public | Restricted (r : RestrictedPeerAdmission).

(** What a manager holds that does not change. *)
Record peer_config := mkPeerConfig {
  pm_directory_url : string;
  pm_node_token : string;
  pm_own_relay_capable : bool;
  pm_own_relay_accept_port : Z;
  pm_admission : PeerAdmissionMode
}.
(** [with_opts] *)
Definition with_opts (directory_url node_token : string) (relay_capable : bool) (relay_accept_port : Z)
    (admission : PeerAdmissionMode) : peer_config :=
  mkPeerConfig (trim_end_char "/" directory_url) node_token relay_capable relay_accept_port admission.
Definition initial_generation (admission : PeerAdmissionMode) : Z :=
  match admission with Public => 0 | Restricted r => mp_minimum_generation (ra_policy r) end.

Definition into_admission {lib : SignedDomain} (b : RestrictedPeerBundle) (expected_node_id : string) (now : Z)
    : result PeerAdmissionMode MembershipRefusal :=
  if blank (pb_directory_membership_bearer b) then Err MissingDirectoryCredential
  else
    let? _ := verify_membership (pb_membership b) (pb_policy b) expected_node_id "peers" now in
    let? seed := signing_seed (pb_signing_seed_ed25519 b)
                   (sub_public_key_ed25519 (as_subject (me_assertion (pb_membership b)))) in
    Ok (Restricted (mkRestrictedAdmission (pb_policy b) (pb_directory_membership_bearer b) None
          (Some (mkLocalIdentity (pb_membership b) seed)))).

Definition with_membership (m : option MembershipEnvelope) (v : json) : json :=
  match m with Some e => set_field "membership" (membership_value e) v | None => v end.
Definition to_response_value (p : PeerInfo) : json :=
  with_membership (pi_membership p)
    (mk_obj [("node_id", JString (pi_node_id p)); ("endpoint", JString (pi_endpoint p)); ("region", JString (pi_region p));
             ("last_seen", JString (pi_last_seen p))]).
Definition to_gossip_value (p : PeerInfo) : json :=
  with_membership (pi_membership p)
    (mk_obj [("node_id", JString (pi_node_id p)); ("endpoint", JString (pi_endpoint p)); ("region", JString (pi_region p));
             ("last_seen", JString (pi_last_seen p)); ("relay_capable", JBool (pi_relay_capable p));
             ("relay_accept_port", u64_json (pi_relay_accept_port p)); ("relay_load", f64_json (pi_relay_load p))]).

Definition peer_info (peer : json) (node_id : string) (membership : option MembershipEnvelope) (last_contact : Z) : PeerInfo :=
  mkPeer node_id (default empty_str (get_str peer "endpoint")) (default empty_str (get_str peer "region"))
    (default empty_str (get_str peer "last_seen")) last_contact (default false (get_bool peer "relay_capable"))
    (default 9485 (get_u64 peer "relay_accept_port") mod 2 ^ 16)
    (default (f64_of_Z 0) (jget peer "relay_load" ≫= as_f64))
    ((fun e => as_domain_id (me_assertion e)) <$> membership) ((fun e => as_generation (me_assertion e)) <$> membership)
    ((fun e => as_expires_at (me_assertion e)) <$> membership) membership.

(** ** Admission of an advertised peer *)

Section admission.
Context {lib : SignedDomain} {Url : Type} `{UrlOps Url}.

Definition peer_url_has_no_credentials (u : Url) : bool := str_is_empty (url_username u) && is_none (url_password u).
Definition valid_peer_url (u : Url) : bool :=
  str_in (url_scheme u) ["http"; "https"] && is_some (url_host_str u) && peer_url_has_no_credentials u
  && is_none (url_fragment u).
Definition invalid_relay_port (peer : json) : bool :=
  is_some_and (get_u64 peer "relay_accept_port") (fun port => (port =? 0) || (u16_max <? port)).
Definition invalid_relay_load (peer : json) : bool :=
  is_some_and (jget peer "relay_load" ≫= as_f64) (fun load => negb (f64_is_finite load) || f64_ltb load (f64_of_Z 0)).
Definition valid_restricted_peer (peer : json) : bool :=
  is_some_and (get_str peer "endpoint") (fun endpoint => is_some_and (url_parse endpoint) (fun u =>
    valid_peer_url u && negb (invalid_relay_port peer) && negb (invalid_relay_load peer))).

(** The policy with the generation that is current when it is read. *)
Definition with_generation (p : MembershipPolicy) (minimum : Z) : MembershipPolicy :=
  mkMembershipPolicy (mp_domain_id p) (mp_authority_id p) (mp_authority_key_id p) (mp_authority_public_key_ed25519 p)
    (Z.max (mp_minimum_generation p) minimum) (mp_maximum_clock_skew_seconds p).

Definition verified_restricted_membership (peer : json) (node_id scope : string) (epoch : Z) (r : RestrictedPeerAdmission)
    (minimum : Z) : option MembershipEnvelope :=
  if negb (valid_restricted_peer peer) then None
  else
    let! v := jget peer "membership" in
    let! envelope := membership_from_value v in
    if is_ok (verify_membership envelope (with_generation (ra_policy r) minimum) node_id scope epoch)
    then Some envelope else None.

Definition admitted_membership (mode : PeerAdmissionMode) (peer : json) (node_id scope : string) (epoch minimum : Z)
    : option (option MembershipEnvelope) :=
  match mode with
  | Public => Some None
  | Restricted r => Some <$> verified_restricted_membership peer node_id scope epoch r minimum
  end.

(** One entry of the loop of [merge_peers_at]. *)
Definition merge_peer (mode : PeerAdmissionMode) (scope : string) (epoch : Z) (own : string) (now minimum : Z) (p : json)
    (acc : gmap string PeerInfo * Z) : gmap string PeerInfo * Z :=
  let '(peers, added) := acc in
  let nid := default empty_str (get_str p "node_id") in
  if str_is_empty nid || (nid ==? own) then acc
  else
    match admitted_membership mode p nid scope epoch minimum with
    | None => acc
    | Some membership =>
        (<[nid := peer_info p nid membership now]> peers, if is_some (peers !! nid) then added else added + 1)
    end.

(** The critical section.  The generation is loaded for every entry; [minimum i]
    is what the load of entry [i] returned. *)
Fixpoint merge_section (mode : PeerAdmissionMode) (scope : string) (epoch : Z) (own : string) (now : Z) (minimum : nat -> Z)
    (i : nat) (incoming : list json) (acc : gmap string PeerInfo * Z) : gmap string PeerInfo * Z :=
  match incoming with
  | [] => acc
  | p :: incoming =>
      merge_section mode scope epoch own now minimum (S i) incoming
        (merge_peer mode scope epoch own now (minimum i) p acc)
  end.
End admission.

(** ** The shared state *)

Record peer_world := mkPeerWorld {
  pw_own_id : string;
  pw_own_endpoint : string;
  pw_minimum_generation : Z;
  pw_peers : gmap string PeerInfo;
  pw_replay_ids : gmap string Z
}.
Definition peer_world_new (cfg : peer_config) : peer_world :=
  mkPeerWorld empty_str empty_str (initial_generation (pm_admission cfg)) ∅ ∅.

(** What the surroundings answer at one moment: the two clocks, the order in
    which the hash map is iterated, the generation raised while a merge holds
    the table, and the answers of the libraries and the network. *)
Record peer_env := mkPeerEnv {
  pe_unix : Z;
  pe_instant : Z;
  pe_order : list string;
  pe_later : nat -> Z;
  pe_lib : forall a, answer a;
  pe_session : string -> json -> option (result json string);
  pe_post : string -> json -> result (Z * list byte) string
}.

Inductive peer_action :=
| Lib (a : action)
| InstantNow
| OwnId
| OwnEndpoint
| SetOwnId (s : string)
| SetOwnEndpoint (s : string)
| RaiseGeneration (g : Z)
| LoadGeneration
| RetainGeneration (minimum : Z)
| MergePeers (incoming : list json) (scope : string) (epoch : Z) (own : string) (now : Z)
| PrunePeers (now epoch : Z)
| PeerValues
| PeerGet (node_id : string)
| TouchPeer (node_id : string) (now : Z)
| RecordReplay (replay_id : string) (expires_at now : Z)
| ForwardSession (target : string) (task : json)
| PostTask (url : string) (task : json).

(** [ForwardSession] asks the relay sessions of the node ([RelaySession.v]);
    [None] when the target has no session. *)
Definition peer_answer (a : peer_action) : Type :=
  match a with
  | Lib a => answer a
  | InstantNow | LoadGeneration | RetainGeneration _ | MergePeers _ _ _ _ _ | PrunePeers _ _ => Z
  | OwnId | OwnEndpoint => string
  | SetOwnId _ | SetOwnEndpoint _ | RaiseGeneration _ | TouchPeer _ _ => unit
  | PeerValues => list PeerInfo
  | PeerGet _ => option PeerInfo
  | RecordReplay _ _ _ => result unit string
  | ForwardSession _ _ => option (result json string)
  | PostTask _ _ => result (Z * list byte) string
  end.

Notation pprog := (prog peer_answer).
Notation "'ask?' x := a 'in' k" := (Act (resp:=peer_answer) a (fun x => k))
  (at level 200, x name, a at level 100, k at level 200,
   format "'[v' 'ask?'  x  :=  a  'in' '/' k ']'") : iicp_scope.

Fixpoint peer_lib {R} (p : prog answer R) : pprog R :=
  match p with
  | Ret r => Ret r
  | Act a k => Act (resp:=peer_answer) (Lib a) (fun r => peer_lib (k r))
  end.

(** The values of a hash map, in the order [ks] prescribes as far as it goes. *)
Fixpoint values_in (ks : list string) (m : gmap string PeerInfo) : list PeerInfo :=
  match ks with
  | [] => (map_to_list m).*2
  | k :: ks => match m !! k with Some p => p :: values_in ks (delete k m) | None => values_in ks m end
  end.

Definition fresh_peer (now epoch : Z) (p : PeerInfo) : bool :=
  (now - pi_last_contact p <? PEER_EXPIRY) && is_none_or (pi_membership_expires_at p) (fun expires => epoch <? expires).

Definition record_replay_section (ids : gmap string Z) (replay_id : string) (expires_at now : Z)
    : result unit string * gmap string Z :=
  let ids := filter (fun e => now < e.2) ids in
  if is_some (ids !! replay_id) then (Err (refusal_code ReplayDetected), ids)
  else if MAX_REPLAY_IDS <=? Z.of_nat (size ids) then (Err (refusal_code ReplayCapacity), ids)
  else (Ok tt, <[replay_id := expires_at]> ids).

Section manager.
Context {lib : SignedDomain} {signing : SigningLib} {Url : Type} `{UrlOps Url} `{SerdeOps}.
Context (cfg : peer_config).

Definition set_peers (w : peer_world) (m : gmap string PeerInfo) : peer_world :=
  mkPeerWorld (pw_own_id w) (pw_own_endpoint w) (pw_minimum_generation w) m (pw_replay_ids w).

(** A merge may see the generation rise while it holds the table, never fall. *)
Definition pperform (w : peer_world) (e : peer_env) (a : peer_action) : peer_answer a * peer_world :=
  match a return peer_answer a * peer_world with
  | Lib a => (match a return answer a with UnixNow => pe_unix e | a => pe_lib e a end, w)
  | InstantNow => (pe_instant e, w)
  | OwnId => (pw_own_id w, w)
  | OwnEndpoint => (pw_own_endpoint w, w)
  | SetOwnId s => (tt, mkPeerWorld s (pw_own_endpoint w) (pw_minimum_generation w) (pw_peers w) (pw_replay_ids w))
  | SetOwnEndpoint s => (tt, mkPeerWorld (pw_own_id w) s (pw_minimum_generation w) (pw_peers w) (pw_replay_ids w))
  | RaiseGeneration g =>
      (tt, mkPeerWorld (pw_own_id w) (pw_own_endpoint w) (Z.max (pw_minimum_generation w) g) (pw_peers w) (pw_replay_ids w))
  | LoadGeneration => (pw_minimum_generation w, w)
  | RetainGeneration minimum =>
      let kept := filter (fun kv => is_none_or (pi_membership_generation kv.2) (fun g => minimum <=? g) = true) (pw_peers w) in
      (Z.of_nat (size (pw_peers w)) - Z.of_nat (size kept), set_peers w kept)
  | MergePeers incoming scope epoch own now =>
      let '(peers, added) := merge_section (pm_admission cfg) scope epoch own now
        (fun i => Z.max (pw_minimum_generation w) (pe_later e i)) 0 incoming (pw_peers w, 0) in
      (added, set_peers w peers)
  | PrunePeers now epoch =>
      let kept := filter (fun kv => fresh_peer now epoch kv.2 = true) (pw_peers w) in
      (Z.of_nat (size (pw_peers w)) - Z.of_nat (size kept), set_peers w kept)
  | PeerValues => (values_in (pe_order e) (pw_peers w), w)
  | PeerGet node_id => (pw_peers w !! node_id, w)
  | TouchPeer node_id now =>
      (tt, set_peers w (alter (fun p => mkPeer (pi_node_id p) (pi_endpoint p) (pi_region p) (pi_last_seen p) now
             (pi_relay_capable p) (pi_relay_accept_port p) (pi_relay_load p) (pi_trust_domain_id p)
             (pi_membership_generation p) (pi_membership_expires_at p) (pi_membership p)) node_id (pw_peers w)))
  | RecordReplay replay_id expires_at now =>
      let '(r, ids) := record_replay_section (pw_replay_ids w) replay_id expires_at now in
      (r, mkPeerWorld (pw_own_id w) (pw_own_endpoint w) (pw_minimum_generation w) (pw_peers w) ids)
  | ForwardSession target task => (pe_session e target task, w)
  | PostTask url task => (pe_post e url task, w)
  end.

(** ** Reading the table *)

Definition prune : pprog Z :=
  ask? now := InstantNow in
  ask? epoch := Lib UnixNow in
  ask? n := PrunePeers now epoch in Ret n.

Definition get_peers : pprog (list PeerInfo) :=
  run! _ := prune in
  ask? l := PeerValues in Ret l.
Definition relay_target (node_id : string) : pprog (option PeerInfo) :=
  run! _ := prune in
  ask? p := PeerGet node_id in Ret p.
Definition get_relay_candidates : pprog (list PeerInfo) :=
  run! _ := prune in
  ask? l := PeerValues in
  Ret (filter (fun p => pi_relay_capable p && negb (str_is_empty (pi_endpoint p)) = true) l).

Definition update_minimum_generation (generation : Z) : pprog Z :=
  ask? _ := RaiseGeneration generation in
  ask? minimum := LoadGeneration in
  ask? removed := RetainGeneration minimum in Ret removed.

(** ** Merging *)

Definition merge_peers_at (incoming : list json) (scope : string) (epoch : Z) : pprog Z :=
  ask? own := OwnId in
  ask? now := InstantNow in
  ask? added := MergePeers incoming scope epoch own now in Ret added.
Definition merge_peers_for_scope (incoming : list json) (scope : string) : pprog Z :=
  ask? epoch := Lib UnixNow in merge_peers_at incoming scope epoch.
Definition merge_peers (incoming : list json) : pprog Z := merge_peers_for_scope incoming "peers".

(** ** Verifying an exchange *)

Definition verify_exchange (body : list byte) (signature : option string) : bool :=
  match pm_admission cfg with
  | Restricted _ => false
  | Public =>
      if str_is_empty (pm_node_token cfg) then true
      else is_some_and signature (verify_signature body (pm_node_token cfg))
  end.

Definition extract_known_peers (body : list byte) : option (list json) :=
  let! v := from_slice body in jget v "known_peers" ≫= as_array.

Definition restricted_peer_payload (parsed : json) : result (list json * list byte) string :=
  let? peers := ok_or (as_array (jidx parsed "known_peers")) "malformed_exchange" in
  let? payload := ok_or (sd_jcs (mk_obj [("known_peers", JArray peers)])) "malformed_exchange" in
  Ok (peers, payload).
Definition parse_restricted_exchange (body : list byte)
    : result (MembershipEnvelope * GossipEnvelope * list json * list byte) string :=
  let? parsed := ok_or (from_slice body) "malformed_exchange" in
  let? membership := ok_or (membership_from_value (jidx parsed "membership")) "membership_malformed" in
  let? gossip := ok_or (gossip_from_value (jidx parsed "gossip")) "gossip_malformed" in
  let? (peers, payload) := restricted_peer_payload parsed in
  Ok (membership, gossip, peers, payload).

(** [record_replay] reads the clock again. *)
Definition record_replay (replay_id : string) (expires_at : Z) : pprog (result unit string) :=
  ask? now := Lib UnixNow in
  ask? r := RecordReplay replay_id expires_at now in Ret r.

Definition verify_restricted_exchange (body : list byte) (r : RestrictedPeerAdmission) : pprog (result (list json) string) :=
  ask? minimum := LoadGeneration in
  match parse_restricted_exchange body with
  | Err e => Ret (Err e)
  | Ok (membership, gossip, peers, payload) =>
      ask? now := Lib UnixNow in
      match verify_gossip gossip membership (with_generation (ra_policy r) minimum) payload now false with
      | Err e => Ret (Err (refusal_code e))
      | Ok _ =>
          run! recorded := record_replay (gp_replay_id (ge_proof gossip)) (as_expires_at (me_assertion membership)) in
          Ret (let? _ := recorded in Ok peers)
      end
  end.

Definition verify_and_extract_exchange (body : list byte) (signature : option string) : pprog (result (list json) string) :=
  match pm_admission cfg with
  | Public =>
      Ret (if negb (verify_exchange body signature) then Err "invalid_signature"
           else ok_or (extract_known_peers body) "malformed_exchange")
  | Restricted r => verify_restricted_exchange body r
  end.

(** ** Gossip *)

Definition own_peer_value (node_id endpoint : string) : option json :=
  if str_is_empty node_id then None
  else
    let own := mk_obj [("node_id", JString node_id); ("endpoint", JString endpoint);
                       ("relay_capable", JBool (pm_own_relay_capable cfg));
                       ("relay_accept_port", u64_json (pm_own_relay_accept_port cfg)); ("relay_load", f64_json (f64_of_Z 0))] in
    match pm_admission cfg with
    | Public => Some own
    | Restricted r => let! l := ra_local r in Some (set_field "membership" (membership_value (li_membership l)) own)
    end.

Definition signed_exchange (payload : json) (m : MembershipEnvelope) (g : GossipEnvelope) : list byte :=
  to_vec (mk_obj [("known_peers", jidx payload "known_peers"); ("membership", membership_value m); ("gossip", gossip_value g)]).

Definition exchange_body (payload : json) : pprog (option (list byte)) :=
  match pm_admission cfg with
  | Public => Ret (Some (to_vec payload))
  | Restricted r =>
      match ra_local r with
      | None => Ret None
      | Some l =>
          match sd_jcs payload with
          | None => Ret None
          | Some canonical =>
              ask? now := Lib UnixNow in
              ask? replay_id := Lib NewUuid in
              Ret (match sign_gossip (li_membership l) (li_signing_seed l) (mp_domain_id (ra_policy r)) canonical now replay_id with
                   | Ok gossip => Some (signed_exchange payload (li_membership l) gossip)
                   | Err _ => None
                   end)
          end
      end
  end.

Definition response_value (r : result http_response bool) : option json :=
  match r with
  | Ok resp => if is_success (rs_status resp) then result_ok (response_json resp) else None
  | Err _ => None
  end.

(** A response that is not a success changes nothing; a success marks the peer
    as contacted even where its body cannot be read. *)
Definition handle_exchange_response (r : result http_response bool) (target_id : string) : pprog unit :=
  match r with
  | Err _ => Ret tt
  | Ok resp =>
      if negb (is_success (rs_status resp)) then Ret tt
      else
        run! _ := (match result_ok (response_json resp) ≫= fun v => jget v "peers" ≫= as_array with
                   | Some peers => run! _ := merge_peers peers in Ret tt
                   | None => Ret tt
                   end) in
        ask? now := InstantNow in
        ask? _ := TouchPeer target_id now in Ret tt
  end.

Definition restricted_mode : bool := match pm_admission cfg with Restricted _ => true | Public => false end.

Definition exchange_request (target : PeerInfo) (body : list byte) : http_request :=
  mkRequestOut "POST" (trim_end_char "/" (pi_endpoint target) +:+ "/v1/peers") None
    (("Content-Type", "application/json")
     :: (if str_is_empty (pm_node_token cfg) then [] else [("X-IICP-Signature", sign_body body (pm_node_token cfg))]))
    (Some body) (negb restricted_mode) None.

Definition exchange (target : PeerInfo) : pprog unit :=
  ask? own_id := OwnId in
  ask? own_ep := OwnEndpoint in
  ask? peers := PeerValues in
  let known := (to_gossip_value <$> peers) ++ match own_peer_value own_id own_ep with Some v => [v] | None => [] end in
  run! body := exchange_body (mk_obj [("known_peers", JArray known)]) in
  match body with
  | None => Ret tt
  | Some body =>
      ask? r := Lib (Send (exchange_request target body)) in
      handle_exchange_response r (pi_node_id target)
  end.

(** ** Bootstrap *)

Definition bootstrap_headers : pprog (option (list (string * string))) :=
  match pm_admission cfg with
  | Public => Ret (Some [])
  | Restricted r =>
      match ra_local r with
      | None => Ret None
      | Some l =>
          let subject := sub_id (as_subject (me_assertion (li_membership l))) in
          let headers m := [("X-IICP-Membership", m); ("X-IICP-Subject-Id", subject)] in
          match ra_directory_context r with
          | Some context =>
              if negb (is_ok (validate_context context)) || (subject_id context <>? subject) then Ret None
              else
                ask? secret := Lib (ResolveSecret (membership_credential context)) in
                Ret (headers <$> (secret : option string))
          | None =>
              Ret (if str_is_empty (ra_directory_membership_bearer r) then None
                   else Some (headers (ra_directory_membership_bearer r)))
          end
      end
  end.

Definition merge_bootstrap_response (r : result http_response bool) : pprog unit :=
  match response_value r with
  | None => Ret tt
  | Some body =>
      run! eligible :=
        (match pm_admission cfg with
         | Restricted r =>
             match ra_directory_context r with
             | Some context =>
                 run! o := peer_lib (validate_decision body context "bootstrap") in
                 Ret (match o with Val _ => true | _ => false end)
             | None => Ret true
             end
         | Public => Ret true
         end) in
      if negb eligible then Ret tt
      else
        match jget body "peers" ≫= as_array with
        | Some peers => run! _ := merge_peers_for_scope peers "bootstrap" in Ret tt
        | None => Ret tt
        end
  end.

Definition bootstrap : pprog unit :=
  run! headers := bootstrap_headers in
  match headers with
  | None => Ret tt
  | Some headers =>
      ask? r := Lib (Send (mkRequestOut "GET" (pm_directory_url cfg +:+ "/v1/bootstrap?limit=5") None headers None
                             (negb restricted_mode) None)) in
      merge_bootstrap_response r
  end.

Definition start (node_id own_endpoint : string) : pprog unit :=
  ask? _ := SetOwnId node_id in
  ask? _ := SetOwnEndpoint own_endpoint in
  bootstrap.

(** [min_by_key]: the first of the least contacted. *)
Fixpoint min_by {A} (lt : A -> A -> bool) (best : A) (l : list A) : A :=
  match l with
  | [] => best
  | x :: l => min_by lt (if lt x best then x else best) l
  end.

Definition gossip_round : pprog unit :=
  run! peers := get_peers in
  match peers with
  | [] => bootstrap
  | p :: rest =>
      let target := min_by (fun a b => pi_last_contact a <? pi_last_contact b) p rest in
      run! _ := exchange target in
      run! _ := prune in Ret tt
  end.

(** ** Relay election *)

(** [(relay_load * 1_000_000.0) as u64] and the hash of the pair *)
Definition election_score (worker_id : string) (p : PeerInfo) : Z * string :=
  (f64_as_u64 (f64_mul (pi_relay_load p) (f64_of_Z 1000000)),
   sd_sha256_hex (str_bytes (worker_id +:+ ":" +:+ pi_node_id p))).
Definition score_ltb (a b : Z * string) : bool :=
  (a.1 <? b.1) || ((a.1 =? b.1) && str_ltb a.2 b.2).

Definition extract_host (endpoint : string) : string :=
  let without_scheme :=
    match strip_prefix "http://" endpoint with
    | Some rest => rest
    | None => default endpoint (strip_prefix "https://" endpoint)
    end in
  let host_port := default without_scheme (head (str_split "/" without_scheme)) in
  match list.last (str_split ":" host_port), str_split ":" host_port with
  | Some _, (_ :: _ :: _) as parts => str_join ":" (take (length parts - 1) parts)
  | _, _ => host_port
  end.

Definition elect (worker_id : string) (candidates : list PeerInfo) : option ElectedRelay :=
  match candidates with
  | [] => None
  | p :: rest =>
      let elected := min_by (fun a b => score_ltb (election_score worker_id a) (election_score worker_id b)) p rest in
      Some (mkElected elected (extract_host (pi_endpoint elected)) (pi_relay_accept_port elected))
  end.
Definition elect_relay (worker_id : string) : pprog (option ElectedRelay) :=
  run! candidates := get_relay_candidates in Ret (elect worker_id candidates).

(** ** The endpoints of the node *)

Record peer_reply := mkPeerReply { pr_status : Z; pr_body : json + list byte }.
Definition peer_error (status : Z) (code message : string) : peer_reply :=
  mkPeerReply status (inl (mk_obj [("error", mk_obj [("code", JString code); ("message", JString message)])])).

Definition peers_endpoint (signature : option string) (body : list byte) : pprog peer_reply :=
  run! verified := verify_and_extract_exchange body signature in
  match verified with
  | Err reason => Ret (peer_error 401 "IICP-E012" reason)
  | Ok incoming =>
      run! _ := merge_peers (filter (fun v => is_some (as_object v) = true) incoming) in
      run! peers := get_peers in
      Ret (mkPeerReply 200 (inl (mk_obj [("peers", JArray (to_response_value <$> peers))])))
  end.

Definition relay_endpoint (payload : json) : pprog peer_reply :=
  let target_id := default empty_str (get_str payload "target_node_id") in
  match jget payload "task" with
  | Some task =>
      if str_is_empty target_id then Ret (peer_error 422 "IICP-E000" "target_node_id and task required")
      else
        ask? session := ForwardSession target_id task in
        match session with
        | Some (Ok result) =>
            Ret (mkPeerReply 200 (inl (mk_obj [("task_id", JString (default empty_str (get_str task "task_id")));
                                               ("status", JString "success"); ("result", result)])))
        | Some (Err e) => Ret (peer_error 502 "IICP-E031" ("relay session forward failed: " +:+ e))
        | None =>
            run! target := relay_target target_id in
            match target with
            | None => Ret (peer_error 404 "IICP-E030" "target not in peer list and not a bound relay worker")
            | Some t =>
                ask? r := PostTask (trim_end_char "/" (pi_endpoint t) +:+ "/v1/task") task in
                Ret (match r with
                     | Ok (status, bytes) => mkPeerReply status (inr bytes)
                     | Err e => peer_error 502 "IICP-E031" ("relay failed: " +:+ e)
                     end)
            end
        end
  | None => Ret (peer_error 422 "IICP-E000" "target_node_id and task required")
  end.
End manager.
