(* ===== verification/PeerSafety.v ===== *)
(** * What the mesh guarantees

    Revocation and replay protection under every interleaving of handlers and
    the gossip task, admission of peers, and the agreement of both ends of a
    gossip exchange. *)

From S2P Require Import Prelude Program Concurrent Text Json Cbor CodecModel HttpResource ClientTypes ClientEffects ConsumerToken Signing Membership PeerManager.

Section mesh.
Context {lib : SignedDomain} {signing : SigningLib} {Url : Type} `{UrlOps Url} `{SerdeOps}.
Context (cfg : peer_config).

(** ** The handlers *)

Definition forget {R} (p : pprog R) : pprog unit := run! _ := p in Ret tt.

(** The endpoints, the two rounds of the gossip task, and the calls of the node. *)
Inductive peer_handler : pprog unit -> Prop :=
| handler_peers signature body : peer_handler (forget (peers_endpoint cfg signature body))
| handler_relay payload : peer_handler (forget (relay_endpoint payload))
| handler_start node_id endpoint : peer_handler (start cfg node_id endpoint)
| handler_gossip : peer_handler (gossip_round cfg)
| handler_generation g : peer_handler (forget (update_minimum_generation g))
| handler_elect worker_id : peer_handler (forget (elect_relay worker_id))
| handler_peer_list : peer_handler (forget get_peers)
| handler_merge incoming : peer_handler (forget (merge_peers incoming)).

Notation exec := (Concurrent.exec (pperform cfg) pe_unix peer_handler (fun w _ w' => w' = w) (peer_world_new cfg)).
Notation event := (Concurrent.event peer_answer).

(** ** What a handler has read *)

(** The last clock reading, and the generation if it was read after the last raise. *)
Definition reads : Type := Z * option Z.
Definition reads_upd (s : reads) (a : peer_action) : peer_answer a -> reads :=
  match a return peer_answer a -> reads with
  | Lib UnixNow => fun now => (now, s.2)
  | LoadGeneration => fun g => (s.1, Some g)
  | RaiseGeneration _ => fun _ => (s.1, None)
  | _ => fun _ => s
  end.
Definition reads_ok (s : reads) (a : peer_action) : Prop :=
  match a with
  | RecordReplay _ _ now => now = s.1
  | RetainGeneration m => s.2 = Some m
  | _ => True
  end.
Notation honest := (along reads_upd reads_ok (fun _ _ => True)).

(** Programs that neither record nor retain. *)
Definition passive {R} (p : pprog R) : Prop :=
  acts (fun a => match a with RecordReplay _ _ _ | RetainGeneration _ => False | _ => True end) p.

Lemma passive_honest {R} s (p : pprog R) : passive p -> honest s p.
Proof.
  unfold passive, acts. revert s. induction p as [o|a k IH]; intros s; cbn [along]; [done|].
  intros [Ha Hk]. split; [by destruct a|]. intros r. apply IH, Hk.
Qed.

Lemma honest_bind {R R'} s (p : pprog R) (f : R -> pprog R') : honest s p -> (forall s r, honest s (f r)) -> honest s (prog_bind p f).
Proof. intros Hp Hf. eapply along_bind; [exact Hp|]. intros s' r _. apply Hf. Qed.

Lemma peer_lib_passive {R} (p : prog answer R) : passive (peer_lib p).
Proof. induction p as [r|a k IH]; [done|]. split; [done|]. intros r. apply IH. Qed.

Lemma passive_act {R} a (k : peer_answer a -> pprog R) :
  match a with RecordReplay _ _ _ | RetainGeneration _ => False | _ => True end -> (forall r, passive (k r)) -> passive (Act a k).
Proof. by split. Qed.
Lemma passive_bind {R R'} (p : pprog R) (f : R -> pprog R') : passive p -> (forall r, passive (f r)) -> passive (prog_bind p f).
Proof. apply acts_bind. Qed.

Ltac passive_split :=
  repeat lazymatch goal with
  | |- passive (Ret _) => exact I
  | |- passive (Act _ _) => apply passive_act; [exact I|intros ?]
  | |- passive (prog_bind _ _) => apply passive_bind; [|intros ?]
  | |- passive (peer_lib _) => apply peer_lib_passive
  | |- passive (match ?x with _ => _ end) => destruct x
  end.

Lemma prune_passive : passive prune.
Proof. unfold prune. passive_split. Qed.
Lemma get_peers_passive : passive get_peers.
Proof. unfold get_peers. passive_split. apply prune_passive. Qed.
Lemma merge_scope_passive incoming scope : passive (merge_peers_for_scope incoming scope).
Proof. unfold merge_peers_for_scope, merge_peers_at. passive_split. Qed.
Lemma merge_passive incoming : passive (merge_peers incoming).
Proof. apply merge_scope_passive. Qed.
Lemma bootstrap_passive : passive (bootstrap cfg).
Proof. unfold bootstrap, bootstrap_headers, merge_bootstrap_response. passive_split. apply merge_scope_passive. Qed.
Lemma exchange_passive target : passive (exchange cfg target).
Proof. unfold exchange, exchange_body, handle_exchange_response. passive_split; apply merge_passive. Qed.
Lemma gossip_passive : passive (gossip_round cfg).
Proof.
  unfold gossip_round. passive_split; first [apply get_peers_passive | apply prune_passive | apply bootstrap_passive | apply exchange_passive].
Qed.
Lemma relay_target_passive node_id : passive (relay_target node_id).
Proof. unfold relay_target. passive_split. apply prune_passive. Qed.
Lemma relay_passive payload : passive (relay_endpoint payload).
Proof. unfold relay_endpoint. passive_split; apply relay_target_passive. Qed.
Lemma elect_passive worker_id : passive (elect_relay worker_id).
Proof. unfold elect_relay, get_relay_candidates. passive_split. apply prune_passive. Qed.

Lemma verify_honest s body signature : honest s (verify_and_extract_exchange cfg body signature).
Proof.
  unfold verify_and_extract_exchange, verify_restricted_exchange. destruct (pm_admission cfg) as [|r]; [done|].
  cbn [along]. split; [done|]. intros minimum. destruct (parse_restricted_exchange body) as [[[[m g] peers] payload]|e]; [|done].
  cbn [along]. split; [done|]. intros now. destruct (verify_gossip _ _ _ _ _ _); [|done].
  unfold record_replay. cbn [along prog_bind]. split; [done|]. intros now2. cbn [along]. split; [done|]. done.
Qed.

Lemma handler_honest s p : peer_handler p -> honest s p.
Proof.
  intros Hp. destruct Hp as [signature body|payload|id ep| |g|wid| |incoming]; unfold forget.
  - apply honest_bind; [|done]. unfold peers_endpoint. apply honest_bind; [apply verify_honest|].
    intros s' [incoming|e]; [|done]. apply passive_honest. passive_split; [apply merge_passive|apply get_peers_passive].
  - apply honest_bind; [|done]. apply passive_honest, relay_passive.
  - apply passive_honest. unfold start. passive_split. apply bootstrap_passive.
  - apply passive_honest, gossip_passive.
  - apply honest_bind; [|done]. unfold update_minimum_generation. cbn. done.
  - apply honest_bind; [|done]. apply passive_honest, elect_passive.
  - apply honest_bind; [|done]. apply passive_honest, get_peers_passive.
  - apply honest_bind; [|done]. apply passive_honest, merge_passive.
Qed.

(** ** The events that matter *)

Definition retained (ev : event) : option Z := match ev with Ev _ _ a _ => match a with RetainGeneration m => Some m | _ => None end end.
Definition loaded (ev : event) : option Z :=
  match ev with Ev _ _ a r => match a return peer_answer a -> option Z with LoadGeneration => Some | _ => fun _ => None end r end.
Definition raised (ev : event) : option Z := match ev with Ev _ _ a _ => match a with RaiseGeneration g => Some g | _ => None end end.
Definition recorded (ev : event) : option (string * Z) :=
  match ev with
  | Ev _ _ a r =>
      match a return peer_answer a -> option (string * Z) with
      | RecordReplay id expires _ => fun r => match r with Ok _ => Some (id, expires) | Err _ => None end
      | _ => fun _ => None
      end r
  end.

(** The peers an event hands out. *)
Definition handed (ev : event) : list PeerInfo :=
  match ev with
  | Ev _ _ a r =>
      match a return peer_answer a -> list PeerInfo with
      | PeerValues => fun l => l
      | PeerGet _ => fun o => match o with Some p => [p] | None => [] end
      | _ => fun _ => []
      end r
  end.

Lemma ghost_loaded i tr g : (ghost reads_upd (0, None) i tr).2 = Some g -> exists ev, ev ∈ tr /\ loaded ev = Some g.
Proof.
  induction tr as [|[j t a r] tr IH]; simpl; [done|].
  assert ((ghost reads_upd (0, None) i tr).2 = Some g -> exists ev, ev ∈ Ev j t a r :: tr /\ loaded ev = Some g) as Hold.
  { intros Hg. destruct (IH Hg) as (ev & Hin & Hl). exists ev. split; [by right|done]. }
  case_bool_decide as E; [|done].
  destruct a as [[]| | | | | | | | | | | | | | | |]; try exact Hold; cbn [reads_upd snd]; intros Hg; [done|].
  simplify_eq. eexists. split; [left; reflexivity|done].
Qed.

Lemma ghost_clock i tr t w ts : exec tr t w ts -> (ghost reads_upd (0, None) i tr).1 <= t.
Proof.
  intros Hx. induction Hx as [|tr t w ts p Hx IH Hh|tr t w w' ts Hx IH He|tr t w ts j a k e r w' Hx IH Hp Ht Hw]; try done.
  cbn [ghost]. case_bool_decide as E; [|lia].
  destruct a as [[]| | | | | | | | | | | | | | | |]; simpl; try lia. simpl in Hw. injection Hw as <- <-. lia.
Qed.

(** ** Entries of the table *)

Definition above (m : Z) (p : PeerInfo) : Prop := forall g, pi_membership_generation p = Some g -> m <= g.

(** A peer of a restricted domain has its own valid assertion. *)
Definition entry_ok (nid : string) (p : PeerInfo) : Prop :=
  pi_node_id p = nid /\ nid <> EmptyString /\
  match pm_admission cfg with
  | Public => pi_membership p = None /\ pi_membership_generation p = None
  | Restricted r =>
      exists e scope epoch minimum, pi_membership p = Some e /\
        member_admissible e (with_generation (ra_policy r) minimum) nid scope epoch /\
        pi_membership_generation p = Some (as_generation (me_assertion e)) /\
        pi_membership_expires_at p = Some (as_expires_at (me_assertion e)) /\
        pi_trust_domain_id p = Some (mp_domain_id (ra_policy r))
  end.

Lemma merge_section_all (P : string -> PeerInfo -> Prop) scope epoch own now minimum :
  (forall i peer nid m, nid <> EmptyString -> admitted_membership (pm_admission cfg) peer nid scope epoch (minimum i) = Some m ->
     P nid (peer_info peer nid m now)) ->
  forall incoming i acc, (forall nid p, acc.1 !! nid = Some p -> P nid p) ->
    forall nid p, (merge_section (pm_admission cfg) scope epoch own now minimum i incoming acc).1 !! nid = Some p -> P nid p.
Proof.
  intros Hnew incoming. induction incoming as [|x l IH]; intros i acc Hacc; [done|]. cbn [merge_section]. apply IH.
  destruct acc as [peers added]. unfold merge_peer.
  destruct (str_is_empty _ || _) eqn:E; [done|]. apply orb_false_iff in E as [E _].
  destruct (admitted_membership _ _ _ _ _ _) as [m|] eqn:Em; [|done]. simpl. intros nid p.
  intros [[<- <-]|[_ Hp]]%lookup_insert_Some; [|by apply Hacc].
  eapply Hnew; [|done]. intros En. rewrite En in E. done.
Qed.

Lemma admitted_entry peer nid scope epoch minimum m now :
  nid <> EmptyString -> admitted_membership (pm_admission cfg) peer nid scope epoch minimum = Some m ->
  entry_ok nid (peer_info peer nid m now) /\ above minimum (peer_info peer nid m now).
Proof.
  intros Hn Ha. unfold entry_ok, above. destruct (pm_admission cfg) as [|r]; simpl in Ha.
  - simplify_eq. by split_and!.
  - unfold verified_restricted_membership in Ha. destruct (negb _); [done|].
    destruct (jget peer "membership") as [v|]; [|done]. simpl in Ha.
    destruct (membership_from_value v) as [e|]; [|done]. simpl in Ha.
    destruct (verify_membership _ _ _ _ _) as [[]|] eqn:Ev; simplify_eq/=. apply verify_membership_spec in Ev.
    split; [|intros g [= <-]; pose proof (ma_generation _ _ _ _ _ Ev); simpl in *; lia].
    split; [done|]. split; [done|]. exists e, scope, epoch, minimum. split_and!; try done.
    by rewrite (proj1 (ma_domain _ _ _ _ _ Ev)).
Qed.

(** ** One step *)

Lemma values_in_elem ks (m : gmap string PeerInfo) p : p ∈ values_in ks m -> exists k, m !! k = Some p.
Proof.
  revert m. induction ks as [|k ks IH]; intros m; simpl.
  - intros ([k q] & -> & Hin)%list_elem_of_fmap. exists k. by apply elem_of_map_to_list.
  - destruct (m !! k) as [q|] eqn:E; [|apply IH]. intros [->|Hin]%elem_of_cons; [by exists k|].
    destruct (IH _ Hin) as [k' Hk']. exists k'. by apply lookup_delete_Some in Hk' as [_ ?].
Qed.

(** What an action does to the table, the generation and the replay table. *)
Lemma perform_parts w e a r w' :
  pperform cfg w e a = (r, w') ->
  match a with RaiseGeneration g => pw_minimum_generation w' = Z.max (pw_minimum_generation w) g
             | _ => pw_minimum_generation w' = pw_minimum_generation w end /\
  match a return peer_answer a -> Prop with
  | RecordReplay id expires now => fun r => (r, pw_replay_ids w') = record_replay_section (pw_replay_ids w) id expires now
  | _ => fun _ => pw_replay_ids w' = pw_replay_ids w
  end r /\
  match a with
  | RetainGeneration m => pw_peers w' = filter (fun kv => is_none_or (pi_membership_generation kv.2) (fun g => m <=? g) = true) (pw_peers w)
  | PrunePeers now epoch => pw_peers w' = filter (fun kv => fresh_peer now epoch kv.2 = true) (pw_peers w)
  | MergePeers incoming scope epoch own now =>
      pw_peers w' = (merge_section (pm_admission cfg) scope epoch own now (fun i => Z.max (pw_minimum_generation w) (pe_later e i)) 0
                       incoming (pw_peers w, 0)).1
  | TouchPeer id now => exists f, (forall p, pi_node_id (f p) = pi_node_id p /\ pi_membership (f p) = pi_membership p /\
        pi_membership_generation (f p) = pi_membership_generation p /\ pi_membership_expires_at (f p) = pi_membership_expires_at p /\
        pi_trust_domain_id (f p) = pi_trust_domain_id p) /\ pw_peers w' = alter f id (pw_peers w)
  | _ => pw_peers w' = pw_peers w
  end.
Proof.
  intros E. destruct a; simpl in E; try (injection E as <- <-; by split_and!).
  - destruct (merge_section _ _ _ _ _ _ _ _ _) as [peers added] eqn:Em. injection E as <- <-. by split_and!.
  - injection E as <- <-. split_and!; try done. eexists. split; [|reflexivity]. by intros p.
  - destruct (record_replay_section _ _ _ _) as [q ids] eqn:Eq. injection E as <- <-. by split_and!.
Qed.

(** Every entry after a step was there before, up to its last contact, or is new and admitted. *)
Lemma step_entries w e a r w' nid p :
  pperform cfg w e a = (r, w') -> pw_peers w' !! nid = Some p ->
  (exists q, pw_peers w !! nid = Some q /\ (entry_ok nid q -> entry_ok nid p) /\ (forall m, above m q -> above m p) /\
     match a with RetainGeneration m => above m p | _ => True end) \/
  (entry_ok nid p /\ above (pw_minimum_generation w) p /\ match a with RetainGeneration _ => False | _ => True end).
Proof.
  intros E Hp. destruct (perform_parts _ _ _ _ _ E) as (_ & _ & Hw).
  assert (forall m, m = pw_peers w -> m !! nid = Some p -> exists q, pw_peers w !! nid = Some q /\ (entry_ok nid q -> entry_ok nid p) /\
     (forall m, above m q -> above m p)) as Hsame by (intros m -> Hm; by exists p).
  destruct a; try (left; destruct (Hsame _ Hw Hp) as (q & ? & ? & ?); by exists q).
  - left. rewrite Hw in Hp. apply map_lookup_filter_Some in Hp as [Hq Hm]. simpl in Hm. exists p. split_and!; try done.
    intros g Hg. rewrite Hg in Hm. simpl in Hm. by apply Z.leb_le in Hm.
  - clear Hsame. rewrite Hw in Hp. revert nid p Hp.
    apply (merge_section_all (fun nid p => (exists q, pw_peers w !! nid = Some q /\ (entry_ok nid q -> entry_ok nid p) /\
      (forall m, above m q -> above m p) /\ True) \/ (entry_ok nid p /\ above (pw_minimum_generation w) p /\ True))).
    + intros i peer nid m Hn Ha. right. destruct (admitted_entry peer nid scope epoch _ m now Hn Ha) as [He Hab].
      split; [done|]. split; [|done]. intros g Hg. specialize (Hab g Hg). lia.
    + intros nid p Hp. left. by exists p.
  - left. rewrite Hw in Hp. apply map_lookup_filter_Some in Hp as [Hq _]. by exists p.
  - left. destruct Hw as (f & Hf & Hw). rewrite Hw in Hp. destruct (decide (node_id = nid)) as [->|Hne].
    + rewrite lookup_alter_eq in Hp. destruct (pw_peers w !! nid) as [q|]; [|done]. simpl in Hp. injection Hp as <-.
      destruct (Hf q) as (H1 & H2 & H3 & H4 & H5). exists q. unfold entry_ok, above. rewrite H1, H2, H3, H4, H5. by split_and!.
    + rewrite lookup_alter_ne in Hp by done. by exists p.
Qed.

(** ** Invariants *)

Record mesh_inv (t : Z) (tr : list event) (w : peer_world) : Prop := {
  mi_entries : forall nid p, pw_peers w !! nid = Some p -> entry_ok nid p;
  mi_retained : forall ev m, ev ∈ tr -> retained ev = Some m ->
    m <= pw_minimum_generation w /\ forall nid p, pw_peers w !! nid = Some p -> above m p;
  mi_seen : forall ev g, ev ∈ tr -> loaded ev = Some g \/ raised ev = Some g -> g <= pw_minimum_generation w;
  mi_recorded : forall ev id expires, ev ∈ tr -> recorded ev = Some (id, expires) -> t < expires ->
    pw_replay_ids w !! id = Some expires;
  mi_bounded : Z.of_nat (size (pw_replay_ids w)) <= MAX_REPLAY_IDS
}.

Lemma replay_section_spec ids id expires now r ids' :
  record_replay_section ids id expires now = (r, ids') -> Z.of_nat (size ids) <= MAX_REPLAY_IDS ->
  Z.of_nat (size ids') <= MAX_REPLAY_IDS /\
  (forall k x, ids !! k = Some x -> now < x -> ids' !! k = Some x \/ (k = id /\ r = Ok tt)) /\
  (r = Ok tt -> ids' !! id = Some expires /\ forall x, ids !! id = Some x -> x <= now) /\
  (r = Ok tt \/ exists e, r = Err e).
Proof.
  intros E Hb. unfold record_replay_section in E. set (kept := filter (fun e => now < e.2) ids) in *.
  assert (Z.of_nat (size kept) <= MAX_REPLAY_IDS) as Hk.
  { pose proof (map_size_filter (fun e : string * Z => now < e.2) ids). subst kept. lia. }
  destruct (kept !! id) as [x|] eqn:El; simpl in E.
  { injection E as <- <-. split_and!; [done| |done|by right; eexists]. intros k y Hy Hn. left. by apply map_lookup_filter_Some. }
  destruct (Z.leb_spec MAX_REPLAY_IDS (Z.of_nat (size kept))).
  { injection E as <- <-. split_and!; [done| |done|by right; eexists]. intros k y Hy Hn. left. by apply map_lookup_filter_Some. }
  injection E as <- <-. split_and!.
  - rewrite map_size_insert_None by done. lia.
  - intros k y Hy Hn. destruct (decide (k = id)) as [->|Hne]; [by right|]. left. rewrite lookup_insert_ne by done.
    by apply map_lookup_filter_Some.
  - intros _. split; [by rewrite lookup_insert_eq|]. intros x Hx. destruct (Z.le_gt_cases x now); [done|].
    assert (kept !! id = Some x) by (by apply map_lookup_filter_Some). congruence.
  - by left.
Qed.

(** Only a raise moves the generation, upwards. *)
Lemma generation_mono w e a r w' : pperform cfg w e a = (r, w') -> pw_minimum_generation w <= pw_minimum_generation w'.
Proof. intros E. destruct (perform_parts _ _ _ _ _ E) as (Hg & _). destruct a; rewrite Hg; lia. Qed.

Lemma mesh_inv_step t tr w ts i a k e r w' :
  exec tr t w ts -> mesh_inv t tr w -> ts !! i = Some (Act a k) -> t <= pe_unix e -> pperform cfg w e a = (r, w') ->
  mesh_inv (pe_unix e) (Ev i (pe_unix e) a r :: tr) w' /\
  (forall m, retained (Ev i (pe_unix e) a r) = Some m -> exists ev, ev ∈ tr /\ loaded ev = Some m) /\
  (forall id x, recorded (Ev i (pe_unix e) a r) = Some (id, x) -> forall ev y, ev ∈ tr -> recorded ev = Some (id, y) -> y <= pe_unix e).
Proof.
  intros Hx [He Hr Hs Hrec Hb] Hi Ht E. pose proof (generation_mono _ _ _ _ _ E) as Hmono.
  destruct (perform_parts _ _ _ _ _ E) as (Hg & Hrep & Hw).
  pose proof (exec_along reads_upd reads_ok (fun _ _ => True) (0, None) _ _ _ _ i _ (handler_honest (0, None)) Hx Hi) as [Hok _].
  assert (forall m, retained (Ev i (pe_unix e) a r) = Some m -> exists ev, ev ∈ tr /\ loaded ev = Some m) as Hload.
  { intros m. destruct a; try done. simpl. intros [= ->]. by apply (ghost_loaded i). }
  assert (Z.of_nat (size (pw_replay_ids w')) <= MAX_REPLAY_IDS /\
    (forall k x, pw_replay_ids w !! k = Some x -> pe_unix e < x -> pw_replay_ids w' !! k = Some x \/
        exists y, recorded (Ev i (pe_unix e) a r) = Some (k, y)) /\
    (forall id x, recorded (Ev i (pe_unix e) a r) = Some (id, x) ->
        pw_replay_ids w' !! id = Some x /\ forall y, pw_replay_ids w !! id = Some y -> y <= pe_unix e)) as (Hb' & Hkeep & Hnew).
  { destruct a; try (rewrite Hrep; split; [done|]; split; [by left|done]).
    pose proof (ghost_clock i _ _ _ _ Hx) as Hc. simpl in Hok. subst now.
    destruct (replay_section_spec _ _ _ _ _ _ (eq_sym Hrep) Hb) as (H1 & H2 & H3 & H4). split; [done|]. split.
    - intros k0 x Hx0 Hlt. destruct (H2 _ _ Hx0) as [?|[-> ->]]; [lia|by left|]. right. by eexists.
    - intros id x Hrd. simpl in Hrd. destruct r as [[]|]; [|done]. injection Hrd as <- <-.
      destruct (H3 eq_refl) as [H5 H6]. split; [done|]. intros y Hy. specialize (H6 y Hy). lia. }
  split; [constructor|split; [done|]].
  - intros nid p Hp. destruct (step_entries _ _ _ _ _ _ _ E Hp) as [(q & Hq & H1 & _)|[H1 _]]; [|done]. apply H1. by eapply He.
  - intros ev m [->|Hin]%elem_of_cons Hm.
    + destruct (Hload m Hm) as (ev & Hin & Hl). pose proof (Hs ev m Hin (or_introl Hl)). split; [lia|].
      intros nid p Hp. destruct a; try done. simpl in Hm. injection Hm as ->.
      destruct (step_entries _ _ _ _ _ _ _ E Hp) as [(q & _ & _ & _ & Hab)|(_ & _ & [])]. done.
    + destruct (Hr ev m Hin Hm) as [H1 H2]. split; [lia|]. intros nid p Hp.
      destruct (step_entries _ _ _ _ _ _ _ E Hp) as [(q & Hq & _ & H3 & _)|(_ & H3 & _)].
      * apply H3. by eapply H2.
      * intros g Hpg. specialize (H3 g Hpg). lia.
  - intros ev g [->|Hin]%elem_of_cons Hor; [|specialize (Hs ev g Hin Hor); lia].
    destruct Hor as [Hl|Hl]; destruct a as [[]| | | | | | | | | | | | | | | |]; try done; simpl in Hl; simplify_eq; simpl in E;
      injection E as <- <-; simpl; lia.
  - intros ev id x [->|Hin]%elem_of_cons Hrd Hlt; [by apply Hnew|].
    destruct (Hkeep id x) as [?|[y Hy]]; [eapply Hrec; [done|done|lia]|done|done|].
    destruct (Hnew id y Hy) as [_ Hold]. specialize (Hold x). rewrite (Hrec ev id x) in Hold by (done || lia). specialize (Hold eq_refl). lia.
  - done.
  - intros id x Hrd ev y Hin Hy. destruct (Z.le_gt_cases y (pe_unix e)); [done|].
    destruct (Hnew id x Hrd) as [_ Hold]. apply Hold. eapply Hrec; [done|done|lia].
Qed.

Lemma mesh_inv_exec tr t w ts : exec tr t w ts -> mesh_inv t tr w.
Proof.
  induction 1 as [|tr t w ts p Hx IH Hh|tr t w w' ts Hx IH He|tr t w ts i a k e r w' Hx IH Hp Ht Hw]; [|done|by rewrite He|].
  - constructor; simpl; try done; try by (intros ? ? ?%elem_of_nil).
    + by intros ? ? ? ?%elem_of_nil.
  - by destruct (mesh_inv_step _ _ _ _ _ _ _ _ _ _ Hx IH Hp Ht Hw).
Qed.

(** ** Every moment of an execution *)

Lemma handed_table w e a r w' i t p : pperform cfg w e a = (r, w') -> p ∈ handed (Ev i t a r) -> exists nid, pw_peers w !! nid = Some p.
Proof.
  intros E Hp. destruct a; simpl in E, Hp; try by apply elem_of_nil in Hp.
  - injection E as <- _. by eapply values_in_elem.
  - injection E as <- _. destruct (pw_peers w !! node_id) as [q|] eqn:Eq; [|by apply elem_of_nil in Hp].
    apply list_elem_of_singleton in Hp as ->. by exists node_id.
Qed.

(** What is handed out is admissible and not revoked by an earlier retention. *)
Lemma handed_inv tr2 ev tr1 t w ts :
  exec (tr2 ++ ev :: tr1) t w ts -> forall p, p ∈ handed ev ->
    entry_ok (pi_node_id p) p /\ forall ev0 m, ev0 ∈ tr1 -> retained ev0 = Some m -> above m p.
Proof.
  intros Hx. refine (exec_each (fun ev tr1 => forall p, p ∈ handed ev -> entry_ok (pi_node_id p) p /\
    forall ev0 m, ev0 ∈ tr1 -> retained ev0 = Some m -> above m p) _ _ _ _ _ _ _ Hx).
  clear. intros tr t w ts i a k e r w' Hx Hi Ht E p Hp. destruct (handed_table _ _ _ _ _ _ _ _ E Hp) as [nid Hn].
  pose proof (mesh_inv_exec _ _ _ _ Hx) as Hinv. pose proof (mi_entries _ _ _ Hinv _ _ Hn) as He.
  split; [by rewrite (proj1 He)|]. intros ev0 m Hin Hm. by eapply (mi_retained _ _ _ Hinv).
Qed.

Lemma loaded_inv tr2 ev tr1 t w ts g :
  exec (tr2 ++ ev :: tr1) t w ts -> loaded ev = Some g -> forall ev' g', ev' ∈ tr1 -> raised ev' = Some g' -> g' <= g.
Proof.
  intros Hx. revert g. refine (exec_each (fun ev tr1 => forall g, loaded ev = Some g -> forall ev' g', ev' ∈ tr1 -> raised ev' = Some g' -> g' <= g)
    _ _ _ _ _ _ _ Hx).
  clear. intros tr t w ts i a k e r w' Hx Hi Ht E g Hg ev' g' Hin Hr.
  pose proof (mi_seen _ _ _ (mesh_inv_exec _ _ _ _ Hx) _ g' Hin (or_intror Hr)) as Hs.
  destruct a as [[]| | | | | | | | | | | | | | | |]; try done. simpl in Hg, E. simplify_eq. done.
Qed.

Definition thread (ev : event) : nat := match ev with Ev i _ _ _ => i end.

(** A handler retains with a generation it loaded after its last raise. *)
Lemma ghost_loaded_after i tr g :
  (ghost reads_upd (0, None) i tr).2 = Some g ->
  exists tra ev trb, tr = tra ++ ev :: trb /\ loaded ev = Some g /\ forall ev' g', ev' ∈ tra -> thread ev' = i -> raised ev' = Some g' -> False.
Proof.
  induction tr as [|[j t a r] tr IH]; simpl; [done|].
  assert ((ghost reads_upd (0, None) i tr).2 = Some g -> (j = i -> raised (Ev j t a r) = None) ->
    exists tra ev trb, Ev j t a r :: tr = tra ++ ev :: trb /\ loaded ev = Some g /\
      forall ev' g', ev' ∈ tra -> thread ev' = i -> raised ev' = Some g' -> False) as Hold.
  { intros Hg Hn. destruct (IH Hg) as (tra & ev & trb & -> & Hl & Hno). exists (Ev j t a r :: tra), ev, trb.
    split; [done|]. split; [done|]. intros ev' g' [->|Hin]%elem_of_cons Ht Hr; [|by eapply Hno]. simpl in Ht. rewrite Hn in Hr; done. }
  case_bool_decide as E; [|intros Hg; apply Hold; done].
  destruct a as [[]| | | | | | | | | | | | | | | |]; cbn [reads_upd snd]; try (intros Hg; apply Hold; done). intros Hg.
  simplify_eq. eexists [], _, tr. split; [reflexivity|]. split; [done|]. intros ev' g' Hin. by apply elem_of_nil in Hin.
Qed.

(** C28: revocation and admission in the mesh, whatever the interleaving of
    peer exchanges, relay requests, elections, the gossip task and generation
    updates.  At every moment every entry of the table is under its own
    identifier and, in a restricted domain, carries an assertion that the
    authority's rules admit; the same holds of every peer a lookup hands out.
    And when a removal of old members happens, it is with a generation not below
    those its handler has raised to, and no assertion of an older generation is in
    the table or handed out ever after, although merges run between the steps. *)
Theorem mesh_revocation tr t w ts :
  exec tr t w ts ->
  (forall nid p, pw_peers w !! nid = Some p -> entry_ok nid p) /\
  (forall ev p, ev ∈ tr -> p ∈ handed ev -> entry_ok (pi_node_id p) p) /\
  (forall tr2 i t0 m r tr1, tr = tr2 ++ Ev i t0 (RetainGeneration m) r :: tr1 ->
    (forall ev g, ev ∈ tr1 -> thread ev = i -> raised ev = Some g -> g <= m) /\
    (forall nid p, pw_peers w !! nid = Some p -> above m p) /\
    (forall ev p, ev ∈ tr2 -> p ∈ handed ev -> above m p)).
Proof.
  intros Hx. pose proof (mesh_inv_exec _ _ _ _ Hx) as Hinv. split_and!.
  - apply (mi_entries _ _ _ Hinv).
  - intros ev p Hin Hp. apply list_elem_of_split in Hin as (tra & trb & ->). by destruct (handed_inv _ _ _ _ _ _ Hx p Hp) as [He _].
  - intros tr2 i t0 m r tr1 ->. split_and!.
    + intros ev g Hin Hi Hr.
      pose proof (exec_allowed reads_upd reads_ok (fun _ _ => True) (0, None) _ _ _ _ _ _ _ _ _ (handler_honest (0, None)) Hx) as Hok.
      simpl in Hok. destruct (ghost_loaded_after _ _ _ Hok) as (tra & ev0 & trb & -> & Hl & Hno).
      apply elem_of_app in Hin as [Hin|[->|Hin]%elem_of_cons].
      * exfalso. by eapply Hno.
      * destruct ev0 as [? ? [] ?]; done.
      * rewrite app_comm_cons, app_assoc in Hx. by eapply loaded_inv.
    + intros nid p Hp. eapply (mi_retained _ _ _ Hinv (Ev i t0 (RetainGeneration m) r) m); [|done..]. apply elem_of_app. right. left.
    + intros ev p Hin Hp. apply list_elem_of_split in Hin as (tra & trb & ->). rewrite <- app_assoc in Hx. simpl in Hx.
      destruct (handed_inv _ _ _ _ _ _ Hx p Hp) as [_ Hab]. apply (Hab (Ev i t0 (RetainGeneration m) r) m); [|done].
      apply elem_of_app. right. left.
Qed.

(** A gossip message is accepted once.  However handlers interleave, when a
    replay identifier is accepted a second time, the assertion it was first
    accepted with has expired by then; and the table of identifiers never
    exceeds its bound. *)
Theorem gossip_replay_once tr3 ev2 tr2 ev1 tr1 id x1 x2 t w ts :
  exec (tr3 ++ ev2 :: tr2 ++ ev1 :: tr1) t w ts -> recorded ev1 = Some (id, x1) -> recorded ev2 = Some (id, x2) ->
  x1 <= match ev2 with Ev _ t2 _ _ => t2 end /\ Z.of_nat (size (pw_replay_ids w)) <= MAX_REPLAY_IDS.
Proof.
  intros Hx H1 H2. split; [|by eapply mi_bounded, mesh_inv_exec].
  assert (forall id x, recorded ev2 = Some (id, x) -> forall ev y, ev ∈ tr2 ++ ev1 :: tr1 -> recorded ev = Some (id, y) ->
    y <= match ev2 with Ev _ t2 _ _ => t2 end) as Hall.
  { refine (exec_each (fun ev2 tr => forall id x, recorded ev2 = Some (id, x) -> forall ev y, ev ∈ tr -> recorded ev = Some (id, y) ->
      y <= match ev2 with Ev _ t2 _ _ => t2 end) _ _ _ _ _ _ _ Hx).
    clear. intros tr t w ts i a k e r w' Hx Hi Ht E. by destruct (mesh_inv_step _ _ _ _ _ _ _ _ _ _ Hx (mesh_inv_exec _ _ _ _ Hx) Hi Ht E) as (_ & _ & Hn). }
  eapply Hall; [exact H2| |exact H1]. apply elem_of_app. right. left.
Qed.

(** ** A gossip exchange *)

(** The parts of the body of a restricted exchange, and the bytes its gossip
    proof covers. *)
Definition exchange_parts (body : list byte) (m : MembershipEnvelope) (g : GossipEnvelope) (peers : list json) (payload : list byte) : Prop :=
  exists v, from_slice body = Some v /\ membership_from_value (jidx v "membership") = Some m /\
    gossip_from_value (jidx v "gossip") = Some g /\ jidx v "known_peers" = JArray peers /\
    sd_jcs (mk_obj [("known_peers", JArray peers)]) = Some payload.

(** On the path so far, [body] has been authenticated and carries [peers]: in
    public mode, where the node has a token, by the hexadecimal HMAC-SHA256 of the
    body under it. *)
Definition authenticated (signature : option string) (body : list byte) (peers : list json) (s : list (step peer_answer)) : Prop :=
  match pm_admission cfg with
  | Public =>
      (pm_node_token cfg <> EmptyString -> signature = Some (hex_encode (hmac_sha256 (str_bytes (pm_node_token cfg)) body))) /\
      exists v, from_slice body = Some v /\ jget v "known_peers" = Some (JArray peers)
  | Restricted r =>
      exists minimum now now' m g payload, exchange_parts body m g peers payload /\
        Did (resp:=peer_answer) LoadGeneration minimum ∈ s /\ Did (resp:=peer_answer) (Lib UnixNow) now ∈ s /\
        gossip_admissible g m (with_generation (ra_policy r) minimum) payload now false /\
        Did (resp:=peer_answer) (RecordReplay (gp_replay_id (ge_proof g)) (as_expires_at (me_assertion m)) now') (Ok tt) ∈ s
  end.
(** Why it was not. *)
Definition unauthentic (signature : option string) (body : list byte) (s : list (step peer_answer)) : Prop :=
  match pm_admission cfg with
  | Public => forall peers, ~ authenticated signature body peers s
  | Restricted r =>
      (forall m g peers payload, ~ exchange_parts body m g peers payload) \/
      exists m g peers payload, exchange_parts body m g peers payload /\
        ((exists minimum now, Did (resp:=peer_answer) LoadGeneration minimum ∈ s /\ Did (resp:=peer_answer) (Lib UnixNow) now ∈ s /\
            ~ gossip_admissible g m (with_generation (ra_policy r) minimum) payload now false) \/
         exists now e, Did (resp:=peer_answer) (RecordReplay (gp_replay_id (ge_proof g)) (as_expires_at (me_assertion m)) now) (Err e) ∈ s)
  end.

Lemma as_array_json v l : as_array v = Some l <-> v = JArray l.
Proof. destruct v; simpl; split; congruence. Qed.
Lemma parse_parts body m g peers payload :
  parse_restricted_exchange body = Ok (m, g, peers, payload) <-> exchange_parts body m g peers payload.
Proof.
  unfold parse_restricted_exchange, restricted_peer_payload, exchange_parts. split.
  - intros Hp. apply rbind_Ok in Hp as (v & Hv%ok_or_Ok & Hp). apply rbind_Ok in Hp as (m' & Hm%ok_or_Ok & Hp).
    apply rbind_Ok in Hp as (g' & Hg%ok_or_Ok & Hp). apply rbind_Ok in Hp as ([l pl] & Hl & [= -> -> -> ->]).
    apply rbind_Ok in Hl as (l' & Hl%ok_or_Ok & Hpl). apply rbind_Ok in Hpl as (pl' & Hpl%ok_or_Ok & [= -> ->]).
    exists v. split_and!; try done. by apply as_array_json.
  - intros (v & -> & Hm & Hg & Hl & Hpl). cbn [ok_or rbind]. rewrite Hm, Hg. cbn [ok_or rbind].
    rewrite Hl. cbn [as_array ok_or rbind]. by rewrite Hpl.
Qed.
Lemma public_exchange signature body peers :
  pm_admission cfg = Public ->
  (verify_exchange cfg body signature = true /\ extract_known_peers body = Some peers <->
   (pm_node_token cfg <> EmptyString -> signature = Some (hex_encode (hmac_sha256 (str_bytes (pm_node_token cfg)) body))) /\
   exists v, from_slice body = Some v /\ jget v "known_peers" = Some (JArray peers)).
Proof.
  intros Hc.
  assert (verify_exchange cfg body signature = true <->
    (pm_node_token cfg <> EmptyString -> signature = Some (hex_encode (hmac_sha256 (str_bytes (pm_node_token cfg)) body)))) as ->.
  { unfold verify_exchange, verify_signature, sign_body. rewrite Hc.
    unfold str_is_empty. destruct (String.eqb_spec (pm_node_token cfg) EmptyString) as [Et|Et]; [split; [done|by intros]|].
    destruct signature as [sig|]; simpl; [|split; [done|intros H'; by specialize (H' Et)]].
    rewrite bool_decide_eq_true. split; [intros E _; f_equal|intros H'; by injection (H' Et) as ->].
    by rewrite <- (bytes_str_bytes sig), <- E, bytes_str_bytes. }
  assert (extract_known_peers body = Some peers <-> exists v, from_slice body = Some v /\ jget v "known_peers" = Some (JArray peers)) as ->; [|done].
  unfold extract_known_peers. destruct (from_slice body) as [v|]; simpl; [|split; [done|by intros (? & ? & _)]]. split.
  - intros Hb. apply bind_Some in Hb as (a & Ha & ->%as_array_json). by exists v.
  - intros (v' & [= <-] & ->). done.
Qed.

Lemma authenticated_mono signature body peers s s' :
  s `prefix_of` s' -> authenticated signature body peers s -> authenticated signature body peers s'.
Proof.
  unfold authenticated. intros Hp. destruct (pm_admission cfg); [done|].
  intros (mn & now & now' & m & g & pl & Hpar & H1 & H2 & H3 & H4). exists mn, now, now', m, g, pl.
  split_and!; try done; by eapply prefix_elem.
Qed.

(** The merges of a path: of the body's peers, once they are authenticated. *)
Definition merges_authenticated (signature : option string) (body : list byte) (s : list (step peer_answer)) (a : peer_action) : Prop :=
  match a with
  | MergePeers incoming scope _ _ _ =>
      scope = "peers" /\ exists peers, authenticated signature body peers s /\
        incoming = filter (fun v => is_some (as_object v) = true) peers
  | PrunePeers _ _ | PeerValues => exists peers, authenticated signature body peers s
  | Lib UnixNow | InstantNow | OwnId | LoadGeneration | RecordReplay _ _ _ => True
  | _ => False
  end.

(** The table was neither read nor written. *)
Definition table_untouched (s : list (step peer_answer)) : Prop :=
  Forall (fun x => match x with Did a _ => match a with
    | MergePeers _ _ _ _ _ | PrunePeers _ _ | PeerValues | PeerGet _ | TouchPeer _ _ | RetainGeneration _ => False
    | _ => True end end) s.

Lemma verify_path signature body :
  along log (merges_authenticated signature body)
    (fun s r => match r with Ok peers => authenticated signature body peers s | Err _ => table_untouched s /\ unauthentic signature body s end) []
    (verify_and_extract_exchange cfg body signature).
Proof.
  unfold verify_and_extract_exchange. destruct (pm_admission cfg) as [|r] eqn:Ea.
  - pose proof (fun peers => public_exchange signature body peers Ea) as Hpub. unfold unauthentic, authenticated. rewrite Ea.
    destruct (verify_exchange cfg body signature); simpl; [destruct (extract_known_peers body) as [peers|]; simpl|].
    + by apply Hpub.
    + split; [constructor|]. intros peers H'%Hpub. by destruct H'.
    + split; [constructor|]. intros peers H'%Hpub. by destruct H'.
  - unfold verify_restricted_exchange, merges_authenticated, unauthentic, authenticated. rewrite Ea. cbn [along]. split; [done|]. intros minimum.
    destruct (parse_restricted_exchange body) as [[[[m g] peers] payload]|e] eqn:Ep.
    2:{ simpl. split; [by repeat constructor|]. left. intros m g peers payload Hp%parse_parts. congruence. }
    apply parse_parts in Ep. cbn [along]. split; [done|]. intros now. destruct (verify_gossip _ _ _ _ _ _) as [[]|] eqn:Ev.
    2:{ simpl. split; [by repeat constructor|]. right. exists m, g, peers, payload. split; [done|]. left. exists minimum, now.
        split_and!; [unfold log; simpl; set_solver..|]. intros Hg%verify_gossip_spec. congruence. }
    apply verify_gossip_spec in Ev. unfold record_replay. cbn [along prog_bind]. split; [done|]. intros now'.
    split; [done|]. intros [[]|e]; simpl.
    + exists minimum, now, now', m, g, payload. split_and!; try done; unfold log; simpl; set_solver.
    + split; [by repeat constructor|]. right. exists m, g, peers, payload. split; [done|]. right. exists now', e. unfold log; simpl; set_solver.
Qed.

Lemma peers_path signature body :
  along log (merges_authenticated signature body)
    (fun s reply => (pr_status reply = 200 /\ exists peers, authenticated signature body peers s) \/
       ((exists reason, reply = peer_error 401 "IICP-E012" reason) /\ table_untouched s /\ unauthentic signature body s)) []
    (peers_endpoint cfg signature body).
Proof.
  unfold peers_endpoint. eapply along_bind; [apply verify_path|]. intros s [peers|e] Hs; [|right; split; [by eexists|done]].
  assert (forall s', s `prefix_of` s' -> authenticated signature body peers s') as Hm by (intros s'; by intros; eapply authenticated_mono).
  unfold merge_peers, merge_peers_for_scope, merge_peers_at, get_peers, prune, log. cbn [along prog_bind merges_authenticated].
  split; [done|]. intros epoch. split; [done|]. intros own. split; [done|]. intros now.
  split. { split; [done|]. exists peers. split; [|done]. apply Hm. rewrite <- !app_assoc. by apply prefix_app_r. }
  intros added. split; [done|]. intros now2. split; [done|]. intros epoch2.
  split. { exists peers. apply Hm. rewrite <- !app_assoc. by apply prefix_app_r. }
  intros n. split. { exists peers. apply Hm. rewrite <- !app_assoc. by apply prefix_app_r. }
  intros l. left. split; [done|]. exists peers. apply Hm. rewrite <- !app_assoc. by apply prefix_app_r.
Qed.

(** C29: the gossip endpoint on every path: only the peers of the received body
    are merged, and only after the body is authenticated — in a restricted domain
    by an admissible assertion and gossip proof checked at clock values and a
    generation read on this path and a replay identifier recorded as new, in
    public mode by the hexadecimal HMAC of the body under the node token, where
    there is one.  The reply is 200, after authentication, or else 401 with the
    table untouched and no peer disclosed, and then the body was not authentic: it
    has not the parts, it was not admissible when it was checked, or its replay
    identifier was refused. *)
Theorem exchange_authenticated answer n signature body tr reply :
  run answer n (peers_endpoint cfg signature body) = (tr, reply) ->
  (forall tr1 a x tr2, tr = tr1 ++ Did a x :: tr2 -> merges_authenticated signature body tr1 a) /\
  ((pr_status reply = 200 /\ exists peers, authenticated signature body peers tr) \/
   ((exists reason, reply = peer_error 401 "IICP-E012" reason) /\ table_untouched tr /\ unauthentic signature body tr)).
Proof. intros Hr. by destruct (run_logged _ _ _ _ _ _ _ (peers_path signature body) Hr). Qed.
End mesh.

(** ** Both ends of an exchange *)

Section exchange.
Context {lib : SignedDomain} {signing : SigningLib} {Url : Type} `{UrlOps Url} `{SerdeOps}.

Lemma parse_signed_exchange known m g canonical :
  let v := mk_obj [("known_peers", JArray known); ("membership", membership_value m); ("gossip", gossip_value g)] in
  from_slice (to_vec v) = Some v -> sd_jcs (mk_obj [("known_peers", JArray known)]) = Some canonical ->
  parse_restricted_exchange (to_vec v) = Ok (m, g, known, canonical).
Proof.
  intros v Hv Hj. unfold parse_restricted_exchange, restricted_peer_payload. rewrite Hv. cbn [ok_or rbind].
  assert (jidx v "known_peers" = JArray known /\ jidx v "membership" = membership_value m /\ jidx v "gossip" = gossip_value g)
    as (-> & -> & ->) by (unfold jidx, v, mk_obj, obj_of_list; cbn [foldl fst snd]; by rewrite !jget_mk_obj_insert).
  rewrite membership_from_to, gossip_from_to. cbn [ok_or rbind as_array]. rewrite Hj. done.
Qed.

(** What one member of a restricted domain gossips, another member accepts:
    the body that [exchange_body] builds at time [sent] is accepted by
    [verify_and_extract_exchange] of any receiver whose policy admits the sender's
    assertion and whose clock is within the skew of the policy, as long as the
    receiver has room for the new replay identifier, and it yields exactly the
    peers that were sent. *)
Theorem exchange_roundtrip cfg_s cfg_r r_s r_r l known (answer_s answer_r : nat -> forall a, peer_answer a) signature body :
  pm_admission cfg_s = Restricted r_s -> pm_admission cfg_r = Restricted r_r -> ra_local r_s = Some l ->
  length (li_signing_seed l) = 32%nat -> mp_domain_id (ra_policy r_s) = mp_domain_id (ra_policy r_r) ->
  (run answer_s 0 (exchange_body cfg_s (mk_obj [("known_peers", JArray known)]))).2 = Some body ->
  (forall v, body = to_vec v -> from_slice body = Some v) ->
  let sent : Z := answer_s 0%nat (Lib UnixNow) in
  let rid : string := answer_s 1%nat (Lib NewUuid) in
  let policy := with_generation (ra_policy r_r) (answer_r 0%nat LoadGeneration) in
  let now : Z := answer_r 1%nat (Lib UnixNow) in
  member_admissible (li_membership l) policy (sub_id (as_subject (me_assertion (li_membership l)))) "peers" now ->
  sd_uuid rid = true ->
  sent <= u64_sat_add now (mp_maximum_clock_skew_seconds policy) -> u64_sat_sub now sent <= mp_maximum_clock_skew_seconds policy ->
  answer_r 3%nat (RecordReplay rid (as_expires_at (me_assertion (li_membership l))) (answer_r 2%nat (Lib UnixNow))) = Ok tt ->
  (run answer_r 0 (verify_and_extract_exchange cfg_r body signature)).2 = Ok known.
Proof.
  intros Hs Hr Hl Hseed Hdom Hbody Hread sent rid policy now Hm Hu Hs1 Hs2 Hrec.
  unfold exchange_body in Hbody. rewrite Hs, Hl in Hbody.
  destruct (sd_jcs _) as [canonical|] eqn:Hj; [|done]. cbn [run snd] in Hbody.
  destruct (sign_gossip _ _ _ _ _ _) as [g|] eqn:Hg; [|done]. injection Hbody as Hbody. rewrite Hdom in Hg.
  pose proof (sign_gossip_admissible _ policy _ _ _ _ _ now Hseed Hg Hm Hu Hs1 Hs2) as Ha.
  assert (gp_replay_id (ge_proof g) = rid) as Hid.
  { unfold sign_gossip in Hg. destruct (_ <>? _); [done|]. apply rbind_Ok in Hg as (c & _ & [= <-]). done. }
  unfold signed_exchange in Hbody. change (jidx (mk_obj [("known_peers", JArray known)]) "known_peers") with (JArray known) in Hbody.
  pose proof (Hread _ (eq_sym Hbody)) as Hv. subst body.
  unfold verify_and_extract_exchange, verify_restricted_exchange. rewrite Hr. cbn [run].
  rewrite (parse_signed_exchange known _ _ canonical Hv Hj). cbn [run]. apply verify_gossip_spec in Ha. fold policy.
  unfold now in Ha. cbn [Nat.add] in *. rewrite Ha. unfold record_replay. cbn [run prog_bind Nat.add]. rewrite Hid. by rewrite Hrec.
Qed.
End exchange.

(** ** Election *)

Section election.
Context {lib : SignedDomain}.

Lemma score_ltb_spec a b : score_ltb a b = true <-> a.1 < b.1 \/ (a.1 = b.1 /\ String.compare a.2 b.2 = Lt).
Proof.
  unfold score_ltb. rewrite orb_true_iff, andb_true_iff, Z.ltb_lt, Z.eqb_eq. unfold str_ltb. by rewrite str_ltb_compare.
Qed.

Lemma score_total a b : score_ltb a b = false -> score_ltb b a = false -> a = b.
Proof.
  destruct a as [x s], b as [y t]. intros Ha Hb.
  assert (~ (x < y \/ (x = y /\ String.compare s t = Lt))) as Na by (intros E; by apply (score_ltb_spec (x, s) (y, t)) in E; congruence).
  assert (~ (y < x \/ (y = x /\ String.compare t s = Lt))) as Nb by (intros E; by apply (score_ltb_spec (y, t) (x, s)) in E; congruence).
  assert (x = y) as -> by lia. f_equal. rewrite str_compare_antisym in Nb.
  destruct (String.compare s t) eqn:E; simpl in Nb; [by apply String.compare_eq_iff|exfalso; tauto..].
Qed.

Lemma score_trans a b c : score_ltb a b = false -> score_ltb b c = false -> score_ltb a c = false.
Proof.
  intros Hab Hbc. apply not_true_iff_false. intros Hac. apply score_ltb_spec in Hac.
  apply not_true_iff_false in Hab, Hbc. rewrite score_ltb_spec in Hab, Hbc.
  destruct Hac as [Hlt|[E Hlt]].
  - destruct (Z.lt_trichotomy a.1 b.1) as [?|[?|?]]; [tauto| |lia]. tauto || lia.
  - destruct (Z.lt_trichotomy a.1 b.1) as [?|[Eb|?]]; [tauto| |lia].
    destruct (String.compare a.2 b.2) eqn:E1; [|tauto|].
    + apply String.compare_eq_iff in E1. rewrite E1 in Hlt. apply Hbc. right. split; [lia|done].
    + apply Hbc. right. split; [lia|]. eapply str_compare_trans; [|exact Hlt]. by rewrite str_compare_antisym, E1.
Qed.

Lemma min_by_spec {A} (score : A -> Z * string) best l :
  let m := min_by (fun a b => score_ltb (score a) (score b)) best l in
  m ∈ best :: l /\ forall x, x ∈ best :: l -> score_ltb (score x) (score m) = false.
Proof.
  revert best. induction l as [|y l IH]; intros best; cbn [min_by].
  - split; [left|]. intros x ->%list_elem_of_singleton. unfold score_ltb. rewrite Z.ltb_irrefl, Z.eqb_refl. simpl.
    apply not_true_iff_false. unfold str_ltb. rewrite str_ltb_compare, str_compare_refl. done.
  - destruct (score_ltb (score y) (score best)) eqn:E.
    + destruct (IH y) as [Hin Hmin]. split; [by right|]. intros x [->|Hx]%elem_of_cons; [|by apply Hmin].
      apply (score_trans _ (score y)); [|apply Hmin; by left].
      apply not_true_iff_false. intros E'. apply score_ltb_spec in E, E'. rewrite str_compare_antisym in E'.
      destruct (String.compare (score y).2 (score best).2), E as [?|[? ?]], E' as [?|[? ?]]; simpl in *; congruence || lia.
    + destruct (IH best) as [Hin Hmin]. split; [apply elem_of_cons in Hin as [->|?]; [left|by do 2 right]|].
      intros x [->|[->|Hx]%elem_of_cons]%elem_of_cons; [apply Hmin; by left| |apply Hmin; by right].
      apply (score_trans _ (score best)); [done|apply Hmin; by left].
Qed.

(** A candidate of least score. *)
Definition least_scored (worker_id : string) (candidates : list PeerInfo) (e : PeerInfo) : Prop :=
  e ∈ candidates /\
  forall p, p ∈ candidates -> score_ltb (election_score worker_id p) (election_score worker_id e) = false.

(** Relay election is deterministic: the elected relay is a candidate, no
    candidate scores lower, and workers that see the same candidates elect the
    same relay whatever the order in which their tables are iterated, as long as
    the candidates' hashes differ. *)
Theorem election_agreed worker_id candidates :
  (candidates <> [] -> exists e, elect worker_id candidates = Some e /\ least_scored worker_id candidates (el_peer e)) /\
  (forall candidates', candidates ≡ₚ candidates' ->
     (forall p q, p ∈ candidates -> q ∈ candidates -> (election_score worker_id p).2 = (election_score worker_id q).2 -> p = q) ->
     elect worker_id candidates = elect worker_id candidates').
Proof.
  assert (forall l, l <> [] -> exists e, elect worker_id l = Some e /\ least_scored worker_id l (el_peer e)) as Hmin.
  { intros [|p l]; [done|]. intros _. destruct (min_by_spec (election_score worker_id) p l) as [Hin Hle].
    eexists. split; [reflexivity|]. by split. }
  split; [apply Hmin|]. intros l' Hp Hinj. destruct candidates as [|p l]; [by apply Permutation_nil in Hp as ->|].
  destruct l' as [|p' l']; [by apply Permutation_sym, Permutation_nil in Hp|].
  destruct (Hmin (p :: l)) as (e & He & Hin & Hle); [done|]. destruct (Hmin (p' :: l')) as (e' & He' & Hin' & Hle'); [done|].
  assert (el_peer e = el_peer e') as Heq.
  { apply Hinj; [done|by rewrite Hp|]. rewrite Hp in Hin. rewrite <- Hp in Hin'.
    by rewrite (score_total _ _ (Hle _ Hin') (Hle' _ Hin)). }
  rewrite He, He'. f_equal. unfold elect in He, He'. injection He as <-. injection He' as <-. cbn [el_peer] in Heq. by rewrite Heq.
Qed.
End election.
