(* ===== verification/PeerWitness.v ===== *)
(** * Concrete runs of the mesh

    A library that satisfies the interface of restricted domains, a domain of
    two members, and executions on which the theorems about the mesh apply. *)

From S2P Require Import Prelude Program Concurrent Text Json Cbor CodecModel HttpResource ClientTypes ClientEffects ConsumerToken Signing Membership PeerManager PeerSafety Selection ClientWitness.

(** ** A library *)

Definition get_strings (v : json) (k : string) : option (list string) := let! l := jget v k ≫= as_array in mapM as_str l.
Definition read_subject (v : json) : option MembershipSubject :=
  let! kind := get_str v "kind" in let! id := get_str v "id" in let! key_id := get_str v "key_id" in
  let! key := get_str v "public_key_ed25519" in Some (mkSubject kind id key_id key).
Definition read_issuer (v : json) : option MembershipIssuer :=
  let! id := get_str v "id" in let! key_id := get_str v "key_id" in Some (mkIssuer id key_id).
Definition read_assertion (v : json) : option MembershipAssertion :=
  let! schema := get_str v "schema" in let! profile := get_str v "profile" in let! id := get_str v "assertion_id" in
  let! domain := get_str v "domain_id" in let! subject := jget v "subject" ≫= read_subject in
  let! issuer := jget v "issuer" ≫= read_issuer in let! issued := get_u64 v "issued_at" in
  let! expires := get_u64 v "expires_at" in let! generation := get_u64 v "generation" in
  let! scopes := get_strings v "scopes" in let! audience := get_strings v "audience" in
  Some (mkAssertion schema profile id domain subject issuer issued expires generation scopes audience).
Definition read_signature (v : json) : option DetachedSignature :=
  let! algorithm := get_str v "algorithm" in let! value := get_str v "value" in
  Some (mkDetached algorithm (get_str v "key_id") value).
Definition read_membership (v : json) : option MembershipEnvelope :=
  let! a := jget v "assertion" ≫= read_assertion in let! s := jget v "signature" ≫= read_signature in Some (mkMembership a s).
Definition read_gossip (v : json) : option GossipEnvelope :=
  let! p := jget v "proof" in let! s := jget v "signature" ≫= read_signature in
  let! sender := get_str p "sender_id" in let! domain := get_str p "domain_id" in let! sent := get_u64 p "sent_at" in
  let! replay := get_str p "replay_id" in let! sha := get_str p "payload_sha256" in
  let! assertion := get_str p "membership_assertion_id" in
  Some (mkGossip (mkProof sender domain sent replay sha assertion) s).

Lemma mapM_strings l : mapM as_str (JString <$> l) = Some l.
Proof. induction l as [|s l IH]; [done|]. change (mapM as_str (JString <$> s :: l)) with (mapM as_str (JString <$> l) ≫= fun r => Some (s :: r)). by rewrite IH. Qed.

Lemma read_signature_value s : read_signature (signature_value s) = Some s.
Proof. by destruct s as [a [k|] v]. Qed.
Lemma get_strings_value v k l : jget v k = Some (strings_value l) -> get_strings v k = Some l.
Proof. intros E. unfold get_strings. rewrite E. simpl. apply mapM_strings. Qed.
Lemma read_assertion_value a : read_assertion (assertion_value a) = Some a.
Proof.
  destruct a as [? ? ? ? [? ? ? ?] [? ?] ? ? ? scopes audience]. unfold read_assertion.
  rewrite (get_strings_value _ "scopes" scopes), (get_strings_value _ "audience" audience) by reflexivity. reflexivity.
Qed.
Lemma read_membership_value e : read_membership (membership_value e) = Some e.
Proof.
  destruct e as [a s]. unfold read_membership.
  change (jget (membership_value (mkMembership a s)) "assertion") with (Some (assertion_value a)).
  change (jget (membership_value (mkMembership a s)) "signature") with (Some (signature_value s)).
  cbn [mbind option_bind]. by rewrite read_assertion_value, read_signature_value.
Qed.
Lemma read_gossip_value g : read_gossip (gossip_value g) = Some g.
Proof.
  destruct g as [[? ? ? ? ? ?] s]. unfold read_gossip.
  change (jget (gossip_value (mkGossip ?p s)) "signature") with (Some (signature_value s)).
  cbn [mbind option_bind]. by rewrite read_signature_value.
Qed.

Definition toy_domain : SignedDomain := {|
  sd_b64_decode s := Some (str_bytes s);
  sd_b64_encode := bytes_str;
  sd_public s := s;
  sd_sign := toy_sign;
  sd_key_valid _ := true;
  sd_verify k m sig := bool_decide (sig = toy_sign k m);
  sd_sha256_hex b := bytes_str (resize 32 x00 b);
  sd_jcs v := Some (json_to_vec v);
  sd_uuid s := negb (str_is_empty s);
  membership_from_value := read_membership;
  gossip_from_value := read_gossip;
  sd_decode_encode l := f_equal Some (str_bytes_str l);
  sd_public_length s H := H;
  sd_public_valid _ _ := eq_refl;
  sd_sign_length := toy_sign_length;
  sd_verify_sign s m _ := toy_verify_sign s m;
  membership_from_to := read_membership_value;
  gossip_from_to := read_gossip_value
|}.
#[local] Existing Instances toy_domain toy_signing demo_url demo_serde.

(** ** A domain *)

Definition authority_seed : list byte := repeat x41 32.
Definition demo_policy : MembershipPolicy := mkMembershipPolicy "dom" "auth" "k0" (bytes_str authority_seed) 1 30.
Definition demo_assertion (id : string) (seed : list byte) (generation expires : Z) : MembershipAssertion :=
  mkAssertion MEMBERSHIP_SCHEMA RESTRICTED_PROFILE ("assertion-" +:+ id) "dom" (mkSubject "node" id ("key-" +:+ id) (bytes_str seed))
    (mkIssuer "auth" "k0") 0 expires generation ["peers"; "bootstrap"] ["dom"].
Definition demo_membership (id : string) (seed : list byte) (generation expires : Z) : MembershipEnvelope :=
  let a := demo_assertion id seed generation expires in
  mkMembership a (mkDetached "Ed25519" None (bytes_str (sd_sign authority_seed (MEMBERSHIP_DOMAIN ++ json_to_vec (assertion_value a))))).
Definition member_seed : list byte := repeat x42 32.
Definition demo_local (expires : Z) : RestrictedLocalIdentity := mkLocalIdentity (demo_membership "m" member_seed 6 expires) member_seed.
Definition demo_admission (expires : Z) : RestrictedPeerAdmission :=
  mkRestrictedAdmission demo_policy "bearer" None (Some (demo_local expires)).
Definition demo_peer_cfg (expires : Z) : peer_config := with_opts "https://dir/" "" false 9485 (Restricted (demo_admission expires)).

(** Two advertised members, of generations 2 and 5. *)
Definition advertised (id : string) (generation : Z) : json :=
  set_field "membership" (membership_value (demo_membership id member_seed generation 1000))
    (mk_obj [("node_id", JString id); ("endpoint", JString ("https://" +:+ id +:+ ".example.com"))]).
Definition demo_known : list json := [advertised "old" 2; advertised "new" 5].

Definition demo_peer_env (t : Z) : peer_env :=
  mkPeerEnv t 0 [] (fun _ => 0)
    (fun a => match a return answer a with NewUuid => "uuid-1" | a => demo_answer 0 a end) (fun _ _ => None) (fun _ _ => Err "down").
Definition demo_peer_answer (t : Z) (n : nat) (a : peer_action) : peer_answer a :=
  (pperform (demo_peer_cfg 1000) (peer_world_new (demo_peer_cfg 1000)) (demo_peer_env t) a).1.

(** What a member sends at a time, under an assertion that expires. *)
Definition demo_body (sent expires : Z) : list byte :=
  default [] (run (demo_peer_answer sent) 0 (exchange_body (demo_peer_cfg expires) (mk_obj [("known_peers", JArray demo_known)]))).2.

Lemma demo_reads v : from_slice (to_vec v) = Some v.
Proof. exact (f_equal result_ok (model_json_from_to v)). Qed.

Lemma default_some {A} (d : A) o : is_some o = true -> o = Some (default d o).
Proof. by destruct o. Qed.
Lemma demo_body_sent :
  (run (demo_peer_answer 100) 0 (exchange_body (demo_peer_cfg 1000) (mk_obj [("known_peers", JArray demo_known)]))).2
    = Some (demo_body 100 1000).
Proof. apply default_some. vm_compute. reflexivity. Qed.
Lemma demo_member :
  member_admissible (li_membership (demo_local 1000)) (with_generation demo_policy 1) "m" "peers" 110.
Proof. apply verify_membership_spec. vm_compute. reflexivity. Qed.

Lemma exchange_roundtrip_witness :
  (run (demo_peer_answer 110) 0 (verify_and_extract_exchange (demo_peer_cfg 1000) (demo_body 100 1000) None)).2 = Ok demo_known.
Proof.
  apply (exchange_roundtrip (demo_peer_cfg 1000) (demo_peer_cfg 1000) (demo_admission 1000) (demo_admission 1000) (demo_local 1000)
    demo_known (demo_peer_answer 100) (demo_peer_answer 110) None (demo_body 100 1000) eq_refl eq_refl eq_refl eq_refl eq_refl
    demo_body_sent).
  - intros v E. rewrite E. apply demo_reads.
  - exact demo_member.
  - reflexivity.
  - vm_compute. discriminate.
  - vm_compute. discriminate.
  - reflexivity.
Defined.

(** ** A revocation between the steps of an exchange *)

Notation mesh_run := (run_sched (pperform (demo_peer_cfg 1000)) pe_unix (peer_world_new (demo_peer_cfg 1000))).
Notation mesh_exec := (exec (pperform (demo_peer_cfg 1000)) pe_unix (peer_handler (demo_peer_cfg 1000)) (fun w _ w' => w' = w)
                         (peer_world_new (demo_peer_cfg 1000))).
Notation mesh_sched := (sched peer_answer unit peer_env).
Definition mesh_scheduled (x : mesh_sched) : Prop := match x with inl p => peer_handler (demo_peer_cfg 1000) p | inr _ => True end.
Definition mesh_steps (i n : nat) (t : Z) : list mesh_sched := repeat (inr (i, demo_peer_env t)) n.

Lemma mesh_steps_scheduled i n t : Forall mesh_scheduled (mesh_steps i n t).
Proof. induction n; constructor; [exact I|assumption]. Qed.
Lemma mesh_run_exec l :
  Forall mesh_scheduled l -> mesh_exec (mesh_run l).1.1.1 (mesh_run l).1.1.2 (mesh_run l).1.2 (mesh_run l).2.
Proof.
  intros Hl. pose proof (@run_sched_exec _ _ _ _ _ (pperform (demo_peer_cfg 1000)) pe_unix
    (peer_handler (demo_peer_cfg 1000)) (fun w _ w' => w' = w) (peer_world_new (demo_peer_cfg 1000)) l Hl) as Hx.
  by destruct (mesh_run l) as [[[tr t] w] ts].
Qed.

Definition exchange_call (sent expires : Z) : mesh_sched :=
  inl (forget (peers_endpoint (demo_peer_cfg 1000) None (demo_body sent expires))).
(** Merge, then retire generations below 4, then answer the exchange. *)
Definition revoke_steps : list mesh_sched :=
  exchange_call 100 1000 :: inl (forget (update_minimum_generation 4)) ::
  mesh_steps 0 8 110 ++ mesh_steps 1 3 120 ++ mesh_steps 0 4 125.
Lemma revoke_scheduled : Forall mesh_scheduled revoke_steps.
Proof. do 2 (constructor; [constructor|]). rewrite !Forall_app. split; [|split]; apply mesh_steps_scheduled. Qed.
Definition revoke_events : list (event peer_answer) := (mesh_run revoke_steps).1.1.1.

(** The revoked member was in the table before, and is not in the answer. *)
Example revoked_in_between :
  (pi_node_id <$> (map_to_list (pw_peers (mesh_run (take 10 revoke_steps)).1.2)).*2,
   pi_node_id <$> concat (handed <$> revoke_events)) = (["old"; "new"], ["new"]).
Proof. vm_compute. reflexivity. Qed.
Lemma revoke_split :
  revoke_events = take 4 revoke_events ++ Ev 1 120 (RetainGeneration 4) 1 :: drop 5 revoke_events.
Proof. symmetry. apply take_drop_middle. vm_compute. reflexivity. Qed.
Lemma revoke_exec : mesh_exec revoke_events (mesh_run revoke_steps).1.1.2 (mesh_run revoke_steps).1.2 (mesh_run revoke_steps).2.
Proof. exact (mesh_run_exec revoke_steps revoke_scheduled). Qed.
Lemma new_listed : exists p, pw_peers (mesh_run revoke_steps).1.2 !! "new" = Some p.
Proof.
  assert (is_some (pw_peers (mesh_run revoke_steps).1.2 !! "new") = true) as H by (vm_compute; reflexivity).
  destruct (pw_peers (mesh_run revoke_steps).1.2 !! "new") as [p|]; [by exists p|done].
Qed.

Lemma mesh_revocation_witness :
  exists p, pw_peers (mesh_run revoke_steps).1.2 !! "new" = Some p /\ entry_ok (demo_peer_cfg 1000) "new" p /\ above 4 p.
Proof.
  destruct new_listed as [p Hp]. exists p. split; [exact Hp|].
  destruct (mesh_revocation (demo_peer_cfg 1000) _ _ _ _ revoke_exec) as (Hok & _ & Hrev).
  split; [exact (Hok _ _ Hp)|]. destruct (Hrev _ _ _ _ _ _ revoke_split) as (_ & Hab & _). exact (Hab _ _ Hp).
Defined.

(** ** A replay identifier used again *)

(** Refused at time 120, and accepted with a new assertion once the first has expired. *)
Definition replay_steps : list mesh_sched :=
  exchange_call 100 1000 :: exchange_call 100 1000 :: exchange_call 1000 5000 ::
  mesh_steps 0 12 110 ++ mesh_steps 1 4 120 ++ mesh_steps 2 4 1000.
Lemma gossip_scheduled : Forall mesh_scheduled replay_steps.
Proof. do 3 (constructor; [constructor|]). rewrite !Forall_app. split; [|split]; apply mesh_steps_scheduled. Qed.
Definition replay_events : list (event peer_answer) := (mesh_run replay_steps).1.1.1.
Definition answers (ev : event peer_answer) : option (result unit string) :=
  match ev with
  | Ev _ _ a r => match a return peer_answer a -> option (result unit string) with RecordReplay _ _ _ => Some | _ => fun _ => None end r
  end.
Example replay_refused : omap answers replay_events = [Ok tt; Err "gossip_replay"; Ok tt].
Proof. vm_compute. reflexivity. Qed.

Lemma replay_split :
  replay_events = [] ++ Ev 2 1000 (RecordReplay "uuid-1" 5000 1000) (Ok tt) :: (take 15 (drop 1 replay_events))
    ++ Ev 0 110 (RecordReplay "uuid-1" 1000 110) (Ok tt) :: drop 17 replay_events.
Proof.
  symmetry. replace (drop 17 replay_events) with (drop 16 (drop 1 replay_events)) by (by rewrite drop_drop).
  rewrite (take_drop_middle (drop 1 replay_events)) by (rewrite lookup_drop; vm_compute; reflexivity).
  rewrite app_nil_l. apply (take_drop_middle replay_events 0). vm_compute. reflexivity.
Qed.
Lemma replay_exec_split :
  mesh_exec ([] ++ Ev 2 1000 (RecordReplay "uuid-1" 5000 1000) (Ok tt) :: (take 15 (drop 1 replay_events))
    ++ Ev 0 110 (RecordReplay "uuid-1" 1000 110) (Ok tt) :: drop 17 replay_events)
    (mesh_run replay_steps).1.1.2 (mesh_run replay_steps).1.2 (mesh_run replay_steps).2.
Proof. rewrite <- replay_split. exact (mesh_run_exec replay_steps gossip_scheduled). Qed.

Lemma gossip_replay_once_witness : 1000 <= 1000 /\ Z.of_nat (size (pw_replay_ids (mesh_run replay_steps).1.2)) <= MAX_REPLAY_IDS.
Proof. exact (gossip_replay_once (demo_peer_cfg 1000) _ _ _ _ _ _ _ _ _ _ _ replay_exec_split eq_refl eq_refl). Defined.

(** ** One exchange on its own, and an election *)

Lemma exchange_authenticated_witness :
  pr_status (run (demo_peer_answer 110) 0 (peers_endpoint (demo_peer_cfg 1000) None (demo_body 100 1000))).2 = 200 /\
  exists peers, authenticated (demo_peer_cfg 1000) None (demo_body 100 1000) peers
    (run (demo_peer_answer 110) 0 (peers_endpoint (demo_peer_cfg 1000) None (demo_body 100 1000))).1.
Proof.
  assert (pr_status (run (demo_peer_answer 110) 0 (peers_endpoint (demo_peer_cfg 1000) None (demo_body 100 1000))).2 = 200) as Es
    by (vm_compute; reflexivity).
  destruct (exchange_authenticated (demo_peer_cfg 1000) (demo_peer_answer 110) 0 None (demo_body 100 1000) _ _ (surjective_pairing _))
    as [_ [[_ Ha]|[[reason Er] _]]]; [split; [exact Es|exact Ha]|].
  rewrite Er in Es. discriminate Es.
Defined.

Definition candidate (id : string) (load : Z) : PeerInfo :=
  mkPeer id ("https://" +:+ id +:+ ".example.com:443/relay") "" "" 0 true 9485 (f64_of_Z load) None None None None.
Definition demo_relays : list PeerInfo := [candidate "a" 3; candidate "b" 1; candidate "c" 2].

Lemma election_agreed_witness :
  elect "w" demo_relays = Some (mkElected (candidate "b" 1) "b.example.com" 9485) /\
  elect "w" (rev demo_relays) = Some (mkElected (candidate "b" 1) "b.example.com" 9485).
Proof.
  split; [vm_compute; reflexivity|].
  rewrite <- (proj2 (election_agreed "w" demo_relays) (rev demo_relays)); [vm_compute; reflexivity|apply Permutation_rev|].
  intros p q Hp Hq. unfold demo_relays in Hp, Hq. rewrite !elem_of_cons in Hp, Hq.
  destruct Hp as [->|[->|[->|[]%elem_of_nil]]], Hq as [->|[->|[->|[]%elem_of_nil]]]; try (intros _; reflexivity);
    intros E; exfalso; revert E; vm_compute; discriminate.
Defined.
