(* ===== verification/McpPolicy.v ===== *)
(** * MCP tool policy and negotiation ([src/mcp_policy.rs], [src/mcp_negotiation.rs])

    The risk label of a tool, the policy that gates tools, the choice of a
    protocol revision, and requests and responses of the stateless revision. *)

From S2P Require Import Prelude Text Chars Json Signing.

(** ** Risk labels *)

Definition RISK_KEYWORDS : list (string * list string) :=
  [("shell_exec", ["bash"; "shell"; "exec"; "run_command"; "command"; "eval"; "python_exec"]);
   ("data_read", ["read_document"; "query_database"; "list_resource"; "dataset_read"; "record_lookup"]);
   ("file_read", ["read_file"; "list_dir"; "cat"; "open_file"; "file_read"; "list_files"]);
   ("file_write", ["write_file"; "delete_file"; "remove_file"; "edit_file"; "save_file"; "mkdir"; "rmdir"]);
   ("network_fetch", ["fetch"; "crawl"; "http"; "web_request"; "search_web"; "url"]);
   ("browser_control", ["browser"; "computer_use"; "click"; "type"; "screenshot"; "navigate"]);
   ("credential_access", ["secret"; "credential"; "token"; "ssh_key"; "wallet"; "password"]);
   ("system_control", ["systemctl"; "launchctl"; "service_restart"; "install_package"; "firewall"; "reboot"; "shutdown"]);
   ("physical_world", ["robot"; "drone"; "actuator"; "iot_control"; "medical_device"; "industrial_control"]);
   ("regulated_decision", ["credit_score"; "hire"; "employment"; "benefit_eligibility"; "diagnose"; "triage_patient"])].

Definition tool_char (c : Ascii.ascii) : bool := is_ascii_alphanumeric c || char_in c "_:-".

Fixpoint first_label (safe : string) (l : list (string * list string)) : string :=
  match l with
  | [] => "benign_read"
  | (label, needles) :: l =>
      if existsb (fun needle => (safe ==? needle) || str_contains safe needle) needles then label else first_label safe l
  end.

Section policy.
(** [str::to_lowercase] *)
Context (to_lowercase : string -> string).

Definition tool_risk_label (tool_name : string) : string :=
  first_label (sanitize tool_char (to_lowercase tool_name)) RISK_KEYWORDS.

Record McpToolPolicy := mkToolPolicy {
  allow_dangerous_tools : bool;
  authz_policy : string;
  sandbox_profile : string;
  audit_redaction : bool
}.

Definition dangerous_ready (p : McpToolPolicy) : bool :=
  allow_dangerous_tools p && negb (str_is_empty (trim (authz_policy p)))
  && str_in (to_lowercase (trim (sandbox_profile p))) ["1"; "true"; "strict"; "container"; "sandbox"]
  && audit_redaction p.

Definition allows (p : McpToolPolicy) (tool_name : string) : bool :=
  (tool_risk_label tool_name ==? "benign_read") || dangerous_ready p.

Definition null_or_text (s : string) (n : nat) : json := if str_is_empty s then JNull else JString (take_chars n s).
Definition receipt (p : McpToolPolicy) (tool_name decision : string) (argument_count : Z) : json :=
  mk_obj [("tool_name", JString (str_take 96 (sanitize tool_char tool_name)));
          ("tool_risk", JString (tool_risk_label tool_name)); ("decision", JString decision);
          ("authz_policy", null_or_text (authz_policy p) 96); ("sandbox_profile", null_or_text (sandbox_profile p) 32);
          ("audit_redacted", JBool (audit_redaction p)); ("argument_count", u64_json argument_count);
          ("argument_content", JString "excluded")].

(** The category of a tool: a keyword occurs in its name. *)
Definition category (tool_name label : string) : Prop :=
  exists needles needle, (label, needles) ∈ RISK_KEYWORDS /\ needle ∈ needles /\
    str_contains (sanitize tool_char (to_lowercase tool_name)) needle = true.

Lemma contains_self s : str_contains s s = true.
Proof. apply str_contains_spec. exists EmptyString, EmptyString. change (EmptyString +:+ (s +:+ EmptyString)) with (s +:+ EmptyString). by rewrite str_app_nil. Qed.

Lemma needle_exists safe needles :
  existsb (fun needle => (safe ==? needle) || str_contains safe needle) needles = true <->
  exists needle, needle ∈ needles /\ str_contains safe needle = true.
Proof.
  rewrite existsb_exists. split; intros (n & Hin & H); exists n.
  - rewrite <- list_elem_of_In in Hin. split; [done|]. apply orb_true_iff in H as [->%String.eqb_eq|H]; [apply contains_self|done].
  - rewrite <- list_elem_of_In. split; [done|]. by rewrite H, orb_true_r.
Qed.

Lemma first_label_spec safe l :
  Forall (fun e => e.1 <> "benign_read") l ->
  (first_label safe l = "benign_read" <->
     forall label needles needle, (label, needles) ∈ l -> needle ∈ needles -> str_contains safe needle = false) /\
  (first_label safe l <> "benign_read" -> exists needles needle, (first_label safe l, needles) ∈ l /\ needle ∈ needles /\
     str_contains safe needle = true).
Proof.
  induction 1 as [|[label needles] l Hn Hl [IH1 IH2]]; cbn [first_label].
  - split; [|done]. split; [|done]. intros _ ? ? ? Hin. by apply elem_of_nil in Hin.
  - destruct (existsb _ needles) eqn:E; simpl in Hn.
    + apply needle_exists in E as (n & Hin & Hc). split.
      * split; [done|]. intros H. by rewrite (H label needles n (list_elem_of_here _ _) Hin) in Hc.
      * intros _. exists needles, n. split; [left|done].
    + apply not_true_iff_false in E. rewrite needle_exists in E. split.
      * rewrite IH1. split.
        -- intros H label' needles' n [[= -> ->]|Hin]%elem_of_cons Hn'; [|by eapply H].
           apply not_true_iff_false. intros Hc. apply E. by exists n.
        -- intros H label' needles' n Hin. apply H with label'. by right.
      * intros Hb. destruct (IH2 Hb) as (nd & n & Hin & ?). exists nd, n. split; [by right|done].
Qed.

Lemma risk_spec tool_name :
  (tool_risk_label tool_name = "benign_read" <-> forall label, ~ category tool_name label) /\
  (tool_risk_label tool_name <> "benign_read" -> category tool_name (tool_risk_label tool_name)).
Proof.
  assert (Forall (fun e : string * list string => e.1 <> "benign_read") RISK_KEYWORDS) as Hf by by repeat constructor.
  destruct (first_label_spec (sanitize tool_char (to_lowercase tool_name)) RISK_KEYWORDS Hf) as [H1 H2].
  split; [|intros H; by apply H2]. unfold tool_risk_label. rewrite H1. split.
  - intros H label (nd & n & Hin & Hn & Hc). by rewrite (H label nd n) in Hc.
  - intros H label nd n Hin Hn. apply not_true_iff_false. intros Hc. apply (H label). by exists nd, n.
Qed.
Lemma allows_spec p tool_name :
  allows p tool_name = true <->
     (forall label, ~ category tool_name label) \/
     (allow_dangerous_tools p = true /\ trim (authz_policy p) <> EmptyString /\
      to_lowercase (trim (sandbox_profile p)) ∈ ["1"; "true"; "strict"; "container"; "sandbox"] /\ audit_redaction p = true).
Proof.
  unfold allows, dangerous_ready. rewrite orb_true_iff, String.eqb_eq, (proj1 (risk_spec tool_name)), !andb_true_iff, negb_true_iff, str_in_elem.
  unfold str_is_empty. rewrite String.eqb_neq. tauto.
Qed.

(** The tool policy is exact: a tool has a risk exactly when a keyword of a
    category occurs in its lower-cased name (every character outside the tool
    alphabet read as an underscore), the label is such a category, and a tool is
    allowed exactly when no keyword occurs or all four controls are in place:
    dangerous tools enabled, an authorisation policy named, a known sandbox
    profile, and redacted audit. *)
Theorem tool_policy_exact p tool_name :
  (tool_risk_label tool_name = "benign_read" <-> forall label, ~ category tool_name label) /\
  (tool_risk_label tool_name <> "benign_read" -> category tool_name (tool_risk_label tool_name)) /\
  (allows p tool_name = true <->
     (forall label, ~ category tool_name label) \/
     (allow_dangerous_tools p = true /\ trim (authz_policy p) <> EmptyString /\
      to_lowercase (trim (sandbox_profile p)) ∈ ["1"; "true"; "strict"; "container"; "sandbox"] /\ audit_redaction p = true)).
Proof. split; [apply risk_spec|]. split; [apply risk_spec|apply allows_spec]. Qed.
End policy.

(** ** Negotiation *)

Definition LEGACY_MCP_REVISION : string := "2025-11-25".
Definition MODERN_MCP_REVISION : string := "2026-07-28".
Definition SUPPORTED_MCP_REVISIONS : list string := [LEGACY_MCP_REVISION; MODERN_MCP_REVISION].

Definition supported_extension (value : string) : bool := str_in value ["tasks"; "skills"; "apps"].

Definition required_fields : list (string * string) :=
  [("oauth_issuer_matches", "oauth_issuer_mismatch"); ("oauth_audience_matches", "oauth_audience_mismatch");
   ("resource_indicator_present", "missing_resource_indicator");
   ("protected_resource_metadata_valid", "invalid_protected_resource_metadata"); ("pkce_valid", "pkce_required");
   ("consent_granted", "consent_required"); ("audit_output_redacted", "audit_redaction_required")].

Definition era_refused (reason : string) : json := mk_obj [("accepted", JBool false); ("reason", JString reason)].
Definition era_accepted (rest : list (string * json)) : json := mk_obj (("accepted", JBool true) :: rest).

Fixpoint first_failed (input : json) (l : list (string * string)) : option string :=
  match l with
  | [] => None
  | (field, reason) :: l => if jis_bool (jidx input field) false then Some reason else first_failed input l
  end.

(** [peer.is_none_or(|v| v.is_empty() || v.iter().any(|r| r == revision))] *)
Definition lists_revision (revision : string) (v : list json) : bool := existsb (fun r => jis_str r revision) v.
Definition peer_speaks (revision : string) (peer : option (list json)) : bool :=
  is_none_or peer (fun v => bool_decide (v = []) || lists_revision revision v).

Definition evaluate_mcp_era (input : json) : json :=
  match first_failed input required_fields with
  | Some reason => era_refused reason
  | None =>
      if jis_str (jidx input "downstream_credential_source") "caller" then era_refused "credential_passthrough_prohibited"
      else if jis_bool (jidx input "server_identity_matches_selected_endpoint") false then era_refused "server_identity_mismatch"
      else if jis_bool (jidx input "modern_request_failed") true && negb (jis_bool (jidx input "legacy_authentication_available") true)
      then era_refused "unauthenticated_downgrade"
      else if is_some_and (as_str (jidx input "extension")) (fun e => negb (supported_extension e))
      then era_refused "unsupported_extension"
      else
        let peer := as_array (jidx input "peer_supported_revisions") in
        match as_str (jidx input "offered_revision") with
        | Some revision =>
            if revision ==? MODERN_MCP_REVISION then
              if jis_bool (jidx input "protocol_header_present") false then era_refused "missing_protocol_version"
              else if jis_bool (jidx input "method_header_matches") false || jis_bool (jidx input "name_header_matches") false
              then era_refused "header_body_mismatch"
              else if jis_bool (jidx input "reserved_meta_valid") false then era_refused "malformed_reserved_metadata"
              else if peer_speaks MODERN_MCP_REVISION peer then
                if jis_bool (jidx input "request_state_explicit") true then era_accepted [("state_source", JString "request")]
                else era_accepted [("era", JString "modern"); ("session_mode", JString "stateless")]
              else if is_some_and peer (lists_revision LEGACY_MCP_REVISION)
                      && jis_bool (jidx input "legacy_revision_explicitly_offered") true
                      && jis_bool (jidx input "security_requirements_preserved") true
              then era_accepted [("era", JString "legacy"); ("reason", JString "explicit_mutual_downgrade")]
              else era_refused "unsupported_revision"
            else if revision ==? LEGACY_MCP_REVISION then
              if peer_speaks LEGACY_MCP_REVISION peer
              then era_accepted [("era", JString "legacy"); ("session_mode", JString "negotiated")]
              else era_refused "unsupported_revision"
            else era_refused "unsupported_revision"
        | None => era_refused "unsupported_revision"
        end
  end.

Definition build_modern_mcp_request (request_id : Z) (method name : string) (params : list (string * json))
    (extensions : list string) : result (list (string * string) * json) string :=
  if existsb (fun e => negb (supported_extension e)) extensions then Err "unsupported_extension"
  else
    let meta := mk_obj [("protocolVersion", JString MODERN_MCP_REVISION); ("client", mk_obj [("name", JString "iicp-gateway")])] in
    let meta := if bool_decide (extensions = []) then meta else set_field "extensions" (JArray (JString <$> extensions)) meta in
    Ok ([("MCP-Protocol-Version", MODERN_MCP_REVISION); ("Mcp-Method", method); ("Mcp-Name", name)],
        mk_obj [("jsonrpc", JString "2.0"); ("id", u64_json request_id); ("method", JString method);
                ("params", JObject (obj_insert "_meta" meta params))]).

Definition validate_modern_mcp_response (data : json) (expected_server_name : string) : result unit string :=
  if negb (jis_str (jidx (jidx data "_meta") "protocolVersion") MODERN_MCP_REVISION) then Err "malformed_reserved_metadata"
  else if negb (jis_str (jidx (jidx (jidx data "_meta") "server") "name") expected_server_name) then Err "server_identity_mismatch"
  else Ok tt.

(** *** What an accepted negotiation guarantees *)

Lemma first_failed_None input l :
  first_failed input l = None <-> Forall (fun fr => jidx input fr.1 <> JBool false) l.
Proof.
  induction l as [|[field reason] l IH]; cbn [first_failed]; [by split|]. rewrite Forall_cons. simpl.
  destruct (jis_bool (jidx input field) false) eqn:E.
  - apply jis_bool_true in E. split; [done|]. intros [H _]. done.
  - rewrite IH. apply not_true_iff_false in E. rewrite jis_bool_true in E. tauto.
Qed.

(** No security condition is reported violated. *)
Record era_secure (input : json) : Prop := {
  es_fields : Forall (fun fr => jidx input fr.1 <> JBool false) required_fields;
  es_own_credential : jidx input "downstream_credential_source" <> JString "caller";
  es_server : jidx input "server_identity_matches_selected_endpoint" <> JBool false;
  es_downgrade : jidx input "modern_request_failed" = JBool true -> jidx input "legacy_authentication_available" = JBool true;
  es_extension : forall e, jidx input "extension" = JString e -> e ∈ ["tasks"; "skills"; "apps"]
}.

Lemma as_str_Some v s : as_str v = Some s <-> v = JString s.
Proof. destruct v; simpl; split; congruence. Qed.

Lemma jis_bool_false v b : jis_bool v b = false <-> v <> JBool b.
Proof. rewrite <- not_true_iff_false, jis_bool_true. done. Qed.
Lemma jis_str_false v s : jis_str v s = false <-> v <> JString s.
Proof. rewrite <- not_true_iff_false, jis_str_true. done. Qed.

Definition accepted_era (out : json) : bool := jis_bool (jidx out "accepted") true.

(** A peer without a list, or with an empty one, is taken to speak every revision. *)
Definition speaks (input : json) (revision : string) : Prop :=
  forall l, jidx input "peer_supported_revisions" = JArray l -> l = [] \/ JString revision ∈ l.

Lemma lists_revision_spec revision v : lists_revision revision v = true <-> JString revision ∈ v.
Proof.
  unfold lists_revision. rewrite existsb_exists, list_elem_of_In. split.
  - intros (r & Hin & ->%jis_str_true). done.
  - intros Hin. exists (JString revision). split; [done|]. by apply jis_str_true.
Qed.

Lemma peer_speaks_spec input revision :
  peer_speaks revision (as_array (jidx input "peer_supported_revisions")) = true <-> speaks input revision.
Proof.
  unfold peer_speaks, speaks. destruct (jidx input "peer_supported_revisions"); simpl; try (split; [|done]; by intros _ ? [=]).
  rewrite orb_true_iff, bool_decide_eq_true, lists_revision_spec. split; [by intros H k [= <-]|intros H; by apply H].
Qed.

Lemma refused_era reason : accepted_era (era_refused reason) = false.
Proof. reflexivity. Qed.

Lemma era_secure_spec input :
  era_secure input <->
  first_failed input required_fields = None /\ jis_str (jidx input "downstream_credential_source") "caller" = false /\
  jis_bool (jidx input "server_identity_matches_selected_endpoint") false = false /\
  jis_bool (jidx input "modern_request_failed") true && negb (jis_bool (jidx input "legacy_authentication_available") true) = false /\
  is_some_and (as_str (jidx input "extension")) (fun e => negb (supported_extension e)) = false.
Proof.
  rewrite first_failed_None, jis_str_false, jis_bool_false.
  assert (jis_bool (jidx input "modern_request_failed") true && negb (jis_bool (jidx input "legacy_authentication_available") true) = false
    <-> (jidx input "modern_request_failed" = JBool true -> jidx input "legacy_authentication_available" = JBool true)) as ->.
  { rewrite andb_false_iff, negb_false_iff, jis_bool_false, jis_bool_true.
    destruct (decide (jidx input "modern_request_failed" = JBool true)); tauto. }
  assert (is_some_and (as_str (jidx input "extension")) (fun e => negb (supported_extension e)) = false
    <-> forall e, jidx input "extension" = JString e -> e ∈ ["tasks"; "skills"; "apps"]) as ->.
  { destruct (as_str (jidx input "extension")) as [e|] eqn:E; cbn [is_some_and].
    - apply as_str_Some in E. rewrite E, negb_false_iff. unfold supported_extension. rewrite str_in_elem. split; [by intros H k [= <-]|intros H; by apply H].
    - split; [|done]. intros _ e He. by rewrite He in E. }
  split; [by intros [? ? ? ? ?]|]. intros (? & ? & ? & ? & ?). by constructor.
Qed.

(** The headers of a request of the stateless revision are consistent. *)
Definition modern_headers (input : json) : Prop :=
  jidx input "protocol_header_present" <> JBool false /\ jidx input "method_header_matches" <> JBool false /\
  jidx input "name_header_matches" <> JBool false /\ jidx input "reserved_meta_valid" <> JBool false.
Definition offers (input : json) (revision : string) : Prop := jidx input "offered_revision" = JString revision.
Definition explicit_downgrade (input : json) : Prop :=
  (exists l, jidx input "peer_supported_revisions" = JArray l /\ JString LEGACY_MCP_REVISION ∈ l) /\
  jidx input "legacy_revision_explicitly_offered" = JBool true /\ jidx input "security_requirements_preserved" = JBool true.

(** Case analysis on the first atom of the outermost conditions. *)
Ltac case_atom b := lazymatch b with ?x || _ => case_atom x | ?x && _ => case_atom x | _ => destruct b end.
Ltac case_ifs := repeat (lazymatch goal with |- context [if ?b then _ else _] => case_atom b end; cbn [orb andb negb]).
Ltac settle_era :=
  rewrite ?refused_era; (split; [split|]); try (intros [=]); try done; intuition congruence.

(** Negotiation is exact: an exchange is accepted exactly when no security
    condition is reported violated and the revision offered is spoken by the peer
    (with consistent headers for the stateless one) or, for the stateless revision
    only, the older one is offered explicitly, listed by the peer and preserves
    the security requirements; the outcome names the older revision exactly in
    these last two cases.  There is no silent downgrade. *)
Theorem mcp_era_exact input :
  (accepted_era (evaluate_mcp_era input) = true <->
     era_secure input /\
     ((offers input MODERN_MCP_REVISION /\ modern_headers input /\ (speaks input MODERN_MCP_REVISION \/ explicit_downgrade input)) \/
      (offers input LEGACY_MCP_REVISION /\ speaks input LEGACY_MCP_REVISION))) /\
  (get_str (evaluate_mcp_era input) "era" = Some "legacy" ->
     (offers input LEGACY_MCP_REVISION /\ speaks input LEGACY_MCP_REVISION) \/
     (offers input MODERN_MCP_REVISION /\ ~ speaks input MODERN_MCP_REVISION /\ explicit_downgrade input)).
Proof.
  rewrite era_secure_spec. unfold evaluate_mcp_era.
  destruct (first_failed input required_fields) as [r|]; [rewrite refused_era; split; [intuition congruence|done]|].
  destruct (jis_str (jidx input "downstream_credential_source") "caller"); [rewrite refused_era; split; [intuition congruence|done]|].
  destruct (jis_bool (jidx input "server_identity_matches_selected_endpoint") false);
    [rewrite refused_era; split; [intuition congruence|done]|].
  destruct (_ && _); [rewrite refused_era; split; [intuition congruence|done]|].
  destruct (is_some_and (as_str (jidx input "extension")) _); [rewrite refused_era; split; [intuition congruence|done]|].
  unfold offers, modern_headers. rewrite <- !jis_bool_false, <- !peer_speaks_spec. unfold explicit_downgrade.
  rewrite <- !(jis_bool_true (jidx input _)).
  assert ((exists l, jidx input "peer_supported_revisions" = JArray l /\ JString LEGACY_MCP_REVISION ∈ l) <->
    is_some_and (as_array (jidx input "peer_supported_revisions")) (lists_revision LEGACY_MCP_REVISION) = true) as ->.
  { split; [intros (l & -> & Hin); by apply lists_revision_spec|].
    destruct (jidx input "peer_supported_revisions") as [| | | |l|] eqn:El; simpl; try done.
    intros Hl. exists l. split; [done|]. by apply lists_revision_spec. }
  destruct (as_str (jidx input "offered_revision")) as [rv|] eqn:Er.
  - assert (JString MODERN_MCP_REVISION <> JString LEGACY_MCP_REVISION) as Hne by done.
    apply as_str_Some in Er. rewrite Er. destruct (String.eqb_spec rv MODERN_MCP_REVISION) as [->|Hm].
    + case_ifs; settle_era.
    + destruct (String.eqb_spec rv LEGACY_MCP_REVISION) as [->|Hl]; [case_ifs; settle_era|].
      (split; [split|]); try (intros [=]); try done. intros [_ [[[= ?] _]|[[= ?] _]]]; done.
  - (split; [split|]); try (intros [=]); try done. intros [_ [[E _]|[E _]]]; by rewrite E in Er.
Qed.

(** The stateless helpers agree: a request is built exactly for supported
    extensions; its headers and body name the same method and tool, the body
    carries the caller's parameters except [_meta], which is the gateway's own,
    and an answer is accepted exactly when it states the revision and the name of
    the configured server. *)
Theorem modern_request_exact id method name params extensions :
  (is_ok (build_modern_mcp_request id method name params extensions) = true <->
     Forall (fun e => e ∈ ["tasks"; "skills"; "apps"]) extensions) /\
  (forall headers rpc, build_modern_mcp_request id method name params extensions = Ok (headers, rpc) ->
     headers = [("MCP-Protocol-Version", MODERN_MCP_REVISION); ("Mcp-Method", method); ("Mcp-Name", name)] /\
     jidx rpc "method" = JString method /\ jidx rpc "id" = u64_json id /\
     jidx (jidx (jidx rpc "params") "_meta") "protocolVersion" = JString MODERN_MCP_REVISION /\
     forall k, k <> "_meta" -> jget (jidx rpc "params") k = obj_get params k) /\
  (forall data server, validate_modern_mcp_response data server = Ok tt <->
     jidx (jidx data "_meta") "protocolVersion" = JString MODERN_MCP_REVISION /\
     jidx (jidx (jidx data "_meta") "server") "name" = JString server).
Proof.
  unfold build_modern_mcp_request. split; [|split].
  - destruct (existsb _ extensions) eqn:E; simpl.
    + split; [done|]. intros Hf. apply existsb_exists in E as (e & Hin & He). rewrite Forall_forall in Hf.
      apply list_elem_of_In, Hf in Hin. apply negb_true_iff in He. unfold supported_extension in He.
      apply str_in_elem in Hin. congruence.
    + split; [|done]. intros _. apply Forall_forall. intros e Hin. apply str_in_elem. change (supported_extension e = true).
      destruct (supported_extension e) eqn:He; [done|]. assert (existsb (fun e => negb (supported_extension e)) extensions = true) as Ht.
      { apply existsb_exists. exists e. split; [by apply list_elem_of_In|by rewrite He]. }
      congruence.
  - intros headers rpc. destruct (existsb _ _); [done|]. intros [= <- <-]. split; [done|].
    unfold jidx. split; [done|]. split; [done|].
    assert (forall meta k, jget (default JNull (jget (mk_obj [("jsonrpc", JString "2.0"); ("id", u64_json id); ("method", JString method);
      ("params", JObject (obj_insert "_meta" meta params))]) "params")) k = if "_meta" ==? k then Some meta else obj_get params k) as Hp.
    { intros meta k. etransitivity; [|apply obj_get_insert]. done. }
    rewrite Hp. split.
    + cbn [String.eqb Ascii.eqb Bool.eqb andb default]. by destruct (bool_decide (extensions = [])).
    + intros k Hk. rewrite Hp. by destruct (String.eqb_spec "_meta" k) as [<-|].
  - intros data server. unfold validate_modern_mcp_response.
    destruct (jis_str (jidx (jidx data "_meta") "protocolVersion") MODERN_MCP_REVISION) eqn:E1; simpl.
    + apply jis_str_true in E1. destruct (jis_str _ server) eqn:E2; simpl.
      * apply jis_str_true in E2. done.
      * apply jis_str_false in E2. split; [done|]. tauto.
    + apply jis_str_false in E1. split; [done|]. tauto.
Qed.
