(* ===== verification/McpGateway.v ===== *)
(** * The MCP gateway ([run_mcp_gateway] of [src/bin/iicp_node.rs])

    A provider node that forwards tasks to a local MCP server: its
    configuration, and the task handler with the shared session of the older
    protocol revision. *)

From S2P Require Import Prelude Program Concurrent Text Chars Json Cbor HttpResource ClientTypes ClientEffects McpPolicy Signing.

(** ** Configuration *)

Inductive gw_var :=
| McpUrl | Tools | NodeId | PublicEndpoint | DirectoryUrl | Region | Host | AuthzPolicy | Sandbox | McpRevision
| McpServerName | McpExtensions.
Global Instance gw_var_eq_dec : EqDecision gw_var.
Proof. solve_decision. Defined.

(** The variables that the environment and the flags set. *)
Record gw_vars := mkGwVars {
  gv_text : gw_var -> string;
  gv_port : Z;
  gv_allow_dangerous : bool;
  gv_audit_redaction : bool
}.

Definition gw_value_flags : list (string * gw_var) :=
  [("--mcp-url", McpUrl); ("--tools", Tools); ("--node-id", NodeId); ("--public-endpoint", PublicEndpoint);
   ("--directory-url", DirectoryUrl); ("--region", Region); ("--host", Host); ("--authz-policy", AuthzPolicy);
   ("--sandbox", Sandbox); ("--mcp-revision", McpRevision); ("--mcp-server-name", McpServerName);
   ("--mcp-extensions", McpExtensions)].

Definition flag_var (flag : string) : option gw_var := snd <$> head (filter (fun e => e.1 = flag) gw_value_flags).

Section configuration.
(** [str::to_lowercase] *)
Context (to_lowercase : string -> string).

Definition env_bool (env : string -> option string) (name : string) : bool :=
  is_some_and (env name) (fun v => str_in (to_lowercase v) ["true"; "1"; "yes"]).

Definition gw_env (env : string -> option string) : gw_vars :=
  mkGwVars
    (fun v => match v with
       | McpUrl => default "http://localhost:8001" (env "IICP_MCP_URL")
       | Tools => default empty_str (env "IICP_MCP_TOOLS")
       | NodeId => default empty_str (env "IICP_NODE_ID")
       | PublicEndpoint => default empty_str (env "IICP_PUBLIC_ENDPOINT")
       | DirectoryUrl => default "https://iicp.network/api/v1" (env "IICP_DIRECTORY_URL")
       | Region => default "local" (env "IICP_REGION")
       | Host => default "::" (env "IICP_HOST")
       | AuthzPolicy => default empty_str (env "IICP_MCP_AUTHZ_POLICY")
       | Sandbox => default empty_str (env "IICP_MCP_SANDBOX")
       | McpRevision => default LEGACY_MCP_REVISION (env "IICP_MCP_REVISION")
       | McpServerName => default empty_str (env "IICP_MCP_SERVER_NAME")
       | McpExtensions => default empty_str (env "IICP_MCP_EXTENSIONS")
       end)
    (default 9484 (env "IICP_PORT" ≫= parse_uint u16_max))
    (env_bool env "IICP_MCP_ALLOW_DANGEROUS_TOOLS") (env_bool env "IICP_MCP_AUDIT_REDACTION").

Fixpoint gw_args (args : list string) (c : gw_vars) : result gw_vars string :=
  match args with
  | [] => Ok c
  | flag :: rest =>
      if flag ==? "--allow-dangerous-tools" then gw_args rest (mkGwVars (gv_text c) (gv_port c) true (gv_audit_redaction c))
      else if flag ==? "--audit-redaction" then gw_args rest (mkGwVars (gv_text c) (gv_port c) (gv_allow_dangerous c) true)
      else if flag ==? "--port" then
        match rest with
        | value :: rest =>
            match parse_uint u16_max value with
            | Some port => gw_args rest (mkGwVars (gv_text c) port (gv_allow_dangerous c) (gv_audit_redaction c))
            | None => Err "--port needs a number"
            end
        | [] => Err "--port needs a number"
        end
      else
        match flag_var flag with
        | None => Err ("unknown mcp-gateway flag: " +:+ flag)
        | Some x =>
            match rest with
            | value :: rest =>
                gw_args rest (mkGwVars (fun y => if decide (y = x) then value else gv_text c y) (gv_port c)
                  (gv_allow_dangerous c) (gv_audit_redaction c))
            | [] => Err (flag +:+ " needs a value")
            end
        end
  end.

Definition tool_to_intent (name : string) : string :=
  "urn:iicp:intent:mcp:" +:+ sanitize (fun c => is_ascii_alphanumeric c || Ascii.eqb c "_"%char) (to_lowercase name) +:+ ":v1".

Record GwState := mkGw {
  gs_node_id : string;
  gs_active_tools : list string;
  gs_mcp_url : string;
  gs_node_token : string;
  gs_tool_policy : McpToolPolicy;
  gs_mcp_revision : string;
  gs_mcp_server_name : string;
  gs_mcp_extensions : list string
}.

Definition comma_list (s : string) : list string :=
  filter (fun v => negb (str_is_empty v) = true) (trim <$> str_split "," s).

Definition gw_policy (c : gw_vars) : McpToolPolicy :=
  mkToolPolicy (gv_allow_dangerous c) (gv_text c AuthzPolicy) (gv_text c Sandbox) (gv_audit_redaction c).

(** What the process does before it registers: refuse, exit with code 2, or go
    on.  [node_token] is the token of the environment or of the registration. *)
Inductive gw_start := GwRefused (e : string) | GwExit (reason : string) | GwServes (s : GwState).
Definition gateway_state (c : gw_vars) (uuid node_token : string) : gw_start :=
  if negb (str_in (gv_text c McpRevision) SUPPORTED_MCP_REVISIONS) then
    GwRefused ("unsupported MCP revision: " +:+ gv_text c McpRevision)
  else if (gv_text c McpRevision ==? MODERN_MCP_REVISION) && str_is_empty (trim (gv_text c McpServerName)) then
    GwRefused "--mcp-server-name is required with MCP 2026-07-28"
  else
    let active_tools := filter (fun t => allows to_lowercase (gw_policy c) t = true) (comma_list (gv_text c Tools)) in
    if bool_decide (active_tools = []) then
      GwExit (if str_is_empty (gv_text c Tools) then "--tools is required"
              else "all requested tools were denied by the MCP safety policy")
    else
      GwServes (mkGw (if str_is_empty (gv_text c NodeId) then "gateway-mcp-" +:+ str_take 8 uuid else gv_text c NodeId)
        active_tools (trim_end_char "/" (gv_text c McpUrl)) node_token (gw_policy c) (gv_text c McpRevision)
        (gv_text c McpServerName) (to_lowercase <$> comma_list (gv_text c McpExtensions))).

(** The body of the registration. *)
Definition gw_registration (s : GwState) (c : gw_vars) : json :=
  mk_obj [("node_id", JString (gs_node_id s)); ("region", JString (gv_text c Region));
          ("endpoint", JString (if str_is_empty (gv_text c PublicEndpoint) then "http://localhost:" +:+ pretty (gv_port c)
                                else gv_text c PublicEndpoint));
          ("capabilities", JArray ((fun t => mk_obj [("intent", JString (tool_to_intent t));
              ("models", JArray [JString ("mcp:" +:+ t)]); ("max_tokens", u64_json 65536)]) <$> gs_active_tools s));
          ("limits", mk_obj [("max_concurrent", u64_json 1); ("tokens_per_min", u64_json 65536)]);
          ("backend", JString "custom");
          ("policy", mk_obj [("allow_remote_inference", JBool false); ("allow_tool_execution", JBool true);
              ("allow_file_access", JBool (existsb (fun t => str_in (tool_risk_label to_lowercase t) ["file_read"; "file_write"])
                                             (gs_active_tools s)))])].
End configuration.

(** ** The task handler *)

Inductive gw_action :=
| NewTaskId
| NextRpcId
| LockSession
| UnlockSession
| SessionGet
| SessionSet (o : option string)
| Initialize (rpc_id : Z)
| NotifyInitialized (session_id : string)
| LegacyCall (session_id : string) (rpc : json)
| ModernCall (headers : list (string * string)) (rpc : json).

(** Taking the lock answers [false] while another request holds it. *)
Definition gw_answer (a : gw_action) : Type :=
  match a with
  | NewTaskId => string
  | NextRpcId => Z
  | LockSession => bool
  | UnlockSession | SessionSet _ => unit
  | SessionGet => option string
  | Initialize _ | NotifyInitialized _ | LegacyCall _ _ | ModernCall _ _ => result http_response bool
  end.
Notation gprog := (prog gw_answer).
Notation "'gw!' x := a 'in' k" := (Act (resp:=gw_answer) a (fun x => k))
  (at level 200, x name, a at level 100, k at level 200,
   format "'[v' 'gw!'  x  :=  a  'in' '/' k ']'") : iicp_scope.

(** A reply, or a request that found the session locked. *)
Inductive gw_end := GwReplied (status : Z) (body : json) | GwWaiting.
Inductive LegacyCallError := Expired | Failed (reason : string).

Section gateway.
Context (to_lowercase : string -> string) `{SerdeOps}.
(** [Response::text]: decoding by the charset of the answer *)
Context (text_of : http_response -> string).
(** [CARGO_PKG_VERSION] *)
Context (version : string).
Context (s : GwState).

Definition accept_both : string := "application/json, text/event-stream".
Definition initialize_rpc (rpc_id : Z) : json :=
  mk_obj [("jsonrpc", JString "2.0"); ("id", u64_json rpc_id); ("method", JString "initialize");
          ("params", mk_obj [("protocolVersion", JString LEGACY_MCP_REVISION); ("capabilities", mk_obj []);
                             ("clientInfo", mk_obj [("name", JString "iicp-mcp-gateway"); ("version", JString version)])])].
Definition initialized_rpc : json :=
  mk_obj [("jsonrpc", JString "2.0"); ("method", JString "notifications/initialized"); ("params", mk_obj [])].

Definition mcp_post (headers : list (string * string)) (rpc : json) : http_request :=
  mkRequestOut "POST" (gs_mcp_url s +:+ "/mcp") None headers (Some (to_vec rpc)) true None.
Definition session_headers (session_id : string) : list (string * string) :=
  [("MCP-Protocol-Version", LEGACY_MCP_REVISION); ("Mcp-Session-Id", session_id); ("Accept", accept_both)].

(** The request an action sends. *)
Definition gw_request (a : gw_action) : option http_request :=
  match a with
  | Initialize id => Some (mcp_post [("MCP-Protocol-Version", LEGACY_MCP_REVISION); ("Accept", accept_both)] (initialize_rpc id))
  | NotifyInitialized session_id => Some (mcp_post (session_headers session_id) initialized_rpc)
  | LegacyCall session_id rpc => Some (mcp_post (session_headers session_id) rpc)
  | ModernCall headers rpc => Some (mcp_post headers rpc)
  | _ => None
  end.

Definition gw_error (status : Z) (reason : string) : gw_end := GwReplied status (mk_obj [("error", JString reason)]).

(** [response_json] of the handler *)
Definition mcp_response_json (r : http_response) : result json string :=
  let is_event_stream :=
    is_some_and (header_str (rs_headers r) "content-type") (fun v => str_contains (to_ascii_lowercase v) "text/event-stream") in
  if is_event_stream then
    if rs_broken r then Err "invalid MCP response"
    else
      let? event := ok_or (list.last (omap (strip_prefix "data: ") (lines (text_of r)))) "invalid MCP response" in
      ok_or (from_slice (str_bytes event)) "invalid MCP response"
  else map_err (fun _ => "invalid MCP response") (response_json r).

Definition session_id_of (r : http_response) : option string :=
  let! v := header_str (rs_headers r) "mcp-session-id" in
  if str_is_empty (trim v) then None else Some (trim v).

(** The session an answer to [initialize] establishes. *)
Definition established (r : result http_response bool) : result string string :=
  match r with
  | Err _ => Err "MCP server unreachable"
  | Ok resp =>
      if negb (is_success (rs_status resp)) then Err "MCP server rejected legacy initialization"
      else
        let? session_id := ok_or (session_id_of resp) "MCP server did not return a legacy session identifier" in
        let? data := mcp_response_json resp in
        if is_some (jget data "error") then Err "MCP server rejected legacy initialization" else Ok session_id
  end.

Definition initialize_legacy_session : gprog (result string string) :=
  gw! rpc_id := NextRpcId in
  gw! r := Initialize rpc_id in
  match established r with
  | Err reason => Ret (Err reason)
  | Ok session_id =>
      gw! n := NotifyInitialized session_id in
      Ret (match n with
           | Err _ => Err "MCP server unreachable"
           | Ok resp => if is_success (rs_status resp) then Ok session_id else Err "MCP server rejected initialized notification"
           end)
  end.

Definition call_answer_of (r : result http_response bool) : result json LegacyCallError :=
  match r with
  | Err _ => Err (Failed "MCP server unreachable")
  | Ok resp =>
      if (rs_status resp =? 401) || (rs_status resp =? 404) then Err Expired
      else if negb (is_success (rs_status resp)) then Err (Failed "MCP server rejected tool call")
      else map_err Failed (mcp_response_json resp)
  end.
Definition send_legacy_call (session_id : string) (rpc : json) : gprog (result json LegacyCallError) :=
  gw! r := LegacyCall session_id rpc in Ret (call_answer_of r).

(** What is done while the session is locked. *)
Definition with_session (rpc : json) (replay_safe : bool) : gprog (result json gw_end) :=
  gw! session := SessionGet in
  run! first := (match session with
                 | Some v => Ret (Ok v)
                 | None =>
                     run! i := initialize_legacy_session in
                     match i with
                     | Ok v => gw! _ := SessionSet (Some v) in Ret (Ok v)
                     | Err reason => Ret (Err reason)
                     end
                 end) in
  match first with
  | Err reason => Ret (Err (gw_error 502 reason))
  | Ok first_session =>
      run! r := send_legacy_call first_session rpc in
      match r with
      | Ok data => Ret (Ok data)
      | Err (Failed reason) => Ret (Err (gw_error 502 reason))
      | Err Expired =>
          if negb replay_safe then
            gw! _ := SessionSet None in
            Ret (Err (GwReplied 409 (mk_obj [("error", JString "mcp_session_expired_retry_required"); ("retryable", JBool true)])))
          else
            run! i := initialize_legacy_session in
            match i with
            | Err reason => gw! _ := SessionSet None in Ret (Err (gw_error 502 reason))
            | Ok replacement =>
                gw! _ := SessionSet (Some replacement) in
                run! r := send_legacy_call replacement rpc in
                match r with
                | Ok data => Ret (Ok data)
                | Err _ =>
                    gw! _ := SessionSet None in
                    Ret (Err (gw_error 502 "MCP legacy session expired after one reinitialization"))
                end
            end
      end
  end.

Definition completed (task_id tool_name : string) (argument_count : Z) (data : json) : gw_end :=
  if is_some (jget data "error") then gw_error 422 "MCP tool returned an error"
  else
    GwReplied 200 (mk_obj [("task_id", JString task_id); ("status", JString "completed"); ("result", jidx data "result");
      ("policy_receipt", receipt to_lowercase (gs_tool_policy s) tool_name "allowed" argument_count)]).

Definition legacy_task (task_id tool_name : string) (argument_count : Z) (rpc : json) (replay_safe : bool) : gprog gw_end :=
  gw! locked := LockSession in
  if negb locked then Ret GwWaiting
  else
    run! r := with_session rpc replay_safe in
    gw! _ := UnlockSession in
    Ret (match r with Ok data => completed task_id tool_name argument_count data | Err e => e end).

(** Also for a revision that is neither: the answer is not checked then. *)
Definition modern_task (task_id tool_name : string) (argument_count : Z) (headers : list (string * string)) (rpc : json)
    : gprog gw_end :=
  gw! r := ModernCall headers rpc in
  Ret (match r with
       | Err _ => gw_error 502 "MCP server unreachable"
       | Ok resp =>
           match response_json resp with
           | Err _ => gw_error 502 "invalid MCP response"
           | Ok data =>
               match (if gs_mcp_revision s ==? MODERN_MCP_REVISION then validate_modern_mcp_response data (gs_mcp_server_name s)
                      else Ok tt) with
               | Err reason => gw_error 502 reason
               | Ok _ => completed task_id tool_name argument_count data
               end
           end
       end).

(** The first match of [urn:iicp:intent:mcp:([^:]+):v1], anywhere in the text. *)
Fixpoint until_colon (t : string) : string * string :=
  match t with
  | EmptyString => (EmptyString, EmptyString)
  | String c t' => if Ascii.eqb c ":"%char then (EmptyString, t) else let '(a, b) := until_colon t' in (String c a, b)
  end.
Definition intent_tool_here (t : string) : option string :=
  let! rest := strip_prefix "urn:iicp:intent:mcp:" t in
  let '(name, rest) := until_colon rest in
  if str_is_empty name || negb (starts_with rest ":v1") then None else Some name.
Fixpoint intent_tool (t : string) : option string :=
  match intent_tool_here t with
  | Some name => Some name
  | None => match t with EmptyString => None | String _ t => intent_tool t end
  end.

(** What the guards of the handler make of a request. *)
Record gw_call := mkGwCall { gc_tool : string; gc_arguments : json; gc_payload : json; gc_body : json }.
Definition gw_argument_count (c : gw_call) : Z :=
  match as_object (gc_arguments c) with Some m => Z.of_nat (length m) | None => 0 end.

Definition gw_admission (headers : HeaderMap) (body : list byte) : result gw_call gw_end :=
  let auth := default empty_str (header_str headers "authorization") in
  if negb (str_is_empty (gs_node_token s)) && (auth <>? ("Bearer " +:+ gs_node_token s)) then Err (gw_error 401 "Unauthorized")
  else
    let? req_body := ok_or (from_slice body) (gw_error 400 "invalid JSON") in
    let payload := JObject (default [] (jget req_body "payload" ≫= as_object)) in
    let named := default empty_str (get_str payload "tool_name") in
    let tool_name :=
      if str_is_empty named then default named (get_str req_body "intent" ≫= intent_tool) else named in
    if str_is_empty tool_name then Err (gw_error 400 "Cannot determine tool name")
    else
      let c := mkGwCall tool_name (default (mk_obj []) (jget payload "arguments")) payload req_body in
      if negb (allows to_lowercase (gs_tool_policy s) tool_name) then
        Err (GwReplied 403 (mk_obj [("error", JString "Tool not permitted by MCP risk policy");
               ("policy_receipt", receipt to_lowercase (gs_tool_policy s) tool_name "denied" (gw_argument_count c))]))
      else if negb (bool_decide (gs_active_tools s = [])) && negb (str_in tool_name (gs_active_tools s)) then
        Err (gw_error 404 "Tool not available")
      else Ok c.

Definition call_params (c : gw_call) : list (string * json) :=
  obj_insert "arguments" (gc_arguments c) (obj_insert "name" (JString (gc_tool c)) []).
Definition gw_rpc (c : gw_call) (rpc_id : Z) : result (list (string * string) * json) string :=
  if gs_mcp_revision s ==? MODERN_MCP_REVISION then
    build_modern_mcp_request rpc_id "tools/call" (gc_tool c) (call_params c) (gs_mcp_extensions s)
  else
    Ok ([], mk_obj [("jsonrpc", JString "2.0"); ("id", u64_json rpc_id); ("method", JString "tools/call");
                    ("params", JObject (call_params c))]).

Definition gw_task_handler (headers : HeaderMap) (body : list byte) : gprog gw_end :=
  match gw_admission headers body with
  | Err e => Ret e
  | Ok c =>
      gw! uuid := NewTaskId in
      let task_id := default uuid (get_str (gc_body c) "task_id") in
      gw! rpc_id := NextRpcId in
      match gw_rpc c rpc_id with
      | Err reason => Ret (gw_error 400 reason)
      | Ok (modern_headers, rpc) =>
          if gs_mcp_revision s ==? LEGACY_MCP_REVISION then
            legacy_task task_id (gc_tool c) (gw_argument_count c) rpc (default false (get_bool (gc_payload c) "mcp_replay_safe"))
          else modern_task task_id (gc_tool c) (gw_argument_count c) modern_headers rpc
      end
  end.

(** ** The shared state *)

Record gw_world := mkGwWorld { gw_rpc_id : Z; gw_locked : bool; gw_session : option string }.
Definition gw_world_new : gw_world := mkGwWorld 0 false None.
Record gw_envt := mkGwEnv { ge_now : Z; ge_uuid : string; ge_send : http_request -> result http_response bool }.

Definition gw_send (e : gw_envt) (a : gw_action) : result http_response bool :=
  match gw_request a with Some rq => ge_send e rq | None => Err false end.
Definition gw_perform (w : gw_world) (e : gw_envt) (a : gw_action) : gw_answer a * gw_world :=
  match a return gw_answer a * gw_world with
  | NewTaskId => (ge_uuid e, w)
  | NextRpcId => let id := u64_add (gw_rpc_id w) 1 in (id, mkGwWorld id (gw_locked w) (gw_session w))
  | LockSession => (negb (gw_locked w), mkGwWorld (gw_rpc_id w) true (gw_session w))
  | UnlockSession => (tt, mkGwWorld (gw_rpc_id w) false (gw_session w))
  | SessionGet => (gw_session w, w)
  | SessionSet o => (tt, mkGwWorld (gw_rpc_id w) (gw_locked w) o)
  | Initialize id => (gw_send e (Initialize id), w)
  | NotifyInitialized v => (gw_send e (NotifyInitialized v), w)
  | LegacyCall v rpc => (gw_send e (LegacyCall v rpc), w)
  | ModernCall headers rpc => (gw_send e (ModernCall headers rpc), w)
  end.
End gateway.
