(* ===== verification/McpGatewaySafety.v ===== *)
(** * What the MCP gateway guarantees

    Which tool calls reach the MCP server, how often, and what the reply says;
    and the shared session under every interleaving of requests. *)

From S2P Require Import Prelude Program Concurrent Text Chars Json Cbor CodecModel HttpResource ClientTypes ClientEffects ClientWitness McpPolicy Signing McpGateway.

Notation "'gw!' x := a 'in' k" := (Act (resp:=gw_answer) a (fun x => k))
  (at level 200, x name, a at level 100, k at level 200,
   format "'[v' 'gw!'  x  :=  a  'in' '/' k ']'") : iicp_scope.

Section safety.
Context (to_lowercase : string -> string) `{SerdeOps} (text_of : http_response -> string) (version : string) (s : GwState).

Notation admission := (gw_admission to_lowercase s).
Notation task_handler := (gw_task_handler to_lowercase text_of s).

(** ** Admission *)

(** The policy admits a tool: no keyword of a risk category occurs in its name,
    or the operator has put all four controls in place. *)
Definition tool_permitted (p : McpToolPolicy) (tool : string) : Prop :=
  (forall label, ~ category to_lowercase tool label) \/
  (allow_dangerous_tools p = true /\ trim (authz_policy p) <> EmptyString /\
   to_lowercase (trim (sandbox_profile p)) ∈ ["1"; "true"; "strict"; "container"; "sandbox"] /\ audit_redaction p = true).

(** A request that may call a tool. *)
Record gw_admitted (headers : HeaderMap) (body : list byte) (c : gw_call) : Prop := {
  gd_token : gs_node_token s = EmptyString \/ header_str headers "authorization" = Some ("Bearer " +:+ gs_node_token s);
  gd_body : from_slice body = Some (gc_body c) /\ gc_payload c = JObject (default [] (jget (gc_body c) "payload" ≫= as_object));
  gd_tool : gc_tool c <> EmptyString /\
    (get_str (gc_payload c) "tool_name" = Some (gc_tool c) \/
     (default empty_str (get_str (gc_payload c) "tool_name") = EmptyString /\ exists i, get_str (gc_body c) "intent" = Some i /\ intent_tool i = Some (gc_tool c)));
  gd_arguments : gc_arguments c = default (mk_obj []) (jget (gc_payload c) "arguments");
  gd_allowed : tool_permitted (gs_tool_policy s) (gc_tool c);
  gd_active : gs_active_tools s = [] \/ gc_tool c ∈ gs_active_tools s
}.

Lemma permitted_spec p tool : allows to_lowercase p tool = true <-> tool_permitted p tool.
Proof. apply allows_spec. Qed.

Lemma admission_spec headers body c : admission headers body = Ok c <-> gw_admitted headers body c.
Proof.
  clear version text_of.
  unfold gw_admission.
  assert (forall t a : string, (t = EmptyString \/ a = "Bearer " +:+ t) <-> negb (str_is_empty t) && (a <>? ("Bearer " +:+ t)) = false) as Ht.
  { intros t a. rewrite andb_false_iff, !negb_false_iff. unfold str_is_empty. by rewrite !String.eqb_eq. }
  assert ((gs_node_token s = EmptyString \/ default empty_str (header_str headers "authorization") = "Bearer " +:+ gs_node_token s)
    <-> (gs_node_token s = EmptyString \/ header_str headers "authorization" = Some ("Bearer " +:+ gs_node_token s))) as Hd.
  { destruct (header_str headers "authorization") as [a|]; simpl; [intuition congruence|].
    split; (intros [?|E]; [by left|discriminate E]). }
  rewrite Ht in Hd. destruct (negb (str_is_empty (gs_node_token s)) && _) eqn:Et.
  { split; [done|]. intros [Hk _ _ _ _ _]. apply Hd in Hk. congruence. }
  pose proof (proj1 Hd eq_refl) as Htok. destruct (from_slice body) as [b|] eqn:Eb; cbn [ok_or rbind]; [|split; [done|intros [_ [? _] _ _ _ _]; congruence]].
  set (payload := JObject (default [] (jget b "payload" ≫= as_object))).
  set (named := default empty_str (get_str payload "tool_name")).
  set (tool := if str_is_empty named then default named (get_str b "intent" ≫= intent_tool) else named).
  assert (forall t, t <> EmptyString -> tool = t <->
    (get_str payload "tool_name" = Some t \/ (named = EmptyString /\ exists i, get_str b "intent" = Some i /\ intent_tool i = Some t))) as Htool.
  { intros t Hn. unfold tool, named, str_is_empty. destruct (get_str payload "tool_name") as [x|]; simpl.
    - destruct (String.eqb_spec x EmptyString) as [->|Hx].
      + destruct (get_str b "intent") as [i|] eqn:Ei; simpl; [destruct (intent_tool i) as [y|] eqn:Ey|]; simpl; naive_solver.
      + naive_solver.
    - destruct (get_str b "intent") as [i|] eqn:Ei; simpl; [destruct (intent_tool i) as [y|] eqn:Ey|]; simpl; naive_solver. }
  destruct (str_is_empty tool) eqn:Ee.
  { apply String.eqb_eq in Ee. split; [done|]. intros [_ [Hb Hp] [Hn Hor] _ _ _]. rewrite Eb in Hb. injection Hb as Hb. exfalso. apply Hn. symmetry.
    rewrite Hp, <- Hb in Hor. apply Htool in Hor; [congruence|done]. }
  apply String.eqb_neq in Ee. simpl. destruct (allows to_lowercase (gs_tool_policy s) tool) eqn:Ea; simpl.
  2:{ split; [done|]. intros [_ [Hb Hp] [Hn Hor] _ Hal%permitted_spec _]. rewrite Eb in Hb. injection Hb as Hb.
      rewrite Hp, <- Hb in Hor. apply Htool in Hor; [congruence|done]. }
  apply permitted_spec in Ea.
  assert (negb (bool_decide (gs_active_tools s = [])) && negb (str_in tool (gs_active_tools s)) = false <->
    gs_active_tools s = [] \/ tool ∈ gs_active_tools s) as Hact.
  { rewrite andb_false_iff, !negb_false_iff, bool_decide_eq_true. by rewrite str_in_elem. }
  destruct (negb (bool_decide _) && _) eqn:Eact.
  { split; [done|]. intros [_ [Hb Hp] [Hn Hor] _ _ Hin]. rewrite Eb in Hb. injection Hb as Hb. rewrite Hp, <- Hb in Hor. apply Htool in Hor; [|done].
    rewrite <- Hor in Hin. apply Hact in Hin. congruence. }
  pose proof (proj1 Hact eq_refl) as Hin. split.
  - intros [= <-]. constructor; simpl; try done. split; [done|]. by apply Htool.
  - intros [_ [Hb Hp] [Hn Hor] Harg _ _]. rewrite Eb in Hb. injection Hb as Hb. destruct c as [t a p b']. simpl in *. subst b' p a. apply Htool in Hor; [|done]. by subst t.
Qed.

(** ** The calls of one request *)

Definition tool_call : Type := json * result http_response bool.
Definition calls_upd (calls : list tool_call) (a : gw_action) : gw_answer a -> list tool_call :=
  match a return gw_answer a -> list tool_call with
  | LegacyCall _ rpc => fun r => calls ++ [(rpc, r)]
  | ModernCall _ rpc => fun r => calls ++ [(rpc, r)]
  | _ => fun _ => calls
  end.
Definition calls_of (tr : list (step gw_answer)) : list tool_call := foldl (upd_step calls_upd) [] tr.

(** The JSON-RPC request of a call: of this tool with these arguments. *)
Record tool_rpc (c : gw_call) (rpc : json) : Prop := {
  tr_version : jidx rpc "jsonrpc" = JString "2.0";
  tr_id : exists id, jidx rpc "id" = u64_json id;
  tr_method : jidx rpc "method" = JString "tools/call";
  tr_name : jget (jidx rpc "params") "name" = Some (JString (gc_tool c));
  tr_arguments : jget (jidx rpc "params") "arguments" = Some (gc_arguments c);
  tr_nothing_else : forall k v, jget (jidx rpc "params") k = Some v -> k ∈ ["name"; "arguments"; "_meta"]
}.
Definition call_of (c : gw_call) (a : gw_action) : Prop :=
  match a with
  | LegacyCall _ rpc => gs_mcp_revision s = "2025-11-25" /\ tool_rpc c rpc
  | ModernCall h rpc => gs_mcp_revision s <> "2025-11-25" /\ tool_rpc c rpc /\
      (gs_mcp_revision s = "2026-07-28" ->
       h = [("MCP-Protocol-Version", "2026-07-28"); ("Mcp-Method", "tools/call"); ("Mcp-Name", gc_tool c)])
  | _ => True
  end.

(** What a reply to a call reports: the error of the tool, or its result with
    the identifier of the task and a receipt of the policy. *)
Definition reports (c : gw_call) (data : json) (e : gw_end) : Prop :=
  if is_some (jget data "error") then exists reason, e = gw_error 422 reason
  else exists body task_id, e = GwReplied 200 body /\ jidx body "task_id" = JString task_id /\
    (forall t, get_str (gc_body c) "task_id" = Some t -> task_id = t) /\
    jidx body "status" = JString "completed" /\ jidx body "result" = jidx data "result" /\
    jidx body "policy_receipt" = receipt to_lowercase (gs_tool_policy s) (gc_tool c) "allowed" (gw_argument_count c).
Definition refused (e : gw_end) : Prop := match e with GwReplied status _ => status <> 200 | GwWaiting => True end.

(** The data of the last call. *)
Definition last_data (r : result http_response bool) (data : json) : Prop :=
  if gs_mcp_revision s ==? "2025-11-25" then call_answer_of text_of r = Ok data
  else exists resp, r = Ok resp /\ response_json resp = Ok data /\
    (gs_mcp_revision s = "2026-07-28" ->
     jidx (jidx data "_meta") "protocolVersion" = JString "2026-07-28" /\
     jidx (jidx (jidx data "_meta") "server") "name" = JString (gs_mcp_server_name s)).
Definition answered_by (c : gw_call) (r : result http_response bool) (e : gw_end) : Prop :=
  (exists data, last_data r data /\ reports c data e) \/ ((forall data, ~ last_data r data) /\ refused e).

(** Why an admitted request causes no call: the session is locked, no session
    could be established, or an extension is configured that no request can have. *)
Definition no_call (e : gw_end) : Prop :=
  gs_mcp_revision s = "2025-11-25" /\ (e = GwWaiting \/ exists reason, e = gw_error 502 reason) \/
  gs_mcp_revision s = "2026-07-28" /\ (exists reason, e = gw_error 400 reason) /\
  exists x, x ∈ gs_mcp_extensions s /\ x ∉ ["tasks"; "skills"; "apps"].

(** The calls, and the reply they lead to. *)
Definition call_outcome (c : gw_call) (calls : list tool_call) (e : gw_end) : Prop :=
  match calls with
  | [] => no_call e
  | [(_, r)] => answered_by c r e
  | [(rpc, r); (rpc', r')] =>
      rpc' = rpc /\ gs_mcp_revision s = "2025-11-25" /\ get_bool (gc_payload c) "mcp_replay_safe" = Some true /\
      call_answer_of text_of r = Err Expired /\ answered_by c r' e
  | _ => False
  end.

(** The request of a call as it is built. *)
Lemma rpc_spec c id :
  match gw_rpc s c id with
  | Ok (h, rpc) => tool_rpc c rpc /\
      (gs_mcp_revision s = "2026-07-28" ->
       h = [("MCP-Protocol-Version", "2026-07-28"); ("Mcp-Method", "tools/call"); ("Mcp-Name", gc_tool c)])
  | Err _ => gs_mcp_revision s = "2026-07-28" /\ exists x, x ∈ gs_mcp_extensions s /\ x ∉ ["tasks"; "skills"; "apps"]
  end.
Proof.
  assert (forall k, jget (JObject (call_params c)) k = if "arguments" ==? k then Some (gc_arguments c)
    else if "name" ==? k then Some (JString (gc_tool c)) else None) as Hparams.
  { intros k. unfold call_params. by rewrite !jget_mk_obj_insert. }
  assert (forall rpc, jidx rpc "params" = JObject (call_params c) \/ (exists meta, jidx rpc "params" = JObject (obj_insert "_meta" meta (call_params c))) ->
    jget (jidx rpc "params") "name" = Some (JString (gc_tool c)) /\ jget (jidx rpc "params") "arguments" = Some (gc_arguments c) /\
    (forall k v, jget (jidx rpc "params") k = Some v -> k ∈ ["name"; "arguments"; "_meta"])) as Hp.
  { intros rpc Hrpc.
    assert (forall k, k <> "_meta" -> jget (jidx rpc "params") k = jget (JObject (call_params c)) k) as Hk.
    { intros k Hk. destruct Hrpc as [->|[meta ->]]; [done|]. rewrite jget_mk_obj_insert.
      by destruct (String.eqb_spec "_meta" k) as [<-|]. }
    rewrite !Hk by done. split; [by rewrite Hparams|]. split; [by rewrite Hparams|]. intros k v Hv. rewrite !elem_of_cons.
    destruct (decide (k = "_meta")) as [->|Hm]; [by do 2 right; left|]. rewrite Hk, Hparams in Hv by done.
    destruct (String.eqb_spec "arguments" k) as [<-|]; [by right; left|]. destruct (String.eqb_spec "name" k) as [<-|]; [by left|done]. }
  unfold gw_rpc. destruct (String.eqb_spec (gs_mcp_revision s) MODERN_MCP_REVISION) as [Em|Em].
  - unfold build_modern_mcp_request. destruct (existsb _ (gs_mcp_extensions s)) eqn:Ex.
    + split; [done|]. apply existsb_exists in Ex as (x & Hin%list_elem_of_In & Hx). exists x. split; [done|].
      apply negb_true_iff in Hx. unfold supported_extension in Hx. by rewrite <- str_in_elem, Hx.
    + split; [|done]. match goal with |- tool_rpc c ?rpc => destruct (Hp rpc) as (H1 & H2 & H3); [right; by eexists|] end.
      constructor; [done|by exists id|done|exact H1|exact H2|exact H3].
  - split; [|done]. destruct (Hp (mk_obj [("jsonrpc", JString "2.0"); ("id", u64_json id); ("method", JString "tools/call");
      ("params", JObject (call_params c))])) as (H1 & H2 & H3); [by left|].
    constructor; [done|by exists id|done|exact H1|exact H2|exact H3].
Qed.
(** The reply to a call that succeeded. *)
Lemma completed_reports c data uuid :
  reports c data (completed to_lowercase s (default uuid (get_str (gc_body c) "task_id")) (gc_tool c) (gw_argument_count c) data).
Proof.
  unfold reports, completed. destruct (jget data "error"); simpl; [by eexists|]. do 2 eexists. split; [reflexivity|].
  split; [reflexivity|]. split; [by intros t ->|]. done.
Qed.

Notation calls_along c := (along calls_upd (fun _ a => call_of c a)).

Lemma initialize_calls c calls :
  calls_along c (fun calls' _ => calls' = calls) calls (initialize_legacy_session text_of).
Proof. unfold initialize_legacy_session. cbn. split; [done|]. intros id. split; [done|]. intros r. by destruct (established text_of r). Qed.

Definition session_outcome (c : gw_call) (rpc : json) (replay_safe : bool) (calls : list tool_call) (r : result json gw_end) : Prop :=
  match r with
  | Err e => (calls = [] /\ exists reason, e = gw_error 502 reason) \/
      refused e /\ ((exists a, calls = [(rpc, a)] /\ forall data, call_answer_of text_of a <> Ok data) \/
      (exists a a', calls = [(rpc, a); (rpc, a')] /\ replay_safe = true /\ call_answer_of text_of a = Err Expired /\
         forall data, call_answer_of text_of a' <> Ok data))
  | Ok data => (exists a, calls = [(rpc, a)] /\ call_answer_of text_of a = Ok data) \/
      (exists a a', calls = [(rpc, a); (rpc, a')] /\ replay_safe = true /\ call_answer_of text_of a = Err Expired /\
         call_answer_of text_of a' = Ok data)
  end.

Lemma with_session_calls c rpc replay_safe :
  gs_mcp_revision s = LEGACY_MCP_REVISION -> tool_rpc c rpc ->
  calls_along c (session_outcome c rpc replay_safe) [] (with_session text_of rpc replay_safe).
Proof.
  intros Hl Hrpc. unfold with_session. cbn [along]. split; [done|]. intros session. cbn [calls_upd].
  eapply along_bind with (mid := fun calls' _ => calls' = []).
  { destruct session; [done|]. eapply along_bind; [apply initialize_calls|]. intros calls' [v|e] ->; [|done]. by split. }
  intros calls' [v|e] ->; [|left; split; [done|by eexists]].
  unfold send_legacy_call. cbn [along prog_bind calls_upd app]. split; [done|]. intros r.
  destruct (call_answer_of text_of r) as [data|[|reason]] eqn:Er.
  - left. by exists r.
  - destruct replay_safe; cbn [negb along].
    2:{ split; [done|]. intros ?. right. split; [done|]. left. exists r. split; [done|]. intros data. by rewrite Er. }
    eapply along_bind; [apply initialize_calls|]. intros calls' [v2|e] ->; cbn [along prog_bind calls_upd app].
    + split; [done|]. intros ?. split; [done|]. intros r2. destruct (call_answer_of text_of r2) as [data|e] eqn:Er2.
      * right. by exists r, r2.
      * cbn [along]. split; [done|]. intros ?. right. split; [done|]. right. exists r, r2. split_and!; [done..|]. intros data. by rewrite Er2.
    + split; [done|]. intros ?. right. split; [done|]. left. exists r. split; [done|]. intros data. by rewrite Er.
  - right. split; [done|]. left. exists r. split; [done|]. intros data. by rewrite Er.
Qed.

Lemma legacy_answered c r uuid :
  gs_mcp_revision s = LEGACY_MCP_REVISION ->
  match call_answer_of text_of r with
  | Ok data => answered_by c r (completed to_lowercase s (default uuid (get_str (gc_body c) "task_id")) (gc_tool c) (gw_argument_count c) data)
  | Err _ => forall e, refused e -> answered_by c r e
  end.
Proof.
  intros El. unfold answered_by, last_data. rewrite El. cbn [String.eqb Ascii.eqb Bool.eqb andb].
  change (LEGACY_MCP_REVISION ==? "2025-11-25") with true. cbv iota. destruct (call_answer_of text_of r) as [data|e0].
  - left. exists data. split; [done|apply completed_reports].
  - intros e He. right. by split.
Qed.

Lemma handler_calls headers body :
  match admission headers body with
  | Err e => refused e /\ task_handler headers body = Ret e
  | Ok c => calls_along c (call_outcome c) [] (task_handler headers body)
  end.
Proof.
  unfold gw_task_handler. destruct (admission headers body) as [c|e] eqn:Ea.
  2:{ split; [|done]. unfold gw_admission in Ea. destruct (_ && _) in Ea; [by simplify_eq|].
      destruct (from_slice body); cbn [ok_or rbind] in Ea; [|by simplify_eq].
      repeat (lazymatch type of Ea with context [if ?b then _ else _] => destruct b end; try by simplify_eq). }
  cbn [along]. split; [done|]. intros uuid. split; [done|]. intros id. cbn [calls_upd].
  pose proof (rpc_spec c id) as Hrpc. destruct (gw_rpc s c id) as [[h rpc]|reason].
  2:{ cbn [along]. right. destruct Hrpc as [Hm Hx]. split; [done|]. split; [by eexists|done]. }
  destruct Hrpc as [Hrpc Hh]. destruct (String.eqb_spec (gs_mcp_revision s) LEGACY_MCP_REVISION) as [El|El].
  - unfold legacy_task. cbn [along]. split; [done|]. intros [|]; [|left; split; [done|by left]]. cbn [negb calls_upd].
    eapply along_bind; [by apply with_session_calls|].
    assert (default false (get_bool (gc_payload c) "mcp_replay_safe") = true -> get_bool (gc_payload c) "mcp_replay_safe" = Some true) as Hsafe
      by (by destruct (get_bool (gc_payload c) "mcp_replay_safe") as [[]|]).
    intros calls [data|e] Ho; cbn [along]; (split; [done|]); intros u; cbn [calls_upd].
    + destruct Ho as [(a & -> & Hd)|(a & a' & -> & Hrs & Hx & Hd)]; cbn [call_outcome].
      * pose proof (legacy_answered c a uuid El) as Ha. by rewrite Hd in Ha.
      * pose proof (legacy_answered c a' uuid El) as Ha. rewrite Hd in Ha. split_and!; auto.
    + destruct Ho as [[-> Hr]|[Hr [(a & -> & Hd)|(a & a' & -> & Hrs & Hx & Hd)]]]; cbn [call_outcome].
      * left. split; [done|by right].
      * pose proof (legacy_answered c a uuid El) as Ha. destruct (call_answer_of text_of a) as [data|]; [by destruct (Hd data)|by apply Ha].
      * pose proof (legacy_answered c a' uuid El) as Ha. split_and!; auto.
        destruct (call_answer_of text_of a') as [data|]; [by destruct (Hd data)|by apply Ha].
  - unfold modern_task. cbn [along]. split; [by split_and!|]. intros r. cbn [calls_upd app call_outcome].
    change (gs_mcp_revision s <> "2025-11-25") in El. unfold answered_by, last_data. rewrite (proj2 (String.eqb_neq _ _) El).
    destruct r as [resp|e]; [|right; split; [by intros data (? & ? & _)|done]].
    destruct (response_json resp) as [data|e] eqn:Ej; [|right; split; [intros data (? & [= <-] & ? & _); congruence|done]].
    destruct (String.eqb_spec (gs_mcp_revision s) MODERN_MCP_REVISION) as [Em|Em].
    + destruct (validate_modern_mcp_response data (gs_mcp_server_name s)) as [[]|e] eqn:Ev.
      * left. exists data. split; [|apply completed_reports]. exists resp. split_and!; [done..|]. intros _.
        by apply (proj2 (proj2 (modern_request_exact 0 EmptyString EmptyString [] []))) in Ev.
      * right. split; [|done]. intros data' (resp' & [= <-] & Hj & Hv). specialize (Hv Em).
        assert (data' = data) as -> by congruence.
        apply (proj2 (proj2 (modern_request_exact 0 EmptyString EmptyString [] []))) in Hv. congruence.
    + left. exists data. split; [|apply completed_reports]. exists resp. split_and!; [done..|]. intros Hm. by destruct Em.
Qed.

(** C31: the gate of the MCP gateway, on every path of a request: a tool call is
    sent only for an admitted request — right bearer token, tool permitted by the
    risk policy and among the active tools — and the JSON-RPC request it carries
    names that tool, has its arguments and nothing else but the metadata of the
    protocol; there is at most one call, except that a request marked replay-safe
    is sent once more, unchanged, when the session turned out to be expired.  An
    admitted request causes a call unless the session is locked or cannot be
    established, or an extension is configured that no request can have.  The
    reply reports the data of the last call, where it has any, with the task's
    identifier and a receipt of the policy, and is a refusal otherwise.  A request
    that is not admitted has no effect at all. *)
Theorem mcp_tool_gated answer n headers body tr e :
  run answer n (task_handler headers body) = (tr, e) ->
  (exists c, gw_admitted headers body c /\ call_outcome c (calls_of tr) e /\
     forall tr1 a x tr2, tr = tr1 ++ Did a x :: tr2 -> call_of c a) \/
  ((forall c, ~ gw_admitted headers body c) /\ tr = [] /\ refused e).
Proof.
  intros Hr. pose proof (handler_calls headers body) as Hc. destruct (admission headers body) as [c|e0] eqn:Ea.
  - left. exists c. split; [by apply admission_spec|].
    destruct (run_along _ _ _ _ _ _ _ _ _ Hc Hr) as [Hf Hs]. split; [exact Hf|exact Hs].
  - right. destruct Hc as [Href Hret]. rewrite Hret in Hr. simpl in Hr. injection Hr as <- <-. split; [|done].
    intros c Hc%admission_spec. congruence.
Qed.

(** ** The session under interleaving *)

Definition gw_handler (p : gprog gw_end) : Prop := exists headers body, p = task_handler headers body.
Notation exec := (Concurrent.exec (gw_perform version s) ge_now gw_handler (fun w _ w' => w' = w) gw_world_new).
Notation event := (Concurrent.event gw_answer).

(** What the history says of a session identifier: unknown (or known to be
    expired), announced by an answer to [initialize], or live after the
    notification was accepted. *)
Inductive session_status := Unknown | Announced | Live.
Definition session_step (v : string) (st : session_status) (a : gw_action) : gw_answer a -> session_status :=
  match a return gw_answer a -> session_status with
  | Initialize _ => fun r =>
      match established text_of r with
      | Ok v' => if v' ==? v then match st with Live => Live | _ => Announced end else st
      | Err _ => st
      end
  | NotifyInitialized v' => fun r =>
      match r with
      | Ok resp => if is_success (rs_status resp) && (v' ==? v) then match st with Unknown => Unknown | _ => Live end else st
      | Err _ => st
      end
  | LegacyCall v' _ => fun r =>
      match call_answer_of text_of r with
      | Err Expired => if v' ==? v then Unknown else st
      | _ => st
      end
  | _ => fun _ => st
  end.
Fixpoint status_of (v : string) (tr : list event) : session_status :=
  match tr with
  | [] => Unknown
  | Ev _ _ a r :: tr => session_step v (status_of v tr) a r
  end.

(** A request outside, or inside the lock with at most [budget] actions to go:
    the session it may use, the one it may announce, and whether the shared
    session is known to be expired. *)
Inductive hold := Outside | Inside (budget : nat) (live cand : option string) (dirty : bool).
Definition hold_upd (h : hold) (a : gw_action) : gw_answer a -> hold :=
  match h with
  | Outside => match a return gw_answer a -> hold with
               | LockSession => fun locked => if locked then Inside 13 None None false else Outside
               | _ => fun _ => Outside
               end
  | Inside budget live cand dirty =>
      match a return gw_answer a -> hold with
      | UnlockSession => fun _ => Outside
      | SessionGet => fun o => Inside (budget - 1) o cand dirty
      | SessionSet o => fun _ => Inside (budget - 1) (if o then live else None) cand false
      | Initialize _ => fun r => Inside (budget - 1) live (result_ok (established text_of r)) dirty
      | NotifyInitialized v => fun r =>
          Inside (budget - 1) (match r with Ok resp => if is_success (rs_status resp) then Some v else live | Err _ => live end) cand dirty
      | LegacyCall _ _ => fun r =>
          match call_answer_of text_of r with
          | Err Expired => Inside (budget - 1) None None true
          | _ => Inside (budget - 1) live cand dirty
          end
      | _ => fun _ => Inside (budget - 1) live cand dirty
      end
  end.
Definition hold_ok (h : hold) (a : gw_action) : Prop :=
  match h, a with
  | Outside, (NewTaskId | NextRpcId | LockSession | ModernCall _ _) => True
  | Outside, _ => False
  | Inside O _ _ _, _ => False
  | Inside _ live cand dirty, UnlockSession => dirty = false
  | Inside _ live cand dirty, SessionGet => dirty = false
  | Inside _ live _ _, SessionSet (Some v) => live = Some v
  | Inside _ _ _ _, SessionSet None => True
  | Inside _ _ _ _, (Initialize _ | NextRpcId) => True
  | Inside _ _ cand _, NotifyInitialized v => cand = Some v
  | Inside _ live _ _, LegacyCall v _ => live = Some v
  | Inside _ _ _ _, _ => False
  end.
Definition hold_end (h : hold) (_ : gw_end) : Prop := h = Outside.
Notation held fin := (along hold_upd hold_ok fin).

Lemma initialize_held budget live cand dirty (fin : hold -> result string string -> Prop) :
  (forall v, fin (Inside budget (Some v) (Some v) dirty) (Ok v)) ->
  (forall budget' live' cand' e, (budget <= budget')%nat -> fin (Inside budget' live' cand' dirty) (Err e)) ->
  held fin (Inside (3 + budget) live cand dirty) (initialize_legacy_session text_of).
Proof.
  intros Hok Herr. unfold initialize_legacy_session. cbn [along]. split; [done|]. intros id. cbn [hold_upd].
  split; [by destruct budget|]. intros r. cbn [hold_upd]. destruct (established text_of r) as [v|e]; cbn [result_ok].
  - cbn [along]. split; [by destruct budget|]. intros [resp|n]; cbn [hold_upd].
    + destruct (is_success (rs_status resp)); [|apply Herr; lia].
      replace (3 + budget - 1 - 1 - 1)%nat with budget by lia. apply Hok.
    + apply Herr. lia.
  - apply Herr. lia.
Qed.

(** Ready to unlock. *)
Definition unlockable (h : hold) : Prop := exists budget live cand, h = Inside (S budget) live cand false.

Lemma with_session_held rpc replay_safe :
  held (fun h _ => unlockable h) (Inside 13 None None false) (with_session text_of rpc replay_safe).
Proof.
  unfold with_session. cbn [along]. split; [done|]. intros session. cbn [hold_upd Nat.sub].
  eapply along_bind with (mid := fun h r => match r with
    | Ok v => exists budget cand, (8 <= budget)%nat /\ h = Inside budget (Some v) cand false
    | Err _ => unlockable h end).
  { destruct session as [v|]; [exists 12%nat, None; split; [lia|done]|].
    eapply along_bind; [apply (initialize_held 9 None None false (fun h r => match r with
      | Ok v => h = Inside 9 (Some v) (Some v) false
      | Err _ => unlockable h end)); [done|]|].
    - intros budget live cand e Hb. exists (budget - 1)%nat, live, cand. f_equal. lia.
    - intros h [v|e] Hh; [|exact Hh]. subst h. cbn [along]. split; [done|]. intros ?. cbn. exists 8%nat, (Some v). split; [lia|done]. }
  intros h [v|e] Hh; [|exact Hh]. destruct Hh as (budget & cand & Hb & ->).
  do 8 (destruct budget as [|budget]; [lia|]).
  unfold send_legacy_call. cbn [along prog_bind hold_upd]. split; [done|]. intros r.
  replace (S (S (S (S (S (S (S (S budget))))))) - 1)%nat with (3 + (4 + budget))%nat by lia.
  destruct (call_answer_of text_of r) as [data|[|reason]].
  - by eexists _, _, _.
  - destruct replay_safe; cbn [negb along].
    2:{ split; [done|]. intros ?. cbn. by eexists _, _, _. }
    eapply along_bind; [apply (initialize_held (4 + budget) None None true (fun h r => match r with
      | Ok v => h = Inside (4 + budget) (Some v) (Some v) true
      | Err _ => exists b live cand, h = Inside (S (S b)) live cand true end)); [done|]|].
    { intros b live cand' e Hb'. exists (b - 2)%nat, live, cand'. f_equal. lia. }
    intros h [v2|e] Hh.
    + subst h. cbn [along prog_bind]. split; [done|]. intros ?. cbn [hold_upd Nat.add Nat.sub]. split; [done|]. intros r2.
      cbn [hold_upd Nat.sub]. destruct (call_answer_of text_of r2) as [data|[|reason]]; cbn [along].
      * by eexists _, _, _.
      * split; [done|]. intros ?. cbn. by eexists _, _, _.
      * split; [done|]. intros ?. cbn. by eexists _, _, _.
    + destruct Hh as (b & live & cand' & ->). cbn [along]. split; [done|]. intros ?. cbn. by eexists _, _, _.
  - by eexists _, _, _.
Qed.

Lemma handler_held p : gw_handler p -> held hold_end Outside p.
Proof.
  intros (headers & body & ->). unfold gw_task_handler. destruct (admission headers body) as [c|e]; [|done].
  cbn [along]. split; [done|]. intros uuid. cbn [hold_upd]. split; [done|]. intros id. cbn [hold_upd].
  destruct (gw_rpc s c id) as [[h rpc]|reason]; [|done]. destruct (gs_mcp_revision s ==? LEGACY_MCP_REVISION).
  - unfold legacy_task. cbn [along]. split; [done|]. intros [|]; [|done]. cbn [negb hold_upd].
    eapply along_bind; [apply with_session_held|]. intros h' r (budget & live & cand & ->). cbn [along]. split; [done|].
    intros ?. done.
  - unfold modern_task. cbn [along]. split; [done|]. intros r. done.
Qed.

(** ** The invariant *)

Notation hold_of i tr := (ghost hold_upd Outside i tr).
Definition inside (tr : list event) (i : nat) : bool := match hold_of i tr with Inside _ _ _ _ => true | Outside => false end.

(** The shared session is live, unless the holder knows better; what the
    holder may use is live, and what it may announce was announced. *)
Definition local_ok (st : string -> session_status) (session : option string) (h : hold) : Prop :=
  match h with
  | Outside => forall v, session = Some v -> st v = Live
  | Inside _ live cand dirty =>
      (forall v, session = Some v -> dirty = true \/ st v = Live) /\ (forall v, live = Some v -> st v = Live) /\
      (forall v, cand = Some v -> st v <> Unknown)
  end.

Record gw_inv (tr : list event) (w : gw_world) (n : nat) : Prop := {
  gi_lock : tally (inside tr) n = Z.b2z (gw_locked w);
  gi_local : forall i, (i < n)%nat -> inside tr i = true -> local_ok (fun v => status_of v tr) (gw_session w) (hold_of i tr);
  gi_free : gw_locked w = false -> local_ok (fun v => status_of v tr) (gw_session w) Outside
}.

Lemma only_one tr w n i j : gw_inv tr w n -> (i < n)%nat -> (j < n)%nat -> inside tr i = true -> inside tr j = true -> i = j.
Proof.
  intros [Hl _ _] Hi Hj Hii Hij. destruct (decide (i = j)) as [|Hne]; [done|].
  pose proof (tally_two _ _ _ _ Hi Hj Hne Hii Hij) as H2. rewrite Hl in H2. destruct (gw_locked w); simpl in *; lia.
Qed.

Lemma local_step st w e h a r w' :
  h <> Outside -> local_ok st (gw_session w) h -> hold_ok h a -> gw_perform version s w e a = (r, w') ->
  local_ok (fun v => session_step v (st v) a r) (gw_session w') (hold_upd h a r).
Proof.
  destruct h as [|[|budget] live cand dirty]; [done|by destruct a|]. intros _ (Hs & Hl & Hc) Hok Hw.
  destruct a as [| | | | |o|id|v0|v0 rpc|hd rpc]; simpl in Hok; try done; simpl in Hw; injection Hw as <- <-;
    cbn [hold_upd session_step gw_session local_ok].
  - by split_and!.
  - subst dirty. intros v Hv. by destruct (Hs v Hv).
  - subst dirty. split; [done|]. split; [|done]. intros v Hv. by destruct (Hs v Hv).
  - split; [|split].
    + intros v ->. right. by apply Hl.
    + intros v Hv. destruct o; [by apply Hl|done].
    + done.
  - unfold gw_send. simpl. destruct (established text_of (ge_send e _)) as [v0|reason]; cbn [result_ok].
    + split; [|split].
      * intros v Hv. destruct (Hs v Hv) as [|E]; [by left|]. right. rewrite E. by destruct (v0 ==? v).
      * intros v Hv. specialize (Hl v Hv). rewrite Hl. by destruct (v0 ==? v).
      * intros v [= ->]. rewrite String.eqb_refl. by destruct (st v).
    + by split_and!.
  - unfold gw_send. simpl. destruct (ge_send e _) as [resp|n]; [|by split_and!]. subst cand.
    destruct (is_success (rs_status resp)); cbn [andb]; [|by split_and!]. split; [|split].
    + intros v Hv. destruct (Hs v Hv) as [|E]; [by left|]. right. rewrite E. by destruct (v0 ==? v).
    + intros v [= ->]. rewrite String.eqb_refl. specialize (Hc v eq_refl). by destruct (st v).
    + intros v [= ->]. rewrite String.eqb_refl. specialize (Hc v eq_refl). by destruct (st v).
  - unfold gw_send. simpl. destruct (call_answer_of text_of (ge_send e _)) as [data|[|reason]]; [by split_and!| |by split_and!].
    split; [by left|]. by split.
Qed.

Lemma inv_step t tr w ts i a k e r w' :
  exec tr t w ts -> gw_inv tr w (length ts) -> ts !! i = Some (Act a k) -> gw_perform version s w e a = (r, w') ->
  gw_inv (Ev i (ge_now e) a r :: tr) w' (length ts).
Proof.
  intros Hx Hinv Hi Hw. pose proof (lookup_lt_Some _ _ _ Hi) as Hlt.
  pose proof (exec_along hold_upd hold_ok hold_end Outside _ _ _ _ i _ handler_held Hx Hi) as [Hok _].
  assert (forall j, hold_of j (Ev i (ge_now e) a r :: tr) = if bool_decide (i = j) then hold_upd (hold_of i tr) a r else hold_of j tr) as Hh.
  { intros j. simpl. case_bool_decide; by subst. }
  assert (tally (inside (Ev i (ge_now e) a r :: tr)) (length ts) = tally (inside tr) (length ts) - Z.b2z (inside tr i)
    + Z.b2z (inside (Ev i (ge_now e) a r :: tr) i)) as Ht.
  { apply tally_update; [done|]. intros j Hj. unfold inside. by rewrite Hh, bool_decide_false. }
  unfold inside in Ht at 3 4. rewrite Hh, bool_decide_true in Ht by done.
  assert (hold_of i tr = Outside \/ hold_of i tr <> Outside) as [Eo|Eo] by (destruct (hold_of i tr); [by left|by right]).
  - rewrite Eo in *. destruct a; simpl in Hok; try done; simpl in Hw; injection Hw as <- <-.
    1,2,4: split; [rewrite Ht; simpl; rewrite (gi_lock _ _ _ Hinv); simpl; lia| |exact (gi_free _ _ _ Hinv)];
      intros j Hj Hin; unfold inside in Hin; rewrite Hh in *; case_bool_decide as E; [done|]; by apply (gi_local _ _ _ Hinv).
    destruct (gw_locked w) eqn:El; cbn [negb hold_upd Z.b2z] in *.
    + split; [rewrite Ht, (gi_lock _ _ _ Hinv), El; done| |done].
      intros j Hj Hin. unfold inside in Hin. rewrite Hh in *. case_bool_decide as E; [done|]. by apply (gi_local _ _ _ Hinv).
    + split; [rewrite Ht, (gi_lock _ _ _ Hinv), El; done| |done].
      intros j Hj Hin. rewrite Hh. case_bool_decide as E; simpl.
      * split; [|done]. intros v Hv. right. by apply (gi_free _ _ _ Hinv El).
      * exfalso. assert (inside tr j = true) as Hin' by (unfold inside in *; by rewrite Hh, bool_decide_false in Hin).
        pose proof (tally_pos _ _ _ Hj Hin') as Hp. rewrite (gi_lock _ _ _ Hinv), El in Hp. simpl in Hp. lia.
  - assert (inside tr i = true) as Hin by (unfold inside; by destruct (hold_of i tr)).
    pose proof (gi_local _ _ _ Hinv i Hlt Hin) as Hloc.
    pose proof (local_step _ _ _ _ _ _ _ Eo Hloc Hok Hw) as Hloc'.
    assert (gw_locked w = true) as El.
    { pose proof (tally_pos _ _ _ Hlt Hin) as Hp. rewrite (gi_lock _ _ _ Hinv) in Hp. by destruct (gw_locked w). }
    assert (gw_locked w' = match hold_upd (hold_of i tr) a r with Inside _ _ _ _ => true | Outside => false end) as El'.
    { destruct (hold_of i tr) as [|[|b] live cand dirty]; [done|by destruct a|].
      destruct a; simpl in Hok; try done; simpl in Hw; injection Hw as <- <-; simpl; try done.
      by destruct (call_answer_of text_of _) as [|[|]]. }
    split.
    + rewrite Ht, (gi_lock _ _ _ Hinv), El, El'. by destruct (hold_of i tr), (hold_upd _ _ _).
    + intros j Hj Hij. rewrite Hh. case_bool_decide as E; [exact Hloc'|]. exfalso. apply E.
      eapply only_one; [done..|]. unfold inside in *. by rewrite Hh, bool_decide_false in Hij.
    + intros Hf. rewrite Hf in El'. destruct (hold_upd _ _ _); [exact Hloc'|done].
Qed.

Lemma inv_exec tr t w ts : exec tr t w ts -> gw_inv tr w (length ts).
Proof.
  induction 1 as [|tr t w ts p Hx IH Hh|tr t w w' ts Hx IH He|tr t w ts i a k e r w' Hx IH Hp Ht Hw].
  - split; simpl; [done|lia|done].
  - rewrite length_app. simpl. rewrite Nat.add_1_r.
    assert (hold_of (length ts) tr = Outside) as Ho by (apply (ghost_fresh hold_upd Outside _ _ _ _ _ Hx); lia).
    destruct IH as [Hl Hloc Hf]. split; [|intros i Hi Hin|done].
    + rewrite tally_S. unfold inside at 2. rewrite Ho. rewrite Hl. simpl. lia.
    + destruct (decide (i = length ts)) as [->|]; [unfold inside in Hin; by rewrite Ho in Hin|]. apply Hloc; [lia|done].
  - by rewrite He.
  - rewrite length_insert. by eapply inv_step.
Qed.

(** ** What holds of a gateway *)

(** The JSON-RPC identifiers handed out, newest first. *)
Definition rpc_id_of (ev : event) : option Z :=
  match ev with
  | Ev _ _ a r => match a return gw_answer a -> option Z with NextRpcId => Some | _ => fun _ => None end r
  end.

Lemma ids_exec tr t w ts :
  exec tr t w ts -> Z.of_nat (length (omap rpc_id_of tr)) <= u64_max ->
  gw_rpc_id w = Z.of_nat (length (omap rpc_id_of tr)) /\ NoDup (omap rpc_id_of tr) /\
  Forall (fun id => 1 <= id <= gw_rpc_id w) (omap rpc_id_of tr).
Proof.
  induction 1 as [|tr t w ts p Hx IH Hh|tr t w w' ts Hx IH He|tr t w ts i a k e r w' Hx IH Hp Ht Hw]; intros Hlen.
  - by split_and!; [|constructor..].
  - by apply IH.
  - subst w'. by apply IH.
  - destruct a; simpl in Hw; injection Hw as <- <-; try by apply IH.
    change (omap rpc_id_of (Ev i (ge_now e) NextRpcId (u64_add (gw_rpc_id w) 1) :: tr))
      with (u64_add (gw_rpc_id w) 1 :: omap rpc_id_of tr) in *. cbn [length gw_rpc_id] in *.
    destruct IH as (Hid & Hnd & Hall); [lia|]. rewrite u64_add_small by (rewrite Hid; lia). split_and!; [lia| |].
    + constructor; [|done]. intros Hin. rewrite Forall_forall in Hall. apply Hall in Hin. lia.
    + constructor; [lia|]. eapply Forall_impl; [exact Hall|]. simpl. lia.
Qed.

Definition replied (p : gprog gw_end) : bool := match p with Ret _ => true | Act _ _ => false end.

(** C32: the shared session, under every interleaving of requests: at most one
    request at a time is between locking and unlocking, the flag is set exactly
    while one is, so with all requests answered the session is free; a tool call
    is only ever sent by that request, on a session that the server announced in
    an accepted initialisation and whose notification it accepted, and that no
    call has since found expired; and no JSON-RPC identifier is used twice. *)
Theorem mcp_session_exclusive tr t w ts :
  exec tr t w ts ->
  tally (inside tr) (length ts) = Z.b2z (gw_locked w) /\
  (forallb replied ts = true -> gw_locked w = false) /\
  (forall v, gw_locked w = false -> gw_session w = Some v -> status_of v tr = Live) /\
  (forall tr2 tr1 i t0 v rpc r, tr = tr2 ++ Ev i t0 (LegacyCall v rpc) r :: tr1 -> inside tr1 i = true /\ status_of v tr1 = Live) /\
  (Z.of_nat (length (omap rpc_id_of tr)) <= u64_max -> NoDup (omap rpc_id_of tr)).
Proof.
  intros Hx. pose proof (inv_exec _ _ _ _ Hx) as Hinv. split_and!.
  - exact (gi_lock _ _ _ Hinv).
  - intros Hall. destruct (gw_locked w) eqn:El; [|done]. exfalso.
    assert (tally (inside tr) (length ts) = 0) as H0.
    { rewrite (tally_ext _ (fun _ => false)); [clear; induction (length ts) as [|n IH]; [done|]; by rewrite tally_S, IH|].
      intros i Hi. apply lookup_lt_is_Some in Hi as [p Hp].
      pose proof (exec_along hold_upd hold_ok hold_end Outside _ _ _ _ i _ handler_held Hx Hp) as Ha.
      apply forallb_forall with (x:=p) in Hall; [|apply list_elem_of_In; by eapply list_elem_of_lookup_2].
      destruct p as [o|]; [|done]. unfold inside. simpl in Ha. by rewrite Ha. }
    rewrite (gi_lock _ _ _ Hinv), El in H0. done.
  - intros v Hl Hs. exact (gi_free _ _ _ Hinv Hl v Hs).
  - intros tr2 tr1 i t0 v rpc r ->.
    refine (exec_each (fun ev tr1 => forall i t0 v rpc r, ev = Ev i t0 (LegacyCall v rpc) r -> inside tr1 i = true /\ status_of v tr1 = Live)
      _ _ _ _ _ _ _ Hx i t0 v rpc r eq_refl).
    clear. intros tr t w ts i a k e r w' Hx Hi Ht Hw i' t0 v rpc r' Heq.
    assert (i' = i /\ a = LegacyCall v rpc) as [-> ->] by (by injection Heq).
    pose proof (exec_along hold_upd hold_ok hold_end Outside _ _ _ _ i _ handler_held Hx Hi) as [Hok _].
    pose proof (inv_exec _ _ _ _ Hx) as Hinv. pose proof (gi_local _ _ _ Hinv i (lookup_lt_Some _ _ _ Hi)) as Hl.
    unfold inside in *. destruct (hold_of i tr) as [|[|b] live cand dirty]; [done..|]. split; [done|].
    simpl in Hok. destruct (Hl eq_refl) as (_ & Hlive & _). by apply Hlive.
  - intros Hlen. by apply (ids_exec _ _ _ _ Hx).
Qed.

(** On every path the lock is released within [n] actions. *)
Fixpoint releases (n : nat) (p : gprog gw_end) {struct p} : Prop :=
  match p with
  | Ret _ => False
  | Act a k => match n with O => False | S n => a = UnlockSession \/ forall r, releases n (k r) end
  end.

Lemma held_releases p n live cand dirty : held hold_end (Inside n live cand dirty) p -> releases n p.
Proof.
  revert n live cand dirty. induction p as [o|a k IH]; intros n live cand dirty; [done|]. cbn [along releases]. intros [Hok Hk].
  destruct n as [|n]; [by destruct a|].
  destruct a; simpl in Hok; try done; try (left; reflexivity); try (right; intros r; specialize (Hk r); cbn [hold_upd Nat.sub] in Hk;
    rewrite ?Nat.sub_0_r in Hk); try by eapply IH.
  destruct (call_answer_of text_of r) as [|[|]]; by eapply IH.
Qed.

Lemma releases_mono p n m : releases n p -> (n <= m)%nat -> releases m p.
Proof.
  revert n m. induction p as [o|a k IH]; intros n m Hr0; cbn [releases] in *; [destruct Hr0|]. destruct n as [|n]; [destruct Hr0|].
  intros Hle. destruct m as [|m]; [lia|]. destruct Hr0 as [?|Hr]; [by left|]. right. intros r. eapply IH; [apply Hr|lia].
Qed.

Lemma budget_exec tr t w ts : exec tr t w ts -> forall i, match hold_of i tr with Inside b _ _ _ => (b <= 13)%nat | Outside => True end.
Proof.
  induction 1 as [|tr t w ts p Hx IH Hh|tr t w w' ts Hx IH He|tr t w ts j a k e r w' Hx IH Hp Ht Hw]; intros i; [done|apply IH..|].
  cbn [ghost]. case_bool_decide as E; [|by apply IH]. specialize (IH i). destruct (hold_of i tr) as [|b live cand dirty].
  - destruct a; try done. simpl in *. destruct r; simpl; [lia|done].
  - destruct a; simpl; try done; try lia. destruct (call_answer_of text_of r) as [|[|]]; simpl; lia.
Qed.

Lemma handler_within headers body : within 16 (task_handler headers body).
Proof.
  unfold gw_task_handler. destruct (admission headers body) as [c|e]; [|done]. intros uuid id.
  destruct (gw_rpc s c id) as [[h rpc]|reason]; [|done]. destruct (gs_mcp_revision s ==? LEGACY_MCP_REVISION); [|by intros r].
  unfold legacy_task. intros [|]; [|done]. cbn [negb]. apply (within_bind 12 1); [|by intros r ?].
  assert (within 3 (initialize_legacy_session text_of)) as Hi.
  { unfold initialize_legacy_session. intros n r. destruct (established text_of r); [by intros r2|done]. }
  unfold with_session. intros session. apply (within_bind 4 7).
  { destruct session; [done|]. apply (within_bind 3 1); [exact Hi|]. intros [v|]; [by intros ?|done]. }
  intros [v|e]; [|done]. unfold send_legacy_call. cbn [prog_bind]. intros r.
  destruct (call_answer_of text_of r) as [data|[|reason]]; [done| |done]. destruct (negb _); [by intros ?|].
  apply (within_bind 3 3); [exact Hi|]. intros [v2|e]; [|by intros ?]. intros ? r2.
  destruct (call_answer_of text_of r2); [done|]. by intros ?.
Qed.

(** The session lock never blocks for good: a request performs at most 16
    actions, and whenever the lock is taken exactly one request holds it, that
    request can go on, and on every path it releases the lock within 13 of its own
    actions — whatever the MCP server answers. *)
Theorem mcp_lock_released :
  (forall headers body answer n, (length (run answer n (task_handler headers body)).1 <= 16)%nat) /\
  (forall tr t w ts, exec tr t w ts -> gw_locked w = true ->
     exists i p, ts !! i = Some p /\ releases 13 p /\ forall j, (j < length ts)%nat -> inside tr j = true -> j = i).
Proof.
  split; [intros; apply within_run, handler_within|].
  intros tr t w ts Hx Hl. pose proof (inv_exec _ _ _ _ Hx) as Hinv.
  assert (exists i, (i < length ts)%nat /\ inside tr i = true) as (i & Hi & Hin).
  { apply tally_some. by rewrite (gi_lock _ _ _ Hinv), Hl. }
  destruct (lookup_lt_is_Some_2 _ _ Hi) as [p Hp]. exists i, p. split; [done|]. split.
  - pose proof (exec_along hold_upd hold_ok hold_end Outside _ _ _ _ i _ handler_held Hx Hp) as Ha.
    pose proof (budget_exec _ _ _ _ Hx i) as Hb. unfold inside in Hin.
    destruct (hold_of i tr) as [|b live cand dirty]; [done|]. eapply releases_mono; [by eapply held_releases|exact Hb].
  - intros j Hj Hij. by eapply only_one.
Qed.

(** ** Start *)

(** A gateway only serves tools its policy allows, under a revision it knows. *)
Lemma gateway_serves c uuid node_token :
  gateway_state to_lowercase c uuid node_token = GwServes s ->
  gs_active_tools s <> [] /\ Forall (fun t => allows to_lowercase (gs_tool_policy s) t = true) (gs_active_tools s) /\
  gs_mcp_revision s ∈ SUPPORTED_MCP_REVISIONS /\
  (gs_mcp_revision s = MODERN_MCP_REVISION -> trim (gs_mcp_server_name s) <> EmptyString).
Proof.
  unfold gateway_state. destruct (str_in _ SUPPORTED_MCP_REVISIONS) eqn:Er; [|done]. cbn [negb].
  destruct (_ && _) eqn:Em; [done|]. case_bool_decide as Ea; [done|]. intros [= <-]. cbn -[allows trim].
  apply str_in_elem in Er. split; [done|]. split; [|split; [done|]].
  - apply Forall_forall. intros t Ht. by apply list_elem_of_filter in Ht as [? _].
  - intros E. rewrite E, String.eqb_refl in Em. simpl in Em. unfold str_is_empty in Em. by apply String.eqb_neq in Em.
Qed.
End safety.

(** ** Concrete runs *)

#[local] Existing Instances demo_serde.

(** ** A gateway from its arguments: the dangerous tool is not active *)

Definition demo_vars : gw_vars :=
  default (gw_env to_ascii_lowercase (fun _ => None))
    (result_ok (gw_args ["--tools"; "summarize, bash,lookup-status"; "--mcp-url"; "http://mcp:1/"]
       (gw_env to_ascii_lowercase (fun _ => None)))).
Definition demo_gateway : GwState :=
  match gateway_state to_ascii_lowercase demo_vars "0123456789" "tok" with
  | GwServes s => s
  | _ => mkGw empty_str [] empty_str empty_str (mkToolPolicy true empty_str empty_str true) empty_str empty_str []
  end.
Example demo_gateway_tools : (gs_active_tools demo_gateway, gs_node_id demo_gateway, gs_mcp_url demo_gateway)
  = (["summarize"; "lookup-status"], "gateway-mcp-01234567", "http://mcp:1").
Proof. vm_compute. reflexivity. Qed.

(** The advertised intent of a tool whose name has a hyphen does not lead back to it. *)
Definition by_intent (tool : string) : list byte :=
  json_to_vec (mk_obj [("intent", JString (tool_to_intent to_ascii_lowercase tool)); ("payload", mk_obj [])]).
Definition bearer : HeaderMap := [("authorization", Some "Bearer tok")].
Example intent_reaches_plain_name : is_ok (gw_admission to_ascii_lowercase demo_gateway bearer (by_intent "summarize")) = true.
Proof. vm_compute. reflexivity. Qed.
Example intent_misses_hyphen :
  gw_admission to_ascii_lowercase demo_gateway bearer (by_intent "lookup-status") = Err (gw_error 404 "Tool not available").
Proof. vm_compute. reflexivity. Qed.

(** ** A session that expires once *)

Definition reply (status : Z) (headers : HeaderMap) (v : json) : result http_response bool :=
  Ok (mkResponseIn status headers [json_to_vec v] false).
Definition at_time (t : Z) (r : result http_response bool) : gw_envt := mkGwEnv t "task" (fun _ => r).
Definition announces (id : string) : result http_response bool :=
  reply 200 [("mcp-session-id", Some id)] (mk_obj [("result", mk_obj [])]).
Definition accepts : result http_response bool := reply 202 [] JNull.
Definition expires : result http_response bool := reply 401 [] JNull.
Definition answers_done : result http_response bool := reply 200 [] (mk_obj [("result", JString "done")]).

Definition call_body (replay_safe : bool) : list byte :=
  json_to_vec (mk_obj [("task_id", JString "t1");
    ("payload", mk_obj [("tool_name", JString "summarize"); ("arguments", mk_obj [("text", JString "x")]);
                        ("mcp_replay_safe", JBool replay_safe)])]).
Notation no_text := (fun _ : http_response => empty_str).
Notation demo_handler replay_safe := (gw_task_handler to_ascii_lowercase no_text demo_gateway bearer (call_body replay_safe)).

(** The answers of the server to one replay-safe request. *)
Definition one_answer (n : nat) (a : gw_action) : gw_answer a :=
  match a with
  | NewTaskId => "task"
  | NextRpcId => Z.of_nat n
  | LockSession => true
  | UnlockSession | SessionSet _ => tt
  | SessionGet => None
  | Initialize _ => announces (if (n <? 8)%nat then "s1" else "s2")
  | NotifyInitialized _ => accepts
  | LegacyCall v _ => if v ==? "s1" then expires else answers_done
  | ModernCall _ _ => Err false
  end.
Definition one_run : list (step gw_answer) * gw_end := run one_answer 0 (demo_handler true).

Lemma mcp_tool_gated_witness :
  length (calls_of one_run.1) = 2%nat /\
  exists c, gw_admitted to_ascii_lowercase demo_gateway bearer (call_body true) c /\
    call_outcome to_ascii_lowercase no_text demo_gateway c (calls_of one_run.1) one_run.2.
Proof.
  split; [vm_compute; reflexivity|].
  destruct (mcp_tool_gated to_ascii_lowercase no_text demo_gateway one_answer 0 bearer (call_body true) _ _ (surjective_pairing _))
    as [(c & Ha & Hc & _)|(_ & Htr & _)]; [exists c; split; [exact Ha|exact Hc]|].
  assert (length one_run.1 = 15%nat) as Hl by (vm_compute; reflexivity). unfold one_run in Hl. rewrite Htr in Hl. discriminate Hl.
Defined.

(** ** Two requests, one of them while the session is locked *)

Notation gw_run := (run_sched (gw_perform "1" demo_gateway) ge_now gw_world_new).
Notation gw_exec := (exec (gw_perform "1" demo_gateway) ge_now (gw_handler to_ascii_lowercase no_text demo_gateway)
                       (fun w _ w' => w' = w) gw_world_new).
Notation gw_sched := (sched gw_answer gw_end gw_envt).
Definition gw_scheduled (x : gw_sched) : Prop := match x with inl p => gw_handler to_ascii_lowercase no_text demo_gateway p | inr _ => True end.
Definition gw_step (i : nat) (r : result http_response bool) : gw_sched := inr (i, at_time 10 r).

(** Up to the first call, which another request overtakes in vain. *)
Definition locked_steps : list gw_sched :=
  inl (demo_handler true) :: inl (demo_handler false) ::
  (gw_step 0 <$> [accepts; accepts; accepts; accepts; accepts; announces "s1"; accepts; accepts])
  ++ (gw_step 1 <$> [accepts; accepts; accepts]) ++ [gw_step 0 expires].
Definition all_steps : list gw_sched :=
  locked_steps ++ (gw_step 0 <$> [accepts; announces "s2"; accepts; accepts; answers_done; accepts]).

Lemma demo_handled replay_safe : gw_handler to_ascii_lowercase no_text demo_gateway (demo_handler replay_safe).
Proof. by exists bearer, (call_body replay_safe). Qed.
Lemma gw_steps_scheduled i l : Forall gw_scheduled (gw_step i <$> l).
Proof. induction l; constructor; [exact I|assumption]. Qed.
Lemma locked_scheduled : Forall gw_scheduled locked_steps.
Proof.
  do 2 (constructor; [apply demo_handled|]). rewrite !Forall_app. split; [apply gw_steps_scheduled|]. split; [apply gw_steps_scheduled|].
  by constructor.
Qed.
Lemma all_scheduled : Forall gw_scheduled all_steps.
Proof. apply Forall_app. split; [exact locked_scheduled|apply gw_steps_scheduled]. Qed.
Lemma gw_run_exec l : Forall gw_scheduled l -> gw_exec (gw_run l).1.1.1 (gw_run l).1.1.2 (gw_run l).1.2 (gw_run l).2.
Proof.
  intros Hl. pose proof (@run_sched_exec _ _ _ _ _ (gw_perform "1" demo_gateway) ge_now
    (gw_handler to_ascii_lowercase no_text demo_gateway) (fun w _ w' => w' = w) gw_world_new l Hl) as Hx.
  by destruct (gw_run l) as [[[tr t] w] ts].
Qed.

Definition end_status (p : prog gw_answer gw_end) : option Z :=
  match p with Ret (GwReplied status _) => Some status | Ret GwWaiting => Some 0 | Act _ _ => None end.
Example both_ended :
  (end_status <$> (gw_run all_steps).2, gw_session (gw_run all_steps).1.2, gw_locked (gw_run locked_steps).1.2)
  = ([Some 200; Some 0], Some "s2", true).
Proof. vm_compute. reflexivity. Qed.

Lemma mcp_session_exclusive_witness :
  gw_locked (gw_run all_steps).1.2 = false /\ gw_session (gw_run all_steps).1.2 = Some "s2" /\
  status_of no_text "s2" (gw_run all_steps).1.1.1 = Live.
Proof.
  assert (gw_locked (gw_run all_steps).1.2 = false) as Hl by (vm_compute; reflexivity).
  assert (gw_session (gw_run all_steps).1.2 = Some "s2") as Hs by (vm_compute; reflexivity).
  split; [exact Hl|]. split; [exact Hs|].
  exact (proj1 (proj2 (proj2 (mcp_session_exclusive to_ascii_lowercase no_text "1" demo_gateway _ _ _ _
    (gw_run_exec all_steps all_scheduled)))) "s2" Hl Hs).
Defined.

Lemma mcp_lock_released_witness :
  gw_locked (gw_run locked_steps).1.2 = true /\
  exists i p, (gw_run locked_steps).2 !! i = Some p /\ releases 13 p.
Proof.
  assert (gw_locked (gw_run locked_steps).1.2 = true) as Hl by (vm_compute; reflexivity). split; [exact Hl|].
  destruct (proj2 (mcp_lock_released to_ascii_lowercase no_text "1" demo_gateway) _ _ _ _
    (gw_run_exec locked_steps locked_scheduled) Hl) as (i & p & Hp & Hr & _).
  exists i, p. split; [exact Hp|exact Hr].
Defined.
