(* ===== verification/Capability.v ===== *)
(** * Capabilities and profiles ([src/effective_capability.rs],
    [src/profile_compatibility.rs], [src/operator_profile.rs])

    Which of a provider's service variants satisfy a request, and the two small
    evaluators of draft profiles. *)

From S2P Require Import Prelude Text Json.

Definition EFFECTIVE_CAPABILITY_PROFILE_ID : string := "urn:iicp:profile:effective-capability:v1".
Definition EFFECTIVE_CAPABILITY_SCHEMA_VERSION : string := "1.0.0".
Definition REFUSAL_REQUIRED_UNKNOWN : string := "required_capability_unknown".
Definition REFUSAL_REQUIRED_UNSUPPORTED : string := "required_capability_unsupported".
Definition REFUSAL_REQUIRED_STALE : string := "required_capability_stale".
Definition REFUSAL_LIMIT_UNSATISFIED : string := "capability_limit_unsatisfied".
Definition REFUSAL_POLICY_DENIED : string := "capability_policy_denied".

(** ** Data *)

Record CapabilityLimit := mkLimit { limit_value : f64; limit_unit : string }.
Record CapabilityClaimProvenance := mkProvenance {
  source : string;
  observed_at : option string;
  valid_until : option string;
  evidence_ref : option string
}.
Record CapabilityExtension := mkExtension { ext_required : bool; ext_value : json }.

(** One complete variant; a [BTreeMap] is its entries in key order. *)
Record EffectiveCapability := mkCapability {
  ec_intent : string;
  ec_version : option string;
  ec_phase : option Z;
  ec_variant_id : option string;
  ec_models : list string;
  ec_max_tokens : option Z;
  ec_input_modalities : list string;
  ec_output_modalities : list string;
  ec_features : list string;
  ec_execution_capabilities : list string;
  ec_limits : list (string * CapabilityLimit);
  ec_supported_profiles : list string;
  ec_claim_provenance : option CapabilityClaimProvenance;
  ec_extensions : list (string * CapabilityExtension)
}.
Record EffectiveCapabilityAdvertisement := mkAdvertisement { ad_schema_version : string; ad_capabilities : list EffectiveCapability }.

Record CapabilityRequirement := mkRequirement { capability_class : string; cr_id : string }.
Global Instance requirement_eq_dec : EqDecision CapabilityRequirement.
Proof. solve_decision. Defined.
Record CapabilityLimitRequirement := mkLimitRequirement { lr_id : string; lr_operator : string; lr_value : f64; lr_unit : string }.
Record CapabilityRequirements := mkRequirements {
  rq_schema_version : string;
  rq_intent : string;
  requires : list CapabilityRequirement;
  prefers : list CapabilityRequirement;
  rq_limits : list CapabilityLimitRequirement
}.
Record EffectiveCapabilityMatch := mkMatch {
  eligible : bool;
  variant_ids : list (option string);
  preference_unavailable : bool;
  refusal_code : option string;
  preserved_extensions : list string
}.

(** ** Serialization *)

Definition strings_json (l : list string) : json := JArray (JString <$> l).
Definition field_if (b : bool) (k : string) (v : json) : list (string * json) := if b then [(k, v)] else [].
Definition field_opt {A} (f : A -> json) (k : string) (o : option A) : list (string * json) :=
  match o with Some a => [(k, f a)] | None => [] end.
Definition map_json {A} (f : A -> json) (m : list (string * A)) : json := mk_obj (prod_map id f <$> m).
Definition entry {A} (m : list (string * A)) (k : string) : option A := snd <$> head (filter (fun kv => kv.1 = k) m).
Definition nonempty {A} (l : list A) : bool := match l with [] => false | _ => true end.

Definition limit_json (l : CapabilityLimit) : json :=
  mk_obj [("value", f64_json (limit_value l)); ("unit", JString (limit_unit l))].
Definition provenance_json (p : CapabilityClaimProvenance) : json :=
  mk_obj ([("source", JString (source p))] ++ field_opt JString "observed_at" (observed_at p)
          ++ field_opt JString "valid_until" (valid_until p) ++ field_opt JString "evidence_ref" (evidence_ref p)).
Definition extension_json (e : CapabilityExtension) : json :=
  mk_obj [("required", JBool (ext_required e)); ("value", ext_value e)].
Definition capability_json (c : EffectiveCapability) : json :=
  mk_obj ([("intent", JString (ec_intent c))] ++ field_opt JString "version" (ec_version c)
          ++ field_opt u64_json "phase" (ec_phase c) ++ field_opt JString "variant_id" (ec_variant_id c)
          ++ field_if (nonempty (ec_models c)) "models" (strings_json (ec_models c))
          ++ field_opt u64_json "max_tokens" (ec_max_tokens c)
          ++ field_if (nonempty (ec_input_modalities c)) "input_modalities" (strings_json (ec_input_modalities c))
          ++ field_if (nonempty (ec_output_modalities c)) "output_modalities" (strings_json (ec_output_modalities c))
          ++ field_if (nonempty (ec_features c)) "features" (strings_json (ec_features c))
          ++ field_if (nonempty (ec_execution_capabilities c)) "execution_capabilities"
               (strings_json (ec_execution_capabilities c))
          ++ field_if (nonempty (ec_limits c)) "limits" (map_json limit_json (ec_limits c))
          ++ field_if (nonempty (ec_supported_profiles c)) "supported_profiles" (strings_json (ec_supported_profiles c))
          ++ field_opt provenance_json "claim_provenance" (ec_claim_provenance c)
          ++ field_if (nonempty (ec_extensions c)) "extensions" (map_json extension_json (ec_extensions c))).

(** ** Validation *)

Section chrono.
(** [DateTime::parse_from_rfc3339], as an instant *)
Context (parse_from_rfc3339 : string -> option Z).

Definition LIMIT_UNITS : list string := ["tokens"; "items"; "bytes"; "milliseconds"; "dimensions"].
Definition CLAIM_SOURCES : list string :=
  ["heuristic_fallback"; "operator_assertion"; "provider_metadata"; "runtime_introspection"; "conformance_probe"].

Fixpoint validate_limits (l : list (string * CapabilityLimit)) : result unit string :=
  match l with
  | [] => Ok tt
  | (_, limit) :: l =>
      if negb (f64_is_finite (limit_value limit)) || f64_ltb (limit_value limit) (f64_of_Z 0)
      then Err "limit value must be a non-negative finite number"
      else if negb (str_in (limit_unit limit) LIMIT_UNITS) then Err "limit unit is unsupported"
      else validate_limits l
  end.
Definition validate_provenance (p : CapabilityClaimProvenance) : result unit string :=
  if negb (str_in (source p) CLAIM_SOURCES) then Err "claim provenance source is unsupported"
  else if forallb (fun t => is_some (parse_from_rfc3339 t)) (option_list (observed_at p) ++ option_list (valid_until p))
  then Ok tt else Err "claim provenance timestamp must be RFC 3339".
Definition identity_of (c : EffectiveCapability) : string * option string := (ec_intent c, ec_variant_id c).
Fixpoint validate_capabilities (identities : list (string * option string)) (l : list EffectiveCapability) : result unit string :=
  match l with
  | [] => Ok tt
  | c :: l =>
      if str_is_empty (ec_intent c) then Err "intent is required"
      else if bool_decide (identity_of c ∈ identities) then Err "effective capability variants must be unique"
      else
        let? _ := validate_limits (ec_limits c) in
        let? _ := match ec_claim_provenance c with Some p => validate_provenance p | None => Ok tt end in
        validate_capabilities (identity_of c :: identities) l
  end.
Definition validate (a : EffectiveCapabilityAdvertisement) : result unit string :=
  if ad_schema_version a <>? EFFECTIVE_CAPABILITY_SCHEMA_VERSION then Err "unsupported effective capability schema_version"
  else if negb (nonempty (ad_capabilities a)) then Err "capabilities must be non-empty"
  else validate_capabilities [] (ad_capabilities a).

Definition claims_heuristic (c : EffectiveCapability) : bool :=
  opt_str_is (source <$> ec_claim_provenance c) "heuristic_fallback".
Definition resolve_effective_capabilities (explicit introspected heuristic : list EffectiveCapability)
    : result (list EffectiveCapability) string :=
  if nonempty explicit then Ok explicit
  else if nonempty introspected then Ok introspected
  else if existsb (fun c => negb (claims_heuristic c)) heuristic
  then Err "heuristic capability evidence must be labelled heuristic_fallback"
  else Ok heuristic.

(** ** Matching *)

Definition refusal (code : string) : EffectiveCapabilityMatch := mkMatch false [] false (Some code) [].
Definition known (vocabulary : gmap string (list string)) (r : CapabilityRequirement) : bool :=
  is_some_and (vocabulary !! capability_class r) (str_in (cr_id r)).
Definition values (candidate : EffectiveCapability) (class : string) : option (list string) :=
  if class ==? "input_modality" then Some (ec_input_modalities candidate)
  else if class ==? "output_modality" then Some (ec_output_modalities candidate)
  else if class ==? "feature" then Some (ec_features candidate)
  else if class ==? "execution_capability" then Some (ec_execution_capabilities candidate)
  else if class ==? "profile" then Some (ec_supported_profiles candidate)
  else None.
Definition offers (candidate : EffectiveCapability) (r : CapabilityRequirement) : bool :=
  is_some_and (values candidate (capability_class r)) (str_in (cr_id r)).
Definition supports (candidate : EffectiveCapability) (requirements : list CapabilityRequirement) : bool :=
  forallb (offers candidate) requirements.
Definition fresh (candidate : EffectiveCapability) (evaluated_at : Z) : bool :=
  is_none_or (let! p := ec_claim_provenance candidate in let! v := valid_until p in parse_from_rfc3339 v)
    (fun until => evaluated_at <=? until).
Definition limit_matches (candidate : EffectiveCapability) (r : CapabilityLimitRequirement) : bool :=
  is_some_and (entry (ec_limits candidate) (lr_id r)) (fun actual =>
    (limit_unit actual ==? lr_unit r)
    && (if lr_operator r ==? "gte" then f64_leb (lr_value r) (limit_value actual)
        else if lr_operator r ==? "lte" then f64_leb (limit_value actual) (lr_value r)
        else if lr_operator r ==? "eq" then f64_eqb (limit_value actual) (lr_value r)
        else false)).
Definition limits_match (candidate : EffectiveCapability) (required : list CapabilityLimitRequirement) : bool :=
  forallb (limit_matches candidate) required.

Fixpoint first_refusal (vocabulary : gmap string (list string)) (policy_denials : list CapabilityRequirement)
    (l : list CapabilityRequirement) : option string :=
  match l with
  | [] => None
  | r :: l =>
      if negb (known vocabulary r) then Some REFUSAL_REQUIRED_UNKNOWN
      else if bool_decide (r ∈ policy_denials) then Some REFUSAL_POLICY_DENIED
      else first_refusal vocabulary policy_denials l
  end.

Definition match_effective_capabilities (capabilities : list EffectiveCapability) (request : CapabilityRequirements)
    (vocabulary : gmap string (list string)) (evaluated_at : Z) (policy_denials : list CapabilityRequirement)
    : EffectiveCapabilityMatch :=
  match first_refusal vocabulary policy_denials (requires request) with
  | Some code => refusal code
  | None =>
      let candidates := filter (fun c => (ec_intent c ==? rq_intent request) && supports c (requires request) = true) capabilities in
      if negb (nonempty candidates) then refusal REFUSAL_REQUIRED_UNSUPPORTED
      else
        let candidates := filter (fun c => fresh c evaluated_at = true) candidates in
        if negb (nonempty candidates) then refusal REFUSAL_REQUIRED_STALE
        else
          let candidates := filter (fun c => limits_match c (rq_limits request) = true) candidates in
          if negb (nonempty candidates) then refusal REFUSAL_LIMIT_UNSATISFIED
          else
            mkMatch true (ec_variant_id <$> candidates)
              (existsb (fun p => negb (known vocabulary p) || negb (existsb (fun c => offers c p) candidates)) (prefers request))
              None
              (sorted_set (candidates ≫= fun c => (ec_extensions c).*1))
  end.

(** ** Which variants a request accepts *)

(** One variant by itself meets the whole request. *)
Definition satisfies (request : CapabilityRequirements) (evaluated_at : Z) (c : EffectiveCapability) : Prop :=
  ec_intent c = rq_intent request /\ (forall r, r ∈ requires request -> offers c r = true) /\
  fresh c evaluated_at = true /\ (forall r, r ∈ rq_limits request -> limit_matches c r = true).
Definition in_policy (vocabulary : gmap string (list string)) (policy_denials : list CapabilityRequirement)
    (request : CapabilityRequirements) : Prop :=
  forall r, r ∈ requires request -> known vocabulary r = true /\ r ∉ policy_denials.

Lemma supports_spec c l : supports c l = true <-> forall r, r ∈ l -> offers c r = true.
Proof. unfold supports. rewrite forallb_forall. split; intros H r Hr; apply H; by apply list_elem_of_In. Qed.
Lemma limits_match_spec c l : limits_match c l = true <-> forall r, r ∈ l -> limit_matches c r = true.
Proof. unfold limits_match. rewrite forallb_forall. split; intros H r Hr; apply H; by apply list_elem_of_In. Qed.
Lemma first_refusal_None vocabulary denials l :
  first_refusal vocabulary denials l = None <-> forall r, r ∈ l -> known vocabulary r = true /\ r ∉ denials.
Proof.
  induction l as [|r l IH]; simpl; [split; [intros _ r H%elem_of_nil; done|done]|].
  destruct (known vocabulary r) eqn:Ek; simpl.
  - case_bool_decide as Hd; [|rewrite IH; setoid_rewrite elem_of_cons; naive_solver].
    split; [done|]. intros H. by destruct (H r (list_elem_of_here _ _)) as [_ []].
  - split; [done|]. intros H. destruct (H r (list_elem_of_here _ _)). congruence.
Qed.
Lemma first_refusal_code vocabulary denials l code :
  first_refusal vocabulary denials l = Some code -> code = REFUSAL_REQUIRED_UNKNOWN \/ code = REFUSAL_POLICY_DENIED.
Proof. induction l as [|r l IH]; simpl; [done|]. repeat case_match; naive_solver. Qed.
Lemma nonempty_spec {A} (l : list A) : nonempty l = true <-> exists x, x ∈ l.
Proof.
  destruct l as [|x l]; simpl; [|split; [intros _; exists x; by left|done]].
  split; [done|]. by intros [x H%elem_of_nil].
Qed.

(** The requirement a refusal is about is the first one that fails. *)
Definition violated (vocabulary : gmap string (list string)) (policy_denials : list CapabilityRequirement)
    (request : CapabilityRequirements) (code : string) : Prop :=
  exists l1 r l2, requires request = l1 ++ r :: l2 /\
    (forall x, x ∈ l1 -> known vocabulary x = true /\ x ∉ policy_denials) /\
    ((code = REFUSAL_REQUIRED_UNKNOWN /\ known vocabulary r = false) \/
     (code = REFUSAL_POLICY_DENIED /\ known vocabulary r = true /\ r ∈ policy_denials)).
(** The stage at which the last variants dropped out. *)
Definition refused_with (capabilities : list EffectiveCapability) (vocabulary : gmap string (list string))
    (policy_denials : list CapabilityRequirement) (request : CapabilityRequirements) (now : Z) (code : string) : Prop :=
  let supporting c := c ∈ capabilities /\ ec_intent c = rq_intent request /\ forall r, r ∈ requires request -> offers c r = true in
  violated vocabulary policy_denials request code \/
  (in_policy vocabulary policy_denials request /\
     ((code = REFUSAL_REQUIRED_UNSUPPORTED /\ forall c, ~ supporting c) \/
      (code = REFUSAL_REQUIRED_STALE /\ (exists c, supporting c) /\ forall c, supporting c -> fresh c now = false) \/
      (code = REFUSAL_LIMIT_UNSATISFIED /\ (exists c, supporting c /\ fresh c now = true) /\
       forall c, supporting c -> fresh c now = true -> limits_match c (rq_limits request) = false))).

Lemma first_refusal_Some vocabulary denials request code :
  first_refusal vocabulary denials (requires request) = Some code -> violated vocabulary denials request code.
Proof.
  unfold violated. induction (requires request) as [|r l IH]; cbn [first_refusal]; [done|].
  destruct (known vocabulary r) eqn:Ek; cbn [negb].
  - case_bool_decide as Hd.
    + intros [= <-]. exists [], r, l. split; [done|]. split; [by intros x Hx%elem_of_nil|]. by right.
    + intros (l1 & x & l2 & -> & H1 & H2)%IH. exists (r :: l1), x, l2. split; [done|]. split; [|done].
      intros y [->|Hy]%elem_of_cons; [done|by apply H1].
  - intros [= <-]. exists [], r, l. split; [done|]. split; [by intros x Hx%elem_of_nil|]. by left.
Qed.

Definition satisfiesb (request : CapabilityRequirements) (now : Z) (c : EffectiveCapability) : bool :=
  ((ec_intent c ==? rq_intent request) && supports c (requires request)) && (fresh c now && limits_match c (rq_limits request)).
Lemma satisfiesb_spec request now c : satisfiesb request now c = true <-> satisfies request now c.
Proof.
  unfold satisfiesb, satisfies. rewrite !andb_true_iff, String.eqb_eq, supports_spec, limits_match_spec. tauto.
Qed.
Global Instance satisfies_dec request now c : Decision (satisfies request now c).
Proof.
  refine (cast_if (decide (satisfiesb request now c = true))); by rewrite <- satisfiesb_spec.
Defined.

Lemma nonempty_filter_none {A} (P : A -> bool) (l : list A) :
  nonempty (filter (fun x => P x = true) l) = false -> forall x, x ∈ l -> P x = false.
Proof.
  intros H x Hx. destruct (P x) eqn:E; [|done].
  assert (nonempty (filter (fun x => P x = true) l) = true) as Hn; [|congruence].
  apply nonempty_spec. exists x. by apply list_elem_of_filter.
Qed.

(** The three rounds of filtering keep exactly the satisfying variants. *)
Lemma candidates_spec request now (capabilities : list EffectiveCapability) :
  filter (fun c => limits_match c (rq_limits request) = true)
    (filter (fun c => fresh c now = true)
      (filter (fun c => (ec_intent c ==? rq_intent request) && supports c (requires request) = true) capabilities)) =
  filter (satisfies request now) capabilities.
Proof.
  rewrite !list_filter_filter. apply list_filter_iff. intros c. rewrite <- satisfiesb_spec. unfold satisfiesb.
  rewrite !andb_true_iff. tauto.
Qed.

Lemma no_candidate p (l : list EffectiveCapability) :
  existsb (fun c => offers c p) l = false <-> forall c, c ∈ l -> offers c p = false.
Proof.
  rewrite <- not_true_iff_false, existsb_exists. setoid_rewrite <- list_elem_of_In. setoid_rewrite <- not_true_iff_false. naive_solver.
Qed.

(** What an answer means, eligible or not. *)
Definition match_meant (capabilities : list EffectiveCapability) (vocabulary : gmap string (list string))
    (denials : list CapabilityRequirement) (request : CapabilityRequirements) (now : Z) (m : EffectiveCapabilityMatch) : Prop :=
  (eligible m = true <->
     in_policy vocabulary denials request /\ exists c, c ∈ capabilities /\ satisfies request now c) /\
  (eligible m = true ->
     refusal_code m = None /\ variant_ids m = ec_variant_id <$> filter (satisfies request now) capabilities /\
     (preference_unavailable m = true <-> exists p, p ∈ prefers request /\
        (known vocabulary p = false \/ forall c, c ∈ capabilities -> satisfies request now c -> offers c p = false)) /\
     (forall k, k ∈ preserved_extensions m <->
        exists c, c ∈ capabilities /\ satisfies request now c /\ k ∈ (ec_extensions c).*1)) /\
  (eligible m = false ->
     variant_ids m = [] /\ preserved_extensions m = [] /\
     exists code, refusal_code m = Some code /\ refused_with capabilities vocabulary denials request now code).
Lemma refusal_meant capabilities vocabulary denials request now code :
  nonempty (filter (satisfies request now) capabilities) = false ->
  refused_with capabilities vocabulary denials request now code ->
  match_meant capabilities vocabulary denials request now (refusal code).
Proof.
  intros Hn Hw. split; [|split; [done|]]; simpl.
  - split; [done|]. intros (_ & c & Hc & Hs).
    assert (c ∈ filter (satisfies request now) capabilities) as H by by apply list_elem_of_filter.
    by destruct (filter _ _); [apply not_elem_of_nil in H|].
  - intros _. split; [done|]. split; [done|]. by exists code.
Qed.

(** Matching is exact: a request is eligible exactly when policy and vocabulary
    allow every required capability and some single variant meets all of it; the
    variants returned are exactly those, in advertised order, never a union of
    several; preferences and extensions are reported from them alone; and a
    refusal names the first stage at which nothing was left. *)
Theorem capability_match_exact capabilities request vocabulary now denials :
  match_meant capabilities vocabulary denials request now
    (match_effective_capabilities capabilities request vocabulary now denials).
Proof.
  unfold match_effective_capabilities.
  destruct (first_refusal vocabulary denials (requires request)) as [code|] eqn:Ef.
  { apply first_refusal_Some in Ef as Hv. split; [|split; [done|]].
    - split; [done|]. intros [Hp _]. by rewrite (proj2 (first_refusal_None _ _ _) Hp) in Ef.
    - intros _. split; [done|]. split; [done|]. exists code. split; [done|]. by left. }
  assert (in_policy vocabulary denials request) as Hpol by exact (proj1 (first_refusal_None _ _ _) Ef).
  assert (forall c, c ∈ filter (fun c => (ec_intent c ==? rq_intent request) && supports c (requires request) = true) capabilities <->
    c ∈ capabilities /\ ec_intent c = rq_intent request /\ forall r, r ∈ requires request -> offers c r = true) as Hsup.
  { intros c. rewrite list_elem_of_filter, andb_true_iff, String.eqb_eq, supports_spec. tauto. }
  pose proof (candidates_spec request now capabilities) as Hall.
  set (l1 := filter _ capabilities) in *. set (l2 := filter (fun c => fresh c now = true) l1) in *.
  assert (forall code, nonempty (filter (satisfies request now) capabilities) = false ->
    refused_with capabilities vocabulary denials request now code ->
    match_meant capabilities vocabulary denials request now (refusal code)) as Hrefuse.
  { intros code Hn Hw. by apply refusal_meant. }
  destruct (nonempty l1) eqn:E1; cbn [negb].
  2:{ apply Hrefuse.
      - rewrite <- Hall. unfold l2. by destruct l1.
      - right. split; [done|]. left. split; [done|]. intros c Hc%Hsup. by destruct l1; [apply not_elem_of_nil in Hc|]. }
  destruct (nonempty l2) eqn:E2; cbn [negb].
  2:{ apply Hrefuse; [rewrite <- Hall; by destruct l2|]. right. split; [done|]. right. left. split; [done|].
      apply nonempty_spec in E1 as [c Hc]. split; [exists c; by apply Hsup|]. intros x Hx%Hsup. by apply (nonempty_filter_none _ _ E2). }
  destruct (nonempty (filter _ l2)) eqn:E3; cbn [negb].
  2:{ apply Hrefuse; [by rewrite <- Hall|]. right. split; [done|]. right. right. split; [done|].
      apply nonempty_spec in E2 as [c Hc]. apply list_elem_of_filter in Hc as [Hf Hc].
      split; [exists c; split; [by apply Hsup|done]|]. intros x Hx%Hsup Hfx. apply (nonempty_filter_none _ _ E3).
      by apply list_elem_of_filter. }
  rewrite Hall. rewrite Hall in E3. apply nonempty_spec in E3 as [c Hc]. apply list_elem_of_filter in Hc as [Hc Hin].
  split; [|split; [|done]]; cbn [eligible refusal_code variant_ids preference_unavailable preserved_extensions].
  - split; [|done]. intros _. split; [done|]. by exists c.
  - intros _. split; [done|]. split; [done|]. split.
    + rewrite existsb_exists. setoid_rewrite <- list_elem_of_In. setoid_rewrite orb_true_iff.
      setoid_rewrite negb_true_iff. setoid_rewrite no_candidate. setoid_rewrite list_elem_of_filter. naive_solver.
    + intros k. rewrite elem_of_sorted_set, list_elem_of_bind. setoid_rewrite list_elem_of_filter. naive_solver.
Qed.
End chrono.

(** ** Draft profiles ([profile_compatibility.rs]) *)

Record ProfileCompatibilityDecision := mkDecision { pc_eligible : bool; pc_reason : string }.
Definition profile_reject (reason : string) : ProfileCompatibilityDecision := mkDecision false reason.

(** The first alias of the intent that has a target, else the intent. *)
Definition alias_target (intent : string) (item : json) : option string :=
  if opt_str_is (get_str item "from") intent then get_str item "to" else None.
Definition resolve_intent (intent : option string) (aliases : json) : option string :=
  let! i := intent in
  option_or (let! items := as_array aliases in head (omap (alias_target i) items)) (Some i).

Definition offers_extension (provider : json) (uri : option string) : bool :=
  is_some_and (jget provider "extensions" ≫= as_array) (existsb (fun item => bool_decide (get_str item "uri" = uri))).
Fixpoint extension_refusal (provider : json) (now_s : Z) (l : list json) : option string :=
  match l with
  | [] => None
  | e :: l =>
      if negb (opt_bool_is (get_bool e "required") true) then extension_refusal provider now_s l
      else if opt_bool_is (get_bool e "experimental") true && (default 0 (get_i64 e "review_expires_at_s") <=? now_s)
      then Some "experimental_extension_expired"
      else if negb (offers_extension provider (get_str e "uri")) then Some "required_extension_missing"
      else extension_refusal provider now_s l
  end.

Definition evaluate_pre_normative_profile (request provider aliases : json) (now_s : Z) : ProfileCompatibilityDecision :=
  if opt_str_is (get_str request "policy") "deny" then profile_reject "policy_refusal"
  else if is_some_and (get_str request "mapping_kind") (fun b => negb (str_in b ["a2a_skill"; "mcp_tool"]))
  then profile_reject "unsupported_binding"
  else if negb (bool_decide (resolve_intent (get_str request "intent") aliases =
                             resolve_intent (get_str provider "intent") aliases))
  then profile_reject "intent_mismatch"
  else if is_some_and (get_str request "schema_digest") (fun d => negb (opt_str_is (get_str provider "schema_digest") d))
  then profile_reject "schema_digest_mismatch"
  else
    match extension_refusal provider now_s (default [] (jget request "extensions" ≫= as_array)) with
    | Some reason => profile_reject reason
    | None => mkDecision true "compatible"
    end.

(** ** The managed operator profile ([operator_profile.rs]) *)

Record ManagedOperatorInput := mkOperatorInput {
  mode : string;
  authentication_configured : bool;
  identity_storage_protected : bool;
  auto_update_requested : bool;
  update_authenticated : bool;
  rollback_verified : bool;
  upnp_requested : bool;
  tunnel_requested : bool;
  upnp_approved : bool;
  tunnel_approved : bool
}.
Definition operator_checks (v : ManagedOperatorInput) : list (bool * string) :=
  [(authentication_configured v, "authentication_required");
   (identity_storage_protected v, "protected_identity_storage_required");
   (negb (auto_update_requested v) || update_authenticated v, "authenticated_update_required");
   (negb (auto_update_requested v) || rollback_verified v, "rollback_required");
   (negb (upnp_requested v) || upnp_approved v, "upnp_approval_required");
   (negb (tunnel_requested v) || tunnel_approved v, "tunnel_approval_required")].
Definition evaluate_managed_operator (v : ManagedOperatorInput) : bool * string :=
  if mode v ==? "convenience" then (true, "convenience_mode")
  else if mode v <>? "managed" then (false, "invalid_operator_profile")
  else match head (filter (fun c => c.1 = false) (operator_checks v)) with
       | Some (_, reason) => (false, reason)
       | None => (true, "managed_requirements_met")
       end.

(** A managed node starts only with every requested feature backed. *)
Lemma managed_operator_starts v :
  mode v = "managed" ->
  (evaluate_managed_operator v).1 = true <->
  authentication_configured v = true /\ identity_storage_protected v = true /\
  (auto_update_requested v = true -> update_authenticated v = true /\ rollback_verified v = true) /\
  (upnp_requested v = true -> upnp_approved v = true) /\ (tunnel_requested v = true -> tunnel_approved v = true).
Proof.
  intros Hm. unfold evaluate_managed_operator, operator_checks. rewrite Hm. destruct v; simpl.
  repeat match goal with b : bool |- _ => destruct b end; simpl; naive_solver.
Qed.
