(* ===== verification/PolicyEval.v ===== *)
(** * Policy profile evaluators

    [src/policy_data_handling.rs], [src/policy_operational_evidence.rs] and
    [src/policy_detail_disclosure.rs]: opt-in checks of a provider's declarations
    and evidence against a consumer's requirements, and the disclosure of policy
    details to an authorised consumer. *)

From S2P Require Import Prelude Text Json DispatchTicket.

Record PolicyDecision := mkPolicyDecision { pd_eligible : bool; pd_reason : string }.
Definition policy_reject (reason : string) : PolicyDecision := mkPolicyDecision false reason.
Definition policy_accept : PolicyDecision := mkPolicyDecision true "compatible".

Definition string_array (value : option json) : list string := omap as_str (default [] (value ≫= as_array)).

(** The reason of the first check that fails. *)
Fixpoint first_failing (checks : list (bool * string)) : PolicyDecision :=
  match checks with
  | [] => policy_accept
  | (fails, reason) :: checks => if fails then policy_reject reason else first_failing checks
  end.

(** ** Data handling *)

Fixpoint position (s : string) (values : list string) : option Z :=
  match values with
  | [] => None
  | v :: values => if v ==? s then Some 0 else (fun n => n + 1) <$> position s values
  end.
(** Where a value stands among the levels. *)
Definition level (values : list string) (value : option json) : option Z := let! s := value ≫= as_str in position s values.
Definition rank (value : option json) (values : list string) (fallback : Z) : Z := default fallback (level values value).

Definition KNOWN_REQUIREMENTS : list string :=
  ["version"; "data_class"; "remote_routing"; "allowed_regions"; "retention"; "training_use"; "subprocessors"; "approval";
   "tool_risk"; "requires_encryption"; "requires_receipt"; "requires_human_review"; "critical_requirements"].
Definition APPROVALS : list string := ["none"; "user"; "operator"; "human_review"].
Definition RISKS : list string := ["none"; "read_only"; "write"; "privileged"].

Definition retention_violated (required_mode declared_mode : option string) (rr dr : json) : bool :=
  if opt_str_is required_mode "none" && negb (opt_str_is declared_mode "none") then true
  else if opt_str_is required_mode "transient" then
    if negb (opt_str_is declared_mode "none" || opt_str_is declared_mode "transient") then true
    else
      match get_u64 rr "max_seconds" with
      | Some required_max =>
          let declared_max := if opt_str_is declared_mode "none" then Some 0 else get_u64 dr "max_seconds" in
          match declared_max with None => true | Some v => required_max <? v end
      | None => false
      end
  else false.

Definition evaluate_policy_data_handling (requirement declaration context : json) : PolicyDecision :=
  let says v k s := opt_str_is (get_str v k) s in
  let holds v k := opt_bool_is (get_bool v k) true in
  let regions := string_array (jget requirement "allowed_regions") in
  let rr := jidx requirement "retention" in
  let dr := jidx declaration "retention" in
  first_failing
    [ (existsb (fun f => negb (str_in f KNOWN_REQUIREMENTS)) (string_array (jget requirement "critical_requirements")),
       "unsupported_policy_requirement");
      (says requirement "remote_routing" "local_only", "remote_routing_forbidden");
      (negb (str_in (default empty_str (get_str requirement "data_class")) (string_array (jget declaration "accepted_data_classes"))),
       "data_class_not_accepted");
      (says requirement "remote_routing" "requires_approval" && negb (holds context "approval_granted"), "approval_required");
      (match regions with [] => false | _ => negb (str_in (default empty_str (get_str declaration "jurisdiction")) regions) end,
       "region_not_allowed");
      (retention_violated (get_str rr "task_payload") (get_str dr "task_payload") rr dr, "retention_requirement_unsatisfied");
      (says requirement "training_use" "none" && negb (says declaration "training_use" "none"), "training_use_requirement_unsatisfied");
      (says requirement "subprocessors" "none" && negb (says declaration "subprocessors" "none"), "subprocessor_requirement_unsatisfied");
      (is_some (jget requirement "approval")
       && (rank (jget declaration "approval") APPROVALS (-1) <? rank (jget requirement "approval") APPROVALS 99),
       "approval_requirement_unsatisfied");
      (is_some (jget requirement "tool_risk")
       && (rank (jget requirement "tool_risk") RISKS (-1) <? rank (jget declaration "tool_risk") RISKS 99),
       "tool_risk_requirement_unsatisfied");
      (holds requirement "requires_encryption" && negb (holds context "encryption_ready"), "encryption_requirement_unsatisfied");
      (holds requirement "requires_receipt" && negb (holds context "receipt_supported"), "receipt_requirement_unsatisfied");
      (holds requirement "requires_human_review" && negb (holds declaration "requires_human_review"),
       "human_review_requirement_unsatisfied") ].

(** ** Operational evidence *)

(** A panic on an instant the caller did not validate is [None]. *)
Section evidence.
(** [str::parse::<DateTime<Utc>>] *)
Context (parse_datetime : string -> option Z).

Definition KNOWN_EVIDENCE : list string := ["retention_control"; "subprocessor_disclosure"; "approval_event"].
Definition same_value (a b : option json) : bool :=
  match a, b with Some a, Some b => json_eqb a b | None, None => true | _, _ => false end.
Definition is_current (now : Z) (item : json) : bool :=
  is_some_and (get_str item "expires_at" ≫= parse_datetime) (fun expires => now <? expires).
Fixpoint check_evidence (now : Z) (evidence : list json) (required : list string) : PolicyDecision :=
  match required with
  | [] => policy_accept
  | kind :: required =>
      let matches := filter (fun item => opt_str_is (get_str item "type") kind = true) evidence in
      match matches with
      | [] => policy_reject "evidence_missing"
      | _ =>
          let verified := filter (fun item => opt_bool_is (get_bool item "verified") true = true) matches in
          match verified with
          | [] => policy_reject "evidence_unauthenticated"
          | _ => if existsb (is_current now) verified then check_evidence now evidence required else policy_reject "evidence_expired"
          end
      end
  end.
Definition evaluate_policy_operational_evidence (requirement context : json) (evaluated_at : string) : option PolicyDecision :=
  let required := string_array (jget requirement "required_evidence") in
  if existsb (fun kind => negb (str_in kind KNOWN_EVIDENCE)) required then Some (policy_reject "unsupported_evidence_requirement")
  else if negb (same_value (jget requirement "manifest_sha256") (jget context "manifest_sha256"))
  then Some (policy_reject "manifest_digest_mismatch")
  else
    let! now := parse_datetime evaluated_at in
    Some (check_evidence now (default [] (jget context "evidence" ≫= as_array)) required).
End evidence.

(** ** Disclosure of policy details *)

Definition CONSUMER_TOKEN_DOMAIN : list byte := str_bytes ("iicp:consumer-token:v1" +:+ String "010"%char EmptyString).
Definition ALLOWED_DETAIL_FIELDS : list string :=
  ["retention_intervals"; "subprocessor_references"; "approval_evidence_references"; "operational_evidence_references"].

Record PolicyDetailDisclosureDecision := mkDisclosure { ds_status : Z; ds_reason : string; ds_body : option json }.
Record ConsumerTokenVerification := mkVerification { cv_status : string; cv_claims : option json }.

Section token.
(** [hex::decode], the curve of [ed25519-dalek], [URL_SAFE_NO_PAD] and [serde_json] *)
Context (hex_decode : string -> option (list byte)) (ed_key_valid : list byte -> bool)
  (ed25519_verify : list byte -> list byte -> list byte -> bool)
  (b64url_decode : string -> option (list byte)) (parse_claims : list byte -> option json).

Definition hex_array (n : nat) (s : string) : option (list byte) :=
  let! l := hex_decode s in if (length l =? n)%nat then Some l else None.
Definition claims_bound (claims : json) (target_node_id intent : string) : bool :=
  bool_decide (as_i64 (jidx claims "v") = Some 1) && jis_str (jidx claims "aud") target_node_id
  && jis_str (jidx claims "intent") intent && is_some (as_str (jidx claims "sub")).
Definition verify_policy_detail_consumer_token (token public_key_hex target_node_id intent : string) (now_s : Z)
    : ConsumerTokenVerification :=
  let claims :=
    let! (payload, signature_hex) := split_once "." token in
    if negb (str_len signature_hex =? 128) then None
    else
      let! key := hex_array 32 public_key_hex in
      if negb (ed_key_valid key) then None
      else
        let! signature := hex_array 64 signature_hex in
        if negb (ed25519_verify key (CONSUMER_TOKEN_DOMAIN ++ str_bytes payload) signature) then None
        else
          let! bytes := b64url_decode payload in
          let! claims := parse_claims bytes in
          if claims_bound claims target_node_id intent then Some claims else None in
  match claims with
  | None => mkVerification "invalid" None
  | Some claims =>
      if is_none_or (as_i64 (jidx claims "exp")) (fun exp => exp <=? now_s) then mkVerification "expired" (Some claims)
      else mkVerification "valid" (Some claims)
  end.
End token.

Definition disclosure (status : Z) (reason : string) : PolicyDetailDisclosureDecision := mkDisclosure status reason None.
Definition present_str (v : json) (k : string) : option string :=
  let! s := as_str (jidx v k) in if str_is_empty s then None else Some s.
Definition bound_by (o : option string) (others : list json) : bool :=
  is_some o && forallb (fun v => bool_decide (o = as_str v)) others.
Definition allowed_details (source : option (list (string * json))) : list (string * json) :=
  match source with
  | Some m => ALLOWED_DETAIL_FIELDS ≫= fun field => match obj_get m field with Some v => [(field, v)] | None => [] end
  | None => []
  end.
Definition evaluate_policy_detail_disclosure (context : json) : PolicyDetailDisclosureDecision :=
  let auth := as_str (jidx context "consumer_auth") in
  if opt_str_is auth "missing" then disclosure 401 "consumer_auth_required"
  else if negb (opt_str_is auth "valid" || opt_str_is auth "expired" || opt_str_is auth "revoked")
  then disclosure 401 "consumer_auth_invalid"
  else if opt_str_is auth "expired" then disclosure 401 "consumer_auth_expired"
  else if opt_str_is auth "revoked" then disclosure 401 "consumer_auth_revoked"
  else
    let ticket := as_str (jidx context "dispatch_ticket") in
    if opt_str_is ticket "expired" then disclosure 401 "dispatch_ticket_expired"
    else if opt_str_is ticket "revoked" then disclosure 401 "dispatch_ticket_revoked"
    else if negb (opt_str_is ticket "valid" || negb (is_some ticket)) then disclosure 401 "dispatch_ticket_invalid"
    else if negb (opt_bool_is (as_bool (jidx context "disclosure_allowed")) true) then disclosure 403 "disclosure_forbidden"
    else
      let provider := present_str context "provider_node_id" in
      let intent := present_str context "consumer_intent" in
      let digest := present_str context "manifest_sha256" in
      if negb (bound_by provider [jidx context "consumer_target_node_id"; jidx context "ticket_target_node_id"]
               && bound_by intent [jidx context "ticket_intent"] && bound_by digest [jidx context "ticket_manifest_sha256"])
      then disclosure 404 "resource_concealed"
      else
        mkDisclosure 200 "compatible"
          (Some (mk_obj [("profile", JString "urn:iicp:profile:policy-detail-disclosure:v0");
                         ("manifest_sha256", JString (default empty_str digest));
                         ("details", mk_obj (allowed_details (as_object (jidx context "details"))));
                         ("claim_status", JString "provider_declared")])).

(** ** What the evaluators decide *)

Lemma first_failing_eligible checks : pd_eligible (first_failing checks) = true <-> Forall (fun c => c.1 = false) checks.
Proof.
  induction checks as [|[[] r] checks IH]; cbn [first_failing]; [by split|..].
  - split; [done|]. intros H%Forall_inv. done.
  - rewrite Forall_cons. rewrite IH. naive_solver.
Qed.
Lemma first_failing_compatible checks :
  Forall (fun c => c.2 <> "compatible") checks ->
  pd_reason (first_failing checks) = "compatible" <-> pd_eligible (first_failing checks) = true.
Proof.
  induction 1 as [|[[] r] checks Hr _ IH]; cbn [first_failing]; [done|split; [intros Hc; by destruct (Hr Hc)|done]|exact IH].
Qed.

Lemma not_and b c : b && negb c = false <-> (b = true -> c = true).
Proof. destruct b, c; cbn; naive_solver. Qed.

Lemma position_range s values n : position s values = Some n -> 0 <= n < zlen values.
Proof.
  revert n. induction values as [|v values IH]; intros n; cbn [position]; [done|]. rewrite zlen_cons.
  pose proof (zlen_nonneg values). destruct (v ==? s); [intros [= <-]; lia|].
  intros (m & Hm%IH & ->)%fmap_Some. lia.
Qed.

Lemma level_range values v n : level values v = Some n -> 0 <= n < zlen values.
Proof. unfold level. intros (s & _ & Hs)%bind_Some. by apply position_range in Hs. Qed.

(** *** Data handling *)

(** How long a payload is kept, where that is said. *)
Definition kept_for (declaration : json) : option Z :=
  if opt_str_is (get_str declaration "task_payload") "none" then Some 0 else get_u64 declaration "max_seconds".
Definition retention_met (requirement declaration : json) : Prop :=
  let mode v := get_str v "task_payload" in
  (mode requirement = Some "none" -> mode declaration = Some "none") /\
  (mode requirement = Some "transient" ->
     (mode declaration = Some "none" \/ mode declaration = Some "transient") /\
     forall longest, get_u64 requirement "max_seconds" = Some longest -> exists declared, kept_for declaration = Some declared /\ declared <= longest).

(** The declaration and the context give what the requirement asks for. *)
Definition meets (requirement declaration context : json) : Prop :=
  let holds v k := get_bool v k = Some true in
  (forall f, f ∈ string_array (jget requirement "critical_requirements") -> f ∈ KNOWN_REQUIREMENTS) /\
  get_str requirement "remote_routing" <> Some "local_only" /\
  default empty_str (get_str requirement "data_class") ∈ string_array (jget declaration "accepted_data_classes") /\
  (get_str requirement "remote_routing" = Some "requires_approval" -> holds context "approval_granted") /\
  (string_array (jget requirement "allowed_regions") <> [] ->
     default empty_str (get_str declaration "jurisdiction") ∈ string_array (jget requirement "allowed_regions")) /\
  retention_met (jidx requirement "retention") (jidx declaration "retention") /\
  (get_str requirement "training_use" = Some "none" -> get_str declaration "training_use" = Some "none") /\
  (get_str requirement "subprocessors" = Some "none" -> get_str declaration "subprocessors" = Some "none") /\
  (forall v, jget requirement "approval" = Some v -> exists least given,
     level APPROVALS (Some v) = Some least /\ level APPROVALS (jget declaration "approval") = Some given /\ least <= given) /\
  (forall v, jget requirement "tool_risk" = Some v -> exists most given,
     level RISKS (Some v) = Some most /\ level RISKS (jget declaration "tool_risk") = Some given /\ given <= most) /\
  (holds requirement "requires_encryption" -> holds context "encryption_ready") /\
  (holds requirement "requires_receipt" -> holds context "receipt_supported") /\
  (holds requirement "requires_human_review" -> holds declaration "requires_human_review").

Lemma says_then v k s v' k' s' :
  opt_str_is (get_str v k) s && negb (opt_str_is (get_str v' k') s') = false <-> (get_str v k = Some s -> get_str v' k' = Some s').
Proof. by rewrite not_and, !opt_str_is_true. Qed.
Lemma holds_then v k v' k' :
  opt_bool_is (get_bool v k) true && negb (opt_bool_is (get_bool v' k') true) = false <->
  (get_bool v k = Some true -> get_bool v' k' = Some true).
Proof. by rewrite not_and, !opt_bool_is_true. Qed.
Lemma rank_ordered values a b low high :
  low < 0 -> zlen values <= high ->
  (rank a values low <? rank b values high) = false <-> exists m n, level values a = Some m /\ level values b = Some n /\ n <= m.
Proof.
  intros Hl Hh. unfold rank. destruct (level values a) as [m|] eqn:Ea, (level values b) as [n|] eqn:Eb; cbn [from_option]; unfold id;
    try apply level_range in Ea as Ra; try apply level_range in Eb as Rb; rewrite Z.ltb_ge; pose proof (zlen_nonneg values).
  all: split; [intros Hle; try (exfalso; lia); by exists m, n|intros (m' & n' & ? & ? & ?); simplify_eq; lia].
Qed.
Lemma if_given (o : option json) (b : bool) (P : json -> Prop) :
  (forall v, o = Some v -> b = false <-> P v) -> is_some o && b = false <-> (forall v, o = Some v -> P v).
Proof. intros H. destruct o as [v|]; cbn; [rewrite (H v eq_refl)|]; naive_solver. Qed.

Lemma retention_violated_spec requirement declaration :
  retention_violated (get_str requirement "task_payload") (get_str declaration "task_payload") requirement declaration = false <->
  retention_met requirement declaration.
Proof.
  unfold retention_violated, retention_met. fold (kept_for declaration). rewrite <- !(opt_str_is_true (get_str _ "task_payload")).
  set (rn := opt_str_is (get_str requirement _) "none"). set (rt := opt_str_is (get_str requirement _) "transient").
  set (dn := opt_str_is (get_str declaration _) "none"). set (dt := opt_str_is (get_str declaration _) "transient").
  assert (rn = true -> rt = false) as Hex.
  { unfold rn, rt. rewrite opt_str_is_true. by intros ->. }
  destruct rn; cbn [andb]; [rewrite (Hex eq_refl); destruct dn; cbn; naive_solver|]. clear Hex.
  destruct rt; [|naive_solver]. destruct (dn || dt) eqn:Ed; cbn [negb]; apply orb_true_iff in Ed || apply orb_false_iff in Ed as [-> ->];
    [|naive_solver].
  destruct (get_u64 requirement "max_seconds") as [most|]; [|naive_solver].
  destruct (kept_for declaration) as [d|]; rewrite ?Z.ltb_ge; naive_solver.
Qed.

Lemma and_congr (A A' B B' : Prop) : (A <-> A') -> (B <-> B') -> A /\ B <-> A' /\ B'.
Proof. tauto. Qed.
Lemma unknown_met known l : existsb (fun f => negb (str_in f known)) l = false <-> (forall f, f ∈ l -> f ∈ known).
Proof.
  induction l as [|f l IH]; cbn [existsb]; [split; [by intros _ f ?%elem_of_nil|done]|].
  rewrite orb_false_iff, IH, negb_false_iff, str_in_elem. setoid_rewrite elem_of_cons. naive_solver.
Qed.
Lemma region_met region l :
  match l with [] => false | _ => negb (str_in region l) end = false <-> (l <> [] -> region ∈ l).
Proof. destruct l as [|r l]; [by split|]. rewrite negb_false_iff, str_in_elem. naive_solver. Qed.

(** C40: a provider's declaration is accepted exactly if it meets the consumer's
    data-handling requirement: every critical requirement is understood, the data
    class is accepted, the region allowed, payloads are kept no longer than
    required, approval is at least and tool risk at most at the required level,
    and what the requirement insists on — approval, encryption, receipts, human
    review, no training, no subprocessors — is given. *)
Theorem data_handling_exact requirement declaration context :
  let d := evaluate_policy_data_handling requirement declaration context in
  (pd_eligible d = true <-> meets requirement declaration context) /\
  (pd_reason d = "compatible" <-> pd_eligible d = true).
Proof.
  cbv zeta. split.
  - unfold evaluate_policy_data_handling. rewrite first_failing_eligible, !Forall_cons. unfold meets. cbn [fst].
    rewrite !says_then, !holds_then.
    repeat apply and_congr; try reflexivity.
    + apply unknown_met.
    + by rewrite <- not_true_iff_false, opt_str_is_true.
    + by rewrite negb_false_iff, str_in_elem.
    + by rewrite not_and, opt_str_is_true, opt_bool_is_true.
    + apply region_met.
    + apply retention_violated_spec.
    + apply if_given. intros v ->. rewrite rank_ordered by (done || by vm_compute). naive_solver.
    + apply if_given. intros v ->. rewrite rank_ordered by (done || by vm_compute). naive_solver.
    + split; [by intros [? _]|]. by split.
  - unfold evaluate_policy_data_handling. apply first_failing_compatible. repeat constructor; done.
Qed.

(** *** Operational evidence *)

Section evidence_exact.
Context (parse_datetime : string -> option Z).

(** Verified and current evidence of a kind. *)
Definition evidenced (now : Z) (evidence : list json) (kind : string) : Prop :=
  exists item expires text, item ∈ evidence /\ get_str item "type" = Some kind /\ get_bool item "verified" = Some true /\
    get_str item "expires_at" = Some text /\ parse_datetime text = Some expires /\ now < expires.

Lemma check_evidence_spec now evidence required :
  pd_eligible (check_evidence parse_datetime now evidence required) = true <->
  (forall kind, kind ∈ required -> evidenced now evidence kind).
Proof.
  induction required as [|kind required IH]; cbn [check_evidence]; [split; [by intros _ kind ?%elem_of_nil|done]|].
  set (matches := filter _ evidence). set (verified := filter _ matches).
  assert (existsb (is_current parse_datetime now) verified = true <-> evidenced now evidence kind) as Hcur.
  { rewrite existsb_exists. unfold evidenced, is_current. split.
    - intros (item & Hin & Hc). apply list_elem_of_In in Hin. unfold verified, matches in Hin.
      apply list_elem_of_filter in Hin as [Hv%opt_bool_is_true Hin]. apply list_elem_of_filter in Hin as [Ht%opt_str_is_true Hin].
      destruct (get_str item "expires_at") as [text|] eqn:E1; [|done]. cbn in Hc. destruct (parse_datetime text) as [t|] eqn:E2; [|done].
      cbn in Hc. apply Z.ltb_lt in Hc. by exists item, t, text.
    - intros (item & t & text & Hin & Ht & Hv & He & Hp & Hl). exists item. split.
      + apply list_elem_of_In. unfold verified, matches. rewrite !list_elem_of_filter, opt_bool_is_true, opt_str_is_true. done.
      + rewrite He. cbn. rewrite Hp. by apply Z.ltb_lt. }
  assert (forall l, existsb (is_current parse_datetime now) l = true -> l <> []) as Hne by by intros [].
  assert (verified <> [] -> matches <> []) as Hm by (intros Hv Hm; apply Hv; unfold verified; by rewrite Hm).
  setoid_rewrite elem_of_cons. destruct matches as [|m ms] eqn:Em; [|destruct verified as [|v vs] eqn:Ev].
  - split; [done|]. intros H. specialize (H kind (or_introl eq_refl)). apply Hcur, Hne in H. by apply Hm in H.
  - split; [done|]. intros H. specialize (H kind (or_introl eq_refl)). by apply Hcur in H.
  - destruct (existsb _ _) eqn:Ee.
    + rewrite IH. naive_solver.
    + split; [done|]. intros H. specialize (H kind (or_introl eq_refl)). apply Hcur in H. congruence.
Qed.

Lemma operational_evidence_exact requirement context evaluated_at :
  pd_eligible <$> evaluate_policy_operational_evidence parse_datetime requirement context evaluated_at = Some true <->
  exists now, parse_datetime evaluated_at = Some now /\
    same_value (jget requirement "manifest_sha256") (jget context "manifest_sha256") = true /\
    forall kind, kind ∈ string_array (jget requirement "required_evidence") ->
      kind ∈ KNOWN_EVIDENCE /\ evidenced now (default [] (jget context "evidence" ≫= as_array)) kind.
Proof.
  unfold evaluate_policy_operational_evidence. set (required := string_array _).
  destruct (existsb _ required) eqn:Eu.
  { split; [done|]. intros (now & _ & _ & Hk). assert (existsb (fun kind => negb (str_in kind KNOWN_EVIDENCE)) required = false) as Hu; [|congruence].
    apply unknown_met. intros kind Hin. by apply Hk. }
  pose proof (proj1 (unknown_met KNOWN_EVIDENCE required) Eu) as Hu. destruct (same_value _ _); cbn [negb]; [|split; [done|naive_solver]].
  destruct (parse_datetime evaluated_at) as [now|]; cbn; [|split; [done|naive_solver]].
  rewrite (inj_iff Some), check_evidence_spec. split; [|naive_solver].
  intros H. exists now. do 2 (split; [done|]). intros kind Hk. split; [by apply Hu|by apply H].
Qed.
End evidence_exact.

(** *** Disclosure *)

(** The consumer's token and ticket are valid and bound, and disclosure is allowed. *)
Definition disclosable (context : json) (digest : string) : Prop :=
  exists provider intent,
    as_str (jidx context "consumer_auth") = Some "valid" /\
    (as_str (jidx context "dispatch_ticket") = Some "valid" \/ as_str (jidx context "dispatch_ticket") = None) /\
    as_bool (jidx context "disclosure_allowed") = Some true /\
    provider <> empty_str /\ intent <> empty_str /\ digest <> empty_str /\
    (forall k, k ∈ ["provider_node_id"; "consumer_target_node_id"; "ticket_target_node_id"] -> as_str (jidx context k) = Some provider) /\
    (forall k, k ∈ ["consumer_intent"; "ticket_intent"] -> as_str (jidx context k) = Some intent) /\
    (forall k, k ∈ ["manifest_sha256"; "ticket_manifest_sha256"] -> as_str (jidx context k) = Some digest).

Lemma present_bound context k others s :
  present_str context k = Some s -> bound_by (present_str context k) others = true ->
  s <> empty_str /\ as_str (jidx context k) = Some s /\ Forall (fun v => as_str v = Some s) others.
Proof.
  unfold present_str, bound_by. intros Hs Hb. rewrite Hs in Hb. apply bind_Some in Hs as (t & Ht & Hs).
  destruct (str_is_empty t) eqn:Ee; [done|]. injection Hs as ->. split; [intros ->; done|]. split; [done|].
  cbn in Hb. apply Forall_forall. intros v Hv. rewrite forallb_forall in Hb. symmetry. eapply bool_decide_eq_true. apply Hb. by apply list_elem_of_In.
Qed.
Lemma bound_present context k others s :
  s <> empty_str -> as_str (jidx context k) = Some s -> Forall (fun v => as_str v = Some s) others ->
  present_str context k = Some s /\ bound_by (present_str context k) others = true.
Proof.
  intros Hs Hk Ho. assert (present_str context k = Some s) as E.
  { unfold present_str. rewrite Hk. cbn. destruct (str_is_empty s) eqn:E; [|done]. by apply String.eqb_eq in E. }
  split; [done|]. unfold bound_by. rewrite E. cbn. apply forallb_forall. intros v Hv. apply bool_decide_eq_true.
  symmetry. rewrite Forall_forall in Ho. apply Ho. by apply list_elem_of_In.
Qed.

Lemma evaluate_disclosable context digest :
  disclosable context digest ->
  evaluate_policy_detail_disclosure context =
  mkDisclosure 200 "compatible"
    (Some (mk_obj [("profile", JString "urn:iicp:profile:policy-detail-disclosure:v0"); ("manifest_sha256", JString digest);
                   ("details", mk_obj (allowed_details (as_object (jidx context "details"))));
                   ("claim_status", JString "provider_declared")])).
Proof.
  intros (provider & intent & Ha & Ht & Hd & Hp & Hi & Hg & H1 & H2 & H3). unfold evaluate_policy_detail_disclosure.
  destruct (bound_present context "provider_node_id" [jidx context "consumer_target_node_id"; jidx context "ticket_target_node_id"] provider)
    as [_ B1]; [done|apply H1; set_solver|repeat constructor; apply H1; set_solver|].
  destruct (bound_present context "consumer_intent" [jidx context "ticket_intent"] intent) as [_ B2];
    [done|apply H2; set_solver|repeat constructor; apply H2; set_solver|].
  destruct (bound_present context "manifest_sha256" [jidx context "ticket_manifest_sha256"] digest) as [P3 B3];
    [done|apply H3; set_solver|repeat constructor; apply H3; set_solver|].
  rewrite Ha, Hd, B1, B2, B3, P3. by destruct Ht as [-> | ->].
Qed.
Lemma disclosed_disclosable context :
  ds_status (evaluate_policy_detail_disclosure context) = 200 -> exists digest, disclosable context digest.
Proof.
  unfold evaluate_policy_detail_disclosure.
  destruct (opt_str_is _ "missing"); [done|]. destruct (opt_str_is (as_str (jidx context "consumer_auth")) "valid") eqn:Ea; cbn [orb].
  2: { destruct (opt_str_is (as_str (jidx context "consumer_auth")) "expired"); [done|]. by destruct (opt_str_is _ "revoked"). }
  apply opt_str_is_true in Ea. rewrite Ea. cbn [negb].
  change (opt_str_is (Some "valid") "expired") with false. change (opt_str_is (Some "valid") "revoked") with false. cbv iota.
  destruct (opt_str_is (as_str (jidx context "dispatch_ticket")) "expired"); [done|].
  destruct (opt_str_is (as_str (jidx context "dispatch_ticket")) "revoked"); [done|].
  destruct (opt_str_is _ "valid" || _) eqn:Et; cbn [negb]; [|done].
  destruct (opt_bool_is _ true) eqn:Ed; cbn [negb]; [|done]. apply opt_bool_is_true in Ed.
  destruct (_ && _) eqn:Eb; cbn [negb]; [|done]. intros _. apply andb_true_iff in Eb as [[B1 B2]%andb_true_iff B3].
  assert (forall o l, bound_by o l = true -> exists s, o = Some s) as Hsome by (intros [s|] l Hx; [by exists s|done]).
  destruct (Hsome _ _ B1) as [provider P1], (Hsome _ _ B2) as [intent P2], (Hsome _ _ B3) as [digest P3].
  destruct (present_bound _ _ _ _ P1 B1) as (? & ? & O1), (present_bound _ _ _ _ P2 B2) as (? & ? & O2),
    (present_bound _ _ _ _ P3 B3) as (? & ? & O3).
  exists digest, provider, intent. split; [done|]. split.
  { apply orb_true_iff in Et as [?%opt_str_is_true|Et]; [by left|right]. by destruct (as_str (jidx context "dispatch_ticket")). }
  do 4 (split; [done|]). split_and!; intros k; rewrite ?elem_of_cons, elem_of_nil.
  - rewrite !Forall_cons in O1. intros [-> | [-> | [-> | []]]]; naive_solver.
  - rewrite Forall_cons in O2. intros [-> | [-> | []]]; naive_solver.
  - rewrite Forall_cons in O3. intros [-> | [-> | []]]; naive_solver.
Qed.
Lemma allowed_only source k :
  jget (mk_obj (allowed_details (as_object source))) k = if str_in k ALLOWED_DETAIL_FIELDS then jget source k else None.
Proof.
  unfold jget, mk_obj, allowed_details, ALLOWED_DETAIL_FIELDS, str_in. cbn [as_object mbind option_bind].
  destruct (as_object source) as [m|]; cbn [mbind option_bind]; [|by case_match].
  cbn [existsb list_bind].
  destruct (String.eqb_spec k "retention_intervals") as [->|N1]; [|destruct (String.eqb_spec k "subprocessor_references") as [->|N2];
    [|destruct (String.eqb_spec k "approval_evidence_references") as [->|N3];
    [|destruct (String.eqb_spec k "operational_evidence_references") as [->|N4]]]]; cbn [orb].
  all: destruct (obj_get m "retention_intervals"), (obj_get m "subprocessor_references"), (obj_get m "approval_evidence_references"),
         (obj_get m "operational_evidence_references"); try reflexivity.
  all: unfold obj_of_list; cbn [foldl app fst snd]; rewrite ?obj_get_insert; repeat case_match; try done.
  all: match goal with H : (_ ==? _) = true |- _ => apply String.eqb_eq in H; congruence end.
Qed.

(** Policy details are disclosed exactly to a consumer whose token is valid,
    whose ticket — if there is one — is valid, who may see them, and whose token
    and ticket name this provider, this intent and this manifest; what is
    disclosed is then the manifest's digest and of the details only the four
    fields that may leave, as they are.  Otherwise nothing is disclosed. *)
Theorem policy_detail_exact context :
  let d := evaluate_policy_detail_disclosure context in
  (ds_status d = 200 <-> exists digest, disclosable context digest) /\
  (forall body, ds_body d = Some body ->
     exists digest details, disclosable context digest /\ get_str body "manifest_sha256" = Some digest /\
       jget body "details" = Some details /\
       forall k, jget details k = if str_in k ALLOWED_DETAIL_FIELDS then jget (jidx context "details") k else None).
Proof.
  cbv zeta. split.
  - split; [apply disclosed_disclosable|]. intros (digest & Hd). by rewrite (evaluate_disclosable _ _ Hd).
  - intros body Hb. assert (ds_status (evaluate_policy_detail_disclosure context) = 200) as (digest & Hd)%disclosed_disclosable.
    { unfold evaluate_policy_detail_disclosure, disclosure in *. repeat (case_match; try done). }
    rewrite (evaluate_disclosable _ _ Hd) in Hb. injection Hb as <-. exists digest. eexists. split; [done|].
    split; [reflexivity|]. split; [reflexivity|]. intros k. apply allowed_only.
Qed.

(** *** The consumer's token *)

Section token_exact.
Context (hex_decode : string -> option (list byte)) (ed_key_valid : list byte -> bool)
  (ed25519_verify : list byte -> list byte -> list byte -> bool)
  (b64url_decode : string -> option (list byte)) (parse_claims : list byte -> option json).

(** [token] is signed by [key] for this provider and intent. *)
Definition signed_for (token public_key_hex target_node_id intent : string) (claims : json) : Prop :=
  exists payload signature_hex key signature bytes,
    split_once "." token = Some (payload, signature_hex) /\ str_len signature_hex = 128 /\
    hex_decode public_key_hex = Some key /\ length key = 32%nat /\ ed_key_valid key = true /\
    hex_decode signature_hex = Some signature /\ length signature = 64%nat /\
    ed25519_verify key (CONSUMER_TOKEN_DOMAIN ++ str_bytes payload) signature = true /\
    b64url_decode payload = Some bytes /\ parse_claims bytes = Some claims /\
    get_i64 claims "v" = Some 1 /\ get_str claims "aud" = Some target_node_id /\ get_str claims "intent" = Some intent /\
    is_Some (get_str claims "sub").

Lemma hex_array_spec n s l : hex_array hex_decode n s = Some l <-> hex_decode s = Some l /\ length l = n.
Proof.
  unfold hex_array. destruct (hex_decode s) as [k|]; cbn; [|split; [done|naive_solver]].
  destruct (Nat.eqb_spec (length k) n); naive_solver.
Qed.
Lemma idx_get {X} (f : json -> option X) v k : f JNull = None -> f (jidx v k) = (jget v k ≫= f).
Proof. intros Hf. unfold jidx. by destruct (jget v k). Qed.
Lemma claims_bound_spec claims target intent :
  claims_bound claims target intent = true <->
  get_i64 claims "v" = Some 1 /\ get_str claims "aud" = Some target /\ get_str claims "intent" = Some intent /\
  is_Some (get_str claims "sub").
Proof.
  unfold claims_bound, jis_str. rewrite !andb_true_iff, bool_decide_eq_true, !opt_str_is_true, !idx_get by done.
  fold (get_str claims "aud") (get_str claims "intent") (get_str claims "sub") (get_i64 claims "v").
  destruct (get_str claims "sub") as [s|]; cbn; [|split; [naive_solver|by intros (_ & _ & _ & ?%is_Some_None)]].
  split; [intros [[[? ?] ?] _]; split_and!; by eauto|naive_solver].
Qed.

Ltac no_token := split; [done|]; intros (? & ? & ? & ? & ? & ?); destruct_and!; simplify_eq; congruence.

Lemma policy_token_exact token public_key_hex target_node_id intent now_s claims :
  verify_policy_detail_consumer_token hex_decode ed_key_valid ed25519_verify b64url_decode parse_claims
    token public_key_hex target_node_id intent now_s = mkVerification "valid" (Some claims) <->
  signed_for token public_key_hex target_node_id intent claims /\ exists exp, get_i64 claims "exp" = Some exp /\ now_s < exp.
Proof.
  unfold verify_policy_detail_consumer_token. set (found := (let! (payload, signature_hex) := split_once "." token in _)).
  assert (found = Some claims <-> signed_for token public_key_hex target_node_id intent claims) as Hf.
  { unfold found, signed_for. destruct (split_once "." token) as [[p s]|]; cbn [mbind option_bind]; [|no_token].
    destruct (Z.eqb_spec (str_len s) 128) as [Hl|Hl]; cbn [negb]; [|no_token].
    destruct (hex_array hex_decode 32 public_key_hex) as [key|] eqn:Ek; cbn [mbind option_bind].
    2: { split; [done|]. intros (? & ? & key & ? & ? & [= <- <-] & _ & Hk & Hn & _).
         assert (hex_array hex_decode 32 public_key_hex = Some key); [by apply hex_array_spec|congruence]. }
    apply hex_array_spec in Ek as [Ek Nk]. destruct (ed_key_valid key) eqn:Ev; cbn [negb]; [|no_token].
    destruct (hex_array hex_decode 64 s) as [sig|] eqn:Es; cbn [mbind option_bind].
    2: { split; [done|]. intros (? & ? & ? & sig & ? & [= <- <-] & _ & _ & _ & _ & Hs & Hn & _).
         assert (hex_array hex_decode 64 s = Some sig); [by apply hex_array_spec|congruence]. }
    apply hex_array_spec in Es as [Es Ns]. destruct (ed25519_verify _ _ _) eqn:Evf; cbn [negb]; [|no_token].
    destruct (b64url_decode p) as [bytes|] eqn:Eb; cbn [mbind option_bind]; [|no_token].
    destruct (parse_claims bytes) as [c|] eqn:Ec; cbn [mbind option_bind]; [|no_token].
    destruct (claims_bound c target_node_id intent) eqn:Ecb.
    - apply claims_bound_spec in Ecb. split; [intros [= <-]; exists p, s, key, sig, bytes; tauto|].
      intros (? & ? & ? & ? & ? & ?); destruct_and!; simplify_eq; congruence.
    - split; [done|]. intros (? & ? & ? & ? & ? & ? & ? & ? & ? & ? & ? & ? & ? & ? & ? & Hc). simplify_eq.
      apply claims_bound_spec in Hc. congruence. }
  destruct found as [c|].
  - rewrite (idx_get as_i64) by done. fold (get_i64 c "exp"). split.
    + destruct (get_i64 c "exp") as [e|] eqn:Ee; cbn; [|done]. destruct (Z.leb_spec e now_s); [done|]. intros [= <-].
      split; [by apply Hf|]. by exists e.
    + intros [[= ->]%Hf (e & He & Hl)]. rewrite He. cbn. by rewrite (proj2 (Z.leb_gt _ _) Hl).
  - split; [done|]. by intros [?%Hf _].
Qed.
End token_exact.
