(* ===== verification/Recovery.v ===== *)
(** * Recovery of a provider node and its local health
    ([src/recovery.rs], [src/runtime_health.rs])

    The rules by which a serving node decides to re-register, to wait or to
    restart, the directory's view of its route, and the health record that the
    process publishes about itself. *)

From S2P Require Import Prelude Program Text Chars Json HttpResource ClientTypes ClientEffects.

(** ** [recovery.rs] *)

Definition RECOVERY_EXIT_CODE : Z := 76.
Definition DEFAULT_RECOVERY_GRACE_CHECKS : Z := 3.
Definition DEFAULT_RECOVERY_CHECK_EVERY_HEARTBEATS : Z := 2.

Inductive RecoveryState :=
| Healthy | LocalUnhealthy | BackendAttentionState | RouteMismatch | TunnelCoolingDown | DirectoryAbsent
| LimitedReach | RestartRecommended | UnknownState.
Inductive RecoveryAction :=
| NoAction | Reregister | WaitCooldown | MarkUnavailable | RestartSelf | OperatorEndpointNeeded | BackendAttention.
Inductive DirectoryPresence := Present | Absent | Unknown.
Record RegistryRouteStatus := mkRouteStatus { presence : DirectoryPresence; route_needs_promotion : bool }.
Global Instance recovery_action_eq_dec : EqDecision RecoveryAction.
Proof. solve_decision. Defined.
Global Instance presence_eq_dec : EqDecision DirectoryPresence.
Proof. solve_decision. Defined.

Definition effective_public_route_available (runtime_available route_needs_promotion relay_bound : bool) : bool :=
  runtime_available && (relay_bound || negb route_needs_promotion).

(** Of the bytes of the text: a character that is not ASCII fails at each of
    its bytes, as the character itself does. *)
Definition uuid_char (idx : nat) (c : Ascii.ascii) : bool :=
  if bool_decide (idx ∈ [8; 13; 18; 23]%nat) then Ascii.eqb c "-"%char else is_ascii_hexdigit c.
Definition node_registry_prefix (node_id : string) : string :=
  if (str_len node_id =? 36) && forallb (fun ic => uuid_char ic.1 ic.2) (imap pair (String.list_ascii_of_string node_id))
  then str_take 8 node_id else node_id.

Definition positive_env (env : string -> option string) (limit : Z) (name : string) (fallback : Z) : Z :=
  match env name ≫= parse_uint limit with Some v => if 0 <? v then v else fallback | None => fallback end.
Definition env_grace_checks (env : string -> option string) : Z :=
  positive_env env u32_max "IICP_RECOVERY_GRACE_CHECKS" DEFAULT_RECOVERY_GRACE_CHECKS.
Definition env_check_every_heartbeats (env : string -> option string) : Z :=
  positive_env env u64_max "IICP_RECOVERY_CHECK_EVERY_HEARTBEATS" DEFAULT_RECOVERY_CHECK_EVERY_HEARTBEATS.
Definition supervised_recovery_enabled (env : string -> option string) : bool :=
  is_some_and (env "IICP_SUPERVISED") (fun v => str_in (to_ascii_lowercase v) ["1"; "true"; "yes"])
  && negb (is_some_and (env "IICP_RECOVERY_SUPERVISED_EXIT")
             (fun v => str_in (to_ascii_lowercase v) ["0"; "false"; "no"; "off"])).

Definition classify (local_health_ok public_available : bool) (directory_presence : DirectoryPresence)
    (consecutive_failures grace_checks : Z) (backend_attention : bool) : RecoveryState * RecoveryAction :=
  if negb local_health_ok then (LocalUnhealthy, RestartSelf)
  else if backend_attention then (BackendAttentionState, BackendAttention)
  else if negb public_available then
    if grace_checks <=? consecutive_failures then (RestartRecommended, RestartSelf) else (LimitedReach, WaitCooldown)
  else
    match directory_presence with
    | Present => (Healthy, NoAction)
    | Absent => if grace_checks <=? consecutive_failures then (RouteMismatch, RestartSelf) else (DirectoryAbsent, Reregister)
    | Unknown => (UnknownState, NoAction)
    end.

Definition route_needs_promotion_from_registry_json (data : json) : bool :=
  let node := default data (jget data "node") in
  let summary := default JNull (jget node "status_summary") in
  if opt_str_is (get_str summary "state") "direct_unverified" then true
  else
    let route_evidence := option_or (get_str node "route_evidence") (get_str summary "evidence_source") in
    let routing_hint := option_or (get_str node "routing_hint") (get_str summary "routing_hint") in
    let browser_usable := option_or (get_bool node "browser_usable") (get_bool summary "browser_usable") in
    opt_str_is routing_hint "http_ipv6" && negb (opt_str_is route_evidence "directory_observed")
    && negb (default false browser_usable).

Definition registry_request (directory_url node_id : string) : http_request :=
  mkRequestOut "GET" (trim_end_char "/" directory_url +:+ "/v1/registry/nodes/" +:+ node_registry_prefix node_id)
    None [] None true None.

Definition registry_presence_of (r : result http_response bool) : DirectoryPresence :=
  match r with
  | Ok resp => if is_success (rs_status resp) then Present else if rs_status resp =? 404 then Absent else Unknown
  | Err _ => Unknown
  end.
Definition registry_node_presence (directory_url node_id : string) : prog answer DirectoryPresence :=
  perform r := Send (registry_request directory_url node_id) in
  Ret (registry_presence_of r).

Definition registry_route_status_of `{SerdeOps} (r : result http_response bool) : RegistryRouteStatus :=
  match r with
  | Ok resp =>
      if is_success (rs_status resp) then
        mkRouteStatus Present
          (match response_json resp with Ok data => route_needs_promotion_from_registry_json data | Err _ => false end)
      else if rs_status resp =? 404 then mkRouteStatus Absent false
      else mkRouteStatus Unknown false
  | Err _ => mkRouteStatus Unknown false
  end.
Definition registry_route_status `{SerdeOps} (directory_url node_id : string) : prog answer RegistryRouteStatus :=
  perform r := Send (registry_request directory_url node_id) in
  Ret (registry_route_status_of r).

(** ** The decision table *)

(** The route of the node is of no use: it is unavailable, or the directory
    does not list it. *)
Definition route_lost (public_available : bool) (p : DirectoryPresence) : Prop :=
  public_available = false \/ p = Absent.

Lemma classify_spec public p failures grace backend :
  ((classify true public p failures grace backend).2 = RestartSelf <->
     backend = false /\ grace <= failures /\ route_lost public p) /\
  ((classify true public p failures grace backend).2 = Reregister <->
     backend = false /\ failures < grace /\ public = true /\ p = Absent) /\
  ((classify true public p failures grace backend).1 = Healthy <-> backend = false /\ public = true /\ p = Present).
Proof.
  unfold classify, route_lost. simpl. destruct backend; simpl; [naive_solver|].
  destruct (Z.leb_spec grace failures), public, p; simpl; split_and!; split; intros Hx; try done; naive_solver lia.
Qed.

(** A node with a bound relay is never taken for one without a route as long as
    its runtime gate is open. *)
Lemma bound_relay_routes needs : effective_public_route_available true needs true = true.
Proof. done. Qed.

(** ** [runtime_health.rs]

    Times are nanoseconds of the monotonic clock; a counter is a [u64]. *)

Module Health.

Definition HEALTH_SCHEMA_VERSION : Z := 1.
Definition RUNTIME_STALE_AFTER : Z := 30 * 1000000000.
Definition SUPERVISOR_STALE_AFTER : Z := 120 * 1000000000.

Inductive Lifecycle := Starting | Running | Stopping.
Inductive Liveness := LStarting | Live | NotLive | Indeterminate.
Inductive Readiness := Ready | Degraded | NotReady.
Inductive SubsystemState := SHealthy | SDegraded | Recovering | Unavailable | NotApplicable | SUnknown.
Inductive ReasonCode :=
| RStarting | RStopping | RuntimeProgressStale | SupervisorProgressStale | ProviderUnavailable | NoCapacity
| RoutingUnavailable | TunnelRecovering | DirectoryUnavailable | DnsUnavailable | InternetUnavailable | StateUnknown.
Global Instance lifecycle_eq_dec : EqDecision Lifecycle.
Proof. solve_decision. Defined.
Global Instance subsystem_eq_dec : EqDecision SubsystemState.
Proof. solve_decision. Defined.
Global Instance reason_eq_dec : EqDecision ReasonCode.
Proof. solve_decision. Defined.

Record ProgressSnapshot := mkProgress { pg_sequence : Z; age_ms : Z; stale_after_ms : Z; required : bool }.
Record ProgressSet := mkProgressSet { ps_runtime : ProgressSnapshot; ps_supervisor : ProgressSnapshot }.

Record ClassificationInput := mkInput {
  lifecycle : Lifecycle;
  runtime_age_ms : Z;
  runtime_stale_after_ms : Z;
  supervisor_required : bool;
  supervisor_age_ms : Z;
  supervisor_stale_after_ms : Z;
  provider : SubsystemState;
  capacity_available : bool;
  routing : SubsystemState;
  directory : SubsystemState;
  dns : SubsystemState;
  internet : SubsystemState;
  tunnel : SubsystemState
}.
Record ClassificationOutput := mkOutput { liveness : Liveness; readiness : Readiness; reason_codes : list ReasonCode }.
Record HealthSnapshot := mkSnapshot {
  hs_schema_version : Z;
  hs_process_epoch : string;
  hs_pid : Z;
  hs_sequence : Z;
  hs_emitted_at : string;
  hs_lifecycle : Lifecycle;
  hs_result : ClassificationOutput;
  hs_progress : ProgressSet;
  hs_subsystems : gmap string SubsystemState;
  hs_external : gmap string SubsystemState
}.

Definition reason_if (b : bool) (r : ReasonCode) : list ReasonCode := if b then [r] else [].
Definition is_state (s t : SubsystemState) : bool := bool_decide (s = t).
Definition blocking (r : ReasonCode) : bool :=
  match r with ProviderUnavailable | NoCapacity | RoutingUnavailable => true | _ => false end.

Definition classify_input (i : ClassificationInput) : ClassificationOutput :=
  if bool_decide (lifecycle i = Starting) then mkOutput LStarting NotReady [RStarting]
  else if runtime_stale_after_ms i <? runtime_age_ms i then mkOutput NotLive NotReady [RuntimeProgressStale]
  else if supervisor_required i && (supervisor_stale_after_ms i <? supervisor_age_ms i)
  then mkOutput NotLive NotReady [SupervisorProgressStale]
  else if bool_decide (lifecycle i = Stopping) then mkOutput Live NotReady [RStopping]
  else
    let reasons :=
      reason_if (is_state (provider i) Unavailable) ProviderUnavailable
      ++ reason_if (negb (capacity_available i)) NoCapacity
      ++ reason_if (is_state (routing i) Unavailable) RoutingUnavailable
      ++ reason_if (is_state (tunnel i) Recovering) TunnelRecovering
      ++ reason_if (is_state (directory i) Unavailable) DirectoryUnavailable
      ++ reason_if (is_state (dns i) Unavailable) DnsUnavailable
      ++ reason_if (is_state (internet i) Unavailable) InternetUnavailable in
    mkOutput Live
      (if existsb blocking reasons then NotReady else if bool_decide (reasons = []) then Ready else Degraded) reasons.

(** *** The record behind the mutex *)

Record State := mkState {
  st_lifecycle : Lifecycle;
  st_runtime_sequence : Z;
  st_supervisor_sequence : Z;
  st_last_runtime : Z;
  st_last_supervisor : Z;
  st_supervisor_required : bool;
  st_capacity_available : bool;
  st_subsystems : gmap string SubsystemState;
  st_external : gmap string SubsystemState;
  st_snapshot_sequence : Z
}.

Definition all_in (s : SubsystemState) (names : list string) : gmap string SubsystemState :=
  list_to_map ((fun n => (n, s)) <$> names).
Definition new (supervisor_required : bool) (now : Z) : State :=
  mkState Starting 0 0 now now supervisor_required false (all_in SUnknown ["provider"; "routing"; "tunnel"])
    (all_in SUnknown ["directory"; "dns"; "internet"]) 0.

Definition set_subsystems (s : State) (capacity : bool) (m : gmap string SubsystemState) : State :=
  mkState (st_lifecycle s) (st_runtime_sequence s) (st_supervisor_sequence s) (st_last_runtime s) (st_last_supervisor s)
    (st_supervisor_required s) capacity m (st_external s) (st_snapshot_sequence s).
Definition set_lifecycle (s : State) (l : Lifecycle) : State :=
  mkState l (st_runtime_sequence s) (st_supervisor_sequence s) (st_last_runtime s) (st_last_supervisor s)
    (st_supervisor_required s) (st_capacity_available s) (st_subsystems s) (st_external s) (st_snapshot_sequence s).
Definition set_progress (s : State) (rseq sseq runtime supervisor : Z) (required : bool) : State :=
  mkState (st_lifecycle s) rseq sseq runtime supervisor required (st_capacity_available s) (st_subsystems s)
    (st_external s) (st_snapshot_sequence s).

(** The operations; the clock is read while the lock is held. *)
Inductive op :=
| MarkRunning | MarkStopping | AdvanceRuntime | AdvanceSupervisor | SetSupervisorRequired (required : bool)
| SetSubsystem (name : string) (value : SubsystemState) | SetExternal (name : string) (value : SubsystemState).

Definition mark_running (s : State) : State :=
  set_subsystems (set_lifecycle s Running) true (<["routing" := SHealthy]> (<["provider" := SHealthy]> (st_subsystems s))).
Definition mark_stopping (s : State) : State := set_lifecycle s Stopping.
Definition advance_runtime (now : Z) (s : State) : State :=
  set_progress s (u64_add (st_runtime_sequence s) 1) (st_supervisor_sequence s) now (st_last_supervisor s) (st_supervisor_required s).
Definition advance_supervisor (now : Z) (s : State) : State :=
  set_progress s (st_runtime_sequence s) (u64_add (st_supervisor_sequence s) 1) (st_last_runtime s) now (st_supervisor_required s).
Definition set_supervisor_required (required : bool) (s : State) : State :=
  set_progress s (st_runtime_sequence s) (st_supervisor_sequence s) (st_last_runtime s) (st_last_supervisor s) required.
Definition set_subsystem (name : string) (value : SubsystemState) (s : State) : State :=
  set_subsystems s (st_capacity_available s) (<[name := value]> (st_subsystems s)).
Definition set_external (name : string) (value : SubsystemState) (s : State) : State :=
  mkState (st_lifecycle s) (st_runtime_sequence s) (st_supervisor_sequence s) (st_last_runtime s) (st_last_supervisor s)
    (st_supervisor_required s) (st_capacity_available s) (st_subsystems s) (<[name := value]> (st_external s))
    (st_snapshot_sequence s).

Definition apply (o : op) (now : Z) (s : State) : State :=
  match o with
  | MarkRunning => mark_running s
  | MarkStopping => mark_stopping s
  | AdvanceRuntime => advance_runtime now s
  | AdvanceSupervisor => advance_supervisor now s
  | SetSupervisorRequired r => set_supervisor_required r s
  | SetSubsystem n v => set_subsystem n v s
  | SetExternal n v => set_external n v s
  end.

(** [Duration::as_millis] as a [u64]; [duration_since] saturates at zero. *)
Definition ms (d : Z) : Z := Z.min (d / 1000000) u64_max.
Definition since (now t : Z) : Z := Z.max (now - t) 0.

Definition input_of (now : Z) (s : State) : ClassificationInput :=
  mkInput (st_lifecycle s) (ms (since now (st_last_runtime s))) (ms RUNTIME_STALE_AFTER) (st_supervisor_required s)
    (ms (since now (st_last_supervisor s))) (ms SUPERVISOR_STALE_AFTER)
    (default SUnknown (st_subsystems s !! "provider")) (st_capacity_available s)
    (default SUnknown (st_subsystems s !! "routing")) (default SUnknown (st_external s !! "directory"))
    (default SUnknown (st_external s !! "dns")) (default SUnknown (st_external s !! "internet"))
    (default SUnknown (st_subsystems s !! "tunnel")).
Definition snapshot (epoch : string) (pid : Z) (emitted_at : string) (now : Z) (s : State) : HealthSnapshot * State :=
  let seq := u64_add (st_snapshot_sequence s) 1 in
  let i := input_of now s in
  (mkSnapshot HEALTH_SCHEMA_VERSION epoch pid seq emitted_at (st_lifecycle s) (classify_input i)
     (mkProgressSet (mkProgress (st_runtime_sequence s) (runtime_age_ms i) (ms RUNTIME_STALE_AFTER) true)
                    (mkProgress (st_supervisor_sequence s) (supervisor_age_ms i) (ms SUPERVISOR_STALE_AFTER) (st_supervisor_required s)))
     (st_subsystems s) (st_external s),
   mkState (st_lifecycle s) (st_runtime_sequence s) (st_supervisor_sequence s) (st_last_runtime s) (st_last_supervisor s)
     (st_supervisor_required s) (st_capacity_available s) (st_subsystems s) (st_external s) seq).
End Health.
