(* ===== verification/Provider.v ===== *)
(** * Admission rules of a provider node

    Availability windows ([availability.rs]), service classes ([scheduler.rs]),
    duplicate detection ([idempotency.rs]), the per-origin rate limit of
    [node.rs] and the backend drain guard ([backend_stability.rs]).  Instants
    are nanoseconds. *)

From S2P Require Import Prelude Program Text Json HttpResource ClientTypes ClientEffects.

Definition SECOND : Z := 1000000000.
Definition MILLISECOND : Z := 1000000.

(** ** [scheduler.rs] *)

Definition QUEUE_WAIT : Z := 2 * SECOND.

Definition qos_priority (qos : string) : Z :=
  if qos ==? "realtime" then 0
  else if qos ==? "interactive" then 1
  else if qos ==? "batch" then 2
  else 3.

Definition is_queue_eligible (qos : string) : bool := str_in qos ["realtime"; "interactive"].

(** ** [availability.rs] *)

Record Window := mkWindow { w_start : string; w_end : string; share : f64 }.
Record AvailabilityEvaluator := mkAvailability { windows : list Window }.

(** [format!("{:02}:{:02}", hour, minute)] *)
Definition two_digits (n : Z) : string := str_of_codes [48 + n / 10; 48 + n mod 10].
Definition hhmm (hour minute : Z) : string := two_digits hour +:+ ":" +:+ two_digits minute.

Definition window_contains (w : Window) (current : string) : bool :=
  if str_leb (w_start w) (w_end w)
  then str_leb (w_start w) current && str_leb current (w_end w)
  else str_leb (w_start w) current || str_leb current (w_end w).

Fixpoint first_share (l : list Window) (current : string) : f64 :=
  match l with
  | [] => f64_lit 5 1
  | w :: l => if window_contains w current then share w else first_share l current
  end.
Definition share_at (ev : AvailabilityEvaluator) (current : string) : f64 :=
  match windows ev with [] => f64_of_Z 1 | l => first_share l current end.

(** [base_max as f64 * share] *)
Definition scaled (base_max : Z) (s : f64) : Z :=
  if f64_leb s (f64_of_Z 0) then 0 else Z.max 1 (f64_as_u64 (f64_mul (f64_of_Z base_max) s)).
Definition effective_at (ev : AvailabilityEvaluator) (base_max : Z) (current : string) : Z :=
  if base_max =? 0 then 0 else scaled base_max (share_at ev current).

Definition is_within_window (ev : AvailabilityEvaluator) (current : string) : bool :=
  match windows ev with [] => true | _ => f64_ltb (f64_of_Z 0) (share_at ev current) end.

(** ** [idempotency.rs] *)

Definition IDEMPOTENCY_TTL : Z := 300 * SECOND.
Record IdempotencyGuard := mkGuard { ttl : Z; seen : gmap string Z }.

Definition guard_new (ttl : Z) : IdempotencyGuard := mkGuard ttl ∅.
(** [now] was read before the lock was taken. *)
Definition check_and_register (g : IdempotencyGuard) (task_id : string) (now : Z) : bool * IdempotencyGuard :=
  if str_is_empty task_id then (true, g)
  else
    let kept := filter (fun e => now < e.2) (seen g) in
    match kept !! task_id with
    | Some _ => (false, mkGuard (ttl g) kept)
    | None => (true, mkGuard (ttl g) (<[task_id := now + ttl g]> kept))
    end.
Definition guard_size (g : IdempotencyGuard) : Z := Z.of_nat (size (seen g)).

(** ** Nonces ([node.rs], in [task_endpoint]) *)

Definition NONCE_TTL_SECS : Z := 300.
(** The critical section of the nonce cache, at one reading of the clock. *)
Definition nonce_check (cache : gmap string Z) (nonce : string) (now : Z) : bool * gmap string Z :=
  let kept := filter (fun e => (now - e.2) / SECOND < NONCE_TTL_SECS) cache in
  match kept !! nonce with
  | Some _ => (false, kept)
  | None => (true, <[nonce := now]> kept)
  end.

(** ** The per-origin rate limit ([task_rate_step]) *)

Definition TASK_RATE_WINDOW : Z := 60 * SECOND.
Definition MAX_ORIGIN_BUCKETS : Z := 4096.

Definition task_rate_step (buckets : gmap string (Z * Z)) (limit : Z) (origin : string) (now : Z)
    : bool * gmap string (Z * Z) :=
  let '(start, count) := default (now, 0) (buckets !! origin) in
  let '(start, count) := if TASK_RATE_WINDOW <=? now - start then (now, 0) else (start, count) in
  let count := (count + 1) mod 2 ^ 32 in
  let buckets := <[origin := (start, count)]> buckets in
  let allowed := count <=? limit in
  (allowed,
   if MAX_ORIGIN_BUCKETS <? Z.of_nat (size buckets)
   then filter (fun e => now - e.2.1 < TASK_RATE_WINDOW) buckets
   else buckets).

(** ** [backend_stability.rs]

    [now] is the clock in seconds; a constructor that reads the clock for two
    fields reads the same second. *)

Record BackendStabilityObservation := mkObservation {
  backend_state : string;
  reason_class : string;
  drain_until_s : option Z;
  observed_at_s : Z;
  diagnostics : json
}.

Definition obs_ok (now : Z) : BackendStabilityObservation := mkObservation "ok" "ok" None now (mk_obj []).
Definition degraded (now : Z) (reason : string) : BackendStabilityObservation :=
  mkObservation "degraded" reason None now (mk_obj []).
Definition draining (now : Z) (reason : string) (drain_until : Z) (diag : json) : BackendStabilityObservation :=
  mkObservation "draining" reason (Some drain_until) now diag.
Definition with_diagnostics (o : BackendStabilityObservation) (d : json) : BackendStabilityObservation :=
  mkObservation (backend_state o) (reason_class o) (drain_until_s o) (observed_at_s o) d.

Definition retry_after_s_at (o : BackendStabilityObservation) (now : Z) : option Z :=
  let! until := drain_until_s o in
  let remaining := until - now in
  if remaining <=? 0 then None else Some (Z.max remaining 1).
Definition is_draining (o : BackendStabilityObservation) (now : Z) : bool :=
  (backend_state o ==? "draining") && is_some (retry_after_s_at o now).

Definition public_json (o : BackendStabilityObservation) (now : Z) : json :=
  mk_obj ([("backend_state", JString (backend_state o)); ("reason_class", JString (reason_class o))]
    ++ match retry_after_s_at o now with
       | Some retry => [("retry_after_s", i64_json retry); ("drain_until", i64_json (default 0 (drain_until_s o)))]
       | None => []
       end).

Definition first_part (s : string) : string := default s (head (str_split ":" s)).
Definition model_matches (candidate : string) (expected_model : option string) : bool :=
  match expected_model with
  | None => true
  | Some expected => (candidate ==? expected) || (first_part candidate ==? first_part expected)
  end.

Definition parse_meshllm_models (now : Z) (data : json) (expected_model : option string) : BackendStabilityObservation :=
  match jget data "data" ≫= as_array with
  | None => draining now "backend_loading" (now + 30) (mk_obj [("ready", JBool false)])
  | Some models =>
      let present := existsb (fun m => model_matches m expected_model) (omap (fun m => get_str m "id") models) in
      if is_some expected_model && negb present
      then draining now "backend_loading" (now + 30) (mk_obj [("selected_model_ready", JBool false)])
      else obs_ok now
  end.

Definition parse_ollama_ps (now : Z) (data : json) (expected_model : option string) : BackendStabilityObservation :=
  match jget data "models" ≫= as_array with
  | None => degraded now "observer_error"
  | Some models =>
      let names := omap (fun m => get_str m "name") models in
      let loaded_expected := existsb (fun n => model_matches n expected_model) names in
      if is_some expected_model && negb loaded_expected
      then with_diagnostics (degraded now "backend_cold")
             (mk_obj [("loaded_model_count", u64_json (zlen names)); ("expected_model_loaded", JBool false)])
      else with_diagnostics (obs_ok now) (mk_obj [("loaded_model_count", u64_json (zlen names))])
  end.

Section lmstudio.
Context (to_lowercase : string -> string).

Definition norm (v : json) : string := str_replace_char "-" "_" (to_lowercase (trim (default empty_str (as_str v)))).

Definition LOADING_STATES : list string := ["loading"; "initializing"; "starting"; "warming"; "warming_up"].
Definition UNSTABLE_STATES : list string := ["error"; "failed"; "crashed"; "unhealthy"; "oom"; "out_of_memory"].

Record lm_scan := mkScan {
  saw_expected : bool;
  saw_loaded_expected : bool;
  saw_loading : bool;
  saw_unstable : bool;
  loaded_count : Z
}.

Definition scan_instance (expected : bool) (s : lm_scan) (inst : json) : lm_scan :=
  let state := norm (default JNull (option_or (jget inst "state") (option_or (jget inst "status") (jget inst "load_status")))) in
  mkScan (saw_expected s) (saw_loaded_expected s || expected)
    (saw_loading s || str_in state LOADING_STATES) (saw_unstable s || str_in state UNSTABLE_STATES)
    (loaded_count s + 1).
Definition scan_item (expected_model : option string) (s : lm_scan) (item : json) : lm_scan :=
  let model_id := default empty_str
    (option_or (jget item "id") (option_or (jget item "model_key") (jget item "path")) ≫= as_str) in
  let expected := model_matches model_id expected_model in
  let instances := default [] (option_or (jget item "loaded_instances") (jget item "loadedInstances") ≫= as_array) in
  foldl (scan_instance expected)
    (mkScan (saw_expected s || expected) (saw_loaded_expected s) (saw_loading s) (saw_unstable s) (loaded_count s)) instances.

Definition parse_lmstudio_models (data : json) (expected_model : option string) (now loading_retry_s unstable_retry_s : Z)
    : BackendStabilityObservation :=
  match option_or (jget data "data") (jget data "models") ≫= as_array with
  | None => degraded now "observer_error"
  | Some models =>
      let s := foldl (scan_item expected_model) (mkScan (is_none expected_model) false false false 0) models in
      let count := u64_json (loaded_count s) in
      if saw_unstable s
      then draining now "backend_unstable" (now + unstable_retry_s) (mk_obj [("loaded_instance_count", count)])
      else if saw_loading s
      then draining now "backend_loading" (now + loading_retry_s) (mk_obj [("loaded_instance_count", count)])
      else if is_some expected_model && (negb (saw_expected s) || negb (saw_loaded_expected s))
      then with_diagnostics (degraded now "backend_cold")
             (mk_obj [("loaded_instance_count", count); ("expected_model_loaded", JBool false)])
      else with_diagnostics (obs_ok now) (mk_obj [("loaded_instance_count", count)])
  end.

(** The probe: one or two GET requests to the backend. *)
Section probe.
Context `{SerdeOps} (root : string) (api_key expected_model : option string).

Definition probe_request (path : string) : http_request :=
  mkRequestOut "GET" (root +:+ path)
    (match api_key with Some key => if str_is_empty key then None else Some key | None => None end) [] None true None.

Definition success (r : result http_response bool) : option http_response :=
  match r with Ok resp => if is_success (rs_status resp) then Some resp else None | Err _ => None end.
Definition not_ready (now : Z) : BackendStabilityObservation :=
  draining now "backend_loading" (now + 30) (mk_obj [("ready", JBool false)]).

Definition probe_meshllm : prog answer BackendStabilityObservation :=
  perform r := Send (probe_request "/readyz") in
  match success r with
  | None => perform now := UnixNow in Ret (not_ready now)
  | Some _ =>
      perform r := Send (probe_request "/v1/models") in
      perform now := UnixNow in
      Ret (match success r with
           | None => not_ready now
           | Some resp => match response_json resp with
                          | Ok value => parse_meshllm_models now value expected_model
                          | Err _ => not_ready now
                          end
           end)
  end.

Definition parsed_or_error (now : Z) (resp : http_response) (parse : json -> BackendStabilityObservation)
    : BackendStabilityObservation :=
  match response_json resp with Ok v => parse v | Err _ => degraded now "observer_error" end.

Definition probe_lmstudio (flavor : string) : prog answer BackendStabilityObservation :=
  if str_in flavor [EmptyString; "lmstudio"; "lm_studio"; "lm_studio_server"] then
    perform r := Send (probe_request "/api/v1/models") in
    perform now := UnixNow in
    Ret (match success r with
         | Some resp => parsed_or_error now resp (fun v => parse_lmstudio_models v expected_model now 30 60)
         | None => if str_is_empty flavor then obs_ok now else degraded now "observer_error"
         end)
  else perform now := UnixNow in Ret (obs_ok now).

Definition probe_backend (flavor : string) : prog answer BackendStabilityObservation :=
  if flavor ==? "meshllm" then probe_meshllm
  else if (flavor ==? "ollama") || str_is_empty flavor then
    perform r := Send (probe_request "/api/ps") in
    match success r with
    | Some resp => perform now := UnixNow in
        Ret (parsed_or_error now resp (fun v => parse_ollama_ps now v expected_model))
    | None => if flavor ==? "ollama" then perform now := UnixNow in Ret (degraded now "observer_error")
              else probe_lmstudio flavor
    end
  else probe_lmstudio flavor.
End probe.

Definition observe_backend_stability `{SerdeOps} (backend_url : string) (backend expected_model api_key : option string)
    : prog answer BackendStabilityObservation :=
  let base := trim_end_char "/" backend_url in
  if str_is_empty base then perform now := UnixNow in Ret (degraded now "observer_error")
  else
    let root := default base (strip_suffix "/v1" base) in
    let flavor := str_replace_char "-" "_" (to_lowercase (trim (default empty_str backend))) in
    probe_backend root api_key expected_model flavor.
End lmstudio.
