(* ===== verification/NodeTask.v ===== *)
(** * The provider's task endpoint ([src/node.rs])

    [POST /v1/task] from the request body to the reply, with its admission
    control, replay protection, confidentiality and accounting, and the part of
    the heartbeat loop that reports the counters.  All of it are programs over
    the shared state of the node ([AppState]). *)

From stdpp Require Import vector.
From S2P Require Import Prelude Program Concurrent Text Json Cbor HttpResource Gate ClientTypes ClientEffects Confidential Provider.

(** ** Data *)

Record TaskRequest := mkTaskRequest {
  tq_task_id : string;
  tq_intent : string;
  tq_payload : json;
  tq_iicp_conf : option envelope;
  tq_cx_response_encryption : option string;
  tq_constraints : option json;
  tq_auth : option json;
  tq_nonce : option string;
  tq_source_node_id : option string;
  tq_trace : option json
}.

Record TaskResponse := mkTaskReply {
  tp_task_id : string;
  tp_status : string;
  tp_result : option json;
  tp_iicp_conf_resp : option envelope;
  tp_error : option json;
  tp_generated_by_ai : bool
}.

(** The derived implementations; [to_vec] of a response can fail. *)
Class TaskSerde := {
  task_codec :: JsonCodec;
  task_from_slice : list byte -> option TaskRequest;
  response_to_vec : TaskResponse -> option (list byte)
}.

Record http_reply := mkReply { rp_status : Z; rp_headers : list (string * string); rp_body : list byte }.

(** What [AppState] holds that does not change. *)
Record app_config := mkAppConfig {
  ac_node_id : string;
  ac_directory_url : string;
  ac_max_concurrent : Z;
  ac_availability : AvailabilityEvaluator;
  ac_cip_policy : CooperativeInferencePolicy;
  ac_enable_idempotency : bool;
  ac_task_rate_limit : Z;
  ac_cx_private_key : option (list byte)
}.

(** The arguments of a spawned [post_cip_receipt]. *)
Record receipt := mkTaskReceipt {
  rc_token : string;
  rc_hmac_key : string;
  rc_node_id : string;
  rc_task_id : string;
  rc_tokens_used : Z;
  rc_result : json;
  rc_querying_node_id : option string
}.

Record PendingMetricBatch := mkBatch {
  pb_id : string;
  pb_tasks_success : Z;
  pb_tasks_failed : Z;
  pb_latency_total_ms : Z
}.
Inductive MetricBatchDelivery := DeliveryFailed | DeliveryAccepted (response : option json).

(** ** Actions on the shared state *)

Inductive task_action :=
| ReadClock
| ReadUnix
| ReadHhmm
| RateAllow (origin : string)
| ReadStability
| FetchAdd
| FetchSub
| SleepMs (ms : Z)
| CheckNonce (nonce : string)
| CheckTask (task_id : string) (now : Z)
| Handle (req : TaskRequest)
| RandomNonce
| AddSuccess
| AddFailed
| AddLatency (ms : Z)
| ReadHmacKey
| ReadToken
| SpawnReceipt (r : receipt)
| SwapSuccess
| SwapFailed
| SwapLatency
| NewBatchId
| SendHeartbeat (batch : option PendingMetricBatch).

(** The provider's handler returns, fails or panics. *)
Definition tresp (a : task_action) : Type :=
  match a with
  | ReadClock | ReadUnix => Z
  | ReadHhmm => string
  | RateAllow _ => bool
  | ReadStability => BackendStabilityObservation
  | FetchAdd => Z
  | FetchSub | SleepMs _ => unit
  | CheckNonce _ | CheckTask _ _ => bool
  | Handle _ => outcome json
  | RandomNonce => vec byte 12
  | AddSuccess | AddFailed | AddLatency _ => unit
  | ReadHmacKey | ReadToken => string
  | SpawnReceipt _ => unit
  | SwapSuccess | SwapFailed | SwapLatency => Z
  | NewBatchId => string
  | SendHeartbeat _ => MetricBatchDelivery
  end.

(** A request is answered, or its task panics; a waiting request whose clock
    does not advance never ends ([Stalled], see [task_admission_terminates]). *)
Inductive task_end := Replied (r : http_reply) | Panicked | Stalled | Stopped.

Notation tprog := (prog tresp task_end).
Notation "'step!' x := a 'in' k" := (Act (resp:=tresp) a (fun x => k))
  (at level 200, x name, a at level 100, k at level 200,
   format "'[v' 'step!'  x  :=  a  'in' '/' k ']'") : iicp_scope.

(** ** Replies *)

Definition task_json_response (status : Z) (encoded : option (list byte)) : http_reply :=
  let body := default (str_bytes (quoted "{'error':{'code':'backend_error','message':'task response serialization failed'}}"))
                encoded in
  let '(status, body) :=
    if MAX_HTTP_TASK_BODY_BYTES <? zlen body
    then (500, str_bytes (quoted "{'error':{'code':'response_too_large','message':'encoded task response exceeds "
                            +:+ pretty MAX_HTTP_TASK_BODY_BYTES +:+ quoted " bytes'}}"))
    else (status, body) in
  mkReply status [("Content-Type", "application/json"); ("Content-Length", pretty (zlen body))] body.

Section task.
Context {serde : TaskSerde} {crypto : CxCrypto} (cfg : app_config).
Context {Body : Type} (to_bytes : Body -> Z -> option (list byte)).

(** [StatusCode::from_u16] accepts three digits. *)
Definition status_or_400 (status : Z) : Z := if (100 <=? status) && (status <=? 999) then status else 400.

Definition error_json (fields : list (string * json)) : json := mk_obj [("error", mk_obj fields)].
Definition code_message (code message : string) : list (string * json) :=
  [("code", JString code); ("message", JString message)].

Definition task_resource_error_response (e : HttpResourceError) : http_reply :=
  task_json_response (status_or_400 (he_status e)) (Some (json_to_vec (error_json (code_message (he_code e) (he_message e))))).

(** [(status, [headers], Json(value)).into_response()] *)
Definition json_reply (status : Z) (headers : list (string * string)) (v : json) : http_reply :=
  mkReply status (("Content-Type", "application/json") :: headers) (json_to_vec v).

Definition bad_json : http_reply :=
  task_json_response 400 (Some (json_to_vec (error_json (code_message "invalid_http_body" "invalid JSON body")))).
Definition rate_limited : http_reply :=
  json_reply 429 [("Retry-After", "60")] (error_json (code_message "IICP-E023" "per-origin task rate limit exceeded")).
Definition tool_denied : http_reply :=
  json_reply 403 [] (error_json (code_message "tool_execution_denied"
    "Tool-execution intents are not permitted by this node's CIP policy")).
Definition drained (reason : string) (retry : Z) : http_reply :=
  json_reply 503 [("Retry-After", pretty retry)]
    (error_json (code_message "IICP-E024" "backend temporarily draining"
                 ++ [("reason", JString reason); ("retry_after_ms", i64_json (retry * 1000))])).
Definition capacity_exceeded (qos : string) : http_reply :=
  json_reply 429 [("Retry-After", "2")]
    (error_json (code_message "IICP-E021" "capacity_exceeded"
                 ++ [("qos_class", JString qos); ("retry_after_ms", u64_json 2000)])).
Definition conflict (code message : string) : http_reply := json_reply 409 [] (error_json (code_message code message)).
Definition cx_error (code message : string) : http_reply := json_reply 400 [] (error_json (code_message code message)).

(** [Display] of an error of the confidentiality layer *)
Definition node_error_text (e : IicpError) : string :=
  match e with NodeError m => "node error: " +:+ m | _ => EmptyString end.

(** ** Admission *)

Definition effective_max_concurrent (current : string) : Z := effective_at (ac_availability cfg) (ac_max_concurrent cfg) current.

(** One attempt on a slot. *)
Definition try_slot {R} (granted refused : prog tresp R) : prog tresp R :=
  step! current := ReadHhmm in
  step! prev := FetchAdd in
  if prev <? effective_max_concurrent current then granted
  else step! _ := FetchSub in refused.

(** The waiting loop; [None] when it is cut off after [fuel] rounds. *)
Fixpoint admit_wait (fuel : nat) (deadline : Z) : prog tresp (option bool) :=
  match fuel with
  | O => Ret None
  | S fuel =>
      step! now := ReadClock in
      if now <? deadline
      then step! _ := SleepMs 50 in try_slot (Ret (Some true)) (admit_wait fuel deadline)
      else Ret (Some false)
  end.

(** Forty rounds of 50 ms fill the two seconds. *)
Definition ADMIT_FUEL : nat := 41.

Definition admit_slot (qos : string) : prog tresp (option bool) :=
  try_slot (Ret (Some true))
    (if negb (is_queue_eligible qos) then Ret (Some false)
     else step! now := ReadClock in admit_wait ADMIT_FUEL (now + QUEUE_WAIT)).

(** ** After the handler *)

Definition plain_response (task_id : string) (value : json) : json :=
  mk_obj [("task_id", JString task_id); ("status", JString "success"); ("result", value); ("generated_by_ai", JBool true)].

Definition error_response (task_id message : string) : http_reply :=
  task_json_response 500
    (response_to_vec (mkTaskReply task_id "error" None None (Some (mk_obj (code_message "backend_error" message))) false)).

Definition success_response (task_id : string) (value : json) (sealed : option envelope) : http_reply :=
  task_json_response 200
    (response_to_vec (mkTaskReply task_id (if is_some sealed then "encrypted" else "success")
       (if is_some sealed then None else Some value) sealed None true)).

Definition add_latency (ms : Z) (k : tprog) : tprog :=
  if 0 <? ms then step! _ := AddLatency ms in k else k.

Definition elapsed_ms (started now : Z) : Z := Z.min ((now - started) / MILLISECOND) u64_max.

Definition tokens_used (value : json) : Z :=
  default 0 (jget value "usage" ≫= fun usage => jget usage "total_tokens" ≫= as_u64).

Definition award (task_id : string) (value : json) (querying : option string) (response : http_reply) : tprog :=
  step! hmac_key := ReadHmacKey in
  if str_is_empty hmac_key then Ret (Replied response)
  else
    step! token := ReadToken in
    step! _ := SpawnReceipt (mkTaskReceipt token hmac_key (ac_node_id cfg) task_id (tokens_used value) value querying) in
    Ret (Replied response).

Definition succeeded (task_id : string) (value : json) (querying : option string) (latency : Z) (sealed : option envelope) : tprog :=
  let response := success_response task_id value sealed in
  if negb (rp_status response =? 200)
  then step! _ := AddFailed in add_latency latency (Ret (Replied response))
  else step! _ := AddSuccess in add_latency latency (award task_id value querying response).

Definition respond (task_id : string) (required : bool) (secret : option (list byte)) (querying : option string) (started : Z)
    (result : outcome json) : tprog :=
  match result with
  | Panic => Ret Panicked
  | Fail _ =>
      step! now := ReadClock in
      step! _ := AddFailed in
      add_latency (elapsed_ms started now) (Ret (Replied (error_response task_id "task execution failed")))
  | Val value =>
      step! now := ReadClock in
      let latency := elapsed_ms started now in
      match required, secret with
      | true, Some secret =>
          step! nonce := RandomNonce in
          match encrypt_response nonce (plain_response task_id value) secret task_id with
          | Ok sealed => succeeded task_id value querying latency (Some sealed)
          | Err _ =>
              step! _ := AddFailed in
              add_latency latency (Ret (Replied (error_response task_id "task response encryption failed")))
          end
      | _, _ => succeeded task_id value querying latency None
      end
  end.

(** ** The handler call *)

Definition with_trace (req : TaskRequest) (headers : HeaderMap) : TaskRequest :=
  match header_str headers "traceparent" with
  | Some tp => mkTaskRequest (tq_task_id req) (tq_intent req) (tq_payload req) (tq_iicp_conf req)
      (tq_cx_response_encryption req) (tq_constraints req) (tq_auth req) (tq_nonce req) (tq_source_node_id req)
      (Some (mk_obj [("traceparent", JString tp)]))
  | None => req
  end.
Definition with_clear_payload (req : TaskRequest) (p : json) : TaskRequest :=
  mkTaskRequest (tq_task_id req) (tq_intent req) p (tq_iicp_conf req)
    (tq_cx_response_encryption req) (tq_constraints req) (tq_auth req) (tq_nonce req) (tq_source_node_id req) (tq_trace req).

Definition reject (r : http_reply) : tprog := step! _ := FetchSub in Ret (Replied r).

Definition response_required (req : TaskRequest) : bool := opt_str_is (tq_cx_response_encryption req) "required".

Definition execute (headers : HeaderMap) (req : TaskRequest) (secret : option (list byte)) : tprog :=
  let req := with_trace req headers in
  if response_required req && is_none secret
  then reject (cx_error "IICP-CX-03" "encrypted response requested without an encrypted request")
  else
    step! started := ReadClock in
    step! result := Handle req in
    match result with
    | Panic => Ret Panicked
    | _ => step! _ := FetchSub in
        respond (tq_task_id req) (response_required req) secret (tq_source_node_id req) started result
    end.

Definition open_payload (headers : HeaderMap) (req : TaskRequest) : tprog :=
  if negb (is_null (tq_payload req)) then execute headers req None
  else
    match tq_iicp_conf req with
    | None => execute headers req None
    | Some conf =>
        match ac_cx_private_key cfg with
        | None => reject (cx_error "IICP-CX-02" "iicp_conf decrypt failed: node error: node has no CX private key")
        | Some key =>
            match decrypt_payload_with_context conf key with
            | Val (payload, secret) => execute headers (with_clear_payload req payload) (Some secret)
            | Fail e => reject (cx_error "IICP-CX-02" ("iicp_conf decrypt failed: " +:+ node_error_text e))
            | Panic => Ret Panicked
            end
        end
    end.

(** ** The gates, in order *)

Definition check_duplicate (headers : HeaderMap) (req : TaskRequest) : tprog :=
  if ac_enable_idempotency cfg then
    if str_is_empty (tq_task_id req) then open_payload headers req
    else
      step! now := ReadClock in
      step! fresh := CheckTask (tq_task_id req) now in
      if fresh then open_payload headers req else reject (conflict "IICP-E010" "duplicate_task")
  else open_payload headers req.

Definition check_replay (headers : HeaderMap) (req : TaskRequest) : tprog :=
  match tq_nonce req with
  | None => check_duplicate headers req
  | Some nonce =>
      step! fresh := CheckNonce nonce in
      if fresh then check_duplicate headers req else reject (conflict "IICP-E011" "replay_detected")
  end.

Definition qos_class (req : TaskRequest) : string :=
  default "best_effort" (tq_constraints req ≫= fun c => get_str c "qos_class").

Definition admission (headers : HeaderMap) (req : TaskRequest) : tprog :=
  run! admitted := admit_slot (qos_class req) in
  match admitted with
  | Some true => check_replay headers req
  | Some false => Ret (Replied (capacity_exceeded (qos_class req)))
  | None => Ret Stalled
  end.

(** [is_draining] and [retry_after_s] each read the clock. *)
Definition drain_guard (headers : HeaderMap) (req : TaskRequest) : tprog :=
  step! stability := ReadStability in
  step! now := ReadUnix in
  if is_draining stability now then
    step! now := ReadUnix in
    match retry_after_s_at stability now with
    | Some retry => Ret (Replied (drained (reason_class stability) retry))
    | None => admission headers req
    end
  else admission headers req.

Definition intent_gate (headers : HeaderMap) (req : TaskRequest) : tprog :=
  if negb (permits_intent (ac_cip_policy cfg) (tq_intent req)) then Ret (Replied tool_denied)
  else drain_guard headers req.

Definition rate_gate (headers : HeaderMap) (req : TaskRequest) : tprog :=
  if 0 <? ac_task_rate_limit cfg then
    match header_str headers "origin" with
    | None => intent_gate headers req
    | Some origin =>
        step! allowed := RateAllow origin in
        if negb allowed then Ret (Replied rate_limited) else intent_gate headers req
    end
  else intent_gate headers req.

Definition task_endpoint (headers : HeaderMap) (body : Body) : tprog :=
  match read_request_body to_bytes headers body with
  | Err e => Ret (Replied (task_resource_error_response e))
  | Ok encoded =>
      match task_from_slice encoded with
      | None => Ret (Replied bad_json)
      | Some req => rate_gate headers req
      end
  end.
End task.

(** ** Reporting the counters ([IicpNode::serve], heartbeat loop) *)

Definition metrics_batch_acknowledged (response : json) (batch_id : string) : bool :=
  is_none_or (as_str (jidx response "metrics_batch_accepted")) (fun accepted => accepted ==? batch_id).

Definition reconcile_metric_batch (pending : option PendingMetricBatch) (delivery : MetricBatchDelivery)
    : option PendingMetricBatch :=
  match delivery with
  | DeliveryFailed => pending
  | DeliveryAccepted (Some response) =>
      match pending with
      | Some batch => if metrics_batch_acknowledged response (pb_id batch) then None else pending
      | None => None
      end
  | DeliveryAccepted None => None
  end.

(** The counters are drained only when no batch is pending. *)
Definition drain_counters (pending : option PendingMetricBatch) (k : option PendingMetricBatch -> tprog) : tprog :=
  match pending with
  | Some _ => k pending
  | None =>
      step! ok := SwapSuccess in
      step! fail := SwapFailed in
      step! latency := SwapLatency in
      if (0 <? ok) || (0 <? fail)
      then step! id := NewBatchId in k (Some (mkBatch id ok fail latency))
      else k None
  end.

(** [n] rounds of the loop. *)
Fixpoint heartbeat_loop (n : nat) (pending : option PendingMetricBatch) : tprog :=
  match n with
  | O => Ret Stopped
  | S n =>
      drain_counters pending (fun pending =>
        step! delivery := SendHeartbeat pending in
        heartbeat_loop n (reconcile_metric_batch pending delivery))
  end.

(** ** The shared state *)

Record task_world := mkTaskWorld {
  tw_active_jobs : Z;
  tw_nonce_cache : gmap string Z;
  tw_idempotency : IdempotencyGuard;
  tw_rate_buckets : gmap string (Z * Z);
  tw_stability : BackendStabilityObservation;
  tw_success : Z;
  tw_failed : Z;
  tw_latency : Z;
  tw_hmac_key : string;
  tw_token : string
}.

(** What the surroundings answer at one moment. *)
Record task_env := mkTaskEnv {
  te_now : Z;
  te_unix : Z;
  te_hhmm : string;
  te_handle : TaskRequest -> outcome json;
  te_nonce : vec byte 12;
  te_uuid : string;
  te_delivery : MetricBatchDelivery
}.

Definition set_active (w : task_world) (n : Z) : task_world :=
  mkTaskWorld (n mod 2 ^ 64) (tw_nonce_cache w) (tw_idempotency w) (tw_rate_buckets w) (tw_stability w)
    (tw_success w) (tw_failed w) (tw_latency w) (tw_hmac_key w) (tw_token w).
Definition set_nonces (w : task_world) (m : gmap string Z) : task_world :=
  mkTaskWorld (tw_active_jobs w) m (tw_idempotency w) (tw_rate_buckets w) (tw_stability w)
    (tw_success w) (tw_failed w) (tw_latency w) (tw_hmac_key w) (tw_token w).
Definition set_guard (w : task_world) (g : IdempotencyGuard) : task_world :=
  mkTaskWorld (tw_active_jobs w) (tw_nonce_cache w) g (tw_rate_buckets w) (tw_stability w)
    (tw_success w) (tw_failed w) (tw_latency w) (tw_hmac_key w) (tw_token w).
Definition set_buckets (w : task_world) (m : gmap string (Z * Z)) : task_world :=
  mkTaskWorld (tw_active_jobs w) (tw_nonce_cache w) (tw_idempotency w) m (tw_stability w)
    (tw_success w) (tw_failed w) (tw_latency w) (tw_hmac_key w) (tw_token w).
Definition set_counters (w : task_world) (ok fail latency : Z) : task_world :=
  mkTaskWorld (tw_active_jobs w) (tw_nonce_cache w) (tw_idempotency w) (tw_rate_buckets w) (tw_stability w)
    (ok mod 2 ^ 64) (fail mod 2 ^ 64) (latency mod 2 ^ 64) (tw_hmac_key w) (tw_token w).
Definition set_runtime (w : task_world) (o : BackendStabilityObservation) (hmac_key token : string) : task_world :=
  mkTaskWorld (tw_active_jobs w) (tw_nonce_cache w) (tw_idempotency w) (tw_rate_buckets w) o
    (tw_success w) (tw_failed w) (tw_latency w) hmac_key token.

(** The effect of one atomic action; the atomics are [usize]. *)
Definition tperform (limit : Z) (w : task_world) (e : task_env) (a : task_action) : tresp a * task_world :=
  match a return tresp a * task_world with
  | ReadClock => (te_now e, w)
  | ReadUnix => (te_unix e, w)
  | ReadHhmm => (te_hhmm e, w)
  | RateAllow origin => let '(ok, b) := task_rate_step (tw_rate_buckets w) limit origin (te_now e) in (ok, set_buckets w b)
  | ReadStability => (tw_stability w, w)
  | FetchAdd => (tw_active_jobs w, set_active w (tw_active_jobs w + 1))
  | FetchSub => (tt, set_active w (tw_active_jobs w - 1))
  | SleepMs _ => (tt, w)
  | CheckNonce n => let '(ok, m) := nonce_check (tw_nonce_cache w) n (te_now e) in (ok, set_nonces w m)
  | CheckTask id now => let '(ok, g) := check_and_register (tw_idempotency w) id now in (ok, set_guard w g)
  | Handle req => (te_handle e req, w)
  | RandomNonce => (te_nonce e, w)
  | AddSuccess => (tt, set_counters w (tw_success w + 1) (tw_failed w) (tw_latency w))
  | AddFailed => (tt, set_counters w (tw_success w) (tw_failed w + 1) (tw_latency w))
  | AddLatency ms => (tt, set_counters w (tw_success w) (tw_failed w) (tw_latency w + ms))
  | ReadHmacKey => (tw_hmac_key w, w)
  | ReadToken => (tw_token w, w)
  | SpawnReceipt _ => (tt, w)
  | SwapSuccess => (tw_success w, set_counters w 0 (tw_failed w) (tw_latency w))
  | SwapFailed => (tw_failed w, set_counters w (tw_success w) 0 (tw_latency w))
  | SwapLatency => (tw_latency w, set_counters w (tw_success w) (tw_failed w) 0)
  | NewBatchId => (te_uuid e, w)
  | SendHeartbeat _ => (te_delivery e, w)
  end.

(** Registration and the backend probe set credentials and the drain state. *)
Definition tenv (w : task_world) (t : Z) (w' : task_world) : Prop :=
  exists o hmac_key token, w' = set_runtime w o hmac_key token.

Definition task_world_new : task_world :=
  mkTaskWorld 0 ∅ (guard_new IDEMPOTENCY_TTL) ∅ (obs_ok 0) 0 0 0 EmptyString EmptyString.

(** The programs of a node: requests, and heartbeat loops that start with
    nothing pending. *)
Inductive node_program {serde : TaskSerde} {crypto : CxCrypto} (cfg : app_config) {Body} (to_bytes : Body -> Z -> option (list byte))
    : tprog -> Prop :=
| program_task headers body : node_program cfg to_bytes (task_endpoint cfg to_bytes headers body)
| program_heartbeat n : node_program cfg to_bytes (heartbeat_loop n None).
