(* ===== verification/NodeTaskSlots.v ===== *)
(** * Concurrency slots of the task endpoint

    Under every interleaving of requests: who holds a slot, how many can, and
    that waiting for one ends. *)

From stdpp Require Import vector.
From S2P Require Import Prelude Program Concurrent Text Json Cbor HttpResource Gate ClientTypes ClientEffects Confidential Provider NodeTask.

(** ** The capacity *)

(** The largest capacity any time of day gives. *)
Definition peak_capacity (ev : AvailabilityEvaluator) (base_max : Z) : Z :=
  if base_max =? 0 then 0
  else match windows ev with
       | [] => scaled base_max (f64_of_Z 1)
       | l => foldr (fun w m => Z.max (scaled base_max (share w)) m) (scaled base_max (f64_lit 5 1)) l
       end.

Lemma scaled_nonneg base s : 0 <= scaled base s.
Proof. unfold scaled. destruct (f64_leb _ _); lia. Qed.

Lemma first_share_peak base l current :
  scaled base (first_share l current) <=
  foldr (fun w m => Z.max (scaled base (share w)) m) (scaled base (f64_lit 5 1)) l.
Proof. induction l as [|w l IH]; cbn [first_share foldr]; [lia|]. destruct (window_contains w current); lia. Qed.

Lemma effective_peak ev base current : effective_at ev base current <= peak_capacity ev base.
Proof.
  unfold effective_at, peak_capacity, share_at. destruct (base =? 0); [lia|].
  destruct (windows ev) as [|w l]; [lia|]. apply first_share_peak.
Qed.

Lemma peak_nonneg ev base : 0 <= peak_capacity ev base.
Proof.
  unfold peak_capacity. destruct (base =? 0); [lia|]. destruct (windows ev) as [|w l]; [apply scaled_nonneg|].
  cbn [foldr]. pose proof (scaled_nonneg base (share w)). lia.
Qed.

Section slots.
Context {serde : TaskSerde} {crypto : CxCrypto} (cfg : app_config).
Context {Body : Type} (to_bytes : Body -> Z -> option (list byte)).

Notation exec := (Concurrent.exec (tperform (ac_task_rate_limit cfg)) te_now (node_program cfg to_bytes) tenv task_world_new).
Notation event := (Concurrent.event tresp).

(** ** One request's slot *)

(** No slot; about to try with a capacity read; holding one; over capacity and
    about to give it back. *)
Inductive slot := NoSlot | Trying (cap : Z) | Holding | Excess.

Definition slot_upd (s : slot) (a : task_action) : tresp a -> slot :=
  match a return tresp a -> slot with
  | ReadHhmm => fun current => Trying (effective_max_concurrent cfg current)
  | FetchAdd => fun prev => match s with Trying cap => if prev <? cap then Holding else Excess | _ => s end
  | FetchSub => fun _ => NoSlot
  | _ => fun _ => s
  end.
Definition slot_allowed (s : slot) (a : task_action) : Prop :=
  match a with
  | ReadHhmm => s = NoSlot
  | FetchAdd => exists current, s = Trying (effective_max_concurrent cfg current)
  | FetchSub => s = Holding \/ s = Excess
  | Handle _ => s = Holding
  | _ => match s with Trying _ | Excess => False | _ => True end
  end.
(** A panic is the only way to end with the slot. *)
Definition slot_end (s : slot) (o : task_end) : Prop := match o with Panicked => s = Holding | _ => s = NoSlot end.

Notation slotted := (along slot_upd slot_allowed).

Lemma try_slot_slotted {R} (fin : slot -> R -> Prop) granted refused :
  slotted fin Holding granted -> slotted fin NoSlot refused -> slotted fin NoSlot (try_slot cfg granted refused).
Proof.
  intros Hg Hr. unfold try_slot. split; [done|]. intros current. split; [by eexists|]. intros prev. cbn [slot_upd].
  destruct (prev <? effective_max_concurrent cfg current); [done|]. split; [by right|]. by intros [].
Qed.

Definition admit_end (s : slot) (r : option bool) : Prop := match r with Some true => s = Holding | _ => s = NoSlot end.

Lemma admit_wait_slotted fuel deadline : slotted admit_end NoSlot (admit_wait cfg fuel deadline).
Proof.
  induction fuel as [|fuel IH]; [done|]. cbn [admit_wait]. split; [done|]. intros now. cbn [slot_upd].
  destruct (now <? deadline); [|done]. split; [done|]. intros ?. cbn [slot_upd]. by apply try_slot_slotted.
Qed.

Lemma admit_slotted qos : slotted admit_end NoSlot (admit_slot cfg qos).
Proof.
  unfold admit_slot. apply try_slot_slotted; [done|]. destruct (negb _); [done|]. split; [done|]. intros now.
  apply admit_wait_slotted.
Qed.

Lemma add_latency_slotted ms k : slotted slot_end NoSlot k -> slotted slot_end NoSlot (add_latency ms k).
Proof. intros Hk. unfold add_latency. destruct (0 <? ms); [|done]. by split. Qed.

Lemma award_slotted id v q r : slotted slot_end NoSlot (award cfg id v q r).
Proof.
  unfold award. split; [done|]. intros key. cbn [slot_upd]. destruct (str_is_empty key); [done|].
  repeat (split; [done|]; intros ?; cbn [slot_upd]). done.
Qed.

Lemma succeeded_slotted id v q l sealed : slotted slot_end NoSlot (succeeded cfg id v q l sealed).
Proof.
  unfold succeeded. destruct (negb _); (split; [done|]); intros ?; cbn [slot_upd]; apply add_latency_slotted; [done|apply award_slotted].
Qed.

Lemma respond_slotted id req secret q started result :
  result <> Panic -> slotted slot_end NoSlot (respond cfg id req secret q started result).
Proof.
  intros Hn. destruct result as [v|e|]; [| |done]; cbn [respond].
  - split; [done|]. intros now. cbn [slot_upd]. destruct req, secret as [s|]; try apply succeeded_slotted.
    split; [done|]. intros nonce. cbn [slot_upd]. destruct (encrypt_response _ _ _ _); [apply succeeded_slotted|].
    split; [done|]. intros ?. cbn [slot_upd]. by apply add_latency_slotted.
  - split; [done|]. intros now. split; [done|]. intros ?. cbn [slot_upd]. by apply add_latency_slotted.
Qed.

Lemma reject_slotted r : slotted slot_end Holding (reject r).
Proof. split; [by left|]. done. Qed.

Lemma execute_slotted headers req secret : slotted slot_end Holding (execute cfg headers req secret).
Proof.
  unfold execute. destruct (response_required _ && is_none secret); [apply reject_slotted|].
  split; [done|]. intros started. split; [done|]. intros [v|e|]; [..|done].
  all: split; [by left|]; intros ?; cbn [slot_upd]; by apply respond_slotted.
Qed.

Lemma open_payload_slotted headers req : slotted slot_end Holding (open_payload cfg headers req).
Proof.
  unfold open_payload. destruct (negb _); [apply execute_slotted|].
  destruct (tq_iicp_conf req) as [conf|]; [|apply execute_slotted].
  destruct (ac_cx_private_key cfg) as [key|]; [|apply reject_slotted].
  destruct (decrypt_payload_with_context conf key) as [[p s]|e|]; [apply execute_slotted|apply reject_slotted|done].
Qed.

Lemma check_replay_slotted headers req : slotted slot_end Holding (check_replay cfg headers req).
Proof.
  assert (slotted slot_end Holding (check_duplicate cfg headers req)) as Hd.
  { unfold check_duplicate. destruct (ac_enable_idempotency cfg); [|apply open_payload_slotted].
    destruct (str_is_empty _); [apply open_payload_slotted|]. split; [done|]. intros now. split; [done|].
    intros [|]; [apply open_payload_slotted|apply reject_slotted]. }
  unfold check_replay. destruct (tq_nonce req); [|exact Hd]. split; [done|]. intros [|]; [exact Hd|apply reject_slotted].
Qed.

Lemma task_endpoint_slotted headers body : slotted slot_end NoSlot (task_endpoint cfg to_bytes headers body).
Proof.
  unfold task_endpoint. destruct (read_request_body _ _ _) as [encoded|e]; [|done].
  destruct (task_from_slice encoded) as [req|]; [|done].
  assert (slotted slot_end NoSlot (admission cfg headers req)) as Ha.
  { unfold admission. eapply along_bind; [apply admit_slotted|]. intros s [[|]|] ->; [apply check_replay_slotted|done..]. }
  assert (slotted slot_end NoSlot (intent_gate cfg headers req)) as Hg.
  { unfold intent_gate, drain_guard. destruct (negb _); [done|]. split; [done|]. intros st. split; [done|]. intros now.
    cbn [slot_upd]. destruct (is_draining st now); [|exact Ha]. split; [done|]. intros now'. cbn [slot_upd].
    destruct (retry_after_s_at st now'); [done|exact Ha]. }
  unfold rate_gate. destruct (0 <? ac_task_rate_limit cfg); [|exact Hg].
  destruct (header_str headers "origin"); [|exact Hg]. split; [done|]. intros [|]; [exact Hg|done].
Qed.

Lemma heartbeat_slotted n pending : slotted slot_end NoSlot (heartbeat_loop n pending).
Proof.
  revert pending. induction n as [|n IH]; intros pending; [done|]. cbn [heartbeat_loop]. unfold drain_counters.
  destruct pending as [b|]; [split; [done|]; intros d; apply IH|].
  split; [done|]. intros ok. split; [done|]. intros fail. split; [done|]. intros latency. cbn [slot_upd].
  destruct (_ || _); [split; [done|]; intros id|]; (split; [done|]; intros d; apply IH).
Qed.

Lemma programs_slotted q : node_program cfg to_bytes q -> slotted slot_end NoSlot q.
Proof. intros []; [apply task_endpoint_slotted|apply heartbeat_slotted]. Qed.

(** ** All requests *)

Definition slot_of (tr : list event) (i : nat) : slot := ghost slot_upd NoSlot i tr.
Definition holds (tr : list event) (i : nat) : bool := match slot_of tr i with Holding => true | _ => false end.
Definition occupies (tr : list event) (i : nat) : bool := match slot_of tr i with Holding | Excess => true | _ => false end.

Lemma slot_of_cons i t a r tr j :
  slot_of (Ev i t a r :: tr) j = if bool_decide (i = j) then slot_upd (slot_of tr j) a r else slot_of tr j.
Proof. done. Qed.

Lemma holds_other i t a r tr j : j <> i -> holds (Ev i t a r :: tr) j = holds tr j.
Proof. intros H. unfold holds. rewrite slot_of_cons, bool_decide_false by congruence. done. Qed.
Lemma occupies_other i t a r tr j : j <> i -> occupies (Ev i t a r :: tr) j = occupies tr j.
Proof. intros H. unfold occupies. rewrite slot_of_cons, bool_decide_false by congruence. done. Qed.

(** The counter is the number of threads between their increment and their
    decrement; those that were admitted are within the peak capacity. *)
Definition slots_ok (tr : list event) (w : task_world) (n : nat) : Prop :=
  tw_active_jobs w = tally (occupies tr) n /\
  tally (holds tr) n <= peak_capacity (ac_availability cfg) (ac_max_concurrent cfg).

(** Only the two atomic updates touch the counter. *)
Lemma perform_active w e a r w' :
  tperform (ac_task_rate_limit cfg) w e a = (r, w') ->
  tw_active_jobs w' = match a with
    | FetchAdd => (tw_active_jobs w + 1) mod 2 ^ 64
    | FetchSub => (tw_active_jobs w - 1) mod 2 ^ 64
    | _ => tw_active_jobs w end.
Proof.
  intros E. destruct a; simpl in E; try (injection E as <- <-; done).
  - by destruct (task_rate_step _ _ _ _); injection E as <- <-.
  - by destruct (nonce_check _ _ _); injection E as <- <-.
  - by destruct (check_and_register _ _ _); injection E as <- <-.
Qed.

Lemma holds_occupies tr n : tally (holds tr) n <= tally (occupies tr) n.
Proof. apply tally_le. intros i _. unfold holds, occupies. by destruct (slot_of tr i). Qed.

(** A step that leaves the thread's slot where it was. *)
Lemma slots_ok_same tr w w' n i t a r :
  (i < n)%nat -> slots_ok tr w n -> tw_active_jobs w' = tw_active_jobs w ->
  occupies (Ev i t a r :: tr) i = occupies tr i -> holds (Ev i t a r :: tr) i = holds tr i ->
  slots_ok (Ev i t a r :: tr) w' n.
Proof.
  intros Hi [Ha Hh] Hw Ho Hd. split.
  - rewrite Hw, Ha. symmetry. apply tally_ext. intros j _. destruct (decide (j = i)) as [->|]; [done|by apply occupies_other].
  - rewrite (tally_ext _ (holds tr)); [done|]. intros j _. destruct (decide (j = i)) as [->|]; [done|by apply holds_other].
Qed.

Lemma exec_slots tr t w ts : exec tr t w ts -> Z.of_nat (length ts) <= u64_max -> slots_ok tr w (length ts).
Proof.
  induction 1 as [|tr t w ts p Hx IH Hh|tr t w w2 ts Hx IH Henv|tr t w ts i a k e r w' Hx IH Hp Ht Hw]; intros Hlen.
  - split; [done|]. apply peak_nonneg.
  - rewrite length_app in *. cbn [length] in *. rewrite Nat.add_1_r in *. destruct IH as [Ha Hn]; [lia|].
    assert (slot_of tr (length ts) = NoSlot) as Hs by (eapply ghost_fresh; [exact Hx|lia]).
    split; rewrite tally_S; unfold occupies at 2 || unfold holds at 2; rewrite Hs; simpl; lia.
  - destruct Henv as (o & h & tk & ->). by apply IH.
  - rewrite length_insert in *. specialize (IH Hlen).
    assert (i < length ts)%nat as Hi by (by eapply lookup_lt_Some).
    pose proof (exec_along slot_upd slot_allowed slot_end NoSlot _ _ _ _ _ _ programs_slotted Hx Hp) as [Hok _].
    change (ghost slot_upd NoSlot i tr) with (slot_of tr i) in Hok. pose proof (perform_active _ _ _ _ _ Hw) as Hact.
    assert (slot_of (Ev i (te_now e) a r :: tr) i = slot_upd (slot_of tr i) a r) as Hnew
      by (rewrite slot_of_cons; by rewrite bool_decide_true).
    pose proof (tally_range (occupies tr) (length ts)) as Hrange. pose proof (holds_occupies tr (length ts)) as Hho.
    destruct a; try (apply (slots_ok_same tr w); [done|done|done|unfold occupies|unfold holds]; by rewrite Hnew).
    + simpl in Hok. apply (slots_ok_same tr w); [done|done|done|unfold occupies|unfold holds]; by rewrite Hnew, Hok.
    + destruct Hok as [current Hs]. destruct IH as [Ha Hn]. simpl in Hw. injection Hw as <- <-.
      assert (occupies tr i = false) as Ho by (unfold occupies; by rewrite Hs).
      assert (holds tr i = false) as Hd by (unfold holds; by rewrite Hs).
      pose proof (effective_peak (ac_availability cfg) (ac_max_concurrent cfg) current) as Hpk.
      assert (tally (occupies tr) (length ts) < Z.of_nat (length ts)) as Hlt.
      { pose proof (tally_update (occupies tr) (fun j => bool_decide (j = i) || occupies tr j) i (length ts) Hi) as Hu.
        pose proof (tally_range (fun j => bool_decide (j = i) || occupies tr j) (length ts)) as Hr'.
        rewrite Ho, bool_decide_true in Hu by done. simpl in Hu.
        rewrite Hu in Hr'; [lia|]. intros j Hj. by rewrite bool_decide_false. }
      split.
      * rewrite Hact, Z.mod_small by (unfold u64_max in *; lia).
        rewrite (tally_update (occupies tr) _ i) by (done || (intros; by apply occupies_other)).
        rewrite Ho. unfold occupies at 2. rewrite Hnew, Hs. cbn [slot_upd].
        destruct (tw_active_jobs w <? _); simpl; lia.
      * rewrite (tally_update (holds tr) _ i) by (done || (intros; by apply holds_other)).
        rewrite Hd. unfold holds at 2. rewrite Hnew, Hs. cbn [slot_upd].
        destruct (Z.ltb_spec (tw_active_jobs w) (effective_max_concurrent cfg current)) as [Hc|Hc]; simpl; [|lia].
        unfold effective_max_concurrent in Hc. lia.
    + destruct IH as [Ha Hn]. injection Hw as <- <-.
      assert (occupies tr i = true) as Ho by (unfold occupies; by destruct Hok as [-> | ->]).
      pose proof (tally_pos _ _ _ Hi Ho).
      split.
      * rewrite Hact, Z.mod_small by (unfold u64_max in *; lia).
        rewrite (tally_update (occupies tr) _ i) by (done || (intros; by apply occupies_other)).
        rewrite Ho. unfold occupies at 2. rewrite Hnew. simpl. lia.
      * rewrite (tally_update (holds tr) _ i) by (done || (intros; by apply holds_other)).
        unfold holds at 3. rewrite Hnew. simpl. destruct (holds tr i); simpl; lia.
Qed.

(** ** Waiting ends *)

(** Before any wait; waiting since [d], after [n] sleeps, with the clock read
    since the last of them. *)
Inductive wait := Unstarted | Waiting (d : Z) (n : nat) (clock : option Z).

Definition wait_upd (s : wait) (a : task_action) : tresp a -> wait :=
  match a return tresp a -> wait with
  | ReadClock => fun now => match s with Unstarted => Waiting now 0 (Some now) | Waiting d n _ => Waiting d n (Some now) end
  | SleepMs _ => fun _ => match s with Waiting d n _ => Waiting d (S n) None | s => s end
  | _ => fun _ => s
  end.
Definition wait_allowed (s : wait) (a : task_action) : Prop :=
  match a with
  | SleepMs ms => ms = 50 /\ exists d n c, s = Waiting d n (Some c) /\ c < d + QUEUE_WAIT
  | _ => True
  end.
Definition wait_end (s : wait) (o : task_end) : Prop :=
  match o with Stalled => exists d c, s = Waiting d ADMIT_FUEL c | _ => True end.
Notation waits := (along wait_upd wait_allowed).

(** Programs that neither sleep nor stall. *)
Definition prompt (p : tprog) : Prop :=
  along (fun (_ : unit) a (_ : tresp a) => tt) (fun _ a => match a with SleepMs _ => False | _ => True end)
    (fun _ o => o <> Stalled) tt p.

Lemma prompt_waits s p : prompt p -> waits wait_end s p.
Proof.
  unfold prompt. revert s. induction p as [o|a k IH]; intros s; cbn [along].
  - by destruct o.
  - intros [Ha Hk]. split; [by destruct a|]. intros r. apply IH, Hk.
Qed.

Ltac prompt_split := unfold prompt; cbn [along]; repeat (first [done | split; [done|]; intros ? | case_match]).

Lemma add_latency_prompt ms k : prompt k -> prompt (add_latency ms k).
Proof. intros Hk. unfold add_latency. destruct (0 <? ms); [|done]. by split. Qed.

Lemma succeeded_prompt id v q l sealed : prompt (succeeded cfg id v q l sealed).
Proof.
  unfold succeeded. destruct (negb _); (split; [done|]); intros ?; apply add_latency_prompt; [done|].
  unfold award. prompt_split.
Qed.

Lemma execute_prompt headers req secret : prompt (execute cfg headers req secret).
Proof.
  unfold execute. destruct (response_required _ && is_none secret); [prompt_split|].
  split; [done|]. intros started. split; [done|]. intros [v|e|]; [..|done]; (split; [done|]); intros ?; cbn [respond].
  - split; [done|]. intros now. destruct (response_required _), secret as [s|]; try apply succeeded_prompt.
    split; [done|]. intros nonce. destruct (encrypt_response _ _ _ _); [apply succeeded_prompt|].
    split; [done|]. intros ?. by apply add_latency_prompt.
  - split; [done|]. intros now. split; [done|]. intros ?. by apply add_latency_prompt.
Qed.

Lemma check_replay_prompt headers req : prompt (check_replay cfg headers req).
Proof.
  assert (prompt (open_payload cfg headers req)) as Ho.
  { unfold open_payload. destruct (negb _); [apply execute_prompt|].
    destruct (tq_iicp_conf req) as [conf|]; [|apply execute_prompt].
    destruct (ac_cx_private_key cfg) as [key|]; [|prompt_split].
    destruct (decrypt_payload_with_context conf key) as [[p s]|e|]; [apply execute_prompt|prompt_split..]. }
  assert (prompt (check_duplicate cfg headers req)) as Hd.
  { unfold check_duplicate. destruct (ac_enable_idempotency cfg); [|exact Ho].
    destruct (str_is_empty _); [exact Ho|]. split; [done|]. intros now. split; [done|]. intros [|]; [exact Ho|prompt_split]. }
  unfold check_replay. destruct (tq_nonce req); [|exact Hd]. split; [done|]. intros [|]; [exact Hd|prompt_split].
Qed.

Definition admit_waited (s : wait) (r : option bool) : Prop :=
  match r with None => exists d c, s = Waiting d ADMIT_FUEL c | _ => True end.

Lemma admit_wait_waits fuel d n c :
  (n + fuel = ADMIT_FUEL)%nat -> waits admit_waited (Waiting d n c) (admit_wait cfg fuel (d + QUEUE_WAIT)).
Proof.
  revert n c. induction fuel as [|fuel IH]; intros n c Hn.
  - exists d, c. f_equal. lia.
  - cbn [admit_wait]. split; [done|]. intros now. cbn [wait_upd].
    destruct (Z.ltb_spec now (d + QUEUE_WAIT)); [|done]. split; [split; [done|]; by exists d, n, now|]. intros [].
    unfold try_slot. split; [done|]. intros current. split; [done|]. intros prev. cbn [wait_upd].
    destruct (prev <? _); [done|]. split; [done|]. intros []. apply IH. lia.
Qed.

Lemma admit_waits qos : waits admit_waited Unstarted (admit_slot cfg qos).
Proof.
  unfold admit_slot, try_slot. split; [done|]. intros current. split; [done|]. intros prev. cbn [wait_upd].
  destruct (prev <? _); [done|]. split; [done|]. intros []. cbn [wait_upd]. destruct (negb _); [done|].
  split; [done|]. intros now. by apply admit_wait_waits.
Qed.

Lemma programs_wait q : node_program cfg to_bytes q -> waits wait_end Unstarted q.
Proof.
  intros [headers body|n].
  - unfold task_endpoint. destruct (read_request_body _ _ _) as [encoded|e]; [|done].
    destruct (task_from_slice encoded) as [req|]; [|done].
    assert (waits wait_end Unstarted (admission cfg headers req)) as Ha.
    { unfold admission. eapply along_bind; [apply admit_waits|]. intros s [[|]|] H; [|done..].
      apply prompt_waits, check_replay_prompt. }
    assert (waits wait_end Unstarted (intent_gate cfg headers req)) as Hg.
    { unfold intent_gate, drain_guard. destruct (negb _); [done|]. split; [done|]. intros st. split; [done|]. intros now.
      cbn [wait_upd]. destruct (is_draining st now); [|exact Ha]. split; [done|]. intros now'. cbn [wait_upd].
      destruct (retry_after_s_at st now'); [done|exact Ha]. }
    unfold rate_gate. destruct (0 <? ac_task_rate_limit cfg); [|exact Hg].
    destruct (header_str headers "origin"); [|exact Hg]. split; [done|]. intros [|]; [exact Hg|done].
  - apply prompt_waits. generalize (@None PendingMetricBatch). induction n as [|n IH]; intros pending; [done|].
    cbn [heartbeat_loop]. unfold drain_counters. destruct pending as [b|]; [split; [done|]; intros d; apply IH|].
    split; [done|]. intros ok. split; [done|]. intros fail. split; [done|]. intros latency.
    destruct (_ || _); [split; [done|]; intros id|]; (split; [done|]; intros d; apply IH).
Qed.

(** The time of a thread's latest action. *)
Fixpoint last_time (i : nat) (tr : list event) : Z :=
  match tr with
  | [] => 0
  | Ev j t _ _ :: tr => if bool_decide (j = i) then t else last_time i tr
  end.

(** [tokio::time::sleep] lasts at least as long as asked. *)
Definition timely (tr : list event) : Prop :=
  forall tr2 tr1 i t ms r, tr = tr2 ++ Ev i t (SleepMs ms) r :: tr1 -> last_time i tr1 + ms * MILLISECOND <= t.

Definition awake (ev : event) : bool := match ev with Ev _ _ (SleepMs _) _ => false | _ => true end.
Lemma timely_awake tr : forallb awake tr = true -> timely tr.
Proof.
  intros Hf tr2 tr1 i t ms r ->. rewrite forallb_app in Hf. apply andb_true_iff in Hf as [_ Hf]. done.
Qed.

Lemma last_time_le i tr t w ts : exec tr t w ts -> 0 <= last_time i tr <= t.
Proof.
  induction 1 as [|tr t w ts p Hx IH Hh|tr t w w2 ts Hx IH Henv|tr t w ts j a k e r w' Hx IH Hp Ht Hw]; try done.
  cbn [last_time]. pose proof (exec_time_nonneg _ _ _ _ Hx). case_bool_decide; lia.
Qed.

Definition wait_ok (tr : list event) (i : nat) : Prop :=
  match ghost wait_upd Unstarted i tr with
  | Unstarted => True
  | Waiting d n c =>
      d + Z.of_nat n * (50 * MILLISECOND) <= last_time i tr /\ (n <= 40)%nat /\
      match c with Some c => d + Z.of_nat n * (50 * MILLISECOND) <= c | None => True end
  end.

Lemma exec_wait tr t w ts i : exec tr t w ts -> timely tr -> wait_ok tr i.
Proof.
  induction 1 as [|tr t w ts p Hx IH Hh|tr t w w2 ts Hx IH Henv|tr t w ts j a k e r w' Hx IH Hp Ht Hw]; intros Htime;
    try by auto.
  assert (timely tr) as Htime' by (intros tr2 tr1 i' t' ms r' ->; by apply (Htime (Ev j (te_now e) a r :: tr2) tr1 i' t' ms r')).
  specialize (IH Htime'). pose proof (last_time_le i _ _ _ _ Hx) as Hlast. unfold wait_ok in *. cbn [ghost last_time].
  case_bool_decide as Hj; [|exact IH]. subst j.
  pose proof (exec_along wait_upd wait_allowed wait_end Unstarted _ _ _ _ _ _ programs_wait Hx Hp) as [Hok _].
  destruct a; cbn [wait_upd]; try (destruct (ghost _ _ _ _) as [|d n c]; [done|]; destruct IH as (? & ? & ?);
    split; [lia|split; done]).
  - simpl in Hw. injection Hw as <- <-. destruct (ghost _ _ _ _) as [|d n c]; simpl; [lia|]. destruct IH as (? & ? & ?). lia.
  - destruct Hok as (-> & d & n & c & Hs & Hc). rewrite Hs in *. destruct IH as (H1 & H2 & H3).
    specialize (Htime [] tr i (te_now e) 50 r eq_refl). unfold QUEUE_WAIT, SECOND, MILLISECOND in *.
    split; [lia|]. split; [lia|done].
Qed.

(** ** The number of actions *)

Ltac bounded := repeat (first [progress cbn [within] | intros ? | case_match | done]).

Lemma add_latency_within n ms k : within n k -> within (S n) (add_latency ms k).
Proof. intros Hk. unfold add_latency. destruct (0 <? ms); [by intros ?|]. eapply within_mono; [done|lia]. Qed.

Lemma succeeded_within id v q l sealed : within 5 (succeeded cfg id v q l sealed).
Proof.
  unfold succeeded. destruct (negb _); intros ?; (apply (add_latency_within 3)); [done|].
  unfold award. bounded.
Qed.

Lemma execute_within headers req secret : within 10 (execute cfg headers req secret).
Proof.
  unfold execute. destruct (response_required _ && is_none secret); [bounded|].
  intros started [v|e|]; [..|done]; intros ?; cbn [respond].
  - intros now. destruct (response_required _), secret as [s|]; try (eapply within_mono; [apply succeeded_within|lia]).
    intros nonce. destruct (encrypt_response _ _ _ _); [apply succeeded_within|]. intros ?. by apply (add_latency_within 3).
  - intros now ?. by apply (add_latency_within 4).
Qed.

Lemma check_replay_within headers req : within 13 (check_replay cfg headers req).
Proof.
  assert (within 10 (open_payload cfg headers req)) as Ho.
  { unfold open_payload. destruct (negb _); [apply execute_within|].
    destruct (tq_iicp_conf req) as [conf|]; [|apply execute_within].
    destruct (ac_cx_private_key cfg) as [key|]; [|bounded].
    destruct (decrypt_payload_with_context conf key) as [[p s]|e|]; [apply execute_within|bounded|done]. }
  assert (within 12 (check_duplicate cfg headers req)) as Hd.
  { unfold check_duplicate. destruct (ac_enable_idempotency cfg); [|eapply within_mono; [exact Ho|lia]].
    destruct (str_is_empty _); [eapply within_mono; [exact Ho|lia]|]. intros now [|]; [exact Ho|bounded]. }
  unfold check_replay. destruct (tq_nonce req); [|eapply within_mono; [exact Hd|lia]]. intros [|]; [exact Hd|bounded].
Qed.

Lemma admit_wait_within fuel deadline : within (5 * fuel) (admit_wait cfg fuel deadline).
Proof.
  induction fuel as [|fuel IH]; [done|]. replace (5 * S fuel)%nat with (S (S (S (S (S (5 * fuel)))))) by lia.
  cbn [admit_wait within]. intros now. destruct (now <? deadline); [|done]. intros [] current prev.
  destruct (prev <? _); [done|]. by intros [].
Qed.

Definition MAX_TASK_ACTIONS : nat := 226.

Lemma task_endpoint_within headers body : within MAX_TASK_ACTIONS (task_endpoint cfg to_bytes headers body).
Proof.
  unfold task_endpoint. destruct (read_request_body _ _ _) as [encoded|e]; [|done].
  destruct (task_from_slice encoded) as [req|]; [|done].
  assert (within 222 (admission cfg headers req)) as Ha.
  { unfold admission. apply (within_bind 209 13); [|intros [[|]|]; [apply check_replay_within|done..]].
    unfold admit_slot, try_slot. intros current prev. destruct (prev <? _); [done|]. intros []. destruct (negb _); [done|].
    intros now. apply (admit_wait_within ADMIT_FUEL). }
  assert (within 225 (intent_gate cfg headers req)) as Hg.
  { unfold intent_gate, drain_guard. destruct (negb _); [done|]. intros st now.
    destruct (is_draining st now); [|eapply within_mono; [exact Ha|lia]]. intros now'.
    destruct (retry_after_s_at st now'); [done|exact Ha]. }
  unfold rate_gate. destruct (0 <? ac_task_rate_limit cfg); [|eapply within_mono; [exact Hg|unfold MAX_TASK_ACTIONS; lia]].
  destruct (header_str headers "origin"); [|eapply within_mono; [exact Hg|unfold MAX_TASK_ACTIONS; lia]].
  intros [|]; [exact Hg|done].
Qed.

(** ** What holds of a node *)

Definition handling (ts : list tprog) (i : nat) : bool :=
  match ts !! i with Some (Act (Handle _) _) => true | _ => false end.
Definition panicked (ts : list tprog) (i : nat) : bool :=
  match ts !! i with Some (Ret Panicked) => true | _ => false end.
Definition finished (p : tprog) : bool :=
  match p with Ret Panicked => false | Ret _ => true | Act _ _ => false end.

Lemma thread_slot tr t w ts i p :
  exec tr t w ts -> ts !! i = Some p -> along slot_upd slot_allowed slot_end (slot_of tr i) p.
Proof. intros Hx Hp. exact (exec_along slot_upd slot_allowed slot_end NoSlot _ _ _ _ _ _ programs_slotted Hx Hp). Qed.

(** C11: the slots of a node.  Under every interleaving of requests and heartbeats,
    with fewer than 2^64 of them: the active-jobs counter is the number of
    threads between their increment and their decrement; never more handlers run
    at once than the largest capacity any time of day allows; a request that
    panicked keeps its slot; and when all requests were answered the counter is
    zero. *)
Theorem task_slots_bounded tr t w ts :
  exec tr t w ts -> Z.of_nat (length ts) <= u64_max ->
  tw_active_jobs w = tally (occupies tr) (length ts) /\
  tally (handling ts) (length ts) <= peak_capacity (ac_availability cfg) (ac_max_concurrent cfg) /\
  tally (panicked ts) (length ts) <= tw_active_jobs w /\
  (forallb finished ts = true -> tw_active_jobs w = 0).
Proof.
  intros Hx Hlen. destruct (exec_slots _ _ _ _ Hx Hlen) as [Ha Hh]. split; [done|]. split; [|split].
  - etrans; [|exact Hh]. apply tally_le. intros i _ Hi. unfold handling in Hi. destruct (ts !! i) as [[|[] k]|] eqn:E; try done.
    destruct (thread_slot _ _ _ _ _ _ Hx E) as [Hs _]. unfold holds. by rewrite Hs.
  - rewrite Ha. apply tally_le. intros i _ Hi. unfold panicked in Hi. destruct (ts !! i) as [[[]|]|] eqn:E; try done.
    pose proof (thread_slot _ _ _ _ _ _ Hx E) as Hs. simpl in Hs. unfold occupies. by rewrite Hs.
  - intros Hf. rewrite Ha. rewrite (tally_ext _ (fun _ => false)).
    + clear. induction (length ts) as [|n IH]; [done|]. by rewrite tally_S, IH.
    + intros i Hi. apply lookup_lt_is_Some in Hi as [p Hp]. apply forallb_forall with (x:=p) in Hf;
        [|apply list_elem_of_In; by eapply list_elem_of_lookup_2].
      pose proof (thread_slot _ _ _ _ _ _ Hx Hp) as Hs. destruct p as [[]|]; try done; simpl in Hs; unfold occupies; by rewrite Hs.
Qed.

(** C15: every request ends.  A request performs at most 226 actions, and where
    sleeping takes the time asked for, no request is ever cut off while waiting
    for a slot: the waiting loop leaves by itself within forty rounds. *)
Theorem task_admission_terminates :
  (forall headers body ans, (length (run ans 0 (task_endpoint cfg to_bytes headers body)).1 <= MAX_TASK_ACTIONS)%nat) /\
  (forall tr t w ts i, exec tr t w ts -> timely tr -> ts !! i <> Some (Ret Stalled)).
Proof.
  split.
  - intros headers body ans. apply within_run, task_endpoint_within.
  - intros tr t w ts i Hx Ht Hs. pose proof (exec_wait _ _ _ _ i Hx Ht) as Hok.
    destruct (exec_along wait_upd wait_allowed wait_end Unstarted _ _ _ _ _ _ programs_wait Hx Hs) as (d & c & Hw).
    unfold wait_ok in Hok. rewrite Hw in Hok. destruct Hok as (_ & Hn & _). unfold ADMIT_FUEL in Hn. lia.
Qed.
End slots.
