(* ===== verification/NodeTaskReplay.v ===== *)
(** * Replay protection of the task endpoint

    Nonces and task identifiers under every interleaving, and the rate limit
    per origin. *)

From stdpp Require Import vector.
From S2P Require Import Prelude Program Concurrent Text Json Cbor HttpResource Gate ClientTypes ClientEffects Confidential Provider NodeTask.

(** ** One critical section *)

Lemma nonce_kept cache n now t0 :
  cache !! n = Some t0 -> now < t0 + NONCE_TTL_SECS * SECOND ->
  (filter (fun e => (now - e.2) / SECOND < NONCE_TTL_SECS) cache : gmap string Z) !! n = Some t0.
Proof.
  intros Hc Hn. apply map_lookup_filter_Some. split; [done|]. simpl. apply Z.div_lt_upper_bound; unfold SECOND in *; lia.
Qed.

Lemma guard_kept (m : gmap string Z) id now exp :
  m !! id = Some exp -> now < exp -> (filter (fun e => now < e.2) m : gmap string Z) !! id = Some exp.
Proof. intros Hc Hn. by apply map_lookup_filter_Some. Qed.

Lemma guard_ttl g id now : ttl (check_and_register g id now).2 = ttl g.
Proof. unfold check_and_register. destruct (str_is_empty id); [done|]. by destruct (filter _ (seen g) !! id). Qed.

Section replay.
Context {serde : TaskSerde} {crypto : CxCrypto} (cfg : app_config).
Context {Body : Type} (to_bytes : Body -> Z -> option (list byte)).

Notation exec := (Concurrent.exec (tperform (ac_task_rate_limit cfg)) te_now (node_program cfg to_bytes) tenv task_world_new).
Notation event := (Concurrent.event tresp).

(** ** Stamps are clock readings *)

Definition stamp_upd (s : Z) (a : task_action) : tresp a -> Z :=
  match a return tresp a -> Z with ReadClock => fun now => now | _ => fun _ => s end.
Definition stamp_allowed (s : Z) (a : task_action) : Prop :=
  match a with CheckTask id now => now = s /\ id <> EmptyString | _ => True end.
Notation stamped := (along stamp_upd stamp_allowed (fun _ _ => True)).

(** Programs without a duplicate check. *)
Definition unstamped {R} (p : prog tresp R) : Prop := acts (fun a => match a with CheckTask _ _ => False | _ => True end) p.

Lemma unstamped_stamped {R} s (p : prog tresp R) : unstamped p -> stamped s p.
Proof.
  unfold unstamped, acts. revert s. induction p as [o|a k IH]; intros s; cbn [along]; [done|].
  intros [Ha Hk]. split; [by destruct a|]. intros r. apply IH, Hk.
Qed.

Lemma succeeded_unstamped id v q l sealed : unstamped (succeeded cfg id v q l sealed).
Proof. unfold succeeded, add_latency, award, unstamped. by acts_split. Qed.

Lemma execute_unstamped headers req secret : unstamped (execute cfg headers req secret).
Proof.
  unfold execute, reject, respond, add_latency, unstamped.
  acts_split; first [exact I | apply succeeded_unstamped].
Qed.

Lemma open_payload_unstamped headers req : unstamped (open_payload cfg headers req).
Proof.
  unfold open_payload, reject, unstamped. acts_split; first [exact I | apply execute_unstamped].
Qed.

Lemma admit_unstamped qos : unstamped (admit_slot cfg qos).
Proof.
  assert (forall fuel d, unstamped (admit_wait cfg fuel d)) as Hw.
  { induction fuel as [|fuel IH]; intros d; [done|]. cbn [admit_wait]. unfold try_slot, unstamped.
    acts_split; first [exact I | apply IH]. }
  unfold admit_slot, try_slot, unstamped. acts_split; first [exact I | apply Hw].
Qed.

Lemma check_replay_stamped s headers req : stamped s (check_replay cfg headers req).
Proof.
  assert (forall s, stamped s (check_duplicate cfg headers req)) as Hd.
  { intros s'. unfold check_duplicate. pose proof (fun s => unstamped_stamped s _ (open_payload_unstamped headers req)) as Ho.
    destruct (ac_enable_idempotency cfg); [|apply Ho]. unfold str_is_empty.
    destruct (String.eqb_spec (tq_task_id req) empty_str) as [|Hne]; [apply Ho|].
    split; [done|]. intros now. split; [done|]. intros [|]; [apply Ho|]. by split. }
  unfold check_replay. destruct (tq_nonce req); [|apply Hd]. split; [done|]. intros [|]; [apply Hd|by split].
Qed.

Lemma heartbeat_unstamped n pending : unstamped (heartbeat_loop n pending).
Proof.
  revert pending. induction n as [|n IH]; intros pending; [done|]. cbn [heartbeat_loop]. unfold drain_counters, unstamped.
  acts_split; first [exact I | apply IH].
Qed.

Lemma programs_stamped q : node_program cfg to_bytes q -> stamped 0 q.
Proof.
  intros [headers body|n]; [|apply unstamped_stamped, heartbeat_unstamped].
  unfold task_endpoint. destruct (read_request_body _ _ _) as [encoded|e]; [|done].
  destruct (task_from_slice encoded) as [req|]; [|done].
  assert (forall s, stamped s (admission cfg headers req)) as Ha.
  { intros s. unfold admission. eapply along_bind; [apply unstamped_stamped, admit_unstamped|].
    intros s' [[|]|] _; [apply check_replay_stamped|done..]. }
  assert (forall s, stamped s (intent_gate cfg headers req)) as Hg.
  { intros s. unfold intent_gate, drain_guard. destruct (negb _); [done|]. split; [done|]. intros st. split; [done|]. intros now.
    destruct (is_draining st now); [|apply Ha]. split; [done|]. intros now'. destruct (retry_after_s_at st now'); [done|apply Ha]. }
  unfold rate_gate. destruct (0 <? ac_task_rate_limit cfg); [|apply Hg].
  destruct (header_str headers "origin"); [|apply Hg]. split; [done|]. intros [|]; [apply Hg|done].
Qed.

Lemma stamp_le tr t w ts i : exec tr t w ts -> 0 <= t /\ ghost stamp_upd 0 i tr <= t.
Proof.
  induction 1 as [|tr t w ts p Hx IH Hh|tr t w w2 ts Hx IH Henv|tr t w ts j a k e r w' Hx IH Hp Ht Hw]; try done.
  destruct IH as [H0 IH]. split; [lia|]. cbn [ghost]. case_bool_decide; [|lia].
  destruct a; simpl in *; simplify_eq; lia.
Qed.

(** What was accepted in an event. *)
Definition accepted_nonce (ev : event) : option (nat * Z * string) :=
  match ev with
  | Ev i t a r => match a return tresp a -> option (nat * Z * string) with
                  | CheckNonce n => fun ok => if ok then Some (i, t, n) else None
                  | _ => fun _ => None
                  end r
  end.
Definition accepted_task (ev : event) : option (nat * Z * string * Z) :=
  match ev with
  | Ev i t a r => match a return tresp a -> option (nat * Z * string * Z) with
                  | CheckTask id now => fun ok => if ok then Some (i, t, id, now) else None
                  | _ => fun _ => None
                  end r
  end.

Lemma nonce_event_eq i t n j t' a r : Ev i t (CheckNonce n) true = Ev j t' a r -> accepted_nonce (Ev j t' a r) = Some (i, t, n).
Proof. by intros <-. Qed.
Lemma task_event_eq i t id now j t' a r :
  Ev i t (CheckTask id now) true = Ev j t' a r -> accepted_task (Ev j t' a r) = Some (i, t, id, now).
Proof. by intros <-. Qed.

(** ** The caches remember what was accepted *)

Definition nonces_ok (t : Z) (tr : list event) (w : task_world) : Prop :=
  forall i t0 n, Ev i t0 (CheckNonce n) true ∈ tr -> t < t0 + NONCE_TTL_SECS * SECOND -> tw_nonce_cache w !! n = Some t0.
Definition tasks_ok (t : Z) (tr : list event) (w : task_world) : Prop :=
  forall i t0 id now, Ev i t0 (CheckTask id now) true ∈ tr -> t < now + IDEMPOTENCY_TTL ->
    seen (tw_idempotency w) !! id = Some (now + IDEMPOTENCY_TTL).
Definition caches_ok (t : Z) (tr : list event) (w : task_world) : Prop :=
  nonces_ok t tr w /\ tasks_ok t tr w /\ ttl (tw_idempotency w) = IDEMPOTENCY_TTL.

(** Accepting twice needs the lifetime to pass. *)
Definition apart (tr : list event) : Prop :=
  (forall tr3 j t2 n tr2, tr = tr3 ++ Ev j t2 (CheckNonce n) true :: tr2 ->
     forall i t1, Ev i t1 (CheckNonce n) true ∈ tr2 -> t1 + NONCE_TTL_SECS * SECOND <= t2) /\
  (forall tr3 j t2 id now2 tr2, tr = tr3 ++ Ev j t2 (CheckTask id now2) true :: tr2 ->
     forall i t1 now1, Ev i t1 (CheckTask id now1) true ∈ tr2 -> now1 <= t1 /\ now1 + IDEMPOTENCY_TTL <= t2).

(** Only the two checks touch the caches. *)
Lemma perform_caches w e a r w' :
  tperform (ac_task_rate_limit cfg) w e a = (r, w') ->
  match a return tresp a -> Prop with
  | CheckNonce n => fun r => (r, tw_nonce_cache w') = nonce_check (tw_nonce_cache w) n (te_now e) /\ tw_idempotency w' = tw_idempotency w
  | CheckTask id now => fun r => (r, tw_idempotency w') = check_and_register (tw_idempotency w) id now /\ tw_nonce_cache w' = tw_nonce_cache w
  | _ => fun _ => tw_nonce_cache w' = tw_nonce_cache w /\ tw_idempotency w' = tw_idempotency w
  end r.
Proof.
  intros E. destruct a; simpl in E; try (injection E as <- <-; done).
  - by destruct (task_rate_step _ _ _ _); injection E as <- <-.
  - by destruct (nonce_check _ _ _); injection E as <- <-.
  - by destruct (check_and_register _ _ _); injection E as <- <-.
Qed.

(** A nonce check keeps the cache in step, and accepts only what is old. *)
Lemma nonce_step t tr w e i n r w' :
  t <= te_now e -> nonces_ok t tr w -> (r, tw_nonce_cache w') = nonce_check (tw_nonce_cache w) n (te_now e) ->
  nonces_ok (te_now e) (Ev i (te_now e) (CheckNonce n) r :: tr) w' /\
  (r = true -> forall i1 t1, Ev i1 t1 (CheckNonce n) true ∈ tr -> t1 + NONCE_TTL_SECS * SECOND <= te_now e).
Proof.
  intros Ht Hok Hs. unfold nonce_check in Hs.
  destruct (filter _ (tw_nonce_cache w) !! n) as [x|] eqn:El; injection Hs as -> Hw.
  - split; [|done]. intros j t0 m [Heq%nonce_event_eq|Hin]%elem_of_cons Hlt; [done|]. rewrite Hw.
    apply nonce_kept; [|done]. eapply Hok; [done|lia].
  - assert (forall i1 t1, Ev i1 t1 (CheckNonce n) true ∈ tr -> t1 + NONCE_TTL_SECS * SECOND <= te_now e) as Hold.
    { intros i1 t1 Hin. destruct (Z.le_gt_cases (t1 + NONCE_TTL_SECS * SECOND) (te_now e)) as [|Hlt]; [done|].
      rewrite (nonce_kept _ n (te_now e) t1) in El; [done| |lia]. eapply Hok; [done|lia]. }
    split; [|done]. intros j t0 m [Heq%nonce_event_eq|Hin]%elem_of_cons Hlt; rewrite Hw.
    + injection Heq as <- <- <-. by rewrite lookup_insert_eq.
    + destruct (decide (m = n)) as [->|Hne]; [specialize (Hold _ _ Hin); lia|].
      rewrite lookup_insert_ne by done. apply nonce_kept; [|done]. eapply Hok; [done|lia].
Qed.

Lemma task_step t tr w e i id now r w' :
  t <= te_now e -> now <= t -> id <> EmptyString -> tasks_ok t tr w -> ttl (tw_idempotency w) = IDEMPOTENCY_TTL ->
  (r, tw_idempotency w') = check_and_register (tw_idempotency w) id now ->
  tasks_ok (te_now e) (Ev i (te_now e) (CheckTask id now) r :: tr) w' /\ ttl (tw_idempotency w') = IDEMPOTENCY_TTL /\
  (r = true -> forall i1 t1 now1, Ev i1 t1 (CheckTask id now1) true ∈ tr -> now1 + IDEMPOTENCY_TTL <= te_now e).
Proof.
  intros Ht Hnow Hid Hok Httl Hs. pose proof (guard_ttl (tw_idempotency w) id now) as Hg. rewrite <- Hs, Httl in Hg.
  unfold check_and_register, str_is_empty in Hs. destruct (String.eqb_spec id empty_str); [done|].
  destruct (filter _ (seen (tw_idempotency w)) !! id) as [x|] eqn:El; injection Hs as -> Hw.
  - split; [|by split]. intros j t0 m n0 [Heq%task_event_eq|Hin]%elem_of_cons Hlt; [done|]. rewrite Hw.
    apply guard_kept; [|lia]. eapply Hok; [done|lia].
  - assert (forall i1 t1 now1, Ev i1 t1 (CheckTask id now1) true ∈ tr -> now1 + IDEMPOTENCY_TTL <= te_now e) as Hold.
    { intros i1 t1 now1 Hin. destruct (Z.le_gt_cases (now1 + IDEMPOTENCY_TTL) (te_now e)) as [|Hlt]; [done|].
      rewrite (guard_kept _ id now (now1 + IDEMPOTENCY_TTL)) in El; [done| |lia]. eapply Hok; [done|lia]. }
    split; [|by split]. intros j t0 m n0 [Heq%task_event_eq|Hin]%elem_of_cons Hlt; rewrite Hw; cbn [seen].
    + injection Heq as <- <- <- <-. by rewrite lookup_insert_eq, Httl.
    + destruct (decide (m = id)) as [->|Hne]; [specialize (Hold _ _ _ Hin); lia|].
      rewrite lookup_insert_ne by done. apply guard_kept; [|lia]. eapply Hok; [done|lia].
Qed.

(** Other actions only let time pass. *)
Lemma caches_other t tr w e i a r w' :
  t <= te_now e -> accepted_nonce (Ev i (te_now e) a r) = None -> accepted_task (Ev i (te_now e) a r) = None ->
  tw_nonce_cache w' = tw_nonce_cache w -> tw_idempotency w' = tw_idempotency w ->
  caches_ok t tr w -> caches_ok (te_now e) (Ev i (te_now e) a r :: tr) w'.
Proof.
  intros Ht Hn Hk Hwn Hwi (H1 & H2 & H3). split; [|split].
  - intros j t0 n [Heq%nonce_event_eq|Hin]%elem_of_cons Hlt; [congruence|]. rewrite Hwn. eapply H1; [done|lia].
  - intros j t0 id now [Heq%task_event_eq|Hin]%elem_of_cons Hlt; [congruence|]. rewrite Hwi. eapply H2; [done|lia].
  - by rewrite Hwi.
Qed.

Lemma cons_eq {A} (x y : A) l k : x :: l = y :: k -> x = y /\ l = k.
Proof. by intros [= -> ->]. Qed.

(** What the newest event has to satisfy. *)
Definition newest_apart (tr : list event) (ev : event) : Prop :=
  (forall j t2 n, accepted_nonce ev = Some (j, t2, n) ->
     forall i t1, Ev i t1 (CheckNonce n) true ∈ tr -> t1 + NONCE_TTL_SECS * SECOND <= t2) /\
  (forall j t2 id now2, accepted_task ev = Some (j, t2, id, now2) ->
     forall i t1 now1, Ev i t1 (CheckTask id now1) true ∈ tr -> now1 + IDEMPOTENCY_TTL <= t2).

Definition stamps_ok (tr : list event) : Prop :=
  forall i t1 id now, Ev i t1 (CheckTask id now) true ∈ tr -> now <= t1.

Lemma apart_cons tr ev : stamps_ok tr -> apart tr -> newest_apart tr ev -> apart (ev :: tr).
Proof.
  intros Hst [Hn Ht] [Hn' Ht']. split.
  - intros [|ev' tr3] j t2 n tr2 [Heq ->]%cons_eq; [|by eapply Hn]. apply (Hn' j t2 n). by rewrite Heq.
  - intros [|ev' tr3] j t2 id now2 tr2 [Heq ->]%cons_eq; [|by eapply Ht]. intros i t1 now1 Hin. split; [by eapply Hst|].
    eapply (Ht' j t2 id now2); [by rewrite Heq|done].
Qed.

Lemma caches_step t tr w e i a r w' s :
  t <= te_now e -> s <= t -> stamp_allowed s a -> caches_ok t tr w -> tperform (ac_task_rate_limit cfg) w e a = (r, w') ->
  caches_ok (te_now e) (Ev i (te_now e) a r :: tr) w' /\ newest_apart tr (Ev i (te_now e) a r) /\
  (forall id now, a = CheckTask id now -> now <= te_now e).
Proof.
  intros Ht Hle Hal Hok Hw. pose proof (perform_caches _ _ _ _ _ Hw) as Hc.
  destruct a; try (split; [apply (caches_other t tr w); try done; apply Hc|by split]).
  - destruct Hc as [Hc Hi]. destruct Hok as (H1 & H2 & H3). destruct (nonce_step _ _ _ _ i _ _ _ Ht H1 Hc) as [H1' Hacc].
    split; [split; [done|split]|split; [split|done]].
    + intros j t0 id now [Heq%task_event_eq|Hin]%elem_of_cons Hlt; [done|]. rewrite Hi. eapply H2; [done|lia].
    + by rewrite Hi.
    + intros j t2 n'. simpl. destruct r; [|done]. intros [= <- <- <-]. by apply Hacc.
    + done.
  - destruct Hc as [Hc Hi]. destruct Hok as (H1 & H2 & H3). destruct Hal as [-> Hid].
    destruct (task_step _ _ _ _ i _ _ _ _ Ht Hle Hid H2 H3 Hc) as (H2' & H3' & Hacc).
    split; [split; [|by split]|split; [split|]].
    + intros j t0 n [Heq%nonce_event_eq|Hin]%elem_of_cons Hlt; [done|]. rewrite Hi. eapply H1; [done|lia].
    + done.
    + intros j t2 id' now'. simpl. destruct r; [|done]. intros [= <- <- <- <-]. by apply Hacc.
    + intros id' now' [= <- <-]. lia.
Qed.

Lemma exec_caches tr t w ts : exec tr t w ts -> caches_ok t tr w /\ apart tr /\ stamps_ok tr.
Proof.
  induction 1 as [|tr t w ts p Hx IH Hh|tr t w w2 ts Hx IH Henv|tr t w ts i a k e r w' Hx IH Hp Ht Hw]; try by auto.
  - split; [|split].
    + split; [|split; [|done]]; [intros i t0 n H|intros i t0 id now H]; by apply elem_of_nil in H.
    + split; [intros [|] j t2 n tr2|intros [|] j t2 id now2 tr2]; done.
    + intros i t1 id now H. by apply elem_of_nil in H.
  - destruct Henv as (o & h & tk & ->). exact IH.
  - destruct IH as (Hok & Hap & Hst).
    pose proof (exec_along stamp_upd stamp_allowed (fun _ _ => True) 0 _ _ _ _ _ _ programs_stamped Hx Hp) as [Hal _].
    destruct (stamp_le _ _ _ _ i Hx) as [_ Hle]. destruct (caches_step _ _ _ _ i _ _ _ _ Ht Hle Hal Hok Hw) as (H1 & H2 & H3).
    split; [done|]. split; [by apply apart_cons|].
    intros j t1 id now [Heq|Hin]%elem_of_cons; [|by eapply Hst].
    assert (a = CheckTask id now /\ t1 = te_now e) as [-> ->] by (by inversion Heq). by eapply H3.
Qed.

(** C14: nothing is accepted twice within its lifetime.  Under every interleaving
    of requests, two requests with the same nonce are both accepted only if at
    least 300 seconds passed between the two checks; and where identifiers are
    deduplicated, a second task with the same identifier is registered only if
    300 seconds have passed since the first one read the clock. *)
Theorem task_accepted_once tr t w ts :
  exec tr t w ts ->
  (forall tr3 ev tr2 j t2 n i t1, tr = tr3 ++ ev :: tr2 -> accepted_nonce ev = Some (j, t2, n) ->
     Ev i t1 (CheckNonce n) true ∈ tr2 -> t1 + 300 * SECOND <= t2) /\
  (forall tr3 ev tr2 j t2 id now2 i t1 now1, tr = tr3 ++ ev :: tr2 -> accepted_task ev = Some (j, t2, id, now2) ->
     Ev i t1 (CheckTask id now1) true ∈ tr2 -> now1 <= t1 /\ now1 + 300 * SECOND <= t2).
Proof.
  intros Hx. destruct (exec_caches _ _ _ _ Hx) as (_ & [Hn Hk] & _). split.
  - intros tr3 [j' t2' a r] tr2 j t2 n i t1 E Ha Hin. destruct a; try done. simpl in Ha. destruct r; [|done].
    injection Ha as -> -> ->. exact (Hn _ _ _ _ _ E _ _ Hin).
  - intros tr3 [j' t2' a r] tr2 j t2 id now2 i t1 now1 E Ha Hin. destruct a; try done. simpl in Ha. destruct r; [|done].
    injection Ha as -> -> -> ->. exact (Hk _ _ _ _ _ _ E _ _ _ Hin).
Qed.
End replay.
