(* ===== verification/NodeTaskGates.v ===== *)
(** * What one task request does

    Along every path of the task endpoint: the handler runs at most once and
    only behind all gates, the reply says what the handler answered, and every
    handled task is counted once. *)

From stdpp Require Import vector.
From S2P Require Import Prelude Program Text Json Cbor HttpResource Gate ClientTypes ClientEffects Confidential Provider NodeTask.

Notation trace := (list (step tresp)).

(** ** Reading a trace *)

Definition handled_in (x : step tresp) : option (TaskRequest * outcome json) :=
  match x with
  | Did a r => match a return tresp a -> option (TaskRequest * outcome json) with
               | Handle q => fun o => Some (q, o)
               | _ => fun _ => None
               end r
  end.
Definition counted_in (x : step tresp) : option bool :=
  match x with Did a _ => match a with AddSuccess => Some true | AddFailed => Some false | _ => None end end.
Definition receipt_in (x : step tresp) : option receipt :=
  match x with Did a _ => match a with SpawnReceipt r => Some r | _ => None end end.

(** The handler's calls, the outcomes counted and the receipts, in order. *)
Definition handled (tr : trace) : list (TaskRequest * outcome json) := omap handled_in tr.
Definition counted (tr : trace) : list bool := omap counted_in tr.
Definition receipts (tr : trace) : list receipt := omap receipt_in tr.

Lemma omap_snoc {A B} (f : A -> option B) l x : omap f (l ++ [x]) = omap f l ++ option_list (f x).
Proof. rewrite omap_app. simpl. by destruct (f x). Qed.

Section gates.
Context {serde : TaskSerde} {crypto : CxCrypto} (cfg : app_config).
Context {Body : Type} (to_bytes : Body -> Z -> option (list byte)).

(** ** What has to happen before the handler *)

Record gated (headers : HeaderMap) (req : TaskRequest) (tr : trace) : Prop := {
  gt_rate : 0 < ac_task_rate_limit cfg -> forall origin, header_str headers "origin" = Some origin ->
    Did (resp:=tresp) (RateAllow origin) true ∈ tr;
  gt_intent : permits_intent (ac_cip_policy cfg) (tq_intent req) = true;
  gt_drain : exists st now, Did (resp:=tresp) ReadStability st ∈ tr /\ Did (resp:=tresp) ReadUnix now ∈ tr /\
    is_draining st now = false
}.
Definition admitted (tr : trace) : Prop :=
  exists current prev, Did (resp:=tresp) ReadHhmm current ∈ tr /\ Did (resp:=tresp) FetchAdd prev ∈ tr /\
    prev < effective_max_concurrent cfg current.
Definition fresh (req : TaskRequest) (tr : trace) : Prop :=
  (forall n, tq_nonce req = Some n -> Did (resp:=tresp) (CheckNonce n) true ∈ tr) /\
  (ac_enable_idempotency cfg = true -> tq_task_id req <> EmptyString ->
     exists now, Did (resp:=tresp) (CheckTask (tq_task_id req) now) true ∈ tr).

(** The request as the handler gets it, with the secret of its envelope. *)
Definition opened (headers : HeaderMap) (req q : TaskRequest) (secret : option (list byte)) : Prop :=
  (secret = None /\ q = with_trace req headers /\ (tq_payload req <> JNull \/ tq_iicp_conf req = None)) \/
  (exists conf key p s, tq_payload req = JNull /\ tq_iicp_conf req = Some conf /\ ac_cx_private_key cfg = Some key /\
     decrypt_payload_with_context conf key = Val (p, s) /\ secret = Some s /\ q = with_trace (with_clear_payload req p) headers).

Definition cleared (headers : HeaderMap) (req q : TaskRequest) (secret : option (list byte)) (tr : trace) : Prop :=
  gated headers req tr /\ admitted tr /\ fresh req tr /\ opened headers req q secret /\
  (response_required q = true -> is_Some secret).

(** ** How a handled request ends *)

(** The receipt a counted success may cause. *)
Definition receipt_for (q : TaskRequest) (v : json) (tr : trace) (r : receipt) : Prop :=
  Did (resp:=tresp) ReadHmacKey (rc_hmac_key r) ∈ tr /\ rc_hmac_key r <> EmptyString /\
  Did (resp:=tresp) ReadToken (rc_token r) ∈ tr /\ rc_node_id r = ac_node_id cfg /\ rc_task_id r = tq_task_id q /\
  rc_tokens_used r = tokens_used v /\ rc_result r = v /\ rc_querying_node_id r = tq_source_node_id q.

(** The envelope of a reply that had to be sealed. *)
Definition sealed_for (q : TaskRequest) (secret : option (list byte)) (v : json) (sealed : option envelope) : Prop :=
  if response_required q
  then exists s (nonce : vec byte 12) env, secret = Some s /\ sealed = Some env /\
         encrypt_response nonce (plain_response (tq_task_id q) v) s (tq_task_id q) = Ok env
  else sealed = None.

Definition reply_ok (q : TaskRequest) (secret : option (list byte)) (o : outcome json) (tr : trace) (r : http_reply) : Prop :=
  match o with
  | Panic => False
  | Fail _ => r = error_response (tq_task_id q) "task execution failed" /\ counted tr = [false] /\ receipts tr = []
  | Val v =>
      (r = error_response (tq_task_id q) "task response encryption failed" /\ counted tr = [false] /\ receipts tr = [] /\
       response_required q = true) \/
      (exists sealed, sealed_for q secret v sealed /\ r = success_response (tq_task_id q) v sealed /\
         ((rp_status r <> 200 /\ counted tr = [false] /\ receipts tr = []) \/
          (rp_status r = 200 /\ counted tr = [true] /\
           (receipts tr = [] \/ exists rc, receipts tr = [rc] /\ receipt_for q v tr rc))))
  end.

(** Nothing was handled, counted or awarded yet. *)
Definition quiet (tr : trace) : Prop := handled tr = [] /\ counted tr = [] /\ receipts tr = [].

Definition gate_ok (headers : HeaderMap) (body : Body) (tr : trace) (a : task_action) : Prop :=
  match a with
  | Handle q => quiet tr /\ exists encoded req secret, read_request_body to_bytes headers body = Ok encoded /\
      task_from_slice encoded = Some req /\ cleared headers req q secret tr
  | _ => True
  end.

Definition end_ok (headers : HeaderMap) (body : Body) (tr : trace) (o : task_end) : Prop :=
  match o with
  | Replied r =>
      (quiet tr /\ 400 <= rp_status r) \/
      (exists q o encoded req secret, handled tr = [(q, o)] /\ read_request_body to_bytes headers body = Ok encoded /\
         task_from_slice encoded = Some req /\ cleared headers req q secret tr /\ reply_ok q secret o tr r)
  | _ => counted tr = [] /\ receipts tr = []
  end.

(** ** Growing traces *)

Lemma handled_snoc tr x : handled (tr ++ [x]) = handled tr ++ option_list (handled_in x).
Proof. apply omap_snoc. Qed.
Lemma counted_snoc tr x : counted (tr ++ [x]) = counted tr ++ option_list (counted_in x).
Proof. apply omap_snoc. Qed.
Lemma receipts_snoc tr x : receipts (tr ++ [x]) = receipts tr ++ option_list (receipt_in x).
Proof. apply omap_snoc. Qed.

Lemma gated_snoc headers req tr x : gated headers req tr -> gated headers req (tr ++ [x]).
Proof.
  intros [Hr Hi (st & now & H1 & H2 & H3)]. split; [intros; apply elem_of_app; left; auto|done|].
  exists st, now. split; [apply elem_of_app; by left|]. split; [apply elem_of_app; by left|done].
Qed.
Lemma admitted_snoc tr x : admitted tr -> admitted (tr ++ [x]).
Proof.
  intros (c & p & H1 & H2 & H3). exists c, p. split; [apply elem_of_app; by left|]. split; [apply elem_of_app; by left|done].
Qed.
Lemma fresh_snoc req tr x : fresh req tr -> fresh req (tr ++ [x]).
Proof.
  intros [H1 H2]. split; [intros; apply elem_of_app; left; auto|]. intros He Hn. destruct (H2 He Hn) as [now H].
  exists now. apply elem_of_app. by left.
Qed.
Lemma cleared_snoc headers req q secret tr x : cleared headers req q secret tr -> cleared headers req q secret (tr ++ [x]).
Proof.
  intros (H1 & H2 & H3 & H4). split; [by apply gated_snoc|]. split; [by apply admitted_snoc|]. split; [by apply fresh_snoc|done].
Qed.

(** ** After the handler *)

Section request.
Context (headers : HeaderMap) (body : Body) (encoded : list byte) (req : TaskRequest).
Context (Hread : read_request_body to_bytes headers body = Ok encoded) (Hreq : task_from_slice encoded = Some req).

Notation paths := (along log (gate_ok headers body) (end_ok headers body)).

(** The state after a handler call: what was counted so far. *)
Record after (q : TaskRequest) (secret : option (list byte)) (o : outcome json) (c : list bool) (tr : trace) : Prop := {
  af_handled : handled tr = [(q, o)];
  af_counted : counted tr = c;
  af_receipts : receipts tr = [];
  af_cleared : cleared headers req q secret tr
}.

Lemma after_log q secret o c tr a (r : tresp a) :
  handled_in (Did a r) = None -> receipt_in (Did a r) = None ->
  after q secret o c tr -> after q secret o (c ++ option_list (counted_in (Did a r))) (log tr a r).
Proof.
  intros Hh Hr [H1 H2 H3 H4]. unfold log.
  split; [by rewrite handled_snoc, Hh, H1|by rewrite counted_snoc, H2|by rewrite receipts_snoc, Hr, H3|by apply cleared_snoc].
Qed.

(** The end of a handled request. *)
Lemma replied_ok q secret o c tr r :
  after q secret o c tr -> reply_ok q secret o tr r -> end_ok headers body tr (Replied r).
Proof. intros [H1 H2 H3 H4] Hr. right. by exists q, o, encoded, req, secret. Qed.

Lemma add_latency_paths (P : trace -> Prop) tr ms k :
  (forall tr a r, P tr -> counted_in (Did a r) = None -> handled_in (Did a r) = None -> receipt_in (Did a r) = None ->
     P (log tr a r)) ->
  P tr -> (forall tr, P tr -> paths tr k) -> paths tr (add_latency ms k).
Proof.
  intros Hp H Hk. unfold add_latency. destruct (0 <? ms); [|by apply Hk]. split; [done|]. intros r. apply Hk. by apply Hp.
Qed.

Lemma after_stable q secret o c tr a (r : tresp a) :
  after q secret o c tr -> counted_in (Did a r) = None -> handled_in (Did a r) = None -> receipt_in (Did a r) = None ->
  after q secret o c (log tr a r).
Proof.
  intros H Hc Hh Hr. pose proof (after_log _ _ _ _ _ _ r Hh Hr H) as H'. rewrite Hc in H'. simpl in H'. by rewrite app_nil_r in H'.
Qed.

Lemma award_paths q secret v sealed tr :
  after q secret (Val v) [true] tr -> sealed_for q secret v sealed ->
  rp_status (success_response (tq_task_id q) v sealed) = 200 ->
  paths tr (award cfg (tq_task_id q) v (tq_source_node_id q) (success_response (tq_task_id q) v sealed)).
Proof.
  intros Ha Hs H200. unfold award. split; [done|]. intros key.
  assert (after q secret (Val v) [true] (log tr ReadHmacKey key)) as Ha1 by (by apply after_stable).
  unfold str_is_empty. destruct (String.eqb_spec key empty_str) as [|Hk].
  - eapply replied_ok; [exact Ha1|]. right. exists sealed. split; [done|]. split; [done|]. right. split; [done|].
    split; [apply Ha1|]. left. apply Ha1.
  - split; [done|]. intros token. set (tr2 := log (log tr ReadHmacKey key) ReadToken token).
    assert (after q secret (Val v) [true] tr2) as Ha2 by (by apply after_stable).
    split; [done|]. intros u.
    set (rc := mkTaskReceipt token key (ac_node_id cfg) (tq_task_id q) (tokens_used v) v (tq_source_node_id q)).
    right. destruct Ha2 as [A1 A2 A3 A4]. exists q, (Val v), encoded, req, secret. unfold log at 1.
    split; [by rewrite handled_snoc, A1|]. split; [done|]. split; [done|]. split; [by apply cleared_snoc|].
    right. exists sealed. split; [done|]. split; [done|]. right. split; [done|].
    split; [unfold log at 1; by rewrite counted_snoc, A2|]. right. exists rc.
    split; [unfold log at 1; by rewrite receipts_snoc, A3|].
    split; [|split; [exact Hk|split; [|done]]].
    + apply elem_of_app. left. apply elem_of_app. left. apply elem_last.
    + apply elem_of_app. left. apply elem_last.
Qed.

Lemma failed_paths q secret o tr ms r :
  after q secret o [] tr -> (forall tr, after q secret o [false] tr -> reply_ok q secret o tr r) ->
  paths tr (Act AddFailed (fun _ => add_latency ms (Ret (Replied r)))).
Proof.
  intros Ha Hr. split; [done|]. intros u. apply (add_latency_paths (after q secret o [false])).
  - intros. by apply after_stable.
  - by apply (after_log _ _ _ [] _ AddFailed u).
  - intros tr' Ha'. eapply replied_ok; [exact Ha'|]. by apply Hr.
Qed.

Lemma succeeded_paths q secret v sealed ms tr :
  after q secret (Val v) [] tr -> sealed_for q secret v sealed ->
  paths tr (succeeded cfg (tq_task_id q) v (tq_source_node_id q) ms sealed).
Proof.
  intros Ha Hs. unfold succeeded.
  destruct (Z.eqb_spec (rp_status (success_response (tq_task_id q) v sealed)) 200) as [H200|H200]; cbn [negb].
  - split; [done|]. intros u. apply (add_latency_paths (after q secret (Val v) [true])).
    + intros. by apply after_stable.
    + by apply (after_log _ _ _ [] _ AddSuccess u).
    + intros tr' Ha'. by eapply award_paths.
  - apply (failed_paths q secret (Val v)); [done|]. intros tr' [A1 A2 A3 A4]. right. exists sealed.
    split; [done|]. split; [done|]. by left.
Qed.

Lemma respond_paths q secret started o tr :
  after q secret o [] tr -> o <> Panic -> (response_required q = true -> is_Some secret) ->
  paths tr (respond cfg (tq_task_id q) (response_required q) secret (tq_source_node_id q) started o).
Proof.
  intros Ha Ho Hsec. destruct o as [v|e|]; [| |done]; cbn [respond]; (split; [done|]); intros now.
  all: assert (after q secret _ [] (log tr ReadClock now)) as Ha1 by (by apply after_stable; [exact Ha|..]).
  - destruct (response_required q) eqn:Eq; [|apply (succeeded_paths q secret); [done|unfold sealed_for; by rewrite Eq]].
    destruct Hsec as [s ->]; [done|]. split; [done|]. intros nonce.
    assert (after q (Some s) (Val v) [] (log (log tr ReadClock now) RandomNonce nonce)) as Ha2 by (by apply after_stable).
    destruct (encrypt_response _ _ _ _) as [env|err] eqn:Ee.
    + apply (succeeded_paths q (Some s)); [done|]. unfold sealed_for. rewrite Eq. by exists s, nonce, env.
    + apply (failed_paths q (Some s) (Val v)); [done|]. intros tr' [A1 A2 A3 A4]. left. done.
  - apply (failed_paths q secret (Fail e)); [done|]. intros tr' [A1 A2 A3 A4]. done.
Qed.

(** ** Before the handler *)

(** An action that neither calls the handler nor counts nor awards. *)
Definition silent (a : task_action) : bool :=
  match a with Handle _ | AddSuccess | AddFailed | SpawnReceipt _ => false | _ => true end.

Lemma quiet_log tr a (r : tresp a) : silent a = true -> quiet tr -> quiet (log tr a r).
Proof.
  intros Ha (H1 & H2 & H3). unfold quiet, log. rewrite handled_snoc, counted_snoc, receipts_snoc, H1, H2, H3. by destruct a.
Qed.

Lemma silent_ok tr a : silent a = true -> gate_ok headers body tr a.
Proof. by destruct a. Qed.

Lemma refused_ok tr r : quiet tr -> 400 <= rp_status r -> end_ok headers body tr (Replied r).
Proof. intros Hq Hr. left. done. Qed.

Lemma reject_paths tr r : quiet tr -> 400 <= rp_status r -> paths tr (reject r).
Proof. intros Hq Hr. split; [done|]. intros u. apply refused_ok; [by apply quiet_log|done]. Qed.

Lemma panicked_ok tr : counted tr = [] -> receipts tr = [] -> end_ok headers body tr Panicked.
Proof. done. Qed.

Lemma execute_paths req' secret tr :
  quiet tr -> gated headers req tr -> admitted tr -> fresh req tr -> opened headers req (with_trace req' headers) secret ->
  paths tr (execute cfg headers req' secret).
Proof.
  intros Hq Hg Ha Hf Ho. unfold execute. set (q := with_trace req' headers) in *.
  destruct (response_required q && is_none secret) eqn:Er; [by apply reject_paths|].
  assert (response_required q = true -> is_Some secret) as Hsec.
  { intros Hr. rewrite Hr in Er. destruct secret; [by eexists|done]. }
  split; [done|]. intros started. set (tr1 := log tr ReadClock started).
  assert (quiet tr1) as Hq1 by (by apply quiet_log).
  assert (cleared headers req q secret tr1) as Hc.
  { split; [by apply gated_snoc|]. split; [by apply admitted_snoc|]. split; [by apply fresh_snoc|done]. }
  split; [split; [done|]; by exists encoded, req, secret|]. intros o.
  assert (after q secret o [] (log tr1 (Handle q) o)) as Haf.
  { destruct Hq1 as (H1 & H2 & H3). unfold log at 1. split.
    - by rewrite handled_snoc, H1.
    - by rewrite counted_snoc, H2.
    - by rewrite receipts_snoc, H3.
    - by apply cleared_snoc. }
  destruct o as [v|e|]; [| |split; [apply Haf|apply Haf]]; (split; [done|]); intros u;
    (apply respond_paths; [by apply after_stable|done|done]).
Qed.

Lemma open_payload_paths tr :
  quiet tr -> gated headers req tr -> admitted tr -> fresh req tr -> paths tr (open_payload cfg headers req).
Proof.
  intros Hq Hg Ha Hf. unfold open_payload.
  assert (tq_payload req <> JNull \/ tq_iicp_conf req = None -> paths tr (execute cfg headers req None)) as Hplain.
  { intros Hp. apply execute_paths; [done..|]. left. done. }
  destruct (tq_payload req) eqn:Ep; cbn [is_null negb]; try (by apply Hplain; left).
  destruct (tq_iicp_conf req) as [conf|] eqn:Ec; [|by apply Hplain; right].
  destruct (ac_cx_private_key cfg) as [key|] eqn:Ek; [|by apply reject_paths].
  destruct (decrypt_payload_with_context conf key) as [[p s]|e|] eqn:Ed;
    [|by apply reject_paths|destruct Hq as (_ & ? & ?); done].
  apply execute_paths; [done..|]. right. by exists conf, key, p, s.
Qed.

Lemma check_replay_paths tr : quiet tr -> gated headers req tr -> admitted tr -> paths tr (check_replay cfg headers req).
Proof.
  intros Hq Hg Ha.
  assert (forall tr, quiet tr -> gated headers req tr -> admitted tr ->
    (forall n, tq_nonce req = Some n -> Did (resp:=tresp) (CheckNonce n) true ∈ tr) ->
    paths tr (check_duplicate cfg headers req)) as Hd.
  { clear tr Hq Hg Ha. intros tr Hq Hg Ha Hn. unfold check_duplicate. destruct (ac_enable_idempotency cfg) eqn:Ei.
    2:{ apply open_payload_paths; [done..|]. split; [done|]. congruence. }
    unfold str_is_empty. destruct (String.eqb_spec (tq_task_id req) empty_str) as [He|He].
    { apply open_payload_paths; [done..|]. split; [done|]. intros _ H. by destruct H. }
    split; [done|]. intros now. split; [done|]. intros [|].
    - apply open_payload_paths; [by do 2 (apply quiet_log; [done|])|by do 2 apply gated_snoc|by do 2 apply admitted_snoc|].
      split; [intros n Hs; do 2 (apply elem_of_app; left); auto|]. intros _ _. exists now. apply elem_last.
    - apply reject_paths; [by do 2 (apply quiet_log; [done|])|done]. }
  unfold check_replay. destruct (tq_nonce req) as [n|] eqn:En; [|by apply Hd].
  split; [done|]. intros [|].
  - apply Hd; [by apply quiet_log|by apply gated_snoc|by apply admitted_snoc|]. intros n' [= <-]. apply elem_last.
  - apply reject_paths; [by apply quiet_log|done].
Qed.

(** Taking a slot. *)
Definition before_slot (tr : trace) : Prop := quiet tr /\ gated headers req tr.
Lemma before_slot_log tr a (r : tresp a) : silent a = true -> before_slot tr -> before_slot (log tr a r).
Proof. intros Ha [Hq Hg]. split; [by apply quiet_log|by apply gated_snoc]. Qed.

Definition slot_result (tr : trace) (r : option bool) : Prop :=
  before_slot tr /\ match r with Some true => admitted tr | _ => True end.
Notation slot_paths := (along log (gate_ok headers body) slot_result).

Lemma try_slot_paths tr (refused : prog tresp (option bool)) :
  before_slot tr -> (forall tr, before_slot tr -> slot_paths tr refused) ->
  slot_paths tr (try_slot cfg (Ret (Some true)) refused).
Proof.
  intros Hb Hr. unfold try_slot. split; [done|]. intros current. split; [done|]. intros prev.
  destruct (Z.ltb_spec prev (effective_max_concurrent cfg current)).
  - split; [by do 2 (apply before_slot_log; [done|])|]. exists current, prev. split; [apply elem_of_app; left; apply elem_last|].
    split; [apply elem_last|done].
  - split; [done|]. intros u. apply Hr. by do 3 (apply before_slot_log; [done|]).
Qed.

Lemma admit_paths qos tr : before_slot tr -> slot_paths tr (admit_slot cfg qos).
Proof.
  assert (forall fuel d tr, before_slot tr -> slot_paths tr (admit_wait cfg fuel d)) as Hw.
  { induction fuel as [|fuel IH]; intros d tr' Hb; [done|]. cbn [admit_wait]. split; [done|]. intros now.
    destruct (now <? d); [|split; [by apply before_slot_log|done]]. split; [done|]. intros u.
    apply try_slot_paths; [by do 2 (apply before_slot_log; [done|])|]. intros tr2 Hb2. by apply IH. }
  intros Hb. unfold admit_slot. apply try_slot_paths; [done|]. intros tr' Hb'. destruct (negb _); [by split|].
  split; [done|]. intros now. apply Hw. by apply before_slot_log.
Qed.

Lemma admission_paths tr : quiet tr -> gated headers req tr -> paths tr (admission cfg headers req).
Proof.
  intros Hq Hg. unfold admission. eapply along_bind; [by apply admit_paths|].
  intros tr' [[|]|] [[Hq' Hg'] Ha].
  - by apply check_replay_paths.
  - by apply refused_ok.
  - destruct Hq' as (_ & ? & ?). done.
Qed.

Lemma rate_gate_paths : paths [] (rate_gate cfg headers req).
Proof.
  assert (forall tr, quiet tr ->
    (0 < ac_task_rate_limit cfg -> forall o, header_str headers "origin" = Some o -> Did (resp:=tresp) (RateAllow o) true ∈ tr) ->
    paths tr (intent_gate cfg headers req)) as Hi.
  { intros tr Hq Hr. unfold intent_gate. destruct (permits_intent _ _) eqn:Ep; cbn [negb]; [|by apply refused_ok].
    unfold drain_guard. split; [done|]. intros st. split; [done|]. intros now.
    set (tr2 := log (log tr ReadStability st) ReadUnix now). assert (quiet tr2) as Hq2 by (by do 2 (apply quiet_log; [done|])).
    assert (forall o, 0 < ac_task_rate_limit cfg -> header_str headers "origin" = Some o ->
      Did (resp:=tresp) (RateAllow o) true ∈ tr2) as Hr2 by (intros o H1 H2; do 2 (apply elem_of_app; left); auto).
    assert (Did (resp:=tresp) ReadStability st ∈ tr2) as Hst by (apply elem_of_app; left; apply elem_last).
    destruct (is_draining st now) eqn:Ed.
    - split; [done|]. intros now2. destruct (retry_after_s_at st now2) as [retry|] eqn:Er; [apply refused_ok; [by apply quiet_log|done]|].
      apply admission_paths; [by apply quiet_log|]. split; [intros H1 o H2; apply elem_of_app; left; auto|done|].
      exists st, now2. split; [apply elem_of_app; by left|]. split; [apply elem_last|].
      unfold is_draining. rewrite Er. apply andb_false_r.
    - apply admission_paths; [done|]. split; [auto|done|]. exists st, now. split; [done|]. split; [apply elem_last|done]. }
  unfold rate_gate. destruct (Z.ltb_spec 0 (ac_task_rate_limit cfg)); [|apply Hi; [done|lia]].
  destruct (header_str headers "origin") as [origin|] eqn:Eo; [|apply Hi; [done|intros _ o Ho; done]].
  split; [done|]. intros [|]; cbn [negb].
  - apply Hi; [by apply quiet_log|]. intros _ o [= <-]. apply elem_last.
  - apply refused_ok; [by apply quiet_log|done].
Qed.
End request.

Lemma error_json_status encoded status : 400 <= status -> 400 <= rp_status (task_json_response status encoded).
Proof. intros H. unfold task_json_response. by destruct (_ <? _). Qed.

Lemma status_or_400_min status : 400 <= status -> 400 <= status_or_400 status.
Proof. intros H. unfold status_or_400. by destruct (_ && _). Qed.

(** Errors of the request boundary carry an error status. *)
Lemma boundary_error_status headers body e : read_request_body to_bytes headers body = Err e -> 400 <= he_status e.
Proof.
  unfold read_request_body. destruct (validate_request_headers headers) as [[]|e'] eqn:Ev; simpl.
  - destruct (to_bytes _ _); simpl; [done|]. by intros [= <-].
  - intros [= <-]. revert Ev. unfold validate_request_headers, validate_identity_encoding, content_length.
    assert (forall name e, split_header_values headers name = Err e -> 400 <= he_status e) as Hs.
    { intros name e. unfold split_header_values. induction (get_all headers name) as [|[v|] l IH]; simpl; [done| |by intros [= <-]].
      destruct (split_values l); simpl in *; [done|]. by intros [= <-]; apply IH. }
    assert (forall l e, collect_results parse_content_length_value l = Err e -> 400 <= he_status e) as Hc.
    { induction l as [|v l IH]; intros e; simpl; [done|]. unfold parse_content_length_value at 1.
      destruct (_ || _); simpl; [by intros [= <-]|]. destruct (_ <=? _); simpl; [|by intros [= <-]].
      destruct (collect_results _ l) eqn:El; simpl; [done|]. intros [= <-]. by apply IH. }
    destruct (split_header_values headers "content-encoding") as [encs|x] eqn:E1; simpl; [|by intros [= <-]; eapply Hs].
    destruct (existsb _ encs); simpl; [by intros [= <-]|].
    destruct (split_header_values headers "content-length") as [lens|x] eqn:E2; simpl; [|by intros [= <-]; eapply Hs].
    unfold require_matching_content_lengths. destruct lens as [|l lens].
    + simpl. rewrite andb_false_r. simpl. by intros [= ?].
    + destruct (collect_results _ (l :: lens)) as [parsed|x] eqn:E3; simpl; [|by intros [= <-]; eapply Hc].
      destruct (windows_differ parsed); simpl; [by intros [= <-]|]. destruct (_ && _); simpl; [by intros [= <-]|].
      destruct (is_some_and _ _); simpl; [by intros [= <-]|done].
Qed.

Lemma task_endpoint_paths headers body :
  along log (gate_ok headers body) (end_ok headers body) [] (task_endpoint cfg to_bytes headers body).
Proof.
  unfold task_endpoint. destruct (read_request_body to_bytes headers body) as [encoded|e] eqn:Er.
  - destruct (task_from_slice encoded) as [req|] eqn:Eq; [by eapply rate_gate_paths|].
    left. split; [done|]. by apply error_json_status.
  - left. split; [done|]. apply error_json_status, status_or_400_min. by eapply boundary_error_status.
Qed.

Lemma endpoint_run headers body ans tr res :
  run ans 0 (task_endpoint cfg to_bytes headers body) = (tr, res) ->
  end_ok headers body tr res /\ forall tr1 a x tr2, tr = tr1 ++ Did a x :: tr2 -> gate_ok headers body tr1 a.
Proof. intros Hr. by eapply run_logged; [apply task_endpoint_paths|]. Qed.

Lemma handled_once tr :
  (forall tr1 a r tr2, tr = tr1 ++ Did a r :: tr2 -> is_Some (handled_in (Did a r)) -> handled tr1 = []) ->
  (length (handled tr) <= 1)%nat.
Proof.
  induction tr as [|z tr IH] using rev_ind; intros Hone; [simpl; lia|].
  rewrite handled_snoc. destruct (handled_in z) as [h|] eqn:Ez; cbn [option_list].
  - destruct z as [a r]. rewrite (Hone tr a r [] eq_refl) by (by rewrite Ez). simpl. lia.
  - rewrite app_nil_r. apply IH. intros tr1 a r tr2 -> Hs. apply (Hone tr1 a r (tr2 ++ [z])); [|done].
    by rewrite <- app_assoc.
Qed.

(** C12: the handler runs behind every gate.  Whatever the shared state answers, the
    provider's handler is called at most once per request, with the request
    decoded from a body of legal size, after the origin passed the rate limit,
    the policy permitted the intent, the backend was seen not draining, a slot
    was granted below the capacity of that moment, the nonce and the identifier
    were registered as new, and with the payload of the envelope where the
    request was encrypted; an encrypted reply is demanded only of an encrypted
    request. *)
Theorem task_handler_gated headers body ans tr res :
  run ans 0 (task_endpoint cfg to_bytes headers body) = (tr, res) ->
  (length (handled tr) <= 1)%nat /\
  forall tr1 q o tr2, tr = tr1 ++ Did (Handle q) o :: tr2 ->
    exists encoded req secret, read_request_body to_bytes headers body = Ok encoded /\ task_from_slice encoded = Some req /\
      gated headers req tr1 /\ admitted tr1 /\ fresh req tr1 /\ opened headers req q secret /\
      (response_required q = true -> is_Some secret).
Proof.
  intros Hr. destruct (endpoint_run _ _ _ _ _ Hr) as [_ Hact]. split.
  - apply handled_once. intros tr1 a r tr2 E [z Hz]. destruct a; try done. by destruct (Hact _ _ _ _ E) as [(H1 & _) _].
  - intros tr1 q o tr2 E. destruct (Hact _ _ _ _ E) as (_ & encoded & req & secret & ? & ? & ? & ? & ? & ? & ?).
    by exists encoded, req, secret.
Qed.

(** C13: replies and accounting.  A request whose handler was not called is
    refused with an error status and counts nothing.  Once the handler has
    answered, the reply is the error for that task or carries the handler's
    value; where an encrypted response was required the value leaves the node
    only inside an envelope sealed under the request's shared secret; exactly
    one of the success and failure counters is incremented, success exactly
    when the reply is sent with status 200; and a receipt is posted only for
    such a success, for this task and value. *)
Theorem task_reply_exact headers body ans tr r :
  run ans 0 (task_endpoint cfg to_bytes headers body) = (tr, Replied r) ->
  (handled tr = [] /\ counted tr = [] /\ receipts tr = [] /\ 400 <= rp_status r) \/
  (exists q o req secret, handled tr = [(q, o)] /\ opened headers req q secret /\ reply_ok q secret o tr r).
Proof.
  intros Hr. destruct (endpoint_run _ _ _ _ _ Hr) as [[[(H1 & H2 & H3) H4]|Hend] _]; [by left|right].
  destruct Hend as (q & o & encoded & req & secret & Hh & _ & _ & (_ & _ & _ & Ho & _) & Hrep). by exists q, o, req, secret.
Qed.
End gates.
