(* ===== verification/NodeTaskMetrics.v ===== *)
(** * Accounting between requests and heartbeats

    Every counted task is in the counters, in a batch waiting for its
    acknowledgement, or in one acknowledged batch. *)

From stdpp Require Import vector.
From S2P Require Import Prelude Program Concurrent Text Json Cbor HttpResource Gate ClientTypes ClientEffects Confidential Provider NodeTask.

(** Successes and failures. *)
Definition amounts : Type := Z * Z.
Definition plus (a b : amounts) : amounts := (a.1 + b.1, a.2 + b.2).
Definition minus (a b : amounts) : amounts := (a.1 - b.1, a.2 - b.2).
Definition batch_amounts (b : option PendingMetricBatch) : amounts :=
  match b with Some b => (pb_tasks_success b, pb_tasks_failed b) | None => (0, 0) end.

(** What the directory acknowledged with one delivery. *)
Definition acknowledged (b : option PendingMetricBatch) (d : MetricBatchDelivery) : amounts :=
  match reconcile_metric_batch b d with None => batch_amounts b | Some _ => (0, 0) end.

Lemma reconcile_amounts b d : minus (batch_amounts b) (acknowledged b d) = batch_amounts (reconcile_metric_batch b d).
Proof.
  unfold acknowledged, minus. destruct d as [|[r|]], b as [b|]; simpl; try done; [|destruct (metrics_batch_acknowledged r (pb_id b)); simpl|];
    f_equal; lia.
Qed.

(** What a heartbeat loop has taken from the counters and not reported, what it
    has reported, and whether the counters answered as unsigned numbers do. *)
Record meter := mkMeter { held : amounts; reported : amounts; unsigned : bool }.
Definition meter_new : meter := mkMeter (0, 0) (0, 0) true.

Definition meter_upd (m : meter) (a : task_action) : tresp a -> meter :=
  match a return tresp a -> meter with
  | SwapSuccess => fun ok => mkMeter (plus (held m) (ok, 0)) (reported m) (unsigned m && (0 <=? ok))
  | SwapFailed => fun fail => mkMeter (plus (held m) (0, fail)) (reported m) (unsigned m && (0 <=? fail))
  | SendHeartbeat b => fun d =>
      mkMeter (minus (held m) (acknowledged b d)) (plus (reported m) (acknowledged b d)) (unsigned m)
  | _ => fun _ => m
  end.
(** A heartbeat carries all that is held. *)
Definition meter_allowed (m : meter) (a : task_action) : Prop :=
  match a with SendHeartbeat b => unsigned m = true -> held m = batch_amounts b | _ => True end.
Notation metered := (along meter_upd meter_allowed (fun _ (_ : task_end) => True)).

Lemma heartbeat_metered n : forall pending m,
  (unsigned m = true -> held m = batch_amounts pending) -> metered m (heartbeat_loop n pending).
Proof.
  induction n as [|n IH]; intros pending m Hm; [done|]. cbn [heartbeat_loop].
  assert (forall b m, (unsigned m = true -> held m = batch_amounts b) ->
    metered m (Act (SendHeartbeat b) (fun d => heartbeat_loop n (reconcile_metric_batch b d)))) as Hsend.
  { intros b m' Hm'. split; [done|]. intros d. apply IH. cbn [meter_upd held unsigned]. intros Hu. rewrite Hm' by done.
    apply reconcile_amounts. }
  unfold drain_counters. destruct pending as [b|]; [by apply Hsend|].
  split; [done|]. intros ok. split; [done|]. intros fail. split; [done|]. intros latency. cbn [meter_upd held unsigned].
  destruct ((0 <? ok) || (0 <? fail)) eqn:Ez; [split; [done|]; intros id|]; apply Hsend; cbn [meter_upd held unsigned];
    intros [[Hu Ho]%andb_true_iff Hf]%andb_true_iff; rewrite Hm by done; unfold plus; simpl; f_equal; try lia.
  all: apply orb_false_iff in Ez as [?%Z.ltb_ge ?%Z.ltb_ge]; lia.
Qed.

Section metrics.
Context {serde : TaskSerde} {crypto : CxCrypto} (cfg : app_config).
Context {Body : Type} (to_bytes : Body -> Z -> option (list byte)).

Notation exec := (Concurrent.exec (tperform (ac_task_rate_limit cfg)) te_now (node_program cfg to_bytes) tenv task_world_new).
Notation event := (Concurrent.event tresp).

(** Requests do not touch the batches. *)
Definition no_batch {R} (p : prog tresp R) : Prop :=
  acts (fun a => match a with SwapSuccess | SwapFailed | SendHeartbeat _ => False | _ => True end) p.

Lemma no_batch_metered m p : no_batch p -> metered m p.
Proof.
  unfold no_batch, acts. revert m. induction p as [o|a k IH]; intros m; cbn [along]; [done|].
  intros [Ha Hk]. split; [by destruct a|]. intros r. apply IH, Hk.
Qed.

Lemma succeeded_no_batch id v q l sealed : no_batch (succeeded cfg id v q l sealed).
Proof. unfold succeeded, add_latency, award, no_batch. by acts_split. Qed.
Lemma execute_no_batch headers req secret : no_batch (execute cfg headers req secret).
Proof. unfold execute, reject, respond, add_latency, no_batch. acts_split; first [exact I | apply succeeded_no_batch]. Qed.
Lemma open_payload_no_batch headers req : no_batch (open_payload cfg headers req).
Proof. unfold open_payload, reject, no_batch. acts_split; first [exact I | apply execute_no_batch]. Qed.
Lemma admit_no_batch qos : no_batch (admit_slot cfg qos).
Proof.
  assert (forall fuel d, no_batch (admit_wait cfg fuel d)) as Hw.
  { induction fuel as [|fuel IH]; intros d; [done|]. cbn [admit_wait]. unfold try_slot, no_batch.
    acts_split; first [exact I | apply IH]. }
  unfold admit_slot, try_slot, no_batch. acts_split; first [exact I | apply Hw].
Qed.
Lemma admission_no_batch headers req : no_batch (admission cfg headers req).
Proof.
  unfold admission, check_replay, check_duplicate, reject, no_batch.
  acts_split; first [exact I | apply admit_no_batch | apply open_payload_no_batch].
Qed.
Lemma task_endpoint_no_batch headers body : no_batch (task_endpoint cfg to_bytes headers body).
Proof.
  unfold task_endpoint. destruct (read_request_body _ _ _) as [encoded|e]; [|done].
  destruct (task_from_slice encoded) as [req|]; [|done]. pose proof (admission_no_batch headers req) as Ha.
  assert (no_batch (intent_gate cfg headers req)) as Hg.
  { unfold intent_gate, drain_guard. destruct (negb _); [done|]. split; [done|]. intros st. split; [done|]. intros now.
    destruct (is_draining st now); [|exact Ha]. split; [done|]. intros now'. destruct (retry_after_s_at st now'); [done|exact Ha]. }
  unfold rate_gate. destruct (0 <? ac_task_rate_limit cfg); [|exact Hg].
  destruct (header_str headers "origin"); [|exact Hg]. split; [done|]. intros [|]; [exact Hg|done].
Qed.

Lemma programs_metered q : node_program cfg to_bytes q -> metered meter_new q.
Proof. intros []; [apply no_batch_metered, task_endpoint_no_batch|by apply heartbeat_metered]. Qed.

(** ** The balance *)

Definition meter_of (tr : list event) (i : nat) : meter := ghost meter_upd meter_new i tr.

(** The tasks counted so far. *)
Fixpoint outcomes (tr : list event) : amounts :=
  match tr with
  | [] => (0, 0)
  | Ev _ _ a _ :: tr =>
      match a with AddSuccess => plus (outcomes tr) (1, 0) | AddFailed => plus (outcomes tr) (0, 1) | _ => outcomes tr end
  end.

Definition all_held (tr : list event) (n : nat) : amounts :=
  (total (fun i => (held (meter_of tr i)).1) n, total (fun i => (held (meter_of tr i)).2) n).
Definition all_reported (tr : list event) (n : nat) : amounts :=
  (total (fun i => (reported (meter_of tr i)).1) n, total (fun i => (reported (meter_of tr i)).2) n).

Lemma outcomes_range tr : 0 <= (outcomes tr).1 <= zlen tr /\ 0 <= (outcomes tr).2 <= zlen tr.
Proof.
  induction tr as [|[i t a r] tr IH]; [done|]. rewrite zlen_cons. cbn [outcomes]. destruct a; simpl; lia.
Qed.

(** The balance at one moment; [f] of what a meter shows. *)
Definition shows (f : amounts -> Z) (m : meter) : Z := f (held m) + f (reported m).

Lemma total_shows f tr n :
  total (fun i => shows f (meter_of tr i)) n
  = total (fun i => f (held (meter_of tr i))) n + total (fun i => f (reported (meter_of tr i))) n.
Proof. induction n as [|n IH]; cbn [total]; [done|]. rewrite IH. unfold shows. lia. Qed.

Definition balanced (tr : list event) (w : task_world) (n : nat) : Prop :=
  (outcomes tr).1 = tw_success w + total (fun i => shows fst (meter_of tr i)) n /\
  (outcomes tr).2 = tw_failed w + total (fun i => shows snd (meter_of tr i)) n /\
  0 <= tw_success w <= (outcomes tr).1 /\ 0 <= tw_failed w <= (outcomes tr).2 /\
  forall i, unsigned (meter_of tr i) = true.

Lemma meter_other i t a r tr j : j <> i -> meter_of (Ev i t a r :: tr) j = meter_of tr j.
Proof. intros H. unfold meter_of. cbn [ghost]. by rewrite bool_decide_false by congruence. Qed.
Lemma meter_self i t a r tr : meter_of (Ev i t a r :: tr) i = meter_upd (meter_of tr i) a r.
Proof. unfold meter_of. cbn [ghost]. by rewrite bool_decide_true. Qed.

Lemma total_step f i t a r tr n :
  (i < n)%nat ->
  total (fun j => shows f (meter_of (Ev i t a r :: tr) j)) n
  = total (fun j => shows f (meter_of tr j)) n - shows f (meter_of tr i) + shows f (meter_upd (meter_of tr i) a r).
Proof.
  intros Hi. rewrite (total_update (fun j => shows f (meter_of tr j)) _ i) by (done || intros; by rewrite meter_other).
  by rewrite meter_self.
Qed.

Lemma perform_counters w e a r w' :
  tperform (ac_task_rate_limit cfg) w e a = (r, w') ->
  0 <= tw_success w < 2 ^ 64 -> 0 <= tw_failed w < 2 ^ 64 ->
  (tw_success w', tw_failed w') = match a with
    | AddSuccess => ((tw_success w + 1) mod 2 ^ 64, tw_failed w)
    | AddFailed => (tw_success w, (tw_failed w + 1) mod 2 ^ 64)
    | SwapSuccess => (0, tw_failed w)
    | SwapFailed => (tw_success w, 0)
    | _ => (tw_success w, tw_failed w) end.
Proof.
  intros E H1 H2. destruct a; simpl in E; try (injection E as <- <-; simpl; rewrite ?(Z.mod_small (tw_success w)), ?(Z.mod_small (tw_failed w)) by lia; done).
  - by destruct (task_rate_step _ _ _ _); injection E as <- <-.
  - by destruct (nonce_check _ _ _); injection E as <- <-.
  - by destruct (check_and_register _ _ _); injection E as <- <-.
Qed.

(** A meter shows more only by a swap. *)
Lemma shows_upd f m a r :
  (forall x y, f (plus x y) = f x + f y) -> (forall x y, f (minus x y) = f x - f y) ->
  shows f (meter_upd m a r) = shows f m +
    match a return tresp a -> Z with SwapSuccess => fun ok => f (ok, 0) | SwapFailed => fun fail => f (0, fail) | _ => fun _ => 0 end r.
Proof. intros Hp Hm. unfold shows. destruct a; cbn [meter_upd held reported]; rewrite ?Hp, ?Hm; lia. Qed.

Lemma exec_balanced tr t w ts : exec tr t w ts -> zlen tr <= u64_max -> balanced tr w (length ts).
Proof.
  induction 1 as [|tr t w ts p Hx IH Hh|tr t w w2 ts Hx IH Henv|tr t w ts i a k e r w' Hx IH Hp Ht Hw]; intros Hlen.
  - split; [done|]. split; [done|]. split; [simpl; lia|]. split; [simpl; lia|done].
  - destruct (IH Hlen) as (H1 & H2 & H3). rewrite length_app. cbn [length]. rewrite Nat.add_1_r.
    assert (meter_of tr (length ts) = meter_new) as Hs by (eapply ghost_fresh; [exact Hx|lia]).
    split; [|split; [|exact H3]]; cbn [total]; rewrite Hs; change (shows _ meter_new) with 0; lia.
  - destruct Henv as (o & h & tk & ->). by apply IH.
  - rewrite zlen_cons in Hlen. rewrite length_insert. destruct IH as (H1 & H2 & H3 & H4 & H5); [lia|].
    assert (i < length ts)%nat as Hi by (by eapply lookup_lt_Some).
    pose proof (outcomes_range tr) as [Ho1 Ho2]. unfold u64_max in *.
    pose proof (perform_counters _ _ _ _ _ Hw ltac:(lia) ltac:(lia)) as Hc.
    assert (forall j, unsigned (meter_of (Ev i (te_now e) a r :: tr) j) = true) as Hu.
    { intros j. destruct (decide (j = i)) as [->|Hj]; [|by rewrite meter_other].
      rewrite meter_self. destruct a; cbn [meter_upd unsigned]; rewrite ?H5; try done; simpl in Hw; injection Hw as <- <-;
        apply Z.leb_le; lia. }
    pose proof (shows_upd fst (meter_of tr i) a r ltac:(done) ltac:(done)) as Hf.
    pose proof (shows_upd snd (meter_of tr i) a r ltac:(done) ltac:(done)) as Hsn.
    unfold balanced. rewrite !total_step by done. rewrite Hf, Hsn.
    destruct a; injection Hc as Hc1 Hc2; rewrite Hc1, Hc2; cbn [outcomes plus fst snd];
      try (simpl in Hw; injection Hw as <- <-); rewrite ?Z.mod_small by lia;
      (split; [lia|]; split; [lia|]; split; [lia|]; split; [lia|exact Hu]).
Qed.

(** C16: task metrics are neither lost nor reported twice.  Under every interleaving
    of requests and heartbeat loops, the tasks counted as succeeded (and those
    counted as failed) are those still in the counter, those in a batch that is
    not yet acknowledged and those the directory acknowledged; and every
    heartbeat carries exactly what its loop has taken and not yet reported. *)
Theorem task_metrics_conserved tr t w ts :
  exec tr t w ts -> zlen tr <= u64_max ->
  outcomes tr = plus (tw_success w, tw_failed w) (plus (all_held tr (length ts)) (all_reported tr (length ts))) /\
  forall tr2 i t' b d tr1, tr = tr2 ++ Ev i t' (SendHeartbeat b) d :: tr1 -> held (meter_of tr1 i) = batch_amounts b.
Proof.
  intros Hx Hlen. destruct (exec_balanced _ _ _ _ Hx Hlen) as (H1 & H2 & _). split.
  - rewrite total_shows in H1, H2. unfold plus, all_held, all_reported. simpl.
    rewrite (surjective_pairing (outcomes tr)). f_equal; lia.
  - intros tr2 i t' b d tr1 ->.
    apply (exec_allowed meter_upd meter_allowed (fun _ (_ : task_end) => True) meter_new _ _ _ _ _ _ _ _ _ programs_metered Hx).
    rewrite (cons_middle (Ev i t' (SendHeartbeat b) d)), app_assoc in Hx, Hlen.
    destruct (exec_before _ _ _ _ _ Hx) as (t0 & w0 & ts0 & Hx0). rewrite zlen_app in Hlen.
    apply (exec_balanced _ _ _ _ Hx0). pose proof (zlen_nonneg (tr2 ++ [Ev i t' (SendHeartbeat b) d])). lia.
Qed.
End metrics.
