(* ===== verification/NodeTaskWitness.v ===== *)
(** * Concrete runs of a provider node *)

From stdpp Require Import vector.
From S2P Require Import Prelude Program Concurrent Text Json Cbor CodecModel HttpResource Gate ClientTypes ClientEffects Confidential Provider NodeTask NodeTaskSlots NodeTaskReplay NodeTaskGates NodeTaskMetrics.

(** ** A node with one slot *)

Definition demo_request (id : string) (payload : json) (conf : option envelope) (enc : option string) : TaskRequest :=
  mkTaskRequest id "urn:iicp:intent:llm:chat:v1" payload conf enc None None (Some "n1") None None.

(** An envelope whose nonce has one byte. *)
Definition bad_envelope : envelope :=
  list_to_map [("kem_ciphertext", JString (bytes_str toy_private)); ("nonce", JString "x");
               ("aad", JString "t|i"); ("encrypted_body", JString "b")].
Definition sealed_envelope : envelope := match toy_seal with Val (e, _) => e | _ => ∅ end.

(** Requests by their first byte: in clear, sealed with a sealed reply, with a
    malformed nonce, and a second one in clear. *)
Definition demo_task_serde : TaskSerde := {|
  task_codec := model_json_codec;
  task_from_slice l := match l with
    | [x01] => Some (demo_request "t1" (JBool true) None None)
    | [x02] => Some (demo_request "t2" JNull (Some sealed_envelope) (Some "required"))
    | [x03] => Some (demo_request "t3" JNull (Some bad_envelope) None)
    | _ => None
    end;
  response_to_vec r := Some (str_bytes (tp_status r))
|}.
#[local] Existing Instances demo_task_serde toy_cx.

Definition demo_cfg : app_config :=
  mkAppConfig "node-1" "https://dir" 1 (mkAvailability []) (cip_new cip_options_default) true 10 (Some toy_private).
Definition demo_bytes (b : list byte) (limit : Z) : option (list byte) := if zlen b <=? limit then Some b else None.
Definition demo_task (b : byte) : tprog := task_endpoint demo_cfg demo_bytes [("origin", Some "https://app")] [b].

(** The surroundings at a second. *)
Definition demo_at (sec : Z) : task_env :=
  mkTaskEnv (sec * SECOND) sec "12:00" (fun _ => Val (JBool true)) (vreplicate 12 x2a) "batch" (DeliveryAccepted None).
Definition steps (i n : nat) (sec : Z) : list (sched tresp task_end task_env) := repeat (inr (i, demo_at sec)) n.

Notation demo_run := (run_sched (tperform (ac_task_rate_limit demo_cfg)) te_now task_world_new).
Notation demo_exec := (exec (tperform (ac_task_rate_limit demo_cfg)) te_now (node_program demo_cfg demo_bytes) tenv task_world_new).

Definition demo_scheduled (x : sched tresp task_end task_env) : Prop :=
  match x with inl p => node_program demo_cfg demo_bytes p | inr _ => True end.
Lemma steps_scheduled i n sec : Forall demo_scheduled (steps i n sec).
Proof. induction n; constructor; [exact I|assumption]. Qed.
Lemma run_exec l :
  Forall demo_scheduled l -> demo_exec (demo_run l).1.1.1 (demo_run l).1.1.2 (demo_run l).1.2 (demo_run l).2.
Proof.
  intros Hl. pose proof (@run_sched_exec _ _ _ _ _ (tperform (ac_task_rate_limit demo_cfg)) te_now
    (node_program demo_cfg demo_bytes) tenv task_world_new l Hl) as Hx.
  by destruct (demo_run l) as [[[tr t] w] ts].
Qed.

(** *** A malformed nonce takes the slot for good *)

Definition leak_steps : list (sched tresp task_end task_env) :=
  inl (demo_task x03) :: steps 0 20 10 ++ inl (demo_task x01) :: steps 1 20 400.
Lemma leak_scheduled : Forall demo_scheduled leak_steps.
Proof.
  constructor; [constructor|]. apply Forall_app. split; [apply steps_scheduled|].
  constructor; [constructor|apply steps_scheduled].
Qed.

Example slot_is_gone :
  (demo_run leak_steps).2 !! 0%nat = Some (Ret Panicked) /\
  (demo_run leak_steps).2 !! 1%nat = Some (Ret (Replied (capacity_exceeded "best_effort"))) /\
  tw_active_jobs (demo_run leak_steps).1.2 = 1.
Proof. vm_compute. done. Qed.

Lemma task_slots_bounded_witness :
  tally (panicked (demo_run leak_steps).2) (length (demo_run leak_steps).2) = 1 /\
  1 <= tw_active_jobs (demo_run leak_steps).1.2 /\
  tally (handling (demo_run leak_steps).2) (length (demo_run leak_steps).2) <= 1.
Proof.
  destruct (task_slots_bounded demo_cfg demo_bytes _ _ _ _ (run_exec leak_steps leak_scheduled)) as (_ & Hh & Hp & _).
  - vm_compute. discriminate.
  - split; [vm_compute; reflexivity|]. split; [exact Hp|exact Hh].
Defined.

(** *** A nonce used again after its lifetime *)

Definition replay_steps : list (sched tresp task_end task_env) :=
  inl (demo_task x01) :: steps 0 20 10 ++ inl (demo_task x02) :: steps 1 20 310.
Lemma replay_scheduled : Forall demo_scheduled replay_steps.
Proof.
  constructor; [constructor|]. apply Forall_app. split; [apply steps_scheduled|].
  constructor; [constructor|apply steps_scheduled].
Qed.
Definition replay_events : list (event tresp) := (demo_run replay_steps).1.1.1.

Definition replay_threads : list tprog := (demo_run replay_steps).2.
Lemma replay_exec : demo_exec replay_events (demo_run replay_steps).1.1.2 (demo_run replay_steps).1.2 replay_threads.
Proof. unfold replay_events, replay_threads. exact (run_exec replay_steps replay_scheduled). Qed.

Example both_answered :
  (fun p => match p with Ret (Replied r) => rp_status r | _ => 0 end) <$> (demo_run replay_steps).2 = [200; 200].
Proof. vm_compute. reflexivity. Qed.

Lemma task_accepted_once_witness :
  exists tr3 tr2, replay_events = tr3 ++ Ev 1 (310 * SECOND) (CheckNonce "n1") true :: tr2 /\
    Ev 0 (10 * SECOND) (CheckNonce "n1") true ∈ tr2 /\ 10 * SECOND + 300 * SECOND <= 310 * SECOND.
Proof.
  assert (exists tr3 tr2, replay_events = tr3 ++ Ev 1 (310 * SECOND) (CheckNonce "n1") true :: tr2 /\
    Ev 0 (10 * SECOND) (CheckNonce "n1") true ∈ tr2) as (tr3 & tr2 & E & Hin).
  { exists (take 9 replay_events), (drop 10 replay_events). split; [vm_compute; reflexivity|].
    apply list_elem_of_lookup_2 with (i:=13%nat). vm_compute. reflexivity. }
  exists tr3, tr2. split; [exact E|]. split; [exact Hin|].
  destruct (task_accepted_once demo_cfg demo_bytes _ _ _ _ replay_exec) as [Hn _]. exact (Hn _ _ _ _ _ _ _ _ E eq_refl Hin).
Defined.

Lemma task_admission_terminates_witness :
  timely replay_events /\ forall i, replay_threads !! i <> Some (Ret Stalled).
Proof.
  assert (timely replay_events) as Ht by (apply timely_awake; vm_compute; reflexivity).
  split; [exact Ht|]. intros i.
  destruct (task_admission_terminates demo_cfg demo_bytes) as [_ H]. exact (H _ _ _ _ i replay_exec Ht).
Defined.

(** *** One sealed request *)

Definition demo_shared (n : nat) (a : task_action) : tresp a := (tperform 10 task_world_new (demo_at 10) a).1.
Definition sealed_run : list (step tresp) * task_end := run demo_shared 0 (demo_task x02).

Lemma task_handler_gated_witness :
  length (handled sealed_run.1) = 1%nat /\ (length (handled sealed_run.1) <= 1)%nat.
Proof.
  split; [vm_compute; reflexivity|].
  refine (proj1 (task_handler_gated demo_cfg demo_bytes [("origin", Some "https://app")] [x02] demo_shared sealed_run.1 sealed_run.2 _)).
  apply surjective_pairing.
Defined.

Lemma task_reply_exact_witness :
  exists r q o req secret, sealed_run.2 = Replied r /\ opened demo_cfg [("origin", Some "https://app")] req q secret /\
    reply_ok demo_cfg q secret o sealed_run.1 r.
Proof.
  assert (exists r, sealed_run.2 = Replied r /\ rp_status r = 200) as (r & Hr & H200) by (eexists; split; vm_compute; reflexivity).
  destruct (task_reply_exact demo_cfg demo_bytes [("origin", Some "https://app")] [x02] demo_shared sealed_run.1 r) as [(_ & _ & _ & H)|H].
  - rewrite <- Hr. apply surjective_pairing.
  - rewrite H200 in H. exfalso. apply H. reflexivity.
  - destruct H as (q & o & req & secret & _ & Ho & Hrep). exists r, q, o, req, secret. split; [exact Hr|]. split; [exact Ho|exact Hrep].
Defined.

(** *** Counters and heartbeats *)

Definition metrics_steps : list (sched tresp task_end task_env) :=
  inl (demo_task x01) :: steps 0 20 10 ++ inl (heartbeat_loop 2 None) :: steps 1 5 20.
Lemma metrics_scheduled : Forall demo_scheduled metrics_steps.
Proof.
  constructor; [constructor|]. apply Forall_app. split; [apply steps_scheduled|].
  constructor; [constructor|apply steps_scheduled].
Qed.

Lemma task_metrics_conserved_witness :
  outcomes (demo_run metrics_steps).1.1.1 = (1, 0) /\ all_reported (demo_run metrics_steps).1.1.1 2 = (1, 0) /\
  outcomes (demo_run metrics_steps).1.1.1 =
    plus (tw_success (demo_run metrics_steps).1.2, tw_failed (demo_run metrics_steps).1.2)
      (plus (all_held (demo_run metrics_steps).1.1.1 2) (all_reported (demo_run metrics_steps).1.1.1 2)).
Proof.
  split; [vm_compute; reflexivity|]. split; [vm_compute; reflexivity|].
  refine (proj1 (task_metrics_conserved demo_cfg demo_bytes _ _ _ _ (run_exec metrics_steps metrics_scheduled) _)).
  vm_compute. discriminate.
Defined.

(** Without windows the capacity is the configured one. *)
Example capacity_unshaped :
  forallb (fun n => effective_at (mkAvailability []) (Z.of_nat n) "12:00" =? Z.of_nat n) (seq 0 300) = true.
Proof. vm_compute. reflexivity. Qed.
