(* ===== verification/NodeRuntime.v ===== *)
(** * The runtime of a provider node ([IicpNode] of [src/node.rs])

    Registration with the directory, the state the background tasks share, the
    heartbeat loop of [serve] with its drift, rotation and recovery branches, and
    the callbacks of the relay worker. *)

From S2P Require Import PeerManager Prelude Program Text Chars Json HttpResource ClientTypes ClientEffects Endpoint HttpClient ConsumerToken Confidential Signing Gate Capability Recovery Provider NodeTask.

Definition HEARTBEAT_INTERVAL_SECS : Z := 30.
Definition EMBEDDING_INTENT : string := "urn:iicp:intent:llm:embedding:v1".

(** ** Configuration *)

Record NodeConfig := mkNodeConfig {
  nc_node_id : string;
  nc_endpoint : string;
  nc_intent : string;
  nc_model : option string;
  nc_backend : option string;
  nc_region : option string;
  nc_capabilities : list string;
  nc_directory_url : string;
  nc_restricted_directory : option RestrictedDirectoryContext;
  nc_timeout_ms : Z;
  nc_max_concurrent : Z;
  nc_tokens_per_min : Z;
  nc_max_tokens : Z;
  nc_transport_endpoint : option string;
  nc_transport_method : option string;
  nc_nat_type : option string;
  nc_transport_metadata : option json;
  nc_exposure_mode : option string;
  nc_cip_policy : option CooperativeInferencePolicy;
  nc_pricing : option PricingConfig;
  nc_node_hmac_key : string;
  nc_availability_windows : list Window;
  nc_enable_idempotency : bool;
  nc_enable_mesh : bool;
  nc_peer_admission : PeerAdmissionMode;
  nc_relay_capable : bool;
  nc_relay_accept_port : Z;
  nc_relay_worker_endpoint : option string;
  nc_relay_bind_ticket_public_key_hex : option string;
  nc_relay_require_bind_ticket : bool;
  nc_log_dir : option string;
  nc_operator_delegation : option json;
  nc_operator_display_name : option string;
  nc_operator_created_at : option string;
  nc_operator_integrity_hash : option string;
  nc_policy_manifest : option json;
  nc_backend_url : option string;
  nc_backend_api_key : option string;
  nc_excluded_models : list string;
  nc_supported_receipt_profiles : list string;
  nc_supported_profiles : list string
}.

(** ** Models and capabilities *)

Definition filter_public_backend_models (models excluded : list string) (backend : option string) : list string :=
  filter (fun model => str_in model excluded || (opt_str_is backend "meshllm" && starts_with model "local-gguf/sha256-") = false)
    models.

(** Push what is not yet there. *)
Definition push_new (models : list string) (m : string) : list string := if str_in m models then models else models ++ [m].
Definition effective_capability_models (capabilities : list EffectiveCapability) : list string :=
  foldl push_new [] (capabilities ≫= ec_models).
Definition configured_models (cfg : NodeConfig) : list string :=
  filter_public_backend_models (foldl push_new (option_list (nc_model cfg)) (nc_capabilities cfg))
    (nc_excluded_models cfg) (nc_backend cfg).

Section models.
(** [str::to_lowercase] *)
Context (to_lowercase : string -> string).

Definition intent_for_model (model default_intent : string) : string :=
  if str_contains (to_lowercase model) "embed" then EMBEDDING_INTENT else default_intent.
Definition modalities_for_model (model : string) : list string :=
  let m := to_lowercase model in
  let has_image := str_contains m "-vl-" || ends_with m "-vl" || str_contains m "vision" || str_contains m "llava"
                   || str_contains m "omni" in
  let has_audio := str_contains m "audio" || str_contains m "voxtral" || str_contains m "omni" in
  ["text"] ++ (if has_image then ["image"] else []) ++ (if has_audio then ["audio"] else []).

(** The groups in first-seen order; the key of the source joins intent and
    modalities with a NUL. *)
Definition cap_group : Type := (string * list string) * list string.
Definition group_key (default_intent m : string) : string * list string :=
  (intent_for_model m default_intent, modalities_for_model m).
Fixpoint add_to_group (key : string * list string) (m : string) (groups : list cap_group) : list cap_group :=
  match groups with
  | [] => [(key, [m])]
  | (k, ms) :: groups =>
      if decide (k = key) then (k, push_new ms m) :: groups else (k, ms) :: add_to_group key m groups
  end.
Definition group_models (models : list string) (default_intent : string) : list cap_group :=
  foldl (fun g m => add_to_group (group_key default_intent m) m g) [] models.

Definition capability_object (profiles : list string) (max_tokens : Z) (g : cap_group) : json :=
  mk_obj ([("intent", JString g.1.1); ("models", strings_json g.2); ("max_tokens", u64_json max_tokens);
           ("input_modalities", strings_json g.1.2)]
          ++ field_if (nonempty profiles) "supported_profiles" (strings_json profiles)).
Definition build_capabilities_with_profiles (models : list string) (default_intent : string) (max_tokens : Z)
    (supported_profiles : list string) : list json :=
  let profiles := foldl push_new [] supported_profiles in
  match models with
  | [] => [capability_object profiles max_tokens ((default_intent, ["text"]), [])]
  | _ => capability_object profiles max_tokens <$> group_models models default_intent
  end.
End models.

(** *** Probing the backend *)

Definition strings_at (key : string) (l : list json) : list string := omap (fun m => as_str (jidx m key)) l.
Definition names_of (field key : string) (v : json) : option (list string) :=
  let! l := as_array (jidx v field) in Some (strings_at key l).
Definition listed `{SerdeOps} (field key : string) (r : result http_response bool) : option (list string) :=
  let! resp := success r in
  let! v := result_ok (response_json resp) in
  names_of field key v.

Definition probe_health_models_bg `{SerdeOps} (backend_url : string) (api_key : option string)
    (excluded_models : list string) (backend : option string) : prog answer (option (list string)) :=
  let base := trim_end_char "/" backend_url in
  if str_is_empty base then Ret None
  else
    let root := default base (strip_suffix "/v1" base) in
    perform r := Send (probe_request root api_key "/api/tags") in
    match listed "models" "name" r with
    | Some names => Ret (Some (filter_public_backend_models (sorted_set names) excluded_models backend))
    | None =>
        perform r := Send (probe_request root api_key "/v1/models") in
        Ret ((fun ids => filter_public_backend_models ids excluded_models backend) <$> listed "data" "id" r)
    end.

(** ** Registration *)

Record RegistrationCredentials := mkCredentials { rc_node_token : string; rc_node_hmac_key : option string }.

Definition heartbeat_public_available (runtime_available relay_required relay_bound : bool) : bool :=
  runtime_available && (negb relay_required || relay_bound).
Definition heartbeat_waits_before_first_tick (node_token : string) : bool := negb (str_is_empty node_token).

Definition token_of (data : json) : option string :=
  option_or (as_str (jidx data "node_token")) (as_str (jidx data "token")).
Definition nonempty_str (o : option string) : option string :=
  let! s := o in if str_is_empty s then None else Some s.
Definition credentials_of (data : json) : option RegistrationCredentials :=
  let! token := token_of data in
  Some (mkCredentials token (nonempty_str (as_str (jidx data "node_hmac_key")))).

Definition register_url (directory_url : string) : string := trim_end_char "/" directory_url +:+ "/v1/register".
Definition plain_post `{SerdeOps} (url : string) (bearer : option string) (payload : json) : http_request :=
  mkRequestOut "POST" url bearer [] (Some (to_vec payload)) true None.

Definition reregister `{SerdeOps} (url : string) (payload : json) (restricted : option RestrictedDirectoryContext)
    : prog answer (option RegistrationCredentials) :=
  match restricted with
  | Some context =>
      match validate_context context with
      | Err _ => Ret None
      | Ok _ =>
          perform secret := ResolveSecret (membership_credential context) in
          match secret with
          | None => Ret None
          | Some membership =>
              run! r := post_restricted_json None url payload membership (subject_id context) None None in
              match r with
              | Val (status, data) =>
                  if negb (is_success status) then Ret None
                  else
                    run! d := validate_decision data context "registration" in
                    Ret (match d with Val _ => credentials_of data | _ => None end)
              | _ => Ret None
              end
          end
      end
  | None =>
      perform r := Send (plain_post url None payload) in
      Ret (let! resp := success r in let! data := result_ok (response_json resp) in credentials_of data)
  end.

Definition REGISTRATION_CODES : list string := ["IICP-E034"; "IICP-E035"; "IICP-E049"; "IICP-E050"].
Definition registration_failure (status : string) (data : json) : IicpError :=
  let candidate := let! e := jget data "error" in option_or (as_str e) (get_str e "code") in
  let code := let! c := candidate in if str_in c REGISTRATION_CODES then Some c else None in
  NodeError ("register failed: " +:+ status +:+ match code with Some c => " (" +:+ c +:+ ")" | None => empty_str end).
Definition registration_token (data : json) : result string IicpError :=
  ok_or (token_of data) (NodeError "no node_token in response").

(** [registration_failure_data] of [http.rs]: at most 4096 bytes of an error
    answer are looked at. *)
Fixpoint chunks_within (room : Z) (l : list (list byte)) : bool :=
  match l with [] => true | c :: l => (zlen c <=? room) && chunks_within (room - zlen c) l end.
Definition registration_failure_data `{SerdeOps} (r : http_response) : json :=
  if is_some_and (header_str (rs_headers r) "content-length" ≫= parse_uint u64_max) (fun n => 4096 <? n) then JNull
  else if rs_broken r || negb (chunks_within 4096 (rs_chunks r)) then JNull
  else default JNull (from_slice (concat (rs_chunks r))).

Definition attach_current_node_token (payload : json) (token : string) : json :=
  if str_is_empty token then payload else set_field "current_node_token" (JString token) payload.

(** ** The shared state and its actions *)

(** A cell is an [RwLock] or an [AtomicBool] of the node. *)
Inductive cell :=
| Token | HmacKey | Challenge | RegisteredModels | PublicModels | EndpointOverride | RegisteredEndpoint
| RuntimeAvailable | RelayBound.
Definition cell_type (c : cell) : Type :=
  match c with
  | Token | HmacKey | RegisteredEndpoint => string
  | Challenge | EndpointOverride => option string
  | RegisteredModels | PublicModels => list string
  | RuntimeAvailable | RelayBound => bool
  end.
Global Instance cell_eq_dec : EqDecision cell.
Proof. solve_decision. Defined.

(** [NodeIdentity] of [src/identity.rs]: what the credential update touches, and
    the rest of the saved record, which it keeps. *)
Record NodeIdentity := mkIdentity {
  id_node_token : option string;
  id_node_hmac_key : option string;
  id_secret_refs : gmap string SecretRef;
  id_rest : json
}.

(** [Lib] is what the client library does too; [Tally] the task counters of
    [NodeTask.v]; [Stability] the guarded write of an observation;
    [PostHeartbeat] sends a heartbeat, which carries the batch. *)
Inductive node_action :=
| Lib (a : action)
| Tally (a : task_action)
| Get (c : cell)
| Put (c : cell) (v : cell_type c)
| Stability (o : BackendStabilityObservation)
| StabilityGet
| LocalHealth (o : Health.op)
| LocalTime
| UpdateStatus
| PostHeartbeat (batch : option PendingMetricBatch) (request : http_request)
| LoadNode (name : string)
| StoreSecret (reference : SecretRef) (value : string)
| SaveNode (name : string) (identity : NodeIdentity)
| Pause (seconds : Z).
Definition node_answer (a : node_action) : Type :=
  match a with
  | Lib a => answer a
  | Tally a => tresp a
  | Get c => cell_type c
  | StabilityGet => BackendStabilityObservation
  | LocalTime => string
  | UpdateStatus => json
  | PostHeartbeat _ _ => result http_response bool
  | LoadNode _ => option NodeIdentity
  | StoreSecret _ _ | SaveNode _ _ => bool
  | Put _ _ | Stability _ | LocalHealth _ | Pause _ => unit
  end.
Notation nprog := (prog node_answer).
Notation "'node!' x := a 'in' k" := (Act (resp:=node_answer) a (fun x => k))
  (at level 200, x name, a at level 100, k at level 200,
   format "'[v' 'node!'  x  :=  a  'in' '/' k ']'") : iicp_scope.

(** A program of the library as one of the node. *)
Definition lib_answers (a : action) : nprog (answer a) := node! r := Lib a in Ret r.
Definition lift {R} (p : prog answer R) : nprog R := interp lib_answers p.

(** *** Credentials *)

Definition CREDENTIAL_NAMES : list string := ["node_token"; "node_hmac_key"].
Definition set_plain (name : string) (v : option string) (i : NodeIdentity) : option NodeIdentity :=
  if name ==? "node_token" then Some (mkIdentity v (id_node_hmac_key i) (id_secret_refs i) (id_rest i))
  else if name ==? "node_hmac_key" then Some (mkIdentity (id_node_token i) v (id_secret_refs i) (id_rest i))
  else None.

(** [None] where the source returns an error. *)
Definition persist_identity_credential (i : NodeIdentity) (name value : string) : nprog (option NodeIdentity) :=
  match id_secret_refs i !! name with
  | Some reference =>
      node! stored := StoreSecret reference value in
      if negb stored then Ret None
      else
        node! verified := Lib (ResolveSecret reference) in
        Ret (let! v := verified in if bool_decide (v = value) then set_plain name None i else None)
  | None => Ret (set_plain name (Some value) i)
  end.
Definition update_saved_identity_credentials (i : NodeIdentity) (token : string) (hmac_key : option string)
    : nprog (option NodeIdentity) :=
  run! r := persist_identity_credential i "node_token" token in
  match r, nonempty_str hmac_key with
  | None, _ => Ret None
  | Some i, Some key => persist_identity_credential i "node_hmac_key" key
  | Some i, None => Ret (Some i)
  end.
Definition persist_saved_credentials (saved_node_name : option string) (token : string) (hmac_key : option string)
    : nprog unit :=
  match saved_node_name with
  | None => Ret tt
  | Some name =>
      if str_is_empty (trim name) || str_is_empty token then Ret tt
      else
        node! loaded := LoadNode name in
        match loaded with
        | None => Ret tt
        | Some i =>
            run! r := update_saved_identity_credentials i token hmac_key in
            match r with
            | None => Ret tt
            | Some i => node! _ := SaveNode name i in Ret tt
            end
        end
  end.
Definition apply_runtime_credentials (saved_node_name : option string) (c : RegistrationCredentials) : nprog string :=
  run! _ := (match nonempty_str (rc_node_hmac_key c) with
             | Some hmac => node! _ := Put HmacKey hmac in Ret tt
             | None => Ret tt
             end) in
  node! _ := Put Token (rc_node_token c) in
  node! hmac_snapshot := Get HmacKey in
  run! _ := persist_saved_credentials saved_node_name (rc_node_token c) (nonempty_str (Some hmac_snapshot)) in
  Ret (rc_node_token c).

(** ** The node *)

(** What an [IicpNode] holds besides its cells. *)
Record IicpNode := mkIicpNode {
  in_cfg : NodeConfig;
  in_effective_capabilities : list EffectiveCapability;
  in_cx_public_key : option CxPublicKey;
  in_saved_node_name : option string;
  in_relay_fallback_required : bool
}.

Section node.
Context (to_lowercase : string -> string) `{SerdeOps} {signing : SigningLib}.
(** [Display] of an [f64] and of an HTTP status; [CARGO_PKG_VERSION]; the texts
    of a failed request and of an undecodable answer. *)
Context (f64_display : f64 -> string) (status_display : Z -> string) (version : string)
  (send_error : bool -> string) (decode_error : string).
(** [get_cip_policy] *)
Context (global_policy : CooperativeInferencePolicy).
Context (node : IicpNode).
Notation cfg := (in_cfg node).

Definition effective_endpoint : nprog string :=
  node! o := Get EndpointOverride in Ret (default (nc_endpoint cfg) o).
Definition set_endpoint (endpoint : string) : nprog unit :=
  node! _ := Put EndpointOverride (if str_is_empty endpoint then None else Some endpoint) in Ret tt.
Definition seed_token (token : string) : nprog unit :=
  if str_is_empty token then Ret tt else node! _ := Put Token token in Ret tt.

(** [attach_update_status]: every field of [src] is copied. *)
Definition attach_update_status (src body : json) : json :=
  match body, as_object src with
  | JObject b, Some m => JObject (foldl (fun b kv => obj_insert kv.1 kv.2 b) b m)
  | _, _ => body
  end.

Definition cx_key_json (k : CxPublicKey) : json :=
  mk_obj ([("algorithm", JString (algorithm k))] ++ field_opt JString "encoding" (encoding k)
          ++ [("key", JString (cx_key k)); ("key_id", JString (cx_key_id k))]
          ++ field_if (nonempty (features k)) "features" (strings_json (features k))).

Definition set_some {A} (f : A -> json) (k : string) (o : option A) (b : json) : json :=
  match o with Some a => set_field k (f a) b | None => b end.
Definition some_if {A} (b : bool) (a : A) : option A := if b then Some a else None.

Definition advertised_capabilities : list json :=
  match in_effective_capabilities node with
  | [] => build_capabilities_with_profiles to_lowercase (configured_models cfg) (nc_intent cfg) (nc_max_tokens cfg)
            (nc_supported_profiles cfg)
  | l => capability_json <$> l
  end.
Definition base_payload (endpoint : string) : json :=
  mk_obj [("endpoint", JString endpoint); ("region", JString (default "unknown" (nc_region cfg)));
          ("capabilities", JArray advertised_capabilities);
          ("limits", mk_obj [("max_concurrent", u64_json (nc_max_concurrent cfg)); ("tokens_per_min", u64_json (nc_tokens_per_min cfg))])].
Definition with_transport (b : json) : json :=
  let b := set_some JString "transport_endpoint" (nc_transport_endpoint cfg) b in
  let b := set_some JString "transport_method" (nc_transport_method cfg) b in
  let b := set_some JString "nat_type" (nc_nat_type cfg) b in
  let b := set_some id "transport_metadata" (nc_transport_metadata cfg) b in
  let b := set_some JString "exposure_mode" (nc_exposure_mode cfg) b in
  let b := set_some strings_json "supported_receipt_profiles"
             (some_if (str_in "consumer_cosignature_v1" (nc_supported_receipt_profiles cfg)) ["consumer_cosignature_v1"]) b in
  set_field "sdk_version" (JString version) (set_field "sdk_language" (JString "rust") b).
Definition with_policy (hmac_key : string) (b : json) : json :=
  let b := set_some cx_key_json "cx_public_key" (in_cx_public_key node) b in
  let b := if nc_relay_capable cfg
           then set_field "relay_accept_port" (u64_json (nc_relay_accept_port cfg)) (set_field "relay_capable" (JBool true) b)
           else b in
  let b := set_some JString "backend" (nc_backend cfg) b in
  let b := set_some id "policy" (as_register_policy_block (default global_policy (nc_cip_policy cfg))) b in
  let b := set_some (fun p => build_pricing_block f64_display p hmac_key) "pricing" (nc_pricing cfg) b in
  let b := set_some JString "node_hmac_key" (some_if (negb (str_is_empty (nc_node_hmac_key cfg))) (nc_node_hmac_key cfg)) b in
  let b := match nc_operator_delegation cfg with
           | None => b
           | Some d =>
               set_some JString "operator_integrity_hash" (nc_operator_integrity_hash cfg)
                 (set_some JString "operator_created_at" (nc_operator_created_at cfg)
                    (set_some JString "operator_display_name" (nc_operator_display_name cfg) (set_field "operator_delegation" d b)))
           end in
  set_some id "policy_manifest" (nc_policy_manifest cfg) b.

Definition build_register_payload : nprog json :=
  run! endpoint := effective_endpoint in
  node! stashed_token := Get Token in
  node! updates := UpdateStatus in
  run! hmac_key := (match nc_pricing cfg with Some _ => node! k := Get HmacKey in Ret k | None => Ret empty_str end) in
  let b := base_payload endpoint in
  let b := if str_is_empty (nc_node_id cfg) then b else set_field "node_id" (JString (nc_node_id cfg)) b in
  let b := attach_current_node_token b stashed_token in
  Ret (with_policy hmac_key (attach_update_status updates (with_transport b))).

(** *** [register] *)

Definition post_restricted_registration_json (url : string) (body : json) (membership subject_id : string)
    : prog answer (outcome (Z * json)) :=
  run! tp := traceparent_or_new None in
  perform r := Send (directory_request "POST" url None (restricted_headers tp membership subject_id) (Some body) false) in
  send_result r (fun resp =>
    if is_redirection (rs_status resp) then refuse "restricted directory redirect is not allowed"
    else if negb (is_success (rs_status resp)) then Ret (Val (rs_status resp, registration_failure_data resp))
    else Ret (outcome_of (let? body := response_json resp in Ok (rs_status resp, body)))).

Definition register_request (url : string) (payload : json) : prog answer (outcome json) :=
  match nc_restricted_directory cfg with
  | Some context =>
      match validate_context context with
      | Err e => Ret (Fail e)
      | Ok _ =>
          perform secret := ResolveSecret (membership_credential context) in
          match secret with
          | None => Ret (Fail (PolicyRefused "restricted_membership_unavailable"
                                 "restricted directory membership credential is unavailable"))
          | Some membership =>
              await? (status, data) := post_restricted_registration_json url payload membership (subject_id context) in
              if negb (is_success status) then Ret (Fail (registration_failure (pretty status) data))
              else await? _ := validate_decision data context "registration" in Ret (Val data)
          end
      end
  | None =>
      perform r := Send (plain_post url None payload) in
      Ret (match r with
           | Err connect => Fail (NodeError (send_error connect))
           | Ok resp =>
               if negb (is_success (rs_status resp))
               then Fail (registration_failure (status_display (rs_status resp)) (registration_failure_data resp))
               else match response_json resp with Ok data => Val data | Err _ => Fail (NodeError decode_error) end
           end)
  end.

Definition projected_models : list string :=
  match in_effective_capabilities node with [] => configured_models cfg | l => effective_capability_models l end.

Definition register : nprog (outcome string) :=
  run! payload := build_register_payload in
  await? data := lift (register_request (register_url (nc_directory_url cfg)) payload) in
  match registration_token data with
  | Err e => Ret (Fail e)
  | Ok token =>
      node! _ := Put Token token in
      run! _ := (match str_is_empty (nc_node_hmac_key cfg), nonempty_str (as_str (jidx data "node_hmac_key")) with
                 | true, Some dir_key => node! _ := Put HmacKey dir_key in Ret tt
                 | _, _ => Ret tt
                 end) in
      node! hmac_snapshot := Get HmacKey in
      run! _ := persist_saved_credentials (in_saved_node_name node) token (nonempty_str (Some hmac_snapshot)) in
      node! _ := Put RegisteredModels projected_models in
      node! _ := Put PublicModels projected_models in
      run! endpoint := effective_endpoint in
      node! _ := Put RegisteredEndpoint endpoint in
      Ret (Val token)
  end.

Definition deregister (node_token : option string) : nprog (outcome unit) :=
  node! stashed := Get Token in
  let token := default stashed node_token in
  if str_is_empty token
  then Ret (Fail (NodeError "deregister() requires a node_token (none stashed — call register() first)"))
  else
    node! r := Lib (Send (mkRequestOut "DELETE" (register_url (nc_directory_url cfg)) (Some token) []
                            (Some (to_vec (mk_obj [("node_id", JString (nc_node_id cfg))]))) true None)) in
    Ret (match r with
         | Err connect => Fail (Http connect)
         | Ok resp =>
             if negb (is_success (rs_status resp)) && negb (rs_status resp =? 404)
             then Fail (NodeError ("Deregister failed: " +:+ status_display (rs_status resp))) else Val tt
         end).

(** ** Heartbeats *)

Definition heartbeat_url (directory_url : string) : string := trim_end_char "/" directory_url +:+ "/v1/heartbeat".

(** The state of one beat. *)
Definition advertised_available : nprog (bool * bool) :=
  node! public_available := Get RuntimeAvailable in
  node! relay_bound := Get RelayBound in
  Ret (public_available, heartbeat_public_available public_available (in_relay_fallback_required node) relay_bound).
Definition effective_capacity : nprog Z :=
  node! current := LocalTime in
  Ret (effective_at (mkAvailability (nc_availability_windows cfg)) (nc_max_concurrent cfg) current).
Definition probe_models : nprog (option (list string)) :=
  match nc_backend_url cfg with
  | Some url => lift (probe_health_models_bg url (nc_backend_api_key cfg) (nc_excluded_models cfg) (nc_backend cfg))
  | None => Ret None
  end.
Definition observe_stability (url : string) : nprog BackendStabilityObservation :=
  run! obs := lift (observe_backend_stability to_lowercase url (nc_backend cfg) (nc_model cfg) (nc_backend_api_key cfg)) in
  node! _ := Stability obs in Ret obs.

(** The answer to the challenge of an earlier beat. *)
Definition challenge_response (stored : option string) (hmac_key : string) : option string :=
  let! ch := stored in some_if (negb (str_is_empty hmac_key)) (sign_body (str_bytes ch) hmac_key).

Definition availability_fields (token : string) (available : bool) (max_concurrent : Z) : list (string * json) :=
  [("node_id", JString (nc_node_id cfg)); ("node_token", JString token);
   ("status", JString (if available then "available" else "recovering")); ("available", JBool available);
   ("max_concurrent", u64_json max_concurrent)].

(** [IicpNode::heartbeat]: a single beat. *)
Definition heartbeat (node_token : string) : nprog (outcome unit) :=
  run! available := advertised_available in
  run! capacity := effective_capacity in
  node! updates := UpdateStatus in
  let body := attach_update_status updates (mk_obj (availability_fields node_token available.2 capacity)) in
  node! hmac_key := Get HmacKey in
  node! stored := Get Challenge in
  let body := set_some JString "challenge_response" (challenge_response stored hmac_key) body in
  run! body := (match nc_backend_url cfg with
                | None => Ret body
                | Some url =>
                    run! live := probe_models in
                    run! obs := observe_stability url in
                    node! now := Lib UnixNow in
                    Ret (set_field "backend_stability" (public_json obs now) (set_some strings_json "health_models" live body))
                end) in
  node! r := PostHeartbeat None (plain_post (heartbeat_url (nc_directory_url cfg)) (Some node_token) body) in
  match r with
  | Err connect => Ret (Fail (NodeError (send_error connect)))
  | Ok resp =>
      if negb (is_success (rs_status resp)) then Ret (Fail (NodeError ("heartbeat failed: " +:+ status_display (rs_status resp))))
      else
        match result_ok (response_json resp) ≫= (fun data => as_str (jidx data "challenge")) with
        | Some ch => node! _ := Put Challenge (Some ch) in Ret (Val tt)
        | None => Ret (Val tt)
        end
  end.

(** *** The background loop of [serve] *)

(** What the loop captures when it starts. *)
Record hb_config := mkHbConfig {
  hc_register_payload : json;
  hc_recovery_grace : Z;
  hc_check_every : Z;
  hc_supervised : bool
}.
(** The variables of the loop. *)
Record hb_state := mkHb {
  hb_token : string;
  hb_seq : Z;
  hb_failures : Z;
  hb_pending : option PendingMetricBatch
}.
(** A round leads to the next one, or the process exits. *)
Inductive hb_end := Beat (s : hb_state) | Exits (code : Z).

(** [f64::round] of a value that is not negative *)
Definition f64_round (f : f64) : f64 :=
  match f with
  | S754_finite s m e => if 0 <=? e then f else f64_of_Z ((2 * Z.pos m + 2 ^ (- e)) / 2 ^ (1 - e))
  | _ => f
  end.
Definition avg_latency (latency total : Z) : f64 :=
  f64_div (f64_round (f64_mul (f64_div (f64_of_Z latency) (f64_of_Z total)) (f64_of_Z 100))) (f64_of_Z 100).
Definition metrics_json (batch : option PendingMetricBatch) : json :=
  match batch with
  | Some b =>
      if (0 <? pb_tasks_success b) || (0 <? pb_tasks_failed b) then
        let total := u64_add (pb_tasks_success b) (pb_tasks_failed b) in
        mk_obj ([("tasks_success", u64_json (pb_tasks_success b)); ("tasks_failed", u64_json (pb_tasks_failed b))]
                ++ field_if ((0 <? total) && (0 <? pb_latency_total_ms b)) "avg_latency_ms"
                     (f64_json (avg_latency (pb_latency_total_ms b) total)))
      else mk_obj []
  | None => mk_obj []
  end.

(** [drain_counters] of [NodeTask.v], in the loop's own terms. *)
Definition drain_batch (pending : option PendingMetricBatch) : nprog (option PendingMetricBatch) :=
  match pending with
  | Some _ => Ret pending
  | None =>
      node! ok := Tally SwapSuccess in
      node! fail := Tally SwapFailed in
      node! latency := Tally SwapLatency in
      if (0 <? ok) || (0 <? fail)
      then node! id := Tally NewBatchId in Ret (Some (mkBatch id ok fail latency))
      else Ret None
  end.

Definition loop_body (token : string) (available : bool) (capacity : Z) (pending : option PendingMetricBatch)
    (updates : json) (answer : option string) (live : option (list string)) (stability : option json) : json :=
  let b := mk_obj (availability_fields token available capacity ++ [("metrics", metrics_json pending)]) in
  let b := set_some (fun p => JString (pb_id p)) "metrics_batch_id" pending b in
  let b := attach_update_status updates b in
  let b := set_some JString "challenge_response" answer b in
  let b := set_some strings_json "health_models" live b in
  set_some id "backend_stability" stability b.

(** Re-register and install what the directory returned; [Some] of the new
    token. *)
Definition renew (payload : json) (accepted : nprog unit) : nprog (option string) :=
  run! c := lift (reregister (register_url (nc_directory_url cfg)) payload (nc_restricted_directory cfg)) in
  match c with
  | None => Ret None
  | Some credentials =>
      run! _ := accepted in
      run! token := apply_runtime_credentials (in_saved_node_name node) credentials in
      Ret (Some token)
  end.

(** [check_model_drift_and_reregister]: what the loop does about drift, as one
    operation on the current registration payload. *)
Definition differs (live registered : list string) : bool :=
  negb (bool_decide (list_to_set live = (list_to_set registered : gset string))).

Definition check_model_drift_and_reregister : nprog unit :=
  node! registered_ep := Get RegisteredEndpoint in
  run! endpoint_changed := (if str_is_empty registered_ep then Ret false
                            else run! ep := effective_endpoint in Ret (ep <>? registered_ep)) in
  run! live := probe_models in
  let live := default [] live in
  run! models_changed := (if nonempty (in_effective_capabilities node) || negb (nonempty live) then Ret false
                          else node! registered := Get RegisteredModels in Ret (differs live registered)) in
  if negb endpoint_changed && negb models_changed then Ret tt
  else
    run! payload := build_register_payload in
    let caps := build_capabilities_with_profiles to_lowercase live (nc_intent cfg) (nc_max_tokens cfg) (nc_supported_profiles cfg) in
    let payload := if models_changed then set_field "capabilities" (JArray caps) payload else payload in
    run! _ := renew payload
      (run! _ := (if models_changed then node! _ := Put RegisteredModels live in node! _ := Put PublicModels live in Ret tt
                  else Ret tt) in
       run! ep := effective_endpoint in
       node! _ := Put RegisteredEndpoint ep in Ret tt) in
    Ret tt.

Context (hb : hb_config).

(** #494: the backend serves other models than the ones registered. *)
Definition model_drift (token : string) (live : option (list string)) : nprog string :=
  match live with
  | None => Ret token
  | Some live =>
      if nonempty (in_effective_capabilities node) || negb (nonempty live) then Ret token
      else
        node! registered := Get RegisteredModels in
        if negb (differs live registered) then Ret token
        else
          let caps := build_capabilities_with_profiles to_lowercase live (nc_intent cfg) (nc_max_tokens cfg)
                        (nc_supported_profiles cfg) in
          run! t := renew (set_field "capabilities" (JArray caps) (attach_current_node_token (hc_register_payload hb) token))
            (node! _ := Put RegisteredModels live in node! _ := Put PublicModels live in Ret tt) in
          Ret (default token t)
  end.

(** #527: a tunnel was given another address. *)
Definition endpoint_rotation (token : string) (public_available : bool) : nprog string :=
  node! override := Get EndpointOverride in
  match override with
  | None => Ret token
  | Some ep =>
      node! registered := Get RegisteredEndpoint in
      if negb (public_available && (ep <>? registered)) then Ret token
      else
        run! t := renew (set_field "current_node_token" (JString token) (set_field "endpoint" (JString ep) (hc_register_payload hb)))
          (node! _ := Put RegisteredEndpoint ep in Ret tt) in
        Ret (default token t)
  end.

Definition next_failures (failures : Z) (public : bool) (p : DirectoryPresence) : Z :=
  if negb public || bool_decide (p = Absent) then Z.min (failures + 1) u32_max
  else if bool_decide (p = Present) then 0 else failures.

(** The recovery check: the new token and failure count, or the exit. *)
Definition recovery_check (token : string) (failures : Z) (obs : option BackendStabilityObservation)
    : nprog (option (string * Z)) :=
  run! status := lift (registry_route_status (nc_directory_url cfg) (nc_node_id cfg)) in
  node! public_now := Get RuntimeAvailable in
  node! relay_bound := Get RelayBound in
  let public := effective_public_route_available public_now (route_needs_promotion status) relay_bound in
  let failures := next_failures failures public (presence status) in
  run! o := (match obs with Some o => Ret o | None => node! o := StabilityGet in Ret o end) in
  node! now := Lib UnixNow in
  match (classify true public (presence status) failures (hc_recovery_grace hb) (is_draining o now)).2 with
  | Reregister =>
      node! override := Get EndpointOverride in
      let payload := set_field "current_node_token" (JString token)
                       (set_some JString "endpoint" override (hc_register_payload hb)) in
      run! t := renew payload
        (match as_str (jidx payload "endpoint") with
         | Some ep => node! _ := Put RegisteredEndpoint ep in Ret tt
         | None => Ret tt
         end) in
      Ret (Some (match t with Some token => (token, 0) | None => (token, failures) end))
  | RestartSelf => Ret (if hc_supervised hb then None else Some (token, failures))
  | _ => Ret (Some (token, failures))
  end.

Definition directory_health (state : Health.SubsystemState) : nprog unit :=
  node! _ := LocalHealth (Health.SetExternal "directory" state) in
  node! _ := LocalHealth Health.AdvanceSupervisor in Ret tt.

(** The directory answered with success. *)
Definition beat_accepted (s : hb_state) (resp : http_response) (public_available : bool) (live : option (list string))
    (obs : option BackendStabilityObservation) : nprog hb_end :=
  run! _ := directory_health Health.SHealthy in
  let data := result_ok (response_json resp) in
  run! _ := (match data ≫= (fun d => as_str (jidx d "challenge")) with
             | Some ch => node! _ := Put Challenge (Some ch) in Ret tt
             | None => Ret tt
             end) in
  let pending := reconcile_metric_batch (hb_pending s) (DeliveryAccepted data) in
  run! token := model_drift (hb_token s) live in
  run! token := endpoint_rotation token public_available in
  if (0 <? hc_check_every hb) && (hb_seq s mod hc_check_every hb =? 0) then
    run! r := recovery_check token (hb_failures s) obs in
    Ret (match r with
         | Some (token, failures) => Beat (mkHb token (hb_seq s) failures pending)
         | None => Exits RECOVERY_EXIT_CODE
         end)
  else Ret (Beat (mkHb token (hb_seq s) (hb_failures s) pending)).

(** #399: the directory does not know the node; the payload is the one captured
    when [serve] started. *)
Definition beat_unknown (s : hb_state) : nprog hb_end :=
  run! t := renew (hc_register_payload hb) (Ret tt) in
  Ret (Beat (mkHb (default (hb_token s) t) (hb_seq s) (hb_failures s) (hb_pending s))).
Definition unknown_status (status : Z) : bool := (status =? 401) || (status =? 404) || (status =? 410).

Definition tick (s : hb_state) : nprog hb_end :=
  node! _ := LocalHealth Health.AdvanceSupervisor in
  let seq := u64_add (hb_seq s) 1 in
  run! pending := drain_batch (hb_pending s) in
  let s := mkHb (hb_token s) seq (hb_failures s) pending in
  run! live := probe_models in
  run! obs := (match nc_backend_url cfg with Some url => run! o := observe_stability url in Ret (Some o) | None => Ret None end) in
  run! available := advertised_available in
  run! capacity := effective_capacity in
  node! updates := UpdateStatus in
  node! stored := Get Challenge in
  node! hmac_key := Get HmacKey in
  run! stability := (match obs with Some o => node! now := Lib UnixNow in Ret (Some (public_json o now)) | None => Ret None end) in
  let body := loop_body (hb_token s) available.2 capacity pending updates (challenge_response stored hmac_key) live stability in
  node! r := PostHeartbeat pending (plain_post (heartbeat_url (nc_directory_url cfg)) (Some (hb_token s)) body) in
  match r with
  | Ok resp =>
      if is_success (rs_status resp) then beat_accepted s resp available.1 live obs
      else if unknown_status (rs_status resp) then beat_unknown s
      else run! _ := directory_health Health.Unavailable in Ret (Beat s)
  | Err _ => run! _ := directory_health Health.Unavailable in Ret (Beat s)
  end.

(** [n] rounds; the loop has no end of its own. *)
Fixpoint heartbeat_rounds (n : nat) (wait : bool) (s : hb_state) : nprog hb_end :=
  match n with
  | O => Ret (Beat s)
  | S n =>
      run! _ := (if wait then node! _ := Pause HEARTBEAT_INTERVAL_SECS in Ret tt else Ret tt) in
      run! e := tick s in
      match e with Beat s => heartbeat_rounds n true s | Exits code => Ret (Exits code) end
  end.

(** The loop that [serve] spawns when it is given a token. *)
Definition serve_heartbeats (n : nat) (node_token : string) : nprog hb_end :=
  heartbeat_rounds n (heartbeat_waits_before_first_tick node_token) (mkHb node_token 0 0 None).

(** ** The relay worker's callbacks in [serve] *)

Definition relay_endpoint (host : string) (port : Z) (worker_id : string) : string :=
  "http://" +:+ host +:+ ":" +:+ pretty port +:+ "/v1/relay-for/" +:+ worker_id.
Definition relay_payload (payload : json) (host : string) (port : Z) (worker_id : string) : json :=
  set_field "transport_metadata" (mk_obj [("relay_for", JString worker_id); ("relay_host", JString host); ("relay_port", u64_json port)])
    (set_field "transport_method" (JString "turn_relay") (set_field "endpoint" (JString (relay_endpoint host port worker_id)) payload)).

(** [payload] is the one captured when [serve] started. *)
Definition on_bind (payload : json) (host : string) (port : Z) (worker_id : string) : nprog unit :=
  node! _ := Put RelayBound true in
  node! current := Get Token in
  run! _ := renew (attach_current_node_token (relay_payload payload host port worker_id) current)
    (node! _ := Put RegisteredEndpoint (relay_endpoint host port worker_id) in Ret tt) in
  Ret tt.
Definition on_disconnect : nprog unit := node! _ := Put RelayBound false in Ret tt.

(** [host:port] with a default port. *)
Definition relay_target_of (ep : string) : string * Z :=
  match rev (str_split ":" ep) with
  | port :: (_ :: _) as front => (str_join ":" (rev (tail front)), default 9485 (parse_uint u16_max port))
  | _ => (ep, 9485)
  end.
End node.

(** ** Tasks that arrive over the relay or the native transport

    Both run the handler that the HTTP endpoint runs, without its gates. *)

Section forwarded.
Context {serde : TaskSerde} {crypto : CxCrypto}.
(** [Display] of an error *)
Context (error_display : IicpError -> string).

Definition as_envelope (v : json) : option envelope := let! m := as_object v in Some (list_to_map m).
Definition relay_request (task : json) : TaskRequest :=
  mkTaskRequest (default empty_str (get_str task "task_id")) (default empty_str (get_str task "intent")) (jidx task "payload")
    (jget task "iicp_conf" ≫= as_envelope) (get_str task "cx_response_encryption") (jget task "constraints")
    (jget task "auth") None (get_str task "source_node_id") None.
Definition native_request (task_id intent : string) (payload : json) : TaskRequest :=
  mkTaskRequest task_id intent payload None None None None None None None.

(** A failed handler answers with its error's text; a panic ends the task. *)
Definition call_handler (req : TaskRequest) : prog tresp (outcome json) :=
  step! result := Handle req in
  Ret (match result with Fail e => Val (mk_obj [("error", JString (error_display e))]) | r => r end).

Definition relay_error (code message : string) : json := mk_obj [("error", mk_obj (code_message code message))].
Definition relay_sealed (task_id : string) (e : envelope) : json :=
  mk_obj [("task_id", JString task_id); ("status", JString "encrypted"); ("iicp_conf_resp", mk_obj (map_to_list e))].

Definition relay_run (req : TaskRequest) (secret : option (list byte)) : prog tresp (outcome json) :=
  run! result := call_handler req in
  match result with
  | Val result =>
      if negb (response_required req) then Ret (Val result)
      else
        match secret with
        | None => Ret (Val (relay_error "IICP-CX-03" "encrypted response requested without an encrypted request"))
        | Some secret =>
            step! nonce := RandomNonce in
            Ret (Val (match encrypt_response nonce (plain_response (tq_task_id req) result) secret (tq_task_id req) with
                      | Ok e => relay_sealed (tq_task_id req) e
                      | Err e => relay_error "IICP-CX-04" ("response encryption failed: " +:+ node_error_text e)
                      end))
        end
  | r => Ret r
  end.

Definition relay_handler (cx_private_key : option (list byte)) (task : json) : prog tresp (outcome json) :=
  let req := relay_request task in
  match is_null (tq_payload req), tq_iicp_conf req with
  | true, Some conf =>
      match cx_private_key with
      | None => Ret (Val (relay_error "IICP-CX-02" "iicp_conf decrypt failed: node error: node has no CX private key"))
      | Some key =>
          match decrypt_payload_with_context conf key with
          | Val (payload, secret) => relay_run (with_clear_payload req payload) (Some secret)
          | Fail e => Ret (Val (relay_error "IICP-CX-02" ("iicp_conf decrypt failed: " +:+ node_error_text e)))
          | Panic => Ret Panic
          end
      end
  | _, _ => relay_run req None
  end.
Definition native_handler (task_id intent : string) (payload : json) : prog tresp (outcome json) :=
  call_handler (native_request task_id intent payload).
End forwarded.
