(* ===== verification/NodeHeartbeat.v ===== *)
(** * What the heartbeat loop of a node does

    Theorems about [NodeRuntime.v], on every path of the loop: whatever the
    directory and the backend answer and whatever the other tasks of the node do
    to the shared state in between. *)

From S2P Require Import Prelude Program Text Json HttpResource ClientTypes ClientEffects Endpoint HttpClient ConsumerToken Signing Gate Capability Recovery Provider NodeTask NodeRuntime.

(** ** Traces *)

Notation ntrace := (list (step node_answer)).

Definition lib_step (x : step answer) : step node_answer := match x with Did a r => Did (Lib a) r end.
Definition lib_of (x : step node_answer) : option (step answer) :=
  match x with Did a r => match a return node_answer a -> option (step answer) with Lib a => fun r => Some (Did a r) | _ => fun _ => None end r end.
(** What the library did. *)
Definition lib_part (s : ntrace) : list (step answer) := omap lib_of s.

Lemma lib_part_app s t : lib_part (s ++ t) = lib_part s ++ lib_part t.
Proof. apply omap_app. Qed.
Lemma lib_part_lift tr : lib_part (lib_step <$> tr) = tr.
Proof. induction tr as [|[a r] tr IH]; [done|]. cbn. f_equal. exact IH. Qed.

(** A library program, run by the node. *)
Lemma along_lift {R} (fin : list (step answer) -> R -> Prop) (ok : ntrace -> node_action -> Prop) s0 tr (p : prog answer R) :
  (forall s a, ok s (Lib a)) -> along log (fun _ _ => True) fin tr p ->
  along log ok (fun s r => exists tr', s = s0 ++ (lib_step <$> tr') /\ fin tr' r) (s0 ++ (lib_step <$> tr)) (lift p).
Proof.
  intros Hok. revert tr. induction p as [r|a k IH]; intros tr Hp; cbn [lift interp]; [by exists tr|].
  destruct Hp as [_ Hk]. cbn [lib_answers prog_bind along]. split; [apply Hok|]. intros r.
  specialize (IH r _ (Hk r)). unfold log in *. by rewrite fmap_app, app_assoc in IH.
Qed.

(** The last of the answers that [f] selects. *)
Definition latest {X} (f : step node_answer -> option X) (s : ntrace) : option X := list.last (omap f s).
Lemma latest_snoc {X} (f : step node_answer -> option X) s x :
  latest f (s ++ [x]) = match f x with Some v => Some v | None => latest f s end.
Proof.
  unfold latest. rewrite omap_app. cbn [omap list_omap]. destruct (f x); [by rewrite last_snoc|by rewrite app_nil_r].
Qed.

Definition token_written (x : step node_answer) : option string :=
  match x with
  | Did a _ => match a with Put c v => match c return cell_type c -> option string with Token => Some | _ => fun _ => None end v | _ => None end
  end.
Definition read_flag (flag : cell) (x : step node_answer) : option bool :=
  match x with
  | Did a r =>
      match a return node_answer a -> option bool with
      | Get c => if decide (c = flag) then match c return cell_type c -> option bool with RuntimeAvailable | RelayBound => Some | _ => fun _ => None end else fun _ => None
      | _ => fun _ => None
      end r
  end.

Section loop.
Context (to_lowercase : string -> string) `{SerdeOps} {signing : SigningLib}.
Context (node : IicpNode) (hb : hb_config).
Notation cfg := (in_cfg node).
Notation directory := (nc_directory_url cfg).

(** ** Registrations *)

(** The directory was sent [payload] and answered with [c]; a restricted
    directory, moreover, with a decision that makes the node eligible. *)
Definition registered_with (payload : json) (c : RegistrationCredentials) (tr : list (step answer)) : Prop :=
  exists rq resp data, Did (resp:=answer) (Send rq) (Ok resp) ∈ tr /\
    rq_url rq = register_url directory /\ rq_body rq = Some (to_vec payload) /\
    is_success (rs_status resp) = true /\ response_json resp = Ok data /\ credentials_of data = Some c /\
    match nc_restricted_directory cfg with Some context => eligible_now context "registration" data tr | None => True end.

Lemma eligible_app context op data t1 t2 : eligible_now context op data t1 -> eligible_now context op data (t1 ++ t2).
Proof. intros (raw & d & now & ? & ? & ? & Hr). exists raw, d, now. do 2 (split; [done|]). split; [set_solver|done]. Qed.
Lemma registered_app payload c t1 t2 : registered_with payload c t1 -> registered_with payload c (t1 ++ t2).
Proof.
  intros (rq & resp & data & Hin & Hr). exists rq, resp, data. split; [set_solver|]. destruct Hr as (? & ? & ? & ? & ? & He).
  do 5 (split; [done|]). destruct (nc_restricted_directory cfg); [by apply eligible_app|done].
Qed.
Lemma eligible_before context op data t1 t2 : eligible_now context op data t2 -> eligible_now context op data (t1 ++ t2).
Proof. intros (raw & d & now & ? & ? & ? & Hr). exists raw, d, now. do 2 (split; [done|]). split; [set_solver|done]. Qed.
Lemma registered_before payload c t1 t2 : registered_with payload c t2 -> registered_with payload c (t1 ++ t2).
Proof.
  intros (rq & resp & data & Hin & Hr). exists rq, resp, data. split; [set_solver|]. destruct Hr as (? & ? & ? & ? & ? & He).
  do 5 (split; [done|]). destruct (nc_restricted_directory cfg); [by apply eligible_before|done].
Qed.

Lemma reregister_along payload :
  along log (fun _ _ => True) (fun tr o => forall c, o = Some c -> registered_with payload c tr) []
    (reregister (register_url directory) payload (nc_restricted_directory cfg)).
Proof.
  unfold reregister, registered_with. destruct (nc_restricted_directory cfg) as [context|].
  - destruct (validate_context context); [|done]. split; [done|]. intros [membership|]; [|done].
    eapply along_bind; [by apply post_restricted_along|]. intros tr [[status data]|e|] Hp; [|done..].
    destruct Hp as (rq & resp & Hin & Hu & Hb & Hbody & Hf & Hs & Hj). cbn in Hs, Hj. subst status.
    destruct (is_success (rs_status resp)) eqn:Es; [|done]. cbn [negb].
    eapply along_bind; [apply (validate_decision_along _ _ _ context "registration" (fun tr' => Did (resp:=answer) (Send rq) (Ok resp) ∈ tr'))|]; [done| |done|].
    { intros tr' x. set_solver. }
    intros tr2 [e|e|] He; [|done..]. destruct He as [Hin2 He]. intros c Hc. by exists rq, resp, data.
  - split; [done|]. intros r. intros c (resp & Hs & (data & Hd & Hc)%bind_Some)%bind_Some.
    destruct r as [resp'|]; [|done]. cbn [success] in Hs. destruct (is_success (rs_status resp')) eqn:Es; [|done].
    injection Hs as ->. destruct (response_json resp) as [d|] eqn:Ej; [|done]. injection Hd as ->.
    eexists _, resp, data. split; [apply elem_last|]. done.
Qed.

(** ** What the loop may do *)

Section paths.
Context (token0 : string).

Definition last_token (s : ntrace) : string := default token0 (latest token_written s).
Definition flag (c : cell) (s : ntrace) : bool := default false (latest (read_flag c) s).

Definition from_registration (s : ntrace) (P : json -> RegistrationCredentials -> Prop) : Prop :=
  exists payload c, registered_with payload c (lib_part s) /\ P payload c.

(** A heartbeat carries the token the loop last installed and the availability
    it just read; a credential is installed only from a registration, the
    registered models and endpoint change only to what a registration said, and
    the public models together with the registered ones. *)
Definition beat_ok (s : ntrace) (a : node_action) : Prop :=
  match a with
  | PostHeartbeat batch rq =>
      exists capacity updates response live stability,
        rq = plain_post (heartbeat_url directory) (Some (last_token s))
          (loop_body node (last_token s)
             (heartbeat_public_available (flag RuntimeAvailable s) (in_relay_fallback_required node) (flag RelayBound s))
             capacity batch updates response live stability)
  | Put Token t => from_registration s (fun _ c => t = rc_node_token c)
  | Put HmacKey k => from_registration s (fun _ c => rc_node_hmac_key c = Some k)
  | Put RegisteredModels l => from_registration s (fun payload _ => jget payload "capabilities" =
      Some (JArray (build_capabilities_with_profiles to_lowercase l (nc_intent cfg) (nc_max_tokens cfg) (nc_supported_profiles cfg))))
  | Put PublicModels l => exists s', s = s' ++ [Did (resp:=node_answer) (Put RegisteredModels l) tt]
  | Put RegisteredEndpoint ep => from_registration s (fun payload _ => get_str payload "endpoint" = Some ep)
  | _ => True
  end.

Definition quiet (a : node_action) : Prop := match a with Put _ _ | PostHeartbeat _ _ => False | _ => True end.

Lemma quiet_token s a r : quiet a -> last_token (log s a r) = last_token s.
Proof. intros Ha. unfold last_token, log. rewrite latest_snoc. by destruct a. Qed.
Lemma quiet_along {R} (p : nprog R) s :
  acts quiet p -> along log beat_ok (fun s' _ => last_token s' = last_token s) s p.
Proof.
  intros Hp. enough (forall s', last_token s' = last_token s -> along log beat_ok (fun s' _ => last_token s' = last_token s) s' p) by auto.
  induction p as [r|a k IH]; intros s' Hs; [done|]. destruct Hp as [Ha Hk]. split; [by destruct a|].
  intros r. apply IH; [apply Hk|]. by rewrite quiet_token.
Qed.
Lemma quiet_lift {R} (p : prog answer R) : acts quiet (lift p).
Proof. apply (acts_interp (fun _ => True)); [by intros a _|]. induction p; [done|]. split; auto. Qed.

Lemma persist_quiet o token hmac : acts quiet (persist_saved_credentials o token hmac).
Proof.
  unfold persist_saved_credentials, update_saved_identity_credentials, persist_identity_credential. acts_split; exact I.
Qed.
Lemma probe_quiet : acts quiet (probe_models node).
Proof. unfold probe_models. destruct (nc_backend_url cfg); [apply quiet_lift|done]. Qed.
Lemma observe_quiet url : acts quiet (observe_stability to_lowercase node url).
Proof. unfold observe_stability. apply acts_bind; [apply quiet_lift|]. intros o. by apply acts_act. Qed.

Lemma lib_part_prefix s s' : s `prefix_of` s' -> exists t, lib_part s' = lib_part s ++ t.
Proof. intros [t ->]. exists (lib_part t). apply lib_part_app. Qed.
Lemma registered_prefix payload c s s' :
  s `prefix_of` s' -> registered_with payload c (lib_part s) -> registered_with payload c (lib_part s').
Proof. intros [t E]%lib_part_prefix Hr. rewrite E. by apply registered_app. Qed.
Lemma from_registration_prefix s s' P : s `prefix_of` s' -> from_registration s P -> from_registration s' P.
Proof. intros Hp (payload & c & Hr & HP). exists payload, c. split; [by eapply registered_prefix|done]. Qed.
Lemma prefix_log (s : ntrace) a r : s `prefix_of` log s a r.
Proof. by apply prefix_app_r. Qed.

Lemma apply_along s payload c name :
  registered_with payload c (lib_part s) ->
  along log beat_ok (fun s' t => t = rc_node_token c /\ last_token s' = t) s (apply_runtime_credentials name c).
Proof.
  intros Hr. unfold apply_runtime_credentials.
  eapply (along_bind _ _ (fun s' _ => registered_with payload c (lib_part s'))).
  { destruct (nonempty_str (rc_node_hmac_key c)) as [hmac|] eqn:Eh; [|done]. split.
    - exists payload, c. split; [done|]. unfold nonempty_str in Eh. apply bind_Some in Eh as (x & Hx & Ex).
      destruct (str_is_empty x); [done|]. by injection Ex as <-.
    - intros []. cbn [along]. eapply registered_prefix; [apply prefix_log|done]. }
  intros s1 [] H1. split; [exists payload, c; by split|]. intros []. split; [done|]. intros hmac.
  eapply along_bind; [apply quiet_along, persist_quiet|]. intros s2 [] H2. cbn [along]. split; [done|].
  rewrite H2. unfold last_token, log. by rewrite !latest_snoc.
Qed.

Lemma renew_along s payload accepted :
  (forall s1 c, registered_with payload c (lib_part s1) -> along log beat_ok (fun _ _ => True) s1 accepted) ->
  along log beat_ok (fun s' t => last_token s' = default (last_token s) t) s (renew node payload accepted).
Proof.
  intros Ha. unfold renew.
  eapply (along_bind _ _ (fun s' o => last_token s' = last_token s /\ forall c, o = Some c -> registered_with payload c (lib_part s'))).
  { pose proof (along_lift _ beat_ok s [] _ (fun _ _ => I) (reregister_along payload)) as Hl. rewrite app_nil_r in Hl.
    eapply along_mono; [|exact Hl]. intros s' o (tr & -> & Hf). split.
    - unfold last_token, latest. rewrite omap_app. replace (omap token_written (lib_step <$> tr)) with (@nil string); [by rewrite app_nil_r|].
      clear. induction tr as [|[a r] tr IH]; [done|]. cbn. exact IH.
    - intros c Hc. rewrite lib_part_app, lib_part_lift. apply registered_before. by apply Hf. }
  intros s1 [c|] [Ht Hr]; [|done]. specialize (Hr c eq_refl).
  eapply along_bind; [apply along_prefix; eapply Ha; exact Hr|]. intros s2 [] [_ Hp].
  eapply along_bind; [apply (apply_along _ payload c); by eapply registered_prefix|]. intros s3 t [-> H3]. done.
Qed.

(** *** The branches of a round *)

Context (Hobject : is_some (as_object (hc_register_payload hb)) = true).

Lemma jget_set_field k v b k' : is_some (as_object b) = true -> jget (set_field k v b) k' = if k ==? k' then Some v else jget b k'.
Proof. destruct b; try done. intros _. apply obj_get_insert. Qed.
Lemma object_set_field k v b : is_some (as_object b) = true -> is_some (as_object (set_field k v b)) = true.
Proof. by destruct b. Qed.
Lemma object_attach b token : is_some (as_object b) = true -> is_some (as_object (attach_current_node_token b token)) = true.
Proof. unfold attach_current_node_token. destruct (str_is_empty token); [done|apply object_set_field]. Qed.

Lemma drift_along s live :
  along log beat_ok (fun s' t => last_token s' = t) s (model_drift to_lowercase node hb (last_token s) live).
Proof.
  unfold model_drift. destruct live as [live|]; [|done]. destruct (_ || _); [done|]. split; [done|]. intros reg.
  destruct (differs live reg); cbn [negb along]; [|by rewrite quiet_token].
  eapply along_bind; [apply renew_along|].
  - intros s1 c Hr. split.
    + eexists _, c. split; [exact Hr|]. rewrite jget_set_field by (by apply object_attach). done.
    + intros []. split; [by exists s1|]. done.
  - intros s1 t Ht. cbn [along]. by rewrite Ht, quiet_token.
Qed.

Lemma rotation_along s public :
  along log beat_ok (fun s' t => last_token s' = t) s (endpoint_rotation node hb (last_token s) public).
Proof.
  unfold endpoint_rotation. split; [done|]. intros [ep|]; [|cbn [along]; by rewrite quiet_token]. split; [done|]. intros reg.
  destruct (public && (ep <>? reg)); cbn [negb along]; [|by rewrite !quiet_token].
  eapply along_bind; [apply renew_along|].
  - intros s1 c Hr. split; [|done]. eexists _, c. split; [exact Hr|]. unfold get_str.
    rewrite jget_set_field by (by apply object_set_field). cbn. by rewrite jget_set_field.
  - intros s1 t Ht. cbn [along]. by rewrite Ht, !quiet_token.
Qed.

Lemma recovery_along s failures obs :
  along log beat_ok (fun s' r => forall t f, r = Some (t, f) -> last_token s' = t) s
    (recovery_check node hb (last_token s) failures obs).
Proof.
  unfold recovery_check. eapply along_bind; [apply quiet_along, quiet_lift|]. intros s1 status H1.
  split; [done|]. intros pub. split; [done|]. intros bound.
  eapply (along_bind _ _ (fun s' _ => last_token s' = last_token s)).
  { destruct obs; [cbn; by rewrite !quiet_token|]. split; [done|]. intros o. cbn. by rewrite !quiet_token. }
  intros s2 o H2. split; [done|]. intros now. case_match; cbn [along]; try (intros t f [= <- _]; by rewrite quiet_token).
  - split; [done|]. intros override. rewrite <- H2.
    eapply along_bind; [apply renew_along|].
    + intros s3 c Hr. case_match eqn:E; [|done]. split; [|done]. eexists _, c. split; [exact Hr|]. unfold jidx in E.
      unfold get_str. by destruct (jget _ _).
    + intros s3 [t|] H3; cbn [along]; intros t' f [= <- _]; by rewrite H3, ?quiet_token.
  - destruct (hc_supervised hb); [done|]. intros t f [= <- _]. by rewrite quiet_token.
Qed.

(** *** A round *)

Definition beat_end (s : ntrace) (e : hb_end) : Prop := match e with Beat b => last_token s = hb_token b | Exits _ => True end.
(** A program after which the loop still holds its token. *)
Definition keeps {R} (p : nprog R) : Prop := forall s, along log beat_ok (fun s' _ => last_token s' = last_token s) s p.

Lemma health_keeps state : keeps (directory_health state).
Proof. intros s. do 2 (split; [done|]; intros []). cbn [along]. by rewrite !quiet_token. Qed.
Lemma challenge_keeps (o : option string) :
  keeps (match o with Some ch => node! _ := Put Challenge (Some ch) in Ret tt | None => Ret tt end).
Proof. intros s. destruct o as [ch|]; [|done]. split; [done|]. intros []. cbn [along]. unfold last_token, log. by rewrite latest_snoc. Qed.

Lemma accepted_along s st resp public live obs :
  last_token s = hb_token st -> along log beat_ok beat_end s (beat_accepted to_lowercase node hb st resp public live obs).
Proof.
  intros Hs. unfold beat_accepted. eapply along_bind; [apply health_keeps|]. intros s1 [] H1.
  eapply along_bind; [apply challenge_keeps|]. intros s2 [] H2. rewrite <- Hs, <- H1, <- H2.
  eapply along_bind; [apply drift_along|]. intros s3 t <-. eapply along_bind; [apply rotation_along|]. intros s4 t <-.
  destruct (_ && _); [|done]. eapply along_bind; [apply recovery_along|]. intros s5 [[t f]|] H5; [|done]. cbn.
  by eapply H5.
Qed.
Lemma unknown_along s st : last_token s = hb_token st -> along log beat_ok beat_end s (beat_unknown node hb st).
Proof.
  intros Hs. unfold beat_unknown. eapply along_bind; [by apply renew_along|]. intros s1 [t|] H1; cbn; by rewrite H1.
Qed.

Lemma flag_other c s a r : match a with Get RuntimeAvailable | Get RelayBound => False | _ => True end -> flag c (log s a r) = flag c s.
Proof.
  intros Ha. unfold flag, log. rewrite latest_snoc. destruct a; try done. destruct c0; try done; cbn; by case_decide.
Qed.
Lemma flag_read_available s b : flag RuntimeAvailable (log s (Get RuntimeAvailable) b) = b.
Proof. unfold flag, log. by rewrite latest_snoc. Qed.
Lemma flag_read_bound s b : flag RelayBound (log s (Get RelayBound) b) = b.
Proof. unfold flag, log. by rewrite latest_snoc. Qed.
Lemma flag_keep_available s b : flag RuntimeAvailable (log s (Get RelayBound) b) = flag RuntimeAvailable s.
Proof. unfold flag, log. by rewrite latest_snoc. Qed.

(** The flags that a heartbeat reports are the ones it read. *)
Definition flags_are (s : ntrace) (available : bool * bool) : Prop :=
  available.2 = heartbeat_public_available (flag RuntimeAvailable s) (in_relay_fallback_required node) (flag RelayBound s).
Lemma flags_other s a r available :
  match a with Get RuntimeAvailable | Get RelayBound => False | _ => True end -> flags_are s available -> flags_are (log s a r) available.
Proof. intros Ha. unfold flags_are. by rewrite !flag_other. Qed.

Lemma available_along s t :
  last_token s = t -> along log beat_ok (fun s' a => last_token s' = t /\ flags_are s' a) s (advertised_available node).
Proof.
  intros Hs. unfold advertised_available. split; [done|]. intros pub. split; [done|]. intros bound. cbn [along].
  split; [by rewrite !quiet_token|]. unfold flags_are. by rewrite flag_read_bound, flag_keep_available, flag_read_available.
Qed.

Lemma drain_keeps pending : keeps (drain_batch pending).
Proof.
  intros s. apply quiet_along. unfold drain_batch. destruct pending; [done|].
  do 3 (apply acts_act; [done|]; intros ?). destruct (_ || _); [|done]. by apply acts_act.
Qed.
Lemma observation_keeps :
  keeps (match nc_backend_url cfg with Some url => run! o := observe_stability to_lowercase node url in Ret (Some o) | None => Ret None end).
Proof. intros s. apply quiet_along. destruct (nc_backend_url cfg); [|done]. apply acts_bind; [apply observe_quiet|done]. Qed.

Lemma tick_along s st : last_token s = hb_token st -> along log beat_ok beat_end s (tick to_lowercase node hb st).
Proof.
  intros Hs. unfold tick. split; [done|]. intros [].
  eapply along_bind; [apply drain_keeps|]. intros s1 pending H1. rewrite quiet_token in H1 by done.
  eapply along_bind; [apply quiet_along, probe_quiet|]. intros s2 live H2.
  eapply along_bind; [apply observation_keeps|]. intros s3 obs H3.
  eapply along_bind; [apply (available_along _ (hb_token st)); congruence|]. intros s4 available [H4 F4].
  eapply (along_bind _ _ (fun s' _ => last_token s' = hb_token st /\ flags_are s' available)).
  { split; [done|]. intros cur. cbn [along]. rewrite quiet_token by done. split; [done|]. by apply flags_other. }
  intros s5 capacity [H5 F5]. split; [done|]. intros updates. split; [done|]. intros stored. split; [done|]. intros hmac.
  eapply (along_bind _ _ (fun s' _ => last_token s' = hb_token st /\ flags_are s' available)).
  { destruct obs; [split; [done|]; intros now|]; cbn [along]; rewrite !quiet_token by done;
      (split; [done|]; repeat (apply flags_other; [done|]); done). }
  intros s6 stability [H6 F6]. cbn [hb_token]. split.
  { cbn [beat_ok]. eexists capacity, _, _, _, _. rewrite H6. unfold flags_are in F6. rewrite F6. reflexivity. }
  intros r. set (s7 := log s6 _ _). assert (last_token s7 = hb_token st) as H7 by (unfold s7, last_token, log; by rewrite latest_snoc).
  destruct r as [resp|connect].
  - destruct (is_success _); [by apply accepted_along|]. destruct (unknown_status _); [by apply unknown_along|].
    eapply along_bind; [apply health_keeps|]. intros s8 [] H8. cbn. congruence.
  - eapply along_bind; [apply health_keeps|]. intros s8 [] H8. cbn. congruence.
Qed.

Lemma rounds_along n wait s st :
  last_token s = hb_token st -> along log beat_ok beat_end s (heartbeat_rounds to_lowercase node hb n wait st).
Proof.
  revert wait s st. induction n as [|n IH]; intros wait s st Hs; [done|]. cbn [heartbeat_rounds].
  eapply (along_bind _ _ (fun s' _ => last_token s' = last_token s)).
  { destruct wait; [|done]. split; [done|]. intros []. cbn [along]. by rewrite quiet_token. }
  intros s1 [] H1. eapply along_bind; [apply tick_along; congruence|]. intros s2 [b|code] H2; [by apply IH|done].
Qed.
End paths.

(** C17: whatever the directory, the backend and the other tasks of the node do, on
    every path of the heartbeat loop: each heartbeat carries the token that the
    loop installed last — at first the one it was started with — and says
    "available" exactly when the runtime gate it just read is open and, where the
    route depends on a relay, the relay is bound; a credential is installed only
    if the directory accepted a registration with it (a restricted directory: with
    an eligible decision); the registered models and endpoint change only to what
    such a registration carried, and the public models change only together with
    the registered ones. *)
Theorem heartbeat_honest answer n k token tr e :
  is_some (as_object (hc_register_payload hb)) = true ->
  run answer k (serve_heartbeats to_lowercase node hb n token) = (tr, e) ->
  (forall tr1 a x tr2, tr = tr1 ++ Did a x :: tr2 -> beat_ok token tr1 a) /\
  (forall b, e = Beat b -> hb_token b = last_token token tr).
Proof.
  intros Hobj Hr.
  assert (along log (beat_ok token) (beat_end token) [] (serve_heartbeats to_lowercase node hb n token)) as Ha by by apply rounds_along.
  destruct (run_logged _ _ _ _ _ _ _ Ha Hr) as [Hf Hs]. split; [done|]. intros b ->. symmetry. exact Hf.
Qed.
End loop.
