(* ===== verification/NodeRecovery.v ===== *)
(** * When a node restarts itself

    The recovery checks of the heartbeat loop of [NodeRuntime.v]: the process
    exits only after enough checks in a row have found it without a route, and
    it does exit then if a supervisor is there to start it again. *)

From S2P Require Import Prelude Program Text Json HttpResource ClientTypes ClientEffects HttpClient Signing Capability Recovery Provider NodeTask NodeRuntime.

Section restart.
Context (to_lowercase : string -> string) `{SerdeOps} {signing : SigningLib}.
Context (node : IicpNode) (hb : hb_config).
Notation cfg := (in_cfg node).

(** ** Watching the checks

    What an observer of the loop's actions knows.  A check is made between a
    heartbeat and the next pause: its verdict falls when the relay flag is read,
    from the directory's last answer and the runtime gate.  [w_lost] counts the
    checks that found the route lost since one found it in order; [w_hopeless]
    is that every heartbeat was accepted, every check found no usable route, and
    the backend never drained. *)
Record watch := mkWatch {
  w_checking : bool;
  w_answer : result http_response bool;
  w_public : bool;
  w_lost : Z;
  w_hopeless : bool
}.
Definition watch_new : watch := mkWatch false (Err false) false 0 true.

Definition accepted (r : result http_response bool) : bool := match r with Ok resp => is_success (rs_status resp) | Err _ => false end.
Definition drains (o : BackendStabilityObservation) : bool := backend_state o ==? "draining".
Definition usable (g : watch) (bound : bool) : bool :=
  effective_public_route_available (w_public g) (route_needs_promotion (registry_route_status_of (w_answer g))) bound.
(** A check finds the route in order, lost, or cannot tell. *)
Definition lost_after (lost : Z) (usable : bool) (p : DirectoryPresence) : Z :=
  match usable, p with
  | true, Present => 0
  | true, Unknown => lost
  | true, Absent | false, _ => Z.min (lost + 1) u32_max
  end.
Definition unless (g : watch) (b : bool) : watch :=
  mkWatch (w_checking g) (w_answer g) (w_public g) (w_lost g) (w_hopeless g && negb b).
Definition verdict (g : watch) (bound : bool) : watch :=
  if w_checking g then
    mkWatch false (w_answer g) (w_public g)
      (lost_after (w_lost g) (usable g bound) (presence (registry_route_status_of (w_answer g))))
      (w_hopeless g && negb (usable g bound))
  else g.

Definition watch_step (g : watch) (a : node_action) : node_answer a -> watch :=
  match a return node_answer a -> watch with
  | PostHeartbeat _ _ => fun r => mkWatch true (Err false) false (w_lost g) (w_hopeless g && accepted r)
  | Pause _ => fun _ => mkWatch false (w_answer g) (w_public g) (w_lost g) (w_hopeless g)
  | Lib a =>
      match a return answer a -> watch with
      | Send _ => fun r => mkWatch (w_checking g) r (w_public g) (w_lost g) (w_hopeless g)
      | _ => fun _ => g
      end
  | Get c =>
      match c return cell_type c -> watch with
      | RuntimeAvailable => fun b => mkWatch (w_checking g) (w_answer g) b (w_lost g) (w_hopeless g)
      | RelayBound => verdict g
      | _ => fun _ => g
      end
  | Stability o => fun _ => unless g (drains o)
  | StabilityGet => fun o => unless g (drains o)
  | _ => fun _ => g
  end.
Definition watched (tr : list (step node_answer)) : watch := foldl (upd_step watch_step) watch_new tr.

Notation watching := (along watch_step (fun _ _ => True)).

(** ** Actions between the checks *)

(** Nothing is decided. *)
Definition stays (g g' : watch) : Prop :=
  w_checking g' = w_checking g /\ w_lost g' = w_lost g /\ (w_hopeless g' = true -> w_hopeless g = true).
Definition unwatched (a : node_action) : Prop :=
  match a with PostHeartbeat _ _ | Get RelayBound | Pause _ => False | _ => True end.

Lemma stays_refl g : stays g g.
Proof. done. Qed.
Lemma stays_trans g1 g2 g3 : stays g1 g2 -> stays g2 g3 -> stays g1 g3.
Proof. intros (E1 & E2 & E3) (F1 & F2 & F3). split; [congruence|]. split; [congruence|auto]. Qed.
Lemma unwatched_stays g a r : unwatched a -> stays g (watch_step g a r).
Proof.
  destruct a as [a| |c| | | | | | | | | | |]; try done; intros Hu.
  - by destruct a.
  - by destruct c.
  - unfold stays. cbn. split_and!; [done..|]. by intros [? _]%andb_true_iff.
  - unfold stays. cbn. split_and!; [done..|]. by intros [? _]%andb_true_iff.
Qed.
Lemma stays_along {R} (p : nprog R) g : acts unwatched p -> watching (fun g' _ => stays g g') g p.
Proof.
  intros Hp. enough (forall g', stays g g' -> watching (fun g' _ => stays g g') g' p) as Hall by by apply Hall.
  induction p as [r|a k IH]; intros g' Hg; [done|]. destruct Hp as [Ha Hk]. split; [done|]. intros r.
  apply IH; [apply Hk|]. eapply stays_trans; [exact Hg|by apply unwatched_stays].
Qed.

Lemma unwatched_lift {R} (p : prog answer R) : acts unwatched (lift p).
Proof. apply (acts_interp (fun _ => True)); [by intros a _|]. induction p; [done|]. split; auto. Qed.
Lemma unwatched_renew payload accepted : acts unwatched accepted -> acts unwatched (renew node payload accepted).
Proof.
  intros Ha. unfold renew. apply acts_bind; [apply unwatched_lift|]. intros [c|]; [|done].
  apply acts_bind; [done|]. intros []. apply acts_bind; [|done].
  unfold apply_runtime_credentials, persist_saved_credentials, update_saved_identity_credentials, persist_identity_credential.
  acts_split; exact I.
Qed.
Lemma unwatched_drift token live : acts unwatched (model_drift to_lowercase node hb token live).
Proof.
  unfold model_drift. destruct live; [|done]. destruct (_ || _); [done|]. apply acts_act; [done|]. intros reg.
  destruct (negb _); [done|]. apply acts_bind; [|done]. apply unwatched_renew. acts_split; exact I.
Qed.
Lemma unwatched_rotation token public : acts unwatched (endpoint_rotation node hb token public).
Proof.
  unfold endpoint_rotation. apply acts_act; [done|]. intros [ep|]; [|done]. apply acts_act; [done|]. intros reg.
  destruct (negb _); [done|]. apply acts_bind; [|done]. apply unwatched_renew. acts_split; exact I.
Qed.
Lemma unwatched_health state : acts unwatched (directory_health state).
Proof. unfold directory_health. acts_split; exact I. Qed.
Lemma unwatched_challenge (o : option string) :
  acts unwatched (match o with Some ch => node! _ := Put Challenge (Some ch) in Ret tt | None => Ret tt end).
Proof. acts_split; exact I. Qed.
Lemma unwatched_drain pending : acts unwatched (drain_batch pending).
Proof. unfold drain_batch. acts_split; exact I. Qed.
Lemma unwatched_probe : acts unwatched (probe_models node).
Proof. unfold probe_models. destruct (nc_backend_url cfg); [apply unwatched_lift|done]. Qed.
Lemma unwatched_capacity : acts unwatched (effective_capacity node).
Proof. unfold effective_capacity. acts_split; exact I. Qed.

(** ** One check *)

Definition checked (g : watch) (failures : Z) (g' : watch) (r : option (string * Z)) : Prop :=
  w_checking g' = false /\
  match r with
  | Some (_, f) => 0 <= f <= w_lost g'
  | None => hc_supervised hb = true /\ hc_recovery_grace hb <= w_lost g'
  end /\
  (w_hopeless g' = true ->
     w_hopeless g = true /\
     match r with
     | Some (_, f) => f = Z.min (failures + 1) u32_max /\ (hc_supervised hb = true -> f < hc_recovery_grace hb)
     | None => True
     end).

Lemma next_failures_lost f u p : next_failures f u p = lost_after f u p.
Proof. by destruct u, p. Qed.
Lemma next_failures_mono f l u p : f <= l -> next_failures f u p <= next_failures l u p.
Proof. intros Hl. unfold next_failures. destruct (negb u || _); [lia|]. by case_bool_decide. Qed.
Lemma not_drains o now : drains o = false -> is_draining o now = false.
Proof. unfold drains, is_draining. by intros ->. Qed.

Lemma check_along g token failures obs :
  w_checking g = true -> 0 <= failures <= w_lost g ->
  (w_hopeless g = true -> forall o, obs = Some o -> drains o = false) ->
  watching (checked g failures) g (recovery_check node hb token failures obs).
Proof.
  intros Hc Hl Ho. unfold recovery_check, registry_route_status. split; [done|]. intros r.
  cbn [interp prog_bind lib_answers]. split; [done|]. intros pub. split; [done|]. intros bound.
  set (status := registry_route_status_of r). set (public := effective_public_route_available pub (route_needs_promotion status) bound).
  set (g1 := watch_step _ (Get RelayBound) bound).
  assert (g1 = mkWatch false r pub (next_failures (w_lost g) public (presence status)) (w_hopeless g && negb public)) as E.
  { rewrite next_failures_lost. unfold g1. cbn. unfold verdict. cbn. by rewrite Hc. }
  assert (w_checking g1 = false /\ next_failures failures public (presence status) <= w_lost g1 /\
    (w_hopeless g1 = true -> w_hopeless g = true /\ public = false)) as (C1 & L1 & P1).
  { rewrite E. cbn. split; [done|]. split; [apply next_failures_mono; lia|]. by intros [? ?%negb_true_iff]%andb_true_iff. }
  assert (0 <= next_failures failures public (presence status)) as Hpos.
  { unfold next_failures, u32_max. destruct (negb public || _); [lia|]. case_bool_decide; lia. }
  clearbody g1. clear E.
  eapply (along_bind _ _ (fun g' o => stays g1 g' /\ (w_hopeless g' = true -> drains o = false))).
  { destruct obs as [o|]; [cbn; split; [apply stays_refl|]; intros Hh; apply (Ho (proj1 (P1 Hh)) o eq_refl)|].
    split; [done|]. intros o. cbn [along]. split; [by apply unwatched_stays|]. cbn. by intros [_ ?%negb_true_iff]%andb_true_iff. }
  intros g2 o [S2 D2]. split; [done|]. intros now. cbn [watch_step].
  set (f := next_failures failures public (presence status)) in *.
  assert (forall g3 r3, stays g2 g3 ->
    (match r3 with Some (_, f') => 0 <= f' <= f /\ (public = false -> f' = f) | None => hc_supervised hb = true end) ->
    (match r3 with Some _ => public = false -> drains o = false -> hc_supervised hb = true -> f < hc_recovery_grace hb
     | None => hc_recovery_grace hb <= f end) -> checked g failures g3 r3) as Hend.
  { intros g3 r3 S3 Hf Hg. destruct (stays_trans _ _ _ S2 S3) as (C3 & L3 & P3). destruct S3 as (_ & _ & P32).
    split; [congruence|]. split; [destruct r3 as [[t f']|]; rewrite L3; [lia|split; [done|lia]]|].
    intros Hh. destruct (P1 (P3 Hh)) as [Hg0 Hpub]. split; [done|]. destruct r3 as [[t f']|]; [|done].
    destruct Hf as [_ Hf]. rewrite (Hf Hpub). split; [unfold f, next_failures; by rewrite Hpub|].
    intros Hs. apply Hg; [done|by apply D2, P32|done]. }
  assert (drains o = false -> is_draining o now = false) as Hdr by apply not_drains. clear S2 D2.
  pose proof (classify_spec public (presence status) f (hc_recovery_grace hb) (is_draining o now)) as (HR & HG & _).
  destruct (classify true public (presence status) f (hc_recovery_grace hb) (is_draining o now)).2 eqn:Ecl.
  all: match type of HR with RestartSelf = _ <-> _ => idtac | _ =>
    assert (public = false -> drains o = false -> hc_supervised hb = true -> f < hc_recovery_grace hb) as Hgo
      by (intros Hp Hd _; destruct (Z.lt_ge_cases f (hc_recovery_grace hb)) as [|Hge]; [done|];
          discriminate (proj2 HR (conj (Hdr Hd) (conj Hge (or_introl Hp))))) end.
  all: try (cbn [along]; apply Hend; [apply stays_refl|split; [lia|done]|exact Hgo]).
  - destruct (proj1 HG eq_refl) as (_ & _ & Hp & _). split; [done|]. intros override.
    eapply along_bind; [apply stays_along, unwatched_renew; acts_split; exact I|].
    intros g3 t S3. cbn [along]. apply Hend; [exact (stays_trans _ _ _ (unwatched_stays g2 (Get EndpointOverride) override I) S3)| |].
    + destruct t; (split; [lia|congruence]).
    + intros Hp'. congruence.
  - cbn [along]. destruct (hc_supervised hb) eqn:Es; apply Hend; try apply stays_refl; try done.
    + by apply (proj1 HR).
Qed.

(** ** One round *)

Definition due (seq : Z) : bool := (0 <? hc_check_every hb) && (seq mod hc_check_every hb =? 0).
Definition round_end (g : watch) (st : hb_state) (g' : watch) (e : hb_end) : Prop :=
  match e with
  | Beat b => 0 <= hb_failures b <= w_lost g' /\ hb_seq b = u64_add (hb_seq st) 1
  | Exits code => code = RECOVERY_EXIT_CODE /\ hc_supervised hb = true /\ hc_recovery_grace hb <= w_lost g'
  end /\
  (w_hopeless g' = true ->
     w_hopeless g = true /\
     match e with
     | Beat b => if due (u64_add (hb_seq st) 1)
                 then hb_failures b = Z.min (hb_failures st + 1) u32_max /\ (hc_supervised hb = true -> hb_failures b < hc_recovery_grace hb)
                 else hb_failures b = hb_failures st
     | Exits _ => True
     end).

Lemma observation_along g :
  watching (fun g' obs => stays g g' /\ (w_hopeless g' = true -> forall o, obs = Some o -> drains o = false)) g
    (match nc_backend_url cfg with Some url => run! o := observe_stability to_lowercase node url in Ret (Some o) | None => Ret None end).
Proof.
  destruct (nc_backend_url cfg) as [url|]; [|split; [apply stays_refl|done]]. unfold observe_stability.
  eapply along_bind; [eapply along_bind; [apply stays_along, unwatched_lift|]|].
  - intros g1 o S1. split; [done|]. intros []. cbn [along].
    instantiate (1 := fun g' o => stays g g' /\ (w_hopeless g' = true -> drains o = false)).
    split; [eapply stays_trans; [exact S1|by apply (unwatched_stays g1 (Stability o) tt)]|].
    cbn. by intros [_ ?%negb_true_iff]%andb_true_iff.
  - intros g1 o [S1 D1]. split; [done|]. intros Hh o' [= <-]. by apply D1.
Qed.

Lemma capacity_stays g : watching (fun g' _ => stays g g') g (effective_capacity node).
Proof. apply stays_along, unwatched_capacity. Qed.

(** Outside a check the flags say nothing. *)
Lemma available_stays g : w_checking g = false -> watching (fun g' _ => stays g g') g (advertised_available node).
Proof.
  intros Hc. unfold advertised_available. split; [done|]. intros pub. split; [done|]. intros bound. cbn [along].
  cbn. unfold verdict. cbn. by rewrite Hc.
Qed.

Lemma accepted_end g0 g st resp public live obs seq0 :
  w_checking g = true -> 0 <= hb_failures st <= w_lost g -> hb_seq st = u64_add seq0 1 ->
  (w_hopeless g = true -> w_hopeless g0 = true /\ forall o, obs = Some o -> drains o = false) ->
  watching (round_end g0 (mkHb (hb_token st) seq0 (hb_failures st) (hb_pending st))) g
    (beat_accepted to_lowercase node hb st resp public live obs).
Proof.
  intros Hc Hf Hseq Ho. unfold beat_accepted.
  eapply along_bind; [apply stays_along, unwatched_health|]. intros g1 [] S1.
  eapply along_bind; [apply stays_along, unwatched_challenge|]. intros g2 [] S2.
  eapply along_bind; [apply stays_along, unwatched_drift|]. intros g3 t3 S3.
  eapply along_bind; [apply stays_along, unwatched_rotation|]. intros g4 t4 S4.
  destruct (stays_trans _ _ _ (stays_trans _ _ _ S1 S2) (stays_trans _ _ _ S3 S4)) as (C & L & P).
  fold (due (hb_seq st)). destruct (due (hb_seq st)) eqn:Ed.
  - eapply along_bind; [apply (check_along g4); [congruence|lia|]|].
    { intros Hh. by apply Ho, P. }
    intros g5 r (C5 & R5 & H5). cbn [along]. unfold round_end. cbn [hb_seq hb_failures]. rewrite <- Hseq, Ed.
    destruct r as [[t f]|]; cbn [hb_seq hb_failures].
    + destruct R5 as [R5 R5']. split; [done|]. intros Hh. destruct (H5 Hh) as [H4 Hf5]. split; [by apply Ho, P|done].
    + split; [done|]. intros Hh. split; [|done]. by apply Ho, P, H5.
  - cbn [along]. unfold round_end. cbn [hb_seq hb_failures]. rewrite <- Hseq, Ed, L. split; [done|].
    intros Hh. split; [|done]. by apply Ho, P.
Qed.

Lemma tick_watch g st :
  w_checking g = false -> 0 <= hb_failures st <= w_lost g -> watching (round_end g st) g (tick to_lowercase node hb st).
Proof.
  intros Hc Hf. unfold tick. split; [done|]. intros []. cbn [watch_step].
  eapply along_bind; [apply stays_along, unwatched_drain|]. intros g1 pending S1.
  eapply along_bind; [apply stays_along, unwatched_probe|]. intros g2 live S2.
  eapply along_bind; [apply observation_along|]. intros g3 obs [S3 D3].
  pose proof (stays_trans _ _ _ S1 (stays_trans _ _ _ S2 S3)) as S3'.
  eapply along_bind; [apply available_stays; destruct S3'; congruence|]. intros g4 available S4.
  eapply along_bind; [apply capacity_stays|]. intros g5 capacity S5.
  split; [done|]. intros updates. split; [done|]. intros stored. split; [done|]. intros hmac. cbn [watch_step].
  eapply along_bind with (mid := fun g' _ => stays g5 g').
  { destruct obs; [apply (stays_along (node! now := Lib UnixNow in Ret _)); by apply acts_act|apply stays_refl]. }
  intros g6 stability S6. pose proof (stays_trans _ _ _ S4 (stays_trans _ _ _ S5 S6)) as (C6 & L6 & P6).
  destruct S3' as (C3 & L3 & P3). split; [done|]. intros r. cbn [watch_step].
  assert (forall g' , stays (mkWatch true (Err false) false (w_lost g6) false) g' ->
    round_end g st g' (Beat (mkHb (hb_token st) (u64_add (hb_seq st) 1) (hb_failures st) pending))) as Hquiet.
  { intros g' (_ & Lg & Pg). unfold round_end. cbn [hb_failures hb_seq]. cbn in Lg. rewrite Lg, L6, L3. split; [done|].
    intros Hh. by apply Pg in Hh. }
  destruct r as [resp|connect]; cbn [accepted]; rewrite ?andb_false_r.
  - destruct (is_success (rs_status resp)) eqn:Es; rewrite ?andb_true_r, ?andb_false_r.
    + apply (accepted_end g _ (mkHb (hb_token st) (u64_add (hb_seq st) 1) (hb_failures st) pending) _ _ _ _ (hb_seq st));
        cbn [w_checking hb_failures w_lost hb_seq w_hopeless]; [done|by rewrite L6, L3|done|].
      intros Hh. apply P6 in Hh. split; [by apply P3|by apply D3].
    + destruct (unknown_status _).
      * unfold beat_unknown. eapply along_bind; [apply stays_along, unwatched_renew; done|]. intros g7 t S7. cbn [along].
        destruct S7 as (_ & Lg & Pg). unfold round_end. cbn [hb_failures hb_seq]. cbn in Lg. rewrite Lg, L6, L3. split; [done|].
        intros Hh. by apply Pg in Hh.
      * eapply along_bind; [apply stays_along, unwatched_health|]. intros g7 [] S7. cbn [along]. by apply Hquiet.
  - eapply along_bind; [apply stays_along, unwatched_health|]. intros g7 [] S7. cbn [along]. by apply Hquiet.
Qed.

(** ** The loop *)

Definition loop_end (g g' : watch) (e : hb_end) : Prop :=
  match e with
  | Beat _ => True
  | Exits code => code = RECOVERY_EXIT_CODE /\ hc_supervised hb = true /\ hc_recovery_grace hb <= w_lost g'
  end /\ (w_hopeless g' = true -> w_hopeless g = true).

Lemma pause_along (wait : bool) g :
  w_checking g = false \/ wait = true ->
  watching (fun g' _ => w_checking g' = false /\ w_lost g' = w_lost g /\ w_hopeless g' = w_hopeless g) g
    (if wait then node! _ := Pause HEARTBEAT_INTERVAL_SECS in Ret tt else Ret tt).
Proof. intros Hc. destruct wait; [split; [done|]; by intros []|]. by destruct Hc. Qed.

Lemma rounds_watch n wait g st :
  w_checking g = false \/ wait = true -> 0 <= hb_failures st <= w_lost g ->
  watching (loop_end g) g (heartbeat_rounds to_lowercase node hb n wait st).
Proof.
  revert wait g st. induction n as [|n IH]; intros wait g st Hc Hf; [done|]. cbn [heartbeat_rounds].
  eapply along_bind; [by apply pause_along|]. intros g1 [] (C1 & L1 & P1).
  eapply along_bind; [apply (tick_watch g1); [done|by rewrite L1]|]. intros g2 [b|code] [E2 P2].
  - eapply along_mono; [|apply IH; [by right|apply E2]]. intros g3 e [H3 P3]. split; [done|].
    intros Hh. rewrite <- P1. by apply P2, P3.
  - split; [done|]. intros Hh. rewrite <- P1. by apply P2.
Qed.

Lemma div_succ e s : 0 < e -> 0 <= s -> (s + 1) / e = if (s + 1) mod e =? 0 then s / e + 1 else s / e.
Proof.
  intros He Hs. pose proof (Z.div_mod s e ltac:(lia)) as D. pose proof (Z.mod_pos_bound s e He) as B.
  pose proof (Z.div_mod (s + 1) e ltac:(lia)) as D'. pose proof (Z.mod_pos_bound (s + 1) e He) as B'.
  destruct (Z.eqb_spec ((s + 1) mod e) 0); nia.
Qed.

Section hopeless.
Context (Hsup : hc_supervised hb = true) (Hevery : 0 < hc_check_every hb) (Hgrace : 0 < hc_recovery_grace hb <= u32_max).
Context (Hbound : hc_recovery_grace hb * hc_check_every hb <= u64_max).

Lemma rounds_exit n wait g st :
  w_checking g = false \/ wait = true -> 0 <= hb_failures st <= w_lost g ->
  0 <= hb_seq st < hc_recovery_grace hb * hc_check_every hb -> hb_failures st = hb_seq st / hc_check_every hb ->
  hc_recovery_grace hb * hc_check_every hb <= hb_seq st + Z.of_nat n ->
  watching (fun g' e => w_hopeless g' = true -> e = Exits RECOVERY_EXIT_CODE) g (heartbeat_rounds to_lowercase node hb n wait st).
Proof.
  revert wait g st. induction n as [|n IH]; intros wait g st Hc Hf Hs Hd Hn; [lia|]. cbn [heartbeat_rounds].
  eapply along_bind; [by apply pause_along|]. intros g1 [] (C1 & L1 & P1).
  eapply along_bind; [apply (tick_watch g1); [done|by rewrite L1]|]. intros g2 [b|code] [E2 P2]; [|intros _; by destruct E2 as [-> _]].
  destruct E2 as [F2 S2]. destruct (w_hopeless g2) eqn:Eh.
  - destruct (P2 eq_refl) as [_ Hb]. unfold u64_max in Hbound.
    assert (hb_seq b = hb_seq st + 1) as Hseq by (rewrite S2; unfold u64_add; apply Z.mod_small; lia).
    assert (u64_add (hb_seq st) 1 = hb_seq st + 1) as Hadd by congruence. rewrite Hadd in Hb. unfold due in Hb.
    rewrite (proj2 (Z.ltb_lt _ _) Hevery) in Hb. cbn [andb] in Hb. pose proof (div_succ _ _ Hevery (proj1 Hs)) as Hq.
    assert (hb_failures b = hb_seq b / hc_check_every hb /\ hb_failures b < hc_recovery_grace hb) as [Hfb Hlt].
    { rewrite Hseq, Hq. assert (hb_seq st / hc_check_every hb < hc_recovery_grace hb) as Hlt by (apply Z.div_lt_upper_bound; lia).
      destruct (_ =? 0).
      - destruct Hb as [Hb Hb']. specialize (Hb' Hsup). split; [|done]. rewrite Hb, Hd. unfold u32_max in *. lia.
      - by rewrite Hb, Hd. }
    apply IH; [by right|done| |done|lia]. rewrite Hseq in *. split; [lia|]. rewrite Hfb in Hlt.
    pose proof (Z.div_mod (hb_seq st + 1) (hc_check_every hb) ltac:(lia)).
    pose proof (Z.mod_pos_bound (hb_seq st + 1) (hc_check_every hb) Hevery). nia.
  - eapply along_mono; [|apply rounds_watch; [by right|exact F2]]. intros g3 e [_ P3] Hh. apply P3 in Hh. congruence.
Qed.
End hopeless.

(** C18: the node restarts itself only for cause, and does when there is one.
    Whatever happens around it, the loop ends the process only with code 76,
    under a supervisor, and after at least the grace number of recovery checks
    found it without a usable route or absent from the directory with no check in
    between that found it in order.  And a supervised node whose heartbeats are
    accepted but which no check finds routable, while its backend does not drain,
    does exit within as many heartbeats as the grace number of checks takes: it
    never stays up unreachable. *)
Theorem recovery_restart answer n k token tr e :
  run answer k (serve_heartbeats to_lowercase node hb n token) = (tr, e) ->
  (forall code, e = Exits code ->
     code = RECOVERY_EXIT_CODE /\ hc_supervised hb = true /\ hc_recovery_grace hb <= w_lost (watched tr)) /\
  (hc_supervised hb = true -> 0 < hc_check_every hb -> 0 < hc_recovery_grace hb <= u32_max ->
   hc_recovery_grace hb * hc_check_every hb <= Z.min (Z.of_nat n) u64_max ->
   w_hopeless (watched tr) = true -> e = Exits RECOVERY_EXIT_CODE).
Proof.
  intros Hr. split.
  - intros code ->. destruct (run_along watch_step (fun _ _ => True) (loop_end watch_new) answer k
      (serve_heartbeats to_lowercase node hb n token) watch_new tr (Exits code)) as [[H1 _] _]; [|done|exact H1].
    apply rounds_watch; [by left|done].
  - intros Hsup Hevery Hgrace Hn Hh.
    destruct (run_along watch_step (fun _ _ => True) (fun g e => w_hopeless g = true -> e = Exits RECOVERY_EXIT_CODE) answer k
      (serve_heartbeats to_lowercase node hb n token) watch_new tr e) as [H1 _]; [|done|by apply H1].
    unfold serve_heartbeats. apply rounds_exit; cbn [hb_failures hb_seq w_lost watch_new]; try done; try (by left); try lia.
Qed.
End restart.
