(* ===== verification/NodeCounters.v ===== *)
(** * The heartbeat loop refines the loop of the counters

    [NodeTask.v] proves that no counted task is lost over a short loop that only
    drains the counters and sends the batch.  The loop of [NodeRuntime.v], with
    its probes, re-registrations and recovery checks, does exactly that to the
    counters. *)

From S2P Require Import Prelude Program Text Json HttpResource ClientTypes ClientEffects HttpClient Signing Recovery Provider NodeTask NodeRuntime.

(** ** Paths through a program *)

(** [q] is what is left of [p] after the steps [tr]. *)
Fixpoint path {A} {resp : A -> Type} {R} (p : prog resp R) (tr : list (step resp)) (q : prog resp R) : Prop :=
  match tr with
  | [] => q = p
  | Did a r :: tr => exists k, p = Act a k /\ path (k r) tr q
  end.

Lemma path_app {A} {resp : A -> Type} {R} (p q u : prog resp R) tr1 tr2 :
  path p tr1 q -> path q tr2 u -> path p (tr1 ++ tr2) u.
Proof.
  revert p. induction tr1 as [|[a r] tr1 IH]; intros p; cbn [path app]; [by intros ->|].
  intros (k & -> & Hp) Hq. exists k. split; [done|]. by apply IH.
Qed.
Lemma path_snoc {A} {resp : A -> Type} {R} (p : prog resp R) tr a k r : path p tr (Act a k) -> path p (tr ++ [Did a r]) (k r).
Proof. intros Hp. eapply path_app; [exact Hp|]. by exists k. Qed.

(** ** What the counters see *)

Section refinement.
Context (to_lowercase : string -> string) `{SerdeOps} {signing : SigningLib}.
Context (node : IicpNode) (hb : hb_config).

Definition delivery_of (r : result http_response bool) : MetricBatchDelivery :=
  match r with
  | Ok resp => if is_success (rs_status resp) then DeliveryAccepted (result_ok (response_json resp)) else DeliveryFailed
  | Err _ => DeliveryFailed
  end.
Definition counter_view (x : step node_answer) : option (step tresp) :=
  match x with
  | Did a r =>
      match a return node_answer a -> option (step tresp) with
      | Tally a => fun r => Some (Did a r)
      | PostHeartbeat batch _ => fun r => Some (Did (SendHeartbeat batch) (delivery_of r))
      | _ => fun _ => None
      end r
  end.
Definition view_step (s : list (step tresp)) (a : node_action) (r : node_answer a) : list (step tresp) :=
  s ++ option_list (counter_view (Did a r)).
Notation viewing := (along view_step (fun _ _ => True)).

Lemma foldl_view s tr : foldl (upd_step view_step) s tr = s ++ omap counter_view tr.
Proof.
  revert s. induction tr as [|[a r] tr IH]; intros s; cbn [foldl omap list_omap upd_step]; [by rewrite app_nil_r|].
  rewrite IH. unfold view_step. rewrite <- app_assoc. f_equal. by destruct (counter_view (Did a r)).
Qed.

Definition silent (a : node_action) : Prop := match a with Tally _ | PostHeartbeat _ _ => False | _ => True end.
Lemma view_silent s a r : silent a -> view_step s a r = s.
Proof. intros Ha. unfold view_step. destruct a; try (by destruct Ha); exact (app_nil_r s). Qed.
Lemma silent_along {R} (p : nprog R) s : acts silent p -> viewing (fun s' _ => s' = s) s p.
Proof.
  intros Hp. induction p as [r|a k IH]; [done|]. destruct Hp as [Ha Hk]. split; [done|]. intros r.
  rewrite view_silent by done. apply IH, Hk.
Qed.
Lemma silent_lift {R} (p : prog answer R) : acts silent (lift p).
Proof. apply (acts_interp (fun _ => True)); [by intros a _|]. induction p; [done|]. split; auto. Qed.
Lemma silent_renew payload accepted : acts silent accepted -> acts silent (renew node payload accepted).
Proof.
  intros Ha. unfold renew. apply acts_bind; [apply silent_lift|]. intros [c|]; [|done].
  apply acts_bind; [done|]. intros []. apply acts_bind; [|done].
  unfold apply_runtime_credentials, persist_saved_credentials, update_saved_identity_credentials, persist_identity_credential.
  acts_split; exact I.
Qed.
Lemma silent_drift token live : acts silent (model_drift to_lowercase node hb token live).
Proof.
  unfold model_drift. destruct live; [|done]. destruct (_ || _); [done|]. apply acts_act; [done|]. intros reg.
  destruct (negb _); [done|]. apply acts_bind; [|done]. apply silent_renew. acts_split; exact I.
Qed.
Lemma silent_rotation token public : acts silent (endpoint_rotation node hb token public).
Proof.
  unfold endpoint_rotation. apply acts_act; [done|]. intros [ep|]; [|done]. apply acts_act; [done|]. intros reg.
  destruct (negb _); [done|]. apply acts_bind; [|done]. apply silent_renew. acts_split; exact I.
Qed.
Lemma silent_check token failures obs : acts silent (recovery_check node hb token failures obs).
Proof.
  unfold recovery_check. apply acts_bind; [apply silent_lift|]. intros status. do 2 (apply acts_act; [done|]; intros ?).
  apply acts_bind; [destruct obs; [done|by apply acts_act]|]. intros o. apply acts_act; [done|]. intros now.
  case_match; try done.
  apply acts_act; [done|]. intros override. apply acts_bind; [|done]. apply silent_renew. acts_split; exact I.
Qed.
Lemma silent_observation :
  acts silent (match nc_backend_url (in_cfg node) with
               | Some url => run! o := observe_stability to_lowercase node url in Ret (Some o) | None => Ret None end).
Proof.
  destruct (nc_backend_url (in_cfg node)); [|done]. apply acts_bind; [|done]. unfold observe_stability.
  apply acts_bind; [apply silent_lift|]. intros o. by apply acts_act.
Qed.
Lemma silent_probe : acts silent (probe_models node).
Proof. unfold probe_models. destruct (nc_backend_url (in_cfg node)); [apply silent_lift|done]. Qed.
Lemma silent_small :
  (forall state, acts silent (directory_health state)) /\ acts silent (advertised_available node) /\
  acts silent (effective_capacity node) /\
  (forall o, acts silent (match o with Some ch => node! _ := Put Challenge (Some ch) in Ret tt | None => Ret tt end)).
Proof. unfold directory_health, advertised_available, effective_capacity. split_and!; intros; acts_split; exact I. Qed.

(** ** One round of the one is one round of the other *)

Context (P0 : tprog).

Lemma drain_view s m pending :
  path P0 s (heartbeat_loop (S m) pending) ->
  viewing (fun s' p => path P0 s' (step! d := SendHeartbeat p in heartbeat_loop m (reconcile_metric_batch p d))) s
    (drain_batch pending).
Proof.
  intros Hp. unfold drain_batch. cbn [heartbeat_loop] in Hp. unfold drain_counters in Hp.
  destruct pending as [b|]; [exact Hp|].
  split; [done|]. intros ok. apply (path_snoc _ _ SwapSuccess _ ok) in Hp. split; [done|]. intros fail.
  apply (path_snoc _ _ SwapFailed _ fail) in Hp. split; [done|]. intros latency.
  apply (path_snoc _ _ SwapLatency _ latency) in Hp. unfold view_step. cbn [counter_view option_list].
  destruct (_ || _); [|exact Hp].
  split; [done|]. intros id. apply (path_snoc _ _ NewBatchId _ id) in Hp. exact Hp.
Qed.

Definition loop_left (m : nat) (s : list (step tresp)) (e : hb_end) : Prop :=
  match e with
  | Beat b => path P0 s (heartbeat_loop m (hb_pending b))
  | Exits _ => exists pending, path P0 s (heartbeat_loop m pending)
  end.

Lemma tick_view s m st :
  path P0 s (heartbeat_loop (S m) (hb_pending st)) -> viewing (loop_left m) s (tick to_lowercase node hb st).
Proof.
  intros Hp. destruct silent_small as (Hhealth & Havail & Hcap & Hch). unfold tick. split; [done|]. intros [].
  rewrite view_silent by done.
  eapply along_bind; [by apply drain_view|]. intros s1 pending H1.
  eapply along_bind; [apply silent_along, silent_probe|]. intros s2 live ->.
  eapply along_bind; [apply silent_along, silent_observation|]. intros s3 obs ->.
  eapply along_bind; [apply silent_along, Havail|]. intros s4 available ->.
  eapply along_bind; [apply silent_along, Hcap|]. intros s5 capacity ->.
  split; [done|]. intros updates. rewrite view_silent by done. split; [done|]. intros stored. rewrite view_silent by done.
  split; [done|]. intros hmac. rewrite view_silent by done.
  eapply along_bind with (mid := fun s' _ => s' = s1).
  { destruct obs; [|done]. apply (silent_along (node! now := Lib UnixNow in Ret _)). by apply acts_act. }
  intros s6 stability ->. split; [done|]. intros r. unfold view_step. cbn [counter_view option_list].
  apply (path_snoc _ _ (SendHeartbeat pending) _ (delivery_of r)) in H1. set (s7 := s1 ++ _) in *. clearbody s7. cbn [hb_pending].
  unfold delivery_of in H1. destruct r as [resp|connect].
  - destruct (is_success (rs_status resp)) eqn:Es.
    + unfold beat_accepted. eapply along_bind; [apply silent_along, Hhealth|]. intros s8 [] ->.
      eapply along_bind; [apply silent_along, Hch|]. intros s9 [] ->.
      eapply along_bind; [apply silent_along, silent_drift|]. intros s10 t1 ->.
      eapply along_bind; [apply silent_along, silent_rotation|]. intros s11 t2 ->.
      destruct (_ && _); [|exact H1]. eapply along_bind; [apply silent_along, silent_check|].
      intros s12 [[t f]|] ->; [exact H1|]. eexists. exact H1.
    + destruct (unknown_status _).
      * unfold beat_unknown. eapply along_bind; [by apply silent_along, silent_renew|]. intros s8 t ->. exact H1.
      * eapply along_bind; [apply silent_along, Hhealth|]. intros s8 [] ->. exact H1.
  - eapply along_bind; [apply silent_along, Hhealth|]. intros s8 [] ->. exact H1.
Qed.

Lemma rounds_view n wait s st :
  path P0 s (heartbeat_loop n (hb_pending st)) ->
  viewing (fun s' e => match e with
                       | Beat _ => path P0 s' (Ret Stopped)
                       | Exits _ => exists m pending, (m < n)%nat /\ path P0 s' (heartbeat_loop m pending)
                       end) s (heartbeat_rounds to_lowercase node hb n wait st).
Proof.
  revert wait s st. induction n as [|n IH]; intros wait s st Hp; [exact Hp|]. cbn [heartbeat_rounds].
  eapply along_bind; [apply silent_along; destruct wait; [by apply acts_act|done]|]. intros s1 [] ->.
  eapply along_bind; [by apply tick_view|]. intros s2 [b|code] H2.
  - eapply along_mono; [|by apply IH]. intros s3 [b'|code]; [done|]. intros (m & p & Hm & Hq). exists m, p. split; [lia|done].
  - destruct H2 as [p Hq]. exists n, p. split; [lia|done].
Qed.
End refinement.

(** C19: the heartbeat loop refines the abstract loop of the counters: on every path,
    what it does to the task counters and sends as batches, with the delivery each
    answer amounts to, is a path of that loop from its start — to its end, or up
    to the beginning of a round when the process exits.  So whatever holds of the
    counters under the abstract loop, in particular that no counted task is lost
    or reported in two batches, holds under the real one. *)
Theorem heartbeat_refines_counters (to_lowercase : string -> string) `{SerdeOps} {signing : SigningLib} node hb answer n k token tr e :
  run answer k (serve_heartbeats to_lowercase node hb n token) = (tr, e) ->
  match e with
  | Beat _ => path (heartbeat_loop n None) (omap counter_view tr) (Ret Stopped)
  | Exits _ => exists m pending, (m < n)%nat /\ path (heartbeat_loop n None) (omap counter_view tr) (heartbeat_loop m pending)
  end.
Proof.
  intros Hr. pose proof (rounds_view to_lowercase node hb (heartbeat_loop n None) n (heartbeat_waits_before_first_tick token) []
    (mkHb token 0 0 None) eq_refl) as Ha.
  destruct (run_along _ _ _ _ _ _ _ _ _ Ha Hr) as [Hf _]. by rewrite foldl_view in Hf.
Qed.
