(* ===== verification/NodeRegistration.v ===== *)
(** * Registration of a node

    What a node advertises, what a registration changes, and how refreshed
    credentials are saved ([NodeRuntime.v]). *)

From S2P Require Import Prelude Program Text Json HttpResource ClientTypes ClientEffects HttpClient ConsumerToken Signing Gate Capability Provider NodeTask NodeRuntime NodeHeartbeat.

(** ** First occurrences *)

Definition push_first {A} `{EqDecision A} (l : list A) (x : A) : list A := if decide (x ∈ l) then l else l ++ [x].
Definition firsts {A} `{EqDecision A} (l : list A) : list A := foldl push_first [] l.

Lemma firsts_snoc {A} `{EqDecision A} (l : list A) x : firsts (l ++ [x]) = push_first (firsts l) x.
Proof. unfold firsts. by rewrite foldl_app. Qed.
Lemma elem_of_firsts {A} `{EqDecision A} (l : list A) x : x ∈ firsts l <-> x ∈ l.
Proof.
  induction l as [|y l IH] using rev_ind; [done|]. rewrite firsts_snoc, elem_of_app, list_elem_of_singleton.
  unfold push_first. case_decide; [|by rewrite elem_of_app, list_elem_of_singleton, IH]. rewrite IH. naive_solver.
Qed.
Lemma NoDup_firsts {A} `{EqDecision A} (l : list A) : NoDup (firsts l).
Proof.
  induction l as [|y l IH] using rev_ind; [constructor|]. rewrite firsts_snoc. unfold push_first. case_decide; [done|].
  apply NoDup_app. split; [done|]. split; [|apply NoDup_singleton]. by intros x Hx ->%list_elem_of_singleton.
Qed.
Lemma push_new_first l m : push_new l m = push_first l m.
Proof.
  unfold push_new, push_first. destruct (str_in m l) eqn:E; case_decide as Hd; try done.
  - by apply str_in_elem in E.
  - apply str_in_elem in Hd. congruence.
Qed.

(** ** The advertised capabilities *)

Section advertised.
Context (to_lowercase : string -> string) (default_intent : string).
Notation key := (group_key to_lowercase default_intent).

(** One object per intent and modalities, in the order of first use, with the
    models of that kind in their order. *)
Definition grouped (models : list string) : list cap_group :=
  (fun k => (k, firsts (filter (fun m => key m = k) models))) <$> firsts (key <$> models).

Lemma add_to_group_spec (f : string * list string -> list string) k m (keys : list (string * list string)) :
  NoDup keys ->
  add_to_group k m ((fun k => (k, f k)) <$> keys) =
  (fun k' => (k', if decide (k' = k) then (if decide (k ∈ keys) then push_new (f k') m else [m]) else f k')) <$> push_first keys k.
Proof.
  induction keys as [|k0 keys IH]; intros Hnd; cbn [fmap list_fmap add_to_group].
  { unfold push_first. cbn. destruct (decide (k ∈ [])) as [H%elem_of_nil|]; [done|]. cbn. by rewrite decide_True. }
  apply NoDup_cons in Hnd as [Hk0 Hnd]. destruct (decide (k0 = k)) as [->|Hne].
  - unfold push_first. destruct (decide (k ∈ k :: keys)) as [_|[]]; [|by left]. cbn. rewrite decide_True by done. f_equal.
    apply list_fmap_ext. intros i x Hx. rewrite decide_False; [done|]. intros ->. by apply list_elem_of_lookup_2 in Hx.
  - rewrite IH by done. unfold push_first. assert (k ∈ k0 :: keys <-> k ∈ keys) as Hin by (rewrite elem_of_cons; naive_solver).
    destruct (decide (k ∈ keys)) as [Hk|Hk], (decide (k ∈ k0 :: keys)) as [Hk'|Hk']; try (exfalso; tauto); cbn;
      by rewrite (decide_False (P:=k0 = k)).
Qed.
Lemma filter_empty {A} (P : A -> Prop) `{forall x, Decision (P x)} l : (forall x, x ∈ l -> ~ P x) -> filter P l = [].
Proof.
  induction l as [|x l IH]; [done|]. intros Hl. rewrite filter_cons_False by (apply Hl; by left). apply IH. intros y Hy. apply Hl. by right.
Qed.

Lemma group_models_grouped models : group_models to_lowercase models default_intent = grouped models.
Proof.
  induction models as [|m models IH] using rev_ind; [done|].
  unfold group_models in *. rewrite foldl_app. cbn [foldl]. rewrite IH. unfold grouped.
  rewrite add_to_group_spec by apply NoDup_firsts. rewrite fmap_app. cbn [fmap list_fmap]. rewrite firsts_snoc.
  apply list_fmap_ext. intros i k _. f_equal. rewrite filter_app. cbn [filter list_filter].
  destruct (decide (k = key m)) as [->|Hne].
  - rewrite (decide_True (P:=key m = key m)) by done. rewrite firsts_snoc, push_new_first. destruct (decide (key m ∈ _)) as [|Hin]; [done|].
    rewrite filter_empty; [done|]. intros x Hx Hk. apply Hin. rewrite elem_of_firsts, <- Hk. by apply list_elem_of_fmap_2.
  - rewrite decide_False by congruence. by rewrite app_nil_r.
Qed.
End advertised.

Lemma foldl_push_new l acc : foldl push_new acc l = foldl push_first acc l.
Proof. revert acc. induction l as [|m l IH]; intros acc; [done|]. cbn [foldl]. by rewrite push_new_first, IH. Qed.
Lemma configured_firsts cfg :
  foldl push_new (option_list (nc_model cfg)) (nc_capabilities cfg) = firsts (option_list (nc_model cfg) ++ nc_capabilities cfg).
Proof. rewrite foldl_push_new. unfold firsts. rewrite foldl_app. by destruct (nc_model cfg). Qed.

Lemma grouped_spec to_lowercase default_intent models :
  NoDup (grouped to_lowercase default_intent models).*1 /\
  (forall m, m ∈ models -> exists ms, (group_key to_lowercase default_intent m, ms) ∈ grouped to_lowercase default_intent models) /\
  (forall k ms, (k, ms) ∈ grouped to_lowercase default_intent models ->
     NoDup ms /\ (forall m, m ∈ ms <-> m ∈ models /\ group_key to_lowercase default_intent m = k)).
Proof.
  unfold grouped. split_and!.
  - rewrite <- list_fmap_compose. erewrite list_fmap_ext; [rewrite list_fmap_id; apply NoDup_firsts|]. by intros i [].
  - intros m Hm. eexists. apply list_elem_of_fmap. eexists. split; [reflexivity|]. apply elem_of_firsts. by apply list_elem_of_fmap_2.
  - intros k ms (k' & [= -> ->] & Hk)%list_elem_of_fmap. split; [apply NoDup_firsts|]. intros m.
    rewrite elem_of_firsts, list_elem_of_filter. naive_solver.
Qed.

(** A node advertises exactly the models it is configured with and may show:
    the main model and the listed ones, each once, without the excluded ones and
    without a mesh backend's local file names.  Its capabilities are one object
    per intent and input modalities, in the order of first use; each model is in
    the object of its own intent and modalities and in no other, and no object
    lists a model twice.  Operator-declared capabilities, when there are any, are
    sent in place of these. *)
Theorem advertised_models_exact to_lowercase node :
  let cfg := in_cfg node in
  let models := configured_models cfg in
  let groups := group_models to_lowercase models (nc_intent cfg) in
  let object := capability_object (firsts (nc_supported_profiles cfg)) (nc_max_tokens cfg) in
  (NoDup models /\
   forall m, m ∈ models <-> (nc_model cfg = Some m \/ m ∈ nc_capabilities cfg) /\ m ∉ nc_excluded_models cfg /\
                       ~ (nc_backend cfg = Some "meshllm" /\ starts_with m "local-gguf/sha256-" = true)) /\
  (NoDup groups.*1 /\
   (forall m, m ∈ models -> exists ms, (group_key to_lowercase (nc_intent cfg) m, ms) ∈ groups) /\
   (forall k ms, (k, ms) ∈ groups ->
      NoDup ms /\ (forall m, m ∈ ms <-> m ∈ models /\ group_key to_lowercase (nc_intent cfg) m = k))) /\
  advertised_capabilities to_lowercase node =
    match in_effective_capabilities node with
    | [] => if nonempty models then object <$> groups else [object ((nc_intent cfg, ["text"]), [])]
    | l => capability_json <$> l
    end.
Proof.
  intros cfg models groups object. split; [split|split].
  - unfold models, configured_models, filter_public_backend_models. rewrite configured_firsts. apply NoDup_filter, NoDup_firsts.
  - intros m. unfold models, configured_models, filter_public_backend_models.
    rewrite configured_firsts, list_elem_of_filter, elem_of_firsts, elem_of_app.
    assert (m ∈ option_list (nc_model cfg) <-> nc_model cfg = Some m) as ->.
    { destruct (nc_model cfg); cbn; [rewrite list_elem_of_singleton|rewrite elem_of_nil]; naive_solver. }
    rewrite orb_false_iff, andb_false_iff, <- (str_in_elem m (nc_excluded_models cfg)), not_true_iff_false.
    assert (opt_str_is (nc_backend cfg) "meshllm" = true <-> nc_backend cfg = Some "meshllm") as Hb by apply opt_str_is_true.
    destruct (opt_str_is _ _) eqn:E1, (starts_with m _) eqn:E2; intuition (try congruence).
  - unfold groups. rewrite group_models_grouped. apply grouped_spec.
  - unfold advertised_capabilities. fold cfg models. destruct (in_effective_capabilities node) as [|]; [|done].
    unfold build_capabilities_with_profiles. rewrite foldl_push_new. by destruct models.
Qed.

(** ** Saving refreshed credentials *)

Lemma str_is_empty_true s : str_is_empty s = true -> s = empty_str.
Proof. by destruct s. Qed.

Section saving.
Context (saved_node_name : option string) (token : string) (hmac_key : option string).

(** How the saved identity [i'] holds the refreshed [value] of a field. *)
Definition holds_credential (s : list (step node_answer)) (i : NodeIdentity) (name : string) (stored : option string) (value : string) : Prop :=
  match id_secret_refs i !! name with
  | Some reference =>
      stored = None /\ Did (resp:=node_answer) (StoreSecret reference value) true ∈ s /\
      Did (resp:=node_answer) (Lib (ResolveSecret reference)) (Some value) ∈ s
  | None => stored = Some value
  end.
Definition saves (s : list (step node_answer)) (nm : string) (i' : NodeIdentity) : Prop :=
  saved_node_name = Some nm /\ token <> empty_str /\
  exists i, Did (resp:=node_answer) (LoadNode nm) (Some i) ∈ s /\
    id_rest i' = id_rest i /\ id_secret_refs i' = id_secret_refs i /\
    holds_credential s i "node_token" (id_node_token i') token /\
    match nonempty_str hmac_key with
    | Some key => holds_credential s i "node_hmac_key" (id_node_hmac_key i') key
    | None => id_node_hmac_key i' = id_node_hmac_key i
    end.
(** A secret goes to the store only under the identity's own reference. *)
Definition stores (s : list (step node_answer)) (reference : SecretRef) (value : string) : Prop :=
  exists nm i name, Did (resp:=node_answer) (LoadNode nm) (Some i) ∈ s /\ id_secret_refs i !! name = Some reference /\
    ((name = "node_token" /\ value = token) \/ (name = "node_hmac_key" /\ nonempty_str hmac_key = Some value)).
Definition saving_ok (s : list (step node_answer)) (a : node_action) : Prop :=
  match a with
  | SaveNode nm i' => saves s nm i'
  | StoreSecret reference value => stores s reference value
  | Lib (ResolveSecret _) | LoadNode _ => True
  | _ => False
  end.
(** Why nothing is saved. *)
Definition not_saved (s : list (step node_answer)) : Prop :=
  token = empty_str \/ (forall nm, saved_node_name = Some nm -> trim nm = empty_str) \/
  (exists nm, Did (resp:=node_answer) (LoadNode nm) None ∈ s) \/
  (exists reference value, Did (resp:=node_answer) (StoreSecret reference value) false ∈ s) \/
  (exists reference value v, Did (resp:=node_answer) (StoreSecret reference value) true ∈ s /\
     Did (resp:=node_answer) (Lib (ResolveSecret reference)) v ∈ s /\ v <> Some value).
Definition saved (s : list (step node_answer)) : Prop :=
  exists nm i ok, Did (resp:=node_answer) (SaveNode nm i) ok ∈ s.
Definition saved_once (s : list (step node_answer)) : Prop :=
  (exists s0 nm i ok, s = s0 ++ [Did (resp:=node_answer) (SaveNode nm i) ok] /\ ~ saved s0) \/ (~ saved s /\ not_saved s).

Definition no_save (a : node_action) : Prop := match a with SaveNode _ _ => False | _ => True end.
Lemma not_saved_log s a r : no_save a -> ~ saved s -> ~ saved (log s a r).
Proof.
  intros Ha Hs (nm & i & ok & [Hin|Hin%list_elem_of_singleton]%elem_of_app); [apply Hs; by exists nm, i, ok|]. by injection Hin as <-.
Qed.

Lemma persist_along s nm i0 i name value :
  ~ saved s -> Did (resp:=node_answer) (LoadNode nm) (Some i0) ∈ s -> id_secret_refs i = id_secret_refs i0 ->
  ((name = "node_token" /\ value = token) \/ (name = "node_hmac_key" /\ nonempty_str hmac_key = Some value)) ->
  along log saving_ok (fun s' o => (~ saved s' /\ s `prefix_of` s') /\
      match o with
      | Some i' => exists stored, set_plain name stored i = Some i' /\ holds_credential s' i name stored value
      | None => not_saved s'
      end) s (persist_identity_credential i name value).
Proof.
  intros Hs Hl Hrefs Hname. unfold persist_identity_credential, holds_credential.
  assert (forall o, is_Some (set_plain name o i)) as Hset by (intros o; destruct Hname as [[-> _]|[-> _]]; by eexists).
  destruct (id_secret_refs i !! name) as [r|] eqn:Er.
  - split; [exists nm, i0, name; split; [done|]; split; [congruence|done]|]. intros [|]; cbn [negb along].
    + split; [done|]. intros v. split; [split; [by do 2 (apply not_saved_log; [done|])|by apply prefix_app_r, prefix_app_r]|]. destruct (decide (v = Some value)) as [->|Hne].
      * cbn. rewrite bool_decide_true by done. destruct (Hset None) as [i' Hi]. rewrite Hi. exists None. split; [done|].
        unfold log. split_and!; [done|set_solver|set_solver].
      * assert ((let! v := v in if bool_decide (v = value) then set_plain name None i else None) = None) as ->
          by (destruct v as [v|]; [cbn; by rewrite bool_decide_false by congruence|done]).
        do 4 right. exists r, value, v. unfold log. split_and!; [set_solver|set_solver|done].
    + split; [split; [by apply not_saved_log|by apply prefix_app_r]|]. do 3 right. left. exists r, value. apply elem_last.
  - destruct (Hset (Some value)) as [i' Hi]. cbn [along]. split; [done|]. rewrite Hi. by exists (Some value).
Qed.
Lemma holds_prefix s s' i name stored value :
  s `prefix_of` s' -> holds_credential s i name stored value -> holds_credential s' i name stored value.
Proof. intros [t ->] Hh. unfold holds_credential in *. case_match; [|done]. destruct Hh as (? & ? & ?). split_and!; set_solver. Qed.
Lemma set_plain_token o i i' : set_plain "node_token" o i = Some i' ->
  id_node_token i' = o /\ id_node_hmac_key i' = id_node_hmac_key i /\ id_secret_refs i' = id_secret_refs i /\ id_rest i' = id_rest i.
Proof. by intros [= <-]. Qed.
Lemma set_plain_hmac o i i' : set_plain "node_hmac_key" o i = Some i' ->
  id_node_hmac_key i' = o /\ id_node_token i' = id_node_token i /\ id_secret_refs i' = id_secret_refs i /\ id_rest i' = id_rest i.
Proof. by intros [= <-]. Qed.

Lemma update_along s nm i :
  ~ saved s -> Did (resp:=node_answer) (LoadNode nm) (Some i) ∈ s -> saved_node_name = Some nm -> token <> empty_str ->
  along log saving_ok (fun s' o => ~ saved s' /\ match o with Some i' => saves s' nm i' | None => not_saved s' end) s
    (update_saved_identity_credentials i token hmac_key).
Proof.
  intros Hs Hl Hn Ht. unfold update_saved_identity_credentials.
  eapply along_bind; [by apply (persist_along s nm i i "node_token" token); [..|left]|].
  intros s1 [i1|] [[Hs1 Hp] H1]; [|done]. destruct H1 as (st & (T1 & K1 & R1 & X1)%set_plain_token & H1).
  assert (Did (resp:=node_answer) (LoadNode nm) (Some i) ∈ s1) as Hl1 by (destruct Hp as [t ->]; set_solver).
  destruct (nonempty_str hmac_key) as [key|] eqn:Ek; cbn [along].
  - eapply along_mono; [|by apply (persist_along s1 nm i i1 "node_hmac_key" key); [..|right]].
    intros s2 [i2|] [[Hs2 Hp2] H2]; [|done]. destruct H2 as (st2 & (T2 & K2 & R2 & X2)%set_plain_hmac & H2).
    do 3 (split; [done|]). exists i. split; [destruct Hp2 as [t ->]; set_solver|]. do 2 (split; [congruence|]).
    rewrite Ek. split; [rewrite K2, T1; by eapply holds_prefix|]. unfold holds_credential in *. by rewrite T2, <- R1.
  - do 3 (split; [done|]). exists i. rewrite Ek, T1. done.
Qed.
End saving.

(** C21: saving refreshed credentials leaks and loses nothing: the saved node file is
    written at most once, as the last step, and only with the loaded identity in
    which the token (and the signing key, when there is one) took their new value
    — in the file when the identity keeps that field there, and otherwise nowhere
    but in the secret store, under the identity's own reference, after the value
    read back from the store proved equal; everything else of the record is as
    loaded.  When nothing is written, there was no node name, no token, no
    readable identity, or the store failed to take a value. *)
Theorem credentials_protected answer n saved_node_name token hmac_key tr :
  run answer n (persist_saved_credentials saved_node_name token hmac_key) = (tr, tt) ->
  saved_once saved_node_name token tr /\
  forall tr1 a x tr2, tr = tr1 ++ Did a x :: tr2 ->
    saving_ok saved_node_name token hmac_key tr1 a.
Proof.
  intros Hr. refine (run_logged (saving_ok saved_node_name token hmac_key) (fun s _ => saved_once saved_node_name token s) _ _ _ _ _ _ Hr).
  unfold persist_saved_credentials. assert (~ saved []) as Hnil by (intros (nm & i & ok & []%elem_of_nil)).
  destruct saved_node_name as [nm|] eqn:En; [|right; split; [done|right; left; congruence]].
  destruct (str_is_empty (trim nm)) eqn:E1; cbn [orb].
  { right. split; [done|]. right. left. intros nm' [= <-]. by apply str_is_empty_true. }
  destruct (str_is_empty token) eqn:E2; [right; split; [done|left; by apply str_is_empty_true]|].
  split; [done|]. intros [i|]; cbn [along].
  - eapply along_bind; [apply (update_along _ _ _ _ nm i)|].
    + by apply not_saved_log.
    + apply elem_last.
    + done.
    + intros ->. done.
    + intros s [i'|] [Hs Hi]; cbn [along]; [|by right]. split; [done|]. intros ok. left. by exists s, nm, i', ok.
  - right. split; [by apply not_saved_log|]. do 2 right. left. exists nm. apply elem_last.
Qed.

(** ** Registering *)

Definition did_put (x : step node_answer) : option node_action :=
  match x with Did a _ => match a with Put _ _ | StoreSecret _ _ | SaveNode _ _ => Some a | _ => None end end.
(** What a run changed, in order: the shared state, the secret store and the saved node file. *)
Definition changes (s : list (step node_answer)) : list node_action := omap did_put s.
Definition to_disk (a : node_action) : Prop := match a with StoreSecret _ _ | SaveNode _ _ => True | _ => False end.

Lemma changes_app s t : changes (s ++ t) = changes s ++ changes t.
Proof. apply omap_app. Qed.
Lemma changes_log s a r : changes (log s a r) = changes s ++ option_list (did_put (Did a r)).
Proof. unfold log. rewrite changes_app. by destruct a. Qed.

Definition unchanging (a : node_action) : Prop := match a with Put _ _ | StoreSecret _ _ | SaveNode _ _ => False | _ => True end.
Definition unputting (a : node_action) : Prop := match a with Put _ _ => False | _ => True end.
Lemma unchanging_along {R} (p : nprog R) s :
  acts unchanging p -> along log (fun _ _ => True) (fun s' _ => changes s' = changes s) s p.
Proof.
  revert s. induction p as [r|a k IH]; intros s Hp; [done|]. destruct Hp as [Ha Hk]. split; [done|]. intros r.
  eapply along_mono; [|apply (IH r), Hk]. intros s' r' ->. rewrite changes_log. destruct a; try (by destruct Ha); exact (app_nil_r (changes s)).
Qed.
Lemma unputting_along {R} (p : nprog R) s :
  acts unputting p -> along log (fun _ _ => True) (fun s' _ => exists l, changes s' = changes s ++ l /\ Forall to_disk l) s p.
Proof.
  revert s. induction p as [r|a k IH]; intros s Hp; [exists []; split; [by rewrite app_nil_r|done]|].
  destruct Hp as [Ha Hk]. split; [done|]. intros r.
  eapply along_mono; [|apply (IH r), Hk]. intros s' r' (l & -> & Hl). rewrite changes_log, <- app_assoc. eexists. split; [done|].
  apply Forall_app. split; [|done]. destruct a; cbn; by repeat constructor.
Qed.

Section registering.
Context (to_lowercase : string -> string) `{SerdeOps} {signing : SigningLib}.
Context (f64_display : f64 -> string) (status_display : Z -> string) (version : string)
  (send_error : bool -> string) (decode_error : string) (global_policy : CooperativeInferencePolicy).
Context (node : IicpNode).
Notation cfg := (in_cfg node).
Notation payload_program := (build_register_payload to_lowercase f64_display version global_policy node).
Notation registration := (register to_lowercase f64_display status_display version send_error decode_error global_policy node).

(** The directory was sent [payload] and accepted it with [data]. *)
Definition answered_with (payload data : json) (tr : list (step answer)) : Prop :=
  exists rq resp, Did (resp:=answer) (Send rq) (Ok resp) ∈ tr /\
    rq_url rq = register_url (nc_directory_url cfg) /\ rq_body rq = Some (to_vec payload) /\
    is_success (rs_status resp) = true /\ response_json resp = Ok data /\
    match nc_restricted_directory cfg with Some context => eligible_now context "registration" data tr | None => True end.

Lemma register_request_along payload :
  along log (fun _ _ => True) (on_val (fun tr data => answered_with payload data tr)) []
    (register_request status_display send_error decode_error node (register_url (nc_directory_url cfg)) payload).
Proof.
  unfold register_request, answered_with. destruct (nc_restricted_directory cfg) as [context|].
  - destruct (validate_context context); [|done]. split; [done|]. intros [membership|]; [|done]. cbn [try_bind].
    eapply (along_try _ _ (fun tr sd => is_success sd.1 = true -> exists rq resp, Did (resp:=answer) (Send rq) (Ok resp) ∈ tr /\
      rq_url rq = register_url (nc_directory_url cfg) /\ rq_body rq = Some (to_vec payload) /\
      is_success (rs_status resp) = true /\ response_json resp = Ok sd.2)).
    { unfold post_restricted_registration_json. eapply along_bind; [by apply traceparent_log|]. intros tr t _.
      split; [done|]. intros [resp|]; [|done]. cbn [send_result]. destruct (is_redirection (rs_status resp)); [done|].
      destruct (is_success (rs_status resp)) eqn:Es; cbn [negb]; [|cbn; by rewrite Es].
      destruct (response_json resp) as [b|] eqn:Ej; cbn; [|done]. intros _. eexists _, resp. split; [apply elem_last|]. done. }
    intros tr [status data] Hp. cbn in Hp. destruct (is_success status); cbn [negb]; [|done].
    destruct (Hp eq_refl) as (rq & resp & Hin & Hu & Hb & Hs & Hj).
    eapply along_try.
    + apply (validate_decision_along _ _ _ context "registration" (fun tr' => Did (resp:=answer) (Send rq) (Ok resp) ∈ tr')); [done| |done].
      intros tr' x. set_solver.
    + intros tr2 e [Hin2 He]. cbn. by exists rq, resp.
  - split; [done|]. intros [resp|]; [|done]. destruct (is_success (rs_status resp)) eqn:Es; cbn [negb]; [|done].
    destruct (response_json resp) as [d|] eqn:Ej; [|done]. eexists _, resp. split; [apply elem_last|]. done.
Qed.
(** What the registration says of the node; [updates] is merged over it. *)
Definition describes (endpoint stashed_token : string) (updates payload : json) : Prop :=
  is_some (as_object payload) = true /\
  forall key, jget updates key = None ->
    (key = "endpoint" -> jget payload key = Some (JString endpoint)) /\
    (key = "capabilities" -> jget payload key = Some (JArray (advertised_capabilities to_lowercase node))) /\
    (key = "node_id" -> jget payload key = some_if (negb (str_is_empty (nc_node_id cfg))) (JString (nc_node_id cfg))) /\
    (key = "current_node_token" -> jget payload key = some_if (negb (str_is_empty stashed_token)) (JString stashed_token)).

Definition same_at (key : string) (b b' : json) : Prop :=
  is_some (as_object b) = true -> is_some (as_object b') = true /\ jget b' key = jget b key.
Lemma same_trans key b1 b2 b3 : same_at key b1 b2 -> same_at key b2 b3 -> same_at key b1 b3.
Proof. intros H1 H2 Hb. destruct (H1 Hb) as [Hb2 E]. destruct (H2 Hb2) as [Hb3 E']. split; [done|congruence]. Qed.
Lemma same_refl key b : same_at key b b.
Proof. by split. Qed.
Lemma same_field key k v b : k <> key -> same_at key b (set_field k v b).
Proof.
  intros Hk Hb. split; [by apply object_set_field|]. rewrite jget_set_field by done.
  destruct (String.eqb_spec k key); [done|reflexivity].
Qed.
Lemma same_some {A} (f : A -> json) key k o b : k <> key -> same_at key b (set_some f k o b).
Proof. intros Hk. destruct o; [by apply same_field|apply same_refl]. Qed.
Definition REGISTER_KEYS : list string := ["endpoint"; "capabilities"; "node_id"; "current_node_token"].
Lemma other_key key x : key ∈ REGISTER_KEYS -> str_in x REGISTER_KEYS = false -> x <> key.
Proof. intros Hk%str_in_elem Hx ->. congruence. Qed.
Ltac same_fields Hk :=
  repeat first
    [ apply same_refl
    | eapply same_trans; [|apply same_some, (other_key _ _ Hk); reflexivity]
    | eapply same_trans; [|apply same_field, (other_key _ _ Hk); reflexivity] ].

Lemma same_transport key b : key ∈ REGISTER_KEYS -> same_at key b (with_transport version node b).
Proof. intros Hk. unfold with_transport. same_fields Hk. Qed.
Lemma same_policy key hmac b : key ∈ REGISTER_KEYS -> same_at key b (with_policy f64_display global_policy node hmac b).
Proof. intros Hk. unfold with_policy. destruct (nc_relay_capable cfg), (nc_operator_delegation cfg); same_fields Hk. Qed.
Lemma same_updates key updates b : jget updates key = None -> same_at key b (attach_update_status updates b).
Proof.
  unfold jget, attach_update_status. intros Hu Hb. destruct b as [| | | | |b]; try done. split.
  - by destruct (as_object updates).
  - destruct (as_object updates) as [m|]; [|done]. cbn in Hu |- *. clear Hb. revert b. induction m as [|[n w] m IH]; intros b; [done|].
    cbn [foldl]. cbn [obj_get] in Hu. destruct (n ==? key) eqn:E; [done|]. rewrite IH by done. cbn [fst snd]. by rewrite obj_get_insert, E.
Qed.
Definition opening (endpoint stashed_token : string) : json :=
  let b := base_payload to_lowercase node endpoint in
  attach_current_node_token
    (if str_is_empty (nc_node_id cfg) then b else set_field "node_id" (JString (nc_node_id cfg)) b) stashed_token.
Lemma opening_object endpoint stashed : is_some (as_object (opening endpoint stashed)) = true.
Proof. unfold opening. apply object_attach. destruct (str_is_empty _); [done|by apply object_set_field]. Qed.
Lemma describes_payload endpoint stashed updates hmac :
  describes endpoint stashed updates
    (with_policy f64_display global_policy node hmac (attach_update_status updates (with_transport version node (opening endpoint stashed)))).
Proof.
  assert (forall key, jget updates key = None -> key ∈ REGISTER_KEYS ->
    same_at key (opening endpoint stashed) (with_policy f64_display global_policy node hmac
      (attach_update_status updates (with_transport version node (opening endpoint stashed))))) as Hsame.
  { intros key Hu Hk. eapply same_trans; [by apply same_transport|]. eapply same_trans; [by apply same_updates|by apply same_policy]. }
  assert (forall b, is_some (as_object b) = true -> is_some (as_object (attach_update_status updates b)) = true) as Hup
    by (intros []; cbn; try done; by destruct (as_object updates)).
  split.
  - assert (forall k, k ∈ REGISTER_KEYS -> forall b, is_some (as_object b) = true ->
      is_some (as_object (with_policy f64_display global_policy node hmac b)) = true) as Hpol
      by (intros k Hk b Hb; by apply (same_policy k hmac b)).
    pose proof (proj1 (str_in_elem "endpoint" REGISTER_KEYS) eq_refl) as Hk.
    apply (Hpol _ Hk), Hup. apply (same_transport _ _ Hk).
    apply opening_object.
  - intros key Hu. assert (forall key, jget updates key = None -> str_in key REGISTER_KEYS = true ->
      jget (with_policy f64_display global_policy node hmac (attach_update_status updates
        (with_transport version node (opening endpoint stashed)))) key = jget (opening endpoint stashed) key) as Hget.
    { intros k Hk Hin%str_in_elem. by apply (Hsame k Hk Hin), opening_object. }
    split_and!; intros ->; rewrite (Hget _ Hu eq_refl); unfold opening, attach_current_node_token;
      destruct (str_is_empty (nc_node_id cfg)), (str_is_empty stashed); reflexivity.
Qed.
Definition projected : list string := projected_models node.
Definition issued_key (data : json) : list node_action :=
  if str_is_empty (nc_node_hmac_key cfg)
  then match nonempty_str (as_str (jidx data "node_hmac_key")) with Some k => [Put HmacKey k] | None => [] end else [].

(** What a registration that returned [token] did. *)
Definition registration_done (tr : list (step node_answer)) (token : string) : Prop :=
  exists endpoint stashed updates payload data saving recorded,
    Did (resp:=node_answer) (Get EndpointOverride) endpoint ∈ tr /\ Did (resp:=node_answer) (Get Token) stashed ∈ tr /\
    Did (resp:=node_answer) UpdateStatus updates ∈ tr /\
    describes (default (nc_endpoint cfg) endpoint) stashed updates payload /\
    answered_with payload data (lib_part tr) /\ token_of data = Some token /\
    Did (resp:=node_answer) (Get EndpointOverride) recorded ∈ tr /\ Forall to_disk saving /\
    changes tr = [Put Token token] ++ issued_key data ++ saving
      ++ [Put RegisteredModels projected; Put PublicModels projected; Put RegisteredEndpoint (default (nc_endpoint cfg) recorded)].
(** What is known once the directory accepted. *)
Definition accepted_with (s : list (step node_answer)) (payload data : json) : Prop :=
  (exists endpoint stashed updates,
    Did (resp:=node_answer) (Get EndpointOverride) endpoint ∈ s /\ Did (resp:=node_answer) (Get Token) stashed ∈ s /\
    Did (resp:=node_answer) UpdateStatus updates ∈ s /\
    describes (default (nc_endpoint cfg) endpoint) stashed updates payload) /\
  answered_with payload data (lib_part s).

Lemma answered_app payload data t1 t2 : answered_with payload data t1 -> answered_with payload data (t1 ++ t2).
Proof.
  intros (rq & resp & Hin & Hr). exists rq, resp. split; [set_solver|]. destruct Hr as (? & ? & ? & ? & He).
  do 4 (split; [done|]). destruct (nc_restricted_directory cfg); [by apply eligible_app|done].
Qed.
Lemma accepted_prefix s s' payload data : s `prefix_of` s' -> accepted_with s payload data -> accepted_with s' payload data.
Proof.
  intros [t ->] [(endpoint & stashed & updates & Hd) Ha]. split.
  - exists endpoint, stashed, updates. destruct Hd as (? & ? & ? & ?). split_and!; [set_solver..|done].
  - rewrite lib_part_app. by apply answered_app.
Qed.
Lemma changes_lift tr : changes (lib_step <$> tr) = [].
Proof. induction tr as [|[a r] tr IH]; [done|exact IH]. Qed.

Lemma payload_along :
  along log (fun _ _ => True) (fun s payload => (changes s = [] /\ lib_part s = []) /\
    exists endpoint stashed updates, Did (resp:=node_answer) (Get EndpointOverride) endpoint ∈ s /\
      Did (resp:=node_answer) (Get Token) stashed ∈ s /\ Did (resp:=node_answer) UpdateStatus updates ∈ s /\
      describes (default (nc_endpoint cfg) endpoint) stashed updates payload) [] payload_program.
Proof.
  unfold build_register_payload, effective_endpoint. cbn [prog_bind].
  split; [done|]. intros endpoint. split; [done|]. intros stashed. split; [done|]. intros updates.
  destruct (nc_pricing cfg); cbn [prog_bind along]; [split; [done|]; intros key|].
  all: split; [by split|]; exists endpoint, stashed, updates; unfold log; split_and!; [set_solver..|apply describes_payload].
Qed.

Lemma exchange_along s payload :
  changes s = [] -> lib_part s = [] ->
  (exists endpoint stashed updates, Did (resp:=node_answer) (Get EndpointOverride) endpoint ∈ s /\
     Did (resp:=node_answer) (Get Token) stashed ∈ s /\ Did (resp:=node_answer) UpdateStatus updates ∈ s /\
     describes (default (nc_endpoint cfg) endpoint) stashed updates payload) ->
  along log (fun _ _ => True) (fun s' r => changes s' = [] /\ (forall data, r = Val data -> accepted_with s' payload data)) s
    (lift (register_request status_display send_error decode_error node (register_url (nc_directory_url cfg)) payload)).
Proof.
  intros Hc Hl (endpoint & stashed & updates & H1 & H2 & H3 & H4).
  pose proof (along_lift _ (fun _ _ => True) s [] _ (fun _ _ => I) (register_request_along payload)) as Ha. rewrite app_nil_r in Ha.
  eapply along_mono; [|exact Ha]. intros s' r (tr & -> & Hf). split; [by rewrite changes_app, changes_lift, Hc|].
  intros data ->. split; [exists endpoint, stashed, updates; split_and!; [set_solver..|done]|].
  by rewrite lib_part_app, lib_part_lift, Hl.
Qed.

Lemma persist_unputting o token hmac : acts unputting (persist_saved_credentials o token hmac).
Proof. unfold persist_saved_credentials, update_saved_identity_credentials, persist_identity_credential. acts_split; exact I. Qed.

Lemma registration_along :
  along log (fun _ _ => True) (fun s r => match r with Val token => registration_done s token | _ => changes s = [] end) []
    registration.
Proof.
  unfold register. eapply along_bind; [apply payload_along|]. intros s1 payload [[C1 L1] H1].
  eapply along_bind; [by apply exchange_along|]. intros s2 [data|e|] [C2 H2]; cbn [along]; [|done..]. specialize (H2 _ eq_refl).
  unfold registration_token. destruct (token_of data) as [token|] eqn:Et; cbn [ok_or along]; [|done]. split; [done|]. intros [].
  eapply (along_bind _ _ (fun s3 _ => changes s3 = [Put Token token] ++ issued_key data /\ accepted_with s3 payload data)).
  { assert (accepted_with (log s2 (Put Token token) tt) payload data) as H3 by (eapply accepted_prefix; [apply prefix_log|done]).
    unfold issued_key. destruct (str_is_empty (nc_node_hmac_key cfg)); [destruct (nonempty_str _)|]; cbn [along]; try split; try done.
    all: try (by rewrite changes_log, C2). intros []. cbn [along]. split; [by rewrite !changes_log, C2|].
    eapply accepted_prefix; [apply prefix_log|done]. }
  intros s3 [] [C3 H3]. split; [done|]. intros hmac.
  eapply along_bind; [apply along_prefix, unputting_along, persist_unputting|]. intros s4 [] [(saving & C4 & Hs) P4].
  cbn [along]. do 2 (split; [done|]; intros []). split; [done|]. intros recorded. split; [done|]. intros [].
  match goal with |- along _ _ _ ?s _ => assert (accepted_with s payload data) as [(e & st & u & I1 & I2 & I3 & Hd) Ha] end.
  { eapply accepted_prefix; [|exact H3]. do 4 (etrans; [|apply prefix_log]). etrans; [apply prefix_log|exact P4]. }
  exists e, st, u, payload, data, saving, recorded. split_and!; try done; [unfold log; set_solver|].
  rewrite !changes_log, C4, changes_log, C3, !app_nil_r, <- !app_assoc. done.
Qed.
End registering.

(** C20: registering is all or nothing.  A registration that fails changes neither
    the shared state, nor the secret store, nor the saved node file.  One that
    succeeds was accepted by the directory — a restricted directory, with a
    current decision that makes this node eligible — for a payload that carries
    the node's endpoint, its advertised capabilities, its identifier and the token
    it held; it then installs exactly the token and signing key of that answer
    (the operator's own key wins) and records the advertised models and the
    endpoint in use at that moment. *)
Theorem register_exact (to_lowercase : string -> string) `{SerdeOps} {signing : SigningLib} f64_display status_display version
    send_error decode_error global_policy node answer k tr r :
  run answer k (register to_lowercase f64_display status_display version send_error decode_error global_policy node) = (tr, r) ->
  match r with
  | Val token => registration_done to_lowercase node tr token
  | _ => changes tr = []
  end.
Proof.
  intros Hr.
  refine (proj1 (run_logged (fun _ _ => True) (fun s r => match r with Val token => registration_done to_lowercase node s token
    | _ => changes s = [] end) _ _ _ _ _ _ Hr)).
  apply registration_along.
Qed.
