(* ===== verification/NodeRuntimeWitness.v ===== *)
(** * Concrete runs of the node runtime *)

From stdpp Require Import vector.
From S2P Require Import Prelude Program Text Json Cbor CodecModel HttpResource Gate ClientTypes ClientEffects HttpClient ConsumerToken Signing Recovery Provider NodeTask NodeRuntime NodeHeartbeat NodeRecovery NodeCounters NodeRegistration ClientWitness.
#[local] Existing Instances demo_serde toy_signing.

(** ** A node *)

Definition demo_config : NodeConfig :=
  mkNodeConfig "node-1" "https://a" "urn:iicp:intent:llm:chat:v1" (Some "m1") None None ["m2"; "m1"] "https://dir/" None 5000 2 1000 512
    None None None None None None None EmptyString [] false false PeerManager.Public false 9485 None None false None None None None None None None None [] [] [].
Definition demo_node : IicpNode := mkIicpNode demo_config [] None (Some "node") false.
Definition demo_loop : hb_config := mkHbConfig (mk_obj [("endpoint", JString "https://a")]) 1 1 true.

(** ** Its surroundings *)

Definition answered (status : Z) (v : json) : result http_response bool := Ok (mkResponseIn status [] [json_to_vec v] false).
Definition issued : json := mk_obj [("node_token", JString "t2"); ("node_hmac_key", JString "k2")].

(** The directory issues [t2] to whoever registers and does not list the node. *)
Definition library_answer (a : action) : answer a :=
  match a with
  | NewUuid | NewUuidSimple => "u"
  | GenF64 => f64_of_Z 0
  | GenBelow n => Fin.F1
  | UnixNow => 1000
  | ResolveSecret _ => Some "t2"
  | LookupHost _ _ => None
  | Send rq => if rq_method rq ==? "POST" then answered 200 issued else answered 404 JNull
  | CacheGet _ => None
  | TicketKeyGet => None
  | RandomBytes n => vreplicate n x00
  | Sleep _ | CacheSet _ _ _ | TicketKeySet _ => tt
  end.
Definition tally_answer (a : task_action) : tresp a :=
  match a with
  | ReadClock | ReadUnix | FetchAdd => 0
  | SwapSuccess => 3
  | SwapFailed => 1
  | SwapLatency => 40
  | ReadHhmm | ReadHmacKey | ReadToken => "12:00"
  | NewBatchId => "batch"
  | RateAllow _ | CheckNonce _ | CheckTask _ _ => true
  | ReadStability => obs_ok 0
  | Handle _ => Val JNull
  | RandomNonce => vreplicate 12 x2a
  | SendHeartbeat _ => DeliveryFailed
  | FetchSub | SleepMs _ | AddSuccess | AddFailed | AddLatency _ | SpawnReceipt _ => tt
  end.
(** [beat] is the status of a heartbeat. *)
Definition node_answers (beat : Z) (n : nat) (a : node_action) : node_answer a :=
  match a with
  | Lib a => library_answer a
  | Tally a => tally_answer a
  | Get c =>
      match c return cell_type c with
      | Token => "t1" | HmacKey => "k1" | RegisteredEndpoint => "https://a"
      | Challenge => Some "c" | EndpointOverride => None
      | RegisteredModels | PublicModels => ["m1"]
      | RuntimeAvailable | RelayBound => false
      end
  | StabilityGet => obs_ok 0
  | LocalTime => "12:00"
  | UpdateStatus => mk_obj []
  | PostHeartbeat _ _ => answered beat (mk_obj [("challenge", JString "c2")])
  | LoadNode _ => Some (mkIdentity (Some "old") None {["node_token" := LinuxSecretService "s" "a"]} JNull)
  | StoreSecret _ _ | SaveNode _ _ => true
  | Put _ _ | Stability _ | LocalHealth _ | Pause _ => tt
  end.

Notation demo_lower := (fun s : string => s).
Notation beats n := (serve_heartbeats demo_lower demo_node demo_loop n "t1").
Notation path_of n beat := (run (node_answers beat) 0 (beats n)).1.
Notation end_of n beat := (run (node_answers beat) 0 (beats n)).2.

(** ** Heartbeats *)

Definition honest (token : string) (tr : list (step node_answer)) (e : hb_end) : Prop :=
  (forall tr1 a x tr2, tr = tr1 ++ Did a x :: tr2 -> beat_ok demo_lower demo_node token tr1 a) /\
  (forall b, e = Beat b -> hb_token b = last_token token tr).

(** The directory forgot the node: it registers again and goes on with the new
    token. *)
Lemma heartbeat_honest_witness :
  honest "t1" (path_of 2%nat 404) (end_of 2%nat 404) /\
  match end_of 2%nat 404 with Beat b => hb_token b = "t2" /\ hb_seq b = 2 | Exits _ => False end.
Proof.
  split; [|vm_compute; done].
  apply (heartbeat_honest demo_lower demo_node demo_loop (node_answers 404) 2 0); [reflexivity|apply surjective_pairing].
Defined.

(** Accepted heartbeats of a node without a route: it restarts itself. *)
Lemma recovery_restart_witness :
  w_hopeless (watched (path_of 1%nat 200)) = true /\ end_of 1%nat 200 = Exits RECOVERY_EXIT_CODE.
Proof.
  assert (w_hopeless (watched (path_of 1%nat 200)) = true) as Hh by (vm_compute; reflexivity). split; [exact Hh|].
  destruct (recovery_restart demo_lower demo_node demo_loop (node_answers 200) 1 0 "t1" _ _ (surjective_pairing _)) as [_ Hr].
  apply Hr; [reflexivity|reflexivity|split; [reflexivity|discriminate]|discriminate|exact Hh].
Defined.

Lemma heartbeat_refines_counters_witness :
  path (heartbeat_loop 2 None) (omap counter_view (path_of 2%nat 500)) (Ret Stopped).
Proof.
  pose proof (heartbeat_refines_counters demo_lower demo_node demo_loop (node_answers 500) 2 0 "t1" _ _ (surjective_pairing _)) as Hp.
  assert (match end_of 2%nat 500 with Beat _ => true | Exits _ => false end = true) as He by (vm_compute; reflexivity).
  destruct (end_of 2%nat 500); [exact Hp|discriminate].
Defined.

(** ** Registration *)

Definition demo_register : prog node_answer (outcome string) :=
  register demo_lower (fun _ => "1") (fun _ => "404 Not Found") "1.0" (fun _ => "failed") "undecodable" (cip_new cip_options_default) demo_node.
Notation registered := (run (node_answers 200) 0 demo_register).

(** The directory's token is installed, sent to the identity's secret store and
    read back. *)
Lemma register_exact_witness :
  registered.2 = Val "t2" /\ registration_done demo_lower demo_node registered.1 "t2".
Proof.
  assert (registered.2 = Val "t2") as He by (vm_compute; reflexivity). split; [exact He|].
  pose proof (register_exact demo_lower (fun _ => "1") (fun _ => "404 Not Found") "1.0" (fun _ => "failed") "undecodable"
    (cip_new cip_options_default) demo_node (node_answers 200) 0 _ _ (surjective_pairing _)) as Hd.
  fold demo_register in Hd. rewrite He in Hd. exact Hd.
Defined.

Notation persisted := (run (node_answers 200) 0 (persist_saved_credentials (Some "node") "t2" (Some "k2"))).
Lemma credentials_protected_witness :
  length persisted.1 = 4%nat /\ saved_once (Some "node") "t2" persisted.1.
Proof.
  split; [vm_compute; reflexivity|].
  apply (credentials_protected (node_answers 200) 0 (Some "node") "t2" (Some "k2")). by destruct persisted as [tr []].
Defined.
