(* ===== verification/RuntimeConfig.v ===== *)
(** * Runtime configuration

    [src/runtime_config.rs] and [src/config_wizard.rs]: presets, precedence,
    validation and the wizard's projection, with the command line's readers of
    [src/bin/iicp_node.rs] that feed them. *)

From S2P Require Import Prelude Text Chars Json ClientTypes.

Definition RUNTIME_CONFIG_SCHEMA_VERSION : Z := 1.
Definition PUBLIC_DIRECTORY_URL : string := "https://iicp.network/api".

(** ** Data *)

Inductive OperatingMode := Public | Private | FederatedPrivate | LocalOnly | Custom.
Inductive DirectorySource := SPublic | SRemote | SLocal | SStatic.
Global Instance operating_mode_eq_dec : EqDecision OperatingMode.
Proof. solve_decision. Defined.
Global Instance directory_source_eq_dec : EqDecision DirectorySource.
Proof. solve_decision. Defined.

Record DirectoryConfig := mkDirectoryConfig {
  dc_source : DirectorySource;
  dc_url : option string;
  dc_authority_id : option string;
  dc_local_discovery_enabled : bool
}.
Record MembershipConfig := mkMembershipConfig {
  mc_required : bool;
  mc_require_authenticated_clients : bool;
  mc_require_authenticated_nodes : bool;
  mc_reject_unknown_peers : bool;
  mc_credential : option SecretRef;
  mc_revocation_source : option string
}.
Record MeshConfig := mkMeshConfig { mh_enabled : bool; mh_require_authenticated_gossip : bool }.
Record ExecutionConfig := mkExecutionConfig {
  ex_allow_local : bool;
  ex_allow_external_providers : bool;
  ex_allow_public_iicp : bool
}.
Record CipConfig := mkCipConfig { ci_enabled : bool; ci_require_same_trust_domain : bool }.
Record FederationConfig := mkFederationConfig { fd_enabled : bool; fd_trusted_domains : list string }.
Record NetworkPolicy := mkNetworkPolicy {
  np_allow_public_fallback : bool;
  np_allow_external_bootstrap : bool;
  np_allow_external_relay : bool;
  np_allow_auto_update_network : bool
}.
Record RuntimeConfigV1 := mkRuntimeConfig {
  rt_schema_version : Z;
  rt_mode : OperatingMode;
  rt_directory : DirectoryConfig;
  rt_trust_domain_id : option string;
  rt_membership : MembershipConfig;
  rt_mesh : MeshConfig;
  rt_execution : ExecutionConfig;
  rt_cip : CipConfig;
  rt_federation : FederationConfig;
  rt_network : NetworkPolicy;
  rt_secret_refs : gmap string SecretRef
}.
Record ConfigFinding := mkFinding { cf_code : string; cf_path : string; cf_message : string }.
Record ConfigOverrides := mkOverrides {
  ov_mode : option OperatingMode;
  ov_directory_url : option string;
  ov_directory_authority : option string;
  ov_trust_domain_id : option string;
  ov_allow_public_fallback : option bool;
  ov_trusted_domains : option (list string);
  ov_local_directory_discovery : option bool
}.
Definition no_overrides : ConfigOverrides := mkOverrides None None None None None None None.

Definition secret_ref_is_valid (r : SecretRef) : bool :=
  let nonempty value := negb (str_is_empty (trim value)) in
  match r with
  | EnvironmentSecret name => nonempty name && str_all (fun c => is_ascii_uppercase c || is_ascii_digit c || (c =? "_")%char) name
  | FileSecret path => nonempty path
  | MacosKeychain service account => nonempty service && nonempty account
  | WindowsCredential target => nonempty target
  | LinuxSecretService collection label => nonempty collection && nonempty label
  | ExternalSecret provider reference => nonempty provider && nonempty reference
  end.

(** ** Presets *)

Definition is_restricted (mode : OperatingMode) : bool :=
  match mode with Private | FederatedPrivate => true | _ => false end.
Definition preset (mode : OperatingMode) : RuntimeConfigV1 :=
  let restricted := is_restricted mode in
  let local := bool_decide (mode = LocalOnly) in
  let federated := bool_decide (mode = FederatedPrivate) in
  mkRuntimeConfig RUNTIME_CONFIG_SCHEMA_VERSION mode
    (mkDirectoryConfig (if local then SLocal else if restricted then SRemote else SPublic)
       (if local then None else Some PUBLIC_DIRECTORY_URL) None false)
    None
    (mkMembershipConfig restricted restricted restricted restricted None None)
    (mkMeshConfig (negb local) restricted)
    (mkExecutionConfig true (negb local) (negb restricted && negb local))
    (mkCipConfig false restricted)
    (mkFederationConfig federated [])
    (mkNetworkPolicy (negb restricted && negb local) (negb local) (negb local) (negb local))
    ∅.

(** ** Validation *)

Definition finding_if (b : bool) (code path message : string) : list ConfigFinding :=
  if b then [mkFinding code path message] else [].
Definition none_or_empty (o : option string) : bool := is_none_or o str_is_empty.

Section config.
Context (c : RuntimeConfigV1).

Definition has_restricted_membership_controls : bool :=
  mc_required (rt_membership c) && mc_require_authenticated_clients (rt_membership c)
  && mc_require_authenticated_nodes (rt_membership c) && mc_reject_unknown_peers (rt_membership c)
  && mh_require_authenticated_gossip (rt_mesh c).
Definition has_external_access : bool :=
  let external_directory :=
    negb (match dc_source (rt_directory c) with SLocal | SStatic => true | _ => false end) || is_some (dc_url (rt_directory c)) in
  let external_execution :=
    ex_allow_external_providers (rt_execution c) || ex_allow_public_iicp (rt_execution c) || fd_enabled (rt_federation c) in
  let external_network :=
    np_allow_public_fallback (rt_network c) || np_allow_external_bootstrap (rt_network c)
    || np_allow_external_relay (rt_network c) || np_allow_auto_update_network (rt_network c) in
  external_directory || mh_enabled (rt_mesh c) || external_execution || external_network.

Definition validate_restricted_mode : list ConfigFinding :=
  if is_restricted (rt_mode c) then
    finding_if (none_or_empty (rt_trust_domain_id c)) "trust_domain_required" "/trust_domain_id"
      "restricted modes require a trust-domain identifier"
    ++ finding_if (none_or_empty (dc_authority_id (rt_directory c))) "directory_authority_required" "/directory/authority_id"
         "restricted modes require a configured directory authority"
    ++ finding_if (negb has_restricted_membership_controls) "restricted_membership_controls_required" "/membership"
         "restricted modes require authenticated clients, nodes, gossip and unknown-peer rejection"
    ++ finding_if (np_allow_public_fallback (rt_network c) || ex_allow_public_iicp (rt_execution c)) "public_fallback_forbidden"
         "/network/allow_public_fallback" "restricted modes cannot enable public discovery or execution fallback"
  else [].
Definition validate_federation : list ConfigFinding :=
  finding_if (bool_decide (rt_mode c = FederatedPrivate)
              && (negb (fd_enabled (rt_federation c)) || bool_decide (fd_trusted_domains (rt_federation c) = [])))
    "trusted_federation_domain_required" "/federation/trusted_domains"
    "federated-private mode requires at least one explicit trusted domain"
  ++ finding_if (negb (bool_decide (rt_mode c = FederatedPrivate)) && fd_enabled (rt_federation c))
       "federation_mode_mismatch" "/federation/enabled" "federation requires federated-private mode".
Definition validate_reserved_restricted_features : list ConfigFinding :=
  finding_if (is_some (mc_revocation_source (rt_membership c))) "revocation_source_not_supported" "/membership/revocation_source"
    "authenticated revocation sources are reserved until their contract is implemented"
  ++ finding_if (bool_decide (rt_mode c = FederatedPrivate)) "federated_private_not_supported" "/mode"
       "federated-private operation remains unavailable until the Phase 6 evidence gate passes".
Definition validate_local_only : list ConfigFinding :=
  finding_if (bool_decide (rt_mode c = LocalOnly) && has_external_access) "local_only_external_access_forbidden" "/network"
    "local-only mode cannot enable external control-plane, update or execution access"
  ++ finding_if (bool_decide (rt_mode c = LocalOnly) && dc_local_discovery_enabled (rt_directory c))
       "local_only_multicast_forbidden" "/directory/local_discovery_enabled"
       "local-only mode cannot issue multicast directory discovery queries".

Definition all_references : list SecretRef := (map_to_list (rt_secret_refs c)).*2 ++ option_list (mc_credential (rt_membership c)).
Definition validate_config : list ConfigFinding :=
  finding_if (negb (rt_schema_version c =? RUNTIME_CONFIG_SCHEMA_VERSION)) "unsupported_schema_version" "/schema_version"
    "only runtime configuration schema version 1 is supported"
  ++ finding_if (match dc_source (rt_directory c) with SPublic | SRemote => true | _ => false end
                 && negb (dc_local_discovery_enabled (rt_directory c)) && none_or_empty (dc_url (rt_directory c)))
       "directory_url_required" "/directory/url" "the selected directory source requires an explicit URL"
  ++ validate_restricted_mode
  ++ validate_federation
  ++ validate_reserved_restricted_features
  ++ validate_local_only
  ++ finding_if (dc_local_discovery_enabled (rt_directory c) && none_or_empty (dc_authority_id (rt_directory c)))
       "local_directory_trust_anchor_required" "/directory/authority_id"
       "local directory discovery requires an explicit trusted directory DID"
  ++ finding_if (ci_enabled (rt_cip c) && mc_required (rt_membership c) && negb (ci_require_same_trust_domain (rt_cip c)))
       "cip_trust_domain_required" "/cip/require_same_trust_domain"
       "CIP in a restricted domain must inherit the originating trust-domain policy"
  ++ finding_if (existsb (fun r => negb (secret_ref_is_valid r)) all_references) "invalid_secret_reference" "/secret_refs"
       "secret references must use a supported source and non-empty locator".
End config.

(** ** Precedence *)

Definition set_dir (f : DirectoryConfig -> DirectoryConfig) (c : RuntimeConfigV1) : RuntimeConfigV1 :=
  mkRuntimeConfig (rt_schema_version c) (rt_mode c) (f (rt_directory c)) (rt_trust_domain_id c) (rt_membership c) (rt_mesh c)
    (rt_execution c) (rt_cip c) (rt_federation c) (rt_network c) (rt_secret_refs c).
Definition set_directory_url (url : string) : RuntimeConfigV1 -> RuntimeConfigV1 :=
  set_dir (fun d => mkDirectoryConfig (if decide (dc_source d = SPublic) then SRemote else dc_source d) (Some url)
                      (dc_authority_id d) (dc_local_discovery_enabled d)).
Definition put_url (url : option string) : RuntimeConfigV1 -> RuntimeConfigV1 :=
  set_dir (fun d => mkDirectoryConfig (dc_source d) url (dc_authority_id d) (dc_local_discovery_enabled d)).
Definition put_authority (authority : option string) : RuntimeConfigV1 -> RuntimeConfigV1 :=
  set_dir (fun d => mkDirectoryConfig (dc_source d) (dc_url d) authority (dc_local_discovery_enabled d)).
Definition put_discovery (enabled : bool) : RuntimeConfigV1 -> RuntimeConfigV1 :=
  set_dir (fun d => mkDirectoryConfig (dc_source d) (dc_url d) (dc_authority_id d) enabled).
Definition put_source (source : DirectorySource) : RuntimeConfigV1 -> RuntimeConfigV1 :=
  set_dir (fun d => mkDirectoryConfig source (dc_url d) (dc_authority_id d) (dc_local_discovery_enabled d)).
Definition put_trust_domain (domain : option string) (c : RuntimeConfigV1) : RuntimeConfigV1 :=
  mkRuntimeConfig (rt_schema_version c) (rt_mode c) (rt_directory c) domain (rt_membership c) (rt_mesh c)
    (rt_execution c) (rt_cip c) (rt_federation c) (rt_network c) (rt_secret_refs c).
Definition put_public_fallback (allow : bool) (c : RuntimeConfigV1) : RuntimeConfigV1 :=
  mkRuntimeConfig (rt_schema_version c) (rt_mode c) (rt_directory c) (rt_trust_domain_id c) (rt_membership c) (rt_mesh c)
    (rt_execution c) (rt_cip c) (rt_federation c)
    (mkNetworkPolicy allow (np_allow_external_bootstrap (rt_network c)) (np_allow_external_relay (rt_network c))
       (np_allow_auto_update_network (rt_network c))) (rt_secret_refs c).
Definition put_trusted_domains (domains : list string) (c : RuntimeConfigV1) : RuntimeConfigV1 :=
  mkRuntimeConfig (rt_schema_version c) (rt_mode c) (rt_directory c) (rt_trust_domain_id c) (rt_membership c) (rt_mesh c)
    (rt_execution c) (rt_cip c) (mkFederationConfig (fd_enabled (rt_federation c)) domains) (rt_network c) (rt_secret_refs c).
Definition put_credential (credential : option SecretRef) (c : RuntimeConfigV1) : RuntimeConfigV1 :=
  let m := rt_membership c in
  mkRuntimeConfig (rt_schema_version c) (rt_mode c) (rt_directory c) (rt_trust_domain_id c)
    (mkMembershipConfig (mc_required m) (mc_require_authenticated_clients m) (mc_require_authenticated_nodes m)
       (mc_reject_unknown_peers m) credential (mc_revocation_source m))
    (rt_mesh c) (rt_execution c) (rt_cip c) (rt_federation c) (rt_network c) (rt_secret_refs c).

(** An override that is given replaces the setting. *)
Definition overriding {A} (f : A -> RuntimeConfigV1 -> RuntimeConfigV1) (o : option A) (c : RuntimeConfigV1) : RuntimeConfigV1 :=
  match o with Some v => f v c | None => c end.
Definition apply_overrides (overlay : ConfigOverrides) (c : RuntimeConfigV1) : RuntimeConfigV1 :=
  let c := overriding (fun mode _ => preset mode) (ov_mode overlay) c in
  let c := overriding set_directory_url (ov_directory_url overlay) c in
  let c := overriding (fun a => put_authority (Some a)) (ov_directory_authority overlay) c in
  let c := overriding (fun d => put_trust_domain (Some d)) (ov_trust_domain_id overlay) c in
  let c := overriding put_public_fallback (ov_allow_public_fallback overlay) c in
  let c := overriding put_trusted_domains (ov_trusted_domains overlay) c in
  overriding put_discovery (ov_local_directory_discovery overlay) c.

Definition take_mode (o : ConfigOverrides) : ConfigOverrides :=
  mkOverrides None (ov_directory_url o) (ov_directory_authority o) (ov_trust_domain_id o) (ov_allow_public_fallback o)
    (ov_trusted_domains o) (ov_local_directory_discovery o).
(** The environment's mode is taken out only where the command line names none. *)
Definition resolve (presets : OperatingMode) (file : option RuntimeConfigV1) (environment cli : ConfigOverrides) : RuntimeConfigV1 :=
  let '(mode, environment) :=
    match ov_mode cli with
    | Some m => (Some m, environment)
    | None => (ov_mode environment, take_mode environment)
    end in
  let effective_mode := default presets (option_or mode (rt_mode <$> file)) in
  let config :=
    match file with
    | Some c => if decide (rt_mode c = effective_mode) then c else preset effective_mode
    | None => preset effective_mode
    end in
  apply_overrides (take_mode cli) (apply_overrides environment config).

(** A legacy node record names its directory and may hold secrets in plain text. *)
Definition migrate_legacy_node (directory_url : string) (node_token node_hmac_key : option string) : RuntimeConfigV1 * bool :=
  let config := put_url (Some directory_url) (preset Public) in
  (if directory_url <>? PUBLIC_DIRECTORY_URL then put_source SRemote config else config,
   is_some node_token || is_some node_hmac_key).

(** ** The wizard *)

Record WizardRequest := mkWizardRequest {
  wz_mode : OperatingMode;
  wz_directory_url : option string;
  wz_directory_authority : option string;
  wz_trust_domain_id : option string;
  wz_trusted_domains : list string;
  wz_membership_credential : option SecretRef
}.
Record WizardSummary := mkWizardSummary {
  ws_mode : string;
  ws_directory : string;
  ws_trust_domain : option string;
  ws_membership : string;
  ws_public_fallback : bool;
  ws_federation : string;
  ws_enrollment_handoff : string
}.
Record WizardReport := mkWizardReport {
  wr_report_version : string;
  wr_valid : bool;
  wr_config : RuntimeConfigV1;
  wr_findings : list ConfigFinding;
  wr_summary : WizardSummary;
  wr_reproduce_argv : list string
}.

Definition mode_name (mode : OperatingMode) : string :=
  match mode with
  | Public => "public"
  | Private => "private"
  | FederatedPrivate => "federated_private"
  | LocalOnly => "local_only"
  | Custom => "custom"
  end.
Definition not_blank (s : string) : bool := negb (str_is_empty (trim s)).
Definition keep_filled (o : option string) : option string := let! s := o in if not_blank s then Some s else None.
Definition wizard_summary (c : RuntimeConfigV1) : WizardSummary :=
  let restricted := is_restricted (rt_mode c) in
  mkWizardSummary (mode_name (rt_mode c))
    (default "local/static only" (dc_url (rt_directory c)))
    (rt_trust_domain_id c)
    (if restricted then "authenticated membership required" else "not required by this preset")
    (np_allow_public_fallback (rt_network c))
    (if decide (rt_mode c = FederatedPrivate) then "configured but unavailable pending Phase 6 evidence"
     else if fd_enabled (rt_federation c) then "enabled" else "disabled")
    (if restricted && is_none (mc_credential (rt_membership c)) then "obtain membership externally and add a secret reference"
     else if restricted then "membership secret reference configured" else "not applicable").
Definition flag (name : string) (value : option string) : list string :=
  match value with Some v => [name; v] | None => [] end.
Definition reproduction_argv (c : RuntimeConfigV1) : list string :=
  ["iicp-node"; "config"; "wizard"; "--mode"; mode_name (rt_mode c)]
  ++ (if decide (dc_url (rt_directory c) = Some PUBLIC_DIRECTORY_URL) then [] else flag "--directory-url" (dc_url (rt_directory c)))
  ++ (if dc_local_discovery_enabled (rt_directory c) then ["--local-directory-discovery"; "true"] else [])
  ++ flag "--directory-authority" (dc_authority_id (rt_directory c))
  ++ flag "--trust-domain" (rt_trust_domain_id c)
  ++ (fd_trusted_domains (rt_federation c) ≫= fun v => ["--trusted-domain"; v])
  ++ match mc_credential (rt_membership c) with
     | Some (EnvironmentSecret name) => ["--membership-env"; name]
     | _ => []
     end.
Definition wizard_config (r : WizardRequest) : RuntimeConfigV1 :=
  let c := preset (wz_mode r) in
  let c := overriding (fun url => put_url (Some url)) (keep_filled (wz_directory_url r)) c in
  let c := put_authority (keep_filled (wz_directory_authority r)) c in
  let c := put_trust_domain (keep_filled (wz_trust_domain_id r)) c in
  let c := put_trusted_domains (filter (fun v => not_blank v = true) (wz_trusted_domains r)) c in
  put_credential (wz_membership_credential r) c.
Definition build (r : WizardRequest) : WizardReport :=
  let config := wizard_config r in
  let findings := validate_config config in
  mkWizardReport "iicp.config-wizard-report.v1" (bool_decide (findings = [])) config findings (wizard_summary config)
    (reproduction_argv config).

(** ** The command line *)

(** The errors of the command line, by what they print. *)
Inductive CliError :=
| UnknownMode (value : string)
| NotBoolean (source : string)
| RequiresValue (option : string)
| UnknownOption (what option : string)
| WizardCancelled
| ModeRequired
| FileError (message : string).

Definition parse_operating_mode (value : string) : result OperatingMode CliError :=
  if value ==? "public" then Ok Public
  else if value ==? "private" then Ok Private
  else if str_in value ["federated_private"; "federated-private"] then Ok FederatedPrivate
  else if str_in value ["local_only"; "local-only"] then Ok LocalOnly
  else if value ==? "custom" then Ok Custom
  else Err (UnknownMode value).
Definition parse_bool_config (value source : string) : result bool CliError :=
  let value := to_ascii_lowercase value in
  if str_in value ["1"; "true"; "yes"; "on"] then Ok true
  else if str_in value ["0"; "false"; "no"; "off"] then Ok false
  else Err (NotBoolean source).
Definition transpose {A E} (o : option (result A E)) : result (option A) E :=
  match o with
  | Some (Ok v) => Ok (Some v)
  | Some (Err e) => Err e
  | None => Ok None
  end.
(** The items of a list separated by commas. *)
Definition comma_list (value : string) : list string :=
  filter (fun v => negb (str_is_empty v) = true) (trim <$> str_split "," value).
Definition config_environment_overrides (env : string -> option string) : result ConfigOverrides CliError :=
  let? mode := transpose (parse_operating_mode <$> env "IICP_MODE") in
  let? fallback := transpose ((fun v => parse_bool_config v "IICP_ALLOW_PUBLIC_FALLBACK") <$> env "IICP_ALLOW_PUBLIC_FALLBACK") in
  let? discovery :=
    transpose ((fun v => parse_bool_config v "IICP_LOCAL_DIRECTORY_DISCOVERY") <$> env "IICP_LOCAL_DIRECTORY_DISCOVERY") in
  Ok (mkOverrides mode (env "IICP_DIRECTORY_URL") (env "IICP_DIRECTORY_AUTHORITY") (env "IICP_TRUST_DOMAIN_ID") fallback
        (comma_list <$> env "IICP_TRUSTED_DOMAINS") discovery).


Record WizardCliOptions := mkWizardOptions {
  wo_interactive : bool;
  wo_mode : option OperatingMode;
  wo_directory_url : option string;
  wo_directory_authority : option string;
  wo_trust_domain_id : option string;
  wo_trusted_domains : list string;
  wo_membership_env : option string;
  wo_output : option string
}.
Definition no_wizard_options : WizardCliOptions := mkWizardOptions false None None None None [] None None.

Inductive wizard_option := WMode | WUrl | WAuthority | WDomain | WTrusted | WEnv | WOutput.
Definition wizard_flag (arg : string) : option wizard_option :=
  if arg ==? "--mode" then Some WMode
  else if arg ==? "--directory-url" then Some WUrl
  else if arg ==? "--directory-authority" then Some WAuthority
  else if arg ==? "--trust-domain" then Some WDomain
  else if arg ==? "--trusted-domain" then Some WTrusted
  else if arg ==? "--membership-env" then Some WEnv
  else if arg ==? "--output" then Some WOutput
  else None.
Definition wizard_set (w : wizard_option) (v : string) (o : WizardCliOptions) : result WizardCliOptions CliError :=
  let '(mkWizardOptions i m u a d t e out) := o in
  match w with
  | WMode => let? m := parse_operating_mode v in Ok (mkWizardOptions i (Some m) u a d t e out)
  | WUrl => Ok (mkWizardOptions i m (Some v) a d t e out)
  | WAuthority => Ok (mkWizardOptions i m u (Some v) d t e out)
  | WDomain => Ok (mkWizardOptions i m u a (Some v) t e out)
  | WTrusted => Ok (mkWizardOptions i m u a d (t ++ [v]) e out)
  | WEnv => Ok (mkWizardOptions i m u a d t (Some v) out)
  | WOutput => Ok (mkWizardOptions i m u a d t e (Some v))
  end.
Definition set_interactive (o : WizardCliOptions) : WizardCliOptions :=
  let '(mkWizardOptions _ m u a d t e out) := o in mkWizardOptions true m u a d t e out.
(** The arguments after [config wizard]; no options are an asked-for usage text. *)
Fixpoint parse_wizard_options (args : list string) (o : WizardCliOptions) : result (option WizardCliOptions) CliError :=
  match args with
  | [] => Ok (Some o)
  | arg :: rest =>
      if arg ==? "--interactive" then parse_wizard_options rest (set_interactive o)
      else if str_in arg ["--help"; "-h"] then Ok None
      else match wizard_flag arg with
           | Some w =>
               match rest with
               | v :: rest => let? o := wizard_set w v o in parse_wizard_options rest o
               | [] => Err (RequiresValue arg)
               end
           | None => Err (UnknownOption "config wizard option" arg)
           end
  end.

(** Prompts read lines of the standard input; its end cancels the wizard. *)
Definition wizard_prompt (fallback : string) (input : list string) : result (string * list string) CliError :=
  match input with
  | [] => Err WizardCancelled
  | line :: input => let value := trim line in Ok (if str_is_empty value then fallback else value, input)
  end.
Definition prompt_wizard_options (o : WizardCliOptions) (input : list string) : result WizardCliOptions CliError :=
  if negb (wo_interactive o) then Ok o
  else
    let? p := wizard_prompt (from_option mode_name "public" (wo_mode o)) input in
    let? mode := parse_operating_mode p.1 in
    let input := p.2 in
    let '(mkWizardOptions i _ u a d t e out) := o in
    let? r :=
      if is_restricted mode then
        let? u := wizard_prompt (default "https://directory.example/api" u) input in
        let? a := wizard_prompt (default empty_str a) u.2 in
        let? d := wizard_prompt (default empty_str d) a.2 in
        let? e := wizard_prompt (default empty_str e) d.2 in
        Ok (mkWizardOptions i (Some mode) (Some u.1) (Some a.1) (Some d.1) t (Some e.1) out, e.2)
      else Ok (mkWizardOptions i (Some mode) u a d t e out, input) in
    if bool_decide (mode = FederatedPrivate) && bool_decide (t = []) then
      let? t := wizard_prompt empty_str r.2 in
      wizard_set WTrusted t.1 r.1
    else Ok r.1.

Definition wizard_request (o : WizardCliOptions) (mode : OperatingMode) : WizardRequest :=
  mkWizardRequest mode (wo_directory_url o) (wo_directory_authority o) (wo_trust_domain_id o) (wo_trusted_domains o)
    (EnvironmentSecret <$> keep_filled (wo_membership_env o)).
(** What a command prints and the code it exits with. *)
Record wizard_run := mkWizardRun { run_report : option WizardReport; run_exit : Z }.
(** [commit] is the atomic write of the configuration to a file, with its error. *)
Definition finish_wizard (commit : string -> RuntimeConfigV1 -> option string) (output : option string) (report : WizardReport)
    : result wizard_run CliError :=
  if negb (wr_valid report) then Ok (mkWizardRun (Some report) 2)
  else
    match output ≫= fun path => commit path (wr_config report) with
    | Some e => Err (FileError e)
    | None => Ok (mkWizardRun (Some report) 0)
    end.
Definition run_config_wizard (commit : string -> RuntimeConfigV1 -> option string) (args input : list string) : result wizard_run CliError :=
  let? parsed := parse_wizard_options args no_wizard_options in
  match parsed with
  | None => Ok (mkWizardRun None 0)
  | Some o =>
      let? o := prompt_wizard_options o input in
      match wo_mode o with
      | None => Err ModeRequired
      | Some mode => finish_wizard commit (wo_output o) (build (wizard_request o mode))
      end
  end.

(** [config validate] and [config effective]. *)
Record resolve_args := mkResolveArgs {
  ra_file : option RuntimeConfigV1;
  ra_cli : ConfigOverrides;
  ra_preset : OperatingMode
}.
Section command.
(** Reading a configuration file: its text, and its parse. *)
Context (read_config : string -> result RuntimeConfigV1 string).

Inductive config_option := CFile | CMode | CUrl | CAuthority | CDomain | CFallback | CTrusted.
Definition config_flag (arg : string) : option config_option :=
  if arg ==? "--file" then Some CFile
  else if arg ==? "--mode" then Some CMode
  else if arg ==? "--directory-url" then Some CUrl
  else if arg ==? "--directory-authority" then Some CAuthority
  else if arg ==? "--trust-domain" then Some CDomain
  else if arg ==? "--allow-public-fallback" then Some CFallback
  else if arg ==? "--trusted-domain" then Some CTrusted
  else None.
Definition config_set (w : config_option) (v : string) (r : resolve_args) : result resolve_args CliError :=
  let '(mkResolveArgs f c p) := r in
  let '(mkOverrides m u a d fb t ld) := c in
  match w with
  | CFile => match read_config v with Ok file => Ok (mkResolveArgs (Some file) c p) | Err e => Err (FileError e) end
  | CMode => let? mode := parse_operating_mode v in Ok (mkResolveArgs f (mkOverrides (Some mode) u a d fb t ld) mode)
  | CUrl => Ok (mkResolveArgs f (mkOverrides m (Some v) a d fb t ld) p)
  | CAuthority => Ok (mkResolveArgs f (mkOverrides m u (Some v) d fb t ld) p)
  | CDomain => Ok (mkResolveArgs f (mkOverrides m u a (Some v) fb t ld) p)
  | CFallback => let? allow := parse_bool_config v "--allow-public-fallback" in Ok (mkResolveArgs f (mkOverrides m u a d (Some allow) t ld) p)
  | CTrusted => Ok (mkResolveArgs f (mkOverrides m u a d fb (Some (default [] t ++ [v])) ld) p)
  end.
Fixpoint parse_config_options (args : list string) (r : resolve_args) : result (option resolve_args) CliError :=
  match args with
  | [] => Ok (Some r)
  | arg :: rest =>
      if str_in arg ["--help"; "-h"] then Ok None
      else match config_flag arg with
           | Some w =>
               match rest with
               | v :: rest => let? r := config_set w v r in parse_config_options rest r
               | [] => Err (RequiresValue arg)
               end
           | None => Err (UnknownOption "config option" arg)
           end
  end.
(** What is printed: the configuration for [effective], and the findings. *)
Record resolved_run := mkResolvedRun { rr_config : RuntimeConfigV1; rr_findings : list ConfigFinding; rr_exit : Z }.
Definition emit_resolved_config (env : string -> option string) (r : resolve_args) : result resolved_run CliError :=
  let? environment := config_environment_overrides env in
  let config := resolve (ra_preset r) (ra_file r) environment (ra_cli r) in
  let findings := validate_config config in
  Ok (mkResolvedRun config findings (if bool_decide (findings = []) then 0 else 2)).
Definition run_resolved_config_action (env : string -> option string) (args : list string) : result (option resolved_run) CliError :=
  let? parsed := parse_config_options args (mkResolveArgs None no_overrides Public) in
  match parsed with
  | None => Ok None
  | Some r => let? run := emit_resolved_config env r in Ok (Some run)
  end.
End command.

(** ** Validation accepts exactly the well-formed configurations *)

Definition filled (o : option string) : Prop := exists s, o = Some s /\ s <> empty_str.
(** A restricted domain: named, with an authority, closed to strangers and to the public mesh. *)
Record restricted_domain (c : RuntimeConfigV1) : Prop := {
  rd_domain : filled (rt_trust_domain_id c);
  rd_authority : filled (dc_authority_id (rt_directory c));
  rd_membership : mc_required (rt_membership c) = true;
  rd_clients : mc_require_authenticated_clients (rt_membership c) = true;
  rd_nodes : mc_require_authenticated_nodes (rt_membership c) = true;
  rd_strangers : mc_reject_unknown_peers (rt_membership c) = true;
  rd_gossip : mh_require_authenticated_gossip (rt_mesh c) = true;
  rd_fallback : np_allow_public_fallback (rt_network c) = false;
  rd_execution : ex_allow_public_iicp (rt_execution c) = false
}.
(** Nothing outside the machine. *)
Record offline (c : RuntimeConfigV1) : Prop := {
  of_directory : dc_source (rt_directory c) = SLocal \/ dc_source (rt_directory c) = SStatic;
  of_url : dc_url (rt_directory c) = None;
  of_multicast : dc_local_discovery_enabled (rt_directory c) = false;
  of_mesh : mh_enabled (rt_mesh c) = false;
  of_providers : ex_allow_external_providers (rt_execution c) = false;
  of_iicp : ex_allow_public_iicp (rt_execution c) = false;
  of_network : rt_network c = mkNetworkPolicy false false false false
}.
Record well_formed (c : RuntimeConfigV1) : Prop := {
  wf_schema : rt_schema_version c = 1;
  wf_locator : dc_source (rt_directory c) = SPublic \/ dc_source (rt_directory c) = SRemote ->
    dc_local_discovery_enabled (rt_directory c) = true \/ filled (dc_url (rt_directory c));
  wf_mode : match rt_mode c with
            | Private => restricted_domain c
            | FederatedPrivate => False
            | LocalOnly => offline c
            | Public | Custom => True
            end;
  wf_federation : fd_enabled (rt_federation c) = false;
  wf_revocation : mc_revocation_source (rt_membership c) = None;
  wf_discovery : dc_local_discovery_enabled (rt_directory c) = true -> filled (dc_authority_id (rt_directory c));
  wf_cip : ci_enabled (rt_cip c) = true -> mc_required (rt_membership c) = true -> ci_require_same_trust_domain (rt_cip c) = true;
  wf_secrets : (forall k r, rt_secret_refs c !! k = Some r -> secret_ref_is_valid r = true)
    /\ (forall r, mc_credential (rt_membership c) = Some r -> secret_ref_is_valid r = true)
}.

Lemma finding_if_none b code path message : finding_if b code path message = [] <-> b = false.
Proof. unfold finding_if. by destruct b. Qed.
Lemma none_or_empty_filled o : none_or_empty o = false <-> filled o.
Proof.
  unfold none_or_empty, filled, is_none_or, str_is_empty. destruct o as [s|]; [|split; [done | by intros (? & ? & ?)]].
  rewrite String.eqb_neq. split; [eauto | by intros (? & [= <-] & ?)].
Qed.
Lemma app_nil {A} (l k : list A) : l ++ k = [] <-> l = [] /\ k = [].
Proof. destruct l; simpl; naive_solver. Qed.
Lemma references_valid (c : RuntimeConfigV1) :
  existsb (fun r => negb (secret_ref_is_valid r)) (all_references c) = false
  <-> (forall k r, rt_secret_refs c !! k = Some r -> secret_ref_is_valid r = true)
      /\ (forall r, mc_credential (rt_membership c) = Some r -> secret_ref_is_valid r = true).
Proof.
  unfold all_references. rewrite existsb_app, orb_false_iff.
  assert (forall l : list SecretRef, existsb (fun r => negb (secret_ref_is_valid r)) l = false
                                     <-> forall r, r ∈ l -> secret_ref_is_valid r = true) as E.
  { induction l as [|r l IH]; simpl; [split; [intros _ r Hr; by apply elem_of_nil in Hr | done]|].
    rewrite orb_false_iff, negb_false_iff, IH. split; [intros [? ?] s; rewrite elem_of_cons; naive_solver|].
    intros H. split; [apply H; by left | intros s Hs; apply H; by right]. }
  rewrite !E. f_equiv.
  - split; intros H.
    + intros k r Hk. apply H, list_elem_of_fmap. exists (k, r). split; [done | by apply elem_of_map_to_list].
    + intros r [[k s] [-> Hk]]%list_elem_of_fmap. apply elem_of_map_to_list in Hk. eauto.
  - destruct (mc_credential _) as [s|]; simpl; split.
    + intros H r [= <-]. apply H. by left.
    + intros H r Hr. apply list_elem_of_singleton in Hr as ->. auto.
    + done.
    + intros _ r Hr. by apply elem_of_nil in Hr.
Qed.

Lemma restricted_mode_valid (c : RuntimeConfigV1) :
  validate_restricted_mode c = [] <-> (is_restricted (rt_mode c) = true -> restricted_domain c).
Proof.
  unfold validate_restricted_mode. destruct (is_restricted (rt_mode c)); [|done].
  rewrite !app_nil, !finding_if_none, !none_or_empty_filled, negb_false_iff, orb_false_iff.
  unfold has_restricted_membership_controls. rewrite !andb_true_iff. split; [intros H _; destruct_and!; by constructor|].
  intros H. destruct (H eq_refl). by repeat split.
Qed.
Lemma federation_valid (c : RuntimeConfigV1) :
  rt_mode c <> FederatedPrivate -> (validate_federation c = [] <-> fd_enabled (rt_federation c) = false).
Proof.
  intros Hm. unfold validate_federation. rewrite app_nil, !finding_if_none, !bool_decide_eq_false_2 by done. simpl. naive_solver.
Qed.
Lemma reserved_valid (c : RuntimeConfigV1) :
  validate_reserved_restricted_features c = [] <-> mc_revocation_source (rt_membership c) = None /\ rt_mode c <> FederatedPrivate.
Proof.
  unfold validate_reserved_restricted_features. rewrite app_nil, !finding_if_none, bool_decide_eq_false.
  destruct (mc_revocation_source _); simpl; naive_solver.
Qed.
Lemma external_access_offline (c : RuntimeConfigV1) :
  has_external_access c = false /\ dc_local_discovery_enabled (rt_directory c) = false
  <-> offline c /\ fd_enabled (rt_federation c) = false.
Proof.
  unfold has_external_access. rewrite !orb_false_iff, negb_false_iff. split.
  - intros H. destruct_and!. split; [|done]. constructor; try done.
    + destruct (dc_source _); naive_solver.
    + by destruct (dc_url _).
    + destruct (rt_network c). simpl in *. congruence.
  - intros [[Hs -> -> -> -> -> ->] ->]. split; [|done]. repeat split. by destruct Hs as [-> | ->].
Qed.
Lemma local_only_valid (c : RuntimeConfigV1) :
  fd_enabled (rt_federation c) = false ->
  (validate_local_only c = [] <-> (rt_mode c = LocalOnly -> offline c)).
Proof.
  intros Hf. unfold validate_local_only. rewrite app_nil, !finding_if_none.
  destruct (decide (rt_mode c = LocalOnly)) as [e|n].
  - rewrite !bool_decide_eq_true_2 by done. rewrite !andb_true_l, external_access_offline. naive_solver.
  - rewrite !bool_decide_eq_false_2 by done. naive_solver.
Qed.
Lemma locator_valid (c : RuntimeConfigV1) :
  match dc_source (rt_directory c) with SPublic | SRemote => true | _ => false end
    && negb (dc_local_discovery_enabled (rt_directory c)) && none_or_empty (dc_url (rt_directory c)) = false
  <-> (dc_source (rt_directory c) = SPublic \/ dc_source (rt_directory c) = SRemote ->
       dc_local_discovery_enabled (rt_directory c) = true \/ filled (dc_url (rt_directory c))).
Proof.
  rewrite <- none_or_empty_filled.
  destruct (dc_source _), (dc_local_discovery_enabled _), (none_or_empty _); simpl; naive_solver.
Qed.

Lemma validate_exact (c : RuntimeConfigV1) : validate_config c = [] <-> well_formed c.
Proof.
  unfold validate_config.
  rewrite !app_nil, !finding_if_none, negb_false_iff, Z.eqb_eq, locator_valid, restricted_mode_valid, reserved_valid, references_valid.
  assert (forall a b : bool, a && b = false <-> (a = true -> b = false)) as Himp by (intros [] []; naive_solver).
  rewrite Himp, none_or_empty_filled. rewrite Himp, andb_true_iff, negb_false_iff.
  split.
  - intros (? & ? & Hr & Hf & (? & Hm) & Hl & ? & Hc & ?). rewrite federation_valid in Hf by done. rewrite local_only_valid in Hl by done.
    constructor; try done; [|auto]. destruct (rt_mode c) eqn:Em; auto.
  - intros [? ? Hmode ? ? ? ? ?].
    assert (rt_mode c <> FederatedPrivate) as Hm by (intros e; by rewrite e in Hmode).
    rewrite federation_valid, local_only_valid by done. split_and!; try done.
    + by destruct (rt_mode c).
    + by intros e; rewrite e in Hmode.
    + naive_solver.
    + naive_solver.
    + naive_solver.
Qed.
(** C35: validation reports nothing exactly for the well-formed configurations: a
    restricted domain is named and closed, a local-only node has nothing
    outside the machine, federated operation is refused, and every secret is
    a reference that can be resolved. *)
Theorem runtime_config_wellformed (c : RuntimeConfigV1) : validate_config c = [] <-> well_formed c.
Proof. apply validate_exact. Qed.

(** The presets of the open modes are well formed; a private one lacks the
    domain and the authority that only the operator can name. *)
Lemma presets_valid (mode : OperatingMode) :
  cf_code <$> validate_config (preset mode)
  = match mode with
    | Public | LocalOnly | Custom => []
    | Private => ["trust_domain_required"; "directory_authority_required"]
    | FederatedPrivate => ["trust_domain_required"; "directory_authority_required"; "trusted_federation_domain_required";
                           "federated_private_not_supported"]
    end.
Proof. by destruct mode. Qed.

(** ** The effective configuration *)

(** A mode of the environment stands even against one of the command line. *)
Definition effective_mode (presets : OperatingMode) (file : option RuntimeConfigV1) (environment cli : ConfigOverrides) : OperatingMode :=
  default presets (option_or (ov_mode environment) (option_or (ov_mode cli) (rt_mode <$> file))).
(** The file's settings count where its mode is the effective one and where the
    environment and the command line do not both name a mode. *)
Definition base_config (presets : OperatingMode) (file : option RuntimeConfigV1) (environment cli : ConfigOverrides) : RuntimeConfigV1 :=
  let m := effective_mode presets file environment cli in
  match file with
  | Some c => if bool_decide (rt_mode c = m) && negb (is_some (ov_mode environment) && is_some (ov_mode cli)) then c else preset m
  | None => preset m
  end.

Lemma preset_mode (m : OperatingMode) : rt_mode (preset m) = m.
Proof. done. Qed.
Lemma apply_without_mode (o : ConfigOverrides) (c : RuntimeConfigV1) (r := apply_overrides (take_mode o) c) :
  rt_schema_version r = rt_schema_version c /\ rt_mode r = rt_mode c
  /\ rt_directory r
     = mkDirectoryConfig
         (if is_some (ov_directory_url o) && bool_decide (dc_source (rt_directory c) = SPublic) then SRemote else dc_source (rt_directory c))
         (option_or (ov_directory_url o) (dc_url (rt_directory c)))
         (option_or (ov_directory_authority o) (dc_authority_id (rt_directory c)))
         (default (dc_local_discovery_enabled (rt_directory c)) (ov_local_directory_discovery o))
  /\ rt_trust_domain_id r = option_or (ov_trust_domain_id o) (rt_trust_domain_id c)
  /\ rt_membership r = rt_membership c /\ rt_mesh r = rt_mesh c /\ rt_execution r = rt_execution c /\ rt_cip r = rt_cip c
  /\ rt_federation r
     = mkFederationConfig (fd_enabled (rt_federation c)) (default (fd_trusted_domains (rt_federation c)) (ov_trusted_domains o))
  /\ rt_network r
     = mkNetworkPolicy (default (np_allow_public_fallback (rt_network c)) (ov_allow_public_fallback o))
         (np_allow_external_bootstrap (rt_network c)) (np_allow_external_relay (rt_network c))
         (np_allow_auto_update_network (rt_network c))
  /\ rt_secret_refs r = rt_secret_refs c.
Proof.
  subst r. destruct c as [? ? [[] ? ? ?] ? ? ? ? ? [] [] ?], o as [? [] [] [] [] [] []]; by repeat split.
Qed.
Lemma resolve_layers (presets : OperatingMode) (file : option RuntimeConfigV1) (environment cli : ConfigOverrides) :
  resolve presets file environment cli
  = apply_overrides (take_mode cli) (apply_overrides (take_mode environment) (base_config presets file environment cli)).
Proof.
  unfold resolve, base_config, effective_mode.
  assert (forall o c, ov_mode o = None -> apply_overrides o c = apply_overrides (take_mode o) c) as Hn
    by (intros [[] ? ? ? ? ? ?] c ?; done).
  assert (forall o m c, ov_mode o = Some m -> apply_overrides o c = apply_overrides (take_mode o) (preset m)) as Hs
    by (intros [[] ? ? ? ? ? ?] m c [= ->]; done).
  destruct (ov_mode cli) as [m|] eqn:Ec, (ov_mode environment) as [n|] eqn:Ee; cbn [option_or default from_option is_some id].
  - rewrite (Hs environment n) by done. destruct file; [|done]. by rewrite andb_false_r.
  - rewrite (Hn environment) by done. destruct file as [c|]; [|done]. cbn [andb negb]. rewrite andb_true_r. by case_decide; case_bool_decide.
  - destruct file as [c|]; [|done]. cbn [andb negb]. rewrite andb_true_r. by case_decide; case_bool_decide.
  - destruct file as [c|]; [|done]. simpl. by case_decide; case_bool_decide.
Qed.


(** With a mode in both places the command line's is lost, and with it the
    file's settings, whatever their mode. *)
Lemma environment_mode_wins (presets m n : OperatingMode) (file : option RuntimeConfigV1) (environment cli : ConfigOverrides) :
  ov_mode environment = Some m -> ov_mode cli = Some n ->
  rt_mode (resolve presets file environment cli) = m
  /\ base_config presets file environment cli = preset m.
Proof.
  intros He Hc. rewrite resolve_layers. unfold base_config, effective_mode. rewrite He, Hc. simpl.
  pose proof (apply_without_mode environment (preset m)) as E.
  pose proof (apply_without_mode cli (apply_overrides (take_mode environment) (preset m))) as C.
  assert ((match file with Some c => if bool_decide (rt_mode c = m) && false then c else preset m | None => preset m end) = preset m) as ->
    by (destruct file; by rewrite ?andb_false_r).
  split; [|done]. destruct C as (_ & -> & _). by destruct E as (_ & -> & _).
Qed.

(** ** The wizard's command line reproduces its configuration *)





(** A local-only configuration with the public directory's URL is refused, and the
    command line printed for it gives another configuration, which is accepted. *)
Lemma local_url_forgotten (commit : string -> RuntimeConfigV1 -> option string) :
  exists report other,
    run_config_wizard commit ["--mode"; "local_only"; "--directory-url"; PUBLIC_DIRECTORY_URL] [] = Ok (mkWizardRun (Some report) 2)
    /\ drop 3 (wr_reproduce_argv report) = ["--mode"; "local_only"]
    /\ run_config_wizard commit ["--mode"; "local_only"] [] = Ok (mkWizardRun (Some other) 0)
    /\ wr_config report <> wr_config other.
Proof. eexists _, _. split; [reflexivity|]. split; [reflexivity|]. split; [reflexivity|]. intros H. apply (f_equal (fun c => dc_url (rt_directory c))) in H. done. Qed.

