(* ===== verification/Secrets.v ===== *)
(** * The secret store

    [src/secret_store.rs], as built for Linux: resolving, storing and deleting
    the secret a reference names.  The functions are programs over file-system
    calls, the [secret-tool] command and an application's own provider; a disk
    that moves with the calls is the ghost state of the proofs, and an executable
    file system runs them. *)

From S2P Require Import Prelude Program Text Chars ClientTypes.

Definition SECRET_UNAVAILABLE : string := "secret_reference_unavailable".
Definition SECRET_PROVIDER_UNSUPPORTED : string := "secret_provider_unsupported".
Definition SECRET_FILE_UNSAFE : string := "secret_file_unsafe".
Definition SECRET_MUTATION_UNSUPPORTED : string := "secret_mutation_unsupported".

(** ** Paths

    [std::path::Path] by its components: empty and inner [.] components do not
    count, [..] does. *)

Record FilePath := mkPath { fp_absolute : bool; fp_comps : list string }.
Global Instance file_path_eq_dec : EqDecision FilePath.
Proof. solve_decision. Defined.
Global Instance file_path_countable : Countable FilePath :=
  inj_countable' (fun p => (fp_absolute p, fp_comps p)) (fun q => mkPath q.1 q.2) (fun p => match p with mkPath _ _ => eq_refl end).

Definition path_new (s : string) : FilePath :=
  let raw := str_split "/" s in
  let absolute := starts_with s "/" in
  let comps := filter (fun c => negb (str_is_empty c || (c ==? ".")) = true) raw in
  mkPath absolute (if negb absolute && bool_decide (head raw = Some ".") then "." :: comps else comps).
Definition parent (p : FilePath) : option FilePath :=
  match fp_comps p with
  | [] => None
  | l => Some (mkPath (fp_absolute p) (removelast l))
  end.
Definition file_name (p : FilePath) : option string :=
  let! c := last (fp_comps p) in if str_in c ["."; ".."] then None else Some c.
Definition path_join (p : FilePath) (c : string) : FilePath := mkPath (fp_absolute p) (fp_comps p ++ [c]).

(** ** What the store asks of the system *)

Inductive FileKind := RegularFile | Directory | SymbolicLink | OtherFile.
Global Instance file_kind_eq_dec : EqDecision FileKind.
Proof. solve_decision. Defined.
Record Metadata := mkMeta { md_kind : FileKind; md_uid : Z; md_mode : Z }.

(** [CreateNew] opens with mode 0600; [SetOwnerOnly] sets that mode; a failed
    [SymlinkMetadata] says whether there is nothing at the path.  A command gives
    its success and its output. *)
Inductive secret_action :=
| GetEnv (name : string)
| SymlinkMetadata (p : FilePath)
| ReadToString (p : FilePath)
| NewUuid
| CreateNew (p : FilePath)
| WriteAll (p : FilePath) (value : string)
| SyncAll (p : FilePath)
| Rename (source target : FilePath)
| SetOwnerOnly (p : FilePath)
| SyncDirectory (p : FilePath)
| RemoveFile (p : FilePath)
| SecretTool (args : list string) (input : option string)
| ExternalResolve (provider reference : string)
| ExternalStore (provider reference value : string)
| ExternalDelete (provider reference : string).
Definition secret_answer (a : secret_action) : Type :=
  match a with
  | GetEnv _ | ReadToString _ => option string
  | SymlinkMetadata _ => result Metadata bool
  | NewUuid => string
  | SecretTool _ _ => option (bool * string)
  | ExternalResolve _ _ => result string string
  | ExternalStore _ _ _ | ExternalDelete _ _ => result unit string
  | _ => bool
  end.
Notation sprog := (prog secret_answer).
(** Nothing more on failure. *)
Definition try_ok {A R E} (p : sprog (result A E)) (k : A -> sprog (result R E)) : sprog (result R E) :=
  run! r := p in match r with Ok v => k v | Err e => Ret (Err e) end.
Definition must (a : secret_action) (check : secret_answer a -> bool) (e : string) : sprog (result unit string) :=
  Act a (fun r => Ret (if check r then Ok tt else Err e)).
Notation "'sec!' x := p 'in' k" := (try_ok p (fun x => k))
  (at level 200, x pattern, p at level 100, k at level 200) : iicp_scope.

(** ** The value *)

Definition line_ends : list string := [str_of_codes [13]; str_of_codes [10]].
Definition secret_value (value : string) : result string string :=
  let value :=
    if ends_with value (str_of_codes [10])
    then String.rev (strip_while (String.length value) line_ends (String.rev value)) else value in
  if str_is_empty value then Err SECRET_UNAVAILABLE else Ok value.

Section store.
Context (geteuid : Z) (external : bool).

(** Owned by the process, with nothing for others. *)
Definition owner_only (m : Metadata) : bool := (md_uid m =? geteuid) && (Z.land (md_mode m) 63 =? 0).
Definition safe_file (m : Metadata) : bool := bool_decide (md_kind m = RegularFile) && owner_only m.
Definition safe_directory (m : Metadata) : bool :=
  bool_decide (md_kind m = Directory) && (md_uid m =? geteuid) && (Z.land (md_mode m) 18 =? 0).

Definition read_protected_file (path : FilePath) : sprog (result string string) :=
  Act (SymlinkMetadata path) (fun r =>
    match r with
    | Err _ => Ret (Err SECRET_UNAVAILABLE)
    | Ok m =>
        if negb (safe_file m) then Ret (Err SECRET_FILE_UNSAFE)
        else Act (ReadToString path) (fun v => Ret (ok_or v SECRET_UNAVAILABLE))
    end).

Definition write_steps (directory temporary path : FilePath) (value : string) : sprog (result unit string) :=
  sec! _ := must (CreateNew temporary) id SECRET_FILE_UNSAFE in
  sec! _ := must (WriteAll temporary value) id SECRET_UNAVAILABLE in
  sec! _ := must (SyncAll temporary) id SECRET_UNAVAILABLE in
  sec! _ := must (Rename temporary path) id SECRET_UNAVAILABLE in
  sec! _ := must (SetOwnerOnly path) id SECRET_FILE_UNSAFE in
  must (SyncDirectory directory) id SECRET_UNAVAILABLE.
Definition temp_name (name uuid : string) : string := "." +:+ name +:+ "." +:+ uuid +:+ ".tmp".
Definition write_protected_file (path : FilePath) (value : string) : sprog (result unit string) :=
  match parent path with
  | None => Ret (Err SECRET_FILE_UNSAFE)
  | Some directory =>
      Act (SymlinkMetadata directory) (fun r =>
        if negb (match r with Ok m => safe_directory m | Err _ => false end) then Ret (Err SECRET_FILE_UNSAFE)
        else
          Act (SymlinkMetadata path) (fun r =>
            if negb (match r with Ok m => safe_file m | Err _ => true end) then Ret (Err SECRET_FILE_UNSAFE)
            else
              match file_name path with
              | None => Ret (Err SECRET_FILE_UNSAFE)
              | Some name =>
                  Act NewUuid (fun uuid =>
                    let temporary := path_join directory (temp_name name uuid) in
                    run! result := write_steps directory temporary path value in
                    match result with
                    | Ok _ => Ret result
                    | Err _ => Act (RemoveFile temporary) (fun _ => Ret result)
                    end)
              end))
  end.

Definition delete_protected_file (path : FilePath) : sprog (result unit string) :=
  Act (SymlinkMetadata path) (fun r =>
    match r with
    | Err not_found => Ret (if not_found then Ok tt else Err SECRET_UNAVAILABLE)
    | Ok m => if negb (safe_file m) then Ret (Err SECRET_FILE_UNSAFE) else must (RemoveFile path) id SECRET_UNAVAILABLE
    end).

(** The command succeeded. *)
Definition command_ok (r : option (bool * string)) : bool := match r with Some (ok, _) => ok | None => false end.
Definition resolve_linux_secret_service (collection label : string) : sprog (result string string) :=
  Act (SecretTool ["lookup"; "collection"; collection; "label"; label] None) (fun r =>
    Ret match r with
        | Some (true, out) => if utf8 out then Ok out else Err SECRET_UNAVAILABLE
        | _ => Err SECRET_UNAVAILABLE
        end).
Definition store_linux_secret_service (collection label value : string) : sprog (result unit string) :=
  must (SecretTool ["store"; "--label"; label; "collection"; collection; "label"; label] (Some (value +:+ str_of_codes [10])))
    command_ok SECRET_UNAVAILABLE.
Definition delete_linux_secret_service (collection label : string) : sprog (result unit string) :=
  must (SecretTool ["clear"; "collection"; collection; "label"; label] None) command_ok SECRET_UNAVAILABLE.

Definition resolve (reference : SecretRef) : sprog (result string string) :=
  sec! value :=
    match reference with
    | EnvironmentSecret name => Act (GetEnv name) (fun v => Ret (ok_or v SECRET_UNAVAILABLE))
    | FileSecret path => read_protected_file (path_new path)
    | LinuxSecretService collection label => resolve_linux_secret_service collection label
    | ExternalSecret provider reference =>
        if negb external then Ret (Err SECRET_PROVIDER_UNSUPPORTED) else Act (ExternalResolve provider reference) Ret
    | MacosKeychain _ _ | WindowsCredential _ => Ret (Err SECRET_PROVIDER_UNSUPPORTED)
    end in
  Ret (secret_value value).
Definition store (reference : SecretRef) (value : string) : sprog (result unit string) :=
  if str_is_empty value then Ret (Err SECRET_UNAVAILABLE)
  else
    match reference with
    | FileSecret path => write_protected_file (path_new path) value
    | LinuxSecretService collection label => store_linux_secret_service collection label value
    | MacosKeychain _ _ | WindowsCredential _ => Ret (Err SECRET_PROVIDER_UNSUPPORTED)
    | ExternalSecret provider reference =>
        if negb external then Ret (Err SECRET_PROVIDER_UNSUPPORTED) else Act (ExternalStore provider reference value) Ret
    | EnvironmentSecret _ => Ret (Err SECRET_MUTATION_UNSUPPORTED)
    end.
Definition delete (reference : SecretRef) : sprog (result unit string) :=
  match reference with
  | FileSecret path => delete_protected_file (path_new path)
  | LinuxSecretService collection label => delete_linux_secret_service collection label
  | MacosKeychain _ _ | WindowsCredential _ => Ret (Err SECRET_PROVIDER_UNSUPPORTED)
  | ExternalSecret provider reference =>
      if negb external then Ret (Err SECRET_PROVIDER_UNSUPPORTED) else Act (ExternalDelete provider reference) Ret
  | EnvironmentSecret _ => Ret (Err SECRET_MUTATION_UNSUPPORTED)
  end.
Lemma safe_file_own mode : Z.land mode 63 = 0 -> safe_file (mkMeta RegularFile geteuid mode) = true.
Proof. intros H. unfold safe_file, owner_only. simpl. by rewrite Z.eqb_refl, H. Qed.
Lemma safe_file_inv m : safe_file m = true -> md_kind m = RegularFile /\ md_uid m = geteuid.
Proof.
  unfold safe_file, owner_only. rewrite !andb_true_iff, bool_decide_eq_true, Z.eqb_eq. naive_solver.
Qed.
End store.

(** ** The disk *)

Record entry := mkEntry { en_meta : Metadata; en_data : string }.
Notation disk := (gmap FilePath entry).

Section disk.
(** [unreadable] are the paths whose metadata the system may refuse. *)
Context (geteuid : Z) (external : bool) (unreadable : FilePath -> Prop).
Notation safe_file := (safe_file geteuid).
Notation safe_directory := (safe_directory geteuid).

(** What a call may do to the disk and answer: it may fail for reasons of its
    own and then changes nothing, but a failed write may leave a part.  A new
    UUID is in no file name. *)
Definition disk_step (d : disk) (a : secret_action) : secret_answer a -> disk -> Prop :=
  match a with
  | SymlinkMetadata p => fun r d' => d' = d /\
      match r with
      | Ok m => en_meta <$> d !! p = Some m
      | Err not_found => if (not_found : bool) then d !! p = None else unreadable p
      end
  | ReadToString p => fun r d' => d' = d /\
      forall v e, r = Some v -> d !! p = Some e -> md_kind (en_meta e) = RegularFile -> v = en_data e /\ utf8 v = true
  | CreateNew p => fun r d' =>
      if r then d !! p = None /\ exists mode, Z.land mode 63 = 0 /\ d' = <[p := mkEntry (mkMeta RegularFile geteuid mode) EmptyString]> d
      else d' = d
  | WriteAll p v => fun r d' => exists e w, d !! p = Some e /\ starts_with v w = true /\ (r = true -> w = v) /\
      d' = <[p := mkEntry (en_meta e) (en_data e +:+ w)]> d
  | Rename a b => fun r d' => if r then exists e, d !! a = Some e /\ d' = <[b := e]> (base.delete a d) else d' = d
  | SetOwnerOnly p => fun r d' =>
      if r then exists e, d !! p = Some e /\ d' = <[p := mkEntry (mkMeta (md_kind (en_meta e)) (md_uid (en_meta e)) 384) (en_data e)]> d
      else d' = d
  | NewUuid => fun uuid d' => d' = d /\ forall p name, is_Some (d !! p) -> last (fp_comps p) = Some name -> str_contains name uuid = false
  | RemoveFile p => fun r d' => if r then d' = base.delete p d else d' = d
  | _ => fun _ d' => d' = d
  end.

Notation always := (always disk_step).
Lemma always_try {A R E} during (mid : disk -> result A E -> Prop) (fin : disk -> result R E -> Prop) d (p : sprog (result A E)) k :
  always during mid d p ->
  (forall d v, mid d (Ok v) -> always during fin d (k v)) -> (forall d e, mid d (Err e) -> fin d (Err e)) ->
  always during fin d (try_ok p k).
Proof. intros Hp Hk He. eapply always_bind; [exact Hp|]. intros d' [v|e] H; simpl; auto. Qed.

(** ** Storing to a file *)

(** A file that holds the secret, for the owner alone. *)
Definition holds (value : string) (e : entry) : Prop := safe_file (en_meta e) = true /\ en_data e = value.
(** What may be seen while [value] is stored at [path]: there is at [path] what
    there was or all of [value]; a temporary file may have appeared in the same
    directory, for the owner alone; nothing else has changed. *)
Record storing (path : FilePath) (value : string) (d d' : disk) : Prop := {
  st_path : d' !! path = d !! path \/ exists e, d' !! path = Some e /\ holds value e;
  st_rest : forall p, p <> path -> d' !! p = d !! p \/
    (d !! p = None /\ parent p = parent path /\ exists e, d' !! p = Some e /\ safe_file (en_meta e) = true)
}.
(** Where a secret may be stored. *)
Definition safe_place (path : FilePath) (d : disk) : Prop :=
  (exists directory e, parent path = Some directory /\ d !! directory = Some e /\ safe_directory (en_meta e) = true)
  /\ is_Some (file_name path)
  /\ forall e, d !! path = Some e -> safe_file (en_meta e) = true \/ unreadable path.
Definition stored (path : FilePath) (value : string) (d d' : disk) (r : result unit string) : Prop :=
  match r with
  | Ok _ => safe_place path d /\ d' = <[path := mkEntry (mkMeta RegularFile geteuid 384) value]> d
  | Err e => (e = SECRET_UNAVAILABLE \/ e = SECRET_FILE_UNSAFE) /\ storing path value d d'
             /\ (~ safe_place path d -> d' = d)
  end.

Lemma storing_refl path value d : storing path value d d.
Proof. constructor; auto. Qed.


Lemma removelast_snoc {A} (l : list A) x : removelast (l ++ [x]) = l.
Proof. induction l as [|y l IH]; [done|]. simpl. rewrite IH. by destruct l. Qed.
Lemma parent_join p c : parent (path_join p c) = Some p.
Proof.
  unfold parent, path_join. cbn [fp_comps fp_absolute].
  destruct (fp_comps p ++ [c]) eqn:E; [by destruct (fp_comps p)|]. rewrite <- E, removelast_snoc. by destruct p.
Qed.
Lemma temp_name_longer name uuid : temp_name name uuid <> name.
Proof.
  intros E. apply (f_equal str_len) in E. unfold temp_name in E. rewrite !str_len_app in E.
  pose proof (str_len_nonneg uuid). unfold str_len in E at 1 3 5. simpl in E. lia.
Qed.
Lemma temporary_apart path directory name uuid :
  parent path = Some directory -> file_name path = Some name ->
  path_join directory (temp_name name uuid) <> path.
Proof.
  unfold parent, file_name, path_join. intros Hp Hn E. rewrite <- E in Hn. cbn [fp_comps] in Hn. rewrite last_snoc in Hn. cbn [mbind option_bind] in Hn.
  destruct (str_in (temp_name name uuid) ["."; ".."]); [done|]. injection Hn as Hn. by apply temp_name_longer in Hn.
Qed.
Lemma temp_name_contains name uuid : str_contains (temp_name name uuid) uuid = true.
Proof.
  apply str_contains_spec. exists ("." +:+ name +:+ "."), ".tmp". unfold temp_name. by rewrite !append_assoc.
Qed.
Lemma temporary_fresh (d : disk) directory name uuid :
  (forall p c, is_Some (d !! p) -> last (fp_comps p) = Some c -> str_contains c uuid = false) ->
  d !! path_join directory (temp_name name uuid) = None.
Proof.
  intros H. destruct (d !! _) as [e|] eqn:E; [|done].
  pose proof (H _ (temp_name name uuid) (mk_is_Some _ _ E)) as Hc. cbn [fp_comps path_join] in Hc. rewrite last_snoc, temp_name_contains in Hc. by specialize (Hc eq_refl).
Qed.

Section write.
Context (path temporary directory : FilePath) (value : string) (d : disk).
Hypothesis Hparent : parent path = Some directory.
Hypothesis Htemp : parent temporary = Some directory.
Hypothesis Hapart : temporary <> path.
Hypothesis Hfresh : d !! temporary = None.

(** The temporary file has been made, and nothing else. *)
Definition with_temporary (d' : disk) : Prop :=
  exists e, safe_file (en_meta e) = true /\ d' = <[temporary := e]> d.
Lemma storing_temporary d' : with_temporary d' -> storing path value d d'.
Proof.
  intros (e & He & ->). constructor; [left; by rewrite lookup_insert_ne|]. intros p Hp.
  destruct (decide (p = temporary)) as [->|]; [|left; by rewrite lookup_insert_ne].
  right. split_and!; [done | congruence |]. exists e. by rewrite lookup_insert_eq.
Qed.
Lemma storing_written e : holds value e -> storing path value d (<[path := e]> d).
Proof.
  intros He. constructor; [right; exists e; by rewrite lookup_insert_eq|]. intros p Hp. left. by rewrite lookup_insert_ne.
Qed.
Lemma storing_removed d' : storing path value d d' -> storing path value d (base.delete temporary d').
Proof.
  intros [Hp Hr]. constructor; [by rewrite lookup_delete_ne|]. intros p Hne.
  destruct (decide (p = temporary)) as [->|]; [left; by rewrite lookup_delete_eq, Hfresh|]. rewrite lookup_delete_ne by done. auto.
Qed.
Definition write_end (d' : disk) (r : result unit string) : Prop :=
  match r with
  | Ok _ => d' = <[path := mkEntry (mkMeta RegularFile geteuid 384) value]> d
  | Err e => (e = SECRET_UNAVAILABLE \/ e = SECRET_FILE_UNSAFE) /\ storing path value d d'
  end.
Lemma write_end_err d' e :
  e = SECRET_UNAVAILABLE \/ e = SECRET_FILE_UNSAFE -> storing path value d d' -> write_end d' (Err e).
Proof. done. Qed.
#[local] Hint Resolve write_end_err storing_temporary storing_written storing_refl : iicp.

(** A step that may fail, and its success. *)
Lemma always_must a check e (good : disk -> Prop) d0 :
  (forall r d', disk_step d0 a r d' -> storing path value d d' /\ (check r = true -> good d')) ->
  e = SECRET_UNAVAILABLE \/ e = SECRET_FILE_UNSAFE ->
  always (storing path value d) (fun d' r => match r with Ok _ => good d' | Err _ => write_end d' r end) d0 (must a check e).
Proof. intros H He r d' Hs. destruct (H r d' Hs) as [Hst Hg]. split; [done|]. simpl. destruct (check r); [auto | by split]. Qed.

Lemma write_steps_end : always (storing path value d) write_end d (write_steps directory temporary path value).
Proof.
  unfold write_steps.
  eapply always_try; [apply (always_must _ _ _ (fun d' => exists e, en_data e = EmptyString /\ safe_file (en_meta e) = true /\ d' = <[temporary := e]> d)); [|by right]| |auto].
  { intros [|] d' Hs; simpl in Hs; [|subst; split; [apply storing_refl | done]].
    destruct Hs as (_ & mode & Hm & ->). pose proof (safe_file_own geteuid mode Hm) as Hsafe.
    split; [apply storing_temporary; eexists; split; [|reflexivity]; done | intros _; eexists; split_and!; [| |reflexivity]; done]. }
  intros d1 [] (e1 & Hd1 & He1 & ->).
  eapply always_try; [apply (always_must _ _ _ (fun d' => exists e, holds value e /\ d' = <[temporary := e]> d)); [|by left]| |auto].
  { intros r d' (e & w & He & _ & Hw & ->). rewrite lookup_insert_eq in He. injection He as <-. rewrite insert_insert_eq.
    split; [apply storing_temporary; eexists; split; [|reflexivity]; done|]. intros Hr. specialize (Hw Hr) as ->.
    eexists. split; [|reflexivity]. split; [done|]. by rewrite Hd1. }
  intros d2 [] (e2 & He2 & ->).
  eapply always_try; [apply (always_must _ _ _ (fun d' => d' = <[temporary := e2]> d)); [|by left]| |auto].
  { intros r d' ->. split; [apply storing_temporary; exists e2; by destruct He2 | done]. }
  intros d3 [] ->.
  eapply always_try; [apply (always_must _ _ _ (fun d' => d' = <[path := e2]> d)); [|by left]| |auto].
  { intros [|] d' Hs; simpl in Hs; [|subst; split; [apply storing_temporary; exists e2; by destruct He2 | done]].
    destruct Hs as (e & He & ->). rewrite lookup_insert_eq in He. injection He as <-.
    rewrite delete_insert_id by done. split; [by apply storing_written | done]. }
  intros d4 [] ->.
  eapply always_try; [apply (always_must _ _ _ (fun d' => d' = <[path := mkEntry (mkMeta RegularFile geteuid 384) value]> d)); [|by right]| |auto].
  { intros [|] d' Hs; simpl in Hs; [|subst; split; [by apply storing_written | done]].
    destruct Hs as (e & He & ->). rewrite lookup_insert_eq in He. injection He as <-. rewrite insert_insert_eq.
    destruct He2 as [Hs2 ->]. apply safe_file_inv in Hs2 as [Hk Hu]. rewrite Hk, Hu.
    assert (holds value (mkEntry (mkMeta RegularFile geteuid 384) value)) by (split; [by apply safe_file_own | done]).
    split; [by apply storing_written | done]. }
  intros d5 [] ->. eapply always_mono; [done| |apply (always_must _ _ _ (fun d' => d' = <[path := mkEntry (mkMeta RegularFile geteuid 384) value]> d)); [|by left]].
  { by intros d' [[]|]. }
  intros r d' ->. split; [|done]. apply storing_written. split; [by apply safe_file_own | done].
Qed.
End write.

Lemma refused_untouched path value d : stored path value d d (Err SECRET_FILE_UNSAFE).
Proof. split_and!; [by right | apply storing_refl | done]. Qed.

(** C38: storing a secret in a file is atomic and private: whatever call fails, at
    every moment the path holds what it held before or all of the new secret,
    for the owner alone, and nothing else has changed but for a temporary file of
    the owner's in the same directory; success leaves exactly the new secret,
    under mode 0600, and no temporary file; and where the directory can be written
    by others, or the target is a link, a foreign or a shared file, nothing is
    touched and the store refuses. *)
Theorem secret_file_atomic (path : FilePath) (value : string) (d : disk) :
  always (storing path value d) (stored path value d) d (write_protected_file geteuid path value).
Proof.
  unfold write_protected_file. destruct (parent path) as [directory|] eqn:Ep; [|apply refused_untouched].
  intros r d' [-> Hr]. split; [apply storing_refl|]. destruct r as [m|]; [|apply refused_untouched].
  destruct (safe_directory m) eqn:Es; cbn [negb]; [|apply refused_untouched].
  intros r d' [-> Hr']. split; [apply storing_refl|].
  destruct (match r with Ok m => safe_file m | Err _ => true end) eqn:Et; cbn [negb]; [|apply refused_untouched].
  destruct (file_name path) as [name|] eqn:En; [|apply refused_untouched].
  intros uuid d' [-> Hu]. split; [apply storing_refl|]. set (temporary := path_join directory (temp_name name uuid)).
  assert (safe_place path d) as Hsafe.
  { destruct (d !! directory) as [e|] eqn:Ed; simpl in Hr; [|done]. injection Hr as <-. split_and!; [by exists directory, e | done|].
    intros e' He'. rewrite He' in Hr'. destruct r as [m'|[]]; simpl in Hr'; [injection Hr' as <-; by left | done | by right]. }
  pose proof (temporary_fresh d directory name uuid Hu) as Hfresh.
  pose proof (temporary_apart path directory name uuid Ep En : temporary <> path) as Hapart.
  eapply always_bind; [apply (write_steps_end path temporary directory value d Ep (parent_join _ _) Hapart Hfresh)|].
  intros d' [[]|e] H; [by split|]. destruct H as [He Hst]. intros [|] d'' Hd; simpl in Hd; subst d''.
  - pose proof (storing_removed path temporary value d Hapart Hfresh d' Hst) as Hst'. split; [done|]. by split_and!.
  - split; [done|]. by split_and!.
Qed.

(** ** Reading and deleting *)

(** A secret is read only from a file of the owner's alone. *)
Lemma secret_read_guarded (path : FilePath) (d : disk) :
  always (fun d' => d' = d)
    (fun d' r => d' = d /\ forall v, r = Ok v -> exists e, d !! path = Some e /\ holds v e /\ utf8 v = true)
    d (read_protected_file geteuid path).
Proof.
  intros r d' [-> Hr]. split; [done|]. destruct r as [m|]; [|done]. destruct (safe_file m) eqn:Es; cbn [negb]; [|done].
  intros v d' [-> Hv]. split; [done|]. split; [done|]. intros w Hw. destruct v as [v|]; [|done]. simpl in Hw. injection Hw as <-.
  destruct (d !! path) as [e|] eqn:Ee; [|done]. simpl in Hr. injection Hr as <-. exists e. split; [done|].
  destruct (Hv v e eq_refl eq_refl) as [-> Hu]; [by apply safe_file_inv in Es as [? _]|]. by split.
Qed.
(** Deleting removes the secret file or, where it is not one, nothing. *)
Lemma secret_deleted (path : FilePath) (d : disk) :
  always (fun d' => d' = d \/ d' = base.delete path d)
    (fun d' r => match r with
                 | Ok _ => d' = base.delete path d /\ forall e, d !! path = Some e -> safe_file (en_meta e) = true
                 | Err _ => d' = d
                 end)
    d (delete_protected_file geteuid path).
Proof.
  intros r d' [-> Hr]. split; [by left|]. destruct r as [m|[]]; [| |done].
  - destruct (safe_file m) eqn:Es; cbn [negb]; [|done]. intros [|] d' Hd; simpl in Hd; subst d'; [|by split; [left|]].
    split; [by right|]. split; [done|]. intros e He. rewrite He in Hr. simpl in Hr. by injection Hr as ->.
  - simpl. split; [by rewrite delete_id | congruence].
Qed.
End disk.

(** ** A file system that runs *)

Section os.
Context (geteuid : Z) (uuid : disk -> string).

Definition os (d : disk) (a : secret_action) : secret_answer a * disk :=
  match a with
  | SymlinkMetadata p => (match d !! p with Some e => Ok (en_meta e) | None => Err true end, d)
  | ReadToString p => (let! e := d !! p in if utf8 (en_data e) then Some (en_data e) else None, d)
  | NewUuid => (uuid d, d)
  | CreateNew p =>
      match d !! p with
      | Some _ => (false, d)
      | None => (true, <[p := mkEntry (mkMeta RegularFile geteuid 384) EmptyString]> d)
      end
  | WriteAll p v =>
      match d !! p with
      | Some e => (true, <[p := mkEntry (en_meta e) (en_data e +:+ v)]> d)
      | None => (false, d)
      end
  | Rename a b =>
      match d !! a with
      | Some e => (true, <[b := e]> (base.delete a d))
      | None => (false, d)
      end
  | SetOwnerOnly p =>
      match d !! p with
      | Some e => (true, <[p := mkEntry (mkMeta (md_kind (en_meta e)) (md_uid (en_meta e)) 384) (en_data e)]> d)
      | None => (false, d)
      end
  | RemoveFile p => (is_some (d !! p), base.delete p d)
  | SyncAll _ | SyncDirectory _ => (true, d)
  | GetEnv _ => (None, d)
  | SecretTool _ _ => (None, d)
  | ExternalResolve _ _ => (Err SECRET_PROVIDER_UNSUPPORTED, d)
  | ExternalStore _ _ _ => (Err SECRET_PROVIDER_UNSUPPORTED, d)
  | ExternalDelete _ _ => (Err SECRET_PROVIDER_UNSUPPORTED, d)
  end.
Fixpoint run_os {R} (d : disk) (p : sprog R) : disk * R :=
  match p with
  | Ret r => (d, r)
  | Act a k => let '(r, d') := os d a in run_os d' (k r)
  end.
Hypothesis uuid_fresh : forall d p name, is_Some (d !! p) -> last (fp_comps p) = Some name -> str_contains name (uuid d) = false.

Lemma run_bind {R R'} (d : disk) (p : sprog R) (f : R -> sprog R') :
  run_os d (prog_bind p f) = run_os (run_os d p).1 (f (run_os d p).2).
Proof. revert d. induction p as [r|a k IH]; intros d; [done|]. cbn [prog_bind run_os]. by destruct (os d a). Qed.

Lemma run_write (d : disk) (path : FilePath) (value : string) :
  safe_place geteuid (fun _ => False) path d ->
  run_os d (write_protected_file geteuid path value) = (<[path := mkEntry (mkMeta RegularFile geteuid 384) value]> d, Ok tt).
Proof.
  intros [(directory & D & Hp & HD & Hs) [[name Hn] Hf]].
  unfold write_protected_file. rewrite Hp. cbn [run_os os]. rewrite HD. cbn. rewrite Hs. cbn [negb run_os os].
  assert (match (match d !! path with Some e => Ok (en_meta e) | None => Err true end) with
          | Ok m => safe_file geteuid m | Err _ => true end = true) as ->.
  { destruct (d !! path) as [e|] eqn:E; [|done]. by destruct (Hf e eq_refl). }
  cbn [negb]. rewrite Hn. cbn [run_os os]. set (t := path_join directory _).
  pose proof (temporary_fresh d directory name (uuid d) (uuid_fresh d)) as Ht. fold t in Ht.
  rewrite Ht. cbn [id prog_bind run_os os]. rewrite lookup_insert_eq. cbn [id prog_bind run_os os]. rewrite insert_insert_eq.
  cbn [en_meta en_data]. rewrite lookup_insert_eq. cbn [id prog_bind run_os os].
  rewrite delete_insert_id by done. rewrite lookup_insert_eq. cbn [id prog_bind run_os os en_meta en_data md_kind md_uid].
  by rewrite insert_insert_eq.
Qed.

(** A stored secret can be resolved, as [secret_value] reads it, until it is
    deleted, which leaves the disk as it was. *)
Theorem secret_roundtrip (d : disk) (path value : string)
    (Hplace : safe_place geteuid (fun _ => False) (path_new path) d)
    (Hvalue : value <> empty_str) (Hutf8 : utf8 value = true)
    (s := run_os d (store geteuid false (FileSecret path) value)) :
  s.2 = Ok tt
  /\ run_os s.1 (resolve geteuid false (FileSecret path)) = (s.1, secret_value value)
  /\ (ends_with value (str_of_codes [10]) = false -> secret_value value = Ok value)
  /\ run_os s.1 (delete geteuid false (FileSecret path)) = (base.delete (path_new path) d, Ok tt).
Proof.
  subst s. unfold store. assert (str_is_empty value = false) as Hne by (by apply String.eqb_neq).
  rewrite Hne, run_write by done. cbn [fst snd]. set (e := mkEntry _ value).
  assert (safe_file geteuid (en_meta e) = true) as Hs by (by apply safe_file_own).
  split_and!; [done| | |].
  - unfold resolve, try_ok, read_protected_file. cbn [run_os os prog_bind]. rewrite lookup_insert_eq. cbn [en_meta] in *. rewrite Hs.
    cbn [negb run_os os prog_bind]. rewrite lookup_insert_eq. cbn [mbind option_bind]. change (en_data e) with value. by rewrite Hutf8.
  - intros H. unfold secret_value. by rewrite H, Hne.
  - unfold delete, delete_protected_file. cbn [run_os os]. rewrite lookup_insert_eq. cbn [en_meta] in *. rewrite Hs.
    unfold must. cbn [negb run_os os]. by rewrite lookup_insert_eq, delete_insert_eq.
Qed.
End os.

Definition home : FilePath := path_new "/home/node/.iicp".
Definition small_disk : disk := {[ home := mkEntry (mkMeta Directory 1000 448) EmptyString ]}.
(** Longer than every file name. *)
Definition long_uuid (d : disk) : string :=
  str_join "-" ("0" :: (map_to_list d ≫= fun kv => default empty_str (last (fp_comps kv.1)) :: ["0"])).
Lemma str_contains_len s t : str_contains s t = true -> str_len t <= str_len s.
Proof.
  intros (a & b & ->)%str_contains_spec. rewrite !str_len_app.
  pose proof (str_len_nonneg a). pose proof (str_len_nonneg b). lia.
Qed.
Lemma str_join_len sep l s : s ∈ l -> str_len s <= str_len (str_join sep l).
Proof.
  induction l as [|x l IH]; [by intros ?%elem_of_nil|]. intros [->|H]%elem_of_cons.
  - destruct l as [|y l]; [done|]. change (str_join sep (x :: y :: l)) with (x +:+ sep +:+ str_join sep (y :: l)). rewrite !str_len_app.
    pose proof (str_len_nonneg sep). pose proof (str_len_nonneg (str_join sep (y :: l))). lia.
  - specialize (IH H). destruct l as [|y l]; [by apply elem_of_nil in H|].
    change (str_join sep (x :: y :: l)) with (x +:+ sep +:+ str_join sep (y :: l)). rewrite !str_len_app.
    pose proof (str_len_nonneg sep). pose proof (str_len_nonneg x). lia.
Qed.
Lemma long_uuid_fresh d p name : is_Some (d !! p) -> last (fp_comps p) = Some name -> str_contains name (long_uuid d) = false.
Proof.
  intros [e He] Hl. destruct (str_contains name (long_uuid d)) eqn:E; [|done]. apply str_contains_len in E.
  unfold long_uuid in E. set (l := map_to_list d ≫= _) in E.
  assert (name ∈ l) as Hn.
  { apply list_elem_of_bind. exists (p, e). cbn [fst]. rewrite Hl. split; [by left | by apply elem_of_map_to_list]. }
  destruct l as [|x l]; [by apply elem_of_nil in Hn|].
  pose proof (str_join_len "-" (x :: l) name Hn) as H. change (str_join "-" ("0" :: x :: l)) with ("0" +:+ "-" +:+ str_join "-" (x :: l)) in E.
  set (joined := str_join "-" (x :: l)) in *. rewrite !str_len_app in E. change (str_len "0") with 1 in E. change (str_len "-") with 1 in E. lia.
Qed.
Lemma secret_roundtrip_witness :
  run_os 1000 long_uuid (run_os 1000 long_uuid small_disk (store 1000 false (FileSecret "/home/node/.iicp/token") "s3cret")).1
    (resolve 1000 false (FileSecret "/home/node/.iicp/token"))
  = ((run_os 1000 long_uuid small_disk (store 1000 false (FileSecret "/home/node/.iicp/token") "s3cret")).1, Ok "s3cret").
Proof.
  destruct (secret_roundtrip 1000 long_uuid long_uuid_fresh small_disk "/home/node/.iicp/token" "s3cret") as (_ & H & E & _).
  - split_and!.
    + exists home, (mkEntry (mkMeta Directory 1000 448) EmptyString). split_and!; vm_compute; reflexivity.
    + eexists. vm_compute. reflexivity.
    + intros e He. vm_compute in He. discriminate He.
  - done.
  - done.
  - rewrite H. by rewrite E.
Defined.
