(* ===== verification/SecretMigration.v ===== *)
(** * Moving a node's credentials to the secret store

    [src/bin/iicp_node.rs], [run_node_secret_migration] and the functions around
    it: the plain credentials of a saved node are stored under the configured
    references, read back, and only then removed from the record; whatever fails,
    the writes are undone.  The secret store is [Secrets.v]; what the proofs need
    of it is a vault, a map from references to secrets, whose operations may fail
    a bounded number of times. *)

From S2P Require Import Prelude Program Text Json ClientTypes Secrets NodeRuntime.

(** ** What the migration does to the world *)

Inductive migration_action :=
| Resolve (reference : SecretRef)
| Store (reference : SecretRef) (value : string)
| Delete (reference : SecretRef)
| Commit (node : NodeIdentity).
Definition migration_answer (a : migration_action) : Type :=
  match a with
  | Resolve _ => result string string
  | _ => result unit string
  end.
Notation mprog := (prog migration_answer).

Record SecretRollback := mkRollback { rb_reference : SecretRef; rb_previous : option string }.

Definition missing_ref (name : string) : string := "missing required secret_refs." +:+ name.
(** The record after the credential [name] has gone to [reference]. *)
Definition move_credential (node : NodeIdentity) (name : string) (reference : SecretRef) : option NodeIdentity :=
  set_plain name None
    (mkIdentity (id_node_token node) (id_node_hmac_key node) (<[name := reference]> (id_secret_refs node)) (id_rest node)).
Definition store_verified (node : NodeIdentity) (name value : string) (reference : SecretRef) : mprog (result NodeIdentity string) :=
  Act (Store reference value) (fun stored =>
    match stored with
    | Err _ => Ret (Err ("secret write failed for " +:+ name))
    | Ok _ =>
        Act (Resolve reference) (fun verified =>
          Ret match verified with
              | Err _ => Err ("secret write verification failed for " +:+ name)
              | Ok v =>
                  if v <>? value then Err ("secret write verification failed for " +:+ name)
                  else ok_or (move_credential node name reference) "unsupported saved credential class"
              end)
    end).
(** Gives the rollback entries, this one's among them once a write may happen,
    and the changed record or the error. *)
Definition apply_secret_migration_entry (node : NodeIdentity) (name value : string) (configured_refs : gmap string SecretRef)
    (applied : list SecretRollback) : mprog (list SecretRollback * result NodeIdentity string) :=
  match configured_refs !! name with
  | None => Ret (applied, Err (missing_ref name))
  | Some reference =>
      Act (Resolve reference) (fun previous =>
        match (match previous with
               | Ok v => Ok (Some v)
               | Err e => if e ==? SECRET_UNAVAILABLE then Ok None
                          else Err ("secret provider unavailable for " +:+ name +:+ ": " +:+ e)
               end) with
        | Err e => Ret (applied, Err e)
        | Ok previous =>
            run! r := store_verified node name value reference in
            Ret (applied ++ [mkRollback reference previous], r)
        end)
  end.
(** Newest first; failures are ignored. *)
Fixpoint rollback_in_order (entries : list SecretRollback) : mprog unit :=
  match entries with
  | [] => Ret tt
  | e :: entries =>
      Act (match rb_previous e with Some previous => Store (rb_reference e) previous | None => Delete (rb_reference e) end
           : migration_action)
        (fun _ => rollback_in_order entries)
  end.
Definition rollback_secret_writes (applied : list SecretRollback) : mprog unit := rollback_in_order (rev applied).
(** The writes are undone and the record is the original one. *)
Definition abandon (original : NodeIdentity) (applied : list SecretRollback) (e : string) : mprog (NodeIdentity * result unit string) :=
  run! _ := rollback_secret_writes applied in Ret (original, Err e).
Fixpoint apply_entries (node : NodeIdentity) (values : list (string * option string)) (configured_refs : gmap string SecretRef)
    (applied : list SecretRollback) : mprog (list SecretRollback * result NodeIdentity string) :=
  match values with
  | [] => Ret (applied, Ok node)
  | (name, value) :: values =>
      match nonempty_str value with
      | None => apply_entries node values configured_refs applied
      | Some value =>
          run! p := apply_secret_migration_entry node name value configured_refs applied in
          match p.2 with
          | Err e => Ret (p.1, Err e)
          | Ok node => apply_entries node values configured_refs p.1
          end
      end
  end.
Definition migrate_node_secret_values (node : NodeIdentity) (configured_refs : gmap string SecretRef)
    : mprog (NodeIdentity * result unit string) :=
  let values := [("node_token", id_node_token node); ("node_hmac_key", id_node_hmac_key node)] in
  run! p := apply_entries node values configured_refs [] in
  let '(applied, outcome) := p in
  match outcome with
  | Err e => abandon node applied e
  | Ok moved =>
      if is_some (id_node_token moved) || is_some (id_node_hmac_key moved)
      then abandon node applied "legacy secret migration remained incomplete"
      else
        Act (Commit moved) (fun r =>
          match r with
          | Err e => abandon node applied e
          | Ok _ => Ret (moved, Ok tt)
          end)
  end.

(** ** The command *)

Record migration_args := mkMigrationArgs { ma_node : option string; ma_file : option string }.
Inductive migration_error := MissingValue (option : string) | UnknownMigrationOption (option : string) | Usage.
(** Options come in pairs; a last option without a value is an error, known or not. *)
Fixpoint parse_migration_args (args : list string) (r : migration_args) : result migration_args migration_error :=
  match args with
  | [] => Ok r
  | [option] => Err (MissingValue option)
  | option :: value :: args =>
      if option ==? "--node" then parse_migration_args args (mkMigrationArgs (Some value) (ma_file r))
      else if option ==? "--file" then parse_migration_args args (mkMigrationArgs (ma_node r) (Some value))
      else Err (UnknownMigrationOption option)
  end.
Definition migration_names (args : list string) : result (string * string) migration_error :=
  let? r := parse_migration_args args (mkMigrationArgs None None) in
  match ma_node r, ma_file r with
  | Some node, Some file => Ok (node, file)
  | _, _ => Err Usage
  end.

(** ** Credentials of a record *)

Definition identity_credential (node : NodeIdentity) (name : string) (legacy : option string) : mprog (result (option string) string) :=
  match id_secret_refs node !! name with
  | Some reference =>
      Act (Resolve reference) (fun r =>
        Ret match r with
            | Ok v => Ok (Some v)
            | Err e => Err ("saved credential reference " +:+ name +:+ " unavailable: " +:+ e)
            end)
  | None => Ret (Ok (nonempty_str legacy))
  end.
Definition identity_has_credential (node : NodeIdentity) (name : string) (legacy : option string) : bool :=
  is_some (id_secret_refs node !! name) || is_some_and legacy (fun v => negb (str_is_empty v)).
(** Credentials a registration issued; the record may be left half changed. *)
Definition persist_registered (node : NodeIdentity) (name : string) (value : option string) : mprog (NodeIdentity * result unit string) :=
  match nonempty_str value with
  | None => Ret (node, Ok tt)
  | Some value =>
      match id_secret_refs node !! name with
      | Some reference =>
          Act (Store reference value) (fun stored =>
            match stored with
            | Err _ => Ret (node, Err ("protected credential persistence failed for " +:+ name))
            | Ok _ =>
                Act (Resolve reference) (fun verified =>
                  Ret match verified with
                      | Err _ => (node, Err ("protected credential verification failed for " +:+ name))
                      | Ok v => if v <>? value then (node, Err ("protected credential verification failed for " +:+ name))
                                else (default node (set_plain name None node), Ok tt)
                      end)
            end)
      | None => Ret (default node (set_plain name (Some value) node), Ok tt)
      end
  end.
Definition persist_registered_identity_credentials (node : NodeIdentity) (token : string) (hmac_key : option string)
    : mprog (NodeIdentity * result unit string) :=
  run! p := persist_registered node "node_token" (Some token) in
  match p.2 with
  | Err e => Ret (p.1, Err e)
  | Ok _ => persist_registered p.1 "node_hmac_key" hmac_key
  end.

(** ** The vault *)

Global Instance secret_ref_countable : Countable SecretRef :=
  inj_countable'
    (fun r => match r with
              | EnvironmentSecret a => (0, a, EmptyString)
              | FileSecret a => (1, a, EmptyString)
              | MacosKeychain a b => (2, a, b)
              | WindowsCredential a => (3, a, EmptyString)
              | LinuxSecretService a b => (4, a, b)
              | ExternalSecret a b => (5, a, b)
              end%Z)
    (fun t => match t with
              | (0, a, _) => EnvironmentSecret a
              | (1, a, _) => FileSecret a
              | (2, a, b) => MacosKeychain a b
              | (3, a, _) => WindowsCredential a
              | (4, a, b) => LinuxSecretService a b
              | (_, a, b) => ExternalSecret a b
              end%Z)
    (fun r => match r with
              | EnvironmentSecret _ | FileSecret _ | MacosKeychain _ _ | WindowsCredential _ | LinuxSecretService _ _
              | ExternalSecret _ _ => eq_refl
              end).
Notation vault := (gmap SecretRef string).

(** The vault as resolving shows it: a stored value is read back as
    [secret_value] reads it. *)
Definition put (reference : SecretRef) (value : string) (v : vault) : vault :=
  match secret_value value with Ok s => <[reference := s]> v | Err _ => base.delete reference v end.
(** What a vault holds reads back as itself. *)
Definition sound (v : vault) : Prop := forall reference s, v !! reference = Some s -> secret_value s = Ok s.

(** [wd_failed] are the calls that failed, [wd_saved] the records saved.  Two
    answers mislead: [wd_hidden] are the references whose secret was called
    unavailable although one is held (an unreadable file, one that is not UTF-8, a
    failed call of the secret tool), [wd_late] the records that [save_node] had put in
    place before it failed (in the permissions or the directory's flush). *)
Record world := mkWorld {
  wd_vault : vault; wd_failed : list migration_action; wd_saved : list NodeIdentity; wd_hidden : list SecretRef; wd_late : list NodeIdentity
}.
Definition holding (v : vault) (w : world) : world := mkWorld v (wd_failed w) (wd_saved w) (wd_hidden w) (wd_late w).
Definition failed (a : migration_action) (v : vault) (w : world) : world := mkWorld v (wd_failed w ++ [a]) (wd_saved w) (wd_hidden w) (wd_late w).
Definition hiding (reference : SecretRef) (w : world) : world :=
  mkWorld (wd_vault w) (wd_failed w) (wd_saved w) (wd_hidden w ++ [reference]) (wd_late w).
Definition saving (node : NodeIdentity) (w : world) : world :=
  mkWorld (wd_vault w) (wd_failed w) (wd_saved w ++ [node]) (wd_hidden w) (wd_late w).
Definition late (a : migration_action) (node : NodeIdentity) (w : world) : world :=
  mkWorld (wd_vault w) (wd_failed w ++ [a]) (wd_saved w ++ [node]) (wd_hidden w) (wd_late w ++ [node]).
(** A call that fails may have been carried out or not. *)
Definition migration_move (w : world) (a : migration_action) : migration_answer a -> world -> Prop :=
  match a with
  | Resolve reference => fun r w' =>
      match r with
      | Ok s => wd_vault w !! reference = Some s /\ w' = w
      | Err e =>
          if e ==? SECRET_UNAVAILABLE
          then match wd_vault w !! reference with None => w' = w | Some _ => w' = hiding reference w end
          else w' = failed a (wd_vault w) w
      end
  | Store reference value => fun r w' =>
      match r with
      | Ok _ => w' = holding (put reference value (wd_vault w)) w
      | Err _ => w' = failed a (wd_vault w) w \/ w' = failed a (put reference value (wd_vault w)) w
      end
  | Delete reference => fun r w' =>
      match r with
      | Ok _ => w' = holding (base.delete reference (wd_vault w)) w
      | Err _ => w' = failed a (wd_vault w) w \/ w' = failed a (base.delete reference (wd_vault w)) w
      end
  | Commit node => fun r w' =>
      match r with
      | Ok _ => w' = saving node w
      | Err _ => w' = failed a (wd_vault w) w \/ w' = late a node w
      end
  end.
Notation always := (always migration_move).

(** ** Undoing *)

Definition restore (e : SecretRollback) (v : vault) : vault :=
  match rb_previous e with Some previous => put (rb_reference e) previous v | None => base.delete (rb_reference e) v end.
Definition undo (entries : list SecretRollback) (v : vault) : vault := foldl (fun v e => restore e v) v entries.
(** An entry made of [v] brings it back, whatever was stored since at its reference. *)
Lemma restore_id reference (v : vault) : sound v -> restore (mkRollback reference (v !! reference)) v = v.
Proof.
  intros Hs. unfold restore. simpl. destruct (v !! reference) as [s|] eqn:E; [|by apply delete_id].
  unfold put. rewrite (Hs _ _ E). by apply insert_id.
Qed.
Lemma restore_put reference value (v : vault) : sound v -> restore (mkRollback reference (v !! reference)) (put reference value v) = v.
Proof.
  intros Hs. unfold restore, put. simpl. destruct (v !! reference) as [s|] eqn:E.
  - rewrite (Hs _ _ E). destruct (secret_value value); by rewrite ?insert_insert_eq, ?insert_delete_eq, insert_id.
  - destruct (secret_value value); by rewrite ?delete_insert_eq, ?delete_delete_eq, ?delete_id.
Qed.
Lemma undo_snoc applied e v : undo (rev (applied ++ [e])) v = undo (rev applied) (restore e v).
Proof. by rewrite rev_app_distr. Qed.

(** Undoing touches nothing but the vault. *)
Definition framed (w w' : world) : Prop := wd_saved w' = wd_saved w /\ wd_hidden w' = wd_hidden w /\ wd_late w' = wd_late w.
Lemma rollback_restores entries (w : world) :
  always (framed w)
    (fun w' _ => framed w w' /\ exists rest, wd_failed w' = wd_failed w ++ rest /\ (rest = [] -> wd_vault w' = undo entries (wd_vault w)))
    w (rollback_in_order entries).
Proof.
  revert w. induction entries as [|e entries IH]; intros w; simpl.
  { split; [done|]. exists []. by rewrite app_nil_r. }
  assert (forall w', framed w w' -> (wd_failed w' = wd_failed w /\ wd_vault w' = restore e (wd_vault w)
                     \/ exists a, wd_failed w' = wd_failed w ++ [a]) ->
          framed w w' /\
          always (framed w)
            (fun w' _ => framed w w' /\ exists rest, wd_failed w' = wd_failed w ++ rest /\
               (rest = [] -> wd_vault w' = undo entries (restore e (wd_vault w)))) w' (rollback_in_order entries)) as Hnext.
  { intros w' Hw Hf. split; [done|]. destruct Hw as (H1 & H2 & H3). unfold framed in *. rewrite <- H1, <- H2, <- H3.
    eapply always_mono; [| |apply IH]; [done|].
    intros w2 _ [Hw2 (rest & Hr & Hv)]. split; [done|]. destruct Hf as [[Hf Hv']|[a Hf]].
    - exists rest. rewrite Hr, Hf. split; [done|]. intros ->. by rewrite Hv, Hv'.
    - exists (a :: rest). rewrite Hr, Hf, <- app_assoc. by split. }
  destruct (rb_previous e) as [previous|] eqn:Ep; intros [|] w' Hm; simpl in Hm;
    try destruct Hm as [Hm|Hm]; subst w'; (apply Hnext; [done|]);
    first [left; unfold restore; by rewrite Ep | right; by eexists].
Qed.

(** ** Moving *)

Lemma strip_while_S fuel ps s :
  strip_while (S fuel) ps s = match first_strip ps s with Some r => strip_while fuel ps r | None => s end.
Proof. done. Qed.
Lemma first_strip_shorter ps s r :
  (forall p, p ∈ ps -> p <> EmptyString) -> first_strip ps s = Some r -> (String.length r < String.length s)%nat.
Proof.
  intros Hp. induction ps as [|p ps IH]; [done|]. simpl. destruct (strip_prefix p s) as [t|] eqn:E.
  - intros [= ->]. apply strip_prefix_spec in E as ->. assert (p <> EmptyString) as Hne by (apply Hp; by left).
    pose proof (str_len_app p r) as H. unfold str_len in H. destruct p; [done|]. simpl in *. lia.
  - apply IH. intros q Hq. apply Hp. by right.
Qed.
Lemma strip_while_done ps fuel s :
  (forall p, p ∈ ps -> p <> EmptyString) -> (String.length s <= fuel)%nat -> first_strip ps (strip_while fuel ps s) = None.
Proof.
  intros Hp. revert s. induction fuel as [|fuel IH]; intros s Hl.
  - destruct s; [|simpl in Hl; lia]. simpl. destruct (first_strip ps _) eqn:E; [|done]. apply first_strip_shorter in E; [simpl in E; lia | done].
  - rewrite strip_while_S. destruct (first_strip ps s) as [r|] eqn:E; [|done]. apply IH. apply first_strip_shorter in E; [lia | done].
Qed.
Lemma length_rev s : String.length (String.rev s) = String.length s.
Proof.
  enough (forall t, String.length (String.rev_app s t) = (String.length s + String.length t)%nat) as H.
  { unfold String.rev. rewrite H. simpl. lia. }
  induction s as [|c s IH]; intros t; [done|]. simpl. rewrite IH. simpl. lia.
Qed.
(** Reading a secret back once more changes nothing. *)
Lemma secret_value_idem value s : secret_value value = Ok s -> secret_value s = Ok s.
Proof.
  unfold secret_value at 1. destruct (ends_with value _) eqn:E; intros H.
  - destruct (str_is_empty _) eqn:Ee; [done|]. injection H as <-.
    set (t := strip_while _ _ _) in *. unfold secret_value.
    assert (ends_with (String.rev t) (str_of_codes [10]) = false) as ->; [|by rewrite Ee].
    unfold ends_with, starts_with. rewrite str_rev_rev.
    assert (first_strip line_ends t = None) as Hn.
    { apply strip_while_done; [|by rewrite length_rev]. unfold line_ends. intros p. rewrite !elem_of_cons, elem_of_nil. intros [->|[->|[]]]; discriminate. }
    change (first_strip line_ends t) with
      (match strip_prefix (str_of_codes [13]) t with Some r => Some r
       | None => match strip_prefix (str_of_codes [10]) t with Some r => Some r | None => None end end) in Hn.
    change (String.rev (str_of_codes [10])) with (str_of_codes [10]).
    destruct (strip_prefix (str_of_codes [13]) t); [done|]. by destruct (strip_prefix (str_of_codes [10]) t).
  - destruct (str_is_empty value) eqn:Ee; [done|]. injection H as <-. unfold secret_value. by rewrite E, Ee.
Qed.
Lemma sound_put reference value v : sound v -> sound (put reference value v).
Proof.
  intros Hs r s. unfold put. destruct (secret_value value) as [t|] eqn:E.
  - rewrite lookup_insert_Some. intros [[<- <-]|[_ H]]; [by eapply secret_value_idem | eauto].
  - rewrite lookup_delete_Some. intros [_ H]. eauto.
Qed.

(** The vault and the entries while the credentials move: nothing has failed, and
    undoing the entries would bring back [v0], unless a secret was hidden. *)
Record moving (v0 : vault) (applied : list SecretRollback) (w : world) : Prop := {
  mv_sound : sound (wd_vault w);
  mv_failed : wd_failed w = [];
  mv_saved : wd_saved w = [];
  mv_undo : wd_hidden w = [] -> undo (rev applied) (wd_vault w) = v0
}.
(** It stopped, at a failed call or for a reason of its own. *)
Record stopped (v0 : vault) (applied : list SecretRollback) (w : world) : Prop := {
  sp_failed : (length (wd_failed w) <= 1)%nat;
  sp_saved : wd_late w = [] -> wd_saved w = [];
  sp_undo : wd_hidden w = [] -> undo (rev applied) (wd_vault w) = v0
}.
Lemma moving_stopped v0 applied w : moving v0 applied w -> stopped v0 applied w.
Proof. intros [_ Hf Hs Hu]. constructor; [rewrite Hf; simpl; lia | done | done]. Qed.
Lemma moving_failed v0 applied w a : moving v0 applied w -> stopped v0 applied (failed a (wd_vault w) w).
Proof. intros [_ Hf Hs Hu]. constructor; [unfold failed; simpl; rewrite Hf; simpl; lia | done | done]. Qed.
Lemma moving_late v0 applied w a node : moving v0 applied w -> stopped v0 applied (late a node w).
Proof.
  intros [_ Hf Hs Hu]. constructor; [unfold late; simpl; rewrite Hf; simpl; lia | | done].
  unfold late. simpl. by destruct (wd_late w).
Qed.
Lemma moving_hidden v0 applied applied' w reference : moving v0 applied w -> moving v0 applied' (hiding reference w).
Proof. intros [Hs Hf Hsv Hu]. constructor; [done..|]. unfold hiding. simpl. by destruct (wd_hidden w). Qed.
#[local] Hint Resolve moving_stopped moving_failed : iicp.

Section migration.
Context (configured_refs : gmap string SecretRef) (v0 : vault).

Definition unsaved (w : world) : Prop := wd_saved w = [].
(** [w'] has the credential at its reference. *)
Definition moved (node : NodeIdentity) (name value : string) (node' : NodeIdentity) (w w' : world) : Prop :=
  exists reference, configured_refs !! name = Some reference /\ move_credential node name reference = Some node' /\
    wd_vault w' = <[reference := value]> (wd_vault w).

Lemma store_verified_moves (w : world) (node : NodeIdentity) (name value : string) (reference : SecretRef) (applied : list SecretRollback)
    (previous : option string) (applied' := applied ++ [mkRollback reference previous]) :
  moving v0 applied w -> (wd_hidden w = [] -> previous = wd_vault w !! reference) -> configured_refs !! name = Some reference ->
  always unsaved
    (fun w' r => match r with Ok node' => moving v0 applied' w' /\ moved node name value node' w w' | Err _ => stopped v0 applied' w' end)
    w (store_verified node name value reference).
Proof.
  intros [Hs Hf Hsv Hu] Hp Hr.
  assert (moving v0 applied' w) as Hold.
  { constructor; [done..|]. intros Hh. subst applied'. rewrite undo_snoc, (Hp Hh), restore_id by done. auto. }
  set (w1 := holding (put reference value (wd_vault w)) w).
  assert (moving v0 applied' w1) as Hnew.
  { constructor; [by apply sound_put | done | done|]. intros Hh. subst applied'. rewrite undo_snoc, (Hp Hh). simpl. rewrite restore_put by done. auto. }
  intros [u|e] w2 H2.
  - simpl in H2. subst w2. fold w1. split; [done|]. intros [v|e] w3 H3.
    + destruct H3 as [Hv ->]. split; [done|]. cbn [Program.always].
      destruct (String.eqb_spec v value) as [->|]; cbn [negb]; [|by apply moving_stopped].
      destruct (move_credential node name reference) as [node'|] eqn:Em; [|by apply moving_stopped].
      split; [done|]. exists reference. split_and!; [done | done |].
      simpl in Hv. unfold put in *. simpl. destruct (secret_value value) as [t|]; [|by rewrite lookup_delete_eq in Hv].
      rewrite lookup_insert_eq in Hv. by injection Hv as ->.
    + cbn [migration_move] in H3. destruct (e ==? SECRET_UNAVAILABLE); [destruct (wd_vault w1 !! reference)|]; subst w3; (split; [done|]);
        [by eapply moving_stopped, moving_hidden | by apply moving_stopped | by apply (moving_failed v0 applied' w1)].
  - simpl in H2. destruct H2 as [-> | ->]; (split; [done|]); cbn [Program.always].
    + by apply moving_failed.
    + by apply (moving_failed v0 applied' w1).
Qed.
Lemma entry_moves (w : world) (node : NodeIdentity) (name value : string) (applied : list SecretRollback) :
  moving v0 applied w ->
  always unsaved
    (fun w' p => match p.2 with Ok node' => moving v0 p.1 w' /\ moved node name value node' w w' | Err _ => stopped v0 p.1 w' end)
    w (apply_secret_migration_entry node name value configured_refs applied).
Proof.
  intros Hw. unfold apply_secret_migration_entry.
  destruct (configured_refs !! name) as [reference|] eqn:Er; [|simpl; auto with iicp].
  pose proof (mv_saved _ _ _ Hw) as Hsv.
  assert (forall previous w1, moving v0 applied w1 -> wd_vault w1 = wd_vault w -> (wd_hidden w1 = [] -> previous = wd_vault w1 !! reference) ->
    unsaved w1 /\
    always unsaved
    (fun w' p => match p.2 with Ok node' => moving v0 p.1 w' /\ moved node name value node' w w' | Err _ => stopped v0 p.1 w' end) w1
    (run! r := store_verified node name value reference in Ret (applied ++ [mkRollback reference previous], r))) as Hnext.
  { intros previous w1 Hw1 Hv Hp. split; [apply Hw1|]. eapply always_bind; [by apply store_verified_moves|].
    intros w' [node'|]; [|done]. intros [Hm (r & A & B & C)]. split; [done|]. exists r. by rewrite <- Hv. }
  intros [s|e] w1 H1; cbn [migration_move] in H1.
  - destruct H1 as [Hv ->]. by apply Hnext.
  - destruct (e ==? SECRET_UNAVAILABLE); [destruct (wd_vault w !! reference) eqn:Ev|]; subst w1.
    + apply Hnext; [by eapply moving_hidden | done |]. unfold hiding. simpl. by destruct (wd_hidden w).
    + by apply Hnext.
    + split; [done|]. by apply moving_failed.
Qed.

(** The credentials of a record that are to be moved. *)
Definition to_move (values : list (string * option string)) : list (string * string) :=
  omap (fun nv => (fun v => (nv.1, v)) <$> nonempty_str nv.2) values.
(** All of them are moved, one after the other. *)
Inductive all_moved : NodeIdentity -> list (string * string) -> NodeIdentity -> world -> world -> Prop :=
| moved_none node w w' : wd_vault w' = wd_vault w -> all_moved node [] node w w'
| moved_next node name value node1 rest node' w w1 w' :
    moved node name value node1 w w1 -> all_moved node1 rest node' w1 w' ->
    all_moved node ((name, value) :: rest) node' w w'.
Lemma entries_move (values : list (string * option string)) (w : world) (node : NodeIdentity) (applied : list SecretRollback) :
  moving v0 applied w ->
  always unsaved
    (fun w' p => match p.2 with Ok node' => moving v0 p.1 w' /\ all_moved node (to_move values) node' w w' | Err _ => stopped v0 p.1 w' end)
    w (apply_entries node values configured_refs applied).
Proof.
  revert w node applied. induction values as [|[name value] values IH]; intros w node applied Hw; [by split; [|constructor]|].
  cbn [apply_entries]. destruct (nonempty_str value) as [v|] eqn:Ev.
  2: { assert (to_move ((name, value) :: values) = to_move values) as -> by (unfold to_move; simpl; by rewrite Ev). by apply IH. }
  assert (to_move ((name, value) :: values) = (name, v) :: to_move values) as -> by (unfold to_move; simpl; by rewrite Ev).
  eapply always_bind; [by apply entry_moves|]. intros w1 [applied1 [node1|e]]; simpl; [|done]. intros [Hw1 Hm].
  eapply always_mono; [done| |by apply IH]. intros w2 [applied2 [node2|e]]; simpl; [|done]. intros [Hw2 Ha]. split; [done|]. by econstructor.
Qed.
End migration.

(** ** The whole migration *)

Definition credentials (node : NodeIdentity) : list (string * string) :=
  to_move [("node_token", id_node_token node); ("node_hmac_key", id_node_hmac_key node)].
(** No two of them go to the same place. *)
Definition apart (configured_refs : gmap string SecretRef) (node : NodeIdentity) : Prop :=
  forall n1 n2 r, n1 ∈ (credentials node).*1 -> n2 ∈ (credentials node).*1 ->
    configured_refs !! n1 = Some r -> configured_refs !! n2 = Some r -> n1 = n2.
(** The record holds its credentials only as references, which the vault
    resolves; all else is as it was. *)
Record migrated (configured_refs : gmap string SecretRef) (node node' : NodeIdentity) (v v' : vault) : Prop := {
  mg_token : id_node_token node' = None;
  mg_hmac : id_node_hmac_key node' = None;
  mg_rest : id_rest node' = id_rest node;
  mg_moved : forall name value, (name, value) ∈ credentials node -> exists r,
    configured_refs !! name = Some r /\ id_secret_refs node' !! name = Some r /\
    (apart configured_refs node -> v' !! r = Some value);
  mg_other_refs : forall name, name ∉ (credentials node).*1 -> id_secret_refs node' !! name = id_secret_refs node !! name;
  mg_other_secrets : forall r, (forall name, name ∈ (credentials node).*1 -> configured_refs !! name <> Some r) -> v' !! r = v !! r
}.

Lemma credentials_names node : (credentials node).*1 `sublist_of` ["node_token"; "node_hmac_key"].
Proof.
  unfold credentials, to_move. simpl. destruct (nonempty_str (id_node_token node)), (nonempty_str (id_node_hmac_key node)); simpl;
    repeat constructor.
Qed.
Lemma move_credential_spec node name reference node' :
  move_credential node name reference = Some node' ->
  id_secret_refs node' = <[name := reference]> (id_secret_refs node) /\ id_rest node' = id_rest node.
Proof. unfold move_credential, set_plain. repeat case_match; intros [= <-]; done. Qed.
Lemma all_moved_spec configured_refs cs node node' w w' :
  NoDup cs.*1 -> all_moved configured_refs node cs node' w w' ->
  id_rest node' = id_rest node
  /\ (forall name value, (name, value) ∈ cs -> exists r, configured_refs !! name = Some r /\ id_secret_refs node' !! name = Some r /\
        ((forall n2, n2 ∈ cs.*1 -> configured_refs !! n2 = Some r -> name = n2) -> wd_vault w' !! r = Some value))
  /\ (forall name, name ∉ cs.*1 -> id_secret_refs node' !! name = id_secret_refs node !! name)
  /\ (forall r, (forall name, name ∈ cs.*1 -> configured_refs !! name <> Some r) -> wd_vault w' !! r = wd_vault w !! r).
Proof.
  intros Hnd H. induction H as [node w w' Hv|node name value node1 rest node' w w1 w' (reference & Hr & Hm & Hv) _ IH].
  { split_and!; [done | | done | by rewrite Hv]. by intros ? ? ?%elem_of_nil. }
  cbn [fmap list_fmap fst] in *. apply NoDup_cons in Hnd as [Hn Hnd]. apply move_credential_spec in Hm as [Hm1 Hm2].
  destruct (IH Hnd) as (I1 & I2 & I3 & I4). split_and!.
  - congruence.
  - intros n v [[= -> ->]|Hin]%elem_of_cons.
    + exists reference. rewrite I3, Hm1, lookup_insert_eq by done. split_and!; [done..|]. intros Hap.
      rewrite I4, Hv; [by rewrite lookup_insert_eq|]. intros n2 Hn2 Hr2. apply Hn. rewrite (Hap n2); [done | by right | done].
    + destruct (I2 n v Hin) as (r & A & B & C). exists r. split_and!; [done..|]. intros Hap. apply C. intros n2 Hn2. apply Hap. by right.
  - intros n [Hne Hn2]%not_elem_of_cons. by rewrite I3, Hm1, lookup_insert_ne.
  - intros r Hr2. rewrite I4 by (intros n Hn2; apply Hr2; by right). rewrite Hv, lookup_insert_ne; [done|].
    intros <-. apply (Hr2 name); [by left | done].
Qed.

(** Whatever happened: on success the record was saved, once, in its new form;
    otherwise the record in memory is the original one, at most one call failed
    before the undoing began, nothing was saved unless the saving itself failed late,
    and the vault is as it was where no call of the undoing failed and no secret was
    hidden. *)
Definition migration_end (configured_refs : gmap string SecretRef) (node : NodeIdentity) (v : vault) (w : world)
    (outcome : NodeIdentity * result unit string) : Prop :=
  match outcome.2 with
  | Ok _ => wd_saved w = [outcome.1] /\ wd_failed w = [] /\ migrated configured_refs node outcome.1 v (wd_vault w)
  | Err _ => outcome.1 = node /\ (wd_late w = [] -> wd_saved w = []) /\
      exists first undoing, wd_failed w = first ++ undoing /\ (length first <= 1)%nat
        /\ (undoing = [] -> wd_hidden w = [] -> wd_vault w = v)
  end.
(** What has been saved, by a call that did not fail late, is migrated. *)
Definition saved_migrated (configured_refs : gmap string SecretRef) (node : NodeIdentity) (v : vault) (w : world) : Prop :=
  wd_late w = [] -> forall n', n' ∈ wd_saved w -> migrated configured_refs node n' v (wd_vault w).
Lemma unsaved_migrated configured_refs node v w : (wd_late w = [] -> wd_saved w = []) -> saved_migrated configured_refs node v w.
Proof. intros H Hl n'. rewrite (H Hl). by intros ?%elem_of_nil. Qed.

Lemma abandon_end configured_refs node v applied e w :
  stopped v applied w ->
  always (saved_migrated configured_refs node v) (migration_end configured_refs node v) w (abandon node applied e).
Proof.
  intros [Hf Hs Hu]. unfold abandon. eapply always_bind.
  - eapply always_mono; [| |apply rollback_restores]; [|by intros ? ? H; exact H].
    cbn beta. intros w' (E1 & _ & E3). apply unsaved_migrated. by rewrite E1, E3.
  - cbn beta. intros w' _ ((E1 & E2 & E3) & rest & Hr & Hv). split; [done|]. split; [by rewrite E1, E3|].
    exists (wd_failed w), rest. split_and!; [done | done |]. intros E Hh. rewrite (Hv E). apply Hu. by rewrite <- E2.
Qed.

(** C39: moving a node's credentials to the secret store.  A migration that succeeds
    saved, once, a record without the credentials in which each is a reference; each
    reads back to its own value where no two of them share a reference ([apart]: with
    a shared one the first is lost, [shared_reference_loses_token]), and every other
    reference and secret is as it was; this holds of the saved record at every moment.
    A migration that fails gives back the original record; it saved nothing, unless
    [save_node] failed after it had put the record in place ([late_save_loses]); and it
    left the vault as it was, unless a call of the undoing failed, or the store called
    a secret unavailable that it held ([hidden_secret_lost]). *)
Theorem secret_migration_atomic (configured_refs : gmap string SecretRef) (node : NodeIdentity) (v : vault) (Hsound : sound v) :
  always (saved_migrated configured_refs node v)
    (migration_end configured_refs node v) (mkWorld v [] [] [] []) (migrate_node_secret_values node configured_refs).
Proof.
  unfold migrate_node_secret_values. set (w0 := mkWorld v [] [] [] []).
  assert (moving v [] w0) as H0 by by constructor.
  eapply always_bind.
  - eapply always_mono; [|intros w p H; exact H|by apply (entries_move configured_refs v)].
    cbn beta. intros w Hw. by apply unsaved_migrated.
  - intros w [applied [node1|e]]; cbn [fst snd]; [|by apply abandon_end]. intros [Hw Ha].
    destruct (is_some (id_node_token node1) || is_some (id_node_hmac_key node1)) eqn:Ep; [by apply abandon_end, moving_stopped|].
    apply orb_false_iff in Ep as [Ht Hh].
    assert (migrated configured_refs node node1 v (wd_vault w)) as Hm.
    { apply all_moved_spec in Ha as (A1 & A2 & A3 & A4).
      2: { eapply sublist_NoDup; [|exact (credentials_names node)]. repeat constructor; set_solver. }
      constructor; [by destruct (id_node_token node1) | by destruct (id_node_hmac_key node1) | done | | done | done].
      intros name value Hin. destruct (A2 name value Hin) as (r & B & C & D). exists r. split_and!; [done..|].
      intros Hap. apply D. intros n2 Hn2 Hr2. apply (Hap name n2 r); try done. apply list_elem_of_fmap. by exists (name, value). }
    intros [u|e] w' H'; cbn [migration_move] in H'.
    + subst w'. split; [|by destruct Hw as [? ? Hsv ?]; split_and!; [unfold saving; simpl; rewrite Hsv|..]].
      intros _. unfold saving. simpl. destruct Hw as [? ? -> ?]. by intros n' ->%list_elem_of_singleton.
    + assert (stopped v applied w') as Hst by (destruct H' as [-> | ->]; [by apply moving_failed | by apply moving_late]).
      split; [apply unsaved_migrated, Hst | by apply abandon_end].
Qed.

(** ** A vault that runs *)

Definition vault_run (a : migration_action) (w : world) : migration_answer a * world :=
  match a with
  | Resolve reference => (ok_or (wd_vault w !! reference) SECRET_UNAVAILABLE, w)
  | Store reference value => (Ok tt, holding (put reference value (wd_vault w)) w)
  | Delete reference => (Ok tt, holding (base.delete reference (wd_vault w)) w)
  | Commit node => (Ok tt, saving node w)
  end.
Fixpoint run_vault {R} (w : world) (p : mprog R) : world * R :=
  match p with
  | Ret r => (w, r)
  | Act a k => let '(r, w) := vault_run a w in run_vault w (k r)
  end.
(** The vault is one of those the theorem is about. *)
Lemma vault_run_moves a w : migration_move w a (vault_run a w).1 (vault_run a w).2.
Proof. destruct a as [reference| | |]; try done. simpl. by destruct (wd_vault w !! reference) eqn:E; simpl; rewrite ?E. Qed.
Lemma run_vault_ends {R} during (fin : world -> R -> Prop) (p : mprog R) : forall w, always during fin w p -> fin (run_vault w p).1 (run_vault w p).2.
Proof.
  induction p as [r|a k IH]; intros w Hw; [done|]. simpl. pose proof (vault_run_moves a w) as Hm.
  destruct (vault_run a w) as [r w']. apply IH. by apply (Hw r w').
Qed.

Definition node_with_secrets : NodeIdentity := mkIdentity (Some "token-1") (Some "hmac-1") ∅ JNull.
Definition two_refs : gmap string SecretRef :=
  <["node_token" := FileSecret "/home/node/.iicp/token"]> {[ "node_hmac_key" := LinuxSecretService "iicp" "hmac" ]}.
Definition one_ref : gmap string SecretRef :=
  <["node_token" := FileSecret "/home/node/.iicp/secret"]> {[ "node_hmac_key" := FileSecret "/home/node/.iicp/secret" ]}.
Definition migrated_world (refs : gmap string SecretRef) : world :=
  (run_vault (mkWorld ∅ [] [] [] []) (migrate_node_secret_values node_with_secrets refs)).1.
Lemma sound_empty : sound ∅.
Proof. intros r s. by rewrite lookup_empty. Qed.
Lemma secret_migration_atomic_witness :
  migration_end two_refs node_with_secrets ∅ (migrated_world two_refs)
       (run_vault (mkWorld ∅ [] [] [] []) (migrate_node_secret_values node_with_secrets two_refs)).2
  /\ wd_vault (migrated_world two_refs) !! FileSecret "/home/node/.iicp/token" = Some "token-1".
Proof.
  split; [|vm_compute; reflexivity].
  exact (run_vault_ends _ _ _ _ (secret_migration_atomic two_refs node_with_secrets ∅ sound_empty)).
Defined.

(** Two credentials configured with one reference: the migration succeeds and the
    token is gone, from the record and from the vault. *)
Lemma shared_reference_loses_token :
  (run_vault (mkWorld ∅ [] [] [] []) (migrate_node_secret_values node_with_secrets one_ref)).2.2 = Ok tt
  /\ (id_node_token <$> wd_saved (migrated_world one_ref)) = [None]
  /\ (map_to_list (wd_vault (migrated_world one_ref))).*2 = ["hmac-1"].
Proof. split_and!; vm_compute; reflexivity. Qed.
(** A store that calls the secret it holds unavailable, as a locked one does, loses
    it to the undoing of a failed write. *)
Definition locked (a : migration_action) : migration_answer a :=
  match a with
  | Resolve _ => Err SECRET_UNAVAILABLE
  | Store _ _ => Err SECRET_UNAVAILABLE
  | Delete _ => Ok tt
  | Commit _ => Ok tt
  end.
Definition actions_with (answer : forall a, migration_answer a) : list migration_action :=
  (fun x => match x with Did a _ => a end) <$> (run (fun _ => answer) 0 (migrate_node_secret_values node_with_secrets two_refs)).1.
Lemma hidden_secret_lost :
  actions_with locked
  = [Resolve (FileSecret "/home/node/.iicp/token"); Store (FileSecret "/home/node/.iicp/token") "token-1";
     Delete (FileSecret "/home/node/.iicp/token")].
Proof. vm_compute. reflexivity. Qed.
(** Where saving fails after the new record is in place, the credentials that it
    refers to are deleted, and the record that held them is gone from the disk. *)
Definition saved_late (a : migration_action) (w : world) : migration_answer a * world :=
  match a with
  | Commit node => (Err "credential migration commit failed", late a node w)
  | a => vault_run a w
  end.
Fixpoint run_late {R} (w : world) (p : mprog R) : world * R :=
  match p with
  | Ret r => (w, r)
  | Act a k => let '(r, w) := saved_late a w in run_late w (k r)
  end.
Lemma late_save_loses :
  let '(w, r) := run_late (mkWorld ∅ [] [] [] []) (migrate_node_secret_values node_with_secrets two_refs) in
  (id_node_token <$> wd_saved w) = [None] /\ map_to_list (wd_vault w) = [] /\ r.2 = Err "credential migration commit failed".
Proof. vm_compute. done. Qed.
