(* ===== verification/ServeOptions.v ===== *)
(** * The options of [iicp-node serve]

    [src/bin/iicp_node.rs], [parse_args] and what it calls: environment, command
    line, configuration file and saved node decide what a node does; a restricted
    mode binds it to its trust domain, local-only mode takes it off the network. *)

From S2P Require Import Prelude Text Chars Json ClientTypes Membership RuntimeConfig.

(** ** Options

    [ServeOpts], as a function from its fields; [OBackendUrl] is the source's
    [backend_url], and so on. *)

Inductive field :=
| ONode | OBackendUrl | OBackendType | OExperimental | OModel | OPublicEndpoint | ODirectoryUrl | ORegion | OIntent
| OMaxConcurrent | ONodeId | OPort | OHost | OSkipRegistration | OAutoDetectNat | OTunnel | ONoAutoDetectNat
| OExternalIpProbeUrl | ORelayWorkerEndpoint | ORelayCapable | ORelayAcceptPort | OLogDir | OForce | OBackendApiKey
| OWithProxy | OPolicyManifest | OReceiptProfiles | ORestrictedPeerBundle | ORestrictedDirectoryContext | OEnableMesh
| OOperatingMode | OLocalDirectoryDiscovery | ODirectoryExplicit | ODirectoryAuthority | OAllowPublicFallback.
Global Instance field_eq_dec : EqDecision field.
Proof. solve_decision. Defined.
Definition field_type (f : field) : Type :=
  match f with
  | OExperimental | OSkipRegistration | OAutoDetectNat | ONoAutoDetectNat | ORelayCapable | OForce | OWithProxy | OEnableMesh
  | OLocalDirectoryDiscovery | ODirectoryExplicit | OAllowPublicFallback => bool
  | OMaxConcurrent | OPort | ORelayAcceptPort => Z
  | OTunnel => option bool
  | OLogDir | ODirectoryAuthority => option string
  | OReceiptProfiles => option (list string)
  | ORestrictedPeerBundle => option RestrictedPeerBundle
  | ORestrictedDirectoryContext => option RestrictedDirectoryContext
  | OOperatingMode => OperatingMode
  | _ => string
  end.
Definition ServeOpts : Type := forall f, field_type f.
Definition set_opt (f : field) (v : field_type f) (o : ServeOpts) : ServeOpts :=
  fun g => match decide (f = g) with
           | left e => eq_rect f field_type v g e
           | right _ => o g
           end.
Lemma set_opt_eq f v o : set_opt f v o f = v.
Proof. unfold set_opt. destruct (decide (f = f)) as [e|]; [|done]. by rewrite (proof_irrel e eq_refl). Qed.
Lemma set_opt_ne f g v o : f <> g -> set_opt f v o g = o g.
Proof. intros H. unfold set_opt. by destruct (decide (f = g)). Qed.

(** ** The environment *)

Inductive ServeError :=
| Help
| NeedsValue (flag : string)
| NotANumber (flag : string)
| Cli (e : CliError)
| UnknownFlag (flag : string)
| UnsupportedProfile (value : string)
| ConfigUnreadable (message : string)
| Rejected (findings : list ConfigFinding)
| Restricted (message : string).
Definition cli {A} (r : result A CliError) : result A ServeError := map_err Cli r.

Definition SUPPORTED_PROFILE : string := "consumer_cosignature_v1".
Fixpoint add_profiles (values profiles : list string) : result (list string) ServeError :=
  match values with
  | [] => Ok profiles
  | value :: values =>
      if value <>? SUPPORTED_PROFILE then Err (UnsupportedProfile value)
      else add_profiles values (if str_in value profiles then profiles else profiles ++ [value])
  end.
Definition resolve_receipt_profiles (values : list string) : result (list string) ServeError :=
  add_profiles (values ≫= comma_list) [].
(** [Vec::dedup]: equal neighbours become one. *)
Fixpoint dedup (l : list string) : list string :=
  match l with
  | a :: (b :: _) as rest => if a ==? b then dedup rest else a :: dedup rest
  | _ => l
  end.

Section environment.
Context (env : string -> option string).
Definition env_or (name : string) (fallback : option string) : option string := option_or (env name) fallback.
Definition env_text (name fallback : string) : string := default fallback (env name).
Definition env_int (name : string) (fallback : Z) : Z := default fallback (env name ≫= parse_uint u64_max).
Definition env_bool (name : string) : bool := is_some_and (env name) (fun v => str_in (to_ascii_lowercase v) ["true"; "1"; "yes"]).

Definition default_opts (profiles : option (list string)) : ServeOpts := fun f =>
  match f with
  | ONode => env_text "IICP_NODE_NAME" empty_str
  | OBackendUrl => env_text "IICP_BACKEND_URL" empty_str
  | OBackendType => env_text "IICP_BACKEND_TYPE" "openai_compat"
  | OExperimental => env_bool "IICP_EXPERIMENTAL"
  | OModel => env_text "IICP_BACKEND_MODEL" empty_str
  | OPublicEndpoint => env_text "IICP_PUBLIC_ENDPOINT" empty_str
  | ODirectoryUrl => env_text "IICP_DIRECTORY_URL" "https://iicp.network/api"
  | ORegion => env_text "IICP_REGION" empty_str
  | OIntent => env_text "IICP_INTENT" "urn:iicp:intent:llm:chat:v1"
  | OMaxConcurrent => env_int "IICP_MAX_CONCURRENT" 4
  | ONodeId => env_text "IICP_NODE_ID" empty_str
  | OPort => env_int "IICP_PORT" 9484 mod 2 ^ 16
  | OHost => env_text "IICP_HOST" "::"
  | OSkipRegistration => env_bool "IICP_SKIP_REGISTRATION"
  | OTunnel =>
      match env "IICP_TUNNEL" with
      | Some v => if str_in v ["1"; "true"; "yes"] then Some true else if str_in v ["0"; "false"; "no"] then Some false else None
      | None => None
      end
  | OAutoDetectNat => negb (is_some_and (env "IICP_AUTO_DETECT_NAT") (fun v => str_in (to_ascii_lowercase v) ["false"; "0"]))
  | ONoAutoDetectNat => false
  | OExternalIpProbeUrl => env_text "IICP_EXTERNAL_IP_PROBE_URL" "https://api.ipify.org"
  | ORelayWorkerEndpoint => env_text "IICP_RELAY_WORKER_ENDPOINT" empty_str
  | ORelayCapable => env_bool "IICP_RELAY_CAPABLE"
  | ORelayAcceptPort => default 9485 (env "IICP_RELAY_ACCEPT_PORT" ≫= parse_uint u16_max)
  | OLogDir => env "IICP_LOG_DIR"
  | OForce => env_bool "IICP_FORCE"
  | OBackendApiKey => env_text "IICP_BACKEND_API_KEY" empty_str
  | OWithProxy => env_bool "IICP_WITH_PROXY"
  | OPolicyManifest => env_text "IICP_POLICY_MANIFEST_FILE" empty_str
  | OReceiptProfiles => profiles
  | ORestrictedPeerBundle => None
  | ORestrictedDirectoryContext => None
  | OEnableMesh => false
  | OOperatingMode => Public
  | OLocalDirectoryDiscovery => false
  | ODirectoryExplicit => is_some (env "IICP_DIRECTORY_URL")
  | ODirectoryAuthority => env "IICP_DIRECTORY_AUTHORITY"
  | OAllowPublicFallback => true
  end.

(** ** The command line *)

Record serve_parse := mkServeParse {
  sp_opts : ServeOpts;
  sp_cli : ConfigOverrides;
  sp_file : option string;
  sp_preset : OperatingMode
}.
Definition with_opt (f : field) (v : field_type f) (s : serve_parse) : serve_parse :=
  mkServeParse (set_opt f v (sp_opts s)) (sp_cli s) (sp_file s) (sp_preset s).
Definition with_cli (g : ConfigOverrides -> ConfigOverrides) (s : serve_parse) : serve_parse :=
  mkServeParse (sp_opts s) (g (sp_cli s)) (sp_file s) (sp_preset s).

(** Flags without a value. *)
Definition serve_switch (arg : string) : option (serve_parse -> serve_parse) :=
  if arg ==? "--skip-registration" then Some (with_opt OSkipRegistration true)
  else if arg ==? "--force" then Some (with_opt OForce true)
  else if arg ==? "--with-proxy" then Some (with_opt OWithProxy true)
  else if arg ==? "--experimental" then Some (with_opt OExperimental true)
  else if arg ==? "--relay-capable" then Some (with_opt ORelayCapable true)
  else if arg ==? "--tunnel" then Some (with_opt OTunnel (Some true))
  else if arg ==? "--no-tunnel" then Some (with_opt OTunnel (Some false))
  else if arg ==? "--auto-detect-nat" then Some (with_opt OAutoDetectNat true)
  else if arg ==? "--no-auto-detect-nat" then Some (fun s => with_opt ONoAutoDetectNat true (with_opt OAutoDetectNat false s))
  else None.
(** Flags that set one text. *)
Definition text_flag (arg : string) : option (string -> serve_parse -> serve_parse) :=
  if arg ==? "--node" then Some (with_opt ONode)
  else if arg ==? "--backend-url" then Some (with_opt OBackendUrl)
  else if arg ==? "--backend-type" then Some (with_opt OBackendType)
  else if arg ==? "--backend-api-key" then Some (with_opt OBackendApiKey)
  else if arg ==? "--model" then Some (with_opt OModel)
  else if arg ==? "--public-endpoint" then Some (with_opt OPublicEndpoint)
  else if arg ==? "--region" then Some (with_opt ORegion)
  else if arg ==? "--intent" then Some (with_opt OIntent)
  else if arg ==? "--node-id" then Some (with_opt ONodeId)
  else if arg ==? "--host" then Some (with_opt OHost)
  else if arg ==? "--external-ip-probe-url" then Some (with_opt OExternalIpProbeUrl)
  else if arg ==? "--relay-worker-endpoint" then Some (with_opt ORelayWorkerEndpoint)
  else if arg ==? "--log-dir" then Some (fun v => with_opt OLogDir (Some v))
  else if arg ==? "--policy-manifest" then Some (with_opt OPolicyManifest)
  else None.
Definition ov_set_url (v : string) (o : ConfigOverrides) : ConfigOverrides :=
  mkOverrides (ov_mode o) (Some v) (ov_directory_authority o) (ov_trust_domain_id o) (ov_allow_public_fallback o)
    (ov_trusted_domains o) (ov_local_directory_discovery o).
Definition ov_set_discovery (b : bool) (o : ConfigOverrides) : ConfigOverrides :=
  mkOverrides (ov_mode o) (ov_directory_url o) (ov_directory_authority o) (ov_trust_domain_id o) (ov_allow_public_fallback o)
    (ov_trusted_domains o) (Some b).
Definition ov_set_mode (m : OperatingMode) (o : ConfigOverrides) : ConfigOverrides :=
  mkOverrides (Some m) (ov_directory_url o) (ov_directory_authority o) (ov_trust_domain_id o) (ov_allow_public_fallback o)
    (ov_trusted_domains o) (ov_local_directory_discovery o).
Definition ov_set_domain (v : string) (o : ConfigOverrides) : ConfigOverrides :=
  mkOverrides (ov_mode o) (ov_directory_url o) (ov_directory_authority o) (Some v) (ov_allow_public_fallback o)
    (ov_trusted_domains o) (ov_local_directory_discovery o).
Definition ov_set_authority (v : string) (o : ConfigOverrides) : ConfigOverrides :=
  mkOverrides (ov_mode o) (ov_directory_url o) (Some v) (ov_trust_domain_id o) (ov_allow_public_fallback o)
    (ov_trusted_domains o) (ov_local_directory_discovery o).
Definition ov_set_fallback (b : bool) (o : ConfigOverrides) : ConfigOverrides :=
  mkOverrides (ov_mode o) (ov_directory_url o) (ov_directory_authority o) (ov_trust_domain_id o) (Some b)
    (ov_trusted_domains o) (ov_local_directory_discovery o).
Definition ov_add_domain (v : string) (o : ConfigOverrides) : ConfigOverrides :=
  mkOverrides (ov_mode o) (ov_directory_url o) (ov_directory_authority o) (ov_trust_domain_id o) (ov_allow_public_fallback o)
    (Some (default [] (ov_trusted_domains o) ++ [v])) (ov_local_directory_discovery o).
Definition number_opt (f : field) (max : Z) (set : Z -> serve_parse -> serve_parse) (arg v : string) (s : serve_parse)
    : result serve_parse ServeError :=
  match parse_uint max v with Some n => Ok (set n s) | None => Err (NotANumber arg) end.
Definition serve_value (arg v : string) (s : serve_parse) : result serve_parse ServeError :=
  match text_flag arg with
  | Some set => Ok (set v s)
  | None =>
      if arg ==? "--directory-url"
      then Ok (with_opt ODirectoryExplicit true (with_cli (ov_set_url v) (with_opt ODirectoryUrl v s)))
      else if arg ==? "--local-directory-discovery"
      then let? b := cli (parse_bool_config v arg) in Ok (with_cli (ov_set_discovery b) s)
      else if arg ==? "--config" then Ok (mkServeParse (sp_opts s) (sp_cli s) (Some v) (sp_preset s))
      else if arg ==? "--mode"
      then let? m := cli (parse_operating_mode v) in Ok (mkServeParse (sp_opts s) (ov_set_mode m (sp_cli s)) (sp_file s) m)
      else if arg ==? "--trust-domain" then Ok (with_cli (ov_set_domain v) s)
      else if arg ==? "--directory-authority" then Ok (with_cli (ov_set_authority v) s)
      else if arg ==? "--allow-public-fallback"
      then let? b := cli (parse_bool_config v arg) in Ok (with_cli (ov_set_fallback b) s)
      else if arg ==? "--trusted-domain" then Ok (with_cli (ov_add_domain v) s)
      else if arg ==? "--max-concurrent" then number_opt OMaxConcurrent u64_max (with_opt OMaxConcurrent) arg v s
      else if arg ==? "--port" then number_opt OPort u16_max (with_opt OPort) arg v s
      else if arg ==? "--relay-accept-port" then number_opt ORelayAcceptPort u16_max (with_opt ORelayAcceptPort) arg v s
      else if arg ==? "--receipt-profile"
      then let? more := resolve_receipt_profiles [v] in
           Ok (with_opt OReceiptProfiles (Some (dedup (default [] (sp_opts s OReceiptProfiles) ++ more))) s)
      else Err (UnknownFlag arg)
  end.
Fixpoint parse_serve_flags (args : list string) (s : serve_parse) : result serve_parse ServeError :=
  match args with
  | [] => Ok s
  | arg :: rest =>
      if str_in arg ["--help"; "-h"] then Err Help
      else match serve_switch arg with
           | Some set => parse_serve_flags rest (set s)
           | None =>
               match rest with
               | v :: rest => let? s := serve_value arg v s in parse_serve_flags rest s
               | [] => Err (NeedsValue arg)
               end
           end
  end.
End environment.

(** ** The operating mode *)

(** What the process can read: environment, configuration files, secrets, and
    the derived deserialiser of a membership bundle. *)
Record surroundings := mkSurroundings {
  su_env : string -> option string;
  su_config : string -> result RuntimeConfigV1 string;
  su_secret : SecretRef -> result string string;
  su_bundle : string -> option RestrictedPeerBundle
}.

Section serve.
Context (su : surroundings).

Definition load_restricted_peer_bundle (c : RuntimeConfigV1) : result RestrictedPeerBundle ServeError :=
  match rt_secret_refs c !! "restricted_peer_bundle" with
  | None =>
      Err (Restricted "restricted_peer_bundle_required: restricted mode requires secret_refs.restricted_peer_bundle")
  | Some reference =>
      let? contents := map_err Restricted (su_secret su reference) in
      ok_or (su_bundle su contents) (Restricted "restricted_peer_bundle_malformed")
  end.
Definition apply_restricted_peer_config (c : RuntimeConfigV1) (o : ServeOpts) : result ServeOpts ServeError :=
  if negb (is_restricted (rt_mode c)) then Ok o
  else
    let? bundle := load_restricted_peer_bundle c in
    let? domain := ok_or (rt_trust_domain_id c)
                     (Restricted "restricted_trust_domain_required: private mode requires trust_domain_id") in
    let? authority := ok_or (dc_authority_id (rt_directory c))
                        (Restricted "restricted_directory_authority_required: private mode requires directory.authority_id") in
    if (mp_domain_id (pb_policy bundle) <>? domain) || (mp_authority_id (pb_policy bundle) <>? authority)
    then Err (Restricted "restricted_directory_context_mismatch: configuration and membership bundle differ")
    else
      let? credential := ok_or (mc_credential (rt_membership c))
                           (Restricted "restricted_membership_reference_required: private mode requires membership.credential") in
      let context :=
        mkContext domain authority (sub_id (as_subject (me_assertion (pb_membership bundle)))) "node"
          (mp_minimum_generation (pb_policy bundle)) credential in
      Ok (set_opt OEnableMesh (mh_enabled (rt_mesh c))
            (set_opt ORestrictedPeerBundle (Some bundle) (set_opt ORestrictedDirectoryContext (Some context) o))).

(** Off the network. *)
Definition local_only_opts (o : ServeOpts) : ServeOpts :=
  set_opt OExternalIpProbeUrl empty_str
    (set_opt ORelayWorkerEndpoint empty_str
       (set_opt OTunnel (Some false) (set_opt ONoAutoDetectNat true (set_opt OAutoDetectNat false (set_opt OSkipRegistration true o))))).
(** What the options take from the accepted configuration. *)
Definition apply_config (c : RuntimeConfigV1) (o : ServeOpts) : ServeOpts :=
  let o := set_opt OOperatingMode (rt_mode c) o in
  let o := set_opt OLocalDirectoryDiscovery (dc_local_discovery_enabled (rt_directory c)) o in
  let o := set_opt ODirectoryAuthority (dc_authority_id (rt_directory c)) o in
  let o := set_opt OAllowPublicFallback (np_allow_public_fallback (rt_network c)) o in
  let o := match dc_url (rt_directory c) with Some url => set_opt ODirectoryUrl url o | None => o end in
  if decide (rt_mode c = LocalOnly) then local_only_opts o else o.

Definition read_file_config (file : option string) : result (option RuntimeConfigV1) ServeError :=
  match file with
  | Some path => let? c := map_err ConfigUnreadable (su_config su path) in Ok (Some c)
  | None => Ok None
  end.
Definition initial_profiles : result (option (list string)) ServeError :=
  match su_env su "IICP_SUPPORTED_RECEIPT_PROFILES" with
  | Some value => let? profiles := resolve_receipt_profiles [value] in Ok (Some profiles)
  | None => Ok None
  end.
Definition parse_args (args : list string) : result ServeOpts ServeError :=
  let? profiles := initial_profiles in
  let? s := parse_serve_flags args (mkServeParse (default_opts (su_env su) profiles) no_overrides (su_env su "IICP_CONFIG_FILE") Public) in
  let? file := read_file_config (sp_file s) in
  let o := sp_opts s in
  let o := if is_some (file ≫= fun c => dc_url (rt_directory c)) then set_opt ODirectoryExplicit true o else o in
  let? environment := cli (config_environment_overrides (su_env su)) in
  let config := resolve (sp_preset s) file environment (sp_cli s) in
  if negb (bool_decide (validate_config config = [])) then Err (Rejected (validate_config config))
  else
    let? o := apply_restricted_peer_config config o in
    Ok (apply_config config o).
End serve.

(** ** The saved node

    The fields of the saved record that the options are filled from. *)
Record SavedNode := mkSavedNode {
  sn_backend_url : string;
  sn_backend_type : string;
  sn_model : string;
  sn_public_endpoint : string;
  sn_directory_url : string;
  sn_region : string;
  sn_intent : string;
  sn_node_id : string;
  sn_max_concurrent : Z;
  sn_port : Z;
  sn_host : string;
  sn_auto_detect_nat : bool;
  sn_external_ip_probe_url : string;
  sn_supported_receipt_profiles : list string
}.
(** A text at its default is replaced. *)
Definition fill (f : field) (v : field_type f) (at_default : bool) (o : ServeOpts) : ServeOpts := if at_default then set_opt f v o else o.
Definition saved_steps (saved : SavedNode) : list (ServeOpts -> ServeOpts) :=
  [fun o : ServeOpts => fill OBackendUrl (sn_backend_url saved) (str_is_empty (o OBackendUrl)) o;
   fun o : ServeOpts => fill OBackendType (sn_backend_type saved) ((o OBackendType ==? "openai_compat") && negb (str_is_empty (sn_backend_type saved))) o;
   fun o : ServeOpts => fill OModel (sn_model saved) (str_is_empty (o OModel)) o;
   fun o : ServeOpts => fill OPublicEndpoint (sn_public_endpoint saved) (str_is_empty (o OPublicEndpoint)) o;
   fun o : ServeOpts => fill ODirectoryUrl (sn_directory_url saved) (o ODirectoryUrl ==? "https://iicp.network/api") o;
   fun o : ServeOpts => fill ORegion (sn_region saved) (str_is_empty (o ORegion)) o;
   fun o : ServeOpts => fill OIntent (sn_intent saved) (o OIntent ==? "urn:iicp:intent:llm:chat:v1") o;
   fun o : ServeOpts => fill ONodeId (sn_node_id saved) (str_is_empty (o ONodeId)) o;
   fun o : ServeOpts => fill OMaxConcurrent (sn_max_concurrent saved) (o OMaxConcurrent =? 4) o;
   fun o : ServeOpts => fill OPort (sn_port saved) (o OPort =? 9484) o;
   fun o : ServeOpts => fill OHost (sn_host saved) (str_in (o OHost) ["::"; "0.0.0.0"] && negb (str_is_empty (sn_host saved))) o;
   fun o : ServeOpts => fill OAutoDetectNat (sn_auto_detect_nat saved) (negb (o OAutoDetectNat) && negb (o ONoAutoDetectNat)) o;
   fun o : ServeOpts => fill OExternalIpProbeUrl (sn_external_ip_probe_url saved) (str_is_empty (o OExternalIpProbeUrl)) o;
   fun o : ServeOpts => fill OReceiptProfiles (Some (sn_supported_receipt_profiles saved)) (negb (is_some (o OReceiptProfiles))) o].
Definition apply_saved_node (saved : SavedNode) (o : ServeOpts) : ServeOpts := foldl (fun o step => step o) o (saved_steps saved).
Arguments apply_saved_node : simpl never.

(** ** What the options guarantee *)

Lemma set_opt_other f g v (o : ServeOpts) : bool_decide (f = g) = false -> set_opt f v o g = o g.
Proof. intros H. apply set_opt_ne. by apply bool_decide_eq_false in H. Qed.
Ltac opt_simpl := repeat first [rewrite set_opt_eq | rewrite set_opt_other by reflexivity].

(** The mode the process runs in, as its options say it. *)
Definition open_opts (o : ServeOpts) : Prop :=
  o ORestrictedPeerBundle = None /\ o ORestrictedDirectoryContext = None /\ o OEnableMesh = false.
(** Bound to the domain and the authority of its configuration and of the
    membership bundle, which name the same. *)
Definition private_opts (c : RuntimeConfigV1) (o : ServeOpts) : Prop :=
  exists bundle credential,
    o ORestrictedPeerBundle = Some bundle
    /\ o ORestrictedDirectoryContext
       = Some (mkContext (mp_domain_id (pb_policy bundle)) (mp_authority_id (pb_policy bundle))
                 (sub_id (as_subject (me_assertion (pb_membership bundle)))) "node" (mp_minimum_generation (pb_policy bundle)) credential)
    /\ rt_trust_domain_id c = Some (mp_domain_id (pb_policy bundle))
    /\ dc_authority_id (rt_directory c) = Some (mp_authority_id (pb_policy bundle))
    /\ mc_credential (rt_membership c) = Some credential
    /\ o OEnableMesh = mh_enabled (rt_mesh c) /\ o OAllowPublicFallback = false.
Definition local_opts (o : ServeOpts) : Prop :=
  o OSkipRegistration = true /\ o OAutoDetectNat = false /\ o ONoAutoDetectNat = true /\ o OTunnel = Some false
  /\ o ORelayWorkerEndpoint = empty_str /\ o OLocalDirectoryDiscovery = false /\ o OAllowPublicFallback = false.
Definition mode_opts (c : RuntimeConfigV1) (o : ServeOpts) : Prop :=
  match rt_mode c with
  | Public | Custom => open_opts o
  | Private => private_opts c o
  | FederatedPrivate => False
  | LocalOnly => open_opts o /\ local_opts o
  end.

Section guarantees.
Context (su : surroundings).

Definition restricted_fields : list field := [ORestrictedPeerBundle; ORestrictedDirectoryContext; OEnableMesh].
Lemma switch_keeps arg set s f : f ∈ restricted_fields -> serve_switch arg = Some set -> sp_opts (set s) f = sp_opts s f.
Proof.
  intros Hf. unfold serve_switch. repeat case_match; intros [= <-]; simpl;
    repeat rewrite set_opt_ne by (intros <-; revert Hf; unfold restricted_fields; set_solver); done.
Qed.
Lemma text_keeps arg set v s f : f ∈ restricted_fields -> text_flag arg = Some set -> sp_opts (set v s) f = sp_opts s f.
Proof.
  intros Hf. unfold text_flag. repeat case_match; intros [= <-]; simpl;
    repeat rewrite set_opt_ne by (intros <-; revert Hf; unfold restricted_fields; set_solver); done.
Qed.
Lemma value_keeps arg v s s' f : f ∈ restricted_fields -> serve_value arg v s = Ok s' -> sp_opts s' f = sp_opts s f.
Proof.
  intros Hf. unfold serve_value. destruct (text_flag arg) as [set|] eqn:Et; [intros [= <-]; by eapply text_keeps|].
  unfold number_opt, cli, with_cli, with_opt.
  repeat case_match; unfold rbind, map_err; repeat case_match; intros; simplify_eq; simpl;
    repeat rewrite set_opt_ne by (intros <-; revert Hf; unfold restricted_fields; set_solver); done.
Qed.
Lemma flags_keep args s s' f : f ∈ restricted_fields -> parse_serve_flags args s = Ok s' -> sp_opts s' f = sp_opts s f.
Proof.
  intros Hf. enough (forall n args s, (length args <= n)%nat -> parse_serve_flags args s = Ok s' -> sp_opts s' f = sp_opts s f)
    as H by by apply (H (length args)).
  clear args s. induction n as [|n IH]; intros [|arg rest] s Hn; simpl in Hn; try lia; try by intros [= <-].
  cbn [parse_serve_flags]. destruct (str_in arg _); [done|]. destruct (serve_switch arg) as [set|] eqn:Es.
  - intros H. rewrite (IH rest (set s)) by (try lia; done). by eapply switch_keeps.
  - destruct rest as [|v rest]; [done|]. destruct (serve_value arg v s) as [s1|] eqn:Ev; [|done]. cbn [rbind]. intros H.
    rewrite (IH rest s1) by (simpl in Hn; try lia; done). by eapply value_keeps.
Qed.

Lemma apply_restricted_mode c o o' :
  well_formed c -> open_opts o -> apply_restricted_peer_config su c o = Ok o' ->
  match rt_mode c with
  | Private => private_opts c (apply_config c o')
  | FederatedPrivate => False
  | _ => o' = o
  end.
Proof.
  intros Hwf Ho. pose proof (wf_mode c Hwf) as Hmode. unfold apply_restricted_peer_config.
  destruct (rt_mode c) eqn:Em; cbn [is_restricted negb]; try (by intros [= ->]); [|done].
  destruct (load_restricted_peer_bundle su c) as [bundle|]; [|done]. cbn [rbind].
  destruct (rt_trust_domain_id c) as [domain|] eqn:Ed; [|done]. cbn [ok_or rbind].
  destruct (dc_authority_id (rt_directory c)) as [authority|] eqn:Ea; [|done]. cbn [ok_or rbind].
  destruct (String.eqb_spec (mp_domain_id (pb_policy bundle)) domain) as [<-|]; [|done]. cbn [negb orb].
  destruct (String.eqb_spec (mp_authority_id (pb_policy bundle)) authority) as [<-|]; [|done]. cbn [negb].
  destruct (mc_credential (rt_membership c)) as [credential|] eqn:Ec; [|done]. cbn [ok_or rbind]. intros [= <-].
  exists bundle, credential. unfold apply_config. rewrite Em. rewrite decide_False by done.
  destruct Hmode as [_ _ _ _ _ _ _ Hfb _].
  destruct (dc_url (rt_directory c)); opt_simpl; by rewrite ?Hfb.
Qed.
Lemma apply_config_fields c o (o' := apply_config c o) :
  o' OOperatingMode = rt_mode c
  /\ o' OLocalDirectoryDiscovery = dc_local_discovery_enabled (rt_directory c)
  /\ o' ODirectoryAuthority = dc_authority_id (rt_directory c)
  /\ o' OAllowPublicFallback = np_allow_public_fallback (rt_network c)
  /\ (forall url, dc_url (rt_directory c) = Some url -> o' ODirectoryUrl = url).
Proof.
  subst o'. unfold apply_config, local_only_opts.
  destruct (decide (rt_mode c = LocalOnly)); destruct (dc_url (rt_directory c)); opt_simpl; split_and!; try done; by intros ? [= ->].
Qed.
Lemma apply_config_open c o : open_opts o -> open_opts (apply_config c o).
Proof.
  intros (Hb & Hc & Hm). unfold open_opts, apply_config, local_only_opts.
  destruct (decide (rt_mode c = LocalOnly)), (dc_url (rt_directory c)); opt_simpl; by rewrite Hb, Hc, Hm.
Qed.
Lemma apply_config_local c o : well_formed c -> rt_mode c = LocalOnly -> local_opts (apply_config c o).
Proof.
  intros Hwf Hm. pose proof (wf_mode c Hwf) as Hmode. rewrite Hm in Hmode. destruct Hmode as [_ Hu Hd _ _ _ Hn].
  unfold local_opts, apply_config, local_only_opts. rewrite Hu, decide_True by done. opt_simpl. by rewrite Hd, Hn.
Qed.
Lemma fill_other f g v b (o : ServeOpts) : bool_decide (f = g) = false -> fill f v b o g = o g.
Proof. intros H. unfold fill. destruct b; [|done]. by apply set_opt_other. Qed.
Lemma saved_invariant (P : ServeOpts -> Prop) saved (o : ServeOpts) :
  Forall (fun step : ServeOpts -> ServeOpts => forall o, P o -> P (step o)) (saved_steps saved) -> P o -> P (apply_saved_node saved o).
Proof. unfold apply_saved_node. intros H. revert o. induction H as [|step steps Hs H IH]; intros o Ho; [done|]. apply IH, Hs, Ho. Qed.
Lemma saved_keeps saved (o : ServeOpts) f :
  f ∈ [ORestrictedPeerBundle; ORestrictedDirectoryContext; OEnableMesh; OAllowPublicFallback; OSkipRegistration; ONoAutoDetectNat; OTunnel;
       ORelayWorkerEndpoint; OLocalDirectoryDiscovery; OOperatingMode; ODirectoryAuthority; ORelayCapable; OWithProxy; OForce] ->
  apply_saved_node saved o f = o f.
Proof.
  intros Hf. apply (saved_invariant (fun o' => o' f = o f)); [|done].
  repeat (apply elem_of_cons in Hf as [->|Hf]; [by repeat constructor; intros o' <-; apply fill_other|]). by apply elem_of_nil in Hf.
Qed.
Lemma saved_keeps_nat saved (o : ServeOpts) : o OAutoDetectNat = false -> o ONoAutoDetectNat = true -> apply_saved_node saved o OAutoDetectNat = false.
Proof.
  intros Ha Hn. apply (saved_invariant (fun o' => o' OAutoDetectNat = false /\ o' ONoAutoDetectNat = true)); [|done].
  repeat constructor; destruct H as [H1 H2]; rewrite ?fill_other by reflexivity; try done. unfold fill. by rewrite H1, H2.
Qed.
Lemma mode_opts_saved c saved (o : ServeOpts) : mode_opts c o -> mode_opts c (apply_saved_node saved o).
Proof.
  unfold mode_opts, private_opts, open_opts, local_opts.
  rewrite !(saved_keeps saved o) by set_solver.
  destruct (rt_mode c); try done. intros H. destruct_and! H. split_and!; try done; [by apply saved_keeps_nat|..]; by rewrite saved_keeps by set_solver.
Qed.

Lemma parse_args_guarded (args : list string) (o : ServeOpts) (Hargs : parse_args su args = Ok o) :
  exists profiles s file environment,
    let config := resolve (sp_preset s) file environment (sp_cli s) in
    parse_serve_flags args (mkServeParse (default_opts (su_env su) profiles) no_overrides (su_env su "IICP_CONFIG_FILE") Public) = Ok s
    /\ read_file_config su (sp_file s) = Ok file
    /\ config_environment_overrides (su_env su) = Ok environment
    /\ well_formed config
    /\ o OOperatingMode = rt_mode config
    /\ o ODirectoryAuthority = dc_authority_id (rt_directory config)
    /\ o OLocalDirectoryDiscovery = dc_local_discovery_enabled (rt_directory config)
    /\ o OAllowPublicFallback = np_allow_public_fallback (rt_network config)
    /\ (forall url, dc_url (rt_directory config) = Some url -> o ODirectoryUrl = url)
    /\ mode_opts config o
    /\ forall saved, mode_opts config (apply_saved_node saved o).
Proof.
  unfold parse_args in Hargs. destruct (initial_profiles su) as [profiles|]; [|done]. cbn [rbind] in Hargs.
  destruct (parse_serve_flags args _) as [s|] eqn:Es; [|done]. cbn [rbind] in Hargs.
  destruct (read_file_config su (sp_file s)) as [file|] eqn:Ef; [|done]. cbn [rbind] in Hargs.
  destruct (config_environment_overrides (su_env su)) as [environment|] eqn:Ee; [|done]. cbn [cli map_err rbind] in Hargs.
  set (config := resolve (sp_preset s) file environment (sp_cli s)) in *.
  destruct (bool_decide_reflect (validate_config config = [])) as [Hv|]; cbn [negb] in Hargs; [|done].
  apply validate_exact in Hv as Hwf.
  set (o1 := if is_some _ then _ else _) in Hargs.
  destruct (apply_restricted_peer_config su config o1) as [o2|] eqn:Er; [|done]. cbn [rbind] in Hargs. injection Hargs as <-.
  assert (open_opts o1) as Ho1.
  { assert (forall f, f ∈ restricted_fields -> sp_opts s f = default_opts (su_env su) profiles f) as Hk
      by (intros f Hf; by apply (flags_keep _ _ _ f Hf Es)).
    assert (open_opts (sp_opts s)) as Hs by (unfold open_opts; split_and!; by rewrite Hk by (unfold restricted_fields; set_solver)).
    unfold o1. destruct (is_some _); [|done]. unfold open_opts in *. by opt_simpl. }
  pose proof (apply_restricted_mode config o1 o2 Hwf Ho1 Er) as Hm.
  pose proof (apply_config_fields config o2) as (F1 & F2 & F3 & F4 & F5).
  assert (mode_opts config (apply_config config o2)) as Hmode.
  { unfold mode_opts. destruct (rt_mode config) eqn:Em; try done; subst o2.
    - by apply apply_config_open.
    - split; [by apply apply_config_open | by apply apply_config_local].
    - by apply apply_config_open. }
  exists profiles, s, file, environment. cbv zeta. fold config. split_and!; try done. intros saved. by apply mode_opts_saved.
Qed.
(** C34: a node starts with options only from a configuration that is well formed,
    resolved from the preset, the file, the environment and the command line; its
    mode, authority, discovery, fallback and directory are that configuration's;
    a private node holds the membership bundle and the context of its own domain
    and authority and no public fallback; an open one holds none and keeps out of
    the mesh; a local-only one registers nowhere and has no address detection, no
    tunnel, no relay and no multicast; and filling the options from a saved node
    changes none of this. *)
Theorem serve_options_guarded (args : list string) (o : ServeOpts) (Hargs : parse_args su args = Ok o) :
  exists profiles s file environment,
    let config := resolve (sp_preset s) file environment (sp_cli s) in
    parse_serve_flags args (mkServeParse (default_opts (su_env su) profiles) no_overrides (su_env su "IICP_CONFIG_FILE") Public) = Ok s
    /\ read_file_config su (sp_file s) = Ok file
    /\ config_environment_overrides (su_env su) = Ok environment
    /\ well_formed config
    /\ o OOperatingMode = rt_mode config
    /\ o ODirectoryAuthority = dc_authority_id (rt_directory config)
    /\ o OLocalDirectoryDiscovery = dc_local_discovery_enabled (rt_directory config)
    /\ o OAllowPublicFallback = np_allow_public_fallback (rt_network config)
    /\ (forall url, dc_url (rt_directory config) = Some url -> o ODirectoryUrl = url)
    /\ mode_opts config o
    /\ forall saved, mode_opts config (apply_saved_node saved o).
Proof. by apply parse_args_guarded. Qed.
End guarantees.

(** ** An example *)

Definition example_bundle : RestrictedPeerBundle :=
  mkPeerBundle (mkMembershipPolicy "example.internal" "did:key:directory" "key-1" "pk" 3 60)
    (mkMembership
       (mkAssertion MEMBERSHIP_SCHEMA RESTRICTED_PROFILE "assertion-1" "example.internal" (mkSubject "node" "node-1" "key-2" "pk2")
          (mkIssuer "did:key:directory" "key-1") 0 100 3 ["peers"] [])
       (mkDetached "ed25519" None "sig"))
    "seed" "bearer".
Definition example_config : RuntimeConfigV1 :=
  let c := put_trust_domain (Some "example.internal") (put_authority (Some "did:key:directory")
             (put_credential (Some (EnvironmentSecret "IICP_MEMBERSHIP")) (preset Private))) in
  mkRuntimeConfig (rt_schema_version c) (rt_mode c) (rt_directory c) (rt_trust_domain_id c) (rt_membership c) (rt_mesh c) (rt_execution c)
    (rt_cip c) (rt_federation c) (rt_network c) {[ "restricted_peer_bundle" := FileSecret "/home/node/bundle.json" ]}.
Definition example_surroundings : surroundings :=
  mkSurroundings (fun _ => None) (fun path => if path ==? "node.json" then Ok example_config else Err "no such file") (fun _ => Ok "bundle")
    (fun _ => Some example_bundle).
Definition example_serve_args : list string := ["--config"; "node.json"; "--model"; "qwen"; "--tunnel"].
Definition example_opts : ServeOpts :=
  match parse_args example_surroundings example_serve_args with Ok o => o | Err _ => default_opts (fun _ => None) None end.
Lemma example_parses : parse_args example_surroundings example_serve_args = Ok example_opts.
Proof. vm_compute. reflexivity. Qed.
Lemma serve_options_guarded_witness :
  example_opts OOperatingMode = Private /\ example_opts OTunnel = Some true
  /\ exists config, well_formed config /\ rt_mode config = Private /\ mode_opts config example_opts.
Proof.
  split; [vm_compute; reflexivity|]. split; [vm_compute; reflexivity|].
  destruct (serve_options_guarded example_surroundings example_serve_args example_opts example_parses)
    as (profiles & s & file & environment & H).
  destruct H as (_ & _ & _ & Hwf & Hm & _ & _ & _ & _ & Hmode & _).
  exists (resolve (sp_preset s) file environment (sp_cli s)). split; [exact Hwf|]. split; [|exact Hmode].
  rewrite <- Hm. vm_compute. reflexivity.
Defined.
