(* ===== verification/Reachability.v ===== *)
(** * How a serving node becomes reachable

    The decisions of [src/bin/iicp_node.rs] between address detection, tunnel and
    relay: which steps are tried, when an endpoint needs a public fallback, which
    relay of the directory's answer is elected, and what a dead tunnel leads to. *)

From S2P Require Import Prelude Text Chars Json DispatchTicket ClientEffects Signing PeerManager PeerSafety.

(** ** Text *)

(** [split_once] at a text. *)
Fixpoint split_str (p s : string) : option (string * string) :=
  match strip_prefix p s with
  | Some rest => Some (EmptyString, rest)
  | None =>
      match s with
      | EmptyString => None
      | String c s => let! (l, r) := split_str p s in Some (String c l, r)
      end
  end.
(** Up to the first of some characters. *)
Fixpoint str_until (stop : string) (s : string) : string :=
  match s with
  | EmptyString => EmptyString
  | String c s => if char_in c stop then EmptyString else String c (str_until stop s)
  end.
Fixpoint digit_prefix (s : string) : string * string :=
  match s with
  | String c s' => if is_ascii_digit c then let '(d, r) := digit_prefix s' in (String c d, r) else (EmptyString, s)
  | EmptyString => (EmptyString, EmptyString)
  end.

(** ** Dead tunnels *)

Inductive TunnelDeadPolicy := Auto | PolicyRetry | Exit | PolicyLogOnly.
Inductive TunnelDeadBehavior := ExitProcess | BehaviorRetry | BehaviorLogOnly.

Definition tunnel_dead_policy_value (value : string) : option TunnelDeadPolicy :=
  let v := to_ascii_lowercase (trim value) in
  if str_in v ["auto"; empty_str] then Some Auto
  else if v ==? "retry" then Some PolicyRetry
  else if v ==? "exit" then Some Exit
  else if str_in v ["log-only"; "log_only"; "logonly"] then Some PolicyLogOnly
  else None.
Definition tunnel_dead_policy_from_env (env : string -> option string) : TunnelDeadPolicy :=
  default Auto (env "IICP_TUNNEL_DEAD_POLICY" ≫= tunnel_dead_policy_value).
Definition tunnel_dead_behavior (policy : TunnelDeadPolicy) (supervised : bool) : TunnelDeadBehavior :=
  match policy with
  | Auto => if supervised then ExitProcess else BehaviorRetry
  | PolicyRetry => BehaviorRetry
  | Exit => ExitProcess
  | PolicyLogOnly => BehaviorLogOnly
  end.
Definition TUNNEL_DEAD_RETRY_INITIAL : Z := 30.
Definition TUNNEL_DEAD_RETRY_MAX : Z := 300.
Definition tunnel_dead_retry_delay (attempt : Z) : Z :=
  let shift := Z.min (Z.max (attempt - 1) 0) 4 in
  Z.min (TUNNEL_DEAD_RETRY_INITIAL * Z.shiftl 1 shift) TUNNEL_DEAD_RETRY_MAX.
Definition should_exit_for_unrecovered_public_fallback (policy : TunnelDeadPolicy) (supervised : bool) : bool :=
  match tunnel_dead_behavior policy supervised with ExitProcess => true | _ => false end.

Definition RETRY_MARKERS : list string :=
  ["pausing tunnel creation for "; "accountless Quick Tunnel creation delayed for "; "paused for "; "paced for ";
   "held by another local IICP node for "].
(** The second piece of [split]. *)
Definition second_piece (p s : string) : option string :=
  let! (_, after) := split_str p s in Some (from_option fst after (split_str p after)).
Definition delay_of_piece (after : string) : option Z :=
  let '(digits, rest) := digit_prefix after in
  let! suffix := strip_prefix "s" rest in
  if negb (str_is_empty suffix) && negb (is_some (first_strip ws_encodings suffix)) && negb (starts_with suffix ";") then None
  else
    let! seconds := parse_uint u64_max digits in
    if 0 <? seconds then Some seconds else None.
Fixpoint first_marked (markers : list string) (error : string) : option Z :=
  match markers with
  | [] => None
  | marker :: markers =>
      match second_piece marker error with
      | None => first_marked markers error
      | Some after => delay_of_piece after
      end
  end.
Definition public_fallback_retry_delay_hint (error : string) : option Z := first_marked RETRY_MARKERS error.

(** ** Ports and addresses *)

Definition fmt_bind_addr (host : string) (port : Z) : string :=
  if char_in ":" host then "[" +:+ host +:+ "]:" +:+ pretty port else host +:+ ":" +:+ pretty port.
(** [bindable] is an attempt to bind the address. *)
Fixpoint scan_ports (bindable : string -> bool) (host : string) (start offset : Z) (tries : nat) : Z :=
  match tries with
  | O => start
  | S tries =>
      let candidate := Z.min (start + offset) u16_max in
      if bindable (fmt_bind_addr host candidate) then candidate else scan_ports bindable host start (offset + 1) tries
  end.
Definition find_available_port (bindable : string -> bool) (host : string) (start max_tries : Z) : Z :=
  scan_ports bindable host start 0 (Z.to_nat max_tries).
Definition doctor_loopback_host (host : string) : string :=
  let host := trim host in
  if str_in host [empty_str; "::"; "0.0.0.0"] then "127.0.0.1" else host.
Definition doctor_url (host : string) (port : Z) : string :=
  let host := doctor_loopback_host host in
  if char_in ":" host && negb (starts_with host "[") then "http://[" +:+ host +:+ "]:" +:+ pretty port +:+ "/iicp/health"
  else "http://" +:+ host +:+ ":" +:+ pretty port +:+ "/iicp/health".

Section lowercase.
(** [str::to_lowercase] *)
Context (to_lowercase : string -> string).

Definition PRIVATE_PREFIXES : list string :=
  ["://localhost"; "://127."; "://0.0.0.0"; "://192.168."; "://10."]
  ++ ((fun n => "://172." +:+ pretty (16 + Z.of_nat n) +:+ ".") <$> seq 0 16)
  ++ ["://[::1]"; "://[fc"; "://[fd"].
Definition endpoint_is_local_or_private (endpoint : string) : bool :=
  let ep := to_lowercase endpoint in existsb (str_contains ep) PRIVATE_PREFIXES.
Definition endpoint_is_bracketed_ipv6 (endpoint : string) : bool := str_contains endpoint "://[".

(** What address detection and the first pinhole attempt found. *)
Record NatProfile := mkNatProfile {
  nat_tier : Z;
  nat_unreachable : bool;
  nat_public_endpoint : option string;
  nat_pinhole_active : bool
}.
Record PinholeOpenResult := mkPinhole { ph_active : bool; ph_rewritten_endpoint : option string; ph_log : list string }.

Definition direct_tunnel_fallback_reason (endpoint : string) (profile : option NatProfile) (tier0_pinhole : option PinholeOpenResult)
    : option string :=
  if endpoint_is_local_or_private endpoint then Some "local/private endpoint"
  else if is_some_and profile (fun p => (3 <=? nat_tier p) || nat_unreachable p)
  then Some "NAT traversal did not produce a direct public route"
  else if endpoint_is_bracketed_ipv6 endpoint
          && negb (is_some_and profile nat_pinhole_active) && negb (is_some_and tier0_pinhole ph_active)
  then Some "IPv6 direct endpoint has no verified inbound pinhole"
  else None.
End lowercase.

(** ** The order of the steps *)

Inductive reach_step := StepTunnel | StepRelay | StepGossip.
Definition plan_reachability (tier : Z) (relay_configured tunnel_enabled : bool) : list reach_step :=
  if (tier <? 3) || relay_configured then []
  else (if tunnel_enabled then [StepTunnel] else []) ++ [StepRelay; StepGossip].
Definition relay_worker_fallback_allowed (relay_capable : bool) : bool := negb relay_capable.
Definition relay_fallback_requires_binding (selected_fallback established_tunnel : bool) : bool :=
  selected_fallback && negb established_tunnel.

(** ** Electing a relay from the directory's answer *)

(** A kept character, or the low byte of its code in two hexadecimal digits. *)
Definition url_kept (c : Ascii.ascii) : bool := is_ascii_alphanumeric c || char_in c "-_.~:/".
Definition upper_hex (n : Z) : Ascii.ascii := default "0"%char (String.get (Z.to_nat n) "0123456789ABCDEF").
Definition percent_byte (n : Z) : string :=
  String "%" (String (upper_hex (n / 16 mod 16)) (String (upper_hex (n mod 16)) EmptyString)).
(** [pending] is the low byte of the code of a character of several bytes. *)
Definition flush (pending : option Z) (rest : string) : string := from_option percent_byte EmptyString pending +:+ rest.
Fixpoint encode_chars (pending : option Z) (s : string) : string :=
  match s with
  | EmptyString => flush pending EmptyString
  | String c s =>
      if inner_byte c then encode_chars (Some ((default 0 pending * 64 + code c mod 64) mod 256)) s
      else
        flush pending
          (if url_kept c then String c (encode_chars None s)
           else if code c <? 128 then percent_byte (code c) +:+ encode_chars None s
           else encode_chars (Some (code c mod 64)) s)
  end.
Definition urlencoding_simple (s : string) : string := encode_chars None s.

Section election.
Context {Url} `{UrlOps Url} (sha256_hex : list byte -> string).

Definition relay_candidate_port (node : json) : option Z :=
  match jget node "relay_accept_port" with
  | None => Some 9485
  | Some value => let! port := as_u64 value in if (port <=? u16_max) && negb (port =? 0) then Some port else None
  end.
Definition relay_candidate_host (node : json) : option string :=
  let! endpoint := get_str node "endpoint" in
  let! (_, rest) := split_str "://" endpoint in
  let authority := str_until "/?#" rest in
  if str_is_empty authority || char_in "@" authority then None
  else
    let! url := url_parse endpoint in
    if negb (str_in (url_scheme url) ["http"; "https"]) || negb (str_is_empty (url_username url)) || is_some (url_password url) then None
    else
      let! host := url_host_str url in
      if str_is_empty host then None
      else Some (if char_in ":" host && negb (starts_with host "[") then "[" +:+ host +:+ "]" else host).
Definition relay_candidate (node_id : string) (n : json) : bool :=
  default false (get_bool n "relay_capable")
  && is_some_and (get_str n "node_id") (fun id => negb (str_is_empty (trim id)) && (id <>? node_id))
  && is_some (relay_candidate_port n) && is_some (relay_candidate_host n).
Definition relay_score (node_id : string) (n : json) : Z * string :=
  let load := default (f64_of_Z 0) (jget n "load" ≫= as_f64) in
  (f64_as_u64 (f64_mul load (f64_of_Z 1000000)), sha256_hex (str_bytes (node_id +:+ ":" +:+ default empty_str (get_str n "node_id")))).
Definition elect_candidate (node_id : string) (data : json) : option (string * Z) :=
  match filter (fun n => relay_candidate node_id n = true) (default [] (jget data "nodes" ≫= as_array)) with
  | [] => None
  | n :: rest =>
      let elected := min_by (fun a b => score_ltb (relay_score node_id a) (relay_score node_id b)) n rest in
      let! host := relay_candidate_host elected in
      let! port := relay_candidate_port elected in
      Some (host, port)
  end.
Definition elect_url (directory_url intent : string) : string :=
  trim_end_char "/" directory_url +:+ "/v1/discover?intent=" +:+ urlencoding_simple intent +:+ "&relay_capable=true".
(** [fetched] is the status and the parsed body of the directory's answer. *)
Definition auto_elect_relay (fetched : string -> option (Z * option json)) (directory_url intent node_id : string) : option (string * Z) :=
  let! (status, body) := fetched (elect_url directory_url intent) in
  if negb (is_success status) then None else let! data := body in elect_candidate node_id data.

(** The elected relay is a relay-capable node of the answer, not the asking node,
    at a plain HTTP address and a nonzero port, and none of these has a lower
    load or, at the same load, a lower hash; where there is one, one is elected. *)
Lemma elect_candidate_spec (node_id : string) (data : json) (nodes := default [] (jget data "nodes" ≫= as_array)) :
  match elect_candidate node_id data with
  | Some (host, port) => exists n, n ∈ nodes /\ relay_candidate node_id n = true
      /\ relay_candidate_host n = Some host /\ relay_candidate_port n = Some port /\ port <> 0 /\ port <= u16_max
      /\ get_str n "node_id" <> Some node_id
      /\ forall m, m ∈ nodes -> relay_candidate node_id m = true -> score_ltb (relay_score node_id m) (relay_score node_id n) = false
  | None => forall m, m ∈ nodes -> relay_candidate node_id m = false
  end.
Proof.
  unfold elect_candidate. fold nodes.
  assert (forall n, n ∈ filter (fun n => relay_candidate node_id n = true) nodes <-> relay_candidate node_id n = true /\ n ∈ nodes) as Hin
    by (intros n; by rewrite list_elem_of_filter).
  destruct (filter (fun n => relay_candidate node_id n = true) nodes) as [|n rest].
  { intros m Hm. destruct (relay_candidate node_id m) eqn:E; [|done]. exfalso. assert (m ∈ @nil json) as []%elem_of_nil. by apply Hin. }
  destruct (min_by_spec (relay_score node_id) n rest) as [He Hle].
  set (e := min_by _ n rest) in *. apply Hin in He as [Hc He].
  pose proof Hc as Hc'. unfold relay_candidate in Hc'. rewrite !andb_true_iff in Hc'. destruct Hc' as [[[_ Hid] Hp] Hh].
  destruct (relay_candidate_host e) as [host|] eqn:Eh; [|done]. destruct (relay_candidate_port e) as [port|] eqn:Ep; [|done].
  cbn [mbind option_bind]. exists e. split_and!; try done.
  - unfold relay_candidate_port in Ep. destruct (jget e "relay_accept_port") as [v|]; [|by injection Ep as <-].
    destruct (as_u64 v) as [z|] eqn:Ez; [|done]. cbn [mbind option_bind] in Ep.
    destruct ((z <=? u16_max) && negb (z =? 0)) eqn:Eb; [|done]. injection Ep as <-. lia.
  - unfold relay_candidate_port in Ep. destruct (jget e "relay_accept_port") as [v|]; [|by injection Ep as <-].
    destruct (as_u64 v) as [z|] eqn:Ez; [|done]. cbn [mbind option_bind] in Ep.
    destruct ((z <=? u16_max) && negb (z =? 0)) eqn:Eb; [|done]. injection Ep as <-. lia.
  - intros E. rewrite E in Hid. simpl in Hid. rewrite andb_true_iff in Hid. destruct Hid as [_ Hid]. by rewrite String.eqb_refl in Hid.
  - intros m Hm Hmc. apply Hle. by apply Hin.
Qed.
End election.

Lemma retry_delay_bounds attempt : 30 <= tunnel_dead_retry_delay attempt <= 300.
Proof.
  unfold tunnel_dead_retry_delay, TUNNEL_DEAD_RETRY_INITIAL, TUNNEL_DEAD_RETRY_MAX. rewrite Z.shiftl_1_l.
  set (k := Z.min _ 4). assert (0 <= k <= 4) as Hk by (unfold k; lia).
  pose proof (Z.pow_le_mono_r 2 0 k ltac:(lia) ltac:(lia)). change (2 ^ 0) with 1 in *. lia.
Qed.
Lemma find_available_port_spec bindable host start max_tries (p := find_available_port bindable host start max_tries) :
  0 <= start <= u16_max ->
  p = start \/ (start <= p <= u16_max /\ bindable (fmt_bind_addr host p) = true).
Proof.
  intros Hs. subst p. unfold find_available_port.
  enough (forall n offset, 0 <= offset -> let p := scan_ports bindable host start offset n in
    p = start \/ (start <= p <= u16_max /\ bindable (fmt_bind_addr host p) = true)) as H by (apply H; lia).
  induction n as [|n IH]; intros offset Ho; simpl; [by left|].
  destruct (bindable _) eqn:E; [right; split; [lia | done]|]. apply IH. lia.
Qed.
