(* ===== verification/Serve.v ===== *)
(** * Serving a node

    [src/bin/iicp_node.rs], [run_serve] and [register_before_serving]: from the
    options of [ServeOptions.v] to a listening node, over the effects that the
    function asks for.  What those effects do (address detection, tunnels, the
    lock, the node's own protocol of [NodeRuntime.v]) is left to them; the order
    and the conditions are here. *)

From S2P Require Import Prelude Program Text Chars Json ClientTypes ClientEffects Membership RuntimeConfig PeerManager Capability NodeRuntime ServeOptions Reachability.

Inductive serve_action :=
| AllowCipWorker
| LoadSaved (name : string)
| SavedCredential (node name : string)
| ResolveDirectory (mode : OperatingMode) (explicit authority : option string) (allow_public_fallback : bool)
| LoadOperator
| StartProxy (directory : string) (region : option string) (context : option RestrictedDirectoryContext)
| ProbeModels (url key : string)
| NewNodeId
| AcquireLock (node_id : string) (force : bool)
| FreePort (host : string) (start : Z)
| OpenPinhole (endpoint : string) (port : Z)
| AdmitPeers (bundle : RestrictedPeerBundle) (node_id : string)
| DetectFlavor (url key backend : string)
| IssueDelegation (node_id : string)
| SignManifest (path : string)
| ConfigDir
| StartNode (cfg : NodeConfig) (token : option string)
| HealthPath (node : string)
| DetectNat (host : string) (port : Z) (endpoint probe : option string)
| TryTunnel (port : Z) (forced : bool)
| ElectRelay (directory intent node_id : string)
| SetEndpoint (url : string)
| SetRelay (endpoint : string)
| SetRelayRequired (required : bool)
| WatchTunnel (url : string)
| BindProbe (address : string)
| EnableNative (endpoint : string)
| Register
| SaveRegistered (node token : string)
| Wait (seconds : Z)
| StartUpdater
| Listen (bind : string) (token : option string)
| CloseTunnel
| RevokePinhole
| Deregister (token : string).

(** The operator identity: whether a key backs it, whether its seed is sealed,
    and what the node advertises of it. *)
Record OperatorState := mkOperatorState {
  os_key_backed : bool;
  os_encrypted : bool;
  os_display_name : string;
  os_created_at : string;
  os_integrity_hash : string
}.
(** The directory found, and whether it came from the local network. *)
Record directory_resolution := mkResolution { dr_endpoint : string; dr_mdns : bool }.
Definition serve_answer (a : serve_action) : Type :=
  match a with
  | LoadSaved _ => result (option SavedNode) string
  | SavedCredential _ _ => result (option string) string
  | ResolveDirectory _ _ _ _ => result (option directory_resolution) string
  | LoadOperator => option OperatorState
  | ProbeModels _ _ => list string
  | NewNodeId | DetectFlavor _ _ _ => string
  | AcquireLock _ _ => option string
  | FreePort _ _ => Z
  | OpenPinhole _ _ => PinholeOpenResult
  | AdmitPeers _ _ => result PeerAdmissionMode MembershipRefusal
  | IssueDelegation _ => option json
  | SignManifest _ => result json string
  | ConfigDir => result string string
  | HealthPath _ => option string
  | DetectNat _ _ _ _ => NatProfile
  | TryTunnel _ _ => result string string
  | ElectRelay _ _ _ => option (string * Z)
  | BindProbe _ => option string
  | Register => result string string
  | SaveRegistered _ _ => option string
  | Listen _ _ => option string
  | Deregister _ => option string
  | _ => unit
  end.
Notation vprog := (prog serve_answer).

Inductive serve_outcome :=
| Stopped (error : option string)
| Refused (error : string)
| Ended (code : Z)
| Panicked.
(** A step that may end the function. *)
Definition step_bind {A R} (p : vprog (A + serve_outcome)) (k : A -> vprog (R + serve_outcome)) : vprog (R + serve_outcome) :=
  run! r := p in match r with inl v => k v | inr o => Ret (inr o) end.
Notation "'srv!' x := p 'in' k" := (step_bind p (fun x => k))
  (at level 200, x pattern, p at level 100, k at level 200) : iicp_scope.
Notation "'ack!' x := a 'in' k" := (Act a (fun x => k))
  (at level 200, x pattern, a at level 100, k at level 200) : iicp_scope.
Definition done {A} (v : A) : vprog (A + serve_outcome) := Ret (inl v).
Definition refuse {A} (e : string) : vprog (A + serve_outcome) := Ret (inr (Refused e)).
Definition act (a : serve_action) : vprog (serve_answer a + serve_outcome) := Act a (fun r => Ret (inl r)).
(** Do it where it applies. *)
Definition when (b : bool) (p : vprog (unit + serve_outcome)) : vprog (unit + serve_outcome) := if b then p else done tt.

Definition BACKEND_TYPES : list string := ["openai_compat"; "vllm"; "llamacpp"; "meshllm"; "anthropic"].
Definition TUNNEL_DEAD_EXIT_CODE : Z := 75.

Section serve.
Context (to_lowercase : string -> string) (env : string -> option string).
Notation private := (endpoint_is_local_or_private to_lowercase).

(** [auto_update_enabled] of [src/updater.rs], on Unix *)
Definition auto_update_enabled : bool :=
  negb (str_in (to_lowercase (trim (env_text env "IICP_AUTO_UPDATE" "1"))) ["0"; "false"; "no"; "off"]).

(** ** Preparing *)

Definition load_saved_node (o : ServeOpts) : vprog ((ServeOpts * option string) + serve_outcome) :=
  if str_is_empty (o ONode) then done (o, None)
  else
    srv! loaded := act (LoadSaved (o ONode)) in
    match loaded with
    | Err e => refuse e
    | Ok None => refuse ("no saved config at ~/.iicp/nodes/" +:+ o ONode +:+ ".json. Run `iicp-node init` first.")
    | Ok (Some saved) =>
        srv! credential := act (SavedCredential (o ONode) "node_token") in
        match credential with
        | Err e => refuse e
        | Ok token => done (set_opt ODirectoryExplicit true (apply_saved_node saved o), token)
        end
    end.
Definition check_profiles (o : ServeOpts) : vprog (ServeOpts + serve_outcome) :=
  match o OReceiptProfiles with
  | None => done o
  | Some values =>
      match resolve_receipt_profiles values with
      | Ok values => done (set_opt OReceiptProfiles (Some values) o)
      | Err (UnsupportedProfile v) => refuse ("unsupported receipt profile: " +:+ v +:+ ". Supported: consumer_cosignature_v1")
      | Err _ => refuse empty_str
      end
  end.
Definition discover_directory (o : ServeOpts) : vprog (ServeOpts + serve_outcome) :=
  if negb (o OLocalDirectoryDiscovery) then done o
  else
    srv! r := act (ResolveDirectory (o OOperatingMode) (if o ODirectoryExplicit then Some (o ODirectoryUrl) else None)
                     (o ODirectoryAuthority) (o OAllowPublicFallback)) in
    match r with
    | Err e => refuse ("local directory resolution failed: " +:+ e)
    | Ok (Some d) => done (if dr_mdns d then set_opt ODirectoryUrl (dr_endpoint d) o else o)
    | Ok None =>
        if negb (bool_decide (o OOperatingMode = RuntimeConfig.Public))
        then refuse "no trusted local directory candidate and fallback is forbidden" else done o
    end.
Definition operator_input (o : ServeOpts) (operator : option OperatorState) : ManagedOperatorInput :=
  mkOperatorInput (to_lowercase (trim (env_text env "IICP_OPERATOR_PROFILE" "convenience")))
    (is_some_and operator os_key_backed) (is_some_and operator (fun s => os_key_backed s && os_encrypted s))
    auto_update_enabled (env_bool env "IICP_MANAGED_UPDATE_AUTHENTICATED") (env_bool env "IICP_MANAGED_ROLLBACK_VERIFIED")
    (o OAutoDetectNat && negb (env_bool env "IICP_SKIP_UPNP")) (default true (o OTunnel))
    (env_bool env "IICP_MANAGED_UPNP_APPROVED") (env_bool env "IICP_MANAGED_TUNNEL_APPROVED").
Definition with_region (region : string) : option string := if str_is_empty region then None else Some region.
Definition default_backend (o : ServeOpts) : ServeOpts :=
  if negb (str_is_empty (o OBackendUrl)) then o
  else set_opt OBackendUrl
         (if o OBackendType ==? "anthropic" then "https://api.anthropic.com"
          else if o OBackendType ==? "meshllm" then "http://localhost:9337/v1" else "http://localhost:11434") o.
Definition probed (o : ServeOpts) (models : list string) : list string := filter_public_backend_models models [] (Some (o OBackendType)).
Definition select_model (o : ServeOpts) : vprog (ServeOpts + serve_outcome) :=
  srv! o :=
    (if str_is_empty (o OModel) && negb (str_is_empty (o OBackendUrl)) then
       srv! models := act (ProbeModels (o OBackendUrl) (o OBackendApiKey)) in
       let models := probed o models in
       if (o OBackendType ==? "meshllm") && (1 <? zlen models)
       then refuse ("MeshLLM advertises multiple models; select one with --model: " +:+ str_join ", " models)
       else done (match models with first :: _ => set_opt OModel first o | [] => o end)
     else done o) in
  if str_is_empty (o OModel)
  then refuse (if negb (str_is_empty (o ONode))
               then "saved node '" +:+ o ONode +:+ "' has no model set, and the backend " +:+ o OBackendUrl
                    +:+ " advertised none. Set --model NAME or re-run `iicp-node init`."
               else "--model NAME or --node NAME required: no model given and backend " +:+ o OBackendUrl
                    +:+ " advertised none. Pass --model NAME, load a saved node with --node NAME, or check the backend is running (e.g. `ollama pull qwen2.5:0.5b`).")
  else if (o OBackendType ==? "meshllm") && (o OModel ==? "mesh") && negb (o OExperimental)
  then refuse "MeshLLM model 'mesh' is experimental; pass --experimental explicitly to enable it."
  else if str_is_empty (o OBackendUrl) then refuse "backend URL is empty — pass --backend-url URL or $IICP_BACKEND_URL"
  else if negb (str_in (o OBackendType) BACKEND_TYPES) then refuse (quoted "--backend-type must be one of ['openai_compat', 'vllm', 'llamacpp', 'meshllm', 'anthropic']")
  else done o.
(** [String::truncate(36)] panics inside a character. *)
Definition truncate_36 (s : string) : option string :=
  if is_some_and (String.get 36 s) inner_byte then None else Some (str_take 36 s).
Definition name_node (o : ServeOpts) : vprog (ServeOpts + serve_outcome) :=
  srv! id := (if str_is_empty (o ONodeId) then act NewNodeId else done (o ONodeId)) in
  match truncate_36 id with
  | None => Ret (inr Panicked)
  | Some id => done (set_opt ONodeId id o)
  end.
Definition choose_port (o : ServeOpts) : vprog (ServeOpts + serve_outcome) :=
  if negb (str_is_empty (o OPublicEndpoint)) then done o
  else
    srv! port := act (FreePort (o OHost) (o OPort)) in
    done (set_opt OPublicEndpoint ("http://localhost:" +:+ pretty port) (set_opt OPort port o)).
(** The IPv6 pinhole is tried for a bracketed endpoint wherever address detection is off. *)
Definition first_pinhole (o : ServeOpts) : vprog ((ServeOpts * option PinholeOpenResult) + serve_outcome) :=
  if negb (o OAutoDetectNat) && char_in "[" (o OPublicEndpoint) then
    srv! r := act (OpenPinhole (o OPublicEndpoint) (o OPort)) in
    done (match ph_rewritten_endpoint r with Some e => set_opt OPublicEndpoint e o | None => o end, Some r)
  else done (o, None).

Definition tier0_metadata (p : PinholeOpenResult) : json :=
  mk_obj [("tier", u64_json 0); ("detection_log_tail", from_option JString JNull (last (ph_log p)))].
(** Peers admitted from the bundle are checked against the directory of the options. *)
Definition with_context (context : option RestrictedDirectoryContext) (m : PeerAdmissionMode) : PeerAdmissionMode :=
  match m with
  | PeerManager.Restricted r => PeerManager.Restricted (mkRestrictedAdmission (ra_policy r) (ra_directory_membership_bearer r) context (ra_local r))
  | PeerManager.Public => PeerManager.Public
  end.
(** [IicpNode] takes over the options. *)
Definition serve_config (o : ServeOpts) (discovered : list string) (admission : PeerAdmissionMode) (flavor : string)
    (operator : option OperatorState) (delegation manifest : option json) (log_dir : string) (hmac_key : option string)
    (tier0 : option PinholeOpenResult) : NodeConfig :=
  let delegated (f : OperatorState -> string) := if is_some delegation then (f <$> operator) ≫= with_region else None in
  let meshllm := o OBackendType ==? "meshllm" in
  mkNodeConfig (o ONodeId) (o OPublicEndpoint) (o OIntent) (Some (o OModel)) (Some flavor) (with_region (o ORegion))
    (base.filter (fun m => (m <>? o OModel) && (negb meshllm || o OExperimental || (m <>? "mesh")) = true) discovered)
    (o ODirectoryUrl) (if is_some (o ORestrictedPeerBundle) then o ORestrictedDirectoryContext else None) 5000 (o OMaxConcurrent) 10000 8192
    None (const "direct" <$> tier0) (const "unknown" <$> tier0) (tier0_metadata <$> tier0) None None None
    (default empty_str hmac_key) [] false (o OEnableMesh) (with_context (o ORestrictedDirectoryContext) admission)
    (o ORelayCapable) (if o ORelayCapable then o ORelayAcceptPort else 9485)
    (if str_is_empty (o ORelayWorkerEndpoint) then None else Some (o ORelayWorkerEndpoint))
    (env "IICP_RELAY_BIND_TICKET_PUBLIC_KEY" ≫= with_region) (opt_str_is (env "IICP_RELAY_REQUIRE_BIND_TICKET") "1") (Some log_dir)
    delegation (delegated os_display_name) (if is_some delegation then os_created_at <$> operator else None) (delegated os_integrity_hash)
    manifest (Some (o OBackendUrl)) (if str_is_empty (o OBackendApiKey) then None else Some (o OBackendApiKey))
    (if meshllm && negb (o OExperimental) then ["mesh"] else []) (default [] (o OReceiptProfiles)) [].
Definition configure_node (o : ServeOpts) (operator : option OperatorState) (token : option string) (tier0 : option PinholeOpenResult)
    : vprog (unit + serve_outcome) :=
  srv! models := act (ProbeModels (o OBackendUrl) (o OBackendApiKey)) in
  srv! admission := match o ORestrictedPeerBundle with
            | None => done PeerManager.Public
            | Some bundle =>
                srv! r := act (AdmitPeers bundle (o ONodeId)) in
                match r with Err reason => refuse (Membership.refusal_code reason) | Ok m => done m end
            end in
  srv! flavor := act (DetectFlavor (o OBackendUrl) (o OBackendApiKey) (o OBackendType)) in
  srv! delegation := (if is_some_and operator os_key_backed then act (IssueDelegation (o ONodeId)) else done None) in
  srv! manifest :=
    (if str_is_empty (o OPolicyManifest) then done None
     else if is_none delegation
     then refuse "--policy-manifest requires a key-backed operator identity; run `iicp-node init` first"
     else srv! r := act (SignManifest (o OPolicyManifest)) in
          match r with Ok m => done (Some m) | Err e => refuse ("--policy-manifest: " +:+ e) end) in
  srv! logs := (match o OLogDir with
                | Some dir => done dir
                | None => srv! r := act ConfigDir in
                          done (match r with Ok dir => (if str_is_empty dir || is_some (strip_suffix "/" dir) then dir else dir +:+ "/") +:+ "logs" | Err _ => ".iicp/logs" end)
                end) in
  srv! key := (if str_is_empty (o ONode) then done None
               else srv! r := act (SavedCredential (o ONode) "node_hmac_key") in
                    match r with Ok k => done k | Err e => refuse e end) in
  srv! _ := act (StartNode (serve_config o (probed o models) admission flavor operator delegation manifest logs key
                              (if o OAutoDetectNat then None else tier0)) token) in
  if str_is_empty (o ONode) then done tt
  else srv! r := act (HealthPath (o ONode)) in match r with Some e => refuse e | None => done tt end.

(** ** Finding a route *)

Record route := mkRoute {
  rt_opts : ServeOpts;
  rt_tunnel : option string;
  rt_fallback_required : bool;
  rt_relay_selected : bool;
  rt_attempted : bool;
  rt_last_error : option string
}.
Definition no_route (o : ServeOpts) : route := mkRoute o None false false false None.
Definition tunnel_tried (forced : bool) (r : route) : vprog (route + serve_outcome) :=
  srv! t := act (TryTunnel (rt_opts r OPort) forced) in
  match t with
  | Ok url =>
      srv! _ := act (SetEndpoint url) in
      done (mkRoute (set_opt OPublicEndpoint url (rt_opts r)) (Some url) true (rt_relay_selected r) true (rt_last_error r))
  | Err e => done (mkRoute (rt_opts r) (rt_tunnel r) true (rt_relay_selected r) true (Some e))
  end.
Definition relay_tried (r : route) : vprog (route + serve_outcome) :=
  let o := rt_opts r in
  srv! elected := act (ElectRelay (o ODirectoryUrl) (o OIntent) (o ONodeId)) in
  match elected with
  | None => done r
  | Some (host, port) =>
      let endpoint := host +:+ ":" +:+ pretty port in
      srv! _ := act (SetRelay endpoint) in
      done (mkRoute (set_opt ORelayWorkerEndpoint endpoint o) (rt_tunnel r) (rt_fallback_required r) true (rt_attempted r) (rt_last_error r))
  end.
(** A step that succeeds ends the escalation; so does a relay step of a node that
    is itself a relay. *)
Fixpoint escalate (steps : list reach_step) (r : route) : vprog (route + serve_outcome) :=
  match steps with
  | [] => done r
  | StepTunnel :: steps =>
      srv! r := tunnel_tried false r in
      if is_some (rt_tunnel r) then done r else escalate steps r
  | StepRelay :: steps =>
      if relay_worker_fallback_allowed (rt_opts r ORelayCapable)
      then srv! r' := relay_tried r in
           if rt_relay_selected r' then done r' else escalate steps r'
      else done r
  | StepGossip :: steps => escalate steps r
  end.
Definition detect_route (o : ServeOpts) : vprog ((route * option NatProfile) + serve_outcome) :=
  if negb (o OAutoDetectNat) then done (no_route o, None)
  else
    let given (s : string) := if str_is_empty s then None else Some s in
    srv! profile := act (DetectNat (o OHost) (o OPort) (given (o OPublicEndpoint)) (given (o OExternalIpProbeUrl))) in
    let o := match nat_public_endpoint profile with Some e => set_opt OPublicEndpoint e o | None => o end in
    srv! r := escalate (plan_reachability (nat_tier profile) (negb (str_is_empty (o ORelayWorkerEndpoint)))
                          (negb (bool_decide (o OTunnel = Some false)))) (no_route o) in
    done (r, Some profile).
Definition forced_tunnel (r : route) : vprog (route + serve_outcome) :=
  if bool_decide (rt_opts r OTunnel = Some true) && is_none (rt_tunnel r) then tunnel_tried true r else done r.
Definition public_fallback (profile : option NatProfile) (pinhole : option PinholeOpenResult) (r : route) : vprog (route + serve_outcome) :=
  let o := rt_opts r in
  if bool_decide (o OTunnel = Some false) || is_some (rt_tunnel r) || negb (str_is_empty (o ORelayWorkerEndpoint)) || o OSkipRegistration
  then done r
  else
    match direct_tunnel_fallback_reason to_lowercase (o OPublicEndpoint) profile pinhole with
    | None => done r
    | Some _ =>
        srv! r := (if rt_attempted r
                   then done (mkRoute (rt_opts r) (rt_tunnel r) true (rt_relay_selected r) true (rt_last_error r))
                   else tunnel_tried false r) in
        if is_some (rt_tunnel r) || negb (str_is_empty (rt_opts r ORelayWorkerEndpoint)) then done r
        else if relay_worker_fallback_allowed (rt_opts r ORelayCapable) then relay_tried r else done r
    end.
(** Where a public route was needed and none was found, a supervised process ends
    itself, after the pause the tunnel asked for. *)
Definition unrecovered (r : route) : vprog (unit + serve_outcome) :=
  let o := rt_opts r in
  if rt_fallback_required r && is_none (rt_tunnel r) && str_is_empty (o ORelayWorkerEndpoint) && negb (o OSkipRegistration)
     && should_exit_for_unrecovered_public_fallback (tunnel_dead_policy_from_env env) (env_bool env "IICP_SUPERVISED")
  then
    srv! _ := match rt_last_error r ≫= public_fallback_retry_delay_hint with
              | Some delay => act (Wait delay)
              | None => done tt
              end in
    Ret (inr (Ended TUNNEL_DEAD_EXIT_CODE))
  else done tt.
Definition find_route (o : ServeOpts) (pinhole : option PinholeOpenResult) : vprog (route + serve_outcome) :=
  srv! p := detect_route o in
  srv! r := forced_tunnel p.1 in
  srv! r := public_fallback p.2 pinhole r in
  srv! _ := act (SetRelayRequired (relay_fallback_requires_binding (rt_relay_selected r) (is_some (rt_tunnel r)))) in
  srv! _ := unrecovered r in
  srv! _ := match rt_tunnel r with Some url => act (WatchTunnel url) | None => done tt end in
  done r.

(** ** Registering and listening *)

(** The [attempt]-th, which [retries] more may follow. *)
Fixpoint register_attempts (node : string) (retries : nat) (attempt : Z) : vprog (string + serve_outcome) :=
  srv! r := act Register in
  match r with
  | Ok token =>
      srv! _ := (if str_is_empty node then done tt
                 else srv! failed := act (SaveRegistered node token) in
                      match failed with
                      | Some e => refuse e
                      | None => done tt
                      end) in
      done token
  | Err _ =>
      match retries with
      | O => done empty_str
      | S retries => srv! _ := act (Wait (2 ^ attempt)) in register_attempts node retries (attempt + 1)
      end
  end.
Definition register_before_serving (node : string) (dynamic_public_route : bool) : vprog (string + serve_outcome) :=
  register_attempts node (if dynamic_public_route then 0 else 2) 1.

(** Without a routable endpoint or a relay there is nothing to register. *)
Definition skip_unroutable (o : ServeOpts) : ServeOpts :=
  if private (o OPublicEndpoint) && str_is_empty (o ORelayWorkerEndpoint) && negb (o OSkipRegistration)
  then set_opt OSkipRegistration true o else o.
Definition probe_bind (o : ServeOpts) : vprog (unit + serve_outcome) :=
  if o OSkipRegistration then done tt
  else srv! failed := act (BindProbe (fmt_bind_addr (o OHost) (o OPort))) in
       match failed with Some e => refuse e | None => done tt end.
(** The value of a switch that must be clear. *)
Definition experimental_native_tcp_from_env : option bool :=
  match env "IICP_ENABLE_EXPERIMENTAL_NATIVE_TCP" with
  | None => Some false
  | Some raw =>
      let v := to_ascii_lowercase (trim raw) in
      if str_in v ["1"; "true"; "yes"] then Some true else if str_in v ["0"; "false"; "no"] then Some false else None
  end.
(** [derive_native_endpoint] of [src/node.rs] *)
Definition derive_native_endpoint (endpoint : string) : option string :=
  let! rest := strip_prefix "http://" endpoint in
  let authority := str_until "/" rest in
  if str_is_empty authority then None else Some ("iicp://" +:+ authority).
Definition native_transport (o : ServeOpts) : vprog (unit + serve_outcome) :=
  match experimental_native_tcp_from_env with
  | None => refuse "IICP_ENABLE_EXPERIMENTAL_NATIVE_TCP must be one of 1/true/yes or 0/false/no"
  | Some false => done tt
  | Some true => match derive_native_endpoint (o OPublicEndpoint) with Some e => act (EnableNative e) | None => done tt end
  end.
Definition serve_node (r : route) : vprog (unit + serve_outcome) :=
  let o := skip_unroutable (rt_opts r) in
  srv! _ := probe_bind o in
  srv! _ := native_transport o in
  srv! token := (if o OSkipRegistration then done None
                 else srv! t := register_before_serving (o ONode) (is_some (rt_tunnel r)) in done (Some t)) in
  srv! _ := when auto_update_enabled (act StartUpdater) in
  srv! served := act (Listen (fmt_bind_addr (o OHost) (o OPort)) token) in
  srv! _ := when (is_some (rt_tunnel r)) (act CloseTunnel) in
  srv! _ := act RevokePinhole in
  srv! _ := match token with Some t => srv! _ := act (Deregister t) in done tt | None => done tt end in
  Ret (inr (Stopped served)).

Definition run_serve (o : ServeOpts) : vprog (unit + serve_outcome) :=
  srv! _ := when (env_bool env "IICP_CIP_ALLOW_WORKER") (act AllowCipWorker) in
  srv! p := load_saved_node o in
  srv! o := check_profiles p.1 in
  srv! o := discover_directory o in
  srv! operator := act LoadOperator in
  let decision := evaluate_managed_operator (operator_input o operator) in
  if negb decision.1 then refuse ("managed operator startup rejected: " +:+ decision.2)
  else
    srv! _ := when (o OWithProxy) (act (StartProxy (o ODirectoryUrl) (with_region (o ORegion)) (o ORestrictedDirectoryContext))) in
    srv! o := select_model (default_backend o) in
    srv! o := name_node o in
    srv! locked := act (AcquireLock (o ONodeId) (o OForce)) in
    match locked with
    | Some e => refuse e
    | None =>
        srv! o := choose_port o in
        srv! q := first_pinhole o in
        srv! _ := configure_node q.1 operator p.2 q.2 in
        srv! r := find_route q.1 q.2 in
        serve_node r
    end.
End serve.

(** ** What a run may do *)

Notation strace := (list (step serve_answer)).
Definition did (s : strace) (a : serve_action) (r : serve_answer a) : Prop := Did (resp:=serve_answer) a r ∈ s.
(** What it has to show to the network. *)
Definition exposing (a : serve_action) : Prop :=
  match a with
  | FreePort _ _ | OpenPinhole _ _ | AdmitPeers _ _ | StartNode _ _ | DetectNat _ _ _ _ | TryTunnel _ _ | ElectRelay _ _ _ | SetEndpoint _
  | SetRelay _ | SetRelayRequired _ | WatchTunnel _ | BindProbe _ | EnableNative _ | Register | SaveRegistered _ _ | StartUpdater
  | Listen _ _ | CloseTunnel | RevokePinhole | Deregister _ => True
  | _ => False
  end.
Definition after_start (a : serve_action) : Prop :=
  match a with
  | DetectNat _ _ _ _ | TryTunnel _ _ | ElectRelay _ _ _ | SetEndpoint _ | SetRelay _ | Register | Listen _ _ | Deregister _ | StartUpdater => True
  | _ => False
  end.

Section run.
Context (to_lowercase : string -> string) (env : string -> option string) (o0 : ServeOpts).

(** The options with those of the saved node the run asked for. *)
Definition effective (s : strace) (o : ServeOpts) : Prop :=
  if str_is_empty (o0 ONode) then o = o0
  else exists saved, did s (LoadSaved (o0 ONode)) (Ok (Some saved)) /\ o = apply_saved_node saved o0.
(** The node's identifier: the one of the options, or else the drawn one, cut to 36 bytes. *)
Definition named (s : strace) (id : string) : Prop :=
  exists o, effective s o /\
    if str_is_empty (o ONodeId) then exists full, did s NewNodeId full /\ truncate_36 full = Some id
    else truncate_36 (o ONodeId) = Some id.
(** The lock of this identifier is held. *)
Definition locked (s : strace) (id : string) : Prop := named s id /\ did s (AcquireLock id (o0 OForce)) None.
(** Where the node listens: the host and port of the options, or a free port from
    there on where no public endpoint is given. *)
Definition at_port (s : strace) (port : Z) : Prop :=
  exists o, effective s o /\
    if str_is_empty (o OPublicEndpoint) then did s (FreePort (o OHost) (o OPort)) port else port = o OPort.
Definition own_address (s : strace) (address : string) : Prop :=
  exists o port, effective s o /\ at_port s port /\ address = fmt_bind_addr (o OHost) port.
(** ... and could bind. *)
Definition port_free (s : strace) (address : string) : Prop := own_address s address /\ did s (BindProbe address) None.
Definition node_started (s : strace) : Prop := exists cfg token r, locked s (nc_node_id cfg) /\ did s (StartNode cfg token) r.

(** Allowed on a local-only node: nothing that reaches out, but for the pinhole
    of a bracketed endpoint, a co-hosted proxy and the updater. *)
Definition local_ok (a : serve_action) : Prop :=
  match a with
  | ResolveDirectory _ _ _ _ | DetectNat _ _ _ _ | TryTunnel _ _ | ElectRelay _ _ _ | SetEndpoint _ | SetRelay _ | WatchTunnel _
  | BindProbe _ | Register | SaveRegistered _ _ | CloseTunnel | Deregister _ => False
  | SetRelayRequired required => required = false
  | OpenPinhole endpoint _ => char_in "[" endpoint = true
  | StartProxy _ _ _ => o0 OWithProxy = true
  | StartUpdater => auto_update_enabled to_lowercase env = true
  | Listen _ token => token = None
  | _ => True
  end.
Definition serve_ok (s : strace) (a : serve_action) : Prop :=
  (exposing a -> exists id, locked s id)
  /\ (after_start a -> node_started s)
  /\ (local_opts o0 -> local_ok a)
  /\ match a with
     | AcquireLock id force => named s id /\ force = o0 OForce
     | StartNode cfg _ => locked s (nc_node_id cfg)
     | AdmitPeers _ id | IssueDelegation id => locked s id
     | OpenPinhole _ port => at_port s port
     | DetectNat host port _ _ => own_address s (fmt_bind_addr host port) /\ at_port s port
     | TryTunnel port forced => at_port s port /\ o0 OTunnel <> Some false /\ (forced = true -> o0 OTunnel = Some true)
     | ElectRelay _ _ id => locked s id /\ o0 ORelayCapable = false
     | BindProbe address => own_address s address
     | Register => exists address, port_free s address
     | Listen address token =>
         own_address s address /\
         (forall t, token = Some t -> port_free s address /\ (t = empty_str \/ did s Register (Ok t)))
     | Deregister token => exists address r, did s (Listen address (Some token)) r
     | _ => True
     end.

(** The options change, but not in what confines the node. *)
Definition keeps (o : ServeOpts) : Prop :=
  o OTunnel = o0 OTunnel /\ o ORelayCapable = o0 ORelayCapable /\ o OWithProxy = o0 OWithProxy /\ (local_opts o0 -> local_opts o)
  /\ o OForce = o0 OForce.
Definition movable : list field :=
  [OReceiptProfiles; ODirectoryUrl; OBackendUrl; OModel; ONodeId; OPublicEndpoint; OPort; ODirectoryExplicit].
Lemma keeps_set f v o : f ∈ movable -> keeps o -> keeps (set_opt f v o).
Proof.
  intros Hf. unfold keeps, local_opts.
  repeat (apply elem_of_cons in Hf as [->|Hf]; [by opt_simpl|]). by apply elem_of_nil in Hf.
Qed.
Lemma keeps_saved saved o : keeps o -> keeps (apply_saved_node saved o).
Proof.
  intros (Ht & Hr & Hp & Hl & Hf). unfold keeps.
  assert (apply_saved_node saved o ORelayCapable = o ORelayCapable /\ apply_saved_node saved o OWithProxy = o OWithProxy
    /\ apply_saved_node saved o OForce = o OForce) as (-> & -> & ->) by (split_and!; apply saved_keeps; set_solver).
  rewrite saved_keeps by set_solver. split_and!; try done. intros H. specialize (Hl H). unfold local_opts in *. destruct_and! Hl.
  split_and!; try (by rewrite saved_keeps by set_solver). by apply saved_keeps_nat.
Qed.

(** What the phases leave of the effective options [o1]: everything that names and
    places the node; then with its identifier; then with its port. *)
Definition early (o1 o : ServeOpts) : Prop :=
  keeps o /\ o OHost = o1 OHost /\ o OPort = o1 OPort /\ o OPublicEndpoint = o1 OPublicEndpoint /\ o ONodeId = o1 ONodeId.
Definition fixed (o1 : ServeOpts) (id : string) (o : ServeOpts) : Prop :=
  keeps o /\ o OHost = o1 OHost /\ o OPort = o1 OPort /\ o OPublicEndpoint = o1 OPublicEndpoint /\ o ONodeId = id.
Definition placed (o1 : ServeOpts) (id : string) (port : Z) (o : ServeOpts) : Prop :=
  keeps o /\ o OHost = o1 OHost /\ o OPort = port /\ o ONodeId = id.

Definition quiet_fields : list field := [OReceiptProfiles; ODirectoryUrl; OBackendUrl; OModel; ODirectoryExplicit].
Lemma early_set f v o1 o : f ∈ quiet_fields -> early o1 o -> early o1 (set_opt f v o).
Proof.
  intros Hf (Hk & H). split; [apply keeps_set; [unfold quiet_fields, movable in *; set_solver|done]|].
  repeat (apply elem_of_cons in Hf as [->|Hf]; [by opt_simpl|]). by apply elem_of_nil in Hf.
Qed.

Definition on_inl {A} (mid : strace -> A -> Prop) (s : strace) (r : A + serve_outcome) : Prop :=
  match r with inl v => mid s v | inr _ => True end.
Lemma along_srv {A R} (mid : strace -> A -> Prop) (fin : strace -> R -> Prop) s (p : vprog (A + serve_outcome)) k :
  along log serve_ok (on_inl mid) s p ->
  (forall s' v, mid s' v -> s `prefix_of` s' -> along log serve_ok (on_inl fin) s' (k v)) ->
  along log serve_ok (on_inl fin) s (step_bind p k).
Proof.
  intros Hp Hk. eapply along_bind; [by apply along_prefix|]. intros s' [v|out] [H Hpre]; [by apply Hk | done].
Qed.
Lemma along_act {R} (fin : strace -> R -> Prop) s a (k : serve_answer a -> vprog (R + serve_outcome)) :
  serve_ok s a -> (forall r, along log serve_ok (on_inl fin) (log s a r) (k r)) -> along log serve_ok (on_inl fin) s (step_bind (act a) k).
Proof. intros Ha Hk. by split. Qed.
Lemma along_done {R} (fin : strace -> R -> Prop) s v : fin s v -> along log serve_ok (on_inl fin) s (done v).
Proof. done. Qed.
Lemma along_refuse {R} (fin : strace -> R -> Prop) s e : along log serve_ok (on_inl fin) s (refuse e).
Proof. done. Qed.
Lemma did_mono s s' a r : s `prefix_of` s' -> did s a r -> did s' a r.
Proof. apply prefix_elem. Qed.
Lemma effective_mono s s' o : s `prefix_of` s' -> effective s o -> effective s' o.
Proof. unfold effective. destruct (str_is_empty _); [done|]. intros Hp (v & H & ->). exists v. split; [by eapply did_mono | done]. Qed.
Lemma named_mono s s' id : s `prefix_of` s' -> named s id -> named s' id.
Proof.
  intros Hp (o & Ho & H). exists o. split; [by eapply effective_mono|]. destruct (str_is_empty _); [|done].
  destruct H as (full & Hd & Ht). exists full. split; [by eapply did_mono | done].
Qed.
Lemma locked_mono s s' id : s `prefix_of` s' -> locked s id -> locked s' id.
Proof. intros Hp [Hn Hd]. split; [by eapply named_mono | by eapply did_mono]. Qed.
Lemma at_port_mono s s' port : s `prefix_of` s' -> at_port s port -> at_port s' port.
Proof.
  intros Hp (o & Ho & H). exists o. split; [by eapply effective_mono|]. destruct (str_is_empty _); [by eapply did_mono | done].
Qed.
Lemma own_mono s s' address : s `prefix_of` s' -> own_address s address -> own_address s' address.
Proof. intros Hp (o & port & Ho & Ha & ->). exists o, port. split_and!; [by eapply effective_mono | by eapply at_port_mono | done]. Qed.
Lemma free_mono s s' address : s `prefix_of` s' -> port_free s address -> port_free s' address.
Proof. intros Hp [Ho Hd]. split; [by eapply own_mono | by eapply did_mono]. Qed.
Lemma started_mono s s' : s `prefix_of` s' -> node_started s -> node_started s'.
Proof. intros Hp (c & t & r & Hl & Hd). exists c, t, r. split; [by eapply locked_mono | by eapply did_mono]. Qed.
Lemma log_extends s a (r : serve_answer a) : s `prefix_of` log s a r.
Proof. by eexists. Qed.

(** ** Phase by phase *)

Notation goes_on mid := (along log serve_ok (on_inl mid)).
Ltac quiet := split_and!; try done; by intros; try done.

Lemma load_kept s : goes_on (fun s' p => exists o1, effective s' o1 /\ early o1 p.1) s (load_saved_node o0).
Proof.
  assert (keeps o0) as H0 by by split_and!.
  unfold load_saved_node. destruct (str_is_empty (o0 ONode)) eqn:En; [exists o0; split; [unfold effective; by rewrite En | by split_and!]|].
  apply along_act; [quiet|]. intros [[saved|]|]; [|done..]. apply along_act; [quiet|]. intros [token|]; [|done].
  exists (apply_saved_node saved o0). split.
  - unfold effective. rewrite En. exists saved. split; [|done]. unfold did, log. apply elem_of_app. left. apply elem_last.
  - cbn [fst]. apply early_set; [unfold quiet_fields; set_solver|]. split; [by apply keeps_saved | done].
Qed.
Lemma profiles_kept s o1 o : early o1 o -> goes_on (fun _ => early o1) s (check_profiles o).
Proof.
  intros Hk. unfold check_profiles. destruct (o OReceiptProfiles); [|done].
  destruct (resolve_receipt_profiles _) as [values|[]]; [|done..]. cbn. apply early_set; [unfold quiet_fields; set_solver | done].
Qed.
Lemma discover_kept s o1 o : early o1 o -> goes_on (fun _ => early o1) s (discover_directory o).
Proof.
  intros Hk. unfold discover_directory. destruct (o OLocalDirectoryDiscovery) eqn:Ed; cbn [negb]; [|done].
  apply along_act.
  { split_and!; try done. intros Hl. destruct Hk as ((_ & _ & _ & Hk & _) & _). specialize (Hk Hl). unfold local_opts in Hk. destruct_and! Hk. congruence. }
  intros [[d|]|]; [| |done].
  - cbn. destruct (dr_mdns d); [apply early_set; [unfold quiet_fields; set_solver|]; done | done].
  - by destruct (negb _).
Qed.
Lemma select_kept s o1 o : early o1 o -> goes_on (fun _ => early o1) s (select_model (default_backend o)).
Proof.
  intros Hk. assert (early o1 (default_backend o)) as Hb.
  { unfold default_backend. destruct (negb _); [done|]. apply early_set; [unfold quiet_fields; set_solver | done]. }
  unfold select_model. eapply along_srv with (mid := fun _ => early o1).
  - destruct (_ && _); [|done]. apply along_act; [quiet|]. intros models. destruct (_ && _); [done|].
    cbn. destruct (probed _ _); [done|]. apply early_set; [unfold quiet_fields; set_solver | done].
  - intros s' o' Ho _. repeat case_match; done.
Qed.
Lemma name_kept s o1 o :
  effective s o1 -> early o1 o -> goes_on (fun s' o' => exists id, fixed o1 id o' /\ named s' id) s (name_node o).
Proof.
  intros He (Hk & Hh & Hp & Hep & Hid). unfold name_node.
  eapply along_srv with (mid := fun s' full => forall id, truncate_36 full = Some id -> named s' id).
  - rewrite Hid. destruct (str_is_empty (o1 ONodeId)) eqn:En.
    + split; [quiet|]. intros full id Ht. exists o1. split; [eapply effective_mono; [apply log_extends | done]|]. rewrite En.
      exists full. split; [unfold did, log; apply elem_last | done].
    + intros id Ht. exists o1. split; [done|]. by rewrite En.
  - intros s' full Hn _. destruct (truncate_36 full) as [id|] eqn:Et; [|done]. exists id. split; [|by apply Hn].
    unfold fixed. opt_simpl. split_and!; [apply keeps_set; [unfold movable; set_solver | done] | done..].
Qed.
Lemma port_kept s o1 id o :
  effective s o1 -> locked s id -> fixed o1 id o ->
  goes_on (fun s' o' => exists port, placed o1 id port o' /\ at_port s' port) s (choose_port o).
Proof.
  intros He Hl (Hk & Hh & Hp & Hep & Hid). unfold choose_port. rewrite Hep. destruct (str_is_empty (o1 OPublicEndpoint)) eqn:En; cbn [negb].
  - apply along_act; [split_and!; try done; by exists id|]. intros port. exists port. split.
    + unfold placed. opt_simpl. split_and!; [|done..]. do 2 (apply keeps_set; [unfold movable; set_solver|]). done.
    + exists o1. split; [eapply effective_mono; [apply log_extends | done]|]. rewrite En, <- Hh, <- Hp. unfold did, log. apply elem_last.
  - exists (o OPort). split; [by split_and!|]. exists o1. split; [done|]. by rewrite En.
Qed.

(** What is known once the node has its name, its lock and its place. *)
Definition based (o1 : ServeOpts) (id : string) (port : Z) (s : strace) : Prop := effective s o1 /\ locked s id /\ at_port s port.
Lemma based_mono o1 id port s s' : s `prefix_of` s' -> based o1 id port s -> based o1 id port s'.
Proof. intros Hp (? & ? & ?). split_and!; [by eapply effective_mono | by eapply locked_mono | by eapply at_port_mono]. Qed.

Lemma pinhole_kept s o1 id port o : based o1 id port s -> placed o1 id port o -> goes_on (fun _ q => placed o1 id port q.1) s (first_pinhole o).
Proof.
  intros (He & Hl & Ha) Hk. pose proof Hk as (Hk' & Hh & Hp & Hid). unfold first_pinhole.
  destruct (negb (o OAutoDetectNat) && char_in "[" (o OPublicEndpoint)) eqn:E; [|done].
  apply andb_true_iff in E as [_ E]. apply along_act; [split_and!; try done; [by exists id | by rewrite Hp]|]. intros r. cbn.
  destruct (ph_rewritten_endpoint r); [|done]. unfold placed. opt_simpl. split_and!; [|done..]. apply keeps_set; [unfold movable; set_solver | done].
Qed.
Lemma configure_starts s o1 id port o operator token tier0 :
  locked s id -> placed o1 id port o -> goes_on (fun s' _ => node_started s') s (configure_node env o operator token tier0).
Proof.
  intros Hl (_ & _ & _ & Hid). unfold configure_node. apply along_act; [quiet|]. intros models.
  apply (locked_mono _ _ _ (log_extends s _ models)) in Hl. revert Hl. generalize (log s (ProbeModels (o OBackendUrl) (o OBackendApiKey)) models).
  clear s. intros s Hl.
  eapply along_srv with (mid := fun _ _ => True).
  { destruct (o ORestrictedPeerBundle); [|done]. apply along_act; [split_and!; try done; [by exists id | by rewrite Hid]|]. by intros [|]. }
  intros s1 admission _ H1. apply (locked_mono _ _ _ H1) in Hl. clear H1 s. apply along_act; [quiet|]. intros flavor.
  apply (locked_mono _ _ _ (log_extends s1 _ flavor)) in Hl. revert Hl. generalize (log s1 (DetectFlavor (o OBackendUrl) (o OBackendApiKey) (o OBackendType)) flavor).
  clear s1. intros s Hl.
  eapply along_srv with (mid := fun _ _ => True); [destruct (is_some_and _ _); [split; [split_and!; try done; by rewrite Hid | done] | done]|].
  intros s1 delegation _ H1. apply (locked_mono _ _ _ H1) in Hl. clear H1 s.
  eapply along_srv with (mid := fun _ _ => True).
  { destruct (str_is_empty (o OPolicyManifest)); [done|]. destruct (is_none delegation); [done|]. apply along_act; [quiet|]. by intros [|]. }
  intros s manifest _ H1. apply (locked_mono _ _ _ H1) in Hl. clear H1 s1.
  eapply along_srv with (mid := fun _ _ => True); [destruct (o OLogDir); [done|]; split; [quiet|]; done|].
  intros s1 logs _ H1. apply (locked_mono _ _ _ H1) in Hl. clear H1 s.
  eapply along_srv with (mid := fun _ _ => True).
  { destruct (str_is_empty (o ONode)); [done|]. apply along_act; [quiet|]. by intros [|]. }
  intros s key _ H1. apply (locked_mono _ _ _ H1) in Hl. clear H1 s1.
  assert (forall cfg : NodeConfig, nc_node_id cfg = id -> serve_ok s (StartNode cfg token)) as Hok.
  { intros cfg Hc. split_and!; try done; [by exists id | by rewrite Hc]. }
  apply along_act; [by apply Hok|]. intros r.
  assert (node_started (log s (StartNode (serve_config env o (probed o models) admission flavor operator delegation manifest logs key
            (if o OAutoDetectNat then None else tier0)) token) r)) as Hs.
  { eexists _, _, _. split; [eapply locked_mono; [apply log_extends|]|unfold did, log; apply elem_last]. cbn [nc_node_id serve_config]. by rewrite Hid. }
  destruct (str_is_empty (o ONode)); [done|]. apply along_act; [quiet|]. intros [e|]; [done|]. eapply started_mono; [apply log_extends | done].
Qed.

(** ** The route of a node that may be reached *)

Section reachable.
Hypothesis Hopen : ~ local_opts o0.
Context (o1 : ServeOpts) (id : string) (port : Z).

Definition up (s : strace) : Prop := based o1 id port s /\ node_started s.
Lemma up_mono s s' : s `prefix_of` s' -> up s -> up s'.
Proof. intros Hp [? ?]. split; [by eapply based_mono | by eapply started_mono]. Qed.
Lemma up_logged s a r : up s -> up (log s a r).
Proof. apply up_mono, log_extends. Qed.
Definition routed (s : strace) (r : route) : Prop := up s /\ placed o1 id port (rt_opts r).
Lemma routed_address s o : up s -> placed o1 id port o -> own_address s (fmt_bind_addr (o OHost) (o OPort)).
Proof. intros [(He & _ & Ha) _] (_ & -> & -> & _). by exists o1, port. Qed.
Lemma routed_port s o : up s -> placed o1 id port o -> at_port s (o OPort).
Proof. by intros [(_ & _ & Ha) _] (_ & _ & -> & _). Qed.

(** An action of a node that is up is allowed if its arguments are. *)
Ltac opened Hu :=
  let Hl := fresh in
  refine (conj (fun _ => ex_intro _ id _) (conj (fun _ => _) (conj (fun Hl => match Hopen Hl with end) _)));
  [exact (proj1 (proj2 (proj1 Hu))) | exact (proj2 Hu) | cbn; try done].

Lemma placed_endpoint url o : placed o1 id port o -> placed o1 id port (set_opt OPublicEndpoint url o).
Proof. intros (Hk & H). unfold placed. opt_simpl. split; [|done]. apply keeps_set; [unfold movable; set_solver | done]. Qed.
Lemma placed_relay endpoint o : placed o1 id port o -> placed o1 id port (set_opt ORelayWorkerEndpoint endpoint o).
Proof.
  intros ((Ht & Hr & Hp & _ & Hf) & Hh & Ho & Hid). unfold placed, keeps. opt_simpl. by split_and!.
Qed.
Lemma tunnel_tried_ok forced s r :
  routed s r -> o0 OTunnel <> Some false -> (forced = true -> o0 OTunnel = Some true) -> goes_on routed s (tunnel_tried forced r).
Proof.
  intros [Hu Hk] Ht Hf. unfold tunnel_tried. apply along_act; [opened Hu; split; [by apply routed_port | done]|].
  intros t. apply (up_logged _ (TryTunnel (rt_opts r OPort) forced) t) in Hu. destruct t as [url|e]; [|by split].
  apply along_act; [opened Hu|]. intros u. split; [by apply up_logged | by apply placed_endpoint].
Qed.
Lemma relay_tried_ok s r : routed s r -> o0 ORelayCapable = false -> goes_on routed s (relay_tried r).
Proof.
  intros [Hu Hk] Hr. unfold relay_tried. apply along_act.
  { opened Hu. split; [|done]. destruct Hk as (_ & _ & _ & ->). apply Hu. }
  intros elected. apply (up_logged _ (ElectRelay (rt_opts r ODirectoryUrl) (rt_opts r OIntent) (rt_opts r ONodeId)) elected) in Hu.
  destruct elected as [[host p]|]; [|by split].
  apply along_act; [opened Hu|]. intros u. split; [by apply up_logged | by apply placed_relay].
Qed.
Lemma relay_allowed (o : ServeOpts) : placed o1 id port o -> relay_worker_fallback_allowed (o ORelayCapable) = true -> o0 ORelayCapable = false.
Proof. intros ((_ & <- & _) & _) H. unfold relay_worker_fallback_allowed in H. by destruct (o ORelayCapable). Qed.
Lemma escalate_ok steps s r :
  routed s r -> (StepTunnel ∈ steps -> o0 OTunnel <> Some false) -> goes_on routed s (escalate steps r).
Proof.
  revert s r. induction steps as [|[] steps IH]; intros s r Hr Ht; cbn [escalate]; [done| | |].
  - eapply along_srv; [apply tunnel_tried_ok; [done | apply Ht; by left | done]|]. intros s' r' Hr' _.
    destruct (is_some _); [done|]. apply IH; [done|]. intros H. apply Ht. by right.
  - destruct (relay_worker_fallback_allowed _) eqn:E; [|done].
    eapply along_srv; [apply relay_tried_ok; [done | by eapply relay_allowed; [apply Hr|]]|]. intros s' r' Hr' _.
    destruct (rt_relay_selected r'); [done|]. apply IH; [done|]. intros H. apply Ht. by right.
  - apply IH; [done|]. intros H. apply Ht. by right.
Qed.
Lemma plan_tunnel tier configured enabled : StepTunnel ∈ plan_reachability tier configured enabled -> enabled = true.
Proof. unfold plan_reachability. destruct (_ || _), enabled; set_solver. Qed.
Lemma detect_ok s o : up s -> placed o1 id port o -> goes_on (fun s' p => routed s' p.1) s (detect_route o).
Proof.
  intros Hu Hk. unfold detect_route. destruct (negb (o OAutoDetectNat)); [by apply along_done|].
  apply along_act; [opened Hu; split; [by apply routed_address | by apply routed_port]|]. intros profile.
  eapply along_srv with (mid := routed); [|by intros].
  apply escalate_ok.
  - split; [by apply up_logged|]. cbn. destruct (nat_public_endpoint profile); [by apply placed_endpoint | done].
  - intros H%plan_tunnel. destruct Hk as ((<- & _) & _). destruct (nat_public_endpoint profile);
      apply negb_true_iff, bool_decide_eq_false in H; revert H; opt_simpl; done.
Qed.
Lemma forced_ok s r : routed s r -> goes_on routed s (forced_tunnel r).
Proof.
  intros Hr. unfold forced_tunnel. destruct (bool_decide _ && _) eqn:E; [|done]. apply andb_true_iff in E as [E _].
  apply bool_decide_eq_true in E. pose proof Hr as (_ & (Ht & _) & _). apply tunnel_tried_ok; [done|congruence|congruence].
Qed.
Lemma fallback_ok s profile pinhole r : routed s r -> goes_on routed s (public_fallback to_lowercase profile pinhole r).
Proof.
  intros Hr. unfold public_fallback. destruct (_ || _ || _ || _) eqn:E; [done|].
  rewrite !orb_false_iff in E. destruct E as [[[E _] _] _]. apply bool_decide_eq_false in E.
  assert (o0 OTunnel <> Some false) as Ht by (by destruct Hr as (_ & (<- & _) & _)).
  destruct (direct_tunnel_fallback_reason _ _ _ _); [|done].
  eapply along_srv with (mid := routed); [destruct (rt_attempted r); [done | by apply tunnel_tried_ok]|].
  intros s' r' Hr' _. destruct (_ || _); [done|]. destruct (relay_worker_fallback_allowed _) eqn:Ea; [|done].
  apply relay_tried_ok; [done|]. eapply relay_allowed; [apply Hr' | done].
Qed.
Lemma route_ok s o pinhole : up s -> placed o1 id port o -> goes_on routed s (find_route to_lowercase env o pinhole).
Proof.
  intros Hs Hk. unfold find_route. eapply along_srv; [by apply detect_ok|]. intros s1 [r1 profile] Hr1 _.
  eapply along_srv; [by apply forced_ok|]. intros s2 r2 Hr2 _.
  eapply along_srv; [by apply fallback_ok|]. intros s3 r3 [Hu3 Hk3] _.
  apply along_act; [opened Hu3|]. intros u. apply (up_mono _ _ (log_extends s3 _ u)) in Hu3.
  eapply along_srv with (mid := fun s' _ => up s').
  { unfold unrecovered. destruct (_ && _ && _ && _ && _); [|done].
    eapply along_srv with (mid := fun _ _ => True); [|done].
    destruct (_ ≫= _); [split; [quiet | done] | done]. }
  intros s4 _ Hu4 _. eapply along_srv with (mid := fun s' _ => up s').
  - destruct (rt_tunnel r3); [|done]. split; [opened Hu4|]. intros ?. by apply up_logged.
  - intros s5 _ Hu5 _. by split.
Qed.

Lemma register_ok node retries attempt address s :
  up s -> port_free s address ->
  goes_on (fun s' t => up s' /\ port_free s' address /\ (t = empty_str \/ did s' Register (Ok t))) s (register_attempts node retries attempt).
Proof.
  revert attempt s. induction retries as [|retries IH]; intros attempt s Hu Hp; cbn [register_attempts];
    (apply along_act; [opened Hu; by exists address|]); intros r;
    apply (up_logged _ Register r) in Hu; apply (free_mono _ _ _ (log_extends s Register r)) in Hp; destruct r as [token|e].
  1,3: assert (did (log s Register (Ok token)) Register (Ok token)) as Hd by (unfold did, log; apply elem_last);
    (eapply along_srv with (mid := fun s' _ => up s' /\ port_free s' address /\ did s' Register (Ok token));
      [destruct (str_is_empty node); [done|]; apply along_act; [opened Hu|];
       intros [|]; [done|]; cbn; split_and!;
         [by apply up_logged | eapply free_mono; [apply log_extends | done] | eapply did_mono; [apply log_extends | done]]
      | intros s' _ (? & ? & ?) _; cbn; split_and!; [done..|by right]]).
  - split_and!; [done..|by left].
  - apply along_act; [quiet|]. intros u. apply IH; [by apply up_logged | eapply free_mono; [apply log_extends | done]].
Qed.

(** What is known when the node listens. *)
Definition token_ok (address : string) (s : strace) (token : option string) : Prop :=
  forall t, token = Some t -> port_free s address /\ (t = empty_str \/ did s Register (Ok t)).
Lemma token_mono address s s' token : s `prefix_of` s' -> token_ok address s token -> token_ok address s' token.
Proof.
  intros Hp H t Ht. destruct (H t Ht) as [Hf Hr]. split; [by eapply free_mono|]. destruct Hr as [?|Hr]; [by left | right; by eapply did_mono].
Qed.
(** After the token is known. *)
Lemma listen_ok s address token tunnel :
  up s -> own_address s address -> token_ok address s token ->
  goes_on (fun _ (_ : unit) => True) s
    (srv! _ := when (auto_update_enabled to_lowercase env) (act StartUpdater) in
     srv! served := act (Listen address token) in
     srv! _ := when tunnel (act CloseTunnel) in
     srv! _ := act RevokePinhole in
     srv! _ := match token with Some t => srv! _ := act (Deregister t) in done tt | None => done tt end in
     Ret (inr (Stopped served))).
Proof.
  intros Hu Ho Ht. eapply along_srv with (mid := fun s' _ => up s' /\ own_address s' address /\ token_ok address s' token).
  { destruct (auto_update_enabled _ _); [|done]. split; [opened Hu|]. intros u. cbn.
    split_and!; [eapply up_mono | eapply own_mono | eapply token_mono]; try apply log_extends; done. }
  clear Hu Ho Ht. intros s' _ (Hu & Ho & Ht) _. clear s. rename s' into s.
  eapply along_srv with (mid := fun s' served => up s' /\ did s' (Listen address token) served).
  { split; [opened Hu|]. intros served. split; [by apply up_logged | unfold did, log; apply elem_last]. }
  clear Hu Ho Ht. intros s' served [Hu Hd] _. clear s. rename s' into s.
  eapply along_srv with (mid := fun s' _ => up s' /\ did s' (Listen address token) served).
  { destruct tunnel; [|done]. split; [opened Hu|]. intros u. split; [by apply up_logged | eapply did_mono; [apply log_extends | done]]. }
  clear Hu Hd. intros s' _ [Hu Hd] _. clear s. rename s' into s. apply along_act; [opened Hu|]. intros u.
  apply (up_logged _ RevokePinhole u) in Hu. apply (did_mono _ _ _ _ (log_extends s RevokePinhole u)) in Hd.
  eapply along_srv with (mid := fun _ _ => True); [|done].
  destruct token as [t|]; [|done]. apply along_act; [|done]. opened Hu. by exists address, served.
Qed.
Lemma serve_node_ok s r : routed s r -> goes_on (fun _ _ => True) s (serve_node to_lowercase env r).
Proof.
  intros [Hu Hk]. unfold serve_node. set (o := skip_unroutable to_lowercase (rt_opts r)).
  assert (placed o1 id port o) as Ho.
  { unfold o, skip_unroutable. destruct (_ && _ && _) eqn:E; [|done]. destruct Hk as ((? & ? & ? & Hl & ?) & ?). unfold placed, keeps. opt_simpl.
    split_and!; try done; tauto. }
  clearbody o. set (address := fmt_bind_addr (o OHost) (o OPort)). pose proof (routed_address s o Hu Ho) as Ha. fold address in Ha.
  eapply along_srv with (mid := fun s' _ => up s' /\ own_address s' address /\ (o OSkipRegistration = false -> port_free s' address)).
  { unfold probe_bind. destruct (o OSkipRegistration); [done|]. apply along_act; [opened Hu|]. fold address.
    intros [|]; [done|]. split_and!; [by apply up_logged | eapply own_mono; [apply log_extends | done]|]. intros _.
    split; [eapply own_mono; [apply log_extends | done] | unfold did, log; apply elem_last]. }
  clear Hu Ha Hk. intros s' _ (Hu & Ha & Hp) _. clear s. rename s' into s.
  eapply along_srv with (mid := fun s' _ => up s' /\ own_address s' address /\ (o OSkipRegistration = false -> port_free s' address)).
  { unfold native_transport. destruct (experimental_native_tcp_from_env env) as [[]|]; [|done|done].
    destruct (derive_native_endpoint _); [|done]. split; [opened Hu|]. intros u.
    split_and!; [by apply up_logged | eapply own_mono; [apply log_extends | done]|]. intros H. eapply free_mono; [apply log_extends | auto]. }
  clear Hu Ha Hp. intros s' _ (Hu & Ha & Hp) _. clear s. rename s' into s.
  eapply along_srv with (mid := fun s' token => up s' /\ own_address s' address /\ token_ok address s' token).
  { destruct (o OSkipRegistration); [done|]. eapply along_srv; [apply register_ok; [done | by apply Hp]|].
    intros s' t (Hu' & Hf & Ht) _. split_and!; [done | apply Hf|]. by intros ? [= <-]. }
  intros s' token (Hu' & Ha' & Ht) _. by apply listen_ok.
Qed.
End reachable.

(** ** The local-only node *)

Section local.
Context (o1 : ServeOpts) (id : string) (port : Z).
Notation up := (up o1 id port).

(** An action that a local-only node that is up may take. *)
Ltac kept_local Hu :=
  refine (conj (fun _ => ex_intro _ id _) (conj (fun _ => _) (conj (fun _ => _) _)));
  [exact (proj1 (proj2 (proj1 Hu))) | exact (proj2 Hu) | cbn; try done | cbn; try done].

Lemma local_route s o pinhole :
  up s -> local_opts o -> goes_on (fun s' r => up s' /\ r = no_route o) s (find_route to_lowercase env o pinhole).
Proof.
  intros Hu (_ & Hn & _ & Ht & _). unfold find_route, detect_route. rewrite Hn. cbn [negb].
  eapply along_srv with (mid := fun s' p => s' = s /\ p = (no_route o, None)); [done|]. intros s1 p [-> ->] _.
  unfold forced_tunnel, public_fallback, unrecovered. cbn [fst snd no_route rt_opts rt_tunnel]. rewrite Ht.
  eapply along_srv with (mid := fun s' r => s' = s /\ r = no_route o); [done|]. intros s2 r [-> ->] _.
  cbn [no_route rt_opts rt_tunnel]. rewrite Ht.
  eapply along_srv with (mid := fun s' r => s' = s /\ r = no_route o); [done|]. intros s3 r [-> ->] _.
  apply along_act; [kept_local Hu|]. intros u. split; [by apply up_logged | done].
Qed.
Lemma local_serve s o :
  up s -> placed o1 id port o -> local_opts o -> goes_on (fun _ _ => True) s (serve_node to_lowercase env (no_route o)).
Proof.
  intros Hu Hk (Hskip & _). unfold serve_node. cbn [no_route rt_opts rt_tunnel is_some].
  assert (skip_unroutable to_lowercase o = o) as -> by (unfold skip_unroutable; by rewrite Hskip, andb_false_r).
  unfold probe_bind. rewrite Hskip.
  eapply along_srv with (mid := fun s' _ => s' = s); [done|]. intros s1 _ -> _.
  eapply along_srv with (mid := fun s' _ => up s').
  { unfold native_transport. destruct (experimental_native_tcp_from_env env) as [[]|]; [|done|done].
    destruct (derive_native_endpoint _); [|done]. split; [kept_local Hu|]. intros u. by apply up_logged. }
  clear Hu. intros s' _ Hu _. clear s. rename s' into s.
  eapply along_srv with (mid := fun s' t => s' = s /\ t = None); [done|]. intros s1 t [-> ->] _.
  eapply along_srv with (mid := fun s' _ => up s').
  { destruct (auto_update_enabled to_lowercase env) eqn:Ea; [|done]. split; [kept_local Hu|]. intros u. by apply up_logged. }
  clear Hu. intros s' _ Hu _. clear s. rename s' into s.
  apply along_act; [kept_local Hu; split; [by eapply routed_address | done]|]. intros served.
  apply (up_logged _ _ _ _ (Listen (fmt_bind_addr (o OHost) (o OPort)) None) served) in Hu.
  eapply along_srv with (mid := fun s' _ => up s'); [done|]. clear Hu. intros s2 _ Hu _. apply along_act; [kept_local Hu|]. done.
Qed.
End local.
End run.

Section theorem.
Context (to_lowercase : string -> string) (env : string -> option string).

Lemma run_serve_ok (o : ServeOpts) :
  along log (serve_ok to_lowercase env o) (on_inl (fun _ _ => True)) [] (run_serve to_lowercase env o).
Proof.
  unfold run_serve.
  eapply along_srv with (mid := fun _ _ => True); [destruct (env_bool env _); [split; [by split_and!|]|]; done|]. intros s0 _ _ _.
  eapply along_srv; [apply load_kept|]. intros s1 p (o1 & He1 & Hk) _. clear s0.
  eapply along_srv; [by apply profiles_kept|]. intros s o2 H2 P. cbv beta in *. apply (effective_mono _ _ _ _ P) in He1. clear s1 P Hk.
  eapply along_srv; [eapply discover_kept, H2|]. intros s1 o3 H3 P. cbv beta in *. apply (effective_mono _ _ _ _ P) in He1. clear s P H2.
  apply along_act; [by split_and!|]. intros operator. apply (effective_mono _ _ _ _ (log_extends s1 LoadOperator operator)) in He1.
  destruct (negb _); [done|].
  eapply along_srv with (mid := fun _ _ => True).
  { destruct (o3 OWithProxy) eqn:Ep; [|done]. split; [|done]. destruct H3 as ((_ & _ & Hp & _) & _). rewrite Ep in Hp. by split_and!. }
  intros s _ _ P. apply (effective_mono _ _ _ _ P) in He1. clear s1 P.
  eapply along_srv; [eapply select_kept, H3|]. intros s2 o4 H4 P. cbv beta in *. apply (effective_mono _ _ _ _ P) in He1. clear s P H3.
  eapply along_srv; [eapply name_kept; [exact He1 | exact H4]|]. intros s o5 (id & H5 & Hn) P. apply (effective_mono _ _ _ _ P) in He1. clear s2 P H4.
  pose proof H5 as ((_ & _ & _ & _ & Hforce) & _ & _ & _ & Hid).
  apply along_act; [split_and!; try done; by rewrite Hid|]. intros [e|]; [done|].
  assert (locked o (log s (AcquireLock (o5 ONodeId) (o5 OForce)) None) id) as Hl.
  { split; [eapply named_mono; [apply log_extends | done]|]. rewrite Hid, Hforce. unfold did, log. apply elem_last. }
  apply (effective_mono _ _ _ _ (log_extends s (AcquireLock (o5 ONodeId) (o5 OForce)) None)) in He1.
  eapply along_srv; [eapply port_kept; [exact He1 | exact Hl | exact H5]|]. intros s3 o6 (port & H6 & Hp) P.
  assert (based o o1 id port s3) as Hb by (split_and!; [by eapply effective_mono | by eapply locked_mono | done]).
  clear s Hn He1 Hl Hp P H5 Hid Hforce.
  eapply along_srv; [eapply pinhole_kept; [exact Hb | exact H6]|]. intros s q Hq P. cbv beta in *. apply (based_mono _ _ _ _ _ _ P) in Hb. clear s3 P H6.
  eapply along_srv; [eapply configure_starts; [apply Hb | exact Hq]|]. intros s4 u Hs P. cbv beta in *. clear u. apply (based_mono _ _ _ _ _ _ P) in Hb. clear s P.
  assert (up o o1 id port s4) as Hu by done.
  destruct (decide (local_opts o)) as [Hlo|Hlo].
  - assert (local_opts q.1) as Hlq by (destruct Hq as ((_ & _ & _ & Hq & _) & _); auto).
    eapply along_srv; [eapply local_route; [exact Hu | exact Hlq]|]. intros s' r (Hu' & ->) _. eapply local_serve; [exact Hu' | exact Hq | exact Hlq].
  - eapply along_srv; [eapply route_ok; [exact Hlo | exact Hu | exact Hq]|]. intros s' r Hr _. eapply serve_node_ok; [exact Hlo | exact Hr].
Qed.

(** ** The number of effects *)

Lemma within_srv {A R} n m (p : vprog (A + serve_outcome)) (k : A -> vprog (R + serve_outcome)) :
  within n p -> (forall v, within m (k v)) -> within (n + m) (step_bind p k).
Proof. intros Hp Hk. apply within_bind; [done|]. intros [v|out]; [apply Hk | done]. Qed.
Ltac count := unfold when; repeat (cbn; first [done | progress intros | case_match]).
Lemma within_load o : within 2 (load_saved_node o).
Proof. unfold load_saved_node. count. Qed.
Lemma within_profiles o : within 0 (check_profiles o).
Proof. unfold check_profiles. count. Qed.
Lemma within_discover o : within 1 (discover_directory o).
Proof. unfold discover_directory. count. Qed.
Lemma within_select o : within 1 (select_model o).
Proof.
  unfold select_model. apply (within_srv 1 0); [|intros o'; count]. destruct (_ && _); [|done].
  apply (within_srv 1 0); [done|]. intros models. count.
Qed.
Lemma within_name o : within 1 (name_node o).
Proof. unfold name_node. apply (within_srv 1 0); [count | intros id; count]. Qed.
Lemma within_port o : within 1 (choose_port o).
Proof. unfold choose_port. count. Qed.
Lemma within_pinhole o : within 1 (first_pinhole o).
Proof. unfold first_pinhole. count. Qed.
Lemma within_configure o operator token tier0 : within 9 (configure_node env o operator token tier0).
Proof.
  unfold configure_node. apply (within_srv 1 8); [done|]. intros models.
  apply (within_srv 1 7); [count|]. intros admission. apply (within_srv 1 6); [done|]. intros flavor.
  apply (within_srv 1 5); [count|]. intros delegation. apply (within_srv 1 4); [count|]. intros manifest.
  apply (within_srv 1 3); [count|]. intros logs. apply (within_srv 1 2); [count|]. intros key.
  apply (within_srv 1 1); [done|]. intros _. count.
Qed.
Lemma within_tunnel forced r : within 2 (tunnel_tried forced r).
Proof. unfold tunnel_tried. count. Qed.
Lemma within_relay r : within 2 (relay_tried r).
Proof. unfold relay_tried. count. Qed.
Lemma within_escalate steps r : within (2 * length steps) (escalate steps r).
Proof.
  revert r. induction steps as [|step steps IH]; intros r; [done|]. cbn [length]. replace (2 * S (length steps))%nat with (2 + 2 * length steps)%nat by lia.
  destruct step; cbn [escalate].
  - apply within_srv; [apply within_tunnel|]. intros r'. destruct (is_some _); [done | apply IH].
  - destruct (relay_worker_fallback_allowed _); [|done]. apply within_srv; [apply within_relay|]. intros r'. destruct (rt_relay_selected r'); [done | apply IH].
  - eapply within_mono; [apply IH | lia].
Qed.
Lemma within_detect o : within 7 (detect_route o).
Proof.
  unfold detect_route. destruct (negb _); [done|]. apply (within_srv 1 6); [done|]. intros profile.
  apply (within_srv 6 0); [|done]. eapply within_mono; [apply within_escalate|].
  unfold plan_reachability. destruct (_ || _); simpl; [lia|]. destruct (negb _); simpl; lia.
Qed.
Lemma within_route o pinhole : within 16 (find_route to_lowercase env o pinhole).
Proof.
  unfold find_route. apply (within_srv 7 9); [apply within_detect|]. intros [r profile].
  apply (within_srv 2 7); [unfold forced_tunnel; destruct (_ && _); [apply within_tunnel | done]|]. intros r1.
  apply (within_srv 4 3).
  { unfold public_fallback. destruct (_ || _ || _ || _); [done|]. destruct (direct_tunnel_fallback_reason _ _ _ _); [|done].
    apply (within_srv 2 2); [destruct (rt_attempted _); [done | apply within_tunnel]|]. intros r2.
    destruct (_ || _); [done|]. destruct (relay_worker_fallback_allowed _); [apply within_relay | done]. }
  intros r2. apply (within_srv 1 2); [done|]. intros _. apply (within_srv 1 1); [|intros _].
  - unfold unrecovered. destruct (_ && _ && _ && _ && _); [|done]. apply (within_srv 1 0); [count | done].
  - apply (within_srv 1 0); [count | done].
Qed.
Lemma within_attempts node retries attempt : within (2 + 2 * retries) (register_attempts node retries attempt).
Proof.
  revert attempt. induction retries as [|retries IH]; intros attempt; cbn [register_attempts].
  - apply (within_srv 1 1); [done|]. intros [t|e]; [|done]. apply (within_srv 1 0); [count | done].
  - replace (2 + 2 * S retries)%nat with (1 + (1 + (2 + 2 * retries)))%nat by lia. apply within_srv; [done|]. intros [t|e].
    + apply (within_mono 1); [|lia]. apply (within_srv 1 0); [count | done].
    + apply within_srv; [done|]. intros _. apply IH.
Qed.
Lemma within_serve r : within 13 (serve_node to_lowercase env r).
Proof.
  unfold serve_node. apply (within_srv 1 12); [unfold probe_bind; count|]. intros _.
  apply (within_srv 1 11); [unfold native_transport; count|]. intros _.
  apply (within_srv 6 5).
  { destruct (skip_unroutable _ _ _); [done|]. apply (within_srv 6 0); [|done]. unfold register_before_serving.
    eapply within_mono; [apply within_attempts|]. destruct (is_some _); lia. }
  intros token. apply (within_srv 1 4); [count|]. intros _. apply (within_srv 1 3); [done|]. intros served.
  apply (within_srv 1 2); [count|]. intros _. apply (within_srv 1 1); [done|]. intros _.
  apply (within_srv 1 0); [count | done].
Qed.
Lemma run_serve_within o : within 49 (run_serve to_lowercase env o).
Proof.
  unfold run_serve. apply (within_srv 1 48); [count|]. intros _. apply (within_srv 2 46); [apply within_load|]. intros p.
  apply (within_srv 0 46); [apply within_profiles|]. intros o1. apply (within_srv 1 45); [apply within_discover|]. intros o2.
  apply (within_srv 1 44); [done|]. intros operator. destruct (negb _); [done|].
  apply (within_srv 1 43); [count|]. intros _. apply (within_srv 1 42); [apply within_select|]. intros o3.
  apply (within_srv 1 41); [apply within_name|]. intros o4. apply (within_srv 1 40); [done|]. intros [e|]; [done|].
  apply (within_srv 1 39); [apply within_port|]. intros o5. apply (within_srv 1 38); [apply within_pinhole|]. intros q.
  apply (within_srv 9 29); [apply within_configure|]. intros _. apply (within_srv 16 13); [apply within_route|]. intros r. apply within_serve.
Qed.

(** C33: serving is confined by the options it was started with, whatever its
    surroundings answer.  The node's identifier is the one of the options (with
    those of the saved node), or else one drawn for it, and the lock taken is the
    lock of this identifier: nothing is shown to the network before it is held, and
    the node set up, the peers admitted and the delegation bear this identifier.
    The node is reachable, registers and listens only once it was set up.  Its
    address is the host and port of the options, or the free port found where no
    public endpoint is given; this address is what it probes and listens on, and it
    registers, and listens under a token, only after this address could be bound;
    the token is one that the registration gave, or empty where it failed, and it
    deregisters only what it served.  A tunnel is opened to this port alone, only
    where tunnels are not refused, one is forced only where asked for, and no relay
    takes another relay.  Started local-only it detects no address, opens no
    tunnel, uses no relay, registers nowhere and listens without a token: what it
    may still do outside is the pinhole of a bracketed endpoint, a co-hosted proxy
    and the updater.  Every run performs at most 49 effects. *)
Theorem serve_confined (su : surroundings) (args : list string) (o : ServeOpts) (answer : nat -> forall a, serve_answer a) (n : nat)
    (tr : strace) (out : unit + serve_outcome)
    (Hargs : parse_args su args = Ok o) (Hrun : run answer n (run_serve to_lowercase env o) = (tr, out)) :
  (forall tr1 a x tr2, tr = tr1 ++ Did a x :: tr2 -> serve_ok to_lowercase env o tr1 a)
  /\ (o OOperatingMode = LocalOnly -> local_opts o)
  /\ (length tr <= 49)%nat.
Proof.
  split; [|split].
  - exact (proj2 (run_logged _ _ answer n _ tr out (run_serve_ok o) Hrun)).
  - destruct (parse_args_guarded su args o Hargs) as (profiles & s & file & environment & H). cbv zeta in H. destruct_and! H.
    intros Hm. unfold mode_opts in *. destruct (rt_mode _); try congruence. tauto.
  - pose proof (within_run 49 _ answer n (run_serve_within o)) as H. by rewrite Hrun in H.
Qed.
End theorem.

(** ** A local-only run *)

Definition local_args : list string :=
  ["--mode"; "local_only"; "--model"; "qwen"; "--public-endpoint"; "http://[2001:db8::1]:9484"; "--with-proxy"; "--node-id"; "node-1"].
Definition no_env (_ : string) : option string := None.
Definition bare_surroundings : surroundings := mkSurroundings no_env (fun _ => Err "none") (fun _ => Err "none") (fun _ => None).
Definition local_example : ServeOpts :=
  match parse_args bare_surroundings local_args with Ok o => o | Err _ => default_opts no_env None end.
Definition willing (a : serve_action) : serve_answer a :=
  match a with
  | LoadSaved _ => Ok None
  | SavedCredential _ _ => Ok None
  | ResolveDirectory _ _ _ _ => Ok None
  | LoadOperator => None
  | ProbeModels _ _ => ["qwen"]
  | NewNodeId => "id"
  | DetectFlavor _ _ _ => "ollama"
  | AcquireLock _ _ => None
  | FreePort _ p => p
  | OpenPinhole _ _ => mkPinhole true None []
  | AdmitPeers _ _ => Ok PeerManager.Public
  | IssueDelegation _ => None
  | SignManifest _ => Err "no"
  | ConfigDir => Ok "/home/n/.iicp"
  | HealthPath _ => None
  | DetectNat _ _ _ _ => mkNatProfile 3 true None false
  | TryTunnel _ _ => Ok "https://x.trycloudflare.com"
  | ElectRelay _ _ _ => None
  | BindProbe _ => None
  | Register => Ok "token"
  | SaveRegistered _ _ => None
  | Listen _ _ => None
  | Deregister _ => None
  | _ => tt
  end.
Definition actions_of (tr : strace) : list serve_action := (fun x => match x with Did a _ => a end) <$> tr.
Definition local_run : strace * (unit + serve_outcome) := run (fun _ => willing) 0 (run_serve to_ascii_lowercase no_env local_example).
Lemma local_parses : parse_args bare_surroundings local_args = Ok local_example.
Proof. vm_compute. reflexivity. Qed.
Lemma serve_confined_witness :
  local_opts local_example /\ (length local_run.1 <= 49)%nat /\ In RevokePinhole (actions_of local_run.1).
Proof.
  destruct (serve_confined to_ascii_lowercase no_env bare_surroundings local_args local_example (fun _ => willing) 0 local_run.1 local_run.2
              local_parses eq_refl) as (_ & Hl & Hn).
  split; [apply Hl; vm_compute; reflexivity|]. split; [exact Hn|]. vm_compute. tauto.
Defined.

(** What that run does outside the machine: the pinhole is opened, the co-hosted
    proxy uses the public directory, and the updater is started. *)
Definition outside (a : serve_action) : bool :=
  match a with
  | OpenPinhole _ _ | StartProxy _ _ _ | StartUpdater | DetectNat _ _ _ _ | TryTunnel _ _ | ElectRelay _ _ _ | Register => true
  | _ => false
  end.
Lemma local_run_reaches_out :
  filter (fun a => outside a = true) (actions_of local_run.1)
  = [StartProxy "https://iicp.network/api" None None; OpenPinhole "http://[2001:db8::1]:9484" 9484; StartUpdater].
Proof. vm_compute. reflexivity. Qed.
