(* ===== verification/LocalDirectory.v ===== *)
(** * Finding a directory on the local network ([src/local_directory_discovery.rs])

    Services announced by multicast DNS become candidates; a candidate is taken
    when it serves a signed descriptor of the trusted directory.  [resolve] is a
    program over the clock, the network and the process-wide cache; many of them
    run at once. *)

From stdpp Require Import gmap.
From S2P Require Import Prelude Program Concurrent Text Json Cbor CodecModel HttpResource ClientTypes IpAddr ClientEffects Endpoint RuntimeConfig.

Definition DESCRIPTOR_PATH : string := "/.well-known/iicp-directory.json".
Definition MAX_COLLECTION_WINDOW_MS : Z := 3000.
Definition MAX_CACHE_SECONDS : Z := 300.
Definition MAX_TXT_BYTES : Z := 512.
Definition SIGNATURE_DOMAIN : list byte := str_bytes ("IICP-LOCAL-DIRECTORY-DESCRIPTOR-V0" +:+ str_of_codes [10]).

Record ResolveRequest := mkResolve {
  rr_enabled : bool;
  rr_mode : OperatingMode;
  rr_explicit_directory : option string;
  rr_trusted_directory_did : option string;
  rr_allow_public_fallback : bool;
  rr_collection_window_ms : Z
}.
Inductive ResolutionSource := FromConfiguration | FromNetwork.
Record DirectoryResolution := mkDirectory {
  dn_endpoint : string;
  dn_directory_did : option string;
  dn_source : ResolutionSource;
  dn_observed_hostname : option string;
  dn_observed_addresses : list string;
  dn_descriptor_sha256 : option string;
  dn_expires_at : option Z;
  dn_cache_hit : bool
}.
Definition hit (r : DirectoryResolution) : DirectoryResolution :=
  mkDirectory (dn_endpoint r) (dn_directory_did r) (dn_source r) (dn_observed_hostname r) (dn_observed_addresses r)
    (dn_descriptor_sha256 r) (dn_expires_at r) true.

(** Mode and trusted directory. *)
Definition CacheKey : Type := Z * string.
Definition mode_cache_key (mode : OperatingMode) : Z :=
  match mode with Public => 0 | Private => 1 | FederatedPrivate => 2 | LocalOnly => 3 | Custom => 4 end.
Record CachedResolution := mkCached { cd_resolution : DirectoryResolution; cd_expires_at : Z }.
Notation cache := (gmap CacheKey CachedResolution).

Inductive LocalDirectoryError := LocalOnlyMode | MissingTrustAnchor | Discovery (detail : string) | NoTrustedCandidate.

Record Candidate := mkCandidate {
  cn_hostname : string;
  cn_port : Z;
  cn_addresses : list IpAddr;
  cn_txt : gmap string string
}.
Record DescriptorSignature := mkDescriptorSignature { dg_algorithm : string; dg_key_id : string; dg_value : string }.
Record Descriptor := mkDescriptor {
  de_schema : string;
  de_profile : string;
  de_profile_version : string;
  de_directory_did : string;
  de_role : string;
  de_api_endpoints : list string;
  de_issued_at : Z;
  de_expires_at : Z;
  de_signature : DescriptorSignature
}.

(** ** What an announced service says *)

(** [mdns_sd::ResolvedService] *)
Record ResolvedService := mkService {
  sv_hostname : string;
  sv_port : Z;
  sv_addresses : list IpAddr;
  sv_properties : list (string * string)
}.

(** [Ipv6Addr::is_unicast_link_local], [Ipv4Addr::is_multicast] *)
Definition v6_is_unicast_link_local (ip : Ipv6Addr) : bool := Z.land (segment ip 0) 65472 =? 65152.
Definition v4_is_multicast (ip : Ipv4Addr) : bool := match ip with V4Addr a _ _ _ => (224 <=? a) && (a <=? 239) end.
Definition allowed_local_address (address : IpAddr) : bool :=
  match address with
  | V4 v => negb (v4_is_loopback v) && negb (v4_is_unspecified v) && negb (v4_is_multicast v) && (v4_is_private v || v4_is_link_local v)
  | V6 v => negb (v6_is_loopback v) && negb (v6_is_unspecified v) && negb (v6_is_multicast v)
            && (v6_is_unicast_link_local v || (Z.land (segment v 0) 65024 =? 64512))
  end.

Definition SECRET_KEYS : list string :=
  ["token"; "secret"; "credential"; "membership"; "node"; "model"; "intent"; "capability"; "topology"; "federation"].
Definition txt_contains_secret (txt : gmap string string) : bool :=
  existsb (fun k => existsb (str_contains k) SECRET_KEYS) (map_to_list txt).*1.
(** The records and their size in bytes; a key that comes twice ends it. *)
Fixpoint read_txt (properties : list (string * string)) (txt : gmap string string) (size : Z) : option (gmap string string * Z) :=
  match properties with
  | [] => Some (txt, size)
  | (key, value) :: properties =>
      let key := to_ascii_lowercase key in
      if is_some (txt !! key) then None
      else read_txt properties (<[key := value]> txt) (size + (1 + str_len key + 1 + str_len value))
  end.
Definition candidate_from_service (info : ResolvedService) : option Candidate :=
  let! (txt, txt_bytes) := read_txt (sv_properties info) ∅ 0 in
  if (MAX_TXT_BYTES <? txt_bytes)
     || negb (bool_decide (txt !! "pv" = Some "0"))
     || negb (bool_decide (txt !! "path" = Some DESCRIPTOR_PATH))
     || negb (bool_decide (txt !! "transport" = Some "https"))
     || txt_contains_secret txt
  then None
  else
    let addresses := remove_dups (sv_addresses info) in
    if bool_decide (addresses = []) || existsb (fun a => negb (allowed_local_address a)) addresses then None
    else Some (mkCandidate (trim_end_char "." (sv_hostname info)) (sv_port info) addresses txt).

(** ** What a resolution does *)

(** [Fetch host pins url] is a GET without redirects from a client that resolves
    [host] to [pins] only; its answer is the status and, where it could be read,
    the body. *)
Inductive discovery_action :=
| TimeNow
| CacheFind (key : CacheKey) (now : Z)
| CacheStore (key : CacheKey) (entry : CachedResolution)
| Browse (window_ms : Z)
| Fetch (host : string) (pins : list SocketAddr) (url : string).
Definition discovery_answer (a : discovery_action) : Type :=
  match a with
  | TimeNow => Z
  | CacheFind _ _ => option CachedResolution
  | CacheStore _ _ => unit
  | Browse _ => result (list ResolvedService) string
  | Fetch _ _ _ => result (Z * option (list byte)) string
  end.
Notation dprog := (prog discovery_answer).
Definition disc_bind {A R} (p : dprog (result A LocalDirectoryError)) (k : A -> dprog (result R LocalDirectoryError))
    : dprog (result R LocalDirectoryError) :=
  run! r := p in match r with Ok v => k v | Err e => Ret (Err e) end.
Notation "'disc!' x := p 'in' k" := (disc_bind p (fun x => k))
  (at level 200, x pattern, p at level 100, k at level 200) : iicp_scope.
Notation "'do!' x := a 'in' k" := (Act (resp:=discovery_answer) a (fun x => k))
  (at level 200, x pattern, a at level 100, k at level 200) : iicp_scope.

(** [i64] subtraction, as the release build wraps it *)
Definition i64_sub (a b : Z) : Z := (a - b + 2 ^ 63) mod 2 ^ 64 - 2 ^ 63.

(** A sort that keeps the order of equal elements. *)
Fixpoint insert_by {A} (le : A -> A -> bool) (x : A) (l : list A) : list A :=
  match l with
  | [] => [x]
  | y :: l' => if le x y then x :: l else y :: insert_by le x l'
  end.
Definition sort_by {A} (le : A -> A -> bool) (l : list A) : list A := foldr (insert_by le) [] l.

Lemma insert_by_elem {A} le (x y : A) l : x ∈ insert_by le y l <-> x = y \/ x ∈ l.
Proof.
  induction l as [|z l IH]; simpl; [rewrite list_elem_of_singleton, elem_of_nil; tauto|].
  destruct (le y z); rewrite !elem_of_cons; [done|]. rewrite IH. naive_solver.
Qed.
Lemma sort_by_elem {A} le (x : A) l : x ∈ sort_by le l <-> x ∈ l.
Proof.
  unfold sort_by. induction l as [|y l IH]; simpl; [done|]. by rewrite insert_by_elem, elem_of_cons, IH.
Qed.

Section discovery.
Context {Url : Type} {url_ops : UrlOps Url} {codec : JsonCodec}.
(** The derived [Deserialize], [serde_jcs], [hex], [URL_SAFE_NO_PAD], the curve,
    SHA-256 and [Display] of an address *)
Context (descriptor_from_value : json -> result Descriptor string) (jcs : json -> option (list byte))
  (hex_decode b64url_decode : string -> option (list byte)) (ed_key_valid : list byte -> bool)
  (ed25519_verify : list byte -> list byte -> list byte -> bool) (sha256_hex : list byte -> string) (ip_text : IpAddr -> string).

Definition discovery_failed {A} (detail : string) : result A LocalDirectoryError := Err (Discovery detail).
Definition fetch_body (rejected : string) (host : string) (pins : list SocketAddr) (url : string)
    : dprog (result (list byte) LocalDirectoryError) :=
  do! r := Fetch host pins url in
  Ret match r with
      | Err e => discovery_failed e
      | Ok (status, body) => if negb (is_success status) || is_redirection status then discovery_failed rejected
                             else ok_or body (Discovery "body")
      end.
Definition parse_body (body : list byte) : result json LocalDirectoryError := map_err Discovery (json_from_slice body).

(** The key of the descriptor's signature, from the DID document. *)
Definition verification_key (d : Descriptor) (did : json) : option (list byte) :=
  let! methods := as_array (jidx did "verificationMethod") in
  let! method := find (fun m => jis_str (jidx m "id") (dg_key_id (de_signature d))) methods in
  let! encoded := as_str (jidx (jidx method "publicKeyJwk") "x") in
  let! bytes := b64url_decode encoded in
  if (length bytes =? 32)%nat && ed_key_valid bytes then Some bytes else None.
Definition verify_descriptor_signature (d : Descriptor) (value did : json) : result unit LocalDirectoryError :=
  let? key := ok_or (verification_key d did) (Discovery "DID verification key unavailable") in
  let? fields := ok_or (as_object value) (Discovery "descriptor is not an object") in
  let? canonical := ok_or (jcs (JObject (obj_remove "signature" fields))) (Discovery "canonical form") in
  let? signature := ok_or (hex_decode (dg_value (de_signature d))) (Discovery "invalid descriptor signature") in
  if negb (length signature =? 64)%nat then discovery_failed "invalid descriptor signature"
  else if ed25519_verify key (SIGNATURE_DOMAIN ++ canonical) signature then Ok tt
  else discovery_failed "descriptor signature mismatch".

(** The conditions on the descriptor's own fields. *)
Definition descriptor_rejected (d : Descriptor) (c : Candidate) (trusted_did : string) (now : Z) : bool :=
  (de_schema d <>? "iicp.local-directory-descriptor.v0")
  || (de_profile d <>? "urn:iicp:profile:local-directory-discovery:v1")
  || (de_profile_version d <>? "0")
  || negb (str_in (de_role d) ["seed"; "replica"; "standalone"])
  || (de_directory_did d <>? trusted_did)
  || is_some_and (cn_txt c !! "did") (fun did => did <>? de_directory_did d)
  || is_some_and (cn_txt c !! "role") (fun role => role <>? de_role d)
  || (now + 30 <? de_issued_at d)
  || (de_expires_at d <=? now)
  || (MAX_CACHE_SECONDS <? i64_sub (de_expires_at d) (de_issued_at d))
  || (dg_algorithm (de_signature d) <>? "Ed25519")
  || (dg_key_id (de_signature d) <>? de_directory_did d +:+ "#key-1").
Definition validate_descriptor (d : Descriptor) (value : json) (c : Candidate) (trusted_did : string) (pins : list SocketAddr) (origin : string)
    : dprog (result unit LocalDirectoryError) :=
  do! now := TimeNow in
  if descriptor_rejected d c trusted_did now then Ret (discovery_failed "descriptor validation failed")
  else
    disc! body := fetch_body "DID document fetch rejected" (cn_hostname c) pins (origin +:+ "/.well-known/did.json") in
    match parse_body body with
    | Err e => Ret (Err e)
    | Ok did =>
        Ret (if negb (opt_str_is (get_str did "id") (de_directory_did d)) then discovery_failed "DID document identity mismatch"
             else verify_descriptor_signature d value did)
    end.

(** The least of the HTTPS endpoints, if any. *)
Definition least_endpoint (endpoints : list string) : option string :=
  head (sort_by str_leb (base.filter (fun e => starts_with e "https://" = true) endpoints)).
Definition candidate_pins (c : Candidate) : list SocketAddr := socket_set ((fun a => mkSocket a (cn_port c)) <$> cn_addresses c).
Definition candidate_origin (c : Candidate) : string := "https://" +:+ cn_hostname c +:+ ":" +:+ pretty (cn_port c).
Definition endpoint_of (d : Descriptor) (c : Candidate) : result string LocalDirectoryError :=
  let? endpoint := ok_or (least_endpoint (de_api_endpoints d)) (Discovery "descriptor has no HTTPS API endpoint") in
  let? url := ok_or (url_parse endpoint) (Discovery "descriptor API endpoint is invalid") in
  if negb (bool_decide (url_host_str url = Some (cn_hostname c))) || negb (bool_decide (url_port_or_known_default url = Some (cn_port c)))
  then discovery_failed "descriptor API endpoint does not match the discovered origin"
  else Ok endpoint.
Definition verify_candidate (c : Candidate) (trusted_did : string) : dprog (result DirectoryResolution LocalDirectoryError) :=
  let pins := candidate_pins c in
  let origin := candidate_origin c in
  disc! body := fetch_body "descriptor fetch rejected" (cn_hostname c) pins (origin +:+ DESCRIPTOR_PATH) in
  if 32768 <? zlen body then Ret (discovery_failed "descriptor is oversized")
  else
    match (let? value := parse_body body in let? d := map_err Discovery (descriptor_from_value value) in Ok (value, d)) with
    | Err e => Ret (Err e)
    | Ok (value, d) =>
        disc! _ := validate_descriptor d value c trusted_did pins origin in
        match endpoint_of d c with
        | Err e => Ret (Err e)
        | Ok endpoint =>
            do! now := TimeNow in
            Ret (Ok (mkDirectory endpoint (Some (de_directory_did d)) FromNetwork (Some (cn_hostname c))
                       (sort_by str_leb (ip_text <$> cn_addresses c)) (Some (sha256_hex body))
                       (Some (Z.min (de_expires_at d) (now + MAX_CACHE_SECONDS))) false))
        end
    end.
(** Candidates that fail are passed over. *)
Fixpoint verify_all (candidates : list Candidate) (trusted_did : string) : dprog (list DirectoryResolution) :=
  match candidates with
  | [] => Ret []
  | c :: candidates =>
      run! r := verify_candidate c trusted_did in
      run! rest := verify_all candidates trusted_did in
      Ret (match r with Ok v => v :: rest | Err _ => rest end)
  end.

Definition opt_str_leb (a b : option string) : bool :=
  match a, b with None, _ => true | Some _, None => false | Some a, Some b => str_leb a b end.
(** By directory, then by endpoint. *)
Definition resolution_leb (a b : DirectoryResolution) : bool :=
  if bool_decide (dn_directory_did a = dn_directory_did b) then str_leb (dn_endpoint a) (dn_endpoint b)
  else opt_str_leb (dn_directory_did a) (dn_directory_did b).
Definition not_blank_str (o : option string) : option string := let! s := o in if str_is_empty (trim s) then None else Some s.

Definition resolve (request : ResolveRequest) : dprog (result (option DirectoryResolution) LocalDirectoryError) :=
  match not_blank_str (rr_explicit_directory request) with
  | Some endpoint =>
      Ret (Ok (Some (mkDirectory endpoint (rr_trusted_directory_did request) FromConfiguration None [] None None false)))
  | None =>
      if negb (rr_enabled request) then Ret (Ok None)
      else if bool_decide (rr_mode request = LocalOnly) then Ret (Err LocalOnlyMode)
      else
        match not_blank_str (rr_trusted_directory_did request) with
        | None => Ret (Err MissingTrustAnchor)
        | Some trusted_did =>
            let key := (mode_cache_key (rr_mode request), trusted_did) in
            do! now := TimeNow in
            do! found := CacheFind key now in
            match found with
            | Some entry => Ret (Ok (Some (hit (cd_resolution entry))))
            | None =>
                do! browsed := Browse (Z.max 1 (Z.min (rr_collection_window_ms request) MAX_COLLECTION_WINDOW_MS)) in
                match browsed with
                | Err e => Ret (Err (Discovery e))
                | Ok services =>
                    run! verified := verify_all (omap candidate_from_service services) trusted_did in
                    match sort_by resolution_leb verified with
                    | candidate :: _ =>
                        match dn_expires_at candidate with
                        | Some expires_at =>
                            if now <? expires_at
                            then do! _ := CacheStore key (mkCached candidate expires_at) in Ret (Ok (Some candidate))
                            else Ret (Ok (Some candidate))
                        | None => Ret (Ok (Some candidate))
                        end
                    | [] =>
                        Ret (if bool_decide (rr_mode request = Public) && rr_allow_public_fallback request then Ok None
                             else Err NoTrustedCandidate)
                    end
                end
            end
        end
  end.

(** ** What stands behind a directory that was found *)

Notation dtrace := (list (step discovery_answer)).
Definition seen (s : dtrace) (a : discovery_action) (r : discovery_answer a) : Prop := Did (resp:=discovery_answer) a r ∈ s.

(** Asked for, not settled by the configuration, and with a directory to trust. *)
Record discovering (request : ResolveRequest) (did : string) : Prop := {
  dr_unset : not_blank_str (rr_explicit_directory request) = None;
  dr_enabled : rr_enabled request = true;
  dr_online : rr_mode request <> LocalOnly;
  dr_trusted : rr_trusted_directory_did request = Some did
}.
(** The candidate comes from a service that was announced. *)
Definition announced (s : dtrace) (c : Candidate) : Prop :=
  exists window services info, seen s (Browse window) (Ok services) /\ info ∈ services /\ candidate_from_service info = Some c.
Definition served (s : dtrace) (c : Candidate) (path : string) (body : list byte) : Prop :=
  exists status, seen s (Fetch (cn_hostname c) (candidate_pins c) (candidate_origin c +:+ path)) (Ok (status, Some body))
                 /\ is_success status = true.
(** [d], the text [body] with the value [value], is signed by a key of [document]. *)
Definition signed_descriptor (d : Descriptor) (value document : json) : Prop :=
  exists key fields canonical signature,
    verification_key d document = Some key /\ as_object value = Some fields
    /\ jcs (JObject (obj_remove "signature" fields)) = Some canonical
    /\ hex_decode (dg_value (de_signature d)) = Some signature /\ length signature = 64%nat
    /\ ed25519_verify key (SIGNATURE_DOMAIN ++ canonical) signature = true.
Record vouched (s : dtrace) (did : string) (r : DirectoryResolution) : Prop := {
  vo_did : dn_directory_did r = Some did;
  vo_source : dn_source r = FromNetwork;
  vo_https : starts_with (dn_endpoint r) "https://" = true;
  vo_host : exists url, url_parse (dn_endpoint r) = Some url /\ url_host_str url = dn_observed_hostname r;
  vo_descriptor : exists c body value d document_body document t1 t2,
    announced s c /\ dn_observed_hostname r = Some (cn_hostname c)
    /\ served s c DESCRIPTOR_PATH body /\ zlen body <= 32768
    /\ json_from_slice body = Ok value /\ descriptor_from_value value = Ok d
    /\ seen s TimeNow t1 /\ descriptor_rejected d c did t1 = false
    /\ served s c "/.well-known/did.json" document_body /\ json_from_slice document_body = Ok document
    /\ get_str document "id" = Some did /\ signed_descriptor d value document
    /\ dn_endpoint r ∈ de_api_endpoints d
    /\ seen s TimeNow t2 /\ dn_expires_at r = Some (Z.min (de_expires_at d) (t2 + MAX_CACHE_SECONDS))
}.

(** What the resolutions are asked for. *)
Context (asked : ResolveRequest -> Prop).
Definition asked_for (key : CacheKey) : Prop :=
  exists request, asked request /\ discovering request key.2 /\ key.1 = mode_cache_key (rr_mode request).

(** What a resolution may do, given what it did. *)
Definition discovery_ok (s : dtrace) (a : discovery_action) : Prop :=
  match a with
  | TimeNow => True
  | CacheFind key now => seen s TimeNow now /\ asked_for key
  | CacheStore key entry =>
      vouched s key.2 (cd_resolution entry) /\ dn_expires_at (cd_resolution entry) = Some (cd_expires_at entry)
      /\ exists now, seen s (CacheFind key now) None
  | Browse window => 1 <= window <= MAX_COLLECTION_WINDOW_MS /\ exists key now, seen s (CacheFind key now) None
  | Fetch host pins url =>
      exists c, announced s c /\ host = cn_hostname c /\ pins = candidate_pins c
                /\ (url = candidate_origin c +:+ DESCRIPTOR_PATH \/ url = candidate_origin c +:+ "/.well-known/did.json")
  end.
Definition discovery_end (s : dtrace) (r : result (option DirectoryResolution) LocalDirectoryError) : Prop :=
  match r with
  | Ok (Some r) =>
      dn_source r = FromConfiguration /\ s = []
      \/ (exists key now, seen s (CacheFind key now) None /\ vouched s key.2 r /\ dn_cache_hit r = false)
      \/ (exists key now entry, seen s TimeNow now /\ seen s (CacheFind key now) (Some entry) /\ r = hit (cd_resolution entry))
  | _ => True
  end.

Notation goes ok fin := (along (resp:=discovery_answer) log ok fin).
Definition on_ok {A} (P : dtrace -> A -> Prop) (s : dtrace) (r : result A LocalDirectoryError) : Prop :=
  match r with Ok v => P s v | Err _ => True end.

Lemma seen_mono s s' a r : s `prefix_of` s' -> seen s a r -> seen s' a r.
Proof. intros Hp. by apply prefix_elem. Qed.
Lemma announced_mono s s' c : s `prefix_of` s' -> announced s c -> announced s' c.
Proof. intros Hp (w & l & i & H & ?). exists w, l, i. split; [by eapply seen_mono | done]. Qed.
Lemma served_mono s s' c path body : s `prefix_of` s' -> served s c path body -> served s' c path body.
Proof. intros Hp (st & H & ?). exists st. split; [by eapply seen_mono | done]. Qed.
Lemma vouched_mono s s' did r : s `prefix_of` s' -> vouched s did r -> vouched s' did r.
Proof.
  intros Hp [? ? ? ? (c & body & value & d & db & doc & t1 & t2 & H)]. destruct_and! H. constructor; try done.
  exists c, body, value, d, db, doc, t1, t2. split_and!; eauto using announced_mono, served_mono, seen_mono.
Qed.
Lemma log_seen s a (r : discovery_answer a) : seen (log s a r) a r.
Proof. apply elem_last. Qed.
Lemma log_keeps s a (r : discovery_answer a) : s `prefix_of` log s a r.
Proof. by eexists. Qed.

(** A step after which the trace has only grown. *)
Lemma along_disc {A R} (mid : dtrace -> A -> Prop) (fin : dtrace -> R -> Prop) s (p : dprog (result A LocalDirectoryError)) k :
  goes discovery_ok (on_ok mid) s p ->
  (forall s' v, mid s' v -> s `prefix_of` s' -> goes discovery_ok (on_ok fin) s' (k v)) ->
  goes discovery_ok (on_ok fin) s (disc_bind p k).
Proof.
  intros Hp Hk. eapply along_bind; [by apply along_prefix|]. intros s' [v|e] [H Hpre]; [by apply Hk | done].
Qed.

Section candidate.
Context (did : string) (c : Candidate).

Lemma fetch_served s rejected path :
  announced s c -> (path = DESCRIPTOR_PATH \/ path = "/.well-known/did.json") ->
  goes discovery_ok (on_ok (fun s' body => served s' c path body)) s
    (fetch_body rejected (cn_hostname c) (candidate_pins c) (candidate_origin c +:+ path)).
Proof.
  intros Hc Hpath. split.
  - exists c. split_and!; [done..|]. destruct Hpath as [->| ->]; tauto.
  - intros [[status body]|e]; [|done]. cbn. destruct (negb (is_success status) || is_redirection status) eqn:E; [done|].
    destruct body as [body|]; [|done]. apply orb_false_iff in E as [E _]. apply negb_false_iff in E.
    exists status. split; [apply log_seen | done].
Qed.
Lemma signature_signed d value document :
  verify_descriptor_signature d value document = Ok tt -> signed_descriptor d value document.
Proof.
  unfold verify_descriptor_signature, ok_or. intros H.
  repeat (case_match; simplify_eq/=; try done).
  match goal with H : negb _ = false |- _ => apply negb_false_iff, Nat.eqb_eq in H end.
  unfold signed_descriptor. naive_solver.
Qed.
(** What [validate_descriptor] establishes. *)
Definition validated (d : Descriptor) (value : json) (s : dtrace) : Prop :=
  exists document_body document t, seen s TimeNow t /\ descriptor_rejected d c did t = false
    /\ served s c "/.well-known/did.json" document_body /\ json_from_slice document_body = Ok document
    /\ get_str document "id" = Some (de_directory_did d) /\ signed_descriptor d value document.
Lemma validate_ok d value s :
  announced s c ->
  goes discovery_ok (on_ok (fun s' _ => validated d value s')) s
    (validate_descriptor d value c did (candidate_pins c) (candidate_origin c)).
Proof.
  intros Hc. split; [done|]. intros now. destruct (descriptor_rejected d c did now) eqn:Er; [done|].
  eapply along_disc; [apply fetch_served; [eapply announced_mono, Hc; apply log_keeps | by right]|].
  intros s' body Hs Hp. unfold parse_body. destruct (json_from_slice body) as [document|] eqn:Ej; [|done].
  simpl. destruct (opt_str_is (get_str document "id") (de_directory_did d)) eqn:Ei; [|done]. simpl.
  destruct (verify_descriptor_signature d value document) as [[]|] eqn:Ev; [|done].
  exists body, document, now. split_and!; try done.
  - eapply seen_mono; [exact Hp | apply log_seen].
  - unfold opt_str_is, is_some_and in Ei. destruct (get_str document "id"); [|done]. by apply String.eqb_eq in Ei as ->.
  - by apply signature_signed.
Qed.
Lemma rejected_did d t : descriptor_rejected d c did t = false -> de_directory_did d = did.
Proof.
  unfold descriptor_rejected. rewrite !orb_false_iff. intros H. destruct_and! H. by apply String.eqb_eq, negb_false_iff.
Qed.
Lemma endpoint_sound d endpoint :
  endpoint_of d c = Ok endpoint ->
  endpoint ∈ de_api_endpoints d /\ starts_with endpoint "https://" = true
  /\ exists url, url_parse endpoint = Some url /\ url_host_str url = Some (cn_hostname c).
Proof.
  unfold endpoint_of, ok_or. destruct (least_endpoint _) as [e|] eqn:El; [|done]. cbn [rbind].
  destruct (url_parse e) as [url|] eqn:Eu; [|done]. cbn [rbind].
  destruct (bool_decide_reflect (url_host_str url = Some (cn_hostname c))) as [Hh|]; [|done].
  destruct (negb _ || negb _) eqn:E; [done|]. intros [= <-].
  unfold least_endpoint in El. assert (e ∈ sort_by str_leb (base.filter (fun e => starts_with e "https://" = true) (de_api_endpoints d))) as Hin
    by (by apply head_Some_elem_of).
  apply sort_by_elem, list_elem_of_filter in Hin as [Hs Hin]. eauto.
Qed.
Lemma verify_vouched s :
  announced s c -> goes discovery_ok (on_ok (fun s' r => vouched s' did r /\ dn_cache_hit r = false)) s (verify_candidate c did).
Proof.
  intros Hc. unfold verify_candidate. eapply along_disc; [by apply fetch_served; [|left]|].
  intros s1 body Hb Hp1. destruct (32768 <? zlen body) eqn:El; [done|]. apply Z.ltb_ge in El.
  unfold parse_body. destruct (json_from_slice body) as [value|] eqn:Ej; [|done]. cbn [map_err rbind].
  destruct (descriptor_from_value value) as [d|] eqn:Ed; [|done]. cbn [map_err rbind].
  eapply along_disc; [apply (validate_ok d value); by eapply announced_mono|].
  intros s2 _ (db & doc & t & Ht & Hr & Hdoc & Hj & Hid & Hsig) Hp2.
  destruct (endpoint_of d c) as [endpoint|] eqn:Ee; [|done]. split; [done|]. intros now. cbn [on_ok along].
  apply endpoint_sound in Ee as (Hin & Hs & url & Hu & Hh). pose proof (rejected_did _ _ Hr) as Hd.
  pose proof (log_keeps s2 TimeNow now) as Hl. rewrite Hd in *.
  split; [|done]. constructor; cbn; try done; [eauto|]. exists c, body, value, d, db, doc, t, now.
  split_and!; try done; eauto using announced_mono, seen_mono, served_mono, log_seen.
Qed.
End candidate.

Lemma all_vouched did candidates s :
  Forall (announced s) candidates ->
  goes discovery_ok (fun s' l => Forall (fun r => vouched s' did r /\ dn_cache_hit r = false) l) s (verify_all candidates did).
Proof.
  revert s. induction candidates as [|c candidates IH]; intros s Hc; [constructor|].
  apply Forall_cons in Hc as [Hc Hrest]. cbn [verify_all].
  eapply along_bind; [apply along_prefix, verify_vouched, Hc|]. intros s1 r [Hr Hp].
  eapply along_bind; [apply along_prefix, IH; eapply Forall_impl; [exact Hrest | intros ? ?; by eapply announced_mono]|].
  intros s2 rest [Hv Hp2]. cbn [along]. destruct r as [v|e]; [|done]. constructor; [|done]. destruct Hr. split; [by eapply vouched_mono | done].
Qed.
Lemma services_announced s window services :
  seen s (Browse window) (Ok services) -> Forall (announced s) (omap candidate_from_service services).
Proof.
  intros Hs. apply Forall_forall. intros c Hc. apply list_elem_of_omap in Hc as (info & Hi & He).
  by exists window, services, info.
Qed.
Lemma not_blank_id o v : not_blank_str o = Some v -> o = Some v.
Proof. unfold not_blank_str. destruct o as [s|]; [|done]. simpl. destruct (str_is_empty (trim s)); naive_solver. Qed.
Lemma resolve_vouched request : asked request -> goes discovery_ok discovery_end [] (resolve request).
Proof.
  intros Hr. unfold resolve. destruct (not_blank_str (rr_explicit_directory request)) eqn:Ee; [by left|].
  destruct (rr_enabled request) eqn:En; [|done]. cbn [negb]. case_bool_decide as Em; [done|].
  destruct (not_blank_str (rr_trusted_directory_did request)) as [did|] eqn:Ed; [|done]. apply not_blank_id in Ed.
  set (key := (mode_cache_key (rr_mode request), did)).
  assert (asked_for key) as Hk by (by exists request).
  split; [done|]. intros now. split; [split; [apply log_seen | done]|]. intros [entry|].
  { right. right. exists key, now, entry. split_and!; [eapply seen_mono; [apply log_keeps | apply log_seen] | apply log_seen | done]. }
  split; [split; [unfold MAX_COLLECTION_WINDOW_MS; lia | exists key, now; apply log_seen]|]. intros [services|e]; [|done].
  set (s := log (log (log _ _ _) _ _) _ _).
  assert (seen s (CacheFind key now) None) as Hmiss by (eapply seen_mono; [apply log_keeps | apply log_seen]).
  eapply along_bind; [apply along_prefix, (all_vouched did); eapply services_announced, log_seen|].
  intros s' verified [Hv Hp].
  destruct (sort_by resolution_leb verified) as [|candidate rest] eqn:Es; [by destruct (_ && _)|].
  assert (vouched s' did candidate /\ dn_cache_hit candidate = false) as [Hc Hh].
  { rewrite Forall_forall in Hv. apply Hv, (sort_by_elem resolution_leb). rewrite Es. by left. }
  assert (discovery_end s' (Ok (Some candidate))) as He by (right; left; exists key, now; split_and!; [by eapply seen_mono | done..]).
  destruct (dn_expires_at candidate) as [expires|] eqn:Ex; [|done]. destruct (now <? expires); [|done].
  split; [split_and!; [done | done | exists now; by eapply seen_mono]|]. intros []. right. left. exists key, now.
  split_and!; [eapply seen_mono; [apply log_keeps|]; by eapply seen_mono | eapply vouched_mono, Hc; apply log_keeps | done].
Qed.

(** ** Many resolutions share the cache *)

(** The clock, and what the network answers. *)
Record disc_env := mkDiscEnv {
  dv_now : Z;
  dv_services : result (list ResolvedService) string;
  dv_fetched : result (Z * option (list byte)) string
}.
Definition live_entries (now : Z) (w : cache) : cache := base.filter (fun kv => now < cd_expires_at kv.2) w.
Definition disc_perform (w : cache) (e : disc_env) (a : discovery_action) : discovery_answer a * cache :=
  match a with
  | TimeNow => (dv_now e, w)
  | CacheFind key now => let w := live_entries now w in (w !! key, w)
  | CacheStore key entry => (tt, <[key := entry]> w)
  | Browse _ => (dv_services e, w)
  | Fetch _ _ _ => (dv_fetched e, w)
  end.
Definition resolving (p : dprog (result (option DirectoryResolution) LocalDirectoryError)) : Prop := exists request, asked request /\ p = resolve request.
Notation disc_exec := (exec disc_perform dv_now resolving (fun _ _ _ => False) ∅).
Notation history := (ghost (resp:=discovery_answer) log []).

Lemma cache_stored tr t w ts key entry :
  disc_exec tr t w ts -> w !! key = Some entry -> exists j t', Ev (resp:=discovery_answer) j t' (CacheStore key entry) tt ∈ tr.
Proof.
  induction 1 as [|tr t w ts p Hx IH Hh|tr t w w' ts Hx IH He|tr t w ts i a k e r w' Hx IH Hp Ht Hw]; try done.
  intros Hl. assert (w !! key = Some entry -> exists j t', Ev (resp:=discovery_answer) j t' (CacheStore key entry) tt ∈ Ev i (dv_now e) a r :: tr) as Hold.
  { intros (j & t' & H)%IH. exists j, t'. by right. }
  destruct a as [|key' now|key' entry'| |]; cbn in Hw; injection Hw as <- <-; try by apply Hold.
  - apply map_lookup_filter_Some in Hl as [Hl _]. by apply Hold.
  - apply lookup_insert_Some in Hl as [[<- <-]|[_ Hl]]; [|by apply Hold]. exists i, (dv_now e). by left.
Qed.
Lemma history_event i (tr : list (event discovery_answer)) a r : seen (history i tr) a r -> exists t, Ev i t a r ∈ tr.
Proof.
  induction tr as [|[j t b q] tr IH]; simpl; [by intros ?%elem_of_nil|]. case_bool_decide as E.
  - subst j. unfold seen, log. rewrite elem_of_app, list_elem_of_singleton. intros [(t' & H)%IH|H].
    + exists t'. by right.
    + exists t. apply (f_equal (fun x => match x with Did a r => Ev (resp:=discovery_answer) i t a r end)) in H. cbn in H. rewrite H. by left.
  - intros (t' & H)%IH. exists t'. by right.
Qed.
Lemma history_prefix i (tr2 tr1 : list (event discovery_answer)) : history i tr1 `prefix_of` history i (tr2 ++ tr1).
Proof.
  induction tr2 as [|[j t b q] tr2 IH]; [done|]. cbn [app ghost]. case_bool_decide; [|done]. etrans; [exact IH | apply log_keeps].
Qed.
Lemma resolving_vouched p : resolving p -> goes discovery_ok discovery_end [] p.
Proof. intros (request & Hr & ->). by apply resolve_vouched. Qed.
Lemma stored_vouched tr t w ts j t' key entry :
  disc_exec tr t w ts -> Ev (resp:=discovery_answer) j t' (CacheStore key entry) tt ∈ tr ->
  vouched (history j tr) key.2 (cd_resolution entry) /\ dn_expires_at (cd_resolution entry) = Some (cd_expires_at entry).
Proof.
  intros Hx (tr2 & tr1 & ->)%list_elem_of_split.
  pose proof (exec_allowed log discovery_ok discovery_end [] _ _ _ _ _ _ _ _ _ resolving_vouched Hx) as (Hv & He & _).
  split; [|done]. eapply vouched_mono, Hv. etrans; [|apply (history_prefix j tr2)]. cbn [ghost]. rewrite bool_decide_true by done. apply log_keeps.
Qed.
(** An entry that was found was stored before, and had not expired. *)
Definition stored_before (key : CacheKey) (entry : CachedResolution) (tr : list (event discovery_answer)) : Prop :=
  exists j t, Ev (resp:=discovery_answer) j t (CacheStore key entry) tt ∈ tr.
Definition found_before (ev : event discovery_answer) (tr : list (event discovery_answer)) : Prop :=
  match ev with
  | Ev _ _ (CacheFind key now) r => forall entry, r = Some entry -> now < cd_expires_at entry /\ stored_before key entry tr
  | _ => True
  end.
Lemma find_found tr t w ts i a k e r w' :
  disc_exec tr t w ts -> ts !! i = Some (Act a k) -> t <= dv_now e -> disc_perform w e a = (r, w') -> found_before (Ev i (dv_now e) a r) tr.
Proof.
  intros Hx _ _ Hw. destruct a as [|key now| | |]; try done. intros entry ->. cbn in Hw. injection Hw as Hl _.
  apply map_lookup_filter_Some in Hl as [Hl Hn]. split; [done|]. by eapply cache_stored.
Qed.
Lemma found_stored tr t w ts i t' key now entry :
  disc_exec tr t w ts -> Ev (resp:=discovery_answer) i t' (CacheFind key now) (Some entry) ∈ tr ->
  now < cd_expires_at entry /\ stored_before key entry tr.
Proof.
  intros Hx (tr2 & tr1 & ->)%list_elem_of_split.
  destruct (exec_each found_before tr2 _ tr1 _ _ _ find_found Hx entry eq_refl) as [Hn (j & t'' & Hj)].
  split; [done|]. exists j, t''. apply elem_of_app. right. by right.
Qed.
Lemma vouched_hit s did r : vouched s did r -> vouched s did (hit r).
Proof. by intros []. Qed.

(** A directory that a resolution takes from the network is the trusted one, as
    far as the candidate's own word goes: the resolution itself, or an earlier one
    for the same mode and directory whose entry had not expired, fetched a
    descriptor from an announced candidate at the addresses announced for it, with
    the trusted identifier, unexpired, signed by a key of the identity document
    which the same candidate served, and offering the endpoint over HTTPS at the
    candidate's own host name; entries are kept at most 300 seconds beyond the
    clock reading of their verification.  Under every interleaving of resolutions
    that share the cache. *)
Theorem local_directory_vouched (tr : list (event discovery_answer)) t w ts i r
    (Hx : disc_exec tr t w ts) (Hi : ts !! i = Some (Ret (Ok (Some r)))) (Hr : dn_source r = FromNetwork) :
  exists key now found j,
    asked_for key /\ seen (history i tr) TimeNow now /\ seen (history i tr) (CacheFind key now) found
    /\ vouched (history j tr) key.2 r
    /\ match found with
       | None => j = i /\ dn_cache_hit r = false
       | Some entry => r = hit (cd_resolution entry) /\ exists e, dn_expires_at r = Some e /\ now < e
       end.
Proof.
  pose proof (exec_along log discovery_ok discovery_end [] _ _ _ _ _ _ resolving_vouched Hx Hi) as He. cbn in He.
  assert (forall key now x, seen (history i tr) (CacheFind key now) x -> seen (history i tr) TimeNow now /\ asked_for key) as Hfind.
  { intros key now x (t' & H)%history_event. apply list_elem_of_split in H as (tr2 & tr1 & ->).
    pose proof (exec_allowed log discovery_ok discovery_end [] _ _ _ _ _ _ _ _ _ resolving_vouched Hx) as [Hn Hk].
    split; [|done]. eapply seen_mono, Hn. etrans; [|apply history_prefix]. cbn [ghost]. rewrite bool_decide_true by done. apply log_keeps. }
  destruct He as [[H _]|[(key & now & Hf & Hv & Hh)|(key & now & entry & _ & Hf & ->)]]; [congruence| |].
  - destruct (Hfind _ _ _ Hf). by exists key, now, None, i.
  - destruct (Hfind _ _ _ Hf) as [Hn Hk]. apply history_event in Hf as Hev. destruct Hev as (t' & Hev).
    destruct (found_stored _ _ _ _ _ _ _ _ _ Hx Hev) as [Hlt (j & t'' & Hs)].
    destruct (stored_vouched _ _ _ _ _ _ _ _ Hx Hs) as [Hv Hexp].
    exists key, now, (Some entry), j. split_and!; try done; [by apply vouched_hit | by exists (cd_expires_at entry)].
Qed.
End discovery.

(** ** Two resolutions, and an impostor *)

(** An [https] URL on the default port, as what follows the scheme. *)
Definition https_host (u : string) : string := default empty_str (head (str_split "/" u)).
Lemma https_print_parse u : strip_prefix "https://" ("https://" +:+ u) = Some u.
Proof. by apply strip_prefix_spec. Qed.
Definition https_url : UrlOps string := {|
  url_parse s := strip_prefix "https://" s;
  url_scheme _ := "https";
  url_username _ := EmptyString;
  url_password _ := None;
  url_host_str u := Some (https_host u);
  url_fragment _ := None;
  url_port_or_known_default _ := Some 443;
  url_origin u := Some ("https", https_host u, 443);
  url_join u l := Some (https_host u +:+ l);
  url_to_string u := "https://" +:+ u;
  url_print_parse := https_print_parse
|}.
Definition read_descriptor (v : json) : result Descriptor string :=
  ok_or
    (let! schema := get_str v "schema" in let! profile := get_str v "profile" in
     let! version := get_str v "profile_version" in let! did := get_str v "directory_did" in
     let! role := get_str v "role" in let! endpoints := jget v "api_endpoints" ≫= as_array in
     let! issued := get_i64 v "issued_at" in let! expires := get_i64 v "expires_at" in
     let! signature := jget v "signature" in let! algorithm := get_str signature "algorithm" in
     let! key_id := get_str signature "key_id" in let! value := get_str signature "value" in
     Some (mkDescriptor schema profile version did role (omap as_str endpoints) issued expires (mkDescriptorSignature algorithm key_id value)))
    "descriptor".
(** A signature is the key before the start of the message. *)
Definition toy_verify (key message signature : list byte) : bool := bool_decide (signature = key ++ resize 32 x00 message).
Notation toy_resolve :=
  (resolve (url_ops := https_url) (codec := model_json_codec) read_descriptor (fun v => Some (json_to_vec (JsonCodec := model_json_codec) v))
     (fun s => Some (str_bytes s)) (fun s => Some (str_bytes s)) (fun _ => true) toy_verify (fun _ => "sha") (fun _ => "address")).

Definition trusted : string := "did:web:directory.example".
Definition owner_key : string := "owner-key-owner-key-owner-key-32".
Definition other_key : string := "other-key-other-key-other-key-32".
Definition host_service (host : string) : ResolvedService :=
  mkService (host +:+ ".") 443 [V4 (V4Addr 192 168 1 7)] [("pv", "0"); ("path", DESCRIPTOR_PATH); ("transport", "https")].
Definition host_descriptor (host key : string) : json :=
  mk_obj [("schema", JString "iicp.local-directory-descriptor.v0"); ("profile", JString "urn:iicp:profile:local-directory-discovery:v1");
          ("profile_version", JString "0"); ("directory_did", JString trusted); ("role", JString "seed");
          ("api_endpoints", JArray [JString ("https://" +:+ host +:+ "/api")]); ("issued_at", u64_json 90); ("expires_at", u64_json 200);
          ("signature", mk_obj [("algorithm", JString "Ed25519"); ("key_id", JString (trusted +:+ "#key-1"));
                                ("value", JString (key +:+ "IICP-LOCAL-DIRECTORY-DESCRIPTOR-"))])].
Definition host_document (key : string) : json :=
  mk_obj [("id", JString trusted);
          ("verificationMethod", JArray [mk_obj [("id", JString (trusted +:+ "#key-1")); ("publicKeyJwk", mk_obj [("x", JString key)])]])].
Definition demo_request : ResolveRequest := mkResolve true Private None (Some trusted) false 1000.

Notation toy_sched := (sched discovery_answer (result (option DirectoryResolution) LocalDirectoryError) disc_env).
Definition served_json (v : json) : result (Z * option (list byte)) string := Ok (200, Some (json_to_vec (JsonCodec := model_json_codec) v)).
Definition step_of (i : nat) (now : Z) (host key : string) (document : bool) : toy_sched :=
  inr (i, mkDiscEnv now (Ok [host_service host]) (served_json (if document then host_document key else host_descriptor host key))).
(** One resolution against a host, and a second one after it. *)
Definition host_steps (host key : string) : list toy_sched :=
  [inl (toy_resolve demo_request); inl (toy_resolve demo_request)]
  ++ ((fun p : Z * bool => step_of 0 p.1 host key p.2) <$> [(100, false); (100, false); (100, false); (101, false); (101, false); (101, true); (101, false); (101, false)])
  ++ [step_of 1 150 host key false; step_of 1 150 host key false].
Notation toy_run l := (run_sched disc_perform dv_now ∅ l).
Notation toy_resolving :=
  (resolving (url_ops := https_url) (codec := model_json_codec) read_descriptor (fun v => Some (json_to_vec (JsonCodec := model_json_codec) v))
     (fun s => Some (str_bytes s)) (fun s => Some (str_bytes s)) (fun _ => true) toy_verify (fun _ => "sha") (fun _ => "address")
     (fun request => rr_trusted_directory_did request = Some trusted)).
Lemma host_steps_resolving host key : Forall (fun x : toy_sched => match x with inl p => toy_resolving p | inr _ => True end) (host_steps host key).
Proof. unfold host_steps. repeat constructor; by exists demo_request. Qed.
Lemma host_run_exec host key (st := toy_run (host_steps host key)) :
  exec disc_perform dv_now toy_resolving (fun _ _ _ => False) ∅ st.1.1.1 st.1.1.2 st.1.2 st.2.
Proof.
  pose proof (@run_sched_exec _ _ _ _ _ disc_perform dv_now toy_resolving (fun _ _ _ => False) ∅ (host_steps host key) (host_steps_resolving host key)) as Hx.
  subst st. by destruct (toy_run (host_steps host key)) as [[[tr t] w] ts].
Qed.
Definition found_at (host : string) (cached : bool) : DirectoryResolution :=
  mkDirectory ("https://" +:+ host +:+ "/api") (Some trusted) FromNetwork (Some host) ["address"] (Some "sha") (Some 200) cached.
Definition result_of (p : option (dprog (result (option DirectoryResolution) LocalDirectoryError))) : option DirectoryResolution :=
  match p with Some (Ret (Ok (Some r))) => Some r | _ => None end.
Example directory_found : result_of ((toy_run (host_steps "directory.local" owner_key)).2 !! 0%nat) = Some (found_at "directory.local" false).
Proof. vm_compute. reflexivity. Qed.
Lemma directory_cached : (toy_run (host_steps "directory.local" owner_key)).2 !! 1%nat = Some (Ret (Ok (Some (found_at "directory.local" true)))).
Proof. vm_compute. reflexivity. Qed.
Lemma local_directory_vouched_witness :
  exists (key : CacheKey) (now : Z), key.2 = trusted /\ now < 200
    /\ seen (ghost (resp:=discovery_answer) log [] 1 (toy_run (host_steps "directory.local" owner_key)).1.1.1) TimeNow now.
Proof.
  destruct (local_directory_vouched _ _ _ _ _ _ _ _ _ _ _ _ _ _ _ (host_run_exec "directory.local" owner_key) directory_cached eq_refl)
    as (key & now & found & j & (request & Ha & Hd & _) & Hn & _ & _ & H).
  exists key, now. split; [|split; [|exact Hn]].
  - pose proof (dr_trusted _ _ Hd) as Ht. rewrite Ha in Ht. by injection Ht as <-.
  - destruct found as [entry|]; [|by destruct H]. destruct H as [_ (e & [= <-] & He)]. exact He.
Defined.

(** Any announced host that serves an identity document of its own, naming the
    trusted directory and another key, is taken for that directory: nothing ties
    the document to the identifier. *)
Lemma impostor_found :
  owner_key <> other_key
  /\ result_of ((toy_run (host_steps "directory.local" owner_key)).2 !! 0%nat) = Some (found_at "directory.local" false)
  /\ result_of ((toy_run (host_steps "evil.local" other_key)).2 !! 0%nat) = Some (found_at "evil.local" false).
Proof. split; [done|]. split; vm_compute; reflexivity. Qed.
(** The bound on the lifetime holds where the subtraction does not overflow, and
    not beyond: a descriptor issued at the least time passes. *)
Lemma lifetime_bounded d c did now :
  i64_min <= de_expires_at d - de_issued_at d <= i64_max ->
  descriptor_rejected d c did now = false -> de_expires_at d - de_issued_at d <= MAX_CACHE_SECONDS.
Proof.
  intros Hd. unfold descriptor_rejected. rewrite !orb_false_iff. intros H. destruct_and! H.
  match goal with H : (MAX_CACHE_SECONDS <? i64_sub _ _) = false |- _ => apply Z.ltb_ge in H; unfold i64_sub in H end.
  unfold i64_min, i64_max in *. rewrite Z.mod_small in * by lia. lia.
Qed.
Lemma lifetime_wraps :
  exists d c, de_issued_at d = i64_min /\ de_expires_at d = 200 /\ descriptor_rejected d c trusted 100 = false.
Proof.
  exists (mkDescriptor "iicp.local-directory-descriptor.v0" "urn:iicp:profile:local-directory-discovery:v1" "0" trusted "seed" [] i64_min 200
            (mkDescriptorSignature "Ed25519" (trusted +:+ "#key-1") empty_str)).
  exists (mkCandidate "directory.local" 443 [] ∅). split_and!; [done..|]. vm_compute. reflexivity.
Qed.
