(* ===== verification/InstanceLock.v ===== *)
(** * One process per node ([src/instance_lock.rs])

    The lock of a node is a file with the holder's process number and a second
    one with a token that tells the process from a later one of the same number.
    Taking and dropping it are programs over the two files and the process table
    (Linux build); many processes run them at once. *)

From stdpp Require Import gmap.
From S2P Require Import Prelude Program Concurrent Text Chars.

Inductive lock_file := PidFile | MetaFile.
Inductive io_kind := AlreadyExists | NotFound | OtherKind.
Record io_error := mkIoError { io_kind_of : io_kind; io_text : string }.
Inductive ProcessState := Alive | Absent | Unclear.
Inductive OwnerState := Current | Stale | Indeterminate.

(** [MakeDir] finds and creates the directory, [CreateNew] opens a file that must
    not exist, [WriteSync] writes to it and synchronises. *)
Inductive lock_action :=
| MakeDir
| ReadBootId
| ReadStat (pid : Z)
| CreateNew (f : lock_file)
| WriteSync (f : lock_file) (text : string)
| RemoveFile (f : lock_file)
| ReadFile (f : lock_file)
| PidState (pid : Z).
Definition lock_answer (a : lock_action) : Type :=
  match a with
  | MakeDir => result unit string
  | ReadBootId | ReadStat _ | ReadFile _ => option string
  | CreateNew _ | WriteSync _ _ | RemoveFile _ => result unit io_error
  | PidState _ => ProcessState
  end.
Notation lprog := (prog lock_answer).
Notation "'lock!' x := a 'in' k" := (Act (resp:=lock_answer) a (fun x => k))
  (at level 200, x pattern, a at level 100, k at level 200) : iicp_scope.

Record InstanceLock := mkLock { il_owner_pid : Z; il_owner_token : option string }.

(** ** The identity of a process *)

(** [s.rsplit_once(p)] *)
Fixpoint rsplit_once (p s : string) : option (string * string) :=
  match s with
  | EmptyString => None
  | String c s' =>
      match rsplit_once p s' with
      | Some (l, r) => Some (String c l, r)
      | None => let! r := strip_prefix p s in Some (EmptyString, r)
      end
  end.
(** [s.split_whitespace()], the word read so far being [word] *)
Fixpoint words (fuel : nat) (word s : string) : list string :=
  let ended := if str_is_empty word then [] else [word] in
  match fuel with
  | O => ended
  | S fuel =>
      match first_strip ws_encodings s, s with
      | Some rest, _ => ended ++ words fuel EmptyString rest
      | None, String c rest => words fuel (word +:+ String c EmptyString) rest
      | None, EmptyString => ended
      end
  end.
Definition split_whitespace (s : string) : list string := words (S (String.length s)) EmptyString s.
Definition token_text (boot stat : option string) : option string :=
  let! boot := boot in
  let! stat := stat in
  let! (_, after_name) := rsplit_once ") " stat in
  let! start_ticks := split_whitespace after_name !! 19%nat in
  Some (trim boot +:+ ":" +:+ start_ticks).
(** The second file is not read where the first could not be. *)
Definition process_token (pid : Z) : lprog (option string) :=
  lock! boot := ReadBootId in
  match boot with
  | None => Ret None
  | Some boot => lock! stat := ReadStat pid in Ret (token_text (Some boot) stat)
  end.

(** ** The two files *)

Definition remove_if_present (f : lock_file) : lprog (result unit io_error) :=
  lock! r := RemoveFile f in
  Ret match r with
      | Err e => match io_kind_of e with NotFound => Ok tt | _ => Err e end
      | Ok _ => Ok tt
      end.
Definition remove_lock_files : lprog (result unit io_error) :=
  run! pid_result := remove_if_present PidFile in
  run! metadata_result := remove_if_present MetaFile in
  Ret match pid_result with Ok _ => metadata_result | Err e => Err e end.
Definition read_owner_pid : lprog (option Z) :=
  lock! text := ReadFile PidFile in
  Ret (let! text := text in parse_uint u32_max (trim text)).
Definition read_owner_token : lprog (option string) :=
  lock! text := ReadFile MetaFile in
  Ret (let! text := text in if str_is_empty (trim text) then None else Some (trim text)).
(** The error after the file with the number was removed again. *)
Definition undo_create (e : io_error) : lprog (result unit io_error) := lock! _ := RemoveFile PidFile in Ret (Err e).
Definition create_pidfile (owner_pid : Z) (owner_token : option string) : lprog (result unit io_error) :=
  lock! created := CreateNew PidFile in
  match created with
  | Err e => Ret (Err e)
  | Ok _ =>
      lock! written := WriteSync PidFile (pretty owner_pid) in
      match written, owner_token with
      | Err e, _ => undo_create e
      | Ok _, None => Ret (Ok tt)
      | Ok _, Some token =>
          run! removed := remove_if_present MetaFile in
          match removed with
          | Err e => undo_create e
          | Ok _ =>
              lock! created := CreateNew MetaFile in
              match created with
              | Err e => undo_create e
              | Ok _ =>
                  lock! written := WriteSync MetaFile token in
                  match written with
                  | Err e => lock! _ := RemoveFile PidFile in lock! _ := RemoveFile MetaFile in Ret (Err e)
                  | Ok _ => Ret (Ok tt)
                  end
              end
          end
      end
  end.

(** ** Taking and dropping the lock *)

Definition owner_state (pid : Z) : lprog OwnerState :=
  lock! state := PidState pid in
  match state with
  | Absent => Ret Stale
  | Unclear => Ret Indeterminate
  | Alive =>
      run! recorded := read_owner_token in
      run! current := process_token pid in
      Ret match recorded, current with
          | Some recorded, Some current => if recorded <>? current then Stale else Current
          | _, _ => Current
          end
  end.
Definition already_serving (node_id : string) (pid : option Z) : string :=
  "node_id " +:+ node_id +:+ " is already being served by "
  +:+ match pid with Some pid => "PID " +:+ pretty pid | None => "an unknown or unverifiable process" end
  +:+ ". Stop that process, choose a different --node, or pass --force to take over.".
Definition io_failed {A} (what : string) (e : io_error) : result A string := Err (what +:+ ": " +:+ io_text e).

Section acquire.
Context (node_id : string) (force : bool) (owner_pid : Z).

Fixpoint acquire_attempts (owner_token : option string) (attempts : nat) (first : bool) : lprog (result InstanceLock string) :=
  match attempts with
  | O => run! pid := read_owner_pid in Ret (Err (already_serving node_id pid))
  | S attempts =>
      run! created := create_pidfile owner_pid owner_token in
      match created with
      | Ok _ => Ret (Ok (mkLock owner_pid owner_token))
      | Err e =>
          match io_kind_of e with
          | AlreadyExists =>
              run! existing := read_owner_pid in
              let again (what : string) : lprog (result InstanceLock string) :=
                run! removed := remove_lock_files in
                match removed with Ok _ => acquire_attempts owner_token attempts false | Err e => Ret (io_failed what e) end in
              if force && first then again "cannot replace raced node lock"
              else
                run! state := match existing with
                              | Some pid => run! s := owner_state pid in Ret (Some s)
                              | None => Ret None
                              end in
                match state, first with
                | Some Stale, true => again "cannot remove stale node instance lock"
                | _, _ => Ret (Err (already_serving node_id existing))
                end
          | _ => Ret (io_failed "cannot create node instance lock" e)
          end
      end
  end.
Definition acquire : lprog (result InstanceLock string) :=
  lock! made := MakeDir in
  match made with
  | Err e => Ret (Err e)
  | Ok _ =>
      run! owner_token := process_token owner_pid in
      run! replaced := (if force then remove_lock_files else Ret (Ok tt)) in
      match replaced with
      | Err e => Ret (io_failed "cannot replace the existing node lock" e)
      | Ok _ => acquire_attempts owner_token 2 true
      end
  end.
End acquire.
(** [drop]: the files of another holder are left alone. *)
Definition drop_lock (l : InstanceLock) : lprog unit :=
  run! pid := read_owner_pid in
  if negb (bool_decide (pid = Some (il_owner_pid l))) then Ret tt
  else
    run! token := read_owner_token in
    if negb (bool_decide (token = il_owner_token l)) then Ret tt
    else run! _ := remove_lock_files in Ret tt.

(** ** Processes at the same node

    The two files, whether a process runs, the boot number and the record the
    kernel keeps of a process.  A step has a time and may be one at which a file
    of the system cannot be read.  Writing reaches the file of that name: it is
    the file that was opened as long as nobody removes it. *)

Record lock_world := LockWorld { w_pid : option string; w_meta : option string }.
Definition lock_file_of (w : lock_world) (f : lock_file) : option string :=
  match f with PidFile => w_pid w | MetaFile => w_meta w end.
Definition set_lock_file (f : lock_file) (x : option string) (w : lock_world) : lock_world :=
  match f with PidFile => LockWorld x (w_meta w) | MetaFile => LockWorld (w_pid w) x end.

Section processes.
Context (boot : option string) (stat : Z -> option string) (alive : Z -> bool).

Definition lock_perform (w : lock_world) (e : Z * bool) (a : lock_action) : lock_answer a * lock_world :=
  match a return lock_answer a * lock_world with
  | MakeDir => (if e.2 then Err "no directory" else Ok tt, w)
  | ReadBootId => (if e.2 then None else boot, w)
  | ReadStat p => (if e.2 then None else stat p, w)
  | ReadFile f => (if e.2 then None else lock_file_of w f, w)
  | PidState p => (if e.2 then Unclear else if alive p then Alive else Absent, w)
  | CreateNew f =>
      match lock_file_of w f with
      | Some _ => (Err (mkIoError AlreadyExists "File exists"), w)
      | None => (Ok tt, set_lock_file f (Some EmptyString) w)
      end
  | WriteSync f text => (Ok tt, match lock_file_of w f with Some _ => set_lock_file f (Some text) w | None => w end)
  | RemoveFile f =>
      match lock_file_of w f with
      | Some _ => (Ok tt, set_lock_file f None w)
      | None => (Err (mkIoError NotFound "No such file"), w)
      end
  end.
Definition lock_start : lock_world := LockWorld None None.
Definition still (w : lock_world) (t : Z) (w' : lock_world) : Prop := False.
Definition token_of (p : Z) : option string := token_text boot (stat p).
(** A process of the node that does not force its way. *)
Definition contender (p : lprog (result InstanceLock string)) : Prop :=
  exists node_id pid, 0 <= pid <= u32_max /\ alive pid = true /\ p = acquire node_id false pid.
Notation lock_exec := (exec lock_perform fst contender still lock_start).

(** *** What a process has done and seen *)
Inductive stage :=
| Idle
| Made
| Named (text : string)
| Cleared (text : string)
| Opened (text : string)
| Held (text tok : string)
| Onlooker (seen : option Z).

(** [None] once an answer could not have been. *)
Definition stage_upd (s : option stage) (a : lock_action) (r : lock_answer a) : option stage :=
  match s, a, r with
  | None, _, _ => None
  | _, ReadBootId, r => if bool_decide (r = None \/ r = boot) then s else None
  | _, ReadStat p, r => if bool_decide (r = None \/ r = stat p) then s else None
  | Some Idle, CreateNew PidFile, Ok _ => Some Made
  | Some Idle, CreateNew PidFile, Err e =>
      match io_kind_of e with AlreadyExists => Some (Onlooker None) | _ => None end
  | Some Made, WriteSync PidFile text, Ok _ => Some (Named text)
  | Some (Named text), RemoveFile MetaFile, Err e =>
      match io_kind_of e with NotFound => Some (Cleared text) | _ => None end
  | Some (Cleared text), CreateNew MetaFile, Ok _ => Some (Opened text)
  | Some (Opened text), WriteSync MetaFile token, Ok _ => Some (Held text token)
  | Some (Onlooker None), ReadFile PidFile, r => Some (Onlooker (let! text := r in parse_uint u32_max (trim text)))
  | Some (Onlooker (Some p)), ReadFile MetaFile, r =>
      match r with
      | Some x => if str_is_empty (trim x) || bool_decide (Some (trim x) = token_of p) then s else None
      | None => s
      end
  | Some (Onlooker _), PidState _, r => match r with Absent => None | _ => s end
  | Some Idle, MakeDir, _ => s
  | _, _, _ => None
  end.
Definition pid_read (text : option string) : option Z := let! text := text in parse_uint u32_max (trim text).
Definition names (text : string) (p : Z) : Prop := text = pretty p /\ 0 <= p <= u32_max /\ alive p = true.
Definition stage_ok (s : option stage) (a : lock_action) : Prop :=
  match s, a with
  | None, _ => True
  | Some Idle, (MakeDir | ReadBootId | ReadStat _ | CreateNew PidFile) => True
  | Some Made, WriteSync PidFile text => exists p, names text p
  | Some (Named _), RemoveFile MetaFile => True
  | Some (Cleared _), CreateNew MetaFile => True
  | Some (Opened text), WriteSync MetaFile token => exists p, names text p /\ token_of p = Some token
  | Some (Onlooker None), ReadFile PidFile => True
  | Some (Onlooker (Some p)), (ReadFile MetaFile | ReadBootId | ReadStat _) => True
  | Some (Onlooker (Some p)), PidState q => q = p
  | _, _ => False
  end.
Definition stage_fin (s : option stage) (r : result InstanceLock string) : Prop :=
  match s, r with
  | None, Err _ | None, Ok _ => True
  | Some (Named text), Ok l => text = pretty (il_owner_pid l) /\ il_owner_token l = None
  | Some (Held text token), Ok l => text = pretty (il_owner_pid l) /\ il_owner_token l = Some token
  | Some (Idle | Onlooker _), Err _ => True
  | _, _ => False
  end.

Lemma along_impossible {R} (fin : option stage -> R -> Prop) p :
  (forall r, fin None r) -> along stage_upd stage_ok fin None p.
Proof. intros Hf. induction p as [r|a k IH]; [apply Hf|]. split; [done|]. intros r. apply IH. Qed.

Lemma trim_pretty p : 0 <= p -> trim (pretty p) = pretty p.
Proof.
  intros Hp. apply trim_id. assert (exists m : N, pretty p = pretty m) as (m & ->).
  { destruct p as [|p|p]; [by exists 0%N|by exists (N.pos p)|lia]. }
  destruct (decide (m = 0)%N) as [->|H0]; [done|].
  assert (pretty m = pretty_N_go m EmptyString) as -> by (unfold pretty, pretty_N; by rewrite decide_False).
  destruct (pretty_go_decimal m) as (Ha & _). revert Ha. apply str_all_mono. intros c Hc. unfold is_ascii_digit, no_ws_byte in *. lia.
Qed.
Lemma read_names text p : names text p -> parse_uint u32_max (trim text) = Some p.
Proof. intros (-> & Hp & _). rewrite trim_pretty by lia. by apply parse_uint_pretty. Qed.

(** An onlooker never finds the process it saw gone. *)
Definition not_stale (s : option stage) (r : OwnerState) : Prop :=
  match s with Some (Onlooker _) => r <> Stale | None => True | _ => False end.
Definition file_token (text : option string) : option string :=
  let! text := text in if str_is_empty (trim text) then None else Some (trim text).
Lemma onlooker_reads p recorded :
  let s := stage_upd (Some (Onlooker (Some p))) (ReadFile MetaFile) recorded in
  s = None \/ s = Some (Onlooker (Some p)) /\ forall t, file_token recorded = Some t -> token_of p = Some t.
Proof.
  destruct recorded as [x|]; simpl; [|by right]. destruct (str_is_empty (trim x)); simpl; [by right|].
  case_bool_decide as Hx; [|by auto]. right. split; [done|]. intros t Ht. by rewrite <- Hx.
Qed.
Lemma owner_current p : along stage_upd stage_ok not_stale (Some (Onlooker (Some p))) (owner_state p).
Proof.
  split; [done|]. intros [| |]; [|by apply along_impossible|done].
  split; [done|]. intros recorded. change (stage_upd _ (ReadFile MetaFile) recorded) with (stage_upd (Some (Onlooker (Some p))) (ReadFile MetaFile) recorded).
  destruct (onlooker_reads p recorded) as [Es|[Es Ht]]; rewrite Es; [by apply along_impossible|].
  cbn [prog_bind]. change (let! text := recorded in _) with (file_token recorded).
  revert Ht. generalize (file_token recorded). intros rec Ht.
  split; [done|]. intros b. cbn [stage_upd]. case_bool_decide as Hb; [|by apply along_impossible].
  destruct b as [b|]; [|by destruct rec]. split; [done|]. intros r. cbn [stage_upd]. case_bool_decide as Hr; [|by apply along_impossible].
  simpl. destruct rec as [t|]; [|done]. specialize (Ht t eq_refl). unfold token_of in Ht.
  destruct Hb as [?|<-]; [done|]. destruct Hr as [-> | ->]; [done|].
  change (not_stale (Some (Onlooker (Some p))) (match token_text (Some b) (stat p) with Some c => if t <>? c then Stale else Current | None => Current end)).
  rewrite Ht. by rewrite String.eqb_refl.
Qed.

(** ** Every path of taking the lock *)
Definition own_fin (pid : Z) (s : option stage) (t : option string) : Prop :=
  match s with Some Idle => t = None \/ t = token_of pid | None => True | _ => False end.
Lemma own_token pid : along stage_upd stage_ok (own_fin pid) (Some Idle) (process_token pid).
Proof.
  split; [done|]. intros b. cbn [stage_upd]. case_bool_decide as Hb; [|by apply along_impossible].
  destruct b as [b|]; [|by left]. split; [done|]. intros r. cbn [stage_upd]. case_bool_decide as Hr; [|by apply along_impossible].
  destruct Hb as [?|Hb]; [done|]. destruct Hr as [-> | ->]; [by left|]. right. unfold token_of. by rewrite <- Hb.
Qed.
Definition create_fin (pid : Z) (token : option string) (s : option stage) (r : result unit io_error) : Prop :=
  match s, r with
  | None, _ => True
  | Some (Named text), Ok _ => text = pretty pid /\ token = None
  | Some (Held text t), Ok _ => text = pretty pid /\ token = Some t
  | Some (Onlooker None), Err e => io_kind_of e = AlreadyExists
  | _, _ => False
  end.
Lemma create_path pid token :
  0 <= pid <= u32_max -> alive pid = true -> token = None \/ token = token_of pid ->
  along stage_upd stage_ok (create_fin pid token) (Some Idle) (create_pidfile pid token).
Proof.
  intros Hp Ha Htok. assert (names (pretty pid) pid) as Hn by done.
  split; [done|]. intros [[]|e]; cbn [stage_upd].
  - split; [by exists pid|]. intros [[]|e]; [|by apply along_impossible]. destruct token as [t|]; [|done].
    split; [done|]. intros [[]|e]; [by apply along_impossible|]. cbn [stage_upd]. destruct (io_kind_of e); try by apply along_impossible.
    split; [done|]. intros [[]|e']; [|by apply along_impossible].
    split; [|by intros [[]|?]; [|apply along_impossible]]. exists pid. split; [done|]. by destruct Htok.
  - destruct (io_kind_of e) eqn:Ek; try by apply along_impossible. done.
Qed.
Lemma contender_path node_id pid :
  0 <= pid <= u32_max -> alive pid = true ->
  along stage_upd stage_ok stage_fin (Some Idle) (acquire node_id false pid).
Proof.
  intros Hp Ha. split; [done|]. intros [[]|e]; [|done].
  eapply along_bind; [apply (own_token pid)|]. intros [[]|] own Ht; try done; [|by apply along_impossible; intros []].
  cbn [prog_bind]. unfold acquire_attempts. eapply along_bind; [by apply create_path|].
  intros s r Hr. destruct r as [[]|e].
  - destruct s as [[]|]; simpl in *; try done. by destruct seen.
  - destruct s as [[| | | | | |[]]|]; try done; [|by apply along_impossible; intros []]. simpl in Hr. rewrite Hr.
    split; [done|]. intros text. cbn [andb].
    change (let! text := text in parse_uint u32_max (trim text)) with (pid_read text).
    change (stage_upd _ _ text) with (Some (Onlooker (pid_read text))). destruct (pid_read text) as [p|]; [|done].
    eapply (along_bind _ _ (fun s st => match s, st with Some (Onlooker _), Some st => st <> Stale | None, _ => True | _, _ => False end)).
    + eapply along_bind; [apply owner_current|]. intros [[]|] st Hs; done.
    + intros [[| | | | | |seen]|] st Hs; try done; [|by apply along_impossible; intros []].
      destruct st as [st|]; [|done]. by destruct st.
Qed.

(** ** What holds of all processes *)
Hypothesis tokens_bare : forall p t, token_of p = Some t -> trim t = t.

(** The files as the holder has left them. *)
Definition left_by (s : stage) (w : lock_world) : Prop :=
  match s with
  | Made => w = LockWorld (Some EmptyString) None
  | Named text | Cleared text => w = LockWorld (Some text) None /\ exists p, names text p
  | Opened text => w = LockWorld (Some text) (Some EmptyString) /\ exists p, names text p
  | Held text tok => w = LockWorld (Some text) (Some tok) /\ exists p, names text p /\ token_of p = Some tok
  | Idle | Onlooker _ => False
  end.
(** The others have seen nobody but the holder. *)
Definition bystander (s : option stage) (w : lock_world) : Prop :=
  match s with
  | Some Idle => True
  | Some (Onlooker seen) => forall p, seen = Some p -> exists text, w_pid w = Some text /\ names text p
  | _ => False
  end.
Definition lock_inv (g : nat -> option stage) (w : lock_world) : Prop :=
  (w = lock_start /\ forall i, g i = Some Idle) \/
  exists h s, g h = Some s /\ left_by s w /\ forall i, i <> h -> bystander (g i) w.
Definition moved (g : nat -> option stage) (i : nat) (s : option stage) (j : nat) : option stage :=
  if bool_decide (i = j) then s else g j.

(** The holder goes on. *)
Lemma holder_step s a e r w w' :
  left_by s w -> stage_ok (Some s) a -> lock_perform w e a = (r, w') ->
  exists s', stage_upd (Some s) a r = Some s' /\ left_by s' w' /\ (w_pid w' = w_pid w \/ w_pid w = Some EmptyString).
Proof.
  intros Hw Ha Hp. destruct s as [|t0|t1|t1|t1|t1 k1|seen]; try done; destruct a as [| |q|f|f text|f|f|q]; try done; try (destruct f; try done);
    unfold left_by in Hw; match type of Hw with _ /\ _ => destruct Hw as [-> Hn] | _ => subst w end; simpl in Hp;
    injection Hp as <- <-; simpl; eexists; (split; [reflexivity|split; [unfold left_by; eauto|by auto]]).
Qed.
Lemma read_text text p : names text p -> pid_read (Some text) = Some p.
Proof. apply read_names. Qed.
(** The files of a holder name it. *)
Lemma left_read s w p : left_by s w -> pid_read (w_pid w) = Some p -> exists text, w_pid w = Some text /\ names text p.
Proof.
  intros Hs Hp. assert (w_pid w = Some EmptyString \/ exists text q, w_pid w = Some text /\ names text q) as [E|(text & q & E & Hn)].
  { destruct s; try done; simpl in Hs; [by subst; left| | | |]; destruct Hs as [-> Hn]; right; naive_solver. }
  - by rewrite E in Hp.
  - rewrite E, (read_text _ _ Hn) in Hp. injection Hp as <-. eauto.
Qed.
Lemma names_inj text p q : names text p -> names text q -> p = q.
Proof. intros Hp%read_names Hq%read_names. congruence. Qed.
(** The second file has the token of the process the first one names. *)
Lemma left_token s w p text tok :
  left_by s w -> w_pid w = Some text -> names text p -> w_meta w = Some tok ->
  str_is_empty (trim tok) = true \/ token_of p = Some (trim tok).
Proof.
  intros Hs Ht Hn Hm. destruct s as [|t0|t1|t1|t1|t1 k1|seen]; try done; simpl in Hs; match type of Hs with _ /\ _ => destruct Hs as [-> Hq] | _ => subst w end;
    simpl in Hm; simplify_eq; [by left|right]. destruct Hq as (q & Hq & Htok). simpl in Ht. simplify_eq.
  assert (p = q) as -> by by eapply names_inj. by rewrite (tokens_bare _ _ Htok).
Qed.
(** Another process looks. *)
Lemma bystander_step s st a e r w w' :
  left_by s w -> bystander st w -> stage_ok st a -> lock_perform w e a = (r, w') ->
  w' = w /\ bystander (stage_upd st a r) w.
Proof.
  intros Hs Hb Ha Hp. destruct st as [[| | | | | |seen]|]; try done.
  - destruct a as [| |q|f|f text|f|f|q]; try done.
    + by injection Hp as <- <-.
    + injection Hp as <- <-. split; [done|]. simpl. rewrite bool_decide_true; [done|]. destruct e.2; auto.
    + injection Hp as <- <-. split; [done|]. simpl. rewrite bool_decide_true; [done|]. destruct e.2; auto.
    + destruct f; [|done]. simpl in Hp. assert (exists text, w_pid w = Some text) as (text & E).
      { destruct s; try done; simpl in Hs; match type of Hs with _ /\ _ => destruct Hs as [-> Hq] | _ => subst w end; eauto. }
      rewrite E in Hp. by injection Hp as <- <-.
  - destruct a as [| |q|f|f text|f|f|q]; try (by destruct seen); try by (destruct seen, f).
    + injection Hp as <- <-. split; [done|]. destruct seen; [|done]. simpl. rewrite bool_decide_true; [done|]. destruct e.2; auto.
    + injection Hp as <- <-. split; [done|]. destruct seen; [|done]. simpl. rewrite bool_decide_true; [done|]. destruct e.2; auto.
    + injection Hp as <- <-. split; [done|]. destruct seen as [p|], f; try done.
      * simpl. destruct e.2; [done|]. destruct (w_meta w) as [tok|] eqn:Em; [|done]. destruct (Hb p eq_refl) as (text & Et & Hn).
        destruct (left_token _ _ _ _ _ Hs Et Hn Em) as [-> | ->]; [done|]. rewrite bool_decide_true, orb_true_r by done. done.
      * simpl. destruct e.2; [done|]. intros p Hr. by eapply left_read.
    + injection Hp as <- <-. split; [done|]. destruct seen as [p|]; [|done]. simpl in Ha. subst q.
      destruct (Hb p eq_refl) as (text & Et & Hn). destruct Hn as (? & ? & Hal). simpl. rewrite Hal. by destruct e.2.
Qed.

(** The first process to create the file. *)
Lemma idle_step a e r w' :
  stage_ok (Some Idle) a -> lock_perform lock_start e a = (r, w') ->
  stage_upd (Some Idle) a r = Some Idle /\ w' = lock_start \/ stage_upd (Some Idle) a r = Some Made /\ left_by Made w'.
Proof.
  intros Ha Hp. destruct a as [| |q|f|f text|f|f|q]; try done; try (destruct f; [|done]); simpl in Hp; injection Hp as <- <-;
    [by left|left|left|by right]; simpl; rewrite bool_decide_true by (destruct e.2; auto); done.
Qed.
Lemma lock_inv_ext g g' w : (forall i, g i = g' i) -> lock_inv g w -> lock_inv g' w.
Proof.
  intros E [[-> Hg]|(h & s & Hh & Hs & Hb)]; [left|right]; [split; [done|]; intros i; by rewrite <- E|].
  exists h, s. rewrite <- E. split_and!; [done..|]. intros i Hi. rewrite <- E. by apply Hb.
Qed.
Lemma bystander_world s w w' : w_pid w' = w_pid w -> bystander s w -> bystander s w'.
Proof. destruct s as [[]|]; try done. simpl. by intros ->. Qed.
Lemma lock_inv_step g i a e r w w' :
  lock_inv g w -> stage_ok (g i) a -> lock_perform w e a = (r, w') -> lock_inv (moved g i (stage_upd (g i) a r)) w'.
Proof.
  intros [[-> Hg]|(h & s & Hh & Hs & Hb)] Ha Hp.
  - rewrite Hg in *. destruct (idle_step _ _ _ _ Ha Hp) as [[E ->]|[E Hs]]; rewrite E.
    + left. split; [done|]. intros j. unfold moved. by case_bool_decide.
    + right. exists i, Made. unfold moved. rewrite bool_decide_true by done. split_and!; [done..|].
      intros j Hj. rewrite bool_decide_false, Hg by done. done.
  - right. destruct (decide (i = h)) as [->|Hi].
    + rewrite Hh in *. destruct (holder_step _ _ _ _ _ _ Hs Ha Hp) as (s' & Es & Hs' & Hw). exists h, s'. unfold moved.
      rewrite bool_decide_true by done. split_and!; [done..|]. intros j Hj. rewrite bool_decide_false by done.
      specialize (Hb j Hj). destruct Hw as [Hw|Hw]; [by eapply bystander_world|].
      destruct (g j) as [[| | | | | |seen]|]; try done. intros p Hsn. destruct (Hb p Hsn) as (text & E & Hn).
      rewrite Hw in E. injection E as <-. pose proof (read_names _ _ Hn). done.
    + destruct (bystander_step _ _ _ _ _ _ _ Hs (Hb i Hi) Ha Hp) as [-> Hb']. exists h, s. unfold moved.
      rewrite bool_decide_false by done. split_and!; [done..|]. intros j Hj. case_bool_decide; [by subst|by apply Hb].
Qed.
Notation stage_after := (ghost stage_upd (Some Idle)).
Lemma contenders_along q : contender q -> along stage_upd stage_ok stage_fin (Some Idle) q.
Proof. intros (node_id & pid & Hp & Ha & ->). by apply contender_path. Qed.
Lemma lock_invariant tr t w ts : lock_exec tr t w ts -> lock_inv (fun i => stage_after i tr) w.
Proof.
  induction 1 as [|tr t w ts q Hx IH Hh|tr t w w' ts Hx IH He|tr t w ts j b k e q w' Hx IH Hp Ht Hw]; [|done..|].
  - by left.
  - destruct (exec_along _ _ _ _ _ _ _ _ _ _ contenders_along Hx Hp) as [Hok _].
    eapply lock_inv_ext; [|exact (lock_inv_step _ _ _ _ _ _ _ IH Hok Hw)]. intros i. unfold moved. simpl.
    by case_bool_decide; subst.
Qed.
(** Who has the lock. *)
Lemma winner_stage tr t w ts i l :
  lock_exec tr t w ts -> ts !! i = Some (Ret (Ok l)) ->
  (forall j, j <> i -> bystander (stage_after j tr) w) /\ w = LockWorld (Some (pretty (il_owner_pid l))) (il_owner_token l).
Proof.
  intros Hx Hi. pose proof (exec_along _ _ _ _ _ _ _ _ _ _ contenders_along Hx Hi) as Hf. simpl in Hf.
  destruct (lock_invariant _ _ _ _ Hx) as [[_ Hg]|(h & s & Hh & Hs & Hb)]; [by rewrite Hg in Hf|].
  destruct (decide (i = h)) as [->|Hne].
  - split; [done|]. rewrite Hh in Hf. destruct s; try done; destruct Hf as [-> ->]; by destruct Hs as [-> _].
  - specialize (Hb i Hne). destruct (stage_after i tr) as [[]|]; done.
Qed.

(** At most one process serves a node.  However the processes that take the
    lock of a node without forcing it are interleaved, whatever of the boot
    number, the process records and the lock files cannot be read on the way, when
    one of them has been told that it holds the lock, both files are its own and no
    other process is told so.  The lock starts free, its takers are running, and
    their start tokens have no white space around them. *)
Theorem node_lock_exclusive tr t w ts i l :
  lock_exec tr t w ts -> ts !! i = Some (Ret (Ok l)) ->
  w = LockWorld (Some (pretty (il_owner_pid l))) (il_owner_token l)
  /\ forall j l', ts !! j = Some (Ret (Ok l')) -> j = i.
Proof.
  intros Hx Hi. destruct (winner_stage _ _ _ _ _ _ Hx Hi) as [Hb Hw]. split; [done|]. intros j l' Hj.
  destruct (decide (j = i)) as [|Hne]; [done|]. specialize (Hb j Hne).
  pose proof (exec_along _ _ _ _ _ _ _ _ _ _ contenders_along Hx Hj) as Hf. simpl in Hf.
  by destruct (stage_after j tr) as [[]|].
Qed.
End processes.

(** *** A race for a free lock *)
Definition sample_boot : option string := Some (str_of_codes [97; 98; 99; 10]).
Definition sample_stat (p : Z) : option string :=
  let ticks (x : string) := Some ("1 (iicp-node) S 1 1 1 0 -1 4194304 1 0 0 0 1 1 0 0 20 0 1 0 " +:+ x +:+ " 5 6") in
  if p =? 5 then ticks "95" else if p =? 7 then ticks "97" else if p =? 8 then ticks "98" else None.
Notation contest := (lprog (result InstanceLock string)).
Definition go (i n : nat) : list (contest + nat * (Z * bool)) := replicate n (inr (i, (0, false))).
Definition told (r : sys lock_answer (result InstanceLock string) lock_world) : list (option (result InstanceLock string)) :=
  map (fun p => match p with Ret x => Some x | Act _ _ => None end) r.2.
Definition race_takers : list (contest + nat * (Z * bool)) :=
  [inl (acquire "n" false 7); inl (acquire "n" false 8)].
Definition race_sched : list (contest + nat * (Z * bool)) :=
  race_takers ++ go 0 2 ++ go 1 3 ++ go 0 2 ++ go 1 1 ++ go 0 5 ++ go 1 9.
Definition race_run := run_sched (lock_perform sample_boot sample_stat (fun _ => true)) fst lock_start race_sched.
Definition sample_lock (p : Z) : InstanceLock := mkLock p (Some ("abc:9" +:+ pretty p)).
Example race_told : told race_run = [Some (Ok (sample_lock 7)); Some (Err (already_serving "n" (Some 7)))]
  /\ race_run.1.2 = LockWorld (Some "7") (Some "abc:97").
Proof. split; vm_compute; reflexivity. Qed.
Lemma sample_tokens p t : token_of sample_boot sample_stat p = Some t -> trim t = t.
Proof.
  unfold token_of, sample_stat. destruct (p =? 5); [|destruct (p =? 7); [|destruct (p =? 8); [|done]]];
    intros Ht; vm_compute in Ht; injection Ht as <-; by vm_compute.
Qed.
Lemma race_taker p : 0 <= p <= u32_max -> contender (fun _ => true) (acquire "n" false p).
Proof. intros Hp. exists "n", p. split_and!; [lia..|done|reflexivity]. Qed.
Lemma race_legal : Forall (fun x : contest + nat * (Z * bool) => match x with inl p => contender (fun _ => true) p | inr _ => True end) race_sched.
Proof.
  unfold race_sched. apply Forall_app. split.
  - apply Forall_cons. split; [by apply race_taker|]. apply Forall_cons. split; [by apply race_taker|]. by apply Forall_nil.
  - repeat apply Forall_app_2; by apply Forall_replicate.
Qed.
Lemma race_exec :
  exec (lock_perform sample_boot sample_stat (fun _ => true)) fst (contender (fun _ => true)) still lock_start
    race_run.1.1.1 race_run.1.1.2 race_run.1.2 race_run.2.
Proof.
  assert (let '(tr, t, w, ts) := race_run in
    exec (lock_perform sample_boot sample_stat (fun _ => true)) fst (contender (fun _ => true)) still lock_start tr t w ts) as Hx.
  { exact (run_sched_exec (perform := lock_perform sample_boot sample_stat (fun _ => true)) (now := fst) still (w0 := lock_start) race_sched race_legal). }
  revert Hx. generalize race_run. intros [[[tr t] w] ts]. done.
Qed.
Lemma race_winner : race_run.2 !! 0%nat = Some (Ret (Ok (sample_lock 7))).
Proof. vm_compute. reflexivity. Qed.
Lemma node_lock_exclusive_witness :
  race_run.1.2 = LockWorld (Some "7") (Some "abc:97")
  /\ forall j l', race_run.2 !! j = Some (Ret (Ok l')) -> j = 0%nat.
Proof.
  exact (node_lock_exclusive sample_boot sample_stat (fun _ => true) sample_tokens _ _ _ _ 0 (sample_lock 7) race_exec race_winner).
Defined.

(** *** Two holders
    A lock of a dead process: two processes judge it, the first takes it, and the
    second removes what the first has just made. *)
Definition stale_start : lock_world := LockWorld (Some "5") None.
Definition stale_sched : list (contest + nat * (Z * bool)) :=
  race_takers ++ go 0 6 ++ go 1 6 ++ go 0 9 ++ go 1 9.
Definition stale_run := run_sched (lock_perform sample_boot sample_stat (fun p => negb (p =? 5))) fst stale_start stale_sched.
Example stale_told : told stale_run = [Some (Ok (sample_lock 7)); Some (Ok (sample_lock 8))].
Proof. vm_compute. reflexivity. Qed.

(** The holder leaves: the process after it is named in the first file while the
    second file is still the old holder's, so a third one takes it for dead. *)
Definition leaving : contest := run! _ := drop_lock (sample_lock 5) in Ret (Err "left").
Definition leave_start : lock_world := LockWorld (Some "5") (Some "abc:95").
Definition leave_sched : list (contest + nat * (Z * bool)) :=
  race_takers ++ [inl leaving] ++ go 2 3 ++ go 0 5 ++ go 1 11 ++ go 1 5 ++ go 0 3 ++ go 2 1.
Definition leave_run := run_sched (lock_perform sample_boot sample_stat (fun _ => true)) fst leave_start leave_sched.
Example leave_told : told leave_run = [Some (Ok (sample_lock 7)); Some (Ok (sample_lock 8)); Some (Err "left")].
Proof. vm_compute. reflexivity. Qed.
